(* ===== verification/_CoqProject ===== *)
-Q . S2P
Prelude.v
PyStr.v
Regex.v
Shlex.v
Errors.v
Validation.v
Json.v
Effects.v
Stable.v
Dto.v
Bytes.v
Ports.v
DockerCore.v
Containers.v
ContainerSpec.v
Bulk.v
BulkSpec.v
Images.v
Resources.v
System.v
Compose.v
ComposeSpec.v
Output.v
Template.v
RateLimit.v
Sse.v
Auth.v
Script.v
Codec.v
Pagination.v
Stateful.v
Ownership.v
Schedule.v
ScriptBatch.v
Registry.v
Outbox.v
Assets.v
Packs.v
PackSpec.v
PackInv.v
Commands.v
CommandSpec.v
Query.v
Nodes.v
NodeInv.v
NodeService.v
NodeServiceSpec.v
Config.v
ConfigSpec.v
Ssh.v
SshSpec.v
KnownHosts.v
Threads.v
KnownHostsSpec.v
Users.v
Tables.v
UsersSpec.v
Library.v
LibrarySpec.v
WebSocket.v
WebSocketSpec.v
Security.v
GitHub.v
Registries.v
RegistrySpec.v
Float64.v
NodeMetrics.v
PackQueries.v
Favorites.v
Executions.v
ExecutionsSpec.v
Startup.v
Responses.v
