(* ===== verification/Prelude.v ===== *)
(** * Node Nexus API: a verification development

    Node Nexus is a control plane over remote servers: HTTP handlers call application
    services, which resolve a node, build a shell command, run it over SSH through a port,
    turn the outcome into a result or a domain error, and write an audit trail.  This
    development models the services around remote Docker and Compose, with everything they
    stand on, and proves what they promise.

    ** How the program is modelled

    A Python [str] is the list of its code points ([PyStr]); the character database beyond
    ASCII is a parameter (class [Unicode]).  A Python call returns or raises: [Errors.res].
    A service method is a tree of calls on its ports ([Effects.prog]): [Do c k] makes the
    call [c] and continues with [k] on the answer, which may be an exception; [try_except]
    is [try]/[except]; [gather] runs workers under [asyncio.gather] in the interleaving that
    its argument [sched] selects.  [run] executes a tree against an oracle for the world;
    [wp p h G Q] says that from history [h], whatever the answers, every call satisfies the
    guarantee [G] and every outcome the postcondition [Q] ([wp_run], [wp_calls] connect the
    two).  So the theorems hold for every behaviour of nodes, database and audit sink.

    ** Files

    - [Prelude]: this header; notation, automation, lists, Python dictionaries.
    - [PyStr], [Regex], [Shlex], [Json], [Bytes]: what the services use of the language and
      its standard library - string methods, [re] (derivatives, proved against the language
      of an expression), [shlex.quote]/[shlex.split] with a POSIX shell lexer [sh_lex] that
      keeps operators apart from words, [json.loads], UTF-8 and base64.
    - [Errors]: [app/core/exceptions.py], [app/core/error_sanitize.py] and the handler of
      [app/api/error_mapping.py].
    - [Validation]: [app/core/docker_validation.py].
    - [Dto]: the records of [app/application/dto/].
    - [Effects], [Ports]: call trees and their logic; the ports of the services as a
      signature of calls ([docker_call]), and the process's environment (class [Host]).
    - [DockerCore]: [command_builder.py], [command_runner.py], [error_mapper.py] and
      [parsers.py] of [app/application/services/docker/]; the rules of the logic for them and
      [wp_step], which executes a service symbolically.
    - [Containers], [ContainerSpec]: [container_service.py], operation by operation, and what
      it promises: [op_argv] gives the argument vector each operation means, [required_intent]
      the audit intent it must commit first, [op_validate] the checks on its arguments.
    - [Bulk], [BulkSpec]: [bulk_service.py]; preparation, workers and collection, and the
      position-wise specification of what comes back.
    - [Images], [Resources], [System]: [image_service.py], [resource_service.py],
      [system_service.py], each with its promises at the end of its file.
    - [Compose], [ComposeSpec]: [app/application/services/compose_service.py] and the kill
      handler of [app/api/v2/compose_handlers/].
    - [Output]: [app/application/policies/output.py] and [audit.py]: byte-bounded output and
      redaction of audit details.
    - [Template]: [app/core/template.py], the renderer of command templates, and the words of a
      template ([template_lex]), which do not look at any value.
    - [RateLimit]: the sliding window of [RateLimitMiddleware] ([app/api/middleware.py]).
    - [Sse]: [app/application/services/sse_broadcaster.py] with the streams of
      [app/api/v2/events.py], over the store of queues they share.
    - [Auth]: API keys and sessions ([api_key_authentication.py], [api_key_management.py],
      [auth_service.py]) and the dependencies of [app/api/deps.py], over ports of their own.
    - [Script]: [script_execution_service.py]: resolution of steps and targets, and the run of
      the resolved steps on one node.
    - [Codec]: the decoders of the standard library behind cursors (Base64, Unicode, [json.loads]
      of bytes); [Pagination]: [app/api/pagination.py] and the pages of the list handlers.
    - [Stateful]: call trees run against handlers that keep a state, their executions and logic.
    - [Ownership]: the replicas and the advisory lock ([scheduler_ownership.py] and the
      ownership part of [apscheduler_runtime.py]); a step relation over all replicas.
    - [Schedule]: [schedule_management.py], [schedule_reconciliation.py], [schedule_restorer.py],
      [scheduled_script_executor.py] as call trees over the gateway [persistence/schedule.py]
      and the job operations of [apscheduler_runtime.py], which are their handler.
    - [ScriptBatch]: [ScriptExecutionService.execute_script], the fan-out of a script over
      nodes with its batch timeout and its records; [Registry]: [execution_registry.py] and
      [execution_lifecycle_service.py] over the tables.
    - [Outbox]: the audit outbox, from [audit_event_service.py] to [audit_outbox_worker.py],
      as a step relation over any number of workers.
    - [Assets]: the files of template packs ([template_pack.py], [template_asset.py]); [Packs]:
      the transactions of [SqlAlchemyTemplatePackGateway] on the tables they touch;
      [PackSpec]: what an installation creates and when it fails; [PackInv]: the invariant of
      the tables over all histories, and what follows from it.
    - [Commands]: [ssh_executor.py], [node_command_service.py], [command_execution_service.py]
      and [node_bulk_command_service.py]; [CommandSpec]: what runs, after which intent, what is
      recorded, and how failures are reported.
    - [Query]: what the repositories ask of the database: pages, keyset pages, [ILIKE] searches;
      [Nodes]: the tables of nodes and of their status history with every gateway over them
      ([persistence/dao/node.py], [node_management.py], [node_reader.py],
      [node_bulk_operator.py], [node_status_history.py]); [NodeInv]: their invariant, tag edits,
      listing and cursors.  [NodeService]: [node_management_service.py] and
      [node_bulk_operation_service.py]; [NodeServiceSpec]: what they promise, also over the
      tables.
    - [Config]: [persistence/config.py] and [config_service.py] over the tables of [Nodes] and
      [Packs]; [ConfigSpec]: what an import creates, its preview, and the round trip.
    - [Ssh]: [app/adapters/runtime/ssh.py], the connector whose fields its operations share, and
      the queue of a streamed command as a step relation; [SshSpec]: what sessions release, what
      commands answer, what a consumer of events sees.
    - [KnownHosts]: [known_hosts.py] and [node_host_key_service.py]; [Threads]: call trees that
      run concurrently over a state and one lock, with a rely-guarantee logic; [KnownHostsSpec]:
      what requests add to the file, alone and together.
    - [Users]: the tables of users, refresh tokens and API keys with the gateways over them
      ([persistence/user.py], [api_key.py], [dao/user.py], [dao/refresh_token.py]) and
      [user_service.py]; [Tables]: a table one of whose columns is unique; [UsersSpec]: the
      invariant, and the services of [Auth] over the tables.
    - [Library]: stored commands and scripts, from the gateways ([command_management.py],
      [script_gateway.py]) and services to the handlers; [LibrarySpec]: their invariant, clones,
      bulk creations, and what becomes of a step that names its command.
    - [WebSocket]: [app/api/v2/websocket.py] and [streaming_command_service.py], the handler of a
      socket and the task of its command, which a step relation interleaves; [WebSocketSpec]:
      access, the life of commands, and when a remote process is killed.
    - [Security]: the adapters of [app/adapters/security/]: the cipher of credentials with the
      rotation of its key, tokens and hashes, over cryptography as a parameter.
    - [GitHub]: [app/adapters/github/template_source.py]; [Registries]: the rows of registries
      ([persistence/template_registry.py]), [template_registry_service.py] and the handlers of
      [templates_handlers/registries.py]; [RegistrySpec]: what is read from a repository, what
      a synchronization stores, and the tokens.
    - [Float64]: the doubles of the interpreter; [NodeMetrics]: [node_metrics_service.py] and the
      handler that collects the metrics of many nodes; [PackQueries]: the listing of packs and
      the archive of their files; [Favorites]: the table of favorites with its service and handlers.
    - [Stable]: the logic of workers that rely on what has been called before them, whatever
      others call in between; [Executions]: the handlers under [executions_handlers/], of
      commands and of scripts, over [Commands], [ScriptBatch] and [Registry]; [ExecutionsSpec]:
      what they promise.
    - [Startup]: [core/config.py], [adapters/lifecycle/application_startup.py] and the lifespan of
      [app/main.py].
    - [Responses]: the error documents and the stack of middleware of [create_app]
      ([api/error_mapping.py], [api/middleware.py], [commit_middleware.py]).

    ** What the theorems show

    - Command lines ([container_command_lines], [image_command_lines],
      [resource_command_lines], [compose_command_lines], and the bulk theorems): what a shell
      reads in each executed line is exactly the intended words, for any argument - so no
      argument can inject syntax.  The exceptions are stated as theorems:
      [compose_kill_signal_reaches_the_shell], [image_name_language].
    - Ordering ([container_intent_before_effect], [image_intent_before_effect],
      [container_single_effect], [container_invalid_input_reaches_nothing]).
    - Results ([bulk_results_in_order], [bulk_image_results_in_order], [compose_verb_results],
      [list_all_projects_complete]): one result per target, in order, under any interleaving.
    - Error paths ([docker_error_mapping], [public_error_contract], [exec_reports_failures],
      [bulk_worker_reports_status], [bulk_silent_failure_is_success]).
    - Parsing and validation ([parse_json_lines_keeps_objects], [logs_keep_both_streams],
      [created_container_is_last_line], [prune_ids_only_on_the_header_line],
      [reference_validators], [mapping_validators_keep_entries]).
    - Templates and scripts ([render_command_outcome], [rendered_values_are_words],
      [quoted_placeholder_injects], [documented_placeholder_is_not_substituted],
      [script_run_on_node], [inline_steps_take_no_parameters], [script_batch_recorded],
      [script_batch_failure], [cancel_reaches_registered_tasks]).
    - Access ([write_requires_authorization], [login_issues_to_verified_users],
      [refresh_rotates_the_presented_token], [created_key_is_stored_hashed]), accounts
      ([account_tables_consistent], [refresh_token_exchanged_once], [session_life_cycle],
      [api_key_life_cycle]) and exposure
      ([bound_output_longest_prefix], [audit_details_redaction]).
    - State machines ([rate_limit_window], [rate_limit_bounded], [sse_delivery],
      [sse_dropped_stream_gets_nothing_new]): invariants over all sequences of requests, and
      of subscriptions, publications and reads.
    - Pages ([cursor_round_trip], [cursor_walk_complete], [numbered_page_equivalence]): cursors
      are read back; following them reads as many rows as there are, each once if all queries see
      one order; and when numbered pages skip rows.
    - The scheduler ([scheduler_single_owner],
      [reconcile_refines_projection], [create_or_update_outcome], [schedule_states_well_formed],
      [execute_records_outcome], [delete_removes_row_and_job]): who executes,
      call by call - two replicas may, after a lost session or while one releases -, and what the
      runtime holds, although the use cases, the reconciliation loop and the runs overlap.
    - The audit outbox ([outbox_exactly_once], [outbox_drains], [outbox_payload_round_trip]):
      each event reaches the log once, under any interleaving, and eventually, although polls fail.
    - Packs ([pack_tables_consistent], [install_uninstall_restores], [install_pack_outcome],
      [update_is_reinstallation], [unique_name_fresh]) and their files
      ([asset_content_round_trip], [asset_paths_stay_inside], [decoded_assets_within_limits]).
    - Commands over SSH ([node_command_outcome], [stored_command_outcome],
      [check_connectivity_outcome], [bulk_command_outcome], [bulk_intents_before_commands],
      [validate_credentials_outcome]).
    - Nodes ([node_tables_consistent], [bulk_tags_outcome], [node_listing_outcome],
      [node_pages_complete], [node_writes_are_sealed], [tag_requests_outcome],
      [bulk_check_outcome]): the tables over all histories, what clients see that page through
      them while they change, and credentials that leave the service only encrypted.
    - Configuration ([load_all_total], [import_config_outcome], [preview_matches_import],
      [export_import_round_trip]).
    - The SSH adapter ([session_releases_resources], [captured_output_is_bounded],
      [remote_command_outcome], [signal_requests_outcome], [streamed_events_ordered],
      [streamed_command_cleanup], [stream_command_words], [exit_overtakes_output]): what stays open
      depends on the call of the clean-up that failed; and known
      hosts ([ensure_host_outcome], [refresh_host_outcome], [concurrent_hosts_added_once],
      [substring_counts_as_present], [failed_refresh_removes_entries]).
    - The library ([clone_outcome], [bulk_create_outcome], [creation_read_back],
      [named_step_is_lost]): what creations store, and what can be read back.
    - The command socket ([stream_requires_write_access], [stream_session_cleanup],
      [stream_never_stuck], [abort_only_when_client_left], [stream_frames_follow_events]), in
      every interleaving of the client, the handler and the running command.
    - Secrets ([credential_round_trip], [credential_errors], [token_types_separate]).
    - Registries ([fetched_packs_bounded], [sync_converges], [registry_tokens_kept]): what a
      server can make the reader ask for, what a synchronization writes and leaves, and that
      tokens are kept.
    - Metrics ([metrics_within_bounds], [bulk_metrics_in_order]): readings stay within the bounds
      of the answer's schema; archives and searches of packs ([created_pack_archive],
      [pack_search_outcome], [tar_chunks]); what becomes of a favorite ([favorite_outcome]).
    - The edge: batches of executions ([executions_outcome], [script_executions_outcome],
      [lifecycle_outcome]), in every interleaving of their items; the order of the start
      ([serving_requires_startup], [superuser_ensured]); every response and when its request is
      committed ([response_contract]).

    ** Fuel

    [json.loads] takes [2 * length s + 2] ([Json.loads_errors] shows that it never runs out);
    [list_all_go] is the loop of [list_all_projects] and takes one unit per page
    ([list_all_projects_complete] says how much is enough); [load_all_go] reads one page per unit
    ([load_all_total]); [delete_all] takes one unit per character; the method resolution order takes
    six, more than the depth of any exception class.  [gather] needs none: [sched] picks the
    worker that moves next, and what is left when it ends runs in order.

    ** What is not modelled

    Structured log calls and metrics (no result depends on them); the database, SSH and HTTP
    libraries, which appear as ports; request schemas; cancellation of a task from outside, other
    than as a call that raises.
    Floating-point text conversion, ISO-8601 parsing and SHA-256 are parameters.
    Not modelled: the query services of executions and audit logs; the listing of installations;
    the wiring of the container; what pydantic checks in a request.
    In [Compose], of the HTTP handlers only the one for kills is modelled.  A reading
    of the clock is an integer: nanoseconds in [RateLimit], microseconds elsewhere.  In [Packs]
    and [Nodes] identifiers are numbers drawn from a counter, and the tables are those of the
    constraints the gateways rely on; what a column type refuses is a parameter ([PackColumns] for
    packs and their files).  Their operations are transactions that do not overlap, while
    [Schedule], [Outbox] and [Ownership] interleave calls.  The order of
    an unordered query is a parameter too ([Query.Scans]), and so is the lower case of the
    database ([Query.Collation]).
*)
From stdpp Require Export prelude list strings.
From Stdlib Require Export Ascii ZArith NArith Lia.
#[export] Set Warnings "-clear-no-such-hyp".

(** ** Notation and automation *)

Declare Scope py_scope.
Delimit Scope py_scope with py.

(** A Python [str] is the list of its code points. *)
Abbreviation pystr := (list N).

(** [lit] turns an (ASCII) Rocq literal into a Python string. *)
Definition lit (s : string) : pystr := Ascii.N_of_ascii <$> String.list_ascii_of_string s.
Arguments lit : simpl never.
Notation "# s" := (lit s%string) (at level 9, s at level 0, format "# s") : py_scope.
Open Scope py_scope.
Open Scope list_scope.

Create HintDb py.
Create Rewrite HintDb py.

(** Linear arithmetic with division by constants. *)
Ltac dlia := zify; Z.to_euclidean_division_equations; lia.

(** Case analysis on every [match] / [if] of the goal, closing what computes. *)
Ltac split_matches :=
  repeat (case_match; simplify_eq/=; try done).

(** Turn boolean hypotheses and goals into propositions. *)
Ltac to_prop :=
  repeat match goal with
    | H : _ && _ = true |- _ => apply andb_true_iff in H as [? ?]
    | H : _ || _ = false |- _ => apply orb_false_iff in H as [? ?]
    | H : negb _ = true |- _ => apply negb_true_iff in H
    | H : negb _ = false |- _ => apply negb_false_iff in H
    | H : N.eqb _ _ = true |- _ => apply N.eqb_eq in H
    | H : N.eqb _ _ = false |- _ => apply N.eqb_neq in H
    | H : N.leb _ _ = true |- _ => apply N.leb_le in H
    | H : N.leb _ _ = false |- _ => apply N.leb_gt in H
    | H : N.ltb _ _ = true |- _ => apply N.ltb_lt in H
    | H : N.ltb _ _ = false |- _ => apply N.ltb_ge in H
    | H : Z.eqb _ _ = true |- _ => apply Z.eqb_eq in H
    | H : Z.eqb _ _ = false |- _ => apply Z.eqb_neq in H
    | H : Z.leb _ _ = true |- _ => apply Z.leb_le in H
    | H : Z.leb _ _ = false |- _ => apply Z.leb_gt in H
    | H : Z.ltb _ _ = true |- _ => apply Z.ltb_lt in H
    | H : Z.ltb _ _ = false |- _ => apply Z.ltb_ge in H
    | H : bool_decide _ = true |- _ => apply bool_decide_eq_true in H
    | H : bool_decide _ = false |- _ => apply bool_decide_eq_false in H
    end.

(** ** Lists *)

Lemma forallb_app_iff {A} (f : A -> bool) (l k : list A) :
  forallb f (l ++ k) = forallb f l && forallb f k.
Proof. induction l as [|a l IH]; [done|]. cbn. by rewrite IH, andb_assoc. Qed.

Lemma forallb_impl {A} (f g : A -> bool) (l : list A) :
  (forall a, f a = true -> g a = true) -> forallb f l = true -> forallb g l = true.
Proof. intros Hfg. rewrite !forallb_forall. eauto. Qed.

Lemma forallb_flat_map {A B} (f : B -> bool) (g : A -> list B) (l : list A) :
  forallb f (flat_map g l) = forallb (fun a => forallb f (g a)) l.
Proof.
  induction l as [|a l IH]; [done|]. cbn. by rewrite forallb_app_iff, IH.
Qed.

#[export] Hint Rewrite @forallb_app_iff @length_app @length_fmap : py.

(** Count of the elements that satisfy a boolean test ([sum(1 for ...)]). *)
Definition count {A} (f : A -> bool) (l : list A) : Z :=
  Z.of_nat (length (List.filter f l)).

Lemma count_nonneg {A} (f : A -> bool) (l : list A) : (0 <= count f l)%Z.
Proof. unfold count. lia. Qed.

Lemma count_le_length {A} (f : A -> bool) (l : list A) :
  (count f l <= Z.of_nat (length l))%Z.
Proof.
  unfold count. induction l as [|a l IH]; cbn; [lia|]. destruct (f a); cbn; lia.
Qed.

Lemma count_all {A} (f : A -> bool) (l : list A) :
  count f l = Z.of_nat (length l) <-> forallb f l = true.
Proof.
  induction l as [|a l IH]; [done|]. pose proof (count_le_length f l) as Hle.
  unfold count in *. cbn. destruct (f a); cbn; [rewrite <- IH; lia|].
  split; [lia|done].
Qed.

Lemma count_app {A} (f : A -> bool) (l k : list A) :
  count f (l ++ k) = (count f l + count f k)%Z.
Proof. unfold count. rewrite List.filter_app, length_app. lia. Qed.

Lemma count_cons {A} (f : A -> bool) (a : A) (l : list A) :
  count f (a :: l) = ((if f a then 1 else 0) + count f l)%Z.
Proof. unfold count. cbn. destruct (f a); cbn; lia. Qed.

#[export] Hint Resolve count_nonneg count_le_length : py.

Lemma filter_none {A} (f : A -> bool) l : (forall x, x ∈ l -> f x = false) -> List.filter f l = [].
Proof. induction l as [|x l IH]; intros Hf; [done|]. cbn. rewrite Hf by by left. apply IH. intros. apply Hf. by right. Qed.
Lemma filter_all {A} (f : A -> bool) l : (forall x, x ∈ l -> f x = true) -> List.filter f l = l.
Proof. induction l as [|x l IH]; intros Hf; [done|]. cbn. rewrite Hf by by left. f_equal. apply IH. intros. apply Hf. by right. Qed.

(** ** Python dictionaries: insertion-ordered association lists with unique keys *)

Section dict.
Context {K V : Type} `{EqDecision K}.

Fixpoint dict_get (d : list (K * V)) (k : K) : option V :=
  match d with
  | [] => None
  | (k', v) :: d => if decide (k' = k) then Some v else dict_get d k
  end.

(** [d[k] = v]: replaces in place, or appends a new key. *)
Fixpoint dict_set (d : list (K * V)) (k : K) (v : V) : list (K * V) :=
  match d with
  | [] => [(k, v)]
  | (k', v') :: d => if decide (k' = k) then (k', v) :: d else (k', v') :: dict_set d k v
  end.

(** [d.pop(k, None)]. *)
Definition dict_pop (d : list (K * V)) (k : K) : list (K * V) :=
  List.filter (fun kv => negb (bool_decide (kv.1 = k))) d.

(** [dict(pairs)]: later pairs win, keys keep their first position. *)
Definition dict_of (pairs : list (K * V)) : list (K * V) :=
  fold_left (fun d kv => dict_set d kv.1 kv.2) pairs [].

Definition dict_mem (d : list (K * V)) (k : K) : bool :=
  if dict_get d k is Some _ then true else false.

Lemma dict_get_set_eq d k v : dict_get (dict_set d k v) k = Some v.
Proof.
  induction d as [|[k' v'] d IH]; cbn.
  - by rewrite decide_True.
  - destruct (decide (k' = k)) as [->|]; cbn; [by rewrite decide_True|].
    by rewrite decide_False.
Qed.

Lemma dict_get_set_ne d k k' v : k <> k' -> dict_get (dict_set d k v) k' = dict_get d k'.
Proof.
  intros Hne. induction d as [|[k0 v0] d IH]; cbn; [by rewrite decide_False|].
  destruct (decide (k0 = k)) as [Heq|]; cbn; repeat case_decide; congruence.
Qed.

Lemma dict_get_pop_eq d k : dict_get (dict_pop d k) k = None.
Proof.
  induction d as [|[k' v'] d IH]; [done|]. unfold dict_pop in *. cbn.
  case_bool_decide; cbn; [done|]. by rewrite decide_False.
Qed.

Lemma dict_get_pop_ne d k k' : k <> k' -> dict_get (dict_pop d k) k' = dict_get d k'.
Proof.
  intros Hne. induction d as [|[k0 v0] d IH]; [done|]. unfold dict_pop in *. cbn.
  case_bool_decide; cbn.
  - subst. by rewrite decide_False.
  - destruct (decide (k0 = k')); [done|]. by rewrite IH.
Qed.

Lemma dict_get_elem d k v : dict_get d k = Some v -> (k, v) ∈ d.
Proof.
  induction d as [|[k' v'] d IH]; cbn; [done|].
  destruct (decide (k' = k)) as [->|]; [intros [= ->]; by left|]. intros ?. right. auto.
Qed.

Lemma dict_set_keys d k v :
  (dict_set d k v).*1 = if decide (k ∈ d.*1) then d.*1 else d.*1 ++ [k].
Proof.
  induction d as [|[k' v'] d IH]; cbn.
  - rewrite decide_False; [done|]. apply not_elem_of_nil.
  - destruct (decide (k' = k)) as [->|Hne]; cbn.
    + rewrite decide_True; [done|]. by left.
    + rewrite IH. destruct (decide (k ∈ d.*1)) as [Hin|Hin].
      * rewrite decide_True; [done|]. by right.
      * rewrite decide_False; [done|]. by intros [->|]%elem_of_cons.
Qed.

Lemma dict_set_NoDup d k v : NoDup d.*1 -> NoDup (dict_set d k v).*1.
Proof.
  intros Hnd. rewrite dict_set_keys. case_decide as Hin; [done|].
  apply NoDup_app; split_and!; [done| |apply NoDup_singleton].
  intros x Hx Hx'. apply list_elem_of_singleton in Hx'. by subst.
Qed.

Lemma dict_set_app d k v : k ∉ d.*1 -> dict_set d k v = d ++ [(k, v)].
Proof.
  induction d as [|[k' v'] d IH]; cbn; [done|]. intros Hin.
  rewrite decide_False by (intros ->; apply Hin; by left).
  rewrite IH; [done|]. intros ?. apply Hin. by right.
Qed.

Lemma dict_of_NoDup pairs : NoDup (dict_of pairs).*1.
Proof.
  unfold dict_of. assert (Hnil : NoDup (@nil (K * V)).*1) by constructor.
  revert Hnil. generalize (@nil (K * V)).
  induction pairs as [|[k v] pairs IH]; intros d Hd; [done|].
  cbn. apply IH. by apply dict_set_NoDup.
Qed.

(** A list of pairs with distinct keys is already a dictionary. *)
Lemma dict_of_id pairs : NoDup pairs.*1 -> dict_of pairs = pairs.
Proof.
  unfold dict_of. enough (forall acc, NoDup (acc ++ pairs).*1 ->
    fold_left (fun d kv => dict_set d kv.1 kv.2) pairs acc = acc ++ pairs) as H by
    (intros Hnd; by apply (H [])).
  induction pairs as [|[k v] pairs IH]; intros acc Hnd; cbn.
  - by rewrite app_nil_r.
  - rewrite fmap_app in Hnd. cbn in Hnd. apply NoDup_app in Hnd as (? & Hdis & ?).
    rewrite dict_set_app by (intros Hin; apply (Hdis k Hin); by left).
    rewrite IH; rewrite <- app_assoc; [done|].
    rewrite fmap_app. apply NoDup_app; split_and!; [done|done|done].
Qed.

Lemma elem_of_dict_set d k v k' : k' ∈ (dict_set d k v).*1 <-> k' = k \/ k' ∈ d.*1.
Proof.
  induction d as [|[k1 v1] d IH]; cbn; [by rewrite list_elem_of_singleton, elem_of_nil; tauto|].
  destruct (decide (k1 = k)) as [->|]; cbn; rewrite !elem_of_cons; [tauto|]. rewrite IH. tauto.
Qed.

Lemma dict_get_NoDup d k v : NoDup d.*1 -> (k, v) ∈ d -> dict_get d k = Some v.
Proof.
  induction d as [|[k1 v1] d IH]; [intros _ Hin; by apply elem_of_nil in Hin|].
  cbn. intros [Hni Hnd]%NoDup_cons [[= -> ->]|Hin]%elem_of_cons; [by rewrite decide_True|].
  rewrite decide_False; [by apply IH|]. intros ->. apply Hni.
  apply list_elem_of_fmap. by exists (k, v).
Qed.
End dict.

(** Keys, and the operations of lists on dictionaries. *)
Lemma dict_set_map {K V} `{EqDecision K} (d : list (K * V)) k v : NoDup d.*1 -> k ∈ d.*1 ->
  dict_set d k v = (fun kv => if decide (kv.1 = k) then (k, v) else kv) <$> d.
Proof.
  induction d as [|[k' v'] d IH]; intros Hnd Hin; [by apply elem_of_nil in Hin|]. cbn in *.
  apply NoDup_cons in Hnd as [Hk Hnd]. destruct (decide (k' = k)) as [->|Hne].
  - f_equal. symmetry. rewrite <- (list_fmap_id d) at 2. apply list_fmap_ext. intros i [j u] Hi. cbn.
    rewrite decide_False; [done|]. intros ->. apply Hk, list_elem_of_fmap. exists (k, u). split; [done|].
    by eapply list_elem_of_lookup_2.
  - f_equal. apply IH; [done|]. by apply elem_of_cons in Hin as [->|Hin].
Qed.

Lemma dict_get_key {K V} `{EqDecision K} (d : list (K * V)) k : k ∈ d.*1 <-> is_Some (dict_get d k).
Proof.
  split.
  - induction d as [|[j v] d IH]; cbn; [by intros ?%elem_of_nil|]. intros Hin. destruct (decide (j = k)); [by eexists|].
    apply IH. by apply elem_of_cons in Hin as [->|?].
  - intros [v Hv%dict_get_elem]. apply list_elem_of_fmap. by exists (k, v).
Qed.

Lemma dict_get_app_new {K V} `{EqDecision K} (d : list (K * V)) k v j :
  dict_get (d ++ [(k, v)]) j = match dict_get d j with Some u => Some u | None => if decide (k = j) then Some v else None end.
Proof. induction d as [|[i u] d IH]; cbn; [done|]. by destruct (decide (i = _)). Qed.

Lemma dict_get_fmap_snd {K V U} `{EqDecision K} (g : V -> U) (d : list (K * V)) k : dict_get (prod_map id g <$> d) k = g <$> dict_get d k.
Proof. induction d as [|[i u] d IH]; cbn; [done|]. by destruct (decide (i = _)). Qed.

Lemma filter_keys {K V} `{EqDecision K} (f : K * V -> bool) d : NoDup d.*1 -> NoDup (List.filter f d).*1.
Proof.
  induction d as [|[k v] d IH]; [done|]. cbn. intros [Hk Hnd]%NoDup_cons. destruct (f (k, v)); cbn; [|by apply IH].
  constructor; [|by apply IH]. intros ([j u] & -> & Hin)%list_elem_of_fmap. apply Hk.
  apply list_elem_of_In, filter_In in Hin as [Hin _]. apply list_elem_of_In in Hin. apply list_elem_of_fmap. by exists (j, u).
Qed.

Lemma dict_get_filter {K V} `{EqDecision K} (f : K * V -> bool) d k v : NoDup d.*1 ->
  dict_get (List.filter f d) k = Some v -> dict_get d k = Some v.
Proof.
  intros Hnd Hg. apply dict_get_elem in Hg. apply list_elem_of_In, filter_In in Hg as [Hg _].
  apply dict_get_NoDup; [done|]. by apply list_elem_of_In.
Qed.

(** Mapping the values of a dict commutes with building it. *)
Lemma dict_set_fmap {K V U} `{EqDecision K} (g : V -> U) (d : list (K * V)) k v :
  dict_set (prod_map id g <$> d) k (g v) = prod_map id g <$> dict_set d k v.
Proof.
  induction d as [|[k' v'] d IH]; [done|]. rewrite fmap_cons. cbn [dict_set prod_map fst snd].
  cbn. destruct (decide (k' = k)); cbn; [done|]. by rewrite <- IH.
Qed.
Lemma dict_of_fmap {K V U} `{EqDecision K} (g : V -> U) (d : list (K * V)) :
  dict_of (prod_map id g <$> d) = prod_map id g <$> dict_of d.
Proof.
  unfold dict_of. change (@nil (K * U)) with (prod_map id g <$> @nil (K * V)).
  generalize (@nil (K * V)). induction d as [|[k v] d IH]; intros acc; [done|].
  cbn. rewrite <- IH. by rewrite <- dict_set_fmap.
Qed.

#[export] Hint Rewrite @dict_get_set_eq @dict_get_pop_eq : py.
#[export] Hint Resolve dict_set_NoDup dict_of_NoDup : py.

(** Membership and lookup after each edit. *)
Lemma elem_snd {K V} (d : list (K * V)) v : v ∈ d.*2 <-> exists k, (k, v) ∈ d.
Proof.
  rewrite list_elem_of_fmap. split; [by intros ([k v'] & -> & Hin); exists k|]. intros [k Hin]. by exists (k, v).
Qed.
Lemma elem_fst {K V} (d : list (K * V)) k v : (k, v) ∈ d -> k ∈ d.*1.
Proof. intros Hin. apply list_elem_of_fmap. by exists (k, v). Qed.
Lemma elem_filter {A} (f : A -> bool) l x : x ∈ List.filter f l <-> x ∈ l /\ f x = true.
Proof. rewrite !list_elem_of_In. apply filter_In. Qed.
Lemma dict_get_set {K V} `{EqDecision K} (d : list (K * V)) k v j :
  dict_get (dict_set d k v) j = if decide (j = k) then Some v else dict_get d j.
Proof. case_decide as E; [subst; apply dict_get_set_eq|by apply dict_get_set_ne]. Qed.
Lemma dict_get_pop {K V} `{EqDecision K} (d : list (K * V)) k j :
  dict_get (dict_pop d k) j = if decide (j = k) then None else dict_get d j.
Proof. case_decide as E; [subst; apply dict_get_pop_eq|by apply dict_get_pop_ne]. Qed.
Lemma dict_get_snoc {K V} `{EqDecision K} (d : list (K * V)) k v j : dict_get d k = None ->
  dict_get (d ++ [(k, v)]) j = if decide (j = k) then Some v else dict_get d j.
Proof.
  intros Hk. induction d as [|[i w] d IH]; cbn in *; [by repeat case_decide; subst|].
  repeat case_decide; subst; try done; by apply IH.
Qed.
