(* ===== verification/PyStr.v ===== *)
(** * Python strings

    Code-point strings and the part of Python's [str] the services use:
    character classes, [strip], [split], [splitlines], [lower], [startswith],
    [in], [join], [replace], [str(int)], [int(str)] restricted to decimal
    digits and [repr].  The tables of the interpreter's Unicode database are
    the class [Unicode]; they are consulted only for code points >= 128. *)
From S2P Require Import Prelude.

(** ** The Unicode character database *)

Class Unicode := {
  u_decimal : N -> bool;   (** category Nd: regex \d *)
  u_decimal_value : N -> N; (** the digit's value, for [int] *)
  u_digit : N -> bool;     (** [str.isdigit] *)
  u_alnum : N -> bool;     (** [str.isalnum]: regex \w is this or '_' *)
  u_space : N -> bool;     (** [str.isspace] *)
  u_printable : N -> bool; (** [str.isprintable] *)
  u_lower : N -> pystr;    (** [str.lower] of one character *)
}.

(** A database that knows nothing beyond ASCII, for concrete runs. *)
Definition ascii_only : Unicode := {|
  u_decimal _ := false; u_decimal_value _ := 0%N; u_digit _ := false; u_alnum _ := false; u_space _ := false;
  u_printable _ := false; u_lower c := [c] |}.

(** ** Characters *)

Section chars.
Open Scope N_scope.

Definition in_range (lo hi c : N) : bool := (lo <=? c) && (c <=? hi).
Definition is_ascii (c : N) : bool := c <? 128.
Definition ascii_digit (c : N) : bool := in_range 48 57 c.
Definition ascii_upper (c : N) : bool := in_range 65 90 c.
Definition ascii_lower (c : N) : bool := in_range 97 122 c.
Definition ascii_alpha (c : N) : bool := ascii_upper c || ascii_lower c.
Definition ascii_alnum (c : N) : bool := ascii_alpha c || ascii_digit c.
(** Membership in a literal set of characters. *)
Definition one_of (s : pystr) (c : N) : bool := existsb (N.eqb c) s.
(** The blanks of ASCII: \t \n \v \f \r, FS GS RS US and the space. *)
Definition ascii_space (c : N) : bool := in_range 9 13 c || in_range 28 32 c.

Context `{Unicode}.
Definition is_space (c : N) : bool := if is_ascii c then ascii_space c else u_space c.
Definition re_digit (c : N) : bool := if is_ascii c then ascii_digit c else u_decimal c.
Definition re_word (c : N) : bool :=
  if is_ascii c then ascii_alnum c || (c =? 95) else u_alnum c.
Definition lower_char (c : N) : pystr :=
  if is_ascii c then [if ascii_upper c then c + 32 else c] else u_lower c.
Definition is_printable (c : N) : bool :=
  if is_ascii c then in_range 32 126 c else u_printable c.
Definition isdigit_char (c : N) : bool := if is_ascii c then ascii_digit c else u_digit c.
End chars.

Definition str_eqb (s t : pystr) : bool := bool_decide (s = t).

Lemma str_eqb_eq s t : str_eqb s t = true <-> s = t.
Proof. apply bool_decide_eq_true. Qed.

(** ** Prefixes, substrings, splitting *)

Fixpoint startswith (s p : pystr) : bool :=
  match p, s with
  | [], _ => true
  | c :: p, d :: s => (c =? d)%N && startswith s p
  | _, _ => false
  end.

Definition endswith (s p : pystr) : bool := startswith (rev s) (rev p).

(** [p in s]. *)
Fixpoint contains (s p : pystr) : bool :=
  startswith s p || match s with [] => false | _ :: s => contains s p end.

Fixpoint drop_while (f : N -> bool) (s : pystr) : pystr :=
  match s with [] => [] | c :: r => if f c then drop_while f r else s end.

Definition rstrip_by (f : N -> bool) (s : pystr) : pystr := rev (drop_while f (rev s)).
Definition strip_by (f : N -> bool) (s : pystr) : pystr := rstrip_by f (drop_while f s).

(** [sep.join(parts)]. *)
Fixpoint join (sep : pystr) (parts : list pystr) : pystr :=
  match parts with
  | [] => []
  | [p] => p
  | p :: parts => p ++ sep ++ join sep parts
  end.

(** [s.split(c)] for a one-character separator: always at least one field. *)
Fixpoint split_on (c : N) (s : pystr) : list pystr :=
  match s with
  | [] => [[]]
  | d :: s =>
      if (d =? c)%N then [] :: split_on c s
      else match split_on c s with [] => [[d]] | f :: fs => (d :: f) :: fs end
  end.

(** [s.split(c, 1)]: splits at the first occurrence only. *)
Fixpoint split_once (c : N) (s : pystr) : list pystr :=
  match s with
  | [] => [[]]
  | d :: s =>
      if (d =? c)%N then [[]; s]
      else match split_once c s with [] => [[d]] | f :: fs => (d :: f) :: fs end
  end.

(** Last element of [xs[-1]] on a non-empty list. *)
Definition last_of (xs : list pystr) : pystr := List.last xs [].

Section blanks.
Context `{Unicode}.

Definition strip (s : pystr) : pystr := strip_by is_space s.
Definition lower (s : pystr) : pystr := flat_map lower_char s.
Definition isdigit (s : pystr) : bool :=
  match s with [] => false | _ => forallb isdigit_char s end.

(** [s.split()]: maximal runs of non-blank characters. *)
Fixpoint split_ws_go (cur : pystr) (s : pystr) : list pystr :=
  match s with
  | [] => match cur with [] => [] | _ => [rev cur] end
  | c :: s =>
      if is_space c
      then match cur with [] => split_ws_go [] s | _ => rev cur :: split_ws_go [] s end
      else split_ws_go (c :: cur) s
  end.
Definition split_ws (s : pystr) : list pystr := split_ws_go [] s.
End blanks.

(** Line boundaries of [str.splitlines]. *)
Definition is_linebreak (c : N) : bool :=
  (in_range 10 13 c || in_range 28 30 c || (c =? 133) || (c =? 8232) || (c =? 8233))%N.

Fixpoint splitlines_go (cur : pystr) (s : pystr) : list pystr :=
  match s with
  | [] => match cur with [] => [] | _ => [rev cur] end
  | c :: s' =>
      if is_linebreak c
      then rev cur :: (if (c =? 13)%N
                       then match s' with
                            | d :: s'' => if (d =? 10)%N then splitlines_go [] s''
                                          else splitlines_go [] s'
                            | [] => []
                            end
                       else splitlines_go [] s')
      else splitlines_go (c :: cur) s'
  end.
Definition splitlines (s : pystr) : list pystr := splitlines_go [] s.

(** ** Integers *)

Section ints.
Open Scope N_scope.

Fixpoint digits_go (fuel : nat) (n : N) (acc : pystr) : pystr :=
  match fuel with
  | O => acc
  | S fuel => if n <? 10 then (48 + n) :: acc
              else digits_go fuel (n / 10) ((48 + n mod 10) :: acc)
  end.
Definition str_N (n : N) : pystr := digits_go (S (N.size_nat n)) n [].
(** [str(z)]. *)
Definition str_Z (z : Z) : pystr :=
  match z with
  | Z0 => [48]
  | Zpos p => str_N (Npos p)
  | Zneg p => 45 :: str_N (Npos p)
  end.
End ints.

(** Value of a string of ASCII digits. *)
Definition digits_value (s : pystr) : N :=
  fold_left (fun n c => 10 * n + (c - 48))%N s 0%N.

(** ** [int(str)]

    Blanks around, an optional sign, decimal digits of any script with single
    underscores between them, at most 4300 digits; [None] is [ValueError]. *)
Section int_of_str.
Context `{Unicode}.
Open Scope N_scope.

Definition decimal_value (c : N) : option N :=
  if is_ascii c then (if ascii_digit c then Some (c - 48) else None)
  else if u_decimal c then Some (u_decimal_value c) else None.
(** [after] says that a digit precedes, so that an underscore may follow. *)
Fixpoint int_digits (after : bool) (s : pystr) : option (list N) :=
  match s with
  | [] => if after then Some [] else None
  | c :: s =>
      if (c =? 95) && after then int_digits false s
      else match decimal_value c with
           | Some d => (fun ds => d :: ds) <$> int_digits true s
           | None => None
           end
  end.
Definition py_int (s : pystr) : option Z :=
  let s := strip s in
  let '(neg, body) := match s with
                      | c :: t => if c =? 45 then (true, t) else if c =? 43 then (false, t) else (false, s)
                      | [] => (false, [])
                      end in
  ds ← int_digits false body;
  if 4300 <? N.of_nat (length ds) then None
  else let n := Z.of_N (fold_left (fun n d => 10 * n + d) ds 0) in
       Some (if neg then - n else n)%Z.
End int_of_str.

(** ** [repr(str)] *)

Section repr.
Context `{Unicode}.
Open Scope N_scope.

Definition hex_digit (n : N) : N := if n <? 10 then 48 + n else 87 + n.
(** [k] lowercase hexadecimal digits, most significant first. *)
Fixpoint hex_fixed (k : nat) (n : N) : pystr :=
  match k with O => [] | S k => hex_fixed k (n / 16) ++ [hex_digit (n mod 16)] end.

Definition repr_char (q c : N) : pystr :=
  if (c =? 92) || (c =? q) then [92; c]
  else if c =? 9 then [92; 116] else if c =? 10 then [92; 110] else if c =? 13 then [92; 114]
  else if is_printable c then [c]
  else if c <? 256 then 92 :: 120 :: hex_fixed 2 c
  else if c <? 65536 then 92 :: 117 :: hex_fixed 4 c
  else 92 :: 85 :: hex_fixed 8 c.

(** Double quotes are chosen only when the text has a ' and no double quote. *)
Definition py_repr (s : pystr) : pystr :=
  let q := if one_of s 39 && negb (one_of s 34) then 34 else 39 in
  q :: flat_map (repr_char q) s ++ [q].
End repr.

(** ** Laws *)

Lemma one_of_In s c : one_of s c = true <-> In c s.
Proof.
  unfold one_of. rewrite existsb_exists. split.
  - intros (x & Hin & ->%N.eqb_eq). done.
  - intros Hin. exists c. by rewrite N.eqb_refl.
Qed.

Lemma startswith_spec s p : startswith s p = true <-> exists r, s = p ++ r.
Proof.
  revert s. induction p as [|c p IH]; intros [|d s]; cbn; try (split; [|done]; eauto; done).
  - split; [done|]. by intros [r Hr].
  - rewrite andb_true_iff, N.eqb_eq, IH. split.
    + intros [-> [r ->]]. eauto.
    + intros [r [= -> ->]]. eauto.
Qed.

Lemma contains_spec s p : contains s p = true <-> exists l r, s = l ++ p ++ r.
Proof.
  induction s as [|c s IH]; cbn [contains]; rewrite orb_true_iff, startswith_spec.
  - split.
    + intros [[r Hr]|?]; [|done]. by exists [], r.
    + intros (l & r & Heq). destruct l; [|done]. left. by exists r.
  - rewrite IH. split.
    + intros [[r ->]|(l & r & ->)]; [by exists [], r|]. by exists (c :: l), r.
    + intros ([|c' l] & r & Heq); [left; by exists r|].
      right. injection Heq as -> ->. eauto.
Qed.

(** A longer needle is only found where the shorter one is. *)
Lemma contains_trans s p q : contains s p = true -> contains p q = true -> contains s q = true.
Proof.
  rewrite !contains_spec. intros (l & r & ->) (l' & r' & ->).
  exists (l ++ l'), (r' ++ r). by rewrite !app_assoc.
Qed.

Lemma split_on_cons c s : exists f fs, split_on c s = f :: fs.
Proof.
  induction s as [|d s (f & fs & IH)]; cbn; [eauto|]. destruct (d =? c)%N; [eauto|].
  rewrite IH. eauto.
Qed.

(** Joining the fields with the separator gives the string back. *)
Lemma join_split_on c s : join [c] (split_on c s) = s.
Proof.
  induction s as [|d s IH]; [done|]. cbn.
  destruct (split_on_cons c s) as (f & fs & E). rewrite E in IH |- *.
  destruct (d =? c)%N eqn:Hd.
  - apply N.eqb_eq in Hd as ->. cbn. by rewrite <- IH.
  - destruct fs; cbn in *; by rewrite <- IH.
Qed.

(** No field contains the separator. *)
Lemma split_on_no_sep c s f : In f (split_on c s) -> ~ In c f.
Proof.
  revert f. induction s as [|d s IH]; cbn; [intros f [<-|[]]; tauto|].
  destruct (split_on_cons c s) as (g & gs & E). rewrite E in IH |- *.
  destruct (N.eqb_spec d c) as [->|Hne]; intros f.
  - intros [<-|Hin]; [tauto|]. by apply IH.
  - intros [<-|Hin]; [|apply IH; by right].
    intros [?|?]; [done|]. by apply (IH g); [left|].
Qed.

Lemma digits_go_digits fuel n acc :
  forallb ascii_digit acc = true -> forallb ascii_digit (digits_go fuel n acc) = true.
Proof.
  revert n acc. induction fuel as [|fuel IH]; intros n acc Hacc; [done|].
  cbn [digits_go]. destruct (N.ltb_spec n 10); [|apply IH]; cbn [forallb];
    rewrite Hacc, andb_true_r;
    unfold ascii_digit, in_range; apply andb_true_iff; rewrite !N.leb_le;
    [lia|].
  pose proof (N.mod_lt n 10 ltac:(done)) as Hm. generalize dependent (n mod 10)%N. lia.
Qed.

(** Every character of a printed integer is a digit or the sign. *)
Lemma str_Z_chars z : forallb (fun c => ascii_digit c || (c =? 45)%N) (str_Z z) = true.
Proof.
  assert (Hd : forall n, forallb (fun c => ascii_digit c || (c =? 45)%N) (str_N n) = true).
  { intros n. eapply forallb_impl; [|by apply digits_go_digits].
    intros c Hc. cbn beta. by rewrite Hc. }
  destruct z; cbn [str_Z]; [done|apply Hd|]. cbn [forallb]. by rewrite Hd.
Qed.

Lemma digits_value_app s c : digits_value (s ++ [c]) = (10 * digits_value s + (c - 48))%N.
Proof. unfold digits_value. by rewrite fold_left_app. Qed.

Lemma fold_digits_acc s k :
  fold_left (fun n c => 10 * n + (c - 48))%N s k = (k * 10 ^ N.of_nat (length s) + digits_value s)%N.
Proof.
  unfold digits_value. revert k. induction s as [|c s IH]; intros k; cbn [fold_left length].
  - cbn. lia.
  - rewrite IH. rewrite (IH (10 * 0 + (c - 48))%N). rewrite Nat2N.inj_succ, N.pow_succ_r'. ring.
Qed.

Lemma digits_go_value fuel n acc :
  (n < 10 ^ N.of_nat fuel)%N ->
  digits_value (digits_go fuel n acc) = (n * 10 ^ N.of_nat (length acc) + digits_value acc)%N.
Proof.
  revert n acc. induction fuel as [|fuel IH]; intros n acc Hn.
  - cbn in Hn. assert (n = 0)%N as -> by lia. cbn [digits_go]. lia.
  - rewrite Nat2N.inj_succ, N.pow_succ_r' in Hn. cbn [digits_go].
    destruct (N.ltb_spec n 10) as [Hlt|Hge].
    + unfold digits_value at 1. cbn [fold_left]. rewrite fold_digits_acc. lia.
    + rewrite IH by (apply N.Div0.div_lt_upper_bound; lia).
      unfold digits_value at 1. cbn [fold_left length]. rewrite fold_digits_acc.
      rewrite Nat2N.inj_succ, N.pow_succ_r'.
      pose proof (N.div_mod n 10 ltac:(done)) as Hdm. clear Hn Hge.
      generalize dependent (n / 10)%N. generalize (n mod 10)%N. intros r q ->.
      replace (48 + r - 48)%N with r by lia. ring.
Qed.

(** [int(str(n)) = n]. *)
Lemma str_N_value n : digits_value (str_N n) = n.
Proof.
  unfold str_N. rewrite digits_go_value; [cbn; lia|].
  rewrite Nat2N.inj_succ, N.pow_succ_r'.
  pose proof (N.size_gt n) as Hs.
  assert (N.of_nat (N.size_nat n) = N.size n) as ->.
  { clear Hs. destruct n as [|p]; [done|]. cbn [N.size_nat N.size].
    induction p as [p IHp|p IHp|]; [| |done]; cbn [Pos.size_nat Pos.size];
      rewrite Nat2N.inj_succ, IHp; done. }
  pose proof (N.pow_le_mono_l 2 10 (N.size n) ltac:(done)). lia.
Qed.

Lemma digits_go_nonempty fuel n acc : fuel <> O -> digits_go fuel n acc <> [].
Proof.
  revert n acc. induction fuel as [|fuel IH]; [done|]. intros n acc _. cbn [digits_go].
  destruct (n <? 10)%N; [done|]. destruct fuel; [done|]. by apply IH.
Qed.

Lemma str_Z_nonempty z : str_Z z <> [].
Proof. destruct z; [done| |done]; by apply digits_go_nonempty. Qed.

#[export] Hint Resolve str_Z_chars str_Z_nonempty : py.
#[export] Hint Rewrite join_split_on : py.
