(* ===== verification/Regex.v ===== *)
(** * Regular expressions

    The fragment of Python's [re] that the validators use (classes,
    concatenation, alternation, bounded and unbounded repetition), as an
    executable matcher by derivatives together with its language, and the
    two anchored entry points: [fullmatch], and [match] of a pattern that ends
    in [$] (which also accepts one trailing newline). *)
From S2P Require Import Prelude PyStr.

Inductive regex :=
| RVoid
| REps
| RChr (f : N -> bool)
| RSeq (r1 r2 : regex)
| RAlt (r1 r2 : regex)
| RStar (r : regex).

Definition RPlus (r : regex) : regex := RSeq r (RStar r).
Definition ROpt (r : regex) : regex := RAlt REps r.
Fixpoint RLit (s : pystr) : regex :=
  match s with [] => REps | c :: s => RSeq (RChr (N.eqb c)) (RLit s) end.
(** Between [n] and [n + k] repetitions. *)
Fixpoint RUpTo (k : nat) (r : regex) : regex :=
  match k with O => REps | S k => ROpt (RSeq r (RUpTo k r)) end.
Fixpoint RRep (n k : nat) (r : regex) : regex :=
  match n with O => RUpTo k r | S n => RSeq r (RRep n k r) end.

Fixpoint nullable (r : regex) : bool :=
  match r with
  | RVoid | RChr _ => false
  | REps | RStar _ => true
  | RSeq r1 r2 => nullable r1 && nullable r2
  | RAlt r1 r2 => nullable r1 || nullable r2
  end.

Fixpoint deriv (c : N) (r : regex) : regex :=
  match r with
  | RVoid | REps => RVoid
  | RChr f => if f c then REps else RVoid
  | RSeq r1 r2 =>
      if nullable r1 then RAlt (RSeq (deriv c r1) r2) (deriv c r2) else RSeq (deriv c r1) r2
  | RAlt r1 r2 => RAlt (deriv c r1) (deriv c r2)
  | RStar r => RSeq (deriv c r) (RStar r)
  end.

(** [pattern.fullmatch(s)]. *)
Fixpoint fullmatch (r : regex) (s : pystr) : bool :=
  match s with [] => nullable r | c :: s => fullmatch (deriv c r) s end.

(** [re.match] of the pattern [^r$]: [$] also matches before a final newline. *)
Definition match_dollar (r : regex) (s : pystr) : bool :=
  fullmatch r s || match rev s with
                   | c :: t => (c =? 10)%N && fullmatch r (rev t)
                   | [] => false
                   end.

(** ** The language of an expression *)

Inductive matches : regex -> pystr -> Prop :=
| m_eps : matches REps []
| m_chr f c : f c = true -> matches (RChr f) [c]
| m_seq r1 r2 s1 s2 : matches r1 s1 -> matches r2 s2 -> matches (RSeq r1 r2) (s1 ++ s2)
| m_alt_l r1 r2 s : matches r1 s -> matches (RAlt r1 r2) s
| m_alt_r r1 r2 s : matches r2 s -> matches (RAlt r1 r2) s
| m_star_nil r : matches (RStar r) []
| m_star_cons r s1 s2 : matches r s1 -> matches (RStar r) s2 -> matches (RStar r) (s1 ++ s2).
#[export] Hint Constructors matches : py.

Lemma nullable_spec r : nullable r = true <-> matches r [].
Proof.
  split.
  - induction r; cbn; intros H; to_prop; try done; eauto with py.
    + apply (m_seq _ _ [] []); auto.
    + apply orb_true_iff in H as [?|?]; eauto with py.
  - intros H. remember [] as s eqn:Es.
    induction H; cbn; try done; rewrite ?andb_true_iff, ?orb_true_iff; eauto.
    apply app_nil in Es as [-> ->]. eauto.
Qed.

(** Inversion of a non-empty iteration: its first step consumes a character. *)
Lemma star_inv r c s :
  matches (RStar r) (c :: s) -> exists s1 s2, s = s1 ++ s2 /\ matches r (c :: s1) /\ matches (RStar r) s2.
Proof.
  intros H. remember (RStar r) as r' eqn:Er. remember (c :: s) as t eqn:Et.
  revert c s Et Er. induction H as [| | | | | |r0 s1 s2 H1 _ H2 IH]; intros e u Et Er; try done.
  injection Er as ->. destruct s1 as [|d s1]; [by apply IH|].
  injection Et as -> <-. eauto.
Qed.

Lemma deriv_sound r c s : matches (deriv c r) s -> matches r (c :: s).
Proof.
  revert s. induction r; cbn; intros s H; try by inversion H.
  - destruct (f c) eqn:Hf; inversion H; subst. by constructor.
  - assert (Hseq : matches (RSeq (deriv c r1) r2) s -> matches (RSeq r1 r2) (c :: s)).
    { intros H'. inversion H' as [| |? ? s1 s2| | | |]; subst.
      apply (m_seq _ _ (c :: s1) s2); auto. }
    destruct (nullable r1) eqn:Hn; [|auto].
    inversion H; subst; [auto|]. apply nullable_spec in Hn.
    apply (m_seq _ _ [] (c :: s)); auto.
  - inversion H; subst; [apply m_alt_l|apply m_alt_r]; auto.
  - inversion H as [| |? ? s1 s2| | | |]; subst. apply (m_star_cons _ (c :: s1) s2); auto.
Qed.

Lemma deriv_complete r c s : matches r (c :: s) -> matches (deriv c r) s.
Proof.
  revert s. induction r; cbn; intros s H; try by inversion H.
  - inversion H as [|? ? Hf| | | | |]; subst. rewrite Hf. constructor.
  - inversion H as [| |? ? s1 s2 H1 H2 Heq| | | |]; subst. destruct s1 as [|d s1]; cbn in *.
    + apply nullable_spec in H1. subst. rewrite H1. apply m_alt_r. auto.
    + injection H3 as -> <-. destruct (nullable r1); [apply m_alt_l|]; apply m_seq; auto.
  - inversion H; subst; [apply m_alt_l|apply m_alt_r]; auto.
  - apply star_inv in H as (s1 & s2 & -> & H1 & H2). apply m_seq; auto.
Qed.

Lemma fullmatch_spec r s : fullmatch r s = true <-> matches r s.
Proof.
  revert r. induction s as [|c s IH]; intros r; cbn; [apply nullable_spec|].
  rewrite IH. split; [apply deriv_sound|apply deriv_complete].
Qed.

Lemma match_dollar_spec r s :
  match_dollar r s = true <-> matches r s \/ exists t, s = t ++ [10%N] /\ matches r t.
Proof.
  unfold match_dollar. rewrite orb_true_iff, fullmatch_spec.
  enough (match rev s with c :: t => (c =? 10)%N && fullmatch r (rev t) | [] => false end = true
          <-> exists t, s = t ++ [10%N] /\ matches r t) by tauto.
  destruct (rev s) as [|c t] eqn:E.
  - split; [done|]. intros (t & -> & _). by rewrite rev_app_distr in E.
  - rewrite andb_true_iff, N.eqb_eq, fullmatch_spec.
    apply (f_equal (@rev N)) in E. rewrite rev_involutive in E. cbn in E. subst s. split.
    + intros [-> H]. eauto.
    + intros (t' & Ht & H). apply app_inj_tail in Ht as [-> ->]. done.
Qed.

(** ** Consequences used by the validators *)

(** Every class of the expression is included in [P]. *)
Fixpoint classes_in (P : N -> bool) (r : regex) : Prop :=
  match r with
  | RVoid | REps => True
  | RChr f => forall c, f c = true -> P c = true
  | RSeq r1 r2 | RAlt r1 r2 => classes_in P r1 /\ classes_in P r2
  | RStar r => classes_in P r
  end.

Lemma matches_classes P r s : classes_in P r -> matches r s -> forallb P s = true.
Proof.
  intros Hc H. induction H; cbn in *; try done; rewrite ?forallb_app_iff; intuition auto;
    by rewrite ?andb_true_r, ?andb_true_iff; auto.
Qed.

Lemma matches_star_chr f s : matches (RStar (RChr f)) s <-> forallb f s = true.
Proof.
  split.
  - apply matches_classes. cbn. auto.
  - induction s as [|c s IH]; cbn; intros H; to_prop; [constructor|].
    apply (m_star_cons _ [c] s); [by constructor|auto].
Qed.

(** [^[f][g]*$], the shape of every identifier pattern. *)
Definition RIdent (f g : N -> bool) : regex := RSeq (RChr f) (RStar (RChr g)).

Lemma seq_inv r1 r2 s :
  matches (RSeq r1 r2) s -> exists u v, s = u ++ v /\ matches r1 u /\ matches r2 v.
Proof. inversion 1; subst; eauto. Qed.

Lemma lit_inv s t : matches (RLit s) t -> t = s.
Proof.
  revert t. induction s as [|c s IH]; intros t H; cbn in H; [by inversion H|].
  apply seq_inv in H as (u & v & -> & Hu & ->%IH). inversion Hu as [|? d E| | | | |]; subst.
  by apply N.eqb_eq in E as ->.
Qed.

Lemma fullmatch_ident f g s :
  fullmatch (RIdent f g) s = match s with [] => false | c :: s => f c && forallb g s end.
Proof.
  apply Bool.eq_iff_eq_true. rewrite fullmatch_spec. split.
  - intros H. inversion H as [| |? ? s1 s2 H1 H2| | | |]; subst.
    inversion H1; subst. cbn. apply andb_true_iff. split; [done|]. by apply matches_star_chr.
  - destruct s as [|c s]; [done|]. rewrite andb_true_iff. intros [Hf Hg].
    apply (m_seq _ _ [c] s); [by constructor|]. by apply matches_star_chr.
Qed.

(** [^[f]+$]. *)
Lemma fullmatch_plus f s :
  fullmatch (RPlus (RChr f)) s = match s with [] => false | _ => forallb f s end.
Proof. destruct s; apply (fullmatch_ident f f). Qed.

#[export] Hint Rewrite fullmatch_ident fullmatch_plus : py.
