(* ===== verification/Shlex.v ===== *)
(** * Shell words: [shlex.quote], [shlex.split] and what a shell reads

    [quote] and [shlex_split] are the two functions of Python's [shlex] the
    services call.  [sh_lex] is the specification side: a deliberately strict
    lexer of POSIX shell text that knows words, the operators [|] [&] [>] and
    the two quotings without expansions, and refuses everything else
    (newlines, [;], [$], backquotes, globs, escapes, ...).  When it answers
    [Some], a shell runs exactly those words: nothing is expanded, and no
    other command is started.  (Text with a NUL character, which no command
    line can carry, is outside this reading.) *)
From S2P Require Import Prelude PyStr.

(** ** Python's [shlex] *)

(** [re.compile(r'[^\w@%+=:,./-]', re.ASCII)] finds nothing. *)
Definition safe_char (c : N) : bool :=
  ascii_alnum c || (c =? 95)%N || one_of #"@%+=:,./-" c.

(** The five characters ['"'"'] that replace a single quote. *)
Definition sq_escape : pystr := [39; 34; 39; 34; 39]%N.

Definition quote (s : pystr) : pystr :=
  match s with
  | [] => [39; 39]%N
  | _ => if forallb safe_char s then s
         else 39%N :: flat_map (fun c => if (c =? 39)%N then sq_escape else [c]) s ++ [39%N]
  end.

Inductive lex_state := LBlank | LWord | LSingle | LDouble | LEscape (back : lex_state).

Definition shlex_blank (c : N) : bool := one_of [32; 9; 13; 10]%N c.

(** [shlex.split(s)]: [shlex(s, posix=True)] with [whitespace_split] and no
    comment characters.  [None] is the [ValueError] of an unterminated quote
    or escape. *)
Fixpoint shlex_go (st : lex_state) (tok : pystr) (quoted : bool) (s : pystr) : option (list pystr) :=
  let emit k := if (match tok with [] => false | _ => true end) || quoted
                then (fun ws => tok :: ws) <$> k else k in
  match s with
  | [] => match st with
          | LBlank => Some []
          | LWord => emit (Some [])
          | LSingle | LDouble | LEscape _ => None
          end
  | c :: s =>
      match st with
      | LBlank =>
          if shlex_blank c then shlex_go LBlank [] false s
          else if (c =? 92)%N then shlex_go (LEscape LWord) [] false s
          else if (c =? 39)%N then shlex_go LSingle [] false s
          else if (c =? 34)%N then shlex_go LDouble [] false s
          else shlex_go LWord [c] false s
      | LWord =>
          if shlex_blank c then emit (shlex_go LBlank [] false s)
          else if (c =? 39)%N then shlex_go LSingle tok quoted s
          else if (c =? 34)%N then shlex_go LDouble tok quoted s
          else if (c =? 92)%N then shlex_go (LEscape LWord) tok quoted s
          else shlex_go LWord (tok ++ [c]) quoted s
      | LSingle =>
          if (c =? 39)%N then shlex_go LWord tok true s
          else shlex_go LSingle (tok ++ [c]) true s
      | LDouble =>
          if (c =? 34)%N then shlex_go LWord tok true s
          else if (c =? 92)%N then shlex_go (LEscape LDouble) tok true s
          else shlex_go LDouble (tok ++ [c]) true s
      | LEscape LDouble =>
          if (c =? 92)%N || (c =? 34)%N then shlex_go LDouble (tok ++ [c]) quoted s
          else shlex_go LDouble (tok ++ [92%N; c]) quoted s
      | LEscape back => shlex_go back (tok ++ [c]) quoted s
      end
  end.
Definition shlex_split (s : pystr) : option (list pystr) := shlex_go LBlank [] false s.

(** ** What a shell reads *)

Inductive tok := W (w : pystr) | Op (c : N).

Inductive sh_state := SPlain | SSingle | SDouble.

(** Pipe, ampersand and output redirection. *)
Definition sh_op (c : N) : bool := one_of [124; 38; 62]%N c.
(** Characters that stand for themselves outside quotes. *)
Definition plain_char (c : N) : bool := safe_char c || (128 <=? c)%N.
(** Characters that are literal between double quotes. *)
Definition dq_plain (c : N) : bool := negb (one_of [36; 92; 96]%N c).

Fixpoint sh_go (st : sh_state) (cur : pystr) (started : bool) (s : pystr) : option (list tok) :=
  match s with
  | [] => match st with
          | SPlain => Some (if started then [W cur] else [])
          | _ => None
          end
  | c :: s =>
      match st with
      | SPlain =>
          if (c =? 32)%N
          then (fun ts => if started then W cur :: ts else ts) <$> sh_go SPlain [] false s
          else if sh_op c
          then (fun ts => if started then W cur :: Op c :: ts else Op c :: ts)
                 <$> sh_go SPlain [] false s
          else if (c =? 39)%N then sh_go SSingle cur true s
          else if (c =? 34)%N then sh_go SDouble cur true s
          else if plain_char c then sh_go SPlain (cur ++ [c]) true s
          else None
      | SSingle => if (c =? 39)%N then sh_go SPlain cur true s else sh_go SSingle (cur ++ [c]) true s
      | SDouble =>
          if (c =? 34)%N then sh_go SPlain cur true s
          else if dq_plain c then sh_go SDouble (cur ++ [c]) true s
          else None
      end
  end.
Definition sh_lex (s : pystr) : option (list tok) := sh_go SPlain [] false s.

(** ** Word fragments *)

Lemma safe_char_plain c :
  safe_char c = true ->
  (c =? 32)%N = false /\ sh_op c = false /\ (c =? 39)%N = false /\ (c =? 34)%N = false
  /\ shlex_blank c = false /\ (c =? 92)%N = false.
Proof.
  intros H. repeat split;
    (let E := fresh in
     match goal with |- ?b = false => destruct b eqn:E; [exfalso|done] end;
     rewrite ?N.eqb_eq in E; unfold sh_op, shlex_blank in *;
     try (apply one_of_In in E); cbn in E;
     repeat (destruct E as [E|E]); subst; done).
Qed.

(** [Piece s w]: wherever a word may continue, reading [s] extends it by [w]. *)
Definition Piece (s w : pystr) : Prop :=
  forall cur st rest, sh_go SPlain cur st (s ++ rest) = sh_go SPlain (cur ++ w) true rest.

Lemma piece_app s1 w1 s2 w2 : Piece s1 w1 -> Piece s2 w2 -> Piece (s1 ++ s2) (w1 ++ w2).
Proof. intros H1 H2 cur st rest. by rewrite <- !app_assoc, H1, H2, <- app_assoc. Qed.

Lemma plain_char_plain c :
  plain_char c = true ->
  (c =? 32)%N = false /\ sh_op c = false /\ (c =? 39)%N = false /\ (c =? 34)%N = false.
Proof.
  unfold plain_char. rewrite orb_true_iff, N.leb_le. intros [H|H].
  - by destruct (safe_char_plain c H) as (? & ? & ? & ? & _).
  - repeat split; try (apply N.eqb_neq; lia).
    unfold sh_op. destruct (one_of _ c) eqn:E; [|done]. apply one_of_In in E. cbn in E. lia.
Qed.

Lemma piece_plain s : s <> [] -> forallb plain_char s = true -> Piece s s.
Proof.
  intros Hne H cur st rest. revert cur st H Hne.
  induction s as [|c s IH]; intros cur st H Hne; [done|]. cbn [forallb] in H. to_prop.
  pose proof (plain_char_plain c) as (E1 & E2 & E3 & E4); [done|].
  cbn [sh_go app]. rewrite E1, E2, E3, E4, H.
  destruct s as [|d s]; [done|]. rewrite IH by done. by rewrite <- app_assoc.
Qed.

Lemma piece_safe s : s <> [] -> forallb safe_char s = true -> Piece s s.
Proof.
  intros Hne H. apply piece_plain; [done|]. eapply forallb_impl; [|exact H].
  intros c Hc. unfold plain_char. by rewrite Hc.
Qed.

Lemma sh_go_single s cur st rest :
  sh_go SSingle cur st (flat_map (fun c => if (c =? 39)%N then sq_escape else [c]) s ++ 39%N :: rest)
  = sh_go SPlain (cur ++ s) true rest.
Proof.
  revert cur st. induction s as [|c s IH]; intros cur st; [by rewrite app_nil_r|].
  cbn [flat_map]. destruct (N.eqb_spec c 39) as [->|Hne].
  - cbn. rewrite IH. by rewrite <- app_assoc.
  - cbn [app sh_go]. apply N.eqb_neq in Hne. rewrite Hne, IH. by rewrite <- app_assoc.
Qed.

(** Quoting any text at all yields one word fragment, read back verbatim. *)
Lemma piece_quote s : Piece (quote s) s.
Proof.
  destruct s as [|c s]; [intros cur st rest; cbn; by rewrite app_nil_r|].
  unfold quote. destruct (forallb safe_char (c :: s)) eqn:H; [by apply piece_safe|].
  intros cur st rest. rewrite <- app_comm_cons, <- app_assoc.
  cbn [sh_go]. replace (sh_op 39) with false by done.
  cbn [N.eqb Pos.eqb]. apply sh_go_single.
Qed.

(** [Lexes s ts]: as an argument group, [s] reads as the tokens [ts]. *)
Definition boundary (rest : pystr) : Prop := match rest with [] => True | c :: _ => c = 32%N end.
Definition Lexes (s : pystr) (ts : list tok) : Prop :=
  forall rest, boundary rest -> sh_lex (s ++ rest) = (fun k => ts ++ k) <$> sh_lex rest.

Lemma lexes_word s w : Piece s w -> Lexes s [W w].
Proof.
  intros H rest Hb. unfold sh_lex. rewrite H. destruct rest as [|c rest]; [done|].
  cbn in Hb. subst c. cbn. by destruct (sh_go SPlain [] false rest).
Qed.

Lemma lexes_nil : Lexes [] [].
Proof. intros rest _. cbn [app]. by destruct (sh_lex rest). Qed.

Lemma sh_lex_space s : sh_lex (32%N :: s) = sh_lex s.
Proof. unfold sh_lex. cbn. by destruct (sh_go SPlain [] false s). Qed.

(** Two groups separated by a space. *)
Lemma lexes_space s1 t1 s2 t2 : Lexes s1 t1 -> Lexes s2 t2 -> Lexes (s1 ++ #" " ++ s2) (t1 ++ t2).
Proof.
  intros H1 H2 rest Hb. change (#" ") with [32%N]. rewrite <- !app_assoc.
  rewrite H1 by done. cbn [app]. rewrite sh_lex_space, H2 by done.
  destruct (sh_lex rest); cbn; by rewrite ?app_assoc.
Qed.

Lemma lexes_op c : sh_op c = true -> Lexes [c] [Op c].
Proof.
  intros H rest _. unfold sh_lex. cbn [app sh_go].
  destruct (N.eqb_spec c 32) as [->|]; [done|]. rewrite H.
  by destruct (sh_go SPlain [] false rest).
Qed.

Lemma lexes_done s ts : Lexes s ts -> sh_lex s = Some ts.
Proof.
  intros H. rewrite <- (app_nil_r s), H by done. cbn. by rewrite app_nil_r.
Qed.

Lemma lexes_join ps ts :
  Forall2 Lexes ps ts -> ps <> [] -> Lexes (join #" " ps) (concat ts).
Proof.
  induction 1 as [|p t ps ts Hp Hps IH]; intros Hne; [done|].
  destruct ps as [|p' ps].
  - inversion Hps; subst. cbn. by rewrite app_nil_r.
  - change (join #" " (p :: p' :: ps)) with (p ++ #" " ++ join #" " (p' :: ps)).
    cbn [concat]. apply lexes_space; [done|]. by apply IH.
Qed.

(** ** Literals and groups *)

(** A text that reads as [ts] by itself reads as [ts] before a blank, too. *)
Lemma sh_go_blank st cur started s ts rest :
  sh_go st cur started s = Some ts ->
  sh_go st cur started (s ++ 32%N :: rest) = (fun k => ts ++ k) <$> sh_lex rest.
Proof.
  unfold sh_lex. revert st cur started ts. induction s as [|c s IH]; intros st cur started ts.
  - destruct st; cbn; [|done..]. intros [= <-]. destruct started; by destruct (sh_go SPlain [] false rest).
  - assert (forall f : list tok -> list tok, (forall k k', f (k ++ k') = f k ++ k') ->
      f <$> sh_go SPlain [] false s = Some ts ->
      f <$> sh_go SPlain [] false (s ++ 32%N :: rest)
      = (fun k => ts ++ k) <$> sh_go SPlain [] false rest) as Hmap.
    { intros f Hf. destruct (sh_go SPlain [] false s) as [k|] eqn:Ek; [|done]. intros [= <-].
      rewrite (IH _ _ _ _ Ek). destruct (sh_go SPlain [] false rest); cbn; [|done]. by rewrite Hf. }
    cbn [app sh_go]. destruct st; repeat case_match; try done; try apply IH; apply Hmap; intros; by destruct started.
Qed.

Lemma lexes_intro s ts : sh_lex s = Some ts -> Lexes s ts.
Proof.
  intros Hs [|c rest] Hb; [by rewrite app_nil_r, Hs; cbn; rewrite app_nil_r|].
  cbn in Hb. subst c. rewrite sh_lex_space. by apply sh_go_blank.
Qed.

Lemma lexes_lit_word (s : pystr) :
  (match s with [] => false | _ => forallb safe_char s end) = true -> Lexes s [W s].
Proof. intros H. apply lexes_word, piece_safe; by destruct s. Qed.

Lemma lexes_eq s ts ts' : Lexes s ts -> ts = ts' -> Lexes s ts'.
Proof. by intros ? <-. Qed.

(** A literal that ends in a blank, before a group. *)
Lemma lexes_lit s rest ts tr :
  (last s = Some 32%N /\ sh_lex (removelast s) = Some ts) ->
  Lexes rest tr -> Lexes (s ++ rest) (ts ++ tr).
Proof.
  intros [Hlast Hs] Hr. assert (s = removelast s ++ #" ") as ->.
  { apply last_Some in Hlast as [s' ->]. by rewrite removelast_last. }
  rewrite <- app_assoc. apply lexes_space; [|done]. by apply lexes_intro.
Qed.

#[export] Hint Resolve piece_quote piece_app lexes_word lexes_space lexes_nil : py.

(** [f"{flag} {shlex.quote(value)}"], and a run of such groups after a text. *)
Definition flag_of (flag value : pystr) : pystr := flag ++ #" " ++ quote value.

Lemma lexes_flags {A} (f : A -> pystr) (g : A -> list tok) s ts l :
  Lexes s ts -> (forall a, Lexes (f a) (g a)) ->
  Lexes (s ++ concat ((fun a => #" " ++ f a) <$> l)) (ts ++ concat (g <$> l)).
Proof.
  intros Hs Hf. revert s ts Hs. induction l as [|a l IH]; intros s ts Hs; cbn [fmap list_fmap concat].
  - by rewrite !app_nil_r.
  - rewrite (app_assoc s), (app_assoc ts), (app_assoc s). apply IH. rewrite <- app_assoc. by apply lexes_space.
Qed.

Lemma lexes_flag_of flag v :
  flag <> [] -> forallb safe_char flag = true -> Lexes (flag_of flag v) [W flag; W v].
Proof.
  intros Hne Hf. apply (lexes_space flag [W flag]); [by apply lexes_word, piece_safe|].
  apply lexes_word, piece_quote.
Qed.

(** Lists of parts, each read as a group of words. *)
Definition Parts (ps : list pystr) (ws : list pystr) : Prop :=
  exists ts, Forall2 Lexes ps ts /\ concat ts = W <$> ws.

Lemma parts_nil : Parts [] [].
Proof. by exists []. Qed.
Lemma parts_app ps ws ps' ws' : Parts ps ws -> Parts ps' ws' -> Parts (ps ++ ps') (ws ++ ws').
Proof.
  intros (ts & HF & Hc) (ts' & HF' & Hc'). exists (ts ++ ts').
  split; [by apply Forall2_app|]. by rewrite concat_app, Hc, Hc', fmap_app.
Qed.
Lemma parts_one p ws : Lexes p (W <$> ws) -> Parts [p] ws.
Proof. intros Hp. exists [W <$> ws]. split; [by repeat constructor|]. cbn. by rewrite app_nil_r. Qed.
Lemma parts_bind {A} (f : A -> pystr) (g : A -> list pystr) l :
  (forall a, Lexes (f a) (W <$> g a)) -> Parts (f <$> l) (l ≫= g).
Proof.
  intros Hf. induction l as [|a l IH]; [apply parts_nil|].
  apply (parts_app [f a] (g a)); [by apply parts_one|done].
Qed.
Lemma parts_join ps ws : Parts ps ws -> ps <> [] -> Lexes (join #" " ps) (W <$> ws).
Proof. intros (ts & HF & <-) Hne. by apply lexes_join. Qed.

Lemma piece_str_Z z : Piece (str_Z z) (str_Z z).
Proof.
  apply piece_safe; [apply str_Z_nonempty|].
  eapply forallb_impl; [|apply str_Z_chars]. intros c. cbn beta.
  rewrite orb_true_iff, N.eqb_eq. intros [Hd| ->]; [|done].
  unfold safe_char, ascii_alnum. by rewrite Hd, orb_true_r.
Qed.

(** A word, and what follows it after a blank. *)
Lemma lexes_word_then s w l l' t ts :
  Piece s w -> l = 32%N :: l' -> Lexes (l' ++ t) ts -> Lexes (s ++ l ++ t) (W w :: ts).
Proof. intros Hs -> Ht. apply (lexes_space s [W w] (l' ++ t)); [by apply lexes_word|done]. Qed.

Lemma lexes_word_end s w l l' ts :
  Piece s w -> l = 32%N :: l' -> sh_lex l' = Some ts -> Lexes (s ++ l) (W w :: ts).
Proof.
  intros Hs -> Hl. apply (lexes_space s [W w] l'); [by apply lexes_word|by apply lexes_intro].
Qed.

Lemma lexes_group_then s ts l l' t tr :
  sh_lex s = Some ts -> l = 32%N :: l' -> Lexes (l' ++ t) tr -> Lexes (s ++ l ++ t) (ts ++ tr).
Proof. intros Hs -> Ht. apply (lexes_space s ts (l' ++ t)); [by apply lexes_intro|done]. Qed.

(** Proves [Piece s ?w]: literals, integers, quoted values and their concatenations. *)
Ltac piece_go :=
  repeat first
    [ eassumption
    | apply piece_quote
    | apply piece_str_Z
    | (apply piece_safe; [discriminate|vm_compute; reflexivity])
    | apply piece_app ].

Ltac drop_nil :=
  match goal with |- Lexes ([] ++ ?t) ?ts => change (Lexes t ts) | _ => idtac end.
(** Proves [Lexes s ts] for a command line assembled from literals and words. *)
Ltac lex_go :=
  eapply lexes_eq;
  [ repeat first
      [ (eapply lexes_lit; [split; vm_compute; reflexivity|])
      | (eapply lexes_word_then; [solve [piece_go]|vm_compute; reflexivity|]; drop_nil)
      | (eapply lexes_group_then; [vm_compute; reflexivity|vm_compute; reflexivity|]; drop_nil)
      | (eapply lexes_word_end; [solve [piece_go]|vm_compute; reflexivity|vm_compute; reflexivity])
      | (apply lexes_word; solve [piece_go])
      | (apply lexes_intro; vm_compute; reflexivity) ]
  | try reflexivity ].

(** ** [shlex.split] agrees on quoted words *)

Lemma shlex_go_single s tok q rest :
  shlex_go LSingle tok q (flat_map (fun c => if (c =? 39)%N then sq_escape else [c]) s ++ 39%N :: rest)
  = shlex_go LWord (tok ++ s) true rest.
Proof.
  revert tok q. induction s as [|c s IH]; intros tok q; [by rewrite app_nil_r|].
  cbn [flat_map]. destruct (N.eqb_spec c 39) as [->|Hne].
  - cbn. rewrite IH. by rewrite <- app_assoc.
  - cbn [app shlex_go]. apply N.eqb_neq in Hne. rewrite Hne, IH. by rewrite <- app_assoc.
Qed.

Lemma shlex_go_safe s tok q rest :
  forallb safe_char s = true -> shlex_go LWord tok q (s ++ rest) = shlex_go LWord (tok ++ s) q rest.
Proof.
  revert tok. induction s as [|c s IH]; intros tok H; [by rewrite app_nil_r|].
  cbn [forallb] in H. to_prop.
  pose proof (safe_char_plain c) as (_ & _ & E3 & E4 & E5 & E6); [done|].
  cbn [app shlex_go]. rewrite E3, E4, E5, E6, IH by done. by rewrite <- app_assoc.
Qed.

(** From the blank state, a quoted value starts a word that contains it. *)
Lemma shlex_go_quote s rest :
  exists q, (s = [] -> q = true) /\
    shlex_go LBlank [] false (quote s ++ rest) = shlex_go LWord s q rest.
Proof.
  destruct s as [|c s]; [exists true; by split|].
  unfold quote. destruct (forallb safe_char (c :: s)) eqn:H.
  - exists false. split; [done|]. cbn [forallb] in H. to_prop.
    pose proof (safe_char_plain c) as (_ & _ & E3 & E4 & E5 & E6); [done|].
    cbn [app shlex_go]. rewrite E3, E4, E5, E6. by rewrite shlex_go_safe.
  - exists true. split; [done|]. rewrite <- app_comm_cons, <- app_assoc.
    cbn [shlex_go]. replace (shlex_blank 39) with false by done.
    cbn [N.eqb Pos.eqb]. apply shlex_go_single.
Qed.

(** [shlex.split(' '.join(map(quote, ws))) == ws]. *)
Lemma shlex_split_join_quote ws : shlex_split (join #" " (quote <$> ws)) = Some ws.
Proof.
  unfold shlex_split. induction ws as [|w ws IH]; [done|].
  destruct ws as [|w' ws].
  - cbn [fmap list_fmap join]. rewrite <- (app_nil_r (quote w)).
    destruct (shlex_go_quote w []) as (q & Hq & ->). cbn.
    destruct w; [by rewrite Hq|done].
  - change (join #" " (quote <$> w :: w' :: ws))
      with (quote w ++ #" " ++ join #" " (quote <$> w' :: ws)).
    set (rest := join #" " (quote <$> w' :: ws)) in *.
    destruct (shlex_go_quote w (#" " ++ rest)) as (q & Hq & ->).
    change ((#" ") ++ rest) with (32%N :: rest). cbn [shlex_go].
    replace (shlex_blank 32) with true by done. rewrite IH.
    destruct w; [by rewrite Hq|done].
Qed.
