(* ===== verification/Errors.v ===== *)
(** * Exceptions and their client-safe rendering

    The exception classes of [app/core/exceptions.py] with the built-in classes
    the services raise or catch, their method resolution order, and the error
    sanitizer of [app/core/error_sanitize.py].  [res] is the outcome of a Python
    call: a value, or a raised exception. *)
From S2P Require Import Prelude PyStr.

(** ** Classes *)

Inductive exn_class :=
(* built-in classes *)
| BaseException_ | Exception_ | CancelledError
| ValueError | UnicodeDecodeError | UnicodeEncodeError | JSONDecodeError
| TypeError | AttributeError | RuntimeError
| LookupError | KeyError | IndexError
| OSError | ConnectionError | TimeoutError
(* any other exception class of a library, by its name *)
| LibraryError (name : pystr)
(* app/core/exceptions.py *)
| DomainError
| NodeNotFoundError
| NodeNameConflictError
| ConnectionFailedError
| CredentialDecryptionError
| CommandNotFoundError
| ScriptNotFoundError
| TemplateRenderError
| AuthenticationError
| APIKeyNotFoundError
| APIKeyRevokedError
| APIKeyExpiredError
| TagNotFoundError
| DockerError
| ContainerNotFoundError
| NetworkNotFoundError
| VolumeNotFoundError
| ImageNotFoundError
| DockerDaemonError
| DockerValidationError
| RequestTimeoutError
| UnsupportedConfigFormatError
| ScheduleValidationError
| ScheduleNotFoundError
| SchedulerOwnershipError
| SchedulePersistenceError
| ScheduledScriptExecutionError
| ExecutionNotFoundError
| AuditWriteError
| AuditStatsUnavailableError
| AuditReadError
| CommitFailedError
| FavoriteNotFoundError
| InvalidCredentialsError
| UserNotFoundError
| UserAlreadyExistsError
| TokenExpiredError
| InvalidTokenError
| InsufficientPermissionsError
| HostKeyFetchError
| ComposeProjectNotFoundError
| ComposeProjectAlreadyExistsError
| PackNotFoundError
| PackConflictError
| RegistryNotFoundError
| RegistryConflictError.

#[export] Instance exn_class_eq_dec : EqDecision exn_class.
Proof. solve_decision. Defined.

(** Base class of each class. *)
Definition parent (c : exn_class) : option exn_class :=
  match c with
  | BaseException_ => None
  | Exception_ | CancelledError => Some BaseException_
  | ValueError | TypeError | AttributeError | RuntimeError | LookupError | OSError
  | LibraryError _ => Some Exception_
  | UnicodeDecodeError | UnicodeEncodeError | JSONDecodeError => Some ValueError
  | KeyError | IndexError => Some LookupError
  | ConnectionError | TimeoutError => Some OSError
  | DomainError => Some Exception_
  | NodeNotFoundError => Some DomainError
  | NodeNameConflictError => Some DomainError
  | ConnectionFailedError => Some DomainError
  | CredentialDecryptionError => Some DomainError
  | CommandNotFoundError => Some DomainError
  | ScriptNotFoundError => Some DomainError
  | TemplateRenderError => Some DomainError
  | AuthenticationError => Some DomainError
  | APIKeyNotFoundError => Some DomainError
  | APIKeyRevokedError => Some DomainError
  | APIKeyExpiredError => Some DomainError
  | TagNotFoundError => Some DomainError
  | DockerError => Some DomainError
  | ContainerNotFoundError => Some DockerError
  | NetworkNotFoundError => Some DockerError
  | VolumeNotFoundError => Some DockerError
  | ImageNotFoundError => Some DockerError
  | DockerDaemonError => Some DockerError
  | DockerValidationError => Some DockerError
  | RequestTimeoutError => Some DomainError
  | UnsupportedConfigFormatError => Some DomainError
  | ScheduleValidationError => Some DomainError
  | ScheduleNotFoundError => Some DomainError
  | SchedulerOwnershipError => Some DomainError
  | SchedulePersistenceError => Some DomainError
  | ScheduledScriptExecutionError => Some DomainError
  | ExecutionNotFoundError => Some DomainError
  | AuditWriteError => Some DomainError
  | AuditStatsUnavailableError => Some DomainError
  | AuditReadError => Some DomainError
  | CommitFailedError => Some DomainError
  | FavoriteNotFoundError => Some DomainError
  | InvalidCredentialsError => Some DomainError
  | UserNotFoundError => Some DomainError
  | UserAlreadyExistsError => Some DomainError
  | TokenExpiredError => Some DomainError
  | InvalidTokenError => Some DomainError
  | InsufficientPermissionsError => Some DomainError
  | HostKeyFetchError => Some DomainError
  | ComposeProjectNotFoundError => Some DomainError
  | ComposeProjectAlreadyExistsError => Some DomainError
  | PackNotFoundError => Some DomainError
  | PackConflictError => Some DomainError
  | RegistryNotFoundError => Some DomainError
  | RegistryConflictError => Some DomainError
  end.

(** [type(exc).__mro__]; no class has more than five ancestors. *)
Fixpoint mro_go (fuel : nat) (c : exn_class) : list exn_class :=
  match fuel with
  | O => []
  | S fuel => c :: match parent c with Some p => mro_go fuel p | None => [] end
  end.
Definition mro (c : exn_class) : list exn_class := mro_go 6 c.

(** [isinstance(exc, c)]. *)
Definition isinstance (c base : exn_class) : bool := bool_decide (base ∈ mro c).

Record exn := Exn { exn_type : exn_class; exn_msg : pystr }.

(** [type(exc).__name__]. *)
Class ExnNames := { exn_name : exn_class -> pystr }.
#[export] Instance exn_eq_dec : EqDecision exn.
Proof. solve_decision. Defined.

(** Outcome of a call. *)
Inductive res (A : Type) := Ok (a : A) | Raise (e : exn).
Arguments Ok {A} _.
Arguments Raise {A} _.

#[export] Instance res_ret : MRet res := fun A a => Ok a.
#[export] Instance res_bind : MBind res := fun A B f m =>
  match m with Ok a => f a | Raise e => Raise e end.

Definition is_ok {A} (r : res A) : bool := if r is Ok _ then true else false.
Definition raise {A} (c : exn_class) (msg : pystr) : res A := Raise (Exn c msg).

Lemma bind_ok {A B} (m : res A) (f : A -> res B) b : m ≫= f = Ok b -> exists a, m = Ok a /\ f a = Ok b.
Proof. destruct m as [a|e]; [by exists a|done]. Qed.

(** A result that [except Exception] would catch if it were an exception. *)
Definition ordinary {A} (r : res A) : Prop :=
  match r with Ok _ => True | Raise e => isinstance (exn_type e) Exception_ = true end.
Lemma ordinary_bind {A B} (r : res A) (f : A -> res B) :
  ordinary r -> (forall a, r = Ok a -> ordinary (f a)) -> ordinary (r ≫= f).
Proof. destruct r as [a|e]; cbn; auto. Qed.
Lemma ordinary_raise {A} (r : res A) e : ordinary r -> r = Raise e -> isinstance (exn_type e) Exception_ = true.
Proof. by intros Hr ->. Qed.

(** ** Client-safe messages ([app/core/error_sanitize.py]) *)

Definition DOMAIN_ERROR_STATUS : list (exn_class * Z) :=
  [ (NodeNotFoundError, 404);
    (NodeNameConflictError, 409);
    (CommandNotFoundError, 404);
    (ScriptNotFoundError, 404);
    (APIKeyNotFoundError, 404);
    (APIKeyRevokedError, 401);
    (APIKeyExpiredError, 401);
    (AuthenticationError, 401);
    (TagNotFoundError, 404);
    (ConnectionFailedError, 503);
    (HostKeyFetchError, 503);
    (CredentialDecryptionError, 503);
    (TemplateRenderError, 422);
    (ContainerNotFoundError, 404);
    (NetworkNotFoundError, 404);
    (VolumeNotFoundError, 404);
    (ImageNotFoundError, 404);
    (DockerDaemonError, 503);
    (DockerValidationError, 422);
    (DockerError, 502);
    (RequestTimeoutError, 504);
    (UnsupportedConfigFormatError, 422);
    (ScheduleValidationError, 422);
    (ScheduleNotFoundError, 404);
    (SchedulerOwnershipError, 503);
    (SchedulePersistenceError, 503);
    (AuditWriteError, 503);
    (AuditStatsUnavailableError, 501);
    (AuditReadError, 500);
    (CommitFailedError, 503);
    (ExecutionNotFoundError, 404);
    (ScheduledScriptExecutionError, 422);
    (FavoriteNotFoundError, 404);
    (InvalidCredentialsError, 401);
    (UserNotFoundError, 404);
    (UserAlreadyExistsError, 409);
    (TokenExpiredError, 401);
    (InvalidTokenError, 401);
    (InsufficientPermissionsError, 403);
    (ComposeProjectNotFoundError, 404);
    (ComposeProjectAlreadyExistsError, 409);
    (PackNotFoundError, 404);
    (PackConflictError, 409);
    (RegistryNotFoundError, 404);
    (RegistryConflictError, 409);
    (DomainError, 422) ]%Z.

Definition PUBLIC_ERROR_MESSAGES : list (exn_class * pystr) :=
  [ (ConnectionFailedError, #"Remote connection failed");
    (HostKeyFetchError, #"SSH host key verification failed");
    (CredentialDecryptionError, #"Credential processing failed");
    (ContainerNotFoundError, #"Docker container not found");
    (NetworkNotFoundError, #"Docker network not found");
    (VolumeNotFoundError, #"Docker volume not found");
    (ImageNotFoundError, #"Docker image not found");
    (DockerDaemonError, #"Docker daemon unavailable");
    (DockerError, #"Docker operation failed") ].

(** First class of the list that has a registered status. *)
Fixpoint first_status (cs : list exn_class) : Z :=
  match cs with
  | [] => 422%Z
  | c :: cs => match dict_get DOMAIN_ERROR_STATUS c with Some s => s | None => first_status cs end
  end.
Definition status_for_domain_error (e : exn) : Z := first_status (mro (exn_type e)).

Definition public_message (e : exn) (default : pystr) : pystr :=
  match dict_get PUBLIC_ERROR_MESSAGES (exn_type e) with Some m => m | None => default end.

Definition sanitize_bulk_error (e : exn) : pystr :=
  if isinstance (exn_type e) DomainError then
    if (500 <=? status_for_domain_error e)%Z
    then public_message e #"Internal server error"
    else public_message e (exn_msg e)
  else #"Internal error".

(** The HTTP handler's half of the same contract
    ([app/api/error_mapping.py:domain_error_handler]): the status and the
    public [detail] of the problem document. *)
Definition domain_error_response (e : exn) : Z * pystr :=
  let status := status_for_domain_error e in
  (status, if (500 <=? status)%Z then public_message e #"Internal server error"
           else public_message e (exn_msg e)).

(** ** Laws *)

(** The enumerated classes; library classes are covered separately. *)
Ltac each_class c := destruct c; vm_compute; try done.

Lemma domain_status_known e :
  isinstance (exn_type e) DomainError = true ->
  In (status_for_domain_error e) [401; 403; 404; 409; 422; 500; 501; 502; 503; 504]%Z.
Proof. destruct e as [c m]. unfold status_for_domain_error. cbn [exn_type]. each_class c; tauto. Qed.

(** Every class is registered itself, so the walk stops at once. *)
Lemma domain_status_registered c :
  isinstance c DomainError = true -> is_Some (dict_get DOMAIN_ERROR_STATUS c).
Proof. each_class c; intros; eauto. Qed.

(** The fixed texts a sanitized error can carry apart from a curated message. *)
Definition generic_messages : list pystr :=
  #"Internal error" :: #"Internal server error" :: (snd <$> PUBLIC_ERROR_MESSAGES).

Lemma public_message_cases e d :
  public_message e d = d \/ In (public_message e d) generic_messages.
Proof.
  unfold public_message. destruct (dict_get _ _) as [m|] eqn:Hm; [right|by left].
  right. right. apply dict_get_elem in Hm. apply list_elem_of_In.
  by apply (list_elem_of_fmap_2 snd) in Hm.
Qed.

(** The text of an exception reaches a client only for a 4xx domain error. *)
Lemma sanitize_cases e :
  In (sanitize_bulk_error e) generic_messages \/
  (isinstance (exn_type e) DomainError = true /\ (status_for_domain_error e < 500)%Z
   /\ sanitize_bulk_error e = exn_msg e).
Proof.
  unfold sanitize_bulk_error. destruct (isinstance (exn_type e) DomainError) eqn:Hd; [|left; by left].
  destruct (500 <=? status_for_domain_error e)%Z eqn:Hs; to_prop.
  - left. destruct (public_message_cases e #"Internal server error") as [->|?]; [right; by left|done].
  - destruct (public_message_cases e (exn_msg e)) as [->|?]; [by right|by left].
Qed.

(** The text of an exception reaches a client only for a domain error with a status below
    500 and no curated message; the bulk and the HTTP renderings agree, and every domain error
    has one of ten registered statuses. *)
Theorem public_error_contract e :
  (In (sanitize_bulk_error e) generic_messages
   \/ (isinstance (exn_type e) DomainError = true /\ (status_for_domain_error e < 500)%Z
       /\ sanitize_bulk_error e = exn_msg e))
  /\ (isinstance (exn_type e) DomainError = true ->
      domain_error_response e = (status_for_domain_error e, sanitize_bulk_error e)
      /\ In (status_for_domain_error e) [401; 403; 404; 409; 422; 500; 501; 502; 503; 504]%Z).
Proof.
  split; [apply sanitize_cases|]. intros Hd. split; [|by apply domain_status_known].
  unfold domain_error_response, sanitize_bulk_error. rewrite Hd. by destruct (500 <=? _)%Z.
Qed.
