(* ===== verification/Validation.v ===== *)
(** * Docker parameter validation ([app/core/docker_validation.py])

    Every validator of the module, on the regular expressions of the source,
    and what acceptance guarantees for the shell words built from the value. *)
From S2P Require Import Prelude PyStr Regex Shlex Errors.

Section validation.
Context `{Unicode}.

(** ** Patterns *)

Definition ref_tail (c : N) : bool := ascii_alnum c || one_of #"_.-" c.
Definition image_char (c : N) : bool := ascii_alnum c || one_of #"-_./:" c.
Definition ident_head (c : N) : bool := ascii_alpha c || one_of #"_" c.
Definition ident_tail (c : N) : bool := ascii_alnum c || one_of #"_" c.
Definition label_char (c : N) : bool := ascii_alnum c || one_of #"_.-/" c.
Definition path_char (c : N) : bool := ascii_alnum c || one_of #"_./~-:" c.
(** [.] of a pattern: anything but a newline. *)
Definition re_dot (c : N) : bool := negb (c =? 10)%N.

Definition _CONTAINER_REFERENCE_RE : regex := RIdent ascii_alnum ref_tail.
Definition _IMAGE_NAME_RE : regex := RPlus (RChr image_char).
Definition _NETWORK_NAME_RE : regex := RIdent ascii_alnum ref_tail.
Definition _ENV_VAR_RE : regex :=
  RSeq (RIdent ident_head ident_tail) (RSeq (RLit #"=") (RPlus (RChr re_dot))).
Definition _LABEL_KEY_RE : regex :=
  RSeq (RChr ascii_alnum) (ROpt (RSeq (RStar (RChr label_char)) (RChr ascii_alnum))).
Definition re_digits : regex := RPlus (RChr re_digit).
Definition _HOST_PORT_RE : regex := RSeq re_digits (ROpt (RSeq (RLit #"-") re_digits)).
Definition _PORT_SPEC_RE : regex :=
  RSeq _HOST_PORT_RE (ROpt (RAlt (RLit #"/tcp") (RLit #"/udp"))).
Definition _VOLUME_PATH_RE : regex := RPlus (RChr path_char).
Definition _BUILD_ARG_KEY_RE : regex := RIdent ident_head ident_tail.
Definition _RESTART_POLICIES : list pystr :=
  [ #"always"; #"no"; #"on-failure"; #"unless-stopped"].
Definition _DOCKER_HOST_RE : regex :=
  RAlt (RSeq (RLit #"unix:///") (RPlus (RChr (fun c => re_word c || one_of #"./-" c))))
       (RSeq (RLit #"tcp://")
          (RSeq (RPlus (RChr (fun c => re_word c || one_of #".-" c)))
             (RSeq (RLit #":") re_digits))).
Definition _VOLUME_NAME_RE : regex := RIdent ascii_alnum ref_tail.
Definition _NETWORK_DRIVER_RE : regex := RIdent ascii_alnum ref_tail.
Definition _IP_ADDRESS_RE : regex :=
  RSeq (RRep 3 0 (RSeq (RRep 1 2 (RChr re_digit)) (RLit #".")))
    (RSeq (RRep 1 2 (RChr re_digit))
       (ROpt (RSeq (RLit #"/") (RRep 1 1 (RChr re_digit))))).

(** [if not s or not PATTERN.fullmatch(s): raise DockerValidationError(msg)]. *)
Definition require (ok : bool) (msg : pystr) (s : pystr) : res pystr :=
  if ok then Ok s else raise DockerValidationError msg.
Definition require_full (r : regex) (s : pystr) (msg : pystr) : res pystr :=
  require (negb (str_eqb s []) && fullmatch r s) msg s.

Definition start_rule : pystr :=
  #"must start with an alphanumeric character and contain only alphanumeric characters, hyphens, underscores, and dots.".
Definition image_rule : pystr :=
  #"must contain only alphanumeric characters, hyphens, underscores, dots, slashes, and colons.".

(** ** Validators *)

Definition validate_container_id (container_id : pystr) : res pystr :=
  require_full _CONTAINER_REFERENCE_RE container_id
    (#"Invalid container reference format: " ++ py_repr container_id
     ++ #". Container reference " ++ start_rule).

Definition validate_container_name (name : pystr) : res pystr :=
  require_full _CONTAINER_REFERENCE_RE name
    (#"Invalid container name format: " ++ py_repr name ++ #". Container name " ++ start_rule).

(** The only validator that uses [match] instead of [fullmatch]. *)
Definition validate_image_name (image : pystr) : res pystr :=
  require (negb (str_eqb image []) && match_dollar _IMAGE_NAME_RE image)
    (#"Invalid image name format: " ++ py_repr image ++ #". Image name " ++ image_rule) image.

Definition validate_image_tag (tag : pystr) : res pystr :=
  require_full _IMAGE_NAME_RE tag
    (#"Invalid image tag format: " ++ py_repr tag ++ #". Image tag " ++ image_rule).

Definition validate_network_name (network : pystr) : res pystr :=
  require_full _NETWORK_NAME_RE network
    (#"Invalid network name format: " ++ py_repr network ++ #".").

Definition validate_restart_policy (policy : pystr) : res pystr :=
  require (bool_decide (policy ∈ _RESTART_POLICIES))
    (#"Invalid restart policy: " ++ py_repr policy ++ #". Allowed values: "
     ++ join #", " _RESTART_POLICIES ++ #".") policy.

(** [validated[container_spec] = host_port] for each entry, or the first error. *)
Fixpoint port_mappings_go (validated ports : list (pystr * pystr)) : res (list (pystr * pystr)) :=
  match ports with
  | [] => Ok validated
  | (container_spec, host_port) :: ports =>
      if negb (fullmatch _HOST_PORT_RE host_port)
      then raise DockerValidationError
             (#"Invalid host port mapping for " ++ py_repr container_spec ++ #": " ++ py_repr host_port)
      else if negb (fullmatch _PORT_SPEC_RE container_spec)
      then raise DockerValidationError (#"Invalid container port spec: " ++ py_repr container_spec)
      else port_mappings_go (dict_set validated container_spec host_port) ports
  end.
Definition validate_port_mappings (ports : list (pystr * pystr)) : res (list (pystr * pystr)) :=
  port_mappings_go [] ports.

Fixpoint env_vars_go (validated env : list pystr) : res (list pystr) :=
  match env with
  | [] => Ok validated
  | entry :: env =>
      if negb (fullmatch _ENV_VAR_RE entry)
      then raise DockerValidationError
             (#"Invalid environment variable entry: " ++ py_repr entry
              ++ #". Expected 'KEY=value' with KEY starting with a letter/underscore.")
      else env_vars_go (validated ++ [entry]) env
  end.
Definition validate_env_vars (env : list pystr) : res (list pystr) := env_vars_go [] env.

Fixpoint labels_go (validated labels : list (pystr * pystr)) : res (list (pystr * pystr)) :=
  match labels with
  | [] => Ok validated
  | (key, value) :: labels =>
      if negb (fullmatch _LABEL_KEY_RE key)
      then raise DockerValidationError (#"Invalid label key: " ++ py_repr key)
      else labels_go (dict_set validated key value) labels
  end.
Definition validate_labels (labels : list (pystr * pystr)) : res (list (pystr * pystr)) :=
  labels_go [] labels.

(** A volume specification is the dict [{"bind": ..., "mode": ...}]; the result
    keeps the pair it validated. *)
Fixpoint volume_mounts_go (validated : list (pystr * (pystr * pystr)))
    (volumes : list (pystr * list (pystr * pystr))) : res (list (pystr * (pystr * pystr))) :=
  match volumes with
  | [] => Ok validated
  | (host_path, spec) :: volumes =>
      if negb (fullmatch _VOLUME_PATH_RE host_path)
      then raise DockerValidationError (#"Invalid volume host path: " ++ py_repr host_path)
      else
        let mode := match dict_get spec #"mode" with Some m => m | None => #"rw" end in
        match dict_get spec #"bind" with
        | None => raise DockerValidationError
                    (#"Invalid volume bind path for " ++ py_repr host_path ++ #": None")
        | Some bind =>
            if negb (fullmatch _VOLUME_PATH_RE bind)
            then raise DockerValidationError
                   (#"Invalid volume bind path for " ++ py_repr host_path ++ #": " ++ py_repr bind)
            else if negb (bool_decide (mode ∈ [ #"rw"; #"ro"]))
            then raise DockerValidationError
                   (#"Invalid volume mode for " ++ py_repr host_path ++ #": " ++ py_repr mode
                    ++ #". Allowed: rw, ro.")
            else volume_mounts_go (dict_set validated host_path (bind, mode)) volumes
        end
  end.
Definition validate_volume_mounts (volumes : list (pystr * list (pystr * pystr)))
    : res (list (pystr * (pystr * pystr))) := volume_mounts_go [] volumes.

Definition validate_build_arg_key (key : pystr) : res pystr :=
  require_full _BUILD_ARG_KEY_RE key
    (#"Invalid build arg key: " ++ py_repr key
     ++ #". Must start with letter/underscore and contain only alphanumeric characters and underscores.").

Definition validate_docker_host (docker_host : pystr) : res pystr :=
  require_full _DOCKER_HOST_RE docker_host
    (#"Invalid docker_host value: " ++ py_repr docker_host
     ++ #". Expected 'unix:///path/to/socket' or 'tcp://host:port'.").

Definition validate_volume_name (name : pystr) : res pystr :=
  require_full _VOLUME_NAME_RE name
    (#"Invalid volume name: " ++ py_repr name
     ++ #". Volume name must start with alphanumeric and contain only alphanumeric characters, hyphens, underscores, and dots.").

Definition validate_container_new_name (name : pystr) : res pystr :=
  require_full _CONTAINER_REFERENCE_RE name
    (#"Invalid container name: " ++ py_repr name ++ #". Container name " ++ start_rule).

Definition validate_network_driver (driver : pystr) : res pystr :=
  require_full _NETWORK_DRIVER_RE driver (#"Invalid network driver: " ++ py_repr driver ++ #".").

Definition validate_ip_address (ip : pystr) : res pystr :=
  require_full _IP_ADDRESS_RE ip
    (#"Invalid IP address: " ++ py_repr ip ++ #". Expected 'x.x.x.x' or 'x.x.x.x/n'.").

(** ** Helper lemmas *)

Lemma require_ok ok msg s t : require ok msg s = Ok t -> t = s /\ ok = true.
Proof. unfold require. destruct ok; [by intros [= ->]|done]. Qed.

Lemma require_full_ok r s msg t : require_full r s msg = Ok t -> t = s /\ fullmatch r s = true.
Proof. intros [-> Hok]%require_ok. by to_prop. Qed.

Lemma require_raise ok msg s e :
  require ok msg s = Raise e -> exn_type e = DockerValidationError.
Proof. unfold require. destruct ok; [done|by intros [= <-]]. Qed.

(** A word that cannot be taken for an option. *)
Definition not_option (s : pystr) : bool := negb (startswith s #"-").

Lemma alnum_safe c : ascii_alnum c = true -> safe_char c = true.
Proof. unfold safe_char. by intros ->. Qed.

Lemma one_of_safe s c :
  forallb safe_char s = true -> one_of s c = true -> safe_char c = true.
Proof. rewrite forallb_forall, one_of_In. auto. Qed.

Lemma ref_tail_safe c : ref_tail c = true -> safe_char c = true.
Proof. unfold ref_tail. intros [?|?]%orb_true_iff; [by apply alnum_safe|by apply (one_of_safe #"_.-")]. Qed.

Lemma image_char_safe c : image_char c = true -> safe_char c = true.
Proof. unfold image_char. intros [?|?]%orb_true_iff; [by apply alnum_safe|by apply (one_of_safe #"-_./:")]. Qed.

Lemma alnum_not_dash c : ascii_alnum c = true -> (45 =? c)%N = false.
Proof. intros Hc. destruct (N.eqb_spec 45 c) as [<-|]; done. Qed.

(** Strings of the container-reference pattern are plain shell words and not options. *)
Lemma reference_word s :
  fullmatch _CONTAINER_REFERENCE_RE s = true -> Piece s s /\ s <> [] /\ not_option s = true.
Proof.
  unfold _CONTAINER_REFERENCE_RE. rewrite fullmatch_ident. destruct s as [|c s]; [done|].
  intros [Hc Hs]%andb_true_iff. split_and!; [|done|].
  - apply piece_safe; [done|]. cbn [forallb].
    rewrite alnum_safe by done. eapply forallb_impl; [apply ref_tail_safe|done].
  - apply alnum_not_dash in Hc. unfold not_option. change (lit "-") with [45%N]. cbn [startswith]. by rewrite Hc.
Qed.

Lemma container_id_word s t :
  validate_container_id s = Ok t -> t = s /\ Piece s s /\ not_option s = true.
Proof. intros [-> Hm]%require_full_ok. apply reference_word in Hm as (? & _ & ?). done. Qed.

Lemma image_tag_word s t : validate_image_tag s = Ok t -> t = s /\ Piece s s.
Proof.
  intros [-> Hm]%require_full_ok. split; [done|]. unfold _IMAGE_NAME_RE in Hm.
  rewrite fullmatch_plus in Hm. destruct s as [|c s]; [done|]. apply piece_safe; [done|].
  eapply forallb_impl; [apply image_char_safe|done].
Qed.

(** The accumulating loops return exactly the entries they were given. *)
Lemma env_vars_go_ok acc env env' :
  env_vars_go acc env = Ok env' -> env' = acc ++ env /\ forallb (fullmatch _ENV_VAR_RE) env = true.
Proof.
  revert acc. induction env as [|e env IH]; intros acc; cbn; [intros [= <-]; by rewrite app_nil_r|].
  destruct (fullmatch _ENV_VAR_RE e); cbn; [|done]. intros [-> ?]%IH. by rewrite <- app_assoc.
Qed.

Lemma dict_loop_step {V} (acc : list (pystr * V)) k v rest :
  NoDup (acc ++ (k, v) :: rest).*1 ->
  dict_set acc k v = acc ++ [(k, v)] /\ NoDup ((acc ++ [(k, v)]) ++ rest).*1.
Proof.
  intros Hnd. rewrite <- app_assoc. split; [|done]. apply dict_set_app.
  rewrite fmap_app in Hnd. apply NoDup_app in Hnd as (_ & Hdis & _).
  intros Hin. apply (Hdis k Hin). by left.
Qed.

Lemma port_mappings_go_ok acc ports ports' :
  NoDup (acc ++ ports).*1 -> port_mappings_go acc ports = Ok ports' ->
  ports' = acc ++ ports /\
  Forall (fun p => fullmatch _HOST_PORT_RE p.2 = true /\ fullmatch _PORT_SPEC_RE p.1 = true) ports.
Proof.
  revert acc. induction ports as [|[k v] ports IH]; intros acc Hnd; cbn;
    [intros [= <-]; by rewrite app_nil_r|].
  destruct (fullmatch _HOST_PORT_RE v) eqn:E1; cbn; [|done].
  destruct (fullmatch _PORT_SPEC_RE k) eqn:E2; cbn; [|done].
  apply dict_loop_step in Hnd as [-> Hnd]. intros [-> ?]%IH; [|done].
  rewrite <- app_assoc. split; [done|]. by constructor.
Qed.

Lemma labels_go_ok acc labels labels' :
  NoDup (acc ++ labels).*1 -> labels_go acc labels = Ok labels' ->
  labels' = acc ++ labels /\ Forall (fun p => fullmatch _LABEL_KEY_RE p.1 = true) labels.
Proof.
  revert acc. induction labels as [|[k v] labels IH]; intros acc Hnd; cbn;
    [intros [= <-]; by rewrite app_nil_r|].
  destruct (fullmatch _LABEL_KEY_RE k) eqn:E1; cbn; [|done].
  apply dict_loop_step in Hnd as [-> Hnd]. intros [-> ?]%IH; [|done].
  rewrite <- app_assoc. split; [done|]. by constructor.
Qed.

(** A mount as the services build it: [{"bind": bind, "mode": mode}]. *)
Definition mount_spec (v : pystr * pystr) : list (pystr * pystr) := [(#"bind", v.1); (#"mode", v.2)].

Lemma volume_mounts_go_ok acc vols vols' :
  NoDup (acc ++ vols).*1 -> volume_mounts_go acc ((fun p => (p.1, mount_spec p.2)) <$> vols) = Ok vols' ->
  vols' = acc ++ vols /\
  Forall (fun p => fullmatch _VOLUME_PATH_RE p.1 = true /\ fullmatch _VOLUME_PATH_RE p.2.1 = true
                   /\ p.2.2 ∈ [ #"rw"; #"ro"]) vols.
Proof.
  revert acc. induction vols as [|[k [b m]] vols IH]; intros acc Hnd;
    [intros [= <-]; by rewrite app_nil_r|].
  rewrite fmap_cons. cbn [volume_mounts_go fst snd].
  change (dict_get (mount_spec (b, m)) #"mode") with (Some m).
  change (dict_get (mount_spec (b, m)) #"bind") with (Some b). cbn beta iota.
  destruct (fullmatch _VOLUME_PATH_RE k) eqn:E1; cbn [negb]; [|done].
  destruct (fullmatch _VOLUME_PATH_RE b) eqn:E2; cbn [negb]; [|done].
  destruct (bool_decide (m ∈ [ #"rw"; #"ro"])) eqn:E3; cbn [negb]; [|done].
  apply dict_loop_step in Hnd as [-> Hnd]. intros [-> ?]%IH; [|done].
  rewrite <- app_assoc. split; [done|]. constructor; [|done]. to_prop. done.
Qed.

(** ** What acceptance means *)

Lemma port_mappings_go_raise acc ports e :
  port_mappings_go acc ports = Raise e -> exn_type e = DockerValidationError.
Proof.
  revert acc. induction ports as [|[k v] ports IH]; intros acc; cbn; [done|].
  destruct (negb _); [by intros [= <-]|]. destruct (negb _); [by intros [= <-]|]. apply IH.
Qed.
Lemma env_vars_go_raise acc env e :
  env_vars_go acc env = Raise e -> exn_type e = DockerValidationError.
Proof.
  revert acc. induction env as [|v env IH]; intros acc; cbn; [done|].
  destruct (negb _); [by intros [= <-]|]. apply IH.
Qed.
Lemma labels_go_raise acc labels e :
  labels_go acc labels = Raise e -> exn_type e = DockerValidationError.
Proof.
  revert acc. induction labels as [|[k v] labels IH]; intros acc; cbn; [done|].
  destruct (negb _); [by intros [= <-]|]. apply IH.
Qed.

(** An accepted entry is [KEY=value] with a non-empty value on one line. *)
Lemma env_entry_parts entry :
  fullmatch _ENV_VAR_RE entry = true ->
  exists key value, entry = key ++ #"=" ++ value
    /\ fullmatch _BUILD_ARG_KEY_RE key = true /\ value <> [] /\ ~ In 10%N value.
Proof.
  intros Hm%fullmatch_spec. unfold _ENV_VAR_RE in Hm.
  apply seq_inv in Hm as (key & rest & -> & Hkey & Hrest).
  apply seq_inv in Hrest as (sep & value & -> & Hsep & Hvalue).
  apply fullmatch_spec in Hvalue. rewrite fullmatch_plus in Hvalue.
  exists key, value. split_and!.
  - by apply lit_inv in Hsep as ->.
  - by apply fullmatch_spec.
  - by destruct value.
  - destruct value; [done|]. intros Hin. rewrite forallb_forall in Hvalue.
    by specialize (Hvalue _ Hin); cbn in Hvalue.
Qed.

Definition is_reference (s : pystr) : bool :=
  match s with c :: s => ascii_alnum c && forallb ref_tail s | [] => false end.

Lemma require_full_reference s msg :
  require_full _CONTAINER_REFERENCE_RE s msg
  = if is_reference s then Ok s else raise DockerValidationError msg.
Proof.
  unfold require_full, require, _CONTAINER_REFERENCE_RE. rewrite fullmatch_ident. by destruct s.
Qed.

Lemma reference_spec msg s :
  match require_full _CONTAINER_REFERENCE_RE s msg with
  | Ok t => t = s /\ is_reference s = true /\ Piece s s /\ not_option s = true
  | Raise e => exn_type e = DockerValidationError /\ is_reference s = false
  end.
Proof.
  rewrite require_full_reference. destruct (is_reference s) eqn:Hr; [|done].
  destruct (reference_word s) as (? & _ & ?); [|done].
  unfold _CONTAINER_REFERENCE_RE. rewrite fullmatch_ident. exact Hr.
Qed.

(** The six reference validators accept exactly the references (an ASCII alphanumeric, then
    alphanumerics, dots, underscores and hyphens), return them unchanged, and what they accept
    is one shell word that is not an option; everything else raises a validation error. *)
Theorem reference_validators s :
  Forall (fun validate : pystr -> res pystr =>
            match validate s with
            | Ok t => t = s /\ is_reference s = true /\ Piece s s /\ not_option s = true
            | Raise e => exn_type e = DockerValidationError /\ is_reference s = false
            end)
    [validate_container_id; validate_container_name; validate_container_new_name;
     validate_network_name; validate_volume_name; validate_network_driver].
Proof.
  repeat (apply Forall_cons_2; [apply reference_spec|]). by apply Forall_nil.
Qed.

(** The validators of port mappings, environment entries and labels return all entries
    unchanged and in order, each of the required form (an environment entry has a key, an equals
    sign and a one-line non-empty value), or raise a validation error. *)
Theorem mapping_validators_keep_entries ports env labels :
  match validate_port_mappings (dict_of ports) with
  | Ok p => p = dict_of ports /\ Forall (fun kv => fullmatch _HOST_PORT_RE kv.2 = true
                                            /\ fullmatch _PORT_SPEC_RE kv.1 = true) p
  | Raise e => exn_type e = DockerValidationError
  end
  /\ match validate_env_vars env with
     | Ok v => v = env /\ Forall (fun entry => exists key value, entry = key ++ #"=" ++ value
                 /\ fullmatch _BUILD_ARG_KEY_RE key = true /\ value <> [] /\ ~ In 10%N value) v
     | Raise e => exn_type e = DockerValidationError
     end
  /\ match validate_labels (dict_of labels) with
     | Ok l => l = dict_of labels /\ Forall (fun kv => fullmatch _LABEL_KEY_RE kv.1 = true) l
     | Raise e => exn_type e = DockerValidationError
     end.
Proof.
  split_and!.
  - destruct (validate_port_mappings _) as [p|e] eqn:E; [|by eapply port_mappings_go_raise].
    apply (port_mappings_go_ok []) in E as [-> HF]; [done|apply dict_of_NoDup].
  - destruct (validate_env_vars env) as [v|e] eqn:E; [|by eapply env_vars_go_raise].
    apply env_vars_go_ok in E as [-> HF]. split; [done|]. apply Forall_forall. intros entry Hin.
    rewrite forallb_forall in HF. apply list_elem_of_In in Hin. apply env_entry_parts, HF, Hin.
  - destruct (validate_labels _) as [l|e] eqn:E; [|by eapply labels_go_raise].
    apply (labels_go_ok []) in E as [-> HF]; [done|apply dict_of_NoDup].
Qed.
End validation.
