(* ===== verification/Json.v ===== *)
(** * JSON values and [json.loads]

    The values Docker's CLI output decodes to, the decoder of the standard
    library on them, and the typed accessors of
    [app/application/services/docker/parsers.py] and of the container, image
    and system services.  The interpreter's recursion limit is not modelled. *)
From S2P Require Import Prelude PyStr Errors.

(** ** Values *)

Set Warnings "-register-all".
(** A float keeps its source text: the services never compute with one. *)
Inductive json :=
| JNull
| JBool (b : bool)
| JInt (z : Z)
| JFloat (raw : pystr)
| JStr (s : pystr)
| JArr (xs : list json)
| JObj (kvs : list (pystr * json)).

Abbreviation jobject := (list (pystr * json)).

(** [str] and [bool] of the float a numeral denotes, as the interpreter rounds it. *)
Class PyFloat := { float_str : pystr -> pystr; float_truthy : pystr -> bool }.
(** Rendering of numerals that already are in shortest form, for concrete runs. *)
Definition literal_floats : PyFloat :=
  {| float_str raw := raw; float_truthy raw := existsb (in_range 49 57) raw |}.

(** [bool(value)]. *)
Definition json_truthy `{PyFloat} (v : json) : bool :=
  match v with
  | JNull => false
  | JBool b => b
  | JInt z => negb (z =? 0)%Z
  | JFloat raw => float_truthy raw
  | JStr [] | JArr [] | JObj [] => false
  | JStr _ | JArr _ | JObj _ => true
  end.

(** [repr(value)] and [str(value)]. *)
Section py_str.
Context `{Unicode} `{PyFloat}.

Fixpoint json_repr (v : json) : pystr :=
  match v with
  | JNull => #"None"
  | JBool true => #"True"
  | JBool false => #"False"
  | JInt z => str_Z z
  | JFloat raw => float_str raw
  | JStr s => py_repr s
  | JArr xs => #"[" ++ join #", " (map json_repr xs) ++ #"]"
  | JObj kvs => #"{" ++ join #", " (map (fun kv => py_repr kv.1 ++ #": " ++ json_repr kv.2) kvs) ++ #"}"
  end.
Definition json_str (v : json) : pystr :=
  match v with JStr s => s | _ => json_repr v end.
End py_str.

(** ** The decoder *)

Section decoder.
Open Scope N_scope.

Definition json_ws (c : N) : bool := one_of [32; 9; 10; 13] c.
Definition skip_ws (s : pystr) : pystr := drop_while json_ws s.

Definition hex_value (c : N) : option N :=
  if in_range 48 57 c then Some (c - 48)
  else if in_range 97 102 c then Some (c - 87)
  else if in_range 65 70 c then Some (c - 55)
  else None.
Definition hex4 (a b c d : N) : option N :=
  match hex_value a, hex_value b, hex_value c, hex_value d with
  | Some a, Some b, Some c, Some d => Some (((a * 16 + b) * 16 + c) * 16 + d)
  | _, _, _, _ => None
  end.
Definition simple_escape (c : N) : option N :=
  match c with
  | 34 => Some 34 | 92 => Some 92 | 47 => Some 47
  | 98 => Some 8 | 102 => Some 12 | 110 => Some 10 | 114 => Some 13 | 116 => Some 9
  | _ => None
  end.
Definition high_surrogate (n : N) : bool := in_range 55296 56319 n.
Definition low_surrogate (n : N) : bool := in_range 56320 57343 n.

(** A surrogate pair spelled as two escapes: the second escape at the front of [s]. *)
Definition second_escape (n : N) (s : pystr) : option N :=
  match s with
  | b :: u :: a' :: b' :: c' :: d' :: _ =>
      if (b =? 92) && (u =? 117) && high_surrogate n then
        m ← hex4 a' b' c' d';
        if low_surrogate m then Some (65536 + ((n - 55296) * 1024 + (m - 56320))) else None
      else None
  | _ => None
  end.

(** The text after the opening quote, up to the closing one. *)
Fixpoint scan_string (acc : pystr) (s : pystr) : option (pystr * pystr) :=
  match s with
  | [] => None
  | c :: rest =>
      if c =? 34 then Some (rev acc, rest)
      else if c =? 92 then
        match rest with
        | [] => None
        | e :: rest1 =>
            if e =? 117 then
              match rest1 with
              | a :: b :: c :: d :: rest2 =>
                  match hex4 a b c d with
                  | None => None
                  | Some n =>
                      match second_escape n rest2, rest2 with
                      | Some m, _ :: _ :: _ :: _ :: _ :: _ :: rest3 => scan_string (m :: acc) rest3
                      | _, _ => scan_string (n :: acc) rest2
                      end
                  end
              | _ => None
              end
            else match simple_escape e with
                 | Some c => scan_string (c :: acc) rest1
                 | None => None
                 end
        end
      else if c <? 32 then None
      else scan_string (c :: acc) rest
  end.

(** Longest prefix of ASCII digits, and the rest. *)
Fixpoint span_digits (s : pystr) : pystr * pystr :=
  match s with
  | c :: s' => if ascii_digit c then let '(ds, r) := span_digits s' in (c :: ds, r) else ([], s)
  | [] => ([], [])
  end.

(** The optional fraction and exponent of a numeral: they need a digit. *)
Definition scan_frac (s : pystr) : pystr * pystr :=
  match s with
  | c :: s' =>
      if c =? 46
      then match span_digits s' with ([], _) => ([], s) | (ds, r) => (46 :: ds, r) end
      else ([], s)
  | [] => ([], s)
  end.
Definition scan_exp (s : pystr) : pystr * pystr :=
  match s with
  | e :: s' =>
      if one_of [101; 69] e then
        let '(sign, t) := match s' with
                          | c :: t => if one_of [43; 45] c then ([c], t) else ([], s')
                          | [] => ([], s')
                          end in
        match span_digits t with ([], _) => ([], s) | (ds, r) => (e :: sign ++ ds, r) end
      else ([], s)
  | [] => ([], s)
  end.

Definition json_error {A} : res A := raise JSONDecodeError #"Expecting value".

(** An integer literal of more than 4300 digits is refused by [int]. *)
Definition int_of_literal (neg : bool) (ds : pystr) : res json :=
  if (4300 <? N.of_nat (length ds))
  then raise ValueError #"Exceeds the limit (4300 digits) for integer string conversion"
  else let n := Z.of_N (digits_value ds) in Ok (JInt (if neg then - n else n)%Z).

Definition scan_int (s : pystr) : pystr * pystr :=
  match s with
  | c :: r => if c =? 48 then ([48], r) else span_digits s
  | [] => ([], [])
  end.
Definition scan_sign (s : pystr) : bool * pystr :=
  match s with
  | c :: r => if c =? 45 then (true, r) else (false, s)
  | [] => (false, [])
  end.
Definition scan_number (s : pystr) : res (json * pystr) :=
  let '(neg, s1) := scan_sign s in
  let '(ds, r) := scan_int s1 in
  match ds with
  | [] => json_error
  | _ =>
      let '(frac, r1) := scan_frac r in
      let '(ex, r2) := scan_exp r1 in
      match frac ++ ex with
      | [] => n ← int_of_literal neg ds; Ok (n, r)
      | tail => Ok (JFloat ((if neg then [45] else []) ++ ds ++ tail), r2)
      end
  end.

(** A literal name at the front of the text. *)
Definition scan_name (s : pystr) : option (json * pystr) :=
  if startswith s #"null" then Some (JNull, drop 4 s)
  else if startswith s #"true" then Some (JBool true, drop 4 s)
  else if startswith s #"false" then Some (JBool false, drop 5 s)
  else if startswith s #"NaN" then Some (JFloat #"nan", drop 3 s)
  else if startswith s #"Infinity" then Some (JFloat #"inf", drop 8 s)
  else if startswith s #"-Infinity" then Some (JFloat #"-inf", drop 9 s)
  else None.

Definition next_is (c : N) (s : pystr) : option pystr :=
  match s with d :: r => if d =? c then Some r else None | [] => None end.

(** Each call consumes a character or descends from the list to its element,
    so twice the length is enough fuel ([loads_errors]). *)
Fixpoint scan_value (fuel : nat) (s : pystr) : res (json * pystr) :=
  match fuel with
  | O => raise (LibraryError #"fuel") []
  | S fuel =>
      match next_is 34 s, next_is 123 s, next_is 91 s with
      | Some rest, _, _ =>
          match scan_string [] rest with Some (t, r) => Ok (JStr t, r) | None => json_error end
      | _, Some rest, _ =>
          match next_is 125 (skip_ws rest) with
          | Some r => Ok (JObj [], r)
          | None => scan_members fuel [] (skip_ws rest)
          end
      | _, _, Some rest =>
          match next_is 93 (skip_ws rest) with
          | Some r => Ok (JArr [], r)
          | None => scan_elems fuel [] (skip_ws rest)
          end
      | _, _, _ => match scan_name s with Some p => Ok p | None => scan_number s end
      end
  end
with scan_members (fuel : nat) (acc : jobject) (s : pystr) : res (json * pystr) :=
  match fuel with
  | O => raise (LibraryError #"fuel") []
  | S fuel =>
      match rest ← next_is 34 s; '(key, r) ← scan_string [] rest;
            r1 ← next_is 58 (skip_ws r); Some (key, r1) with
      | None => json_error
      | Some (key, r1) =>
          '(v, r2) ← scan_value fuel (skip_ws r1);
          match next_is 125 (skip_ws r2), next_is 44 (skip_ws r2) with
          | Some r3, _ => Ok (JObj (dict_set acc key v), r3)
          | _, Some r3 => scan_members fuel (dict_set acc key v) (skip_ws r3)
          | _, _ => json_error
          end
      end
  end
with scan_elems (fuel : nat) (acc : list json) (s : pystr) : res (json * pystr) :=
  match fuel with
  | O => raise (LibraryError #"fuel") []
  | S fuel =>
      '(v, r) ← scan_value fuel s;
      match next_is 93 (skip_ws r), next_is 44 (skip_ws r) with
      | Some r', _ => Ok (JArr (acc ++ [v]), r')
      | _, Some r' => scan_elems fuel (acc ++ [v]) (skip_ws r')
      | _, _ => json_error
      end
  end.

Definition loads (s : pystr) : res json :=
  match next_is 65279 s with
  | Some _ => json_error
  | None =>
      '(v, r) ← scan_value (2 * length s + 2) (skip_ws s);
      match skip_ws r with [] => Ok v | _ => json_error end
  end.
End decoder.

(** ** Laws of the decoder *)

Lemma drop_while_length f s : length (drop_while f s) <= length s.
Proof. induction s as [|c s IH]; [done|]. cbn. destruct (f c); cbn; lia. Qed.

Lemma skip_ws_length s : length (skip_ws s) <= length s.
Proof. apply drop_while_length. Qed.

Lemma next_is_length c s r : next_is c s = Some r -> length s = S (length r).
Proof. destruct s as [|d s]; [done|]. cbn. destruct (d =? c)%N; [|done]. by intros [= ->]. Qed.

Lemma scan_string_length acc s t r : scan_string acc s = Some (t, r) -> length r < length s.
Proof.
  remember (length s) as n eqn:Hn. revert acc s Hn. induction n as [n IH] using lt_wf_ind.
  intros acc s ->. destruct s as [|c s]; [done|]. cbn -[second_escape hex4].
  split_matches; intros Hs; simplify_eq/=; try lia;
    (eapply IH in Hs; [| |reflexivity]; cbn in *; lia).
Qed.
Lemma span_digits_length s ds r : span_digits s = (ds, r) -> length s = length ds + length r.
Proof.
  revert ds r. induction s as [|c s IH]; cbn; [by intros ? ? [= <- <-]|].
  intros ds r. destruct (ascii_digit c); [|by intros [= <- <-]].
  destruct (span_digits s) as [ds' r'] eqn:E. intros [= <- <-]. cbn. by rewrite (IH ds' r').
Qed.

Lemma scan_frac_length s f r : scan_frac s = (f, r) -> length s = length f + length r.
Proof.
  unfold scan_frac. destruct s as [|c s]; [by intros [= <- <-]|].
  destruct (c =? 46)%N; [|by intros [= <- <-]].
  destruct (span_digits s) as [[|d ds] r'] eqn:E; intros [= <- <-]; [done|].
  apply span_digits_length in E. cbn in *. lia.
Qed.

Lemma scan_exp_length s x r : scan_exp s = (x, r) -> length r <= length s.
Proof.
  unfold scan_exp. destruct s as [|c s]; [by intros [= <- <-]|].
  destruct (one_of [101; 69]%N c); [|intros [= <- <-]; cbn; lia].
  set (p := match s with [] => _ | _ => _ end).
  assert (length p.2 <= length s) as Hp
    by (subst p; destruct s as [|d s]; [done|]; destruct (one_of _ d); cbn; lia).
  destruct p as [sign t]. destruct (span_digits t) as [[|d ds] r'] eqn:E;
    intros [= <- <-]; apply span_digits_length in E; cbn in *; lia.
Qed.

(** Outcome of a scan: a shorter rest, or one of the two errors of [json.loads]. *)
Definition decode_error (e : exn) : Prop :=
  exn_type e = JSONDecodeError \/ exn_type e = ValueError.
Definition scans (s : pystr) (r : res (json * pystr)) : Prop :=
  match r with Ok (_, rest) => length rest < length s | Raise e => decode_error e end.

Lemma scans_error s : scans s json_error.
Proof. by left. Qed.

Lemma scan_number_scans s : scans s (scan_number s).
Proof.
  unfold scan_number, scan_sign, scan_int.
  set (p := match s with [] => _ | _ => _ end).
  assert (length p.2 <= length s) as Hp
    by (subst p; destruct s as [|c s]; [done|]; destruct (c =? 45)%N; cbn; lia).
  destruct p as [neg s1]. set (q := match s1 with [] => _ | _ => _ end).
  assert (length s1 = length q.1 + length q.2) as Hq.
  { subst q. destruct s1 as [|c s1]; [done|]. destruct (c =? 48)%N; [done|].
    destruct (span_digits (c :: s1)) as [ds r] eqn:E. by apply span_digits_length in E. }
  destruct q as [[|d ds] r]; [apply scans_error|]. cbn in Hp, Hq.
  destruct (scan_frac r) as [f r1] eqn:Ef. apply scan_frac_length in Ef.
  destruct (scan_exp r1) as [x r2] eqn:Ex. apply scan_exp_length in Ex.
  destruct (f ++ x) as [|a t]; [|cbn; lia].
  unfold int_of_literal. destruct (_ <? _)%N; [by right|]. cbn. lia.
Qed.

Lemma scan_name_length s v r : scan_name s = Some (v, r) -> length r < length s.
Proof.
  unfold scan_name. destruct s as [|c s]; [done|].
  repeat (destruct (startswith _ _); [intros [= <- <-]; rewrite ?length_drop; cbn; lia|]). done.
Qed.

#[local] Hint Resolve scans_error : py.

Lemma scans_weaken s s' r : length s' <= length s -> scans s' r -> scans s r.
Proof. destruct r as [[v r]|e]; cbn; [lia|done]. Qed.

Lemma scans_bind s s' r (f : json * pystr -> res (json * pystr)) :
  scans s' r -> (forall v rest, length rest < length s' -> scans s (f (v, rest))) -> scans s (r ≫= f).
Proof. destruct r as [[v rest]|e]; cbn; eauto. Qed.

(** With twice the length of fuel, the scanners never run out of it. *)
Lemma scan_all_scans fuel :
  (forall s, 2 * length s < fuel -> scans s (scan_value fuel s)) /\
  (forall acc s, 2 * length s < fuel -> scans s (scan_members fuel acc s)) /\
  (forall acc s, 2 * length s + 1 < fuel -> scans s (scan_elems fuel acc s)).
Proof.
  induction fuel as [|fuel (IHv & IHm & IHe)]; [split_and!; lia|].
  split_and!.
  - intros s Hs. cbn [scan_value].
    destruct (next_is 34 s) as [rest|] eqn:E1.
    { apply next_is_length in E1. destruct (scan_string [] rest) as [[t r]|] eqn:E; [|by left].
      apply scan_string_length in E. cbn. lia. }
    destruct (next_is 123 s) as [rest|] eqn:E2.
    { apply next_is_length in E2. pose proof (skip_ws_length rest).
      destruct (next_is 125 _) as [r|] eqn:E; [apply next_is_length in E; cbn; lia|].
      eapply scans_weaken; [|apply IHm]; lia. }
    destruct (next_is 91 s) as [rest|] eqn:E3.
    { apply next_is_length in E3. pose proof (skip_ws_length rest).
      destruct (next_is 93 _) as [r|] eqn:E; [apply next_is_length in E; cbn; lia|].
      eapply scans_weaken; [|apply IHe]; lia. }
    destruct (scan_name s) as [[v r]|] eqn:E; [by apply scan_name_length in E|].
    apply scan_number_scans.
  - intros acc s Hs. cbn [scan_members].
    destruct (next_is 34 s) as [rest|] eqn:E1; cbn; [|by left]. apply next_is_length in E1.
    destruct (scan_string [] rest) as [[key r]|] eqn:E; cbn; [|by left].
    apply scan_string_length in E. pose proof (skip_ws_length r).
    destruct (next_is 58 _) as [r1|] eqn:E2; cbn; [|by left]. apply next_is_length in E2.
    pose proof (skip_ws_length r1). eapply scans_bind; [apply IHv; lia|]. intros v r2 Hr2.
    pose proof (skip_ws_length r2).
    destruct (next_is 125 _) as [r3|] eqn:E3; [apply next_is_length in E3; cbn; lia|].
    destruct (next_is 44 _) as [r3|] eqn:E4; [|by left]. apply next_is_length in E4.
    pose proof (skip_ws_length r3). eapply scans_weaken; [|apply IHm]; lia.
  - intros acc s Hs. cbn [scan_elems].
    eapply scans_bind; [apply IHv; lia|]. intros v r Hr. pose proof (skip_ws_length r).
    destruct (next_is 93 _) as [r'|] eqn:E3; [apply next_is_length in E3; cbn; lia|].
    destruct (next_is 44 _) as [r'|] eqn:E4; [|by left]. apply next_is_length in E4.
    pose proof (skip_ws_length r'). eapply scans_weaken; [|apply IHe]; lia.
Qed.

(** [json.loads] decodes, or raises [JSONDecodeError] or [ValueError]. *)
Lemma loads_errors s e : loads s = Raise e -> decode_error e.
Proof.
  unfold loads. destruct (next_is 65279 s); [intros [= <-]; by left|].
  pose proof (skip_ws_length s) as Hws.
  destruct (scan_all_scans (2 * length s + 2)) as [Hv _].
  specialize (Hv (skip_ws s) ltac:(lia)).
  destruct (scan_value _ _) as [[v r]|e']; cbn; [|by intros [= ->]].
  destruct (skip_ws r); [done|]. intros [= <-]. by left.
Qed.

Example loads_object :
  loads #"{'a': [1, -2.50e1, true]}" = json_error /\
  loads (map (fun c => if (c =? 39)%N then 34%N else c) #" {'a': [1, -2.50e1, true], 'b\n': {}} ")
  = Ok (JObj [(#"a", JArr [JInt 1; JFloat #"-2.50e1"; JBool true]);
              ([98; 10]%N, JObj [])]).
Proof. split; vm_compute; reflexivity. Qed.
