(* ===== verification/Effects.v ===== *)
(** * Effectful code: call trees and their program logic

    An asynchronous use case is a finite tree of the port calls it awaits: a node
    holds the call and, for every answer (a value or an exception), the rest of
    the computation.  [run] executes a tree against an oracle that sees the whole
    history; [gather] is [asyncio.gather] under an arbitrary schedule; [wp] is the
    logic the services' theorems are proved in, and [wp_run] its soundness. *)
From S2P Require Import Prelude PyStr Errors.

(** The calls an application layer makes on its ports, and their answers. *)
Class Signature := { call : Type; answer : call -> Type }.

Section trees.
Context `{Signature}.

Inductive prog (A : Type) :=
| Done (r : res A)
| Do (c : call) (k : res (answer c) -> prog A).
Arguments Done {A} _.
Arguments Do {A} _ _.

(** [await port.call(...)]. *)
Definition perform (c : call) : prog (answer c) := Do c Done.
Definition lift {A} (r : res A) : prog A := Done r.

Fixpoint pbind {A B} (f : A -> prog B) (p : prog A) : prog B :=
  match p with
  | Done (Ok a) => f a
  | Done (Raise e) => Done (Raise e)
  | Do c k => Do c (fun a => pbind f (k a))
  end.

(** [try: p except ...: handler]: the handler is [None] on the exceptions it lets pass. *)
Fixpoint try_except {A} (p : prog A) (handler : exn -> option (prog A)) : prog A :=
  match p with
  | Done (Ok a) => Done (Ok a)
  | Done (Raise e) => match handler e with Some q => q | None => Done (Raise e) end
  | Do c k => Do c (fun a => try_except (k a) handler)
  end.

(** [except Exception as exc]. *)
Definition on_exception {A} (f : exn -> prog A) (e : exn) : option (prog A) :=
  if isinstance (exn_type e) Exception_ then Some (f e) else None.
(** [except C as exc]. *)
Definition on_class {A} (c : exn_class) (f : exn -> prog A) (e : exn) : option (prog A) :=
  if isinstance (exn_type e) c then Some (f e) else None.

(** ** Execution *)

Definition event := { c : call & res (answer c) }.
Definition history := list event.
Definition oracle := history -> forall c : call, res (answer c).
Definition called (ev : event) : call := projT1 ev.
Definition calls (h : history) : list call := called <$> h.

Fixpoint run {A} (o : oracle) (p : prog A) (h : history) : res A * history :=
  match p with
  | Done r => (r, h)
  | Do c k => let a := o h c in run o (k a) (h ++ [existT c a])
  end.

(** ** Concurrency

    [asyncio.gather] of workers that each run up to their next call: the schedule
    names, at every turn, the worker that resumes; when it ends, the remaining
    workers finish in order.  Every interleaving is some schedule.  The workers of
    the services never raise, so the first exception's early return is only
    modelled as the outcome once all have finished. *)
Definition step {A} (p : prog A) (f : prog A -> prog (list (res A))) : prog (list (res A)) :=
  match p with
  | Done r => f (Done r)
  | Do c k => Do c (fun a => f (k a))
  end.

Fixpoint finish_all {A} (ps : list (prog A)) (f : list (res A) -> prog (list (res A))) : prog (list (res A)) :=
  match ps with
  | [] => f []
  | p :: ps =>
      (fix go (p : prog A) : prog (list (res A)) :=
         match p with
         | Done r => finish_all ps (fun rs => f (r :: rs))
         | Do c k => Do c (fun a => go (k a))
         end) p
  end.

Fixpoint interleave {A} (sched : list nat) (ps : list (prog A)) : prog (list (res A)) :=
  match sched with
  | [] => finish_all ps (fun rs => Done (Ok rs))
  | i :: sched =>
      match ps !! i with
      | Some p => step p (fun p' => interleave sched (<[i := p']> ps))
      | None => interleave sched ps
      end
  end.

(** The results in the order of the workers, or the first worker's exception. *)
Fixpoint first_error {A} (rs : list (res A)) : res (list A) :=
  match rs with
  | [] => Ok []
  | Ok a :: rs => match first_error rs with Ok l => Ok (a :: l) | Raise e => Raise e end
  | Raise e :: _ => Raise e
  end.
Definition gather {A} (sched : list nat) (ps : list (prog A)) : prog (list A) :=
  pbind (fun rs => Done (first_error rs)) (interleave sched ps).

(** When workers may raise, the first exception in time is the outcome; the other workers
    are not cancelled, and go on in the background. *)
Definition note {A} (first : option exn) (p : prog A) : option exn :=
  match first, p with None, Done (Raise e) => Some e | _, _ => first end.
Fixpoint race {A} (sched : list nat) (first : option exn) (ps : list (prog A)) : prog (list A) :=
  match sched with
  | [] => pbind (fun rs => Done (if first is Some e then Raise e else first_error rs))
            (finish_all ps (fun rs => Done (Ok rs)))
  | i :: sched =>
      match ps !! i with
      | Some (Do c k) => Do c (fun a => race sched (note first (k a)) (<[i := k a]> ps))
      | _ => race sched first ps
      end
  end.
Definition gather_first {A} (sched : list nat) (ps : list (prog A)) : prog (list A) :=
  race sched (fold_left note ps None) ps.

(** ** A world without memory

    The outcome when each call is always answered alike: it depends on no schedule. *)
Fixpoint eval {A} (f : forall c, res (answer c)) (p : prog A) : res A :=
  match p with Done r => r | Do c k => eval f (k (f c)) end.

(** ** Program logic

    [wp p h G Q]: from history [h], every call [p] makes satisfies [G] on the
    history before it, whatever the answers, and the outcome satisfies [Q]. *)
Fixpoint wp {A} (p : prog A) (h : history) (G : history -> call -> Prop)
    (Q : history -> res A -> Prop) : Prop :=
  match p with
  | Done r => Q h r
  | Do c k => G h c /\ forall a, wp (k a) (h ++ [existT c a]) G Q
  end.
End trees.

Arguments Done {_ A} _.
Arguments Do {_ A} _ _.

#[export] Instance prog_ret `{Signature} : MRet prog := fun A a => Done (Ok a).
#[export] Instance prog_bind `{Signature} : MBind prog := fun A B f p => pbind f p.

(** [await p], its value unused. *)
Definition ignore `{Signature} {A} (p : prog A) : prog unit := p ≫= fun _ => mret tt.

(** What [p] ends with, as a value. *)
Definition outcome_of `{Signature} {A} (p : prog A) : prog (res A) :=
  try_except (a ← p; mret (Ok a)) (fun e => Some (mret (Raise e))).
(** [try: p finally: cleanup]: an exception of the cleanup replaces the outcome. *)
Definition finally `{Signature} {A} (p : prog A) (cleanup : prog unit) : prog A :=
  outcome ← outcome_of p;
  cleanup;;
  lift outcome.

Section logic.
Context `{Signature}.

Lemma wp_mono {A} (p : prog A) h (G G' : history -> call -> Prop) (Q Q' : history -> res A -> Prop) :
  wp p h G Q -> (forall h c, G h c -> G' h c) -> (forall h r, Q h r -> Q' h r) -> wp p h G' Q'.
Proof.
  revert h. induction p as [r|c k IH]; cbn; intros h Hp HG HQ; [by apply HQ|].
  destruct Hp as [Hc Hk]. split; [by apply HG|]. intros a. apply IH; auto.
Qed.

Lemma wp_bind {A B} (p : prog A) (f : A -> prog B) h G Q :
  wp p h G (fun h r => match r with Ok a => wp (f a) h G Q | Raise e => Q h (Raise e) end) ->
  wp (p ≫= f) h G Q.
Proof.
  unfold mbind, prog_bind. revert h. induction p as [[a|e]|c k IH]; cbn; intros h Hp; [done..|].
  destruct Hp as [Hc Hk]. split; [done|]. intros a. by apply IH.
Qed.

Lemma wp_try {A} (p : prog A) handler h G Q :
  wp p h G (fun h r =>
    match r with
    | Ok a => Q h (Ok a)
    | Raise e => match handler e with Some q => wp q h G Q | None => Q h (Raise e) end
    end) ->
  wp (try_except p handler) h G Q.
Proof.
  revert h. induction p as [[a|e]|c k IH]; cbn; intros h Hp; [done| |].
  - by destruct (handler e).
  - destruct Hp as [Hc Hk]. split; [done|]. intros a. by apply IH.
Qed.

Lemma wp_outcome {A} (p : prog A) h G (Q : history -> res (res A) -> Prop) :
  wp p h G (fun h r => Q h (Ok r)) -> wp (outcome_of p) h G Q.
Proof. intros Hp. apply wp_try, wp_bind. eapply wp_mono; [exact Hp|done|]. by intros h' [a|e]. Qed.

Lemma wp_finally {A} (p : prog A) cleanup h G (Q : history -> res A -> Prop) :
  wp p h G (fun h1 r => wp cleanup h1 G (fun h2 rc => match rc with Ok _ => Q h2 r | Raise e => Q h2 (Raise e) end)) ->
  wp (finally p cleanup) h G Q.
Proof.
  intros Hp. apply wp_bind, wp_outcome. eapply wp_mono; [exact Hp|done|]. cbn beta iota. intros h1 r Hc.
  apply wp_bind. eapply wp_mono; [exact Hc|done|]. by intros h2 [[]|e].
Qed.

Lemma wp_perform c h G Q :
  G h c -> (forall a, Q (h ++ [existT c a]) a) -> wp (perform c) h G Q.
Proof. by cbn. Qed.

Lemma wp_lift {A} (r : res A) h G (Q : history -> res A -> Prop) : Q h r -> wp (lift r) h G Q.
Proof. done. Qed.

(** Both logics at once: the calls are safe and the outcome is right. *)
Lemma wp_conj {A} (p : prog A) h G G' Q Q' :
  wp p h G Q -> wp p h G' Q' ->
  wp p h (fun h c => G h c /\ G' h c) (fun h r => Q h r /\ Q' h r).
Proof.
  revert h. induction p as [r|c k IH]; cbn; [done|]. intros h [Hc Hk] [Hc' Hk'].
  split; [done|]. intros a. by apply IH.
Qed.

(** Soundness: what [wp] says holds of every execution. *)
Inductive grows (G : history -> call -> Prop) (h : history) : history -> Prop :=
| grows_nil : grows G h h
| grows_snoc h' ev : grows G h h' -> G h' (called ev) -> grows G h (h' ++ [ev]).

Lemma grows_trans G h1 h2 h3 : grows G h1 h2 -> grows G h2 h3 -> grows G h1 h3.
Proof. intros H12 H23. induction H23; [done|]. by constructor. Qed.

Lemma wp_run {A} (p : prog A) o h G Q :
  wp p h G Q -> let '(r, h') := run o p h in Q h' r /\ grows G h h'.
Proof.
  revert h. induction p as [r|c k IH]; cbn; intros h Hp; [split; [done|constructor]|].
  destruct Hp as [Hc Hk]. specialize (IH (o h c) _ (Hk (o h c))).
  destruct (run o (k (o h c)) _) as [r h']. destruct IH as [HQ Hg]. split; [done|].
  eapply grows_trans; [|exact Hg]. apply (grows_snoc G h h (existT c (o h c))); [constructor|done].
Qed.

(** Running a sequence runs its parts from the history so far. *)
Lemma run_bind {A B} o (p : prog A) (f : A -> prog B) h :
  run o (p ≫= f) h =
    match run o p h with (Ok a, h') => run o (f a) h' | (Raise e, h') => (Raise e, h') end.
Proof.
  unfold mbind, prog_bind. revert h. induction p as [[a|e]|c k IH]; intros h; cbn; [done..|]. apply IH.
Qed.

Lemma run_try {A} o (p : prog A) handler h :
  run o (try_except p handler) h =
    match run o p h with
    | (Ok a, h') => (Ok a, h')
    | (Raise e, h') => match handler e with Some q => run o q h' | None => (Raise e, h') end
    end.
Proof. revert h. induction p as [[a|e]|c k IH]; intros h; cbn; [done|by destruct (handler e)|]. apply IH. Qed.

Lemma run_lift {A} o (r : res A) h : run o (lift r) h = (r, h).
Proof. done. Qed.

(** When [G] does not look at the history, it holds of every call made. *)
Lemma grows_calls (P : call -> Prop) h h' :
  grows (fun _ => P) h h' -> exists k, h' = h ++ k /\ Forall P (calls k).
Proof.
  induction 1 as [|h' ev Hg (k & -> & Hk) Hev].
  - exists []. by rewrite app_nil_r.
  - exists (k ++ [ev]). rewrite <- app_assoc. split; [done|]. unfold calls.
    rewrite fmap_app. apply Forall_app. by split; [|constructor].
Qed.

Lemma wp_calls {A} (p : prog A) o (P : call -> Prop) :
  wp p [] (fun _ => P) (fun _ _ => True) -> Forall P (calls (run o p []).2).
Proof.
  intros Hp. apply (wp_run _ o) in Hp. destruct (run o p []) as [r h'].
  destruct Hp as [_ Hg]. by apply grows_calls in Hg as (k & -> & Hk).
Qed.

(** ** Gathering *)

(** What a worker may assume and guarantee does not depend on the others. *)
Definition local_spec {A} (P : call -> Prop) (Q : res A -> Prop) (p : prog A) : Prop :=
  forall h, wp p h (fun _ => P) (fun _ => Q).

Lemma local_done {A} (P : call -> Prop) (Q : res A -> Prop) r : Q r -> local_spec P Q (Done r).
Proof. by intros ? h. Qed.

Lemma local_do {A} (P : call -> Prop) (Q : res A -> Prop) c k :
  (P c /\ forall a, local_spec P Q (k a)) -> local_spec P Q (Do c k).
Proof. intros [Hc Hk] h. cbn. split; [done|]. intros a. apply Hk. Qed.

(** A tree's local behaviour is the same from any history. *)
Lemma wp_local {A} (p : prog A) h h' (P : call -> Prop) (Q : res A -> Prop) :
  wp p h (fun _ => P) (fun _ => Q) -> wp p h' (fun _ => P) (fun _ => Q).
Proof.
  revert h h'. induction p as [r|c k IH]; cbn; intros h h'; [done|].
  intros [Hc Hk]. split; [done|]. intros a. eapply IH, Hk.
Qed.

Lemma local_of_wp {A} (p : prog A) (P : call -> Prop) (Q : res A -> Prop) :
  wp p [] (fun _ => P) (fun _ => Q) -> local_spec P Q p.
Proof. intros Hp h. by eapply wp_local. Qed.

(** What a tree with a local specification has called. *)
Lemma wp_local_calls {A} (p : prog A) (P : call -> Prop) (Q : res A -> Prop) h : local_spec P Q p ->
  wp p h (fun _ => P) (fun h' r => Q r /\ exists k, h' = h ++ k /\ Forall P (calls k)).
Proof.
  intros Hp. specialize (Hp h). revert h Hp. induction p as [r|c k IH]; cbn; intros h; [|intros [Hc Hk]; split; [done|]; intros a].
  - intros Hr. split; [done|]. exists []. by rewrite app_nil_r.
  - eapply wp_mono; [apply IH, Hk|done|]. intros h' r [Hr (l & -> & Hl)]. split; [done|].
    exists (existT c a :: l). rewrite <- app_assoc. split; [done|]. by constructor.
Qed.

Lemma local_mono {A} (P : call -> Prop) (Q R : res A -> Prop) p :
  (forall r, Q r -> R r) -> local_spec P Q p -> local_spec P R p.
Proof. intros HQ Hp h. eapply wp_mono; [apply Hp|done|]. intros h' r. apply HQ. Qed.

Lemma local_bind {A B} (P : call -> Prop) (Q : res A -> Prop) (R : res B -> Prop) p (f : A -> prog B) :
  local_spec P Q p -> (forall a, Q (Ok a) -> local_spec P R (f a)) -> (forall e, Q (Raise e) -> R (Raise e)) ->
  local_spec P R (p ≫= f).
Proof.
  intros Hp Hf He h. apply wp_bind. eapply wp_mono; [apply Hp|done|]. intros h' [a|e] HQ; [by apply Hf|by apply He].
Qed.

Lemma local_try {A} (P : call -> Prop) (Q R : res A -> Prop) p handler :
  local_spec P Q p -> (forall a, Q (Ok a) -> R (Ok a)) ->
  (forall e, Q (Raise e) -> match handler e with Some q => local_spec P R q | None => R (Raise e) end) ->
  local_spec P R (try_except p handler).
Proof.
  intros Hp Ha He h. apply wp_try. eapply wp_mono; [apply Hp|done|]. intros h' [a|e] HQ; [by apply Ha|].
  specialize (He e HQ). by destruct (handler e).
Qed.

Lemma local_finally {A} (P : call -> Prop) (Q : res A -> Prop) (F : exn -> Prop) p cleanup :
  local_spec P Q p -> local_spec P (fun r => match r with Ok _ => True | Raise e => F e end) cleanup ->
  (forall e, F e -> Q (Raise e)) -> local_spec P Q (finally p cleanup).
Proof.
  intros Hp Hc He h. apply wp_finally. eapply wp_mono; [apply Hp|done|]. intros h1 r Hr.
  eapply wp_mono; [apply Hc|done|]. intros h2 [[]|e] HF; [done|by apply He].
Qed.

Lemma local_perform (P : call -> Prop) c Q : P c -> (forall a, Q a) -> local_spec P Q (perform c).
Proof. intros Hc Ha h. by split. Qed.

(** Every history on the way extends the first one. *)
Lemma wp_extends {A} (p : prog A) h : wp p h (fun h' _ => exists k, h' = h ++ k) (fun h' _ => exists k, h' = h ++ k).
Proof.
  assert (forall h', (exists k, h' = h ++ k) -> wp p h' (fun h' _ => exists k, h' = h ++ k) (fun h' _ => exists k, h' = h ++ k)) as Hp.
  2: { apply Hp. exists []. by rewrite app_nil_r. }
  induction p as [r|c k IH]; intros h' Hh; [done|]. split; [done|]. intros a. apply IH. destruct Hh as [j ->].
  exists (j ++ [existT c a]). by rewrite app_assoc.
Qed.

(** Of any tree. *)
Lemma local_true {A} (p : prog A) : local_spec (fun _ => True) (fun _ => True) p.
Proof. intros h. revert h. induction p as [r|c k IH]; intros h; [done|]. split; [done|]. intros a. apply IH. Qed.

Lemma local_inv {A} (P : call -> Prop) (Q : res A -> Prop) c k :
  local_spec P Q (Do c k) -> P c /\ forall a, local_spec P Q (k a).
Proof.
  intros Hl. split; [by apply (Hl [])|]. intros a. apply local_of_wp.
  destruct (Hl []) as [_ Hk]. eapply wp_local, Hk.
Qed.

Lemma local_finish_all {A} (P : call -> Prop) (Qs : list (res A -> Prop)) ps
    (R : res (list (res A)) -> Prop) f :
  Forall2 (local_spec P) Qs ps ->
  (forall rs, Forall2 (fun Q r => Q r) Qs rs -> local_spec P R (f rs)) ->
  local_spec P R (finish_all ps f).
Proof.
  intros HF. revert f. induction HF as [|Q p Qs ps Hp HF IH]; intros f Hf; [by apply Hf|].
  cbn [finish_all]. induction p as [r|c k IHp].
  - apply IH. intros rs Hrs. apply Hf. constructor; [|done]. apply (Hp []).
  - apply local_inv in Hp as [Hc Hk]. apply local_do. split; [done|]. intros a. by apply IHp.
Qed.

Lemma local_interleave {A} sched (P : call -> Prop) (Qs : list (res A -> Prop)) ps :
  Forall2 (local_spec P) Qs ps ->
  local_spec P (fun r => exists rs, r = Ok rs /\ Forall2 (fun Q r => Q r) Qs rs) (interleave sched ps).
Proof.
  revert ps. induction sched as [|i sched IH]; intros ps HF; cbn [interleave].
  - eapply local_finish_all; [exact HF|]. intros rs Hrs. apply local_done. eauto.
  - destruct (ps !! i) as [p|] eqn:Hi; [|by apply IH].
    destruct (Forall2_lookup_r _ _ _ _ _ HF Hi) as (Q & HQ & Hp).
    assert (forall p', local_spec P Q p' -> Forall2 (local_spec P) Qs (<[i:=p']> ps)) as Hins.
    { intros p' Hp'. rewrite <- (list_insert_id Qs i Q) by done. by apply Forall2_insert. }
    destruct p as [r|c k]; cbn [step].
    + apply IH. by apply Hins.
    + apply local_inv in Hp as [Hc Hk]. apply local_do. split; [done|]. intros a.
      apply IH. by apply Hins.
Qed.

Lemma first_error_cases {X A} (Q : X -> res A -> Prop) xs rs :
  Forall2 Q xs rs ->
  match first_error rs with
  | Ok l => Forall2 (fun x a => Q x (Ok a)) xs l
  | Raise e => exists x, x ∈ xs /\ Q x (Raise e)
  end.
Proof.
  induction 1 as [|x r xs rs Hr _ IH]; [constructor|]. cbn. destruct r as [a|e].
  - destruct (first_error rs) as [l|e]; [by constructor|].
    destruct IH as (y & Hy & HQ). exists y. split; [by right|done].
  - exists x. split; [by left|done].
Qed.

(** The rule of [gather]: whatever the schedule, the results come in the order of
    the workers and each meets its worker's specification; if the whole raises,
    one of the workers did. *)
Lemma local_gather {X A} sched (P : call -> Prop) (Q : X -> res A -> Prop) (worker : X -> prog A) xs :
  (forall x, x ∈ xs -> local_spec P (Q x) (worker x)) ->
  local_spec P
    (fun r => match r with
              | Ok l => Forall2 (fun x a => Q x (Ok a)) xs l
              | Raise e => exists x, x ∈ xs /\ Q x (Raise e)
              end)
    (gather sched (worker <$> xs)).
Proof.
  intros Hw h. unfold gather.
  apply (wp_bind (interleave sched (worker <$> xs)) (fun rs => Done (first_error rs))).
  eapply wp_mono; [apply (local_interleave sched P (Q <$> xs))| done |].
  - apply Forall2_fmap_l, Forall2_fmap_r, Forall_Forall2_diag, Forall_forall. exact Hw.
  - cbn. intros _ r (rs & -> & Hrs%Forall2_fmap_l). cbn. by apply first_error_cases.
Qed.

(** The same for [gather_first]. *)
Lemma local_race {X A} (P : call -> Prop) (Q : X -> res A -> Prop) xs sched first ps :
  Forall2 (fun x p => local_spec P (Q x) p) xs ps ->
  (forall e, first = Some e -> exists x, x ∈ xs /\ Q x (Raise e)) ->
  local_spec P
    (fun r => match r with
              | Ok l => Forall2 (fun x a => Q x (Ok a)) xs l
              | Raise e => exists x, x ∈ xs /\ Q x (Raise e)
              end)
    (race sched first ps).
Proof.
  revert first ps. induction sched as [|i sched IH]; intros first ps HF Hfirst; cbn [race].
  - intros h. apply (wp_bind (finish_all ps (fun rs => Done (Ok rs)))).
    eapply wp_mono; [apply (local_finish_all P (Q <$> xs)
      ps (fun r => exists rs, r = Ok rs /\ Forall2 (fun Q r => Q r) (Q <$> xs) rs))|done|].
    + by apply Forall2_fmap_l.
    + intros rs Hrs. apply local_done. eauto.
    + cbn. intros _ r (rs & -> & Hrs%Forall2_fmap_l). cbn. destruct first as [e|]; [by apply Hfirst|].
      by apply first_error_cases.
  - destruct (ps !! i) as [[r|c k]|] eqn:Hi; [by apply IH| |by apply IH].
    destruct (Forall2_lookup_r _ _ _ _ _ HF Hi) as (x & Hx & Hp). apply local_inv in Hp as [Hc Hk].
    apply local_do. split; [done|]. intros a. apply IH.
    + rewrite <- (list_insert_id xs i x) by done. by apply Forall2_insert.
    + intros e. unfold note. destruct first as [e'|]; [by apply Hfirst|].
      destruct (k a) as [[b|e']|] eqn:Ek; try done. intros [= <-]. exists x.
      split; [by eapply list_elem_of_lookup_2|]. specialize (Hk a []). by rewrite Ek in Hk.
Qed.

Lemma note_all {A} (ps : list (prog A)) first e :
  fold_left note ps first = Some e -> first = Some e \/ exists p, p ∈ ps /\ p = Done (Raise e).
Proof.
  revert first. induction ps as [|p ps IH]; intros first; cbn; [by left|].
  intros [Hn|(q & Hq & ->)]%IH; [|right; exists (Done (Raise e)); split; [by right|done]].
  unfold note in Hn. destruct first as [e'|]; [by left|]. destruct p as [[a|e']|]; try done.
  injection Hn as ->. right. eexists. split; [by left|done].
Qed.

Lemma local_gather_first {X A} sched (P : call -> Prop) (Q : X -> res A -> Prop) (worker : X -> prog A) xs :
  (forall x, x ∈ xs -> local_spec P (Q x) (worker x)) ->
  local_spec P
    (fun r => match r with
              | Ok l => Forall2 (fun x a => Q x (Ok a)) xs l
              | Raise e => exists x, x ∈ xs /\ Q x (Raise e)
              end)
    (gather_first sched (worker <$> xs)).
Proof.
  intros Hw. apply local_race.
  - apply Forall2_fmap_r, Forall_Forall2_diag, Forall_forall. exact Hw.
  - intros e [He|(p & Hp & ->)]%note_all; [done|]. apply list_elem_of_fmap in Hp as (x & E & Hx).
    exists x. split; [done|]. specialize (Hw x Hx []). by rewrite <- E in Hw.
Qed.

(** A world without memory. *)
Lemma eval_run {A} (f : forall c, res (answer c)) (p : prog A) h : (run (fun _ => f) p h).1 = eval f p.
Proof. revert h. induction p as [r|c k IH]; intros h; cbn; [done|apply IH]. Qed.

Lemma eval_bind {A B} (f : forall c, res (answer c)) (p : prog A) (g : A -> prog B) :
  eval f (p ≫= g) = (eval f p ≫= fun a => eval f (g a)).
Proof. unfold mbind, prog_bind. induction p as [[a|e]|c k IH]; cbn; [done..|apply IH]. Qed.

Lemma eval_try {A} (f : forall c, res (answer c)) (p : prog A) handler :
  eval f (try_except p handler) =
    match eval f p with Ok a => Ok a | Raise e => match handler e with Some q => eval f q | None => Raise e end end.
Proof. induction p as [[a|e]|c k IH]; cbn; [done|by destruct (handler e)|apply IH]. Qed.

Lemma eval_outcome {A} (f : forall c, res (answer c)) (p : prog A) : eval f (outcome_of p) = Ok (eval f p).
Proof. unfold outcome_of. rewrite eval_try, eval_bind. by destruct (eval f p). Qed.
Lemma eval_finally {A} (f : forall c, res (answer c)) (p : prog A) cleanup :
  eval f (finally p cleanup) = (_ ← eval f cleanup; eval f p).
Proof. unfold finally. rewrite eval_bind, eval_outcome. cbn [mbind res_bind]. by rewrite eval_bind. Qed.

Lemma eval_finish_all {A} (f : forall c, res (answer c)) (ps : list (prog A)) g :
  eval f (finish_all ps g) = eval f (g (eval f <$> ps)).
Proof.
  revert g. induction ps as [|p ps IH]; intros g; [done|]. cbn [finish_all].
  induction p as [r|c k IHp]; [apply IH|]. cbn. by rewrite IHp.
Qed.

Lemma first_error_spec {A} (rs : list (res A)) :
  match first_error rs with Ok l => rs = Ok <$> l | Raise e => Raise e ∈ rs end.
Proof.
  induction rs as [|[a|e] rs IH]; cbn; [done| |by left].
  destruct (first_error rs) as [l|e]; cbn; [by rewrite IH|by right].
Qed.

(** Then every schedule gathers the same values, and an exception is one of a worker's. *)
Lemma eval_gather_first {A} (f : forall c, res (answer c)) sched (ps : list (prog A)) :
  match eval f (gather_first sched ps) with
  | Ok l => eval f <$> ps = Ok <$> l
  | Raise e => Raise e ∈ eval f <$> ps
  end.
Proof.
  assert (forall first, (forall e, first = Some e -> Raise e ∈ eval f <$> ps) ->
    match eval f (race sched first ps) with Ok l => eval f <$> ps = Ok <$> l | Raise e => Raise e ∈ eval f <$> ps end) as Hr.
  - revert ps. induction sched as [|i sched IH]; intros ps first Hf; cbn [race].
    + pose proof (eval_bind f (finish_all ps (fun rs => Done (Ok rs)))
        (fun rs => Done (if first is Some e then Raise e else first_error rs))) as E.
      unfold mbind, prog_bind in E. rewrite E, eval_finish_all. cbn.
      destruct first as [e|]; [by apply Hf|]. apply first_error_spec.
    + destruct (ps !! i) as [[r|c k]|] eqn:Hi; [by apply IH| |by apply IH]. cbn [eval].
      assert (eval f <$> ps = eval f <$> (<[i := k (f c)]> ps)) as Hs.
      { rewrite list_fmap_insert. symmetry. apply list_insert_id. by rewrite list_lookup_fmap, Hi. }
      rewrite Hs. apply IH. intros e He. rewrite <- Hs. unfold note in He. destruct first as [e'|]; [by apply Hf|].
      destruct (k (f c)) as [[a|e']|] eqn:Ek; try done. injection He as ->.
      apply list_elem_of_lookup. exists i. rewrite list_lookup_fmap, Hi. cbn. by rewrite Ek.
  - apply Hr. intros e [?|(p & Hp & ->)]%note_all; [done|]. apply list_elem_of_fmap. by exists (Done (Raise e)).
Qed.

(** The rule of [gather_first] in such a world. *)
Lemma eval_gather_spec {X A} (f : forall c, res (answer c)) sched (worker : X -> prog A) (Q : X -> A -> Prop) (F : exn -> Prop) xs :
  (forall x, x ∈ xs -> match eval f (worker x) with Ok a => Q x a | Raise e => F e end) ->
  match eval f (gather_first sched (worker <$> xs)) with Ok l => Forall2 Q xs l | Raise e => F e end.
Proof.
  intros Hw. pose proof (eval_gather_first f sched (worker <$> xs)) as Hg.
  destruct (eval f (gather_first _ _)) as [results|e].
  - rewrite <- list_fmap_compose in Hg. revert results Hg. induction xs as [|x xs IH]; intros [|r results] Hg; try done.
    cbn in Hg. injection Hg as Hr Hg. constructor; [|apply IH; [|done]; intros; apply Hw; by right].
    specialize (Hw x ltac:(by left)). unfold compose in Hr. by rewrite Hr in Hw.
  - apply list_elem_of_fmap in Hg as (p & He & (x & -> & Hx)%list_elem_of_fmap). specialize (Hw x Hx). by rewrite <- He in Hw.
Qed.

End logic.
