(* ===== verification/Stable.v ===== *)
(** * Stable guards: a logic for gathered workers that look at the history

    [wp] follows one tree alone, and the local specifications of [Effects] cannot look at the
    history.  Here a guard may: [gwp] says that it holds of every call of a tree although other
    trees make calls at any moment in between.  Everything is said of all extensions of the
    history, so that the rule of [gather] needs no side condition. *)
From S2P Require Import Prelude PyStr Errors Effects.

Section stable.
Context `{Signature}.

Fixpoint gwp {A} (p : prog A) (h : history) (G : history -> call -> Prop) (Q : history -> res A -> Prop) : Prop :=
  match p with
  | Done r => forall k, Q (h ++ k) r
  | Do c f => forall k, G (h ++ k) c /\ forall a, gwp (f a) ((h ++ k) ++ [existT c a]) G Q
  end.

Section rules.
Context (G : history -> call -> Prop).

Lemma gwp_extend {A} (p : prog A) h k Q : gwp p h G Q -> gwp p (h ++ k) G Q.
Proof. destruct p as [r|c f]; cbn; intros Hp j; rewrite <- app_assoc; apply Hp. Qed.
Lemma gwp_wp {A} (p : prog A) h Q : gwp p h G Q -> wp p h G Q.
Proof.
  revert h. induction p as [r|c f IH]; cbn; intros h Hp; specialize (Hp []); rewrite app_nil_r in Hp; [done|].
  destruct Hp as [Hc Hf]. split; [done|]. intros a. apply IH, Hf.
Qed.
Lemma gwp_mono {A} (p : prog A) h (Q Q' : history -> res A -> Prop) :
  gwp p h G Q -> (forall h r, Q h r -> Q' h r) -> gwp p h G Q'.
Proof.
  intros Hp HQ. revert h Hp. induction p as [r|c f IH]; cbn; intros h Hp k; [by apply HQ|].
  destruct (Hp k) as [Hc Hf]. split; [done|]. intros a. apply IH, Hf.
Qed.
Lemma gwp_bind {A B} (p : prog A) (f : A -> prog B) h Q :
  gwp p h G (fun h r => match r with Ok a => gwp (f a) h G Q | Raise e => Q h (Raise e) end) -> gwp (p ≫= f) h G Q.
Proof.
  unfold mbind, prog_bind. revert h. induction p as [[a|e]|c k IH]; cbn; intros h Hp.
  - specialize (Hp []). by rewrite app_nil_r in Hp.
  - done.
  - intros j. destruct (Hp j) as [Hc Hk]. split; [done|]. intros a. apply IH, Hk.
Qed.
Lemma gwp_try {A} (p : prog A) handler h Q :
  gwp p h G (fun h r => match r with
                        | Ok a => Q h (Ok a)
                        | Raise e => match handler e with Some q => gwp q h G Q | None => Q h (Raise e) end
                        end) ->
  gwp (try_except p handler) h G Q.
Proof.
  revert h. induction p as [[a|e]|c k IH]; cbn; intros h Hp; [done| |].
  - destruct (handler e); [|done]. specialize (Hp []). by rewrite app_nil_r in Hp.
  - intros j. destruct (Hp j) as [Hc Hk]. split; [done|]. intros a. apply IH, Hk.
Qed.
Lemma gwp_perform c h Q : (forall k, G (h ++ k) c) -> (forall k k' a, Q (((h ++ k) ++ [existT c a]) ++ k') a) -> gwp (perform c) h G Q.
Proof. cbn. intros Hc Hq k. split; [done|]. intros a k'. apply Hq. Qed.
Lemma gwp_lift {A} (r : res A) h (Q : history -> res A -> Prop) : (forall k, Q (h ++ k) r) -> gwp (lift r) h G Q.
Proof. done. Qed.
(** The history at the end extends that at the start. *)
Lemma gwp_extends {A} (p : prog A) h Q : gwp p h G Q -> gwp p h G (fun h' r => Q h' r /\ exists k, h' = h ++ k).
Proof.
  assert (forall (p : prog A) j, gwp p (h ++ j) G Q -> gwp p (h ++ j) G (fun h' r => Q h' r /\ exists k, h' = h ++ k)) as Hp.
  2: { intros Hp0. specialize (Hp p [] ). rewrite app_nil_r in Hp. by apply Hp. }
  clear p. induction p as [r|c f IH]; cbn; intros j Hp k.
  - split; [apply Hp|]. exists (j ++ k). by rewrite app_assoc.
  - destruct (Hp k) as [Hc Hf]. split; [done|]. intros a. specialize (Hf a). rewrite <- !app_assoc in *. by apply IH.
Qed.
(** A tree whose specification is local makes allowed calls, if these are always allowed. *)
Lemma gwp_local {A} (P : call -> Prop) (R : res A -> Prop) (p : prog A) h :
  local_spec P R p -> (forall k c, P c -> G (h ++ k) c) -> gwp p h G (fun h' r => R r /\ exists k, h' = h ++ k).
Proof.
  assert (forall p j, local_spec P R p -> (forall k c, P c -> G (h ++ k) c) ->
    gwp p (h ++ j) G (fun h' r => R r /\ exists k, h' = h ++ k)) as Hp.
  2: { intros Hl HP. specialize (Hp p [] Hl HP). by rewrite app_nil_r in Hp. }
  clear p. intros p j Hl HP. revert j Hl. induction p as [r|c f IH]; cbn; intros j Hl k.
  - split; [apply (Hl [])|]. exists (j ++ k). by rewrite app_assoc.
  - apply local_inv in Hl as [Hc Hf]. rewrite <- app_assoc. split; [by apply HP|]. intros a. rewrite <- app_assoc.
    apply IH, Hf.
Qed.

(** ** Gathering *)

Lemma gwp_finish_all {A} (Qs : list (history -> res A -> Prop)) ps h (R : history -> res (list (res A)) -> Prop) f :
  Forall2 (fun Q p => gwp p h G Q) Qs ps ->
  (forall k rs, Forall2 (fun (Q : history -> res A -> Prop) r => forall j, Q ((h ++ k) ++ j) r) Qs rs -> gwp (f rs) (h ++ k) G R) ->
  gwp (finish_all ps f) h G R.
Proof.
  intros HF. revert ps h f HF. induction Qs as [|Q Qs IH]; intros ps h f HF Hf.
  { apply Forall2_nil_inv_l in HF as ->. specialize (Hf [] []). rewrite app_nil_r in Hf. by apply Hf. }
  apply Forall2_cons_inv_l in HF as (p & ps' & Hp & HF & ->). cbn [finish_all].
  revert h HF Hp Hf. induction p as [r|c g IHp]; intros h HF Hp Hf.
  - apply IH; [done|]. intros k rs Hrs. apply Hf. constructor; [|done]. intros j. rewrite <- app_assoc. apply Hp.
  - intros k. destruct (Hp k) as [Hc Hg]. split; [done|]. intros a. apply IHp.
    + eapply Forall2_impl; [exact HF|]. intros Q' q Hq. rewrite <- app_assoc. by apply gwp_extend.
    + apply Hg.
    + intros j rs Hrs. assert (((h ++ k) ++ [existT c a]) ++ j = h ++ (k ++ [existT c a] ++ j)) as E by (by rewrite !app_assoc).
      rewrite E in *. by apply Hf.
Qed.

Lemma gwp_interleave {A} sched (Qs : list (history -> res A -> Prop)) ps h :
  Forall2 (fun Q p => gwp p h G Q) Qs ps ->
  gwp (interleave sched ps) h G (fun h' r => exists rs, r = Ok rs /\ Forall2 (fun (Q : history -> res A -> Prop) r => forall j, Q (h' ++ j) r) Qs rs).
Proof.
  revert h ps. induction sched as [|i sched IH]; intros h ps HF; cbn [interleave].
  - eapply gwp_finish_all; [exact HF|]. intros k rs Hrs j. exists rs. split; [done|].
    eapply Forall2_impl; [exact Hrs|]. intros Q r Hr j'. rewrite <- (app_assoc (h ++ k)). apply Hr.
  - destruct (ps !! i) as [p|] eqn:Hi; [|by apply IH].
    destruct (Forall2_lookup_r _ _ _ _ _ HF Hi) as (Q & HQ & Hp).
    assert (forall j p', gwp p' (h ++ j) G Q -> Forall2 (fun Q p => gwp p (h ++ j) G Q) Qs (<[i:=p']> ps)) as Hins.
    { intros j p' Hp'. rewrite <- (list_insert_id Qs i Q) by done. apply Forall2_insert; [|done].
      eapply Forall2_impl; [exact HF|]. intros Q' q Hq. by apply gwp_extend. }
    destruct p as [r|c f]; cbn [step].
    + apply IH. specialize (Hins [] (Done r)). rewrite app_nil_r in Hins. by apply Hins.
    + intros k. destruct (Hp k) as [Hc Hf]. split; [done|]. intros a. apply IH. rewrite <- app_assoc. apply Hins.
      rewrite app_assoc. apply Hf.
Qed.

(** The rule of [gather]. *)
Lemma gwp_gather {X A} sched (Q : X -> history -> res A -> Prop) (worker : X -> prog A) xs h :
  (forall x, x ∈ xs -> gwp (worker x) h G (Q x)) ->
  gwp (gather sched (worker <$> xs)) h G
    (fun h' r => match r with
                 | Ok l => Forall2 (fun x a => Q x h' (Ok a)) xs l
                 | Raise e => exists x, x ∈ xs /\ Q x h' (Raise e)
                 end).
Proof.
  intros Hw. unfold gather.
  apply (gwp_bind (interleave sched (worker <$> xs)) (fun rs => Done (first_error rs))).
  eapply gwp_mono; [apply (gwp_interleave sched (Q <$> xs))|].
  - apply Forall2_fmap_l, Forall2_fmap_r, Forall_Forall2_diag, Forall_forall. exact Hw.
  - cbn. intros h' r (rs & -> & Hrs%Forall2_fmap_l) k.
    apply (first_error_cases (fun x r => Q x (h' ++ k) r)). eapply Forall2_impl; [exact Hrs|]. auto.
Qed.
(** The rules of [gather_first]. *)
Lemma gwp_race {X A} sched (Q : X -> history -> res A -> Prop) xs first ps h :
  Forall2 (fun x p => gwp p h G (Q x)) xs ps ->
  (forall e, first = Some e -> exists x, x ∈ xs /\ forall j, Q x (h ++ j) (Raise e)) ->
  gwp (race sched first ps) h G
    (fun h' r => match r with
                 | Ok l => Forall2 (fun x a => Q x h' (Ok a)) xs l
                 | Raise e => exists x, x ∈ xs /\ Q x h' (Raise e)
                 end).
Proof.
  revert first ps h. induction sched as [|i sched IH]; intros first ps h HF Hfirst; cbn [race].
  - apply (gwp_bind (finish_all ps (fun rs => Done (Ok rs)))). eapply gwp_mono.
    { apply gwp_extends, (gwp_finish_all (Q <$> xs) _ _
        (fun h' r => exists rs, r = Ok rs /\ Forall2 (fun (Q : history -> res A -> Prop) r => forall j, Q (h' ++ j) r) (Q <$> xs) rs)).
      - by apply Forall2_fmap_l.
      - intros k rs Hrs j. exists rs. split; [done|]. eapply Forall2_impl; [exact Hrs|]. intros q r Hq j'.
        rewrite <- (app_assoc (h ++ k)). apply Hq. }
    cbn. intros h' r [(rs & -> & Hrs%Forall2_fmap_l) [k ->]] j. destruct first as [e|].
    + destruct (Hfirst e eq_refl) as (x & Hx & He). exists x. split; [done|]. rewrite <- app_assoc. apply He.
    + apply (first_error_cases (fun x r => Q x ((h ++ k) ++ j) r)). eapply Forall2_impl; [exact Hrs|]. auto.
  - destruct (ps !! i) as [[r|c f]|] eqn:Hi; [by apply IH| |by apply IH].
    destruct (Forall2_lookup_r _ _ _ _ _ HF Hi) as (x & Hx & Hp). intros k. destruct (Hp k) as [Hc Hf]. split; [done|].
    intros a. rewrite <- app_assoc. apply IH.
    + rewrite <- (list_insert_id xs i x) by done. apply Forall2_insert; [|rewrite app_assoc; apply Hf].
      eapply Forall2_impl; [exact HF|]. intros y q Hq. by apply gwp_extend.
    + intros e. unfold note. destruct first as [e'|].
      { intros [= <-]. destruct (Hfirst e' eq_refl) as (y & Hy & He). exists y. split; [done|]. intros j. rewrite <- app_assoc. apply He. }
      specialize (Hf a). destruct (f a) as [[b|e']|] eqn:Ef; try done. intros [= <-]. exists x.
      split; [by eapply list_elem_of_lookup_2|]. rewrite app_assoc. exact Hf.
Qed.
Lemma gwp_gather_first {X A} sched (Q : X -> history -> res A -> Prop) (worker : X -> prog A) xs h :
  (forall x, x ∈ xs -> gwp (worker x) h G (Q x)) ->
  gwp (gather_first sched (worker <$> xs)) h G
    (fun h' r => match r with
                 | Ok l => Forall2 (fun x a => Q x h' (Ok a)) xs l
                 | Raise e => exists x, x ∈ xs /\ Q x h' (Raise e)
                 end).
Proof.
  intros Hw. apply gwp_race.
  - apply Forall2_fmap_r, Forall_Forall2_diag, Forall_forall. exact Hw.
  - intros e [He|(p & Hp & ->)]%note_all; [done|]. apply list_elem_of_fmap in Hp as (x & E & Hx).
    exists x. split; [done|]. specialize (Hw x Hx). by rewrite <- E in Hw.
Qed.
End rules.

(** Soundness. *)
Lemma gwp_run {A} (p : prog A) o h G Q :
  gwp p h G Q -> let '(r, h') := run o p h in Q h' r /\ grows G h h'.
Proof. intros Hp%gwp_wp. by apply wp_run. Qed.
End stable.
