(* ===== verification/Dto.v ===== *)
(** * Data transfer objects

    The immutable records the Docker and Compose services exchange
    ([app/application/dto/docker.py], [compose.py], [node_connection.py],
    [value_objects.py]).  A field keeps the source's name behind a short prefix;
    an optional field is an [option], a tuple a list, a UUID its 128-bit value. *)
From S2P Require Import Prelude PyStr Json.

Abbreviation uuid := N.

(** [str(uuid)]: 8-4-4-4-12 hexadecimal digits. *)
Definition uuid_str (u : uuid) : pystr :=
  let hex k shift := hex_fixed k (N.land (N.shiftr u shift) (N.ones (4 * N.of_nat k))) in
  hex 8 96%N ++ #"-" ++ hex 4 80%N ++ #"-" ++ hex 4 64%N ++ #"-" ++ hex 4 48%N ++ #"-" ++ hex 12 0%N.

(** ** Nodes *)

Record NodeCredentials := {
  cr_username : option pystr; cr_password : option pystr;
  cr_ssh_key : option pystr; cr_passphrase : option pystr }.

Record NodeEndpoint := {
  ep_host : pystr; ep_port : Z; ep_connection_type : pystr;
  ep_docker_host : option pystr; ep_has_docker : bool }.

Record NodeConnectionDTO := {
  n_id : uuid; n_name : pystr; n_endpoint : NodeEndpoint; n_credentials : NodeCredentials }.

Definition n_docker_host (n : NodeConnectionDTO) : option pystr := ep_docker_host (n_endpoint n).
Definition n_is_docker_available (n : NodeConnectionDTO) : bool := ep_has_docker (n_endpoint n).

(** ** Containers *)

Record DockerContainerDTO := {
  dc_id : pystr; dc_names : pystr; dc_image : pystr; dc_command : pystr;
  dc_created_at : pystr; dc_state : pystr; dc_status : pystr;
  dc_ports : option pystr; dc_networks : option pystr }.

Record DockerContainerStateDTO := {
  cs_status : pystr; cs_running : bool; cs_exit_code : Z;
  cs_started_at : option pystr; cs_finished_at : option pystr; cs_oom_killed : option bool;
  cs_health : option pystr; cs_health_failing_streak : option Z; cs_health_log : list json }.

Record DockerContainerConfigDTO := {
  cc_image : option pystr; cc_cmd : option (list pystr); cc_hostname : option pystr }.

Record DockerContainerInspectDTO := {
  ci_id : pystr; ci_name : pystr; ci_state : DockerContainerStateDTO;
  ci_config : DockerContainerConfigDTO; ci_network_settings : jobject }.

Record DockerExecResultDTO := { er_stdout : pystr; er_stderr : pystr; er_exit_code : Z }.

Record ContainerRenameRequestDTO := {
  rn_node_id : uuid; rn_container_id : pystr; rn_new_name : pystr }.

Record DockerTopResultDTO := { tp_titles : list pystr; tp_processes : list (list pystr) }.

Record DockerStatsDTO := {
  st_container_id : pystr; st_name : pystr; st_cpu_percent : pystr; st_mem_usage : pystr;
  st_mem_percent : pystr; st_net_io : pystr; st_block_io : pystr;
  st_mem_limit : option pystr; st_pids : option pystr }.

Record ContainerCreateRequestDTO := {
  cq_node_id : uuid; cq_image : pystr; cq_name : option pystr; cq_command : option pystr;
  cq_ports : list (pystr * pystr); cq_volumes : list (pystr * pystr * pystr);
  cq_env : list pystr; cq_labels : list (pystr * pystr);
  cq_network : option pystr; cq_restart_policy : option pystr }.

Record ContainerCreatedDTO := {
  cd_id : pystr; cd_name : pystr; cd_image : pystr; cd_status : pystr }.

(** ** System *)

Record DockerSystemInfoDTO := {
  si_server_version : pystr; si_storage_driver : pystr; si_operating_system : pystr;
  si_architecture : pystr; si_total_memory : pystr; si_cpus : Z;
  si_containers_running : Z; si_containers_stopped : Z; si_images : Z }.

Record DockerSystemDfDTO := {
  df_type : pystr; df_total_count : Z; df_active_size : pystr;
  df_reclaimable_size : pystr; df_reclaimable_percent : pystr }.

Record DockerPruneResultDTO := {
  pr_containers_deleted : list pystr; pr_images_deleted : list pystr; pr_space_reclaimed : pystr }.

Record DockerSystemVersionDTO := {
  sv_server_version : pystr; sv_api_version : pystr; sv_go_version : pystr;
  sv_git_commit : pystr; sv_build_time : pystr; sv_os : pystr; sv_arch : pystr }.

(** ** Images *)

Record DockerImageDTO := {
  di_repository : pystr; di_tag : pystr; di_id : pystr; di_size : pystr; di_created_at : pystr }.

Record DockerPullResultDTO := { pl_image : pystr; pl_output : pystr; pl_success : bool }.

Record DockerImageInspectDTO := {
  ii_id : pystr; ii_repo_tags : list pystr; ii_size : Z; ii_created : pystr;
  ii_architecture : pystr; ii_os : pystr }.

Record DockerImageTagRequestDTO := {
  tg_node_id : uuid; tg_image_id : pystr; tg_repo : pystr; tg_tag : pystr }.
Record DockerImageTagResultDTO := { tr_source : pystr; tr_target : pystr }.

Record DockerImageBuildRequestDTO := {
  bq_node_id : uuid; bq_dockerfile : pystr; bq_tag : pystr;
  bq_build_args : list (pystr * pystr); bq_no_cache : bool }.
Record DockerImageBuildResultDTO := { br_image_id : pystr; br_tag : pystr; br_output : pystr }.

(** ** Networks and volumes *)

Record DockerNetworkDTO := { nw_id : pystr; nw_name : pystr; nw_driver : pystr; nw_scope : pystr }.

Record DockerNetworkInspectDTO := {
  ni_id : pystr; ni_name : pystr; ni_driver : pystr; ni_scope : pystr;
  ni_subnet : pystr; ni_gateway : pystr; ni_containers : list (pystr * jobject) }.

Record NetworkCreateRequestDTO := {
  nc_node_id : uuid; nc_name : pystr; nc_driver : pystr;
  nc_subnet : option pystr; nc_gateway : option pystr }.

Record NetworkConnectRequestDTO := {
  nk_node_id : uuid; nk_network_id : pystr; nk_container_id : pystr; nk_ip_address : option pystr }.

Record NetworkDisconnectRequestDTO := {
  nd_node_id : uuid; nd_network_id : pystr; nd_container_id : pystr; nd_force : bool }.

Record DockerVolumeDTO := { vo_driver : pystr; vo_name : pystr }.

Record DockerVolumeInspectDTO := {
  vi_name : pystr; vi_driver : pystr; vi_mountpoint : pystr; vi_labels : jobject }.

Record VolumeCreateRequestDTO := {
  vc_node_id : uuid; vc_name : option pystr; vc_driver : pystr; vc_labels : list (pystr * pystr) }.

(** ** Bulk results *)

Inductive bulk_status := Success | Error.
#[export] Instance bulk_status_eq_dec : EqDecision bulk_status.
Proof. solve_decision. Defined.

(** [BulkDockerNodeResultDTO] and [BulkDockerPullResultDTO] have the same fields. *)
Record BulkDockerNodeResultDTO := {
  bn_node_id : pystr; bn_node_name : pystr; bn_status : bulk_status;
  bn_output : pystr; bn_error : pystr }.

Record BulkDockerPullResultDTO := {
  bp_node_id : pystr; bp_node_name : pystr; bp_status : bulk_status;
  bp_output : pystr; bp_error : pystr }.

Record BulkDockerResultDTO := {
  bk_action : pystr; bk_results : list BulkDockerNodeResultDTO;
  bk_total : Z; bk_succeeded : Z; bk_failed : Z }.

Record BulkDockerPullResultsDTO := {
  bu_results : list BulkDockerPullResultDTO; bu_total : Z; bu_succeeded : Z; bu_failed : Z }.

(** ** Compose projects *)

(** Timestamps are microseconds since the epoch. *)
Record ComposeCreateDTO := {
  co_node_id : uuid; co_project_name : pystr; co_compose : pystr;
  co_env : list (pystr * pystr); co_template_pack_id : option uuid }.

Record ComposeUpdateDTO := {
  cu_compose : option pystr; cu_env : option (list (pystr * pystr));
  cu_template_pack_id : option uuid; cu_has_env : bool; cu_has_template_pack_id : bool }.

Record ComposeViewDTO := {
  cv_id : uuid; cv_node_id : uuid; cv_project_name : pystr; cv_compose : pystr;
  cv_env : option (list (pystr * pystr)); cv_template_pack_id : option uuid;
  cv_created_at : Z; cv_updated_at : Z }.

Record ComposeServiceResultDTO := {
  sr_service : pystr; sr_status : bulk_status; sr_output : pystr; sr_error : pystr }.

Record ComposeBulkResultDTO := {
  cb_total : Z; cb_succeeded : Z; cb_failed : Z; cb_results : list ComposeServiceResultDTO }.

Record ComposePsDTO := { ps_output : pystr; ps_containers : list (list (pystr * pystr)) }.

(** A 128-bit value prints as 36 characters. *)
Example uuid_str_example :
  uuid_str 0x0123456789abcdef0123456789abcdef = #"01234567-89ab-cdef-0123-456789abcdef".
Proof. vm_compute. reflexivity. Qed.
