(* ===== verification/Bytes.v ===== *)
(** * Bytes: UTF-8 and Base64

    [str.encode()], [bytes.decode(errors="ignore")] and [base64.b64encode] of the
    standard library.  A byte is an [N] below 256. *)
From S2P Require Import Prelude PyStr Shlex Errors.

Abbreviation bytes := (list N).

Section utf8.
Open Scope N_scope.

Definition is_surrogate (c : N) : bool := in_range 55296 57343 c.

(** The encoding of one code point; a surrogate has none. *)
Definition utf8_char (c : N) : bytes :=
  if c <? 128 then [c]
  else if c <? 2048 then [192 + c / 64; 128 + c mod 64]
  else if c <? 65536 then [224 + c / 4096; 128 + (c / 64) mod 64; 128 + c mod 64]
  else [240 + c / 262144; 128 + (c / 4096) mod 64; 128 + (c / 64) mod 64; 128 + c mod 64].

Definition encode (s : pystr) : res bytes :=
  if existsb is_surrogate s
  then raise UnicodeEncodeError #"'utf-8' codec can't encode character: surrogates not allowed"
  else Ok (flat_map utf8_char s).

(** A Python string: code points up to U+10FFFF. *)
Definition is_str (s : pystr) : bool := forallb (fun c => c <? 1114112) s.
End utf8.

(** ** Base64 *)

Section base64.
Open Scope N_scope.

Definition b64_digit (n : N) : N :=
  if n <? 26 then 65 + n
  else if n <? 52 then 71 + n
  else if n <? 62 then n - 4
  else if n =? 62 then 43 else 47.

Fixpoint b64encode (bs : bytes) : pystr :=
  match bs with
  | a :: b :: c :: bs =>
      b64_digit (a / 4) :: b64_digit ((a mod 4) * 16 + b / 16)
      :: b64_digit ((b mod 16) * 4 + c / 64) :: b64_digit (c mod 64) :: b64encode bs
  | [a; b] => [b64_digit (a / 4); b64_digit ((a mod 4) * 16 + b / 16); b64_digit ((b mod 16) * 4); 61]
  | [a] => [b64_digit (a / 4); b64_digit ((a mod 4) * 16); 61; 61]
  | [] => []
  end.

(** Base64 text needs no quoting in a shell word. *)
Lemma b64_digit_safe n : safe_char (b64_digit n) = true.
Proof.
  unfold b64_digit.
  destruct (n <? 26) eqn:E1; to_prop; [|destruct (n <? 52) eqn:E2; to_prop;
    [|destruct (n <? 62) eqn:E3; to_prop; [|by destruct (n =? 62)]]];
    unfold safe_char, ascii_alnum, ascii_alpha, ascii_upper, ascii_lower, ascii_digit, in_range;
    rewrite !orb_true_iff, !andb_true_iff, !N.leb_le; left; left; [left; left|left; right|right]; lia.
Qed.

Lemma b64encode_safe bs : forallb safe_char (b64encode bs) = true.
Proof.
  induction bs as [bs IH] using (induction_ltof1 _ (@length N)); unfold ltof in IH.
  destruct bs as [|a [|b [|c bs]]]; [done| | |];
    cbn [b64encode forallb]; rewrite ?b64_digit_safe, ?IH by (cbn; lia); done.
Qed.
End base64.
