(* ===== verification/Ports.v ===== *)
(** * The ports of the Docker and Compose services

    Calls the services make on what they are given: the node reader
    ([ports/node_reader.py]), the Docker runtime ([ports/docker_runtime.py]), the
    audit sink ([ports/audit_sink.py]), the server-sent-event broadcaster, the
    compose repositories ([ports/compose.py]) and [uuid.uuid4].  Every answer may
    be an exception. *)
From S2P Require Import Prelude PyStr Errors Json Effects Dto.

Inductive docker_call :=
| GetConnection (node_id : uuid)
| GetConnectionsByTags (tags : list pystr)
| Execute (node : NodeConnectionDTO) (command : pystr) (timeout : Z)
| AuditLog (required : bool) (action : pystr) (node_id : uuid) (details : jobject)
| Publish (topic : pystr) (data : jobject)
| ComposeList (node_id : uuid) (offset limit : Z)
| ComposeGet (node_id : uuid) (project_name : pystr)
| ComposeCount (node_id : uuid)
| ComposeStats (node_id : uuid)
| ComposeCreate (data : ComposeCreateDTO)
| ComposeUpdate (node_id : uuid) (project_name : pystr) (data : ComposeUpdateDTO)
| ComposeDelete (node_id : uuid) (project_name : pystr)
| ComposeUpsert (data : ComposeCreateDTO)
| Uuid4Hex8.

Definition docker_answer (c : docker_call) : Type :=
  match c with
  | GetConnection _ => option NodeConnectionDTO
  | GetConnectionsByTags _ => list NodeConnectionDTO
  | Execute _ _ _ => DockerExecResultDTO
  | AuditLog _ _ _ _ | Publish _ _ => unit
  | ComposeList _ _ _ => list ComposeViewDTO
  | ComposeGet _ _ => option ComposeViewDTO
  | ComposeCount _ | ComposeStats _ => Z
  | ComposeCreate _ | ComposeUpsert _ => ComposeViewDTO
  | ComposeUpdate _ _ _ => option ComposeViewDTO
  | ComposeDelete _ _ => bool
  | Uuid4Hex8 => pystr
  end.

#[export] Instance docker_signature : Signature := {| call := docker_call; answer := docker_answer |}.

(** What the process is started with, and library functions no theorem looks into. *)
Class Host := {
  (** an audit sink is injected *)
  has_audit : bool;
  (** [tempfile.gettempdir()] *)
  tempdir : pystr;
  (** [hashlib.sha256(bytes).hexdigest()] *)
  sha256_hex : list N -> pystr;
  (** [datetime.fromisoformat] ([None]: [ValueError]), then, in the process's time
      zone for a naive value, [int(dt.timestamp())] *)
  iso_timestamp : pystr -> option (res Z);
}.

(** A host for concrete runs. *)
Definition plain_host : Host := {|
  has_audit := true; tempdir := #"/tmp"; sha256_hex _ := #"00"; iso_timestamp _ := None |}.

(** [await sink.log(...)] and [await sink.log_required(...)] behind [if self._audit:]. *)
Definition log_if `{Host} (required : bool) (action : pystr) (node_id : uuid) (details : jobject) : prog unit :=
  if has_audit then perform (AuditLog required action node_id details) else mret tt.

Definition publish (topic : pystr) (data : jobject) : prog unit := perform (Publish topic data).

(** The commands executed in a history, with their outcomes. *)
Definition execution (ev : event) : option (NodeConnectionDTO * pystr * Z * res DockerExecResultDTO) :=
  match ev with
  | existT (Execute node cmd timeout) a => Some (node, cmd, timeout, a)
  | _ => None
  end.
Definition outcomes (h : history) : list (NodeConnectionDTO * pystr * Z * res DockerExecResultDTO) :=
  omap execution h.

(** The intent [action] for [node_id] was committed. *)
Definition committed (action : pystr) (node_id : uuid) (h : history) : Prop :=
  exists details, existT (AuditLog true action node_id details) (Ok tt) ∈ h.

Definition is_execute (c : call) : bool := if c is Execute _ _ _ then true else false.
(** Exactly one command ran, and it exited with status zero. *)
Definition ran_ok (h : history) : Prop :=
  exists node cmd timeout out err,
    outcomes h = [(node, cmd, timeout, Ok (Build_DockerExecResultDTO out err 0))].

Lemma committed_last h action node_id details :
  committed action node_id (h ++ [existT (AuditLog true action node_id details) (Ok tt)]).
Proof. exists details. apply elem_of_app. right. by apply list_elem_of_singleton. Qed.
