(* ===== verification/DockerCore.v ===== *)
(** * Docker CLI plumbing

    [app/application/services/docker/]: [command_builder.py], [command_runner.py],
    [error_mapper.py] and [parsers.py]; what a command line built by them means to
    a shell ([docker_words]), and the rules of the logic for a runner's calls. *)
From S2P Require Import Prelude PyStr Shlex Errors Json Effects Dto Ports.

(** ** Command construction *)

Definition build_docker_command (node : NodeConnectionDTO) (docker_args : pystr) : pystr :=
  match n_docker_host node with
  | Some ((_ :: _) as docker_host) =>
      #"DOCKER_HOST=" ++ quote docker_host ++ #" docker " ++ docker_args
  | _ => #"docker " ++ docker_args
  end.

(** [f"printf %s {shlex.quote(data)} | {base_cmd}"]. *)
Definition piped (data base_cmd : pystr) : pystr :=
  #"printf %s " ++ quote data ++ #" | " ++ base_cmd.

(** The words before the arguments: the endpoint assignment and the program. *)
Definition docker_prefix (node : NodeConnectionDTO) : list pystr :=
  match n_docker_host node with
  | Some ((_ :: _) as docker_host) => [ #"DOCKER_HOST=" ++ docker_host; #"docker"]
  | _ => [ #"docker"]
  end.

(** [cmd] is, for a shell, one simple command: [docker] with [argv] on [node]'s endpoint. *)
Definition docker_words (node : NodeConnectionDTO) (argv : list pystr) (cmd : pystr) : Prop :=
  sh_lex cmd = Some (W <$> docker_prefix node ++ argv).

(** ** Targets and execution ([DockerCommandRunner]) *)

Definition get_target (node_id : uuid) : prog NodeConnectionDTO :=
  node ← perform (GetConnection node_id);
  match node with
  | None => lift (raise NodeNotFoundError (#"Node " ++ uuid_str node_id ++ #" not found"))
  | Some node =>
      if negb (n_is_docker_available node)
      then lift (raise DockerError
             (#"Node " ++ uuid_str node_id ++ #" is not a Docker node (has_docker=false)"))
      else mret node
  end.

Definition get_targets_by_tags (tags : list pystr) : prog (list NodeConnectionDTO) :=
  perform (GetConnectionsByTags tags).

Definition execute (node : NodeConnectionDTO) (command : pystr) (timeout : Z) : prog (pystr * pystr * Z) :=
  result ← perform (Execute node command timeout);
  mret (er_stdout result, er_stderr result, er_exit_code result).

(** The default of [DockerCommandRunner.execute]. *)
Definition default_timeout : Z := 30.

Section core.
Context `{Unicode}.

(** ** Exit status to domain error *)

Definition raise_for_docker_error (stderr : pystr) (exit_code : Z) : res unit :=
  if (exit_code =? 0)%Z then Ok tt
  else
    let normalized := lower stderr in
    if contains normalized #"no such image" then raise ImageNotFoundError stderr
    else if contains normalized #"no such network"
            || (contains normalized #"network" && contains normalized #"not found")
    then raise NetworkNotFoundError stderr
    else if contains normalized #"no such volume"
            || (contains normalized #"volume" && contains normalized #"not found")
    then raise VolumeNotFoundError stderr
    else if contains normalized #"no such container"
            || contains normalized #"no such image or container"
            || contains normalized #"no such object"
    then raise ContainerNotFoundError stderr
    else if contains normalized #"cannot connect to the docker daemon"
    then raise DockerDaemonError stderr
    else if contains normalized #"is not running" then raise DockerError stderr
    else raise DockerError (#"Docker command failed (exit " ++ str_Z exit_code ++ #"): " ++ stderr).

(** ** Output parsers *)

(** The loop of [parse_json_lines]: undecodable lines and non-objects are
    skipped; only the [ValueError] of an oversized integer escapes. *)
Fixpoint json_lines_go (results : list jobject) (lines : list pystr) : res (list jobject) :=
  match lines with
  | [] => Ok results
  | raw_line :: lines =>
      let line := strip raw_line in
      if str_eqb line [] || negb (startswith line #"{") then json_lines_go results lines
      else match loads line with
           | Ok (JObj value) => json_lines_go (results ++ [value]) lines
           | Ok _ => json_lines_go results lines
           | Raise e => if isinstance (exn_type e) JSONDecodeError
                        then json_lines_go results lines else Raise e
           end
  end.
Definition parse_json_lines (stdout : pystr) : res (list jobject) :=
  json_lines_go [] (splitlines (strip stdout)).

Definition json_objects (vs : list json) : list jobject :=
  omap (fun v => match v with JObj kvs => Some kvs | _ => None end) vs.
Definition parse_json_array (stdout : pystr) : res (list jobject) :=
  match loads (strip stdout) with
  | Ok (JArr xs) => Ok (json_objects xs)
  | Ok v => Ok (json_objects [v])
  | Raise e => if isinstance (exn_type e) JSONDecodeError then Ok [] else Raise e
  end.

Definition json_string (item : jobject) (key : pystr) : pystr :=
  match dict_get item key with Some (JStr s) => s | _ => [] end.
Definition json_optional_string (item : jobject) (key : pystr) : option pystr :=
  match dict_get item key with Some (JStr s) => Some s | _ => None end.

(** ** Command-line lemmas *)

Lemma docker_words_intro node args argv :
  Lexes args (W <$> argv) -> docker_words node argv (build_docker_command node args).
Proof.
  intros Ha. unfold docker_words, build_docker_command, docker_prefix.
  apply lexes_done. rewrite fmap_app.
  assert (Lexes (#"docker " ++ args) ([W #"docker"] ++ (W <$> argv))) as Hd.
  { change (#"docker ") with (#"docker" ++ #" "). rewrite <- app_assoc.
    apply lexes_space; [by apply lexes_lit_word|done]. }
  destruct (n_docker_host node) as [[|c host]|]; [exact Hd| |exact Hd].
  change (#" docker ") with (#" " ++ #"docker ").
  rewrite <- (app_assoc (#" ")), (app_assoc (#"DOCKER_HOST=")).
  apply (lexes_space _ [W (#"DOCKER_HOST=" ++ c :: host)]); [|exact Hd].
  apply lexes_word, piece_app; [by apply piece_safe|apply piece_quote].
Qed.

Lemma piped_lex node data args ws :
  Lexes args (W <$> ws) ->
  sh_lex (piped data (build_docker_command node args))
  = Some ([W #"printf"; W #"%s"; W data; Op 124] ++ (W <$> docker_prefix node ++ ws)).
Proof.
  intros Ha. apply (docker_words_intro node) in Ha.
  apply lexes_done. unfold piped. apply (lexes_lit _ _ [W #"printf"; W #"%s"]); [by split; vm_compute|].
  eapply lexes_word_then; [apply piece_quote|vm_compute; reflexivity|].
  apply (lexes_lit _ _ [Op 124]); [by split; vm_compute|]. by apply lexes_intro.
Qed.

(** ** Rules of the logic *)

(** The domain errors [get_target] raises. *)
Definition target_error (e : exn) : Prop :=
  exn_type e = NodeNotFoundError \/ exn_type e = DockerError.

Lemma wp_get_target node_id h G (Q : history -> res NodeConnectionDTO -> Prop) :
  G h (GetConnection node_id) ->
  (forall n, n_is_docker_available n = true ->
     Q (h ++ [existT (GetConnection node_id) (Ok (Some n))]) (Ok n)) ->
  (forall a e, target_error e \/ a = Raise e ->
     Q (h ++ [existT (GetConnection node_id) a]) (Raise e)) ->
  wp (get_target node_id) h G Q.
Proof.
  intros HG Hok Herr. apply wp_bind. split; [exact HG|]. intros [[n|]|e]; cbn.
  - destruct (n_is_docker_available n) eqn:E; cbn; [by apply Hok|]. apply Herr. by left; right.
  - apply Herr. by left; left.
  - apply Herr. by right.
Qed.

Lemma wp_execute node cmd timeout h G (Q : history -> res (pystr * pystr * Z) -> Prop) :
  G h (Execute node cmd timeout) ->
  (forall out err code, Q (h ++ [existT (Execute node cmd timeout) (Ok (Build_DockerExecResultDTO out err code))])
                          (Ok (out, err, code))) ->
  (forall e, Q (h ++ [existT (Execute node cmd timeout) (Raise e)]) (Raise e)) ->
  wp (execute node cmd timeout) h G Q.
Proof.
  intros HG Hok Herr. apply wp_bind. split; [exact HG|]. intros [[out err code]|e]; cbn; auto.
Qed.

Lemma wp_log_if `{Host} required action node_id details h G (Q : history -> res unit -> Prop) :
  (has_audit = true -> G h (AuditLog required action node_id details)) ->
  (has_audit = false -> Q h (Ok tt)) ->
  (has_audit = true -> forall a, Q (h ++ [existT (AuditLog required action node_id details) a]) a) ->
  wp (log_if required action node_id details) h G Q.
Proof. unfold log_if. intros HG Hno Hyes. destruct has_audit; [split|]; cbn; auto. Qed.

Lemma wp_publish topic data h G (Q : history -> res unit -> Prop) :
  G h (Publish topic data) ->
  (forall a, Q (h ++ [existT (Publish topic data) a]) a) -> wp (publish topic data) h G Q.
Proof. intros HG HQ. by split. Qed.

Lemma wp_mret {A} (a : A) h G (Q : history -> res A -> Prop) : Q h (Ok a) -> wp (mret a) h G Q.
Proof. done. Qed.
Lemma wp_done {A} (r : res A) h G (Q : history -> res A -> Prop) : Q h r -> wp (Done r) h G Q.
Proof. done. Qed.

Lemma raise_for_docker_error_class stderr code e :
  raise_for_docker_error stderr code = Raise e -> isinstance (exn_type e) DockerError = true.
Proof. unfold raise_for_docker_error. split_matches; by intros [= <-]. Qed.

Lemma raise_for_docker_error_ok stderr code u :
  raise_for_docker_error stderr code = Ok u -> code = 0%Z.
Proof. unfold raise_for_docker_error. destruct (Z.eqb_spec code 0); [done|]. by split_matches. Qed.

(** ** What the mapping and the parsers promise *)

(** Text in which the daemon names the missing object. *)
Definition names_missing (stderr kind : pystr) : bool := contains (lower stderr) (#"no such " ++ kind).

(** An exit status of zero is success; any other status raises a Docker error whose message
    ends with the complete stderr, is an image error exactly when stderr names a missing image,
    and is a container error only when it names a missing container or object: the branch for a
    missing image or container is never taken. *)
Theorem docker_error_mapping stderr exit_code :
  match raise_for_docker_error stderr exit_code with
  | Ok _ => exit_code = 0%Z
  | Raise e =>
      exit_code <> 0%Z /\ isinstance (exn_type e) DockerError = true
      /\ (exists prefix, exn_msg e = prefix ++ stderr)
      /\ (exn_type e = ImageNotFoundError <-> names_missing stderr #"image" = true)
      /\ (exn_type e = ContainerNotFoundError ->
          names_missing stderr #"container" = true \/ names_missing stderr #"object" = true)
      /\ (exn_type e = DockerDaemonError ->
          contains (lower stderr) #"cannot connect to the docker daemon" = true)
  end.
Proof.
  unfold raise_for_docker_error, names_missing. cbn zeta.
  destruct (Z.eqb_spec exit_code 0) as [|Hcode]; [done|].
  change (#"no such " ++ #"image") with (#"no such image").
  change (#"no such " ++ #"container") with (#"no such container").
  change (#"no such " ++ #"object") with (#"no such object").
  assert (contains (lower stderr) #"no such image or container" = true ->
          contains (lower stderr) #"no such image" = true) as Hdead.
  { intros Hc. eapply contains_trans; [exact Hc|]. by vm_compute. }
  destruct (contains (lower stderr) #"no such image") eqn:Ei.
  { split_and!; try done. by exists []. }
  destruct (_ || _) eqn:En; [by split_and!; try done; exists []|].
  destruct (contains (lower stderr) #"no such volume" || _) eqn:Ev; [by split_and!; try done; exists []|].
  destruct (_ || _ || _) eqn:Ec.
  { split_and!; try done; [by exists []|]. intros _.
    apply orb_true_iff in Ec as [[?|?%Hdead]%orb_true_iff|?]; auto. done. }
  destruct (contains _ #"cannot connect to the docker daemon") eqn:Ed; [by split_and!; try done; exists []|].
  destruct (contains _ #"is not running"); [by split_and!; try done; exists []|].
  cbn. split_and!; try done.
  exists (#"Docker command failed (exit " ++ str_Z exit_code ++ #"): "). by rewrite <- !app_assoc.
Qed.

(** The object a line of output holds, if it holds one. *)
Definition line_object (raw_line : pystr) : option jobject :=
  match loads (strip raw_line) with
  | Ok (JObj value) => if startswith (strip raw_line) #"{" then Some value else None
  | _ => None
  end.

Lemma json_lines_go_spec acc lines :
  match json_lines_go acc lines with
  | Ok items => items = acc ++ omap line_object lines
  | Raise e => exn_type e = ValueError
               /\ exists line, In line lines /\ loads (strip line) = Raise e
  end.
Proof.
  revert acc. induction lines as [|line lines IH]; intros acc; cbn [json_lines_go]; [by rewrite app_nil_r|].
  assert (forall acc', match json_lines_go acc' lines with
      | Ok items => items = acc' ++ omap line_object lines
      | Raise e => exn_type e = ValueError
                   /\ exists l, In l (line :: lines) /\ loads (strip l) = Raise e
      end) as Hskip.
  { intros acc'. specialize (IH acc'). destruct (json_lines_go acc' lines) as [items|e]; [done|].
    destruct IH as (? & l & ? & ?). split; [done|]. exists l. split; [by right|done]. }
  clear IH. change (omap line_object (line :: lines))
    with (match line_object line with Some v => v :: omap line_object lines | None => omap line_object lines end).
  unfold line_object at 1. destruct (startswith (strip line) #"{") eqn:Es.
  2: { rewrite orb_true_r. destruct (loads (strip line)) as [[]|]; apply Hskip. }
  destruct (str_eqb (strip line) []) eqn:Ee; [by apply str_eqb_eq in Ee as Hnil; rewrite Hnil in Es|].
  cbn [orb negb]. destruct (loads (strip line)) as [[| | | | | |value]|e] eqn:El; try apply Hskip.
  - specialize (Hskip (acc ++ [value])). rewrite <- app_assoc in Hskip. exact Hskip.
  - destruct (loads_errors _ _ El) as [He|He]; rewrite He; [apply Hskip|].
    cbn. split; [done|]. exists line. split; [by left|done].
Qed.

(** Parsing line-delimited JSON returns the objects of the lines that hold one, in order,
    skipping all other lines; the only exception is the plain ValueError of a line whose integer
    literal is too long. *)
Theorem parse_json_lines_keeps_objects stdout :
  match parse_json_lines stdout with
  | Ok items => items = omap line_object (splitlines (strip stdout))
  | Raise e => exn_type e = ValueError
               /\ exists line, In line (splitlines (strip stdout)) /\ loads (strip line) = Raise e
  end.
Proof. exact (json_lines_go_spec [] (splitlines (strip stdout))). Qed.
End core.

(** Symbolic execution of a service's call tree: every step of the tree is taken
    by its rule; the goals left are the calls' guarantees and the outcomes. *)
Ltac wp_step :=
  lazymatch goal with
  | |- wp (_ ≫= _) _ _ _ => apply wp_bind
  | |- wp (mbind _ _) _ _ _ => apply wp_bind
  | |- wp (try_except _ _) _ _ _ => apply wp_try
  | |- wp (get_target _) _ _ _ => apply wp_get_target; [|intros ?node ?Hnode|intros ?a ?e ?He]; cbn beta iota
  | |- wp (execute _ _ _) _ _ _ => apply wp_execute; [|intros ?out ?err ?code|intros ?e]; cbn beta iota
  | |- wp (log_if _ _ _ _) _ _ _ => apply wp_log_if; [intros ?Haud|intros ?Haud|intros ?Haud [[]|?e]]; cbn beta iota
  | |- wp (publish _ _) _ _ _ => apply wp_publish; [|intros [[]|?e]]; cbn beta iota
  | |- wp (get_targets_by_tags _) _ _ _ => split; [|intros [?nodes|?e]]; cbn beta iota
  | |- wp (perform _) _ _ _ => split; [|intros [?x|?e]]; cbn beta iota
  | |- wp (Done _) _ _ _ => apply wp_done; cbn beta iota
  | |- wp (mret _) _ _ _ => apply wp_mret; cbn beta iota
  | |- wp (lift ?r) _ _ _ => apply wp_lift; let E := fresh "E" in destruct r eqn:E; cbn beta iota
  | |- match on_exception _ ?e with _ => _ end =>
      unfold on_exception; let E := fresh "E" in destruct (isinstance (exn_type e) Exception_) eqn:E; cbn beta iota
  | |- match on_class ?c _ ?e with _ => _ end =>
      unfold on_class; let E := fresh "E" in destruct (isinstance (exn_type e) c) eqn:E; cbn beta iota
  | |- wp (match ?x with _ => _ end) _ _ _ => let E := fresh "E" in destruct x eqn:E; cbn beta iota
  end.
