(* ===== verification/Containers.v ===== *)
(** * Container use cases ([app/application/services/docker/container_service.py])

    Every operation of [DockerContainerService] as a call tree.  Structured log
    lines ([audit.info] and the like) are left out: they reach no port. *)
From S2P Require Import Prelude PyStr Shlex Errors Validation Json Bytes Effects Dto Ports DockerCore.

Section containers.
Context `{Unicode} `{Host}.

(** ** Helpers *)

(** [since.replace("Z", "+00:00")]. *)
Definition replace_z (s : pystr) : pystr :=
  flat_map (fun c => if (c =? 90)%N then #"+00:00" else [c]) s.

Definition parse_since (since : pystr) : res pystr :=
  if isdigit since then Ok since
  else match iso_timestamp (replace_z since) with
       | None => raise DockerValidationError
                   (#"Invalid 'since' value: " ++ py_repr since
                    ++ #". Expected a Unix timestamp or an ISO 8601 string.")
       | Some ts => t ← ts; Ok (str_Z t)
       end.

Definition _json_object (value : option json) : jobject :=
  match value with Some (JObj kvs) => kvs | _ => [] end.
Definition _string (value : option json) : pystr :=
  match value with Some (JStr s) => s | _ => [] end.
Definition _optional_string (value : option json) : option pystr :=
  match value with Some (JStr s) => Some s | _ => None end.
Definition _boolean (value : option json) : bool :=
  match value with Some (JBool b) => b | _ => false end.
Definition _integer (value : option json) : Z :=
  match value with Some (JInt z) => z | _ => 0%Z end.
Definition json_strings (xs : list json) : list pystr :=
  omap (fun v => match v with JStr s => Some s | _ => None end) xs.
Definition is_json_string (v : json) : bool := match v with JStr _ => true | _ => false end.
Definition _string_tuple (value : option json) : option (list pystr) :=
  match value with
  | Some (JArr xs) => if forallb is_json_string xs then Some (json_strings xs) else None
  | _ => None
  end.

Definition command_fingerprint (command : pystr) : res pystr :=
  bs ← encode command; Ok (sha256_hex bs).

Definition _log (action : pystr) (node_id : uuid) (details : jobject) : prog unit :=
  log_if false action node_id details.
Definition _log_required (action : pystr) (node_id : uuid) (details : jobject) : prog unit :=
  log_if true action node_id details.

(** [if value:] on an optional string. *)
Definition nonempty (v : option pystr) : option pystr :=
  match v with Some [] => None | _ => v end.

(** [str.join(" ", f"{flag} {quote(v)}" for v in values)] pieces. *)
Definition flag_arg (flag v : pystr) : pystr := flag ++ #" " ++ v.

(** ** Creation *)

Definition option_part (flag : pystr) (v : option pystr) : list pystr :=
  match v with Some v => [flag_arg flag (quote v)] | None => [] end.

Definition _build_create_args (request : ContainerCreateRequestDTO) : res pystr :=
  tokens ← match nonempty (cq_command request) with
           | None => Ok []
           | Some command =>
               match shlex_split command with
               | Some tokens => Ok (quote <$> tokens)
               | None => raise ValueError #"No closing quotation"
               end
           end;
  let parts :=
    option_part #"--name" (cq_name request)
    ++ option_part #"--restart" (cq_restart_policy request)
    ++ ((fun '(container_spec, host_port) =>
           flag_arg #"-p" (quote host_port ++ #":" ++ quote container_spec)) <$> cq_ports request)
    ++ ((fun '(host_path, bind, mode) =>
           flag_arg #"-v" (quote host_path ++ #":" ++ quote bind ++ #":" ++ quote mode))
          <$> cq_volumes request)
    ++ ((fun entry => flag_arg #"-e" (quote entry)) <$> cq_env request)
    ++ ((fun '(key, value) => flag_arg #"--label" (quote (key ++ #"=" ++ value)))
          <$> cq_labels request)
    ++ option_part #"--network" (cq_network request)
    ++ [quote (cq_image request)] ++ tokens in
  Ok (#"create " ++ join #" " parts).

Definition validate_opt (f : pystr -> res pystr) (v : option pystr) : res (option pystr) :=
  match v with Some v => w ← f v; Ok (Some w) | None => Ok None end.

(** The validations of [create_container], in order, and the normalised request. *)
Definition normalize_create (request : ContainerCreateRequestDTO) : res ContainerCreateRequestDTO :=
  validated_image ← validate_image_name (cq_image request);
  name ← validate_opt validate_container_name (cq_name request);
  ports ← validate_port_mappings (dict_of (cq_ports request));
  volumes ← validate_volume_mounts
    (dict_of ((fun '(hp, b, m) => (hp, [(#"bind", b); (#"mode", m)])) <$> cq_volumes request));
  env ← validate_env_vars (cq_env request);
  labels ← validate_labels (dict_of (cq_labels request));
  network ← validate_opt validate_network_name (nonempty (cq_network request));
  restart_policy ← validate_opt validate_restart_policy (nonempty (cq_restart_policy request));
  Ok {| cq_node_id := cq_node_id request; cq_image := validated_image; cq_name := name;
        cq_command := cq_command request; cq_ports := ports;
        cq_volumes := (fun '(hp, (b, m)) => (hp, b, m)) <$> volumes;
        cq_env := env; cq_labels := labels; cq_network := network;
        cq_restart_policy := restart_policy |}.

(** [stdout.strip().splitlines()[-1].strip() if stdout.strip() else ""]. *)
Definition last_line (stdout : pystr) : pystr :=
  match strip stdout with [] => [] | s => strip (last_of (splitlines s)) end.

Definition create_container (request : ContainerCreateRequestDTO) : prog ContainerCreatedDTO :=
  normalized ← lift (normalize_create request);
  node ← get_target (cq_node_id request);
  args ← lift (_build_create_args normalized);
  let cmd := build_docker_command node args in
  let name := match cq_name normalized with Some n => n | None => [] end in
  _log_required #"docker.container.create.requested" (cq_node_id request)
    [(#"image", JStr (cq_image normalized)); (#"name", JStr name)];;
  '(stdout, stderr, exit_code) ← execute node cmd 120;
  lift (raise_for_docker_error stderr exit_code);;
  let container_id := last_line stdout in
  if str_eqb container_id [] then
    lift (raise DockerValidationError
            (#"docker create produced no container id: " ++ strip stderr))
  else
    _log #"docker.container.create" (cq_node_id request)
      [(#"container_id", JStr container_id); (#"image", JStr (cq_image normalized))];;
    mret {| cd_id := container_id;
            cd_name := match nonempty (cq_name normalized) with Some n => n | None => container_id end;
            cd_image := cq_image normalized; cd_status := #"created" |}.

(** ** Listing and inspection *)

Definition container_of_item (item : jobject) : DockerContainerDTO :=
  {| dc_id := json_string item #"ID"; dc_names := json_string item #"Names";
     dc_image := json_string item #"Image"; dc_command := json_string item #"Command";
     dc_created_at := json_string item #"CreatedAt"; dc_state := json_string item #"State";
     dc_status := json_string item #"Status"; dc_ports := json_optional_string item #"Ports";
     dc_networks := json_optional_string item #"Networks" |}.

Definition list_containers (node_id : uuid) (all : bool) : prog (list DockerContainerDTO) :=
  node ← get_target node_id;
  let flag := if all then #" -a" else [] in
  let cmd := build_docker_command node (#"ps" ++ flag ++ #" --format '{{json .}}'") in
  '(stdout, stderr, exit_code) ← execute node cmd default_timeout;
  lift (raise_for_docker_error stderr exit_code);;
  items ← lift (parse_json_lines stdout);
  _log #"docker.containers.list" node_id [(#"count", JInt (Z.of_nat (length items)))];;
  mret (container_of_item <$> items).

Definition inspect_dto (data : jobject) : DockerContainerInspectDTO :=
  let state := _json_object (dict_get data #"State") in
  let config := _json_object (dict_get data #"Config") in
  let network_settings := _json_object (dict_get data #"NetworkSettings") in
  let health_obj := _json_object (dict_get state #"Health") in
  let health_log := match dict_get health_obj #"Log" with
                    | Some (JArr items) => JObj <$> json_objects items
                    | _ => []
                    end in
  {| ci_id := _string (dict_get data #"Id"); ci_name := _string (dict_get data #"Name");
     ci_state :=
       {| cs_status := _string (dict_get state #"Status");
          cs_running := _boolean (dict_get state #"Running");
          cs_exit_code := _integer (dict_get state #"ExitCode");
          cs_started_at := _optional_string (dict_get state #"StartedAt");
          cs_finished_at := _optional_string (dict_get state #"FinishedAt");
          cs_oom_killed := match dict_get state #"OOMKilled" with
                           | Some v => Some (_boolean (Some v)) | None => None end;
          cs_health := _optional_string (dict_get health_obj #"Status");
          cs_health_failing_streak := match dict_get health_obj #"FailingStreak" with
                                      | Some (JInt z) => Some z | _ => None end;
          cs_health_log := health_log |};
     ci_config :=
       {| cc_image := _optional_string (dict_get config #"Image");
          cc_cmd := _string_tuple (dict_get config #"Cmd");
          cc_hostname := _optional_string (dict_get config #"Hostname") |};
     ci_network_settings := network_settings |}.

Definition get_container (node_id : uuid) (container_id : pystr) : prog DockerContainerInspectDTO :=
  validated_id ← lift (validate_container_id container_id);
  node ← get_target node_id;
  let cmd := build_docker_command node (#"inspect " ++ validated_id) in
  '(stdout, stderr, exit_code) ← execute node cmd default_timeout;
  lift (raise_for_docker_error stderr exit_code);;
  items ← lift (parse_json_array stdout);
  match items with
  | [] => lift (raise ContainerNotFoundError (#"Container " ++ validated_id ++ #" not found"))
  | data :: _ =>
      _log #"docker.container.inspect" node_id [(#"container_id", JStr validated_id)];;
      mret (inspect_dto data)
  end.

(** ** Lifecycle *)

Definition _lifecycle_action (node_id : uuid) (container_id action args : pystr) (details : jobject) : prog unit :=
  validated_id ← lift (validate_container_id container_id);
  node ← get_target node_id;
  let cmd := build_docker_command node (args ++ #" " ++ validated_id) in
  _log_required (#"docker.container." ++ action ++ #".requested") node_id
    [(#"container_id", JStr validated_id)];;
  '(_, stderr, exit_code) ← execute node cmd default_timeout;
  lift (raise_for_docker_error stderr exit_code);;
  let topic := #"docker.container." ++ action in
  _log topic node_id ((#"container_id", JStr validated_id) :: details);;
  publish topic [(#"node_id", JStr (uuid_str node_id)); (#"container_id", JStr validated_id)].

Definition start_container (node_id : uuid) (container_id : pystr) : prog unit :=
  _lifecycle_action node_id container_id #"start" #"start" [].
Definition stop_container (node_id : uuid) (container_id : pystr) (timeout : Z) : prog unit :=
  _lifecycle_action node_id container_id #"stop" (#"stop -t " ++ str_Z timeout)
    [(#"timeout", JInt timeout)].
Definition restart_container (node_id : uuid) (container_id : pystr) (timeout : Z) : prog unit :=
  _lifecycle_action node_id container_id #"restart" (#"restart -t " ++ str_Z timeout)
    [(#"timeout", JInt timeout)].
Definition remove_container (node_id : uuid) (container_id : pystr) (force : bool) : prog unit :=
  let args := if force then #"rm -f" else #"rm" in
  _lifecycle_action node_id container_id #"remove" args [(#"force", JBool force)].

(** ** Logs, exec, stats *)

(** Both streams of [docker logs], separated by a newline unless one is there. *)
Definition concat_streams (stdout stderr : pystr) : pystr :=
  if negb (str_eqb stdout []) && negb (str_eqb stderr []) then
    let separator := if endswith stdout [10%N] || startswith stderr [10%N] then [] else [10%N] in
    stdout ++ separator ++ stderr
  else if negb (str_eqb stdout []) then stdout else stderr.

Definition get_logs (node_id : uuid) (container_id : pystr) (tail : Z) (since : option pystr) : prog pystr :=
  validated_id ← lift (validate_container_id container_id);
  normalized_since ← lift (validate_opt parse_since (nonempty since));
  node ← get_target node_id;
  let since_flag := match nonempty normalized_since with
                    | Some s => #" --since " ++ s | None => [] end in
  let cmd := build_docker_command node
               (#"logs --tail " ++ str_Z tail ++ since_flag ++ #" " ++ validated_id) in
  '(stdout, stderr, exit_code) ← execute node cmd default_timeout;
  lift (raise_for_docker_error stderr exit_code);;
  _log #"docker.container.logs" node_id
    [(#"container_id", JStr validated_id); (#"tail", JInt tail)];;
  mret (concat_streams stdout stderr).

Definition exec_args (validated_id command : pystr) : pystr :=
  #"exec " ++ validated_id ++ #" sh -c " ++ quote command.

Definition exec_command (node_id : uuid) (container_id command : pystr) (timeout : Z) : prog DockerExecResultDTO :=
  validated_id ← lift (validate_container_id container_id);
  node ← get_target node_id;
  let cmd := build_docker_command node (exec_args validated_id command) in
  fingerprint ← lift (command_fingerprint command);
  _log_required #"docker.container.exec.requested" node_id
    [(#"container_id", JStr validated_id); (#"command_fingerprint", JStr fingerprint)];;
  outcome ← try_except (r ← execute node cmd timeout; mret (inl r))
    (on_exception (fun exc => mret (inr (Build_DockerExecResultDTO [] (exn_msg exc) 124))));
  match outcome with
  | inr failed => mret failed
  | inl (stdout, stderr, exit_code) =>
      _log #"docker.container.exec" node_id
        [(#"container_id", JStr validated_id); (#"command_fingerprint", JStr fingerprint);
         (#"exit_code", JInt exit_code)];;
      mret (Build_DockerExecResultDTO stdout stderr exit_code)
  end.

Definition stats_of_item (item : jobject) : DockerStatsDTO :=
  {| st_container_id := json_string item #"Container"; st_name := json_string item #"Name";
     st_cpu_percent := json_string item #"CPUPerc"; st_mem_usage := json_string item #"MemUsage";
     st_mem_percent := json_string item #"MemPerc"; st_net_io := json_string item #"NetIO";
     st_block_io := json_string item #"BlockIO"; st_mem_limit := json_optional_string item #"MemLimit";
     st_pids := json_optional_string item #"PIDs" |}.

Definition get_stats (node_id : uuid) (container_id : pystr) : prog DockerStatsDTO :=
  validated_id ← lift (validate_container_id container_id);
  node ← get_target node_id;
  let cmd := build_docker_command node
               (#"stats --no-stream --format '{{json .}}' " ++ validated_id) in
  '(stdout, stderr, exit_code) ← execute node cmd default_timeout;
  lift (raise_for_docker_error stderr exit_code);;
  items ← lift (parse_json_lines stdout);
  match items with
  | [] => lift (raise ContainerNotFoundError
                  (#"Container " ++ validated_id ++ #" not found or not running"))
  | item :: _ =>
      _log #"docker.container.stats" node_id [(#"container_id", JStr validated_id)];;
      mret (stats_of_item item)
  end.

(** ** Lifecycle extensions *)

Definition plain_action (verb : pystr) (node_id : uuid) (container_id : pystr) : prog unit :=
  validated_id ← lift (validate_container_id container_id);
  node ← get_target node_id;
  let cmd := build_docker_command node (verb ++ #" " ++ validated_id) in
  '(_, stderr, exit_code) ← execute node cmd default_timeout;
  lift (raise_for_docker_error stderr exit_code);;
  let topic := #"docker.container." ++ verb in
  _log topic node_id [(#"container_id", JStr validated_id)];;
  publish topic [(#"node_id", JStr (uuid_str node_id)); (#"container_id", JStr validated_id)].

Definition pause_container (node_id : uuid) (container_id : pystr) : prog unit :=
  plain_action #"pause" node_id container_id.
Definition unpause_container (node_id : uuid) (container_id : pystr) : prog unit :=
  plain_action #"unpause" node_id container_id.

Definition rename_container (data : ContainerRenameRequestDTO) : prog unit :=
  validated_id ← lift (validate_container_id (rn_container_id data));
  node ← get_target (rn_node_id data);
  let cmd := build_docker_command node
               (#"rename " ++ validated_id ++ #" " ++ quote (rn_new_name data)) in
  '(_, stderr, exit_code) ← execute node cmd default_timeout;
  lift (raise_for_docker_error stderr exit_code);;
  _log #"docker.container.rename" (rn_node_id data)
    [(#"container_id", JStr validated_id); (#"new_name", JStr (rn_new_name data))];;
  publish #"docker.container.rename"
    [(#"node_id", JStr (uuid_str (rn_node_id data))); (#"container_id", JStr validated_id);
     (#"new_name", JStr (rn_new_name data))].

(** [[line for line in stdout.strip().splitlines() if line.strip()]]. *)
Definition nonblank_lines (stdout : pystr) : list pystr :=
  List.filter (fun line => negb (str_eqb (strip line) [])) (splitlines (strip stdout)).

Definition top_container (node_id : uuid) (container_id : pystr) : prog DockerTopResultDTO :=
  validated_id ← lift (validate_container_id container_id);
  node ← get_target node_id;
  let cmd := build_docker_command node (#"top " ++ validated_id) in
  '(stdout, stderr, exit_code) ← execute node cmd default_timeout;
  lift (raise_for_docker_error stderr exit_code);;
  match nonblank_lines stdout with
  | header :: ((_ :: _) as lines) =>
      mret {| tp_titles := split_ws header; tp_processes := split_ws <$> lines |}
  | _ => lift (raise ContainerNotFoundError
                 (#"Container " ++ validated_id ++ #" not found or not running"))
  end.

Definition kill_container (node_id : uuid) (container_id signal : pystr) : prog unit :=
  validated_id ← lift (validate_container_id container_id);
  node ← get_target node_id;
  let cmd := build_docker_command node
               (#"kill --signal " ++ quote signal ++ #" " ++ validated_id) in
  _log_required #"docker.container.kill.requested" node_id
    [(#"container_id", JStr validated_id); (#"signal", JStr signal)];;
  '(_, stderr, exit_code) ← execute node cmd default_timeout;
  lift (raise_for_docker_error stderr exit_code);;
  _log #"docker.container.kill" node_id
    [(#"container_id", JStr validated_id); (#"signal", JStr signal)];;
  publish #"docker.container.kill"
    [(#"node_id", JStr (uuid_str node_id)); (#"container_id", JStr validated_id);
     (#"signal", JStr signal)].

Definition update_container (node_id : uuid) (container_id : pystr)
    (memory cpus restart_policy : option pystr) : prog unit :=
  validated_id ← lift (validate_container_id container_id);
  validated_policy ← lift (validate_opt validate_restart_policy restart_policy);
  let parts := option_part #"--memory" memory ++ option_part #"--cpus" cpus
               ++ option_part #"--restart" validated_policy in
  match parts with
  | [] => lift (raise DockerValidationError #"No update fields provided")
  | _ =>
      node ← get_target node_id;
      let args := #"update " ++ join #" " parts ++ #" " ++ validated_id in
      let cmd := build_docker_command node args in
      _log_required #"docker.container.update.requested" node_id
        [(#"container_id", JStr validated_id)];;
      '(_, stderr, exit_code) ← execute node cmd default_timeout;
      lift (raise_for_docker_error stderr exit_code);;
      _log #"docker.container.update" node_id [(#"container_id", JStr validated_id)]
  end.

(** ** Archives, ports, wait *)

Definition get_archive (node_id : uuid) (container_id path : pystr) : prog pystr :=
  validated_id ← lift (validate_container_id container_id);
  node ← get_target node_id;
  let cmd := build_docker_command node
               (#"cp " ++ validated_id ++ #":" ++ quote path ++ #" -") in
  '(stdout, stderr, exit_code) ← execute node cmd default_timeout;
  lift (raise_for_docker_error stderr exit_code);;
  _log #"docker.container.archive.get" node_id
    [(#"container_id", JStr validated_id); (#"path", JStr path)];;
  mret stdout.

Definition put_archive (node_id : uuid) (container_id path data : pystr) : prog unit :=
  validated_id ← lift (validate_container_id container_id);
  node ← get_target node_id;
  let base_cmd := build_docker_command node
                    (#"cp - " ++ validated_id ++ #":" ++ quote path) in
  '(_, stderr, exit_code) ← execute node (piped data base_cmd) default_timeout;
  lift (raise_for_docker_error stderr exit_code);;
  _log #"docker.container.archive.put" node_id
    [(#"container_id", JStr validated_id); (#"path", JStr path)].

Definition get_port (node_id : uuid) (container_id : pystr) (private_port : option pystr) : prog pystr :=
  validated_id ← lift (validate_container_id container_id);
  node ← get_target node_id;
  let port_arg := match nonempty private_port with Some p => #" " ++ quote p | None => [] end in
  let cmd := build_docker_command node (#"port " ++ validated_id ++ port_arg) in
  '(stdout, stderr, exit_code) ← execute node cmd default_timeout;
  lift (raise_for_docker_error stderr exit_code);;
  _log #"docker.container.port" node_id [(#"container_id", JStr validated_id)];;
  mret (strip stdout).

Definition wait_container (node_id : uuid) (container_id : pystr) (timeout : option Z) : prog Z :=
  validated_id ← lift (validate_container_id container_id);
  node ← get_target node_id;
  let cmd := build_docker_command node (#"wait " ++ validated_id) in
  let exec_timeout := match timeout with Some t => t | None => 60%Z end in
  '(stdout, stderr, exit_code) ← execute node cmd exec_timeout;
  lift (raise_for_docker_error stderr exit_code);;
  _log #"docker.container.wait" node_id [(#"container_id", JStr validated_id)];;
  mret (match strip stdout with
        | [] => 0%Z
        | _ => match py_int (last_line stdout) with Some z => z | None => 0%Z end
        end).
End containers.
