(* ===== verification/ContainerSpec.v ===== *)
(** * What the container use cases promise

    An abstract description of the container API - the operations, the argument
    vector each one means, which of them must be audited before they touch a node -
    and the theorems that [Containers.v] implements it. *)
From S2P Require Import Prelude PyStr Shlex Errors Validation Json Bytes Effects Dto Ports DockerCore Containers.

(** ** The operations *)

Inductive container_op :=
| OpCreate (request : ContainerCreateRequestDTO)
| OpList (all : bool)
| OpInspect (container_id : pystr)
| OpStart (container_id : pystr)
| OpStop (container_id : pystr) (timeout : Z)
| OpRestart (container_id : pystr) (timeout : Z)
| OpRemove (container_id : pystr) (force : bool)
| OpLogs (container_id : pystr) (tail : Z) (since : option pystr)
| OpExec (container_id command : pystr) (timeout : Z)
| OpStats (container_id : pystr)
| OpPause (container_id : pystr)
| OpUnpause (container_id : pystr)
| OpRename (container_id new_name : pystr)
| OpTop (container_id : pystr)
| OpKill (container_id signal : pystr)
| OpUpdate (container_id : pystr) (memory cpus restart_policy : option pystr)
| OpGetArchive (container_id path : pystr)
| OpPutArchive (container_id path data : pystr)
| OpPort (container_id : pystr) (private_port : option pystr)
| OpWait (container_id : pystr) (timeout : option Z).

Section spec.
Context `{Unicode} `{Host}.

(** The service method behind each operation. *)
Definition run_op (node_id : uuid) (op : container_op) : prog unit :=
  match op with
  | OpCreate r => ignore (create_container
      {| cq_node_id := node_id; cq_image := cq_image r; cq_name := cq_name r;
         cq_command := cq_command r; cq_ports := cq_ports r; cq_volumes := cq_volumes r;
         cq_env := cq_env r; cq_labels := cq_labels r; cq_network := cq_network r;
         cq_restart_policy := cq_restart_policy r |})
  | OpList all => ignore (list_containers node_id all)
  | OpInspect c => ignore (get_container node_id c)
  | OpStart c => start_container node_id c
  | OpStop c t => stop_container node_id c t
  | OpRestart c t => restart_container node_id c t
  | OpRemove c force => remove_container node_id c force
  | OpLogs c tail since => ignore (get_logs node_id c tail since)
  | OpExec c command t => ignore (exec_command node_id c command t)
  | OpStats c => ignore (get_stats node_id c)
  | OpPause c => pause_container node_id c
  | OpUnpause c => unpause_container node_id c
  | OpRename c n => rename_container (Build_ContainerRenameRequestDTO node_id c n)
  | OpTop c => ignore (top_container node_id c)
  | OpKill c signal => kill_container node_id c signal
  | OpUpdate c m cpus pol => update_container node_id c m cpus pol
  | OpGetArchive c path => ignore (get_archive node_id c path)
  | OpPutArchive c path data => put_archive node_id c path data
  | OpPort c p => ignore (get_port node_id c p)
  | OpWait c t => ignore (wait_container node_id c t)
  end.

(** ** The argument vectors *)

Definition option_argv (flag : pystr) (v : option pystr) : list pystr :=
  match v with Some v => [flag; v] | None => [] end.

Definition create_argv (r : ContainerCreateRequestDTO) : list pystr :=
  [ #"create"]
  ++ option_argv #"--name" (cq_name r)
  ++ option_argv #"--restart" (nonempty (cq_restart_policy r))
  ++ ('(container_spec, host_port) ← dict_of (cq_ports r); [ #"-p"; host_port ++ #":" ++ container_spec])
  ++ ('(host_path, (bind, mode)) ← dict_of ((fun '(h, b, m) => (h, (b, m))) <$> cq_volumes r);
      [ #"-v"; host_path ++ #":" ++ bind ++ #":" ++ mode])
  ++ (entry ← cq_env r; [ #"-e"; entry])
  ++ ('(key, value) ← dict_of (cq_labels r); [ #"--label"; key ++ #"=" ++ value])
  ++ option_argv #"--network" (nonempty (cq_network r))
  ++ [cq_image r]
  ++ match nonempty (cq_command r) with
     | Some command => default [] (shlex_split command)
     | None => []
     end.

Definition op_argv (op : container_op) : list pystr :=
  match op with
  | OpCreate r => create_argv r
  | OpList all => [ #"ps"] ++ (if all then [ #"-a"] else []) ++ [ #"--format"; #"{{json .}}"]
  | OpInspect c => [ #"inspect"; c]
  | OpStart c => [ #"start"; c]
  | OpStop c t => [ #"stop"; #"-t"; str_Z t; c]
  | OpRestart c t => [ #"restart"; #"-t"; str_Z t; c]
  | OpRemove c force => [ #"rm"] ++ (if force then [ #"-f"] else []) ++ [c]
  | OpLogs c tail since =>
      [ #"logs"; #"--tail"; str_Z tail]
      ++ match nonempty since with
         | Some s => match parse_since s with Ok s => [ #"--since"; s] | Raise _ => [] end
         | None => []
         end ++ [c]
  | OpExec c command _ => [ #"exec"; c; #"sh"; #"-c"; command]
  | OpStats c => [ #"stats"; #"--no-stream"; #"--format"; #"{{json .}}"; c]
  | OpPause c => [ #"pause"; c]
  | OpUnpause c => [ #"unpause"; c]
  | OpRename c n => [ #"rename"; c; n]
  | OpTop c => [ #"top"; c]
  | OpKill c signal => [ #"kill"; #"--signal"; signal; c]
  | OpUpdate c m cpus pol =>
      [ #"update"] ++ option_argv #"--memory" m ++ option_argv #"--cpus" cpus
      ++ option_argv #"--restart" pol ++ [c]
  | OpGetArchive c path => [ #"cp"; c ++ #":" ++ path; #"-"]
  | OpPutArchive c path _ => [ #"cp"; #"-"; c ++ #":" ++ path]
  | OpPort c p => [ #"port"; c] ++ match nonempty p with Some p => [p] | None => [] end
  | OpWait c _ => [ #"wait"; c]
  end.

(** The whole command line: one [docker] command, except that an upload pipes the
    data into it. *)
Definition op_tokens (node : NodeConnectionDTO) (op : container_op) : list tok :=
  match op with
  | OpPutArchive _ _ data => [W #"printf"; W #"%s"; W data; Op 124]
  | _ => []
  end ++ (W <$> docker_prefix node ++ op_argv op).

(** Action name of the intent that must be committed before the node is touched. *)
Definition required_intent (op : container_op) : option pystr :=
  match op with
  | OpCreate _ => Some #"docker.container.create.requested"
  | OpStart _ => Some #"docker.container.start.requested"
  | OpStop _ _ => Some #"docker.container.stop.requested"
  | OpRestart _ _ => Some #"docker.container.restart.requested"
  | OpRemove _ _ => Some #"docker.container.remove.requested"
  | OpExec _ _ _ => Some #"docker.container.exec.requested"
  | OpKill _ _ => Some #"docker.container.kill.requested"
  | OpUpdate _ _ _ _ => Some #"docker.container.update.requested"
  | _ => None
  end.

(** ** Lexing lemmas *)

Lemma lexes_app_word s w ts :
  Piece s w -> forall t, Lexes t ts -> Lexes (s ++ #" " ++ t) (W w :: ts).
Proof. intros Hs t Ht. apply (lexes_space s [W w]); [by apply lexes_word|done]. Qed.

Lemma piece_container_id c c' : validate_container_id c = Ok c' -> c' = c /\ Piece c c.
Proof. by intros (-> & ? & _)%container_id_word. Qed.

Lemma lexes_flag_arg flag s w :
  flag <> [] -> forallb safe_char flag = true -> Piece s w -> Lexes (flag_arg flag s) [W flag; W w].
Proof.
  intros Hne Hf Hs. apply lexes_app_word; [by apply piece_safe|by apply lexes_word].
Qed.

Lemma parts_option flag v :
  flag <> [] -> forallb safe_char flag = true -> Parts (option_part flag v) (option_argv flag v).
Proof.
  intros Hne Hf. destruct v as [v|]; [|apply parts_nil]. apply parts_one.
  apply (lexes_flag_arg flag (quote v) v); [done..|apply piece_quote].
Qed.
(** The normalised request keeps every field of the request. *)
Lemma validate_opt_ok f v w :
  (forall s t, f s = Ok t -> t = s) -> validate_opt f v = Ok w -> w = v.
Proof.
  intros Hf. destruct v as [v|]; cbn; [|by intros [= <-]].
  destruct (f v) as [u|] eqn:E; cbn; [|done]. intros [= <-]. by rewrite (Hf _ _ E).
Qed.

Lemma normalize_create_ok r n :
  normalize_create r = Ok n ->
  cq_image n = cq_image r /\ cq_name n = cq_name r /\ cq_command n = cq_command r
  /\ cq_ports n = dict_of (cq_ports r)
  /\ cq_volumes n = (fun p => (p.1, p.2.1, p.2.2))
                      <$> dict_of ((fun '(h, b, m) => (h, (b, m))) <$> cq_volumes r)
  /\ cq_env n = cq_env r /\ cq_labels n = dict_of (cq_labels r)
  /\ cq_network n = nonempty (cq_network r)
  /\ cq_restart_policy n = nonempty (cq_restart_policy r).
Proof.
  unfold normalize_create. cbn.
  destruct (validate_image_name _) as [im|] eqn:E1; cbn; [|done].
  destruct (validate_opt _ (cq_name r)) as [nm|] eqn:E2; cbn; [|done].
  destruct (validate_port_mappings _) as [po|] eqn:E3; cbn; [|done].
  destruct (validate_volume_mounts _) as [vo|] eqn:E4; cbn; [|done].
  destruct (validate_env_vars _) as [en|] eqn:E5; cbn; [|done].
  destruct (validate_labels _) as [la|] eqn:E6; cbn; [|done].
  destruct (validate_opt _ (nonempty (cq_network r))) as [ne|] eqn:E7; cbn; [|done].
  destruct (validate_opt _ (nonempty (cq_restart_policy r))) as [rp|] eqn:E8; cbn; [|done].
  intros [= <-]; cbn.
  apply require_ok in E1 as [-> _].
  apply validate_opt_ok in E2 as ->; [|by intros ? ? [-> _]%require_full_ok].
  apply port_mappings_go_ok in E3 as [-> _]; [|apply dict_of_NoDup].
  apply env_vars_go_ok in E5 as [-> _].
  apply labels_go_ok in E6 as [-> _]; [|apply dict_of_NoDup].
  apply validate_opt_ok in E7 as ->; [|by intros ? ? [-> _]%require_full_ok].
  apply validate_opt_ok in E8 as ->; [|by intros ? ? [-> _]%require_ok].
  split_and!; try done.
  replace ((fun '(hp, b, m) => (hp, [(#"bind", b); (#"mode", m)])) <$> cq_volumes r)
    with (prod_map id mount_spec <$> ((fun '(h, b, m) => (h, (b, m))) <$> cq_volumes r)) in E4
    by (rewrite <- list_fmap_compose; apply list_fmap_ext; by intros _ [[? ?] ?] _).
  rewrite dict_of_fmap in E4.
  apply (volume_mounts_go_ok []) in E4 as [-> _]; [|apply dict_of_NoDup].
  apply list_fmap_ext. by intros _ [? [? ?]] _.
Qed.

Lemma normalize_create_name r n : normalize_create r = Ok n -> cq_name r = Some [] -> False.
Proof.
  intros Hok Hn. unfold normalize_create in Hok. rewrite Hn in Hok.
  by destruct (validate_image_name (cq_image r)).
Qed.

(** A word prefixed by literal text, and two values joined by it. *)
Lemma lexes_flag_pair flag a sep b :
  flag <> [] -> forallb safe_char flag = true -> sep <> [] -> forallb safe_char sep = true ->
  Lexes (flag_arg flag (quote a ++ sep ++ quote b)) (W <$> [flag; a ++ sep ++ b]).
Proof.
  intros. apply lexes_flag_arg; [done..|].
  apply piece_app; [apply piece_quote|]. apply piece_app; [by apply piece_safe|apply piece_quote].
Qed.

Lemma create_parts_lex r (ws : list pystr) :
  Parts
    (option_part #"--name" (cq_name r)
     ++ option_part #"--restart" (nonempty (cq_restart_policy r))
     ++ ((fun '(container_spec, host_port) =>
            flag_arg #"-p" (quote host_port ++ #":" ++ quote container_spec)) <$> dict_of (cq_ports r))
     ++ ((fun '(host_path, bind, mode) =>
            flag_arg #"-v" (quote host_path ++ #":" ++ quote bind ++ #":" ++ quote mode))
           <$> ((fun p => (p.1, p.2.1, p.2.2))
                  <$> dict_of ((fun '(h, b, m) => (h, (b, m))) <$> cq_volumes r)))
     ++ ((fun entry => flag_arg #"-e" (quote entry)) <$> cq_env r)
     ++ ((fun '(key, value) => flag_arg #"--label" (quote (key ++ #"=" ++ value)))
           <$> dict_of (cq_labels r))
     ++ option_part #"--network" (nonempty (cq_network r))
     ++ [quote (cq_image r)] ++ (quote <$> ws))
    (option_argv #"--name" (cq_name r)
     ++ option_argv #"--restart" (nonempty (cq_restart_policy r))
     ++ ('(container_spec, host_port) ← dict_of (cq_ports r); [ #"-p"; host_port ++ #":" ++ container_spec])
     ++ ('(host_path, (bind, mode)) ← dict_of ((fun '(h, b, m) => (h, (b, m))) <$> cq_volumes r);
         [ #"-v"; host_path ++ #":" ++ bind ++ #":" ++ mode])
     ++ (entry ← cq_env r; [ #"-e"; entry])
     ++ ('(key, value) ← dict_of (cq_labels r); [ #"--label"; key ++ #"=" ++ value])
     ++ option_argv #"--network" (nonempty (cq_network r))
     ++ [cq_image r] ++ ws).
Proof.
  repeat apply parts_app; try by apply parts_option.
  - apply parts_bind. intros [spec port]. by apply lexes_flag_pair.
  - rewrite <- list_fmap_compose. apply parts_bind. intros [hp [b m]]. cbn.
    apply lexes_flag_arg; [done..|].
    repeat (apply piece_app; [first [apply piece_quote|by apply piece_safe]|]). apply piece_quote.
  - apply parts_bind. intros entry. apply lexes_flag_arg; [done..|apply piece_quote].
  - apply parts_bind. intros [k v]. apply lexes_flag_arg; [done..|apply piece_quote].
  - apply parts_one, lexes_word, piece_quote.
  - replace ws with (ws ≫= fun w => [w]) at 2
      by (induction ws as [|w ws IH]; [done|]; cbn; by rewrite IH).
    apply parts_bind. intros w. apply lexes_word, piece_quote.
Qed.

Lemma create_args_lex r n args :
  normalize_create r = Ok n -> _build_create_args n = Ok args -> Lexes args (W <$> create_argv r).
Proof.
  intros (Ei & En & Ec & Ep & Ev & Ee & El & Ew & Er)%normalize_create_ok Ha.
  set (ws := match nonempty (cq_command r) with
             | Some command => default [] (shlex_split command) | None => [] end).
  pose proof (create_parts_lex r ws) as HP.
  assert (match nonempty (cq_command r) with
          | Some command =>
              match shlex_split command with
              | Some tokens => Ok (quote <$> tokens)
              | None => raise ValueError #"No closing quotation"
              end
          | None => Ok []
          end = Ok (quote <$> ws) \/ is_ok (_build_create_args n) = false) as [Ht|Ht].
  { unfold _build_create_args, ws. rewrite Ec.
    destruct (nonempty (cq_command r)) as [c|]; [|by left].
    destruct (shlex_split c) as [toks|]; [by left|by right]. }
  2: by rewrite Ha in Ht.
  unfold _build_create_args in Ha. rewrite Ei, En, Ec, Ep, Ev, Ee, El, Ew, Er, Ht in Ha.
  cbn [mbind res_bind] in Ha. injection Ha as <-.
  apply (lexes_app_word #"create" #"create"); [by apply piece_safe|].
  apply parts_join; [exact HP|].
  intros Hnil. apply (f_equal length) in Hnil. rewrite !length_app in Hnil. cbn [length] in Hnil. lia.
Qed.

Lemma parse_since_piece s t : s <> [] -> parse_since s = Ok t -> t <> [] /\ Piece t t.
Proof.
  intros Hne. unfold parse_since. destruct (isdigit s) eqn:E.
  - intros [= <-]. unfold isdigit in E. destruct s as [|d s]; [done|].
    split; [done|]. apply piece_plain; [done|]. eapply forallb_impl; [|exact E].
    intros c. unfold isdigit_char, plain_char, is_ascii, safe_char, ascii_alnum.
    destruct (c <? 128)%N eqn:Ec; [intros ->; by rewrite orb_true_r|].
    intros _. rewrite orb_true_iff. right. apply N.leb_le. by apply N.ltb_ge in Ec.
  - destruct (iso_timestamp _) as [[z|]|]; cbn; [|done..]. intros [= <-]. split; [apply str_Z_nonempty|apply piece_str_Z].
Qed.

(** ** The command lines *)

Definition commands_mean (op : container_op) (h : history) (c : call) : Prop :=
  match c with
  | Execute node cmd _ => sh_lex cmd = Some (op_tokens node op)
  | _ => True
  end.

Ltac unfold_op :=
  unfold ignore, create_container, list_containers, get_container, start_container, stop_container,
    restart_container, remove_container, _lifecycle_action, get_logs, exec_command, get_stats,
    pause_container, unpause_container, plain_action, rename_container, top_container, kill_container,
    update_container, get_archive, put_archive, get_port, wait_container, _log, _log_required, exec_args.

Lemma commands_mean_intro op h node args timeout :
  match op with OpPutArchive _ _ _ => False | _ => True end ->
  Lexes args (W <$> op_argv op) ->
  commands_mean op h (Execute node (build_docker_command node args) timeout).
Proof.
  intros Hop Ha. cbn. apply (docker_words_intro node) in Ha. unfold docker_words in Ha.
  rewrite Ha. by destruct op.
Qed.

(** Updates and uploads: the two command lines with structure of their own. *)
Lemma update_lex c m cpus pol a l ls :
  Piece c c -> validate_opt validate_restart_policy pol = Ok a ->
  option_part #"--memory" m ++ option_part #"--cpus" cpus ++ option_part #"--restart" a = l :: ls ->
  Lexes (#"update " ++ join #" " (l :: ls) ++ #" " ++ c) (W <$> op_argv (OpUpdate c m cpus pol)).
Proof.
  intros Hc Hpol Hparts. apply validate_opt_ok in Hpol as ->; [|by intros ? ? [-> _]%require_ok].
  eapply lexes_eq with (ts := [W #"update"] ++ (W <$> (option_argv #"--memory" m
    ++ option_argv #"--cpus" cpus ++ option_argv #"--restart" pol) ++ [c])).
  - apply lexes_lit; [by split; vm_compute|]. rewrite fmap_app. apply lexes_space; [|by apply lexes_word].
    apply parts_join; [|done]. rewrite <- Hparts. repeat apply parts_app; by apply parts_option.
  - cbn [op_argv]. by rewrite <- !app_assoc.
Qed.

(** *** Reading a history *)

Definition intent_first (op : container_op) (node_id : uuid) (h : history) (c : call) : Prop :=
  match c, required_intent op with
  | Execute _ _ _, Some action => has_audit = true -> committed action node_id h
  | _, _ => True
  end.

Definition is_exec (op : container_op) : bool := if op is OpExec _ _ _ then true else false.

(** The checks an operation makes on its arguments alone. *)
Definition op_validate (op : container_op) : res unit :=
  match op with
  | OpCreate r => _ ← normalize_create r; Ok tt
  | OpList _ => Ok tt
  | OpInspect c | OpStart c | OpStop c _ | OpRestart c _ | OpRemove c _ | OpExec c _ _ | OpStats c
  | OpPause c | OpUnpause c | OpRename c _ | OpTop c | OpKill c _ | OpGetArchive c _
  | OpPutArchive c _ _ | OpPort c _ | OpWait c _ => _ ← validate_container_id c; Ok tt
  | OpLogs c _ since =>
      _ ← validate_container_id c; _ ← validate_opt parse_since (nonempty since); Ok tt
  | OpUpdate c m cpus pol =>
      _ ← validate_container_id c; _ ← validate_opt validate_restart_policy pol;
      match m, cpus, pol with
      | None, None, None => raise DockerValidationError #"No update fields provided"
      | _, _, _ => Ok tt
      end
  end.

(** The first step of a tree fails when its check does. *)
Lemma lift_raise {A B} (r : res A) (f : A -> prog B) e : r = Raise e -> lift r ≫= f = Done (Raise e).
Proof. by intros ->. Qed.
Lemma ignore_raise {A} (p : prog A) e : p = Done (Raise e) -> ignore p = Done (Raise e).
Proof. by intros ->. Qed.
Lemma check_raise {A} (r : res A) e : (_ ← r; Ok tt) = Raise e -> r = Raise e.
Proof. destruct r; [done|]. by intros [= ->]. Qed.

(** The request of [OpCreate], addressed to a node. *)
Definition at_node (node_id : uuid) (r : ContainerCreateRequestDTO) : ContainerCreateRequestDTO :=
  {| cq_node_id := node_id; cq_image := cq_image r; cq_name := cq_name r;
     cq_command := cq_command r; cq_ports := cq_ports r; cq_volumes := cq_volumes r;
     cq_env := cq_env r; cq_labels := cq_labels r; cq_network := cq_network r;
     cq_restart_policy := cq_restart_policy r |}.
Lemma normalize_at_node node_id r e :
  normalize_create r = Raise e -> normalize_create (at_node node_id r) = Raise e.
Proof.
  unfold normalize_create, mbind, res_bind. cbn [at_node cq_image cq_name cq_ports cq_volumes cq_env
    cq_labels cq_network cq_restart_policy].
  repeat match goal with |- context [match ?m with Ok _ => _ | Raise _ => _ end] => destruct m; [|done] end.
  done.
Qed.

(** What symbolic execution leaves: facts about the history. *)
Ltac op_cases := unfold_op; cbn zeta; repeat wp_step; try done.

(** C1: every command line a container use case executes, for any arguments and any answers of
    the node, is read by a shell as one docker invocation on the endpoint of the node whose
    argument vector is exactly the one the operation means; user-supplied text never becomes
    shell syntax, and never splits or merges arguments. *)
Theorem container_command_lines node_id op h :
  wp (run_op node_id op) h (commands_mean op) (fun _ _ => True).
Proof.
  destruct op; cbn [run_op]; unfold_op; cbn zeta.
  all: repeat wp_step.
  all: try done.
  all: repeat match goal with E : validate_container_id _ = Ok _ |- _ => apply piece_container_id in E as [-> ?] end.
  all: try (apply commands_mean_intro; [done|]; rewrite <- ?app_assoc;
            repeat match goal with b : bool |- _ => destruct b end; cbn [app]; solve [lex_go]).
  all: try (apply commands_mean_intro; [done|]; exact (create_args_lex _ _ _ E E0)).
  - apply commands_mean_intro; [done|].
    destruct (nonempty since) as [[|d s]|] eqn:Es; cbn in E0.
    + by destruct since as [[]|].
    + destruct (parse_since _) as [t|] eqn:Et; cbn in E0; [|done]. injection E0 as <-.
      apply parse_since_piece in Et as Ht; [|discriminate]. destruct Ht as [Hne Hp].
      cbn [op_argv]. rewrite Es, Et. destruct t as [|c t]; [done|]. cbn [nonempty].
      rewrite <- ?app_assoc. lex_go.
    + injection E0 as <-. cbn [op_argv nonempty]. rewrite Es. cbn [app]. lex_go.
  - apply commands_mean_intro; [done|]. by apply (update_lex _ _ _ _ a0).
  - apply commands_mean_intro; [done|]. by apply (update_lex _ _ _ _ a0).
  - apply commands_mean_intro; [done|].
    replace (#"cp " ++ container_id ++ #":" ++ quote path ++ #" -")
      with (#"cp " ++ (container_id ++ #":" ++ quote path) ++ #" -") by by rewrite <- !app_assoc.
    lex_go.
  - apply (piped_lex node data _ (op_argv (OpPutArchive container_id path data))). lex_go.
  - apply commands_mean_intro; [done|]. cbn [op_argv].
    destruct (nonempty private_port); rewrite ?app_nil_r; lex_go.
Qed.

(** C2: with an audit sink, the container operations that log a required intent (create, start,
    stop, restart, remove, exec, kill, update) execute a command only after their own intent was
    committed for that node; a failed audit write therefore prevents the effect. *)
Theorem container_intent_before_effect node_id op h :
  wp (run_op node_id op) h (intent_first op node_id) (fun _ _ => True).
Proof.
  destruct op; cbn [run_op]; op_cases.
  all: intros Hyes; try (by rewrite Hyes in *).
  all: try apply committed_last.
Qed.

(** A container use case executes at most one command, and (except for exec, which reports
    the status itself) succeeds only if exactly one command ran and exited with status zero. *)
Theorem container_single_effect node_id op :
  wp (run_op node_id op) []
    (fun h c => is_execute c = true -> outcomes h = [])
    (fun h r => r = Ok tt -> is_exec op = false -> ran_ok h).
Proof.
  destruct op; cbn [run_op]; op_cases.
  all: intros _ _; match goal with E : raise_for_docker_error _ _ = Ok _ |- _ =>
         apply raise_for_docker_error_ok in E as -> end; unfold ran_ok; do 5 eexists; reflexivity.
Qed.

(** An argument refused by the validators of a container use case makes the call fail with
    that very error before the node is resolved, an audit event is written or a command is
    executed. *)
Theorem container_invalid_input_reaches_nothing node_id op e :
  op_validate op = Raise e -> run_op node_id op = Done (Raise e).
Proof.
  destruct op; cbn [run_op op_validate]; unfold_op; cbn zeta; intros He; try done.
  all: try (apply check_raise in He; first [by apply lift_raise|by apply ignore_raise, lift_raise]).
  - apply check_raise in He. by apply ignore_raise, lift_raise, (normalize_at_node node_id).
  - destruct (validate_container_id _) as [v|]; cbn in *; [|by simplify_eq].
    apply check_raise in He. by rewrite He.
  - destruct (validate_container_id _) as [v|]; cbn in *; [|by simplify_eq].
    destruct restart_policy as [pol|]; cbn in *.
    + destruct (validate_restart_policy pol); cbn in *; [by destruct memory, cpus|by simplify_eq].
    + by destruct memory, cpus; cbn in *; rewrite <- ?He.
Qed.

(** A failure of the command itself becomes status 124 with its text as stderr. *)
Theorem exec_reports_failures node_id container_id command timeout :
  wp (exec_command node_id container_id command timeout) [] (fun _ _ => True)
    (fun h r => forall node cmd t e,
       outcomes h = [(node, cmd, t, Raise e)] -> isinstance (exn_type e) Exception_ = true ->
       r = Ok (Build_DockerExecResultDTO [] (exn_msg e) 124)).
Proof. op_cases; cbn; intros; simplify_eq; try done; congruence. Qed.

Lemma concat_streams_spec out err :
  exists sep, concat_streams out err = out ++ sep ++ err /\ (sep = [] \/ sep = [10%N])
    /\ (sep = [] <-> out = [] \/ err = [] \/ endswith out [10%N] = true \/ startswith err [10%N] = true).
Proof.
  unfold concat_streams.
  destruct (str_eqb out []) eqn:Eo; cbn [negb andb].
  { apply str_eqb_eq in Eo as ->. exists []. cbn. tauto. }
  destruct (str_eqb err []) eqn:Ee; cbn [negb andb].
  { apply str_eqb_eq in Ee as ->. exists []. rewrite app_nil_r. tauto. }
  assert (out <> [] /\ err <> []) as [Ho He].
  { by split; intros ->. }
  destruct (endswith out [10%N] || startswith err [10%N]) eqn:Es.
  - exists []. apply orb_true_iff in Es. cbn [app]. tauto.
  - exists [10%N]. apply orb_false_iff in Es as [-> ->]. split_and!; [done|by right|].
    split; [done|]. intros [?|[?|[?|?]]]; done.
Qed.

(** The logs returned are the standard output followed by the standard error of the one
    command that ran and exited with status zero, separated by a newline exactly when both are
    non-empty and neither side of the seam already has one. *)
Theorem logs_keep_both_streams node_id container_id tail since :
  wp (get_logs node_id container_id tail since) [] (fun _ _ => True)
    (fun h r => forall text, r = Ok text ->
       exists node cmd t out err sep,
         outcomes h = [(node, cmd, t, Ok (Build_DockerExecResultDTO out err 0))]
         /\ text = out ++ sep ++ err /\ (sep = [] \/ sep = [10%N])
         /\ (sep = [] <-> out = [] \/ err = [] \/ endswith out [10%N] = true
                          \/ startswith err [10%N] = true)).
Proof.
  op_cases; intros text [= <-].
  all: match goal with E : raise_for_docker_error _ _ = Ok _ |- _ =>
         apply raise_for_docker_error_ok in E as -> end.
  all: edestruct concat_streams_spec as (sep & -> & Hsep); do 5 eexists; exists sep; by split.
Qed.

(** A created container is described by the non-empty last line of the output of the create
    command as its identifier, the image of the request, and its name or, without one, the
    identifier. *)
Theorem created_container_is_last_line request :
  wp (create_container request) [] (fun _ _ => True)
    (fun h r => forall dto, r = Ok dto ->
       exists node cmd out err,
         outcomes h = [(node, cmd, 120%Z, Ok (Build_DockerExecResultDTO out err 0))]
         /\ cd_id dto = last_line out /\ cd_id dto <> [] /\ cd_image dto = cq_image request
         /\ cd_name dto = (match cq_name request with Some n => n | None => cd_id dto end)).
Proof.
  op_cases; intros dto [= <-].
  all: match goal with E : raise_for_docker_error _ _ = Ok _ |- _ =>
         apply raise_for_docker_error_ok in E as -> end.
  all: do 4 eexists; cbn; split; [reflexivity|].
  all: match goal with E : normalize_create _ = Ok _ |- _ => pose proof (normalize_create_ok _ _ E) as
         (Hi & Hn & _) end.
  all: split_and!; try done; [by intros Heq; rewrite Heq in *|].
  all: rewrite Hn; destruct (cq_name request) as [[|c n]|] eqn:En; try done.
  all: by apply normalize_create_name in E.
Qed.
End spec.

(** A reference that would be read as an option is refused before any call. *)
Lemma container_invalid_input_witness :
  exists e, @op_validate ascii_only plain_host (OpInspect #"-rf") = Raise e
            /\ @run_op ascii_only plain_host 7 (OpInspect #"-rf") = Done (Raise e).
Proof.
  eexists. split; [vm_compute; reflexivity|].
  apply (@container_invalid_input_reaches_nothing ascii_only plain_host 7 (OpInspect #"-rf")).
  vm_compute. reflexivity.
Defined.
