(* ===== verification/Bulk.v ===== *)
(** * Bulk Docker operations ([app/application/services/docker/bulk_service.py])

    [DockerBulkService]: resolve the targets, load them one by one, run one worker
    per loaded target under [asyncio.gather], and put the results back in the
    order of the request.  [sched] is the interleaving of the workers. *)
From stdpp Require Import sorting.
From S2P Require Import Prelude PyStr Shlex Errors Validation Json Effects Dto Ports DockerCore.

Section bulk.
Context `{Unicode}.

(** A target ready to run: its position, its identifier as text, its connection. *)
Definition prepared_target : Type := nat * pystr * NodeConnectionDTO.

Definition node_error (node_id : pystr) (error : pystr) : BulkDockerNodeResultDTO :=
  {| bn_node_id := node_id; bn_node_name := #"unknown"; bn_status := Error;
     bn_output := []; bn_error := error |}.
Definition pull_error (node_id : pystr) (error : pystr) : BulkDockerPullResultDTO :=
  {| bp_node_id := node_id; bp_node_name := #"unknown"; bp_status := Error;
     bp_output := []; bp_error := error |}.

(** ** Preparation *)

(** [except NodeNotFoundError: ... except (ValueError, DockerError) as exc: ...]. *)
Definition prepare_handler (node_id : uuid) (exc : exn) : option BulkDockerNodeResultDTO :=
  if isinstance (exn_type exc) NodeNotFoundError
  then Some (node_error (uuid_str node_id) #"Node not found")
  else if isinstance (exn_type exc) ValueError || isinstance (exn_type exc) DockerError
  then Some (node_error (uuid_str node_id) (sanitize_bulk_error exc))
  else None.

Fixpoint prepare_go (index : nat) (node_ids : list uuid) (prepared : list prepared_target)
    (errors : list (nat * BulkDockerNodeResultDTO))
    : prog (list prepared_target * list (nat * BulkDockerNodeResultDTO)) :=
  match node_ids with
  | [] => mret (prepared, errors)
  | node_id :: node_ids =>
      outcome ← try_except (node ← get_target node_id; mret (inl node))
        (fun exc => (fun r => Done (Ok (inr r))) <$> prepare_handler node_id exc);
      match outcome with
      | inl node => prepare_go (S index) node_ids (prepared ++ [(index, uuid_str node_id, node)]) errors
      | inr result => prepare_go (S index) node_ids prepared (dict_set errors index result)
      end
  end.
Definition _prepare (node_ids : list uuid)
    : prog (list prepared_target * list (nat * BulkDockerNodeResultDTO)) :=
  prepare_go 0 node_ids [] [].

(** The [seen] loop of [_resolve_node_ids]. *)
Fixpoint dedup_go (seen ids : list uuid) : list uuid :=
  match ids with
  | [] => []
  | node_id :: ids =>
      if decide (node_id ∈ seen) then dedup_go seen ids
      else node_id :: dedup_go (node_id :: seen) ids
  end.

Definition _resolve_node_ids (node_ids : list uuid) (node_tags : list pystr) : prog (list uuid) :=
  match node_tags with
  | [] => mret node_ids
  | _ =>
      tag_nodes ← try_except (get_targets_by_tags node_tags) (on_exception (fun _ => mret []));
      let tag_ids := n_id <$> List.filter n_is_docker_available tag_nodes in
      mret (dedup_go [] (node_ids ++ tag_ids))
  end.

(** ** Collection *)

(** [for (index, _, _), result in zip(prepared, remote_results, strict=True)]. *)
Fixpoint zip_results {R} (errors : list (nat * R)) (prepared : list prepared_target) (remote : list R)
    : res (list (nat * R)) :=
  match prepared, remote with
  | [], [] => Ok errors
  | (index, _, _) :: prepared, result :: remote =>
      zip_results (dict_set errors index result) prepared remote
  | _, _ => raise ValueError #"zip() arguments have different lengths"
  end.

(** [sorted(d)] and [[d[i] for i in sorted(d)]]. *)
Definition sorted_keys {R} (d : list (nat * R)) : list nat := merge_sort le (fst <$> d).
Definition in_key_order {R} (d : list (nat * R)) : list R :=
  omap (fun i => dict_get d i) (sorted_keys d).

Definition _finalize {R} (prepared : list prepared_target) (errors : list (nat * R)) (remote : list R)
    : res (list R) :=
  merged ← zip_results errors prepared remote;
  Ok (in_key_order merged).

Definition _response (action : pystr) (results : list BulkDockerNodeResultDTO) : BulkDockerResultDTO :=
  let succeeded := count (fun r => bool_decide (bn_status r = Success)) results in
  {| bk_action := action; bk_results := results; bk_total := Z.of_nat (length results);
     bk_succeeded := succeeded; bk_failed := Z.of_nat (length results) - succeeded |}.

(** The same tail in the three image operations: errors are copied into pull results. *)
Definition to_pull (r : BulkDockerNodeResultDTO) : BulkDockerPullResultDTO :=
  {| bp_node_id := bn_node_id r; bp_node_name := bn_node_name r; bp_status := bn_status r;
     bp_output := bn_output r; bp_error := bn_error r |}.
Definition pull_response (results : list BulkDockerPullResultDTO) : BulkDockerPullResultsDTO :=
  let succeeded := count (fun r => bool_decide (bp_status r = Success)) results in
  {| bu_results := results; bu_total := Z.of_nat (length results);
     bu_succeeded := succeeded; bu_failed := Z.of_nat (length results) - succeeded |}.

(** ** Workers *)

(** [if exit_code != 0 and stderr: error ... success]. *)
Definition strict_result (node_id : pystr) (node : NodeConnectionDTO) (stdout stderr : pystr)
    (exit_code : Z) : BulkDockerNodeResultDTO :=
  if negb (exit_code =? 0)%Z && negb (str_eqb stderr []) then
    {| bn_node_id := node_id; bn_node_name := n_name node; bn_status := Error;
       bn_output := []; bn_error := strip stderr |}
  else
    {| bn_node_id := node_id; bn_node_name := n_name node; bn_status := Success;
       bn_output := strip stdout; bn_error := [] |}.

(** [status="success" if exit_code == 0 else "error"]. *)
Definition status_of (exit_code : Z) : bulk_status := if (exit_code =? 0)%Z then Success else Error.
Definition plain_result (node_id : pystr) (node : NodeConnectionDTO) (stdout stderr : pystr)
    (exit_code : Z) : BulkDockerNodeResultDTO :=
  {| bn_node_id := node_id; bn_node_name := n_name node; bn_status := status_of exit_code;
     bn_output := strip stdout;
     bn_error := if (exit_code =? 0)%Z then [] else strip stderr |}.
Definition logs_result (node_id : pystr) (node : NodeConnectionDTO) (stdout stderr : pystr)
    (exit_code : Z) : BulkDockerNodeResultDTO :=
  {| bn_node_id := node_id; bn_node_name := n_name node; bn_status := status_of exit_code;
     bn_output := match strip stdout with [] => strip stderr | s => s end;
     bn_error := if negb (exit_code =? 0)%Z && negb (str_eqb stderr []) then strip stderr else [] |}.

(** The [try] block of a worker: [command] may raise before anything is executed. *)
Definition worker_body (command : res pystr) (timeout : Z) (node : NodeConnectionDTO)
    (result : pystr -> pystr -> Z -> BulkDockerNodeResultDTO) : prog BulkDockerNodeResultDTO :=
  cmd ← lift command;
  '(stdout, stderr, exit_code) ← execute node cmd timeout;
  mret (result stdout stderr exit_code).
Definition worker (command : NodeConnectionDTO -> res pystr) (timeout : Z)
    (result : pystr -> NodeConnectionDTO -> pystr -> pystr -> Z -> BulkDockerNodeResultDTO)
    (target : prepared_target) : prog BulkDockerNodeResultDTO :=
  let '(_, node_id, node) := target in
  try_except (worker_body (command node) timeout node (result node_id node))
    (on_exception (fun exc => mret (node_error node_id (sanitize_bulk_error exc)))).

(** ** Operations *)

Definition action_args (validated_id action : pystr) (timeout : option Z) : res pystr :=
  if str_eqb action #"start" then Ok (#"start " ++ validated_id)
  else if bool_decide (action ∈ [ #"stop"; #"restart"]) then
    let timeout_val := match timeout with Some t => t | None => 10%Z end in
    Ok (action ++ #" -t " ++ str_Z timeout_val ++ #" " ++ validated_id)
  else if str_eqb action #"remove" then Ok (#"rm -f " ++ validated_id)
  else raise DockerError (#"Unknown action: " ++ action).

(** The body the operations share: resolve, prepare, gather, finalise.  [convert]
    is the copy of preparation errors into the operation's result type. *)
Definition bulk_collect {R} (convert : BulkDockerNodeResultDTO -> R) (sched : list nat)
    (node_ids : list uuid) (node_tags : list pystr) (w : prepared_target -> prog R) : prog (list R) :=
  resolved_ids ← _resolve_node_ids node_ids node_tags;
  '(prepared, errors) ← _prepare resolved_ids;
  remote ← gather sched (w <$> prepared);
  lift (_finalize prepared (prod_map id convert <$> errors) remote).
Definition bulk_run (sched : list nat) (node_ids : list uuid) (node_tags : list pystr)
    (w : prepared_target -> prog BulkDockerNodeResultDTO) : prog (list BulkDockerNodeResultDTO) :=
  bulk_collect id sched node_ids node_tags w.

Definition bulk_container_action (sched : list nat) (node_ids : list uuid) (container_id action : pystr)
    (timeout : option Z) (node_tags : list pystr) : prog BulkDockerResultDTO :=
  validated_id ← lift (validate_container_id container_id);
  results ← bulk_run sched node_ids node_tags
    (worker (fun node => args ← action_args validated_id action timeout; Ok (build_docker_command node args))
            default_timeout strict_result);
  mret (_response action results).

Definition bulk_exec (sched : list nat) (node_ids : list uuid) (container_id command : pystr)
    (timeout : Z) (node_tags : list pystr) : prog BulkDockerResultDTO :=
  validated_id ← lift (validate_container_id container_id);
  results ← bulk_run sched node_ids node_tags
    (worker (fun node => Ok (build_docker_command node
               (#"exec " ++ validated_id ++ #" sh -c " ++ quote command))) timeout plain_result);
  mret (_response #"exec" results).

Definition bulk_inspect (sched : list nat) (node_ids : list uuid) (container_id : pystr)
    (node_tags : list pystr) : prog BulkDockerResultDTO :=
  validated_id ← lift (validate_container_id container_id);
  results ← bulk_run sched node_ids node_tags
    (worker (fun node => Ok (build_docker_command node (#"inspect " ++ validated_id)))
            default_timeout plain_result);
  mret (_response #"inspect" results).

Definition bulk_logs (sched : list nat) (node_ids : list uuid) (container_id : pystr) (tail : Z)
    (node_tags : list pystr) : prog BulkDockerResultDTO :=
  validated_id ← lift (validate_container_id container_id);
  results ← bulk_run sched node_ids node_tags
    (worker (fun node => Ok (build_docker_command node
               (#"logs --tail " ++ str_Z tail ++ #" " ++ validated_id))) default_timeout logs_result);
  mret (_response #"logs" results).

Definition bulk_stats (sched : list nat) (node_ids : list uuid) (container_id : pystr)
    (node_tags : list pystr) : prog BulkDockerResultDTO :=
  validated_id ← lift (validate_container_id container_id);
  results ← bulk_run sched node_ids node_tags
    (worker (fun node => Ok (build_docker_command node
               (#"stats --no-stream --format '{{json .}}' " ++ validated_id)))
            default_timeout plain_result);
  mret (_response #"stats" results).

(** The image operations validate inside the worker. *)
Definition pull_worker (command : NodeConnectionDTO -> res pystr) (timeout : Z)
    (target : prepared_target) : prog BulkDockerPullResultDTO :=
  r ← worker command timeout strict_result target; mret (to_pull r).

Definition bulk_image_run (sched : list nat) (node_ids : list uuid) (node_tags : list pystr)
    (w : prepared_target -> prog BulkDockerPullResultDTO) : prog BulkDockerPullResultsDTO :=
  results ← bulk_collect to_pull sched node_ids node_tags w;
  mret (pull_response results).

Definition bulk_pull_image (sched : list nat) (node_ids : list uuid) (image : pystr)
    (timeout : option Z) (node_tags : list pystr) : prog BulkDockerPullResultsDTO :=
  bulk_image_run sched node_ids node_tags
    (pull_worker (fun node => validated_image ← validate_image_name image;
                              Ok (build_docker_command node (#"pull " ++ quote validated_image)))
       (match timeout with Some t => t | None => 300%Z end)).

Definition bulk_image_remove (sched : list nat) (node_ids : list uuid) (image_id : pystr)
    (node_tags : list pystr) : prog BulkDockerPullResultsDTO :=
  bulk_image_run sched node_ids node_tags
    (pull_worker (fun node => validated_image_id ← validate_image_tag image_id;
                              Ok (build_docker_command node (#"rmi -f " ++ quote validated_image_id)))
       default_timeout).

(** [build_args_str]: one flag per argument, or the first invalid key's error. *)
Fixpoint build_args_go (build_args_str : pystr) (build_args : list (pystr * pystr)) : res pystr :=
  match build_args with
  | [] => Ok build_args_str
  | (key, value) :: build_args =>
      validated_key ← validate_build_arg_key key;
      build_args_go (build_args_str ++ #" --build-arg " ++ quote (validated_key ++ #"=" ++ value)) build_args
  end.

Definition bulk_build_command (dockerfile tag : pystr) (build_args : list (pystr * pystr))
    (no_cache : bool) (node : NodeConnectionDTO) : res pystr :=
  validated_tag ← validate_image_tag tag;
  build_args_str ← build_args_go [] build_args;
  let cache_flag := if no_cache then #" --no-cache" else [] in
  let args := #"build" ++ cache_flag ++ build_args_str ++ #" -t " ++ quote validated_tag ++ #" -" in
  Ok (piped dockerfile (build_docker_command node args)).

Definition bulk_image_build (sched : list nat) (node_ids : list uuid) (dockerfile tag : pystr)
    (build_args : list (pystr * pystr)) (no_cache : bool) (timeout : option Z)
    (node_tags : list pystr) : prog BulkDockerPullResultsDTO :=
  bulk_image_run sched node_ids node_tags
    (pull_worker (bulk_build_command dockerfile tag build_args no_cache)
       (match timeout with Some t => t | None => 300%Z end)).
End bulk.
