(* ===== verification/BulkSpec.v ===== *)
(** * What the bulk operations promise

    Results come back one per target and in the order of the targets, whatever
    the interleaving of the workers; the counters add up; a node's failure is a
    result, not an exception; and every command sent means the intended words. *)
From stdpp Require Import sorting.
From S2P Require Import Prelude PyStr Shlex Errors Validation Json Effects Dto Ports DockerCore Bulk.

(** ** Preparation and finalisation as position-wise functions *)

(** What preparation found at each position: a target, or the error result. *)
Definition slot : Type := NodeConnectionDTO + BulkDockerNodeResultDTO.

Fixpoint slots_prepared (i : nat) (ids : list uuid) (ss : list slot) : list prepared_target :=
  match ids, ss with
  | id :: ids, inl n :: ss => (i, uuid_str id, n) :: slots_prepared (S i) ids ss
  | _ :: ids, inr _ :: ss => slots_prepared (S i) ids ss
  | _, _ => []
  end.
Fixpoint slots_errors (i : nat) (ss : list slot) : list (nat * BulkDockerNodeResultDTO) :=
  match ss with
  | inl _ :: ss => slots_errors (S i) ss
  | inr r :: ss => (i, r) :: slots_errors (S i) ss
  | [] => []
  end.
(** Remote results fill the positions of the prepared targets, in order. *)
Fixpoint fill {R} (conv : BulkDockerNodeResultDTO -> R) (ss : list slot) (remote : list R) : list R :=
  match ss, remote with
  | inl _ :: ss, r :: remote => r :: fill conv ss remote
  | inl _ :: ss, [] => []
  | inr r :: ss, _ => conv r :: fill conv ss remote
  | [], _ => []
  end.

(** [sorted] of the keys [0 .. n-1] in any order. *)
Lemma sorted_keys_seq {R} (d : list (nat * R)) n :
  NoDup d.*1 -> (forall k, k ∈ d.*1 <-> k < n) -> sorted_keys d = seq 0 n.
Proof.
  intros Hnd Hk. unfold sorted_keys. apply (Sorted_unique le).
  - apply Sorted_merge_sort; [intros ? ?; lia].
  - apply StronglySorted_Sorted. clear. generalize 0. induction n as [|n IH]; intros k; cbn; [constructor|].
    constructor; [apply IH|]. apply Forall_forall. intros x Hx%elem_of_seq. lia.
  - rewrite merge_sort_Permutation. apply NoDup_Permutation; [done|apply NoDup_seq|].
    intros k. rewrite Hk, elem_of_seq. lia.
Qed.

Section finalize.
Context {R : Type} (conv : BulkDockerNodeResultDTO -> R).

(** The errors of the slots from position [i] on are in the dict. *)
Fixpoint errors_in (d : list (nat * R)) (i : nat) (ss : list slot) : Prop :=
  match ss with
  | [] => True
  | inl _ :: ss => errors_in d (S i) ss
  | inr r :: ss => dict_get d i = Some (conv r) /\ errors_in d (S i) ss
  end.
(** ... and so are the remote results. *)
Fixpoint agrees (d : list (nat * R)) (i : nat) (ss : list slot) (remote : list R) : Prop :=
  match ss, remote with
  | [], _ => True
  | inl _ :: ss, r :: remote => dict_get d i = Some r /\ agrees d (S i) ss remote
  | inl _ :: _, [] => False
  | inr r :: ss, _ => dict_get d i = Some (conv r) /\ agrees d (S i) ss remote
  end.

Lemma errors_in_set d i ss k v : k < i -> errors_in d i ss -> errors_in (dict_set d k v) i ss.
Proof.
  revert i. induction ss as [|[n|r] ss IH]; intros i Hk; cbn; [done|auto with lia|].
  intros [Hr Hs]. split; [rewrite dict_get_set_ne by lia; done|]. apply IH; [lia|done].
Qed.

Lemma errors_in_elem d i ss :
  (forall k r, (k, r) ∈ slots_errors i ss -> dict_get d k = Some (conv r)) -> errors_in d i ss.
Proof.
  revert i. induction ss as [|[n|r] ss IH]; intros i Hd; cbn in *; [done|auto|].
  split; [apply Hd; by left|]. apply IH. intros k r' Hin. apply Hd. by right.
Qed.

Lemma agrees_fill d i ss remote :
  agrees d i ss remote -> omap (dict_get d) (seq i (length ss)) = fill conv ss remote.
Proof.
  revert i remote. induction ss as [|[n|r] ss IH]; intros i remote; cbn; [by destruct remote| |].
  - destruct remote as [|x remote]; [done|]. intros [-> Ha]. by rewrite (IH _ remote).
  - intros [-> Ha]. rewrite (IH _ remote) by done. by destruct remote.
Qed.

Lemma zip_results_agrees i ids ss remote errors :
  length ids = length ss -> length remote = length (slots_prepared i ids ss) ->
  errors_in errors i ss -> NoDup errors.*1 ->
  exists d, zip_results errors (slots_prepared i ids ss) remote = Ok d
    /\ agrees d i ss remote /\ NoDup d.*1
    /\ (forall k, k < i -> dict_get d k = dict_get errors k)
    /\ (forall k, k ∈ d.*1 <-> k ∈ errors.*1 \/ k ∈ ((fun p => p.1.1) <$> slots_prepared i ids ss)).
Proof.
  revert i ids remote errors.
  induction ss as [|[n|r] ss IH]; intros i [|id ids] remote errors Hids Hlen He Hnd;
    try discriminate Hids; cbn in *; try injection Hids as Hids.
  - destruct remote; [|done]. exists errors. cbn. split_and!; try done. intros k. rewrite elem_of_nil. tauto.
  - destruct remote as [|x remote]; [done|]. injection Hlen as Hlen. cbn.
    destruct (IH (S i) ids remote (dict_set errors i x)) as (d & Hz & Ha & Hd & Hlt & Hk);
      [done|done|apply errors_in_set; [lia|done]|by apply dict_set_NoDup|].
    exists d. split_and!; try done.
    + rewrite Hlt by lia. apply dict_get_set_eq.
    + intros k ?. rewrite Hlt by lia. rewrite dict_get_set_ne by lia. done.
    + intros k. rewrite Hk, elem_of_dict_set, elem_of_cons. tauto.
  - destruct He as [Hi He].
    destruct (IH (S i) ids remote errors) as (d & Hz & Ha & Hd & Hlt & Hk); [done..|].
    exists d. split_and!; try done; [|by intros; apply Hlt; lia].
    by rewrite Hlt by lia.
Qed.

Lemma slots_errors_keys i ss : NoDup (slots_errors i ss).*1 /\ forall k, k ∈ (slots_errors i ss).*1 -> i <= k.
Proof.
  revert i. induction ss as [|[n|r] ss IH]; intros i; cbn; [split; [constructor|set_solver]| |].
  - destruct (IH (S i)) as [Hnd Hk]. split; [done|]. intros k ?%Hk. lia.
  - destruct (IH (S i)) as [Hnd Hk]. split.
    + constructor; [|done]. intros ?%Hk. lia.
    + intros k [->|?%Hk]%elem_of_cons; lia.
Qed.

Lemma slots_keys i ids ss k :
  length ids = length ss ->
  k ∈ (slots_errors i ss).*1 \/ k ∈ ((fun p => p.1.1) <$> slots_prepared i ids ss) <-> i <= k < i + length ss.
Proof.
  revert i ids. induction ss as [|[n|r] ss IH]; intros i [|id ids] Hl;
    try discriminate Hl; cbn in *; try injection Hl as Hl.
  - rewrite !elem_of_nil. lia.
  - rewrite elem_of_cons. specialize (IH (S i) ids Hl).
    transitivity (k = i \/ S i <= k < S i + length ss); [rewrite <- IH; tauto|lia].
  - rewrite elem_of_cons. specialize (IH (S i) ids Hl).
    transitivity (k = i \/ S i <= k < S i + length ss); [rewrite <- IH; tauto|lia].
Qed.

(** [_finalize] puts every result back at its target's position. *)
Lemma finalize_fill ids ss remote :
  length ids = length ss -> length remote = length (slots_prepared 0 ids ss) ->
  _finalize (slots_prepared 0 ids ss) (prod_map id conv <$> slots_errors 0 ss) remote
  = Ok (fill conv ss remote).
Proof.
  intros Hids Hlen. destruct (slots_errors_keys 0 ss) as [Hnd _].
  set (errors := prod_map id conv <$> slots_errors 0 ss).
  assert (errors.*1 = (slots_errors 0 ss).*1) as Hkeys
    by (unfold errors; rewrite <- list_fmap_compose; by apply list_fmap_ext).
  assert (errors_in errors 0 ss) as He.
  { apply errors_in_elem. intros k r Hin. apply dict_get_NoDup; [by rewrite Hkeys|].
    unfold errors. apply list_elem_of_fmap. by exists (k, r). }
  destruct (zip_results_agrees 0 ids ss remote errors) as (d & Hz & Ha & Hd & _ & Hk);
    [done..|by rewrite Hkeys|].
  unfold _finalize. rewrite Hz. cbn. f_equal. unfold in_key_order.
  rewrite (sorted_keys_seq d (length ss)); [by apply agrees_fill|done|].
  intros k. rewrite Hk, Hkeys, slots_keys by done. lia.
Qed.
End finalize.

Section spec.
Context `{Unicode}.

(** ** Preparation *)

(** The exceptions preparation turns into results. *)
Definition handled (e : exn) : bool :=
  isinstance (exn_type e) NodeNotFoundError || isinstance (exn_type e) ValueError
  || isinstance (exn_type e) DockerError.

Definition slot_of (id : uuid) (s : slot) : Prop :=
  match s with
  | inl node => n_is_docker_available node = true
  | inr r => bn_node_id r = uuid_str id /\ bn_status r = Error
  end.

Lemma prepare_handler_cases id e :
  match prepare_handler id e with
  | Some r => handled e = true /\ slot_of id (inr r)
  | None => handled e = false
  end.
Proof.
  unfold prepare_handler, handled. destruct (isinstance _ NodeNotFoundError); [done|].
  by destruct (isinstance _ ValueError), (isinstance _ DockerError).
Qed.

(** A read of the node store. *)
Definition is_lookup (c : call) : Prop :=
  match c with GetConnection _ | GetConnectionsByTags _ => True | _ => False end.

Lemma prepare_go_spec i ids prepared errors :
  (forall k, k ∈ errors.*1 -> k < i) ->
  local_spec is_lookup
    (fun r => match r with
              | Ok (prepared', errors') => exists ss, Forall2 slot_of ids ss
                  /\ prepared' = prepared ++ slots_prepared i ids ss
                  /\ errors' = errors ++ slots_errors i ss
              | Raise e => handled e = false
              end)
    (prepare_go i ids prepared errors).
Proof.
  revert i prepared errors. induction ids as [|id ids IH]; intros i prepared errors Hk h.
  { exists []. cbn. rewrite !app_nil_r. split_and!; done || constructor. }
  cbn [prepare_go]. repeat wp_step.
  - done.
  - eapply wp_mono; [by apply IH; intros k ?%Hk; lia|done|].
    intros _ [[p' e']|e]; [|done]. intros (ss & HF & -> & ->). exists (inl node :: ss).
    cbn. rewrite <- app_assoc. split_and!; [by constructor|done..].
  - pose proof (prepare_handler_cases id e) as Hh.
    destruct (prepare_handler id e) as [r|]; [|done]. cbn.
    destruct Hh as [_ Hr]. eapply wp_mono; [apply IH|done|].
    + intros k [->|?%Hk]%elem_of_dict_set; lia.
    + intros _ [[p' e']|e']; [|done]. intros (ss & HF & -> & ->). exists (inr r :: ss).
      rewrite dict_set_app by (intros ?%Hk; lia). rewrite <- app_assoc.
      split_and!; [by constructor|done..].
Qed.

Lemma prepare_spec ids :
  local_spec is_lookup
    (fun r => match r with
              | Ok (prepared, errors) => exists ss, Forall2 slot_of ids ss
                  /\ prepared = slots_prepared 0 ids ss /\ errors = slots_errors 0 ss
              | Raise e => handled e = false
              end)
    (_prepare ids).
Proof. apply (prepare_go_spec 0 ids [] []). cbn. intros k ?%elem_of_nil. done. Qed.

(** ** Target resolution *)

(** Each element where it occurs first. *)
Fixpoint first_occurrences (l : list uuid) : list uuid :=
  match l with [] => [] | x :: l => x :: filter (fun y => y <> x) (first_occurrences l) end.
Lemma dedup_go_spec seen ids : dedup_go seen ids = filter (fun x => x ∉ seen) (first_occurrences ids).
Proof.
  revert seen. induction ids as [|id ids IH]; intros seen; cbn [dedup_go first_occurrences]; [done|]. rewrite filter_cons, list_filter_filter.
  destruct (decide (id ∈ seen)) as [Hin|Hin]; rewrite IH.
  - rewrite decide_False by tauto. apply list_filter_iff. intros x. split; [|tauto]. intros Hx. split; [done|]. by intros ->.
  - rewrite decide_True by done. f_equal. apply list_filter_iff. intros x. rewrite not_elem_of_cons. tauto.
Qed.
Lemma dedup_go_all ids : dedup_go [] ids = first_occurrences ids.
Proof.
  rewrite dedup_go_spec. induction (first_occurrences ids) as [|x l IH]; [done|]. rewrite filter_cons_True, IH; [done|apply not_elem_of_nil].
Qed.

(** The nodes the first call found by their tags: none when it failed. *)
Definition tagged_nodes (k : history) : list NodeConnectionDTO :=
  match k with existT (GetConnectionsByTags _) (Ok nodes) :: _ => nodes | _ => [] end.
(** The resolved targets: those of the request, followed by the nodes with one of the tags that
    run Docker; where there are tags, each once. *)
Definition targets (node_ids : list uuid) (node_tags : list pystr) (k : history) : list uuid :=
  match node_tags with
  | [] => node_ids
  | _ => first_occurrences (node_ids ++ (n_id <$> filter (fun node => n_is_docker_available node = true) (tagged_nodes k)))
  end.

Lemma filter_bool {A} (f : A -> bool) l : List.filter f l = filter (fun x => f x = true) l.
Proof.
  induction l as [|x l IH]; [done|]. cbn [List.filter]. rewrite filter_cons, IH. destruct (f x) eqn:E; [by rewrite decide_True|by rewrite decide_False].
Qed.
(** The first call, of a request with tags, is the look-up. *)
Definition looked_up (node_tags : list pystr) (k : history) : Prop := node_tags <> [] -> exists ev k', k = ev :: k' /\ called ev = GetConnectionsByTags node_tags.
Lemma targets_app node_ids node_tags k k' : looked_up node_tags k -> targets node_ids node_tags (k ++ k') = targets node_ids node_tags k.
Proof. intros Hk. destruct node_tags as [|t ts]; [done|]. by destruct Hk as (ev & k0 & -> & _). Qed.
Lemma resolve_spec node_ids node_tags h :
  wp (_resolve_node_ids node_ids node_tags) h (fun _ => is_lookup)
    (fun h' r => exists k, h' = h ++ k /\ looked_up node_tags k /\
       match r with
       | Ok ids => ids = targets node_ids node_tags k
       | Raise e => isinstance (exn_type e) Exception_ = false
       end).
Proof.
  unfold _resolve_node_ids. destruct node_tags as [|t ts].
  { exists []. split_and!; [by rewrite app_nil_r|by intros []|done]. }
  repeat wp_step; try done; eexists; (split; [done|]); (split; [by do 2 eexists|]); try done.
  all: by rewrite dedup_go_all, filter_bool.
Qed.

(** ** The shared body *)

Lemma slots_prepared_available i ids ss t :
  Forall2 slot_of ids ss -> t ∈ slots_prepared i ids ss -> n_is_docker_available t.2 = true.
Proof.
  intros HF. revert i. induction HF as [|id s ids ss Hs HF IH]; intros i Ht; cbn in Ht.
  - by apply elem_of_nil in Ht.
  - destruct s as [n|r]; [|by eapply IH]. apply elem_of_cons in Ht as [->|Ht]; [done|by eapply IH].
Qed.

Lemma handled_exception e : handled e = true -> isinstance (exn_type e) Exception_ = true.
Proof.
  destruct e as [c m]. unfold handled. cbn [exn_type].
  destruct c; vm_compute; intros; by simplify_eq.
Qed.

Lemma bulk_collect_spec {R} (conv : BulkDockerNodeResultDTO -> R) sched node_ids node_tags w
    (P : call -> Prop) (Q : prepared_target -> res R -> Prop) h :
  (forall c, is_lookup c -> P c) -> (forall t, n_is_docker_available t.2 = true -> local_spec P (Q t) (w t)) ->
  wp (bulk_collect conv sched node_ids node_tags w) h (fun _ => P)
    (fun h' r => exists k, h' = h ++ k /\
       match r with
       | Ok l => exists ss remote, let ids := targets node_ids node_tags k in Forall2 slot_of ids ss
           /\ Forall2 (fun t a => Q t (Ok a)) (slots_prepared 0 ids ss) remote
           /\ l = fill conv ss remote
       | Raise e => handled e = false \/ exists t, Q t (Raise e)
       end).
Proof.
  intros HP Hw. unfold bulk_collect. apply wp_bind.
  eapply wp_mono; [apply resolve_spec|auto|]. cbn beta. intros h1 [ids|e] (k & -> & Hk & Hr); cbn beta iota.
  2: { exists k. split; [done|]. left. destruct (handled e) eqn:E; [|done]. apply handled_exception in E. congruence. }
  apply wp_bind. eapply wp_mono; [apply wp_conj; [apply prepare_spec|apply wp_extends]|by intros ? ? [? _]; auto|].
  cbn beta. intros h2 [[prepared errors]|e] [Hp [k2 ->]]; cbn beta iota; [|exists (k ++ k2); rewrite app_assoc; auto].
  destruct Hp as (ss & HF & -> & ->). apply wp_bind.
  eapply wp_mono; [apply wp_conj; [apply (local_gather sched P Q)|apply wp_extends]|by intros ? ? [? _]; auto|].
  - intros t Ht. apply Hw. apply (slots_prepared_available 0 ids ss); [|done].
    eapply Forall2_impl; [exact HF|done].
  - cbn beta. intros h3 [remote|e] [Hremote [k3 ->]]; cbn beta iota.
    2: { exists (k ++ k2 ++ k3). rewrite !app_assoc. split; [done|]. destruct Hremote as (t & _ & Ht). eauto. }
    apply wp_lift. exists (k ++ k2 ++ k3). rewrite <- !app_assoc. split; [done|].
    rewrite finalize_fill; [|by eapply Forall2_length|symmetry; by eapply Forall2_length].
    exists ss, remote. rewrite targets_app by done. by subst ids.
Qed.

(** Every position carries the identifier of its target. *)
Lemma fill_ids {R} (conv : BulkDockerNodeResultDTO -> R) (node_id : R -> pystr)
    (Q : prepared_target -> R -> Prop) i ids ss remote :
  (forall r, node_id (conv r) = bn_node_id r) ->
  (forall t r, Q t r -> node_id r = t.1.2) ->
  Forall2 slot_of ids ss -> Forall2 Q (slots_prepared i ids ss) remote ->
  Forall2 (fun id r => node_id r = uuid_str id) ids (fill conv ss remote).
Proof.
  intros Hconv HQ HF. revert i remote. induction HF as [|id s ids ss Hs HF IH]; intros i remote Hr.
  - cbn. constructor.
  - destruct s as [n|r]; cbn in *.
    + inversion Hr as [|? x ? remote' Hx Hrest]; subst. constructor; [by apply HQ in Hx|].
      by eapply IH.
    + replace (match remote with [] | _ => conv r :: fill conv ss remote end)
        with (conv r :: fill conv ss remote) by by destruct remote.
      constructor; [|by eapply IH]. rewrite Hconv. by destruct Hs.
Qed.

(** ** Workers *)

(** A worker's outcome: the rendering of what its command printed, the sanitised
    failure, or an exception outside [Exception]. *)
Definition worker_outcome (result : pystr -> NodeConnectionDTO -> pystr -> pystr -> Z -> BulkDockerNodeResultDTO)
    (t : prepared_target) (r : res BulkDockerNodeResultDTO) : Prop :=
  (exists out err code, r = Ok (result t.1.2 t.2 out err code))
  \/ (exists e, isinstance (exn_type e) Exception_ = true /\ r = Ok (node_error t.1.2 (sanitize_bulk_error e)))
  \/ (exists e, isinstance (exn_type e) Exception_ = false /\ r = Raise e).

Lemma worker_spec (P : call -> Prop) command timeout result t :
  (forall cmd, command t.2 = Ok cmd -> P (Execute t.2 cmd timeout)) ->
  local_spec P (worker_outcome result t) (worker command timeout result t).
Proof.
  intros HP h. unfold worker, worker_body. destruct t as [[i nid] node]. cbn in HP.
  repeat wp_step.
  all: try (right; left; by eauto).
  all: try (right; right; by eauto).
  - by apply HP.
  - left. by exists out, err, code.
Qed.

Lemma worker_outcome_error result t e : worker_outcome result t (Raise e) -> handled e = false.
Proof.
  intros [(? & ? & ? & ?)|[(? & ? & ?)|(e' & He & [= ->])]]; [done..|].
  destruct (handled e') eqn:E; [|done]. apply handled_exception in E. congruence.
Qed.

(** ** The container operations *)

Inductive bulk_op :=
| BAction (action : pystr) (timeout : option Z)
| BExec (command : pystr) (timeout : Z)
| BInspect
| BLogs (tail : Z)
| BStats.

Definition run_bulk (sched : list nat) (node_ids : list uuid) (node_tags : list pystr)
    (container_id : pystr) (op : bulk_op) : prog BulkDockerResultDTO :=
  match op with
  | BAction action timeout => bulk_container_action sched node_ids container_id action timeout node_tags
  | BExec command timeout => bulk_exec sched node_ids container_id command timeout node_tags
  | BInspect => bulk_inspect sched node_ids container_id node_tags
  | BLogs tail => bulk_logs sched node_ids container_id tail node_tags
  | BStats => bulk_stats sched node_ids container_id node_tags
  end.

(** The words of the command each target gets; an unknown action has none. *)
Definition bulk_argv (container_id : pystr) (op : bulk_op) : option (list pystr) :=
  match op with
  | BAction action timeout =>
      if str_eqb action #"start" then Some [ #"start"; container_id]
      else if bool_decide (action ∈ [ #"stop"; #"restart"])
      then Some [action; #"-t"; str_Z (default 10%Z timeout); container_id]
      else if str_eqb action #"remove" then Some [ #"rm"; #"-f"; container_id]
      else None
  | BExec command _ => Some [ #"exec"; container_id; #"sh"; #"-c"; command]
  | BInspect => Some [ #"inspect"; container_id]
  | BLogs tail => Some [ #"logs"; #"--tail"; str_Z tail; container_id]
  | BStats => Some [ #"stats"; #"--no-stream"; #"--format"; #"{{json .}}"; container_id]
  end.

(** Lookups, and executions of the intended words on nodes that run Docker. *)
Definition bulk_call (container_id : pystr) (op : bulk_op) (c : call) : Prop :=
  match c with
  | GetConnection _ | GetConnectionsByTags _ => True
  | Execute node cmd _ => n_is_docker_available node = true
      /\ exists argv, bulk_argv container_id op = Some argv /\ docker_words node argv cmd
  | _ => False
  end.

Lemma is_lookup_bulk_call c op x : is_lookup x -> bulk_call c op x.
Proof. by destruct x. Qed.

(** What a response promises for the targets [ids]. *)
Definition response_for (ids : list uuid) (dto : BulkDockerResultDTO) : Prop :=
  Forall2 (fun id r => bn_node_id r = uuid_str id) ids (bk_results dto)
  /\ bk_total dto = Z.of_nat (length ids)
  /\ bk_succeeded dto = count (fun r => bool_decide (bn_status r = Success)) (bk_results dto)
  /\ (bk_total dto = bk_succeeded dto + bk_failed dto)%Z /\ (0 <= bk_failed dto)%Z.

Lemma response_for_intro action ids l :
  Forall2 (fun id r => bn_node_id r = uuid_str id) ids l -> response_for ids (_response action l).
Proof.
  intros HF. unfold response_for, _response. cbn.
  rewrite (Forall2_length _ _ _ HF). pose proof (count_le_length (fun r => bool_decide (bn_status r = Success)) l).
  split_and!; [done|done|done|lia|lia].
Qed.

(** [h] is the history before the operation, [h'] the one after it. *)
Definition bulk_outcome (node_ids : list uuid) (node_tags : list pystr) (h h' : history) (r : res BulkDockerResultDTO) : Prop :=
  exists k, h' = h ++ k /\
  match r with
  | Ok dto => response_for (targets node_ids node_tags k) dto
  | Raise e => handled e = false
  end.

Lemma bulk_run_outcome sched node_ids node_tags c op action command timeout result h :
  (forall nid node out err code, bn_node_id (result nid node out err code) = nid) ->
  (forall node cmd, command node = Ok cmd ->
     exists argv, bulk_argv c op = Some argv /\ docker_words node argv cmd) ->
  wp (results ← bulk_run sched node_ids node_tags (worker command timeout result);
      mret (_response action results)) h
    (fun _ => bulk_call c op) (bulk_outcome node_ids node_tags h).
Proof.
  intros Hres Hcmd. apply wp_bind.
  eapply wp_mono; [apply (bulk_collect_spec id sched node_ids node_tags _ (bulk_call c op) (worker_outcome result))|done|].
  - apply is_lookup_bulk_call.
  - intros t Ht. apply worker_spec. intros cmd Hc. split; [done|by apply Hcmd].
  - cbn beta. intros h' [l|e] (k & -> & Hr); cbn beta iota.
    + destruct Hr as (ss & remote & Hss & Hremote & ->). apply wp_mret. exists k. split; [done|].
      apply response_for_intro. eapply fill_ids; [done| |done|exact Hremote].
      intros t r [(out & err & code & [= ->])|[(e & _ & [= ->])|(e & _ & ?)]]; [done..|discriminate].
    + exists k. split; [done|]. destruct Hr as [He|[t Ht]]; [done|]. by eapply worker_outcome_error.
Qed.

Lemma Ok_inj {A} (a b : A) : Ok a = Ok b -> a = b.
Proof. by intros [= ->]. Qed.
Ltac bulk_command :=
  let Hc := fresh "Hc" in intros Hc; apply Ok_inj in Hc as <-; eexists; split; [reflexivity|]; apply docker_words_intro;
  rewrite <- ?app_assoc; lex_go.

(** C3: under any interleaving of the workers a bulk container operation returns one result per
    resolved target, in their order, with counters that add up: without tags the targets are the
    nodes of the request, otherwise these and then the tagged nodes that run Docker, as the one
    look-up answered them, each at its first occurrence; it only executes the intended words on
    nodes that run Docker; and the only exceptions that escape are an invalid container
    reference, before any call, or an exception that is not handled by the operation. *)
Theorem bulk_results_in_order sched node_ids node_tags container_id op h :
  wp (run_bulk sched node_ids node_tags container_id op) h
    (fun _ => bulk_call container_id op)
    (fun h' r => bulk_outcome node_ids node_tags h h' r
                 \/ (exists e, validate_container_id container_id = Raise e /\ r = Raise e /\ h' = h)).
Proof.
  destruct (validate_container_id container_id) as [v|e] eqn:Hv.
  2: { assert (run_bulk sched node_ids node_tags container_id op = Done (Raise e)) as ->
         by (destruct op; cbn [run_bulk]; unfold bulk_container_action, bulk_exec, bulk_inspect,
               bulk_logs, bulk_stats; by rewrite Hv).
       right. by exists e. }
  apply (wp_mono _ _ (fun _ => bulk_call container_id op) _ (bulk_outcome node_ids node_tags h));
    [|done|by left].
  destruct (container_id_word _ _ Hv) as (-> & Hp & _).
  destruct op; cbn [run_bulk];
    unfold bulk_container_action, bulk_exec, bulk_inspect, bulk_logs, bulk_stats;
    rewrite Hv; apply wp_bind, wp_lift; cbn beta iota; apply bulk_run_outcome.
  all: try done.
  all: try (by intros; unfold strict_result; destruct (_ && _)).
  all: intros node cmd; try bulk_command.
  unfold action_args, bulk_argv. destruct (str_eqb action #"start"); [bulk_command|].
  case_bool_decide as E2.
  - assert (Piece action action).
    { apply elem_of_cons in E2 as [->|E2%list_elem_of_singleton]; [|subst action];
        (apply piece_safe; [discriminate|vm_compute; reflexivity]). }
    change (match timeout with Some t => t | None => 10%Z end) with (default 10%Z timeout). bulk_command.
  - destruct (str_eqb action #"remove"); [bulk_command|done].
Qed.

(** A bulk worker turns the printed output of its single command into the result of its own
    target; a failure of the command, or of building it, becomes an error result with the
    sanitised message, never an exception of class Exception. *)
Theorem bulk_worker_reports_status command timeout result t :
  wp (worker command timeout result t) [] (fun _ _ => True)
    (fun h r =>
       match outcomes h with
       | [(node, _, _, Ok (Build_DockerExecResultDTO out err code))] =>
           node = t.2 /\ r = Ok (result t.1.2 t.2 out err code)
       | [(_, _, _, Raise e)] => isinstance (exn_type e) Exception_ = true ->
           r = Ok (node_error t.1.2 (sanitize_bulk_error e))
       | [] => exists e, command t.2 = Raise e /\ (isinstance (exn_type e) Exception_ = true ->
           r = Ok (node_error t.1.2 (sanitize_bulk_error e)))
       | _ => False
       end).
Proof.
  unfold worker, worker_body. destruct t as [[i nid] node]. repeat wp_step; cbn; try done.
  all: try (exists e; split; [done|]); intros; congruence.
Qed.

(** A worker of the lifecycle and image operations reports success exactly when its command
    exited with status zero or printed nothing on stderr, so a command that fails silently is
    reported as a success with its output. *)
Theorem bulk_silent_failure_is_success command timeout t :
  wp (worker command timeout strict_result t) [] (fun _ _ => True)
    (fun h r => forall node cmd tm out err code,
       outcomes h = [(node, cmd, tm, Ok (Build_DockerExecResultDTO out err code))] ->
       exists d, r = Ok d
         /\ (bn_status d = Success <-> code = 0%Z \/ err = [])
         /\ (err = [] -> bn_output d = strip out /\ bn_error d = [])).
Proof.
  unfold worker, worker_body. destruct t as [[i nid] node]. repeat wp_step; cbn; try done.
  all: intros ? ? ? ? ? ? Heq; simplify_eq. eexists; split; [done|]. unfold strict_result.
  destruct (Z.eqb_spec code0 0) as [->|Hc]; cbn [negb andb]; [split; [by split; auto|done]|].
  destruct (str_eqb err0 []) eqn:Ee; cbn [negb andb].
  - apply str_eqb_eq in Ee as ->. split; [by split; auto|done].
  - assert (err0 <> []) by by intros ->. cbn. split; [|done]. split; [done|]. by intros [].
Qed.

(** ** The image operations *)

Inductive bulk_image_op :=
| BPull (image : pystr) (timeout : option Z)
| BImageRemove (image_id : pystr)
| BImageBuild (dockerfile tag : pystr) (build_args : list (pystr * pystr)) (no_cache : bool) (timeout : option Z).

Definition run_bulk_image (sched : list nat) (node_ids : list uuid) (node_tags : list pystr)
    (op : bulk_image_op) : prog BulkDockerPullResultsDTO :=
  match op with
  | BPull image timeout => bulk_pull_image sched node_ids image timeout node_tags
  | BImageRemove image_id => bulk_image_remove sched node_ids image_id node_tags
  | BImageBuild dockerfile tag build_args no_cache timeout =>
      bulk_image_build sched node_ids dockerfile tag build_args no_cache timeout node_tags
  end.

Definition build_argv (args : list (pystr * pystr)) : list pystr :=
  '(key, value) ← args; [ #"--build-arg"; key ++ #"=" ++ value].

Definition bulk_image_tokens (node : NodeConnectionDTO) (op : bulk_image_op) : list tok :=
  match op with
  | BPull image _ => W <$> docker_prefix node ++ [ #"pull"; image]
  | BImageRemove image_id => W <$> docker_prefix node ++ [ #"rmi"; #"-f"; image_id]
  | BImageBuild dockerfile tag build_args no_cache _ =>
      [W #"printf"; W #"%s"; W dockerfile; Op 124]
      ++ (W <$> docker_prefix node ++ [ #"build"] ++ (if no_cache then [ #"--no-cache"] else [])
            ++ build_argv build_args
            ++ [ #"-t"; tag; #"-"])
  end.

Definition bulk_image_call (op : bulk_image_op) (c : call) : Prop :=
  match c with
  | GetConnection _ | GetConnectionsByTags _ => True
  | Execute node cmd _ => n_is_docker_available node = true
      /\ sh_lex cmd = Some (bulk_image_tokens node op)
  | _ => False
  end.

Definition pull_response_for (ids : list uuid) (dto : BulkDockerPullResultsDTO) : Prop :=
  Forall2 (fun id r => bp_node_id r = uuid_str id) ids (bu_results dto)
  /\ bu_total dto = Z.of_nat (length ids)
  /\ bu_succeeded dto = count (fun r => bool_decide (bp_status r = Success)) (bu_results dto)
  /\ (bu_total dto = bu_succeeded dto + bu_failed dto)%Z /\ (0 <= bu_failed dto)%Z.

Lemma pull_response_for_intro ids l :
  Forall2 (fun id r => bp_node_id r = uuid_str id) ids l -> pull_response_for ids (pull_response l).
Proof.
  intros HF. unfold pull_response_for, pull_response. cbn.
  rewrite (Forall2_length _ _ _ HF). pose proof (count_le_length (fun r => bool_decide (bp_status r = Success)) l).
  split_and!; [done|done|done|lia|lia].
Qed.

Definition bulk_image_outcome (node_ids : list uuid) (node_tags : list pystr)
    (h h' : history) (r : res BulkDockerPullResultsDTO) : Prop :=
  exists k, h' = h ++ k /\
  match r with
  | Ok dto => pull_response_for (targets node_ids node_tags k) dto
  | Raise e => handled e = false
  end.

Lemma pull_worker_spec (P : call -> Prop) command timeout t :
  (forall cmd, command t.2 = Ok cmd -> P (Execute t.2 cmd timeout)) ->
  local_spec P (fun r => match r with Ok p => bp_node_id p = t.1.2 | Raise e => handled e = false end)
    (pull_worker command timeout t).
Proof.
  intros HP h. apply wp_bind. eapply wp_mono; [by apply (worker_spec P)|done|].
  cbn beta. intros h' [r|e] Hr; cbn beta iota; [|by eapply worker_outcome_error].
  apply wp_mret. destruct Hr as [(out & err & code & [= ->])|[(e & _ & [= ->])|(e & _ & ?)]]; [|done|discriminate].
  cbn. unfold strict_result. by destruct (_ && _).
Qed.

Lemma bulk_image_run_outcome sched node_ids node_tags op command timeout h :
  (forall node cmd, command node = Ok cmd -> sh_lex cmd = Some (bulk_image_tokens node op)) ->
  wp (bulk_image_run sched node_ids node_tags (pull_worker command timeout)) h
    (fun _ => bulk_image_call op) (bulk_image_outcome node_ids node_tags h).
Proof.
  intros Hcmd. unfold bulk_image_run. apply wp_bind.
  eapply wp_mono; [apply (bulk_collect_spec to_pull sched node_ids node_tags _ (bulk_image_call op)
    (fun t r => match r with Ok p => bp_node_id p = t.1.2 | Raise e => handled e = false end))|done|].
  - by intros [].
  - intros t Ht. apply pull_worker_spec. intros cmd Hc. split; [done|by apply Hcmd].
  - cbn beta. intros h' [l|e] (k & -> & Hr); cbn beta iota.
    + destruct Hr as (ss & remote & Hss & Hremote & ->). apply wp_mret. exists k. split; [done|].
      apply pull_response_for_intro.
      by apply (fill_ids to_pull bp_node_id (fun t a => bp_node_id a = t.1.2) 0).
    + exists k. split; [done|]. by destruct Hr as [He|[t Ht]].
Qed.

(** The accumulated [--build-arg] flags. *)
Lemma build_args_go_ok acc args flags :
  build_args_go acc args = Ok flags ->
  flags = acc ++ concat ((fun kv => #" " ++ flag_of #"--build-arg" (kv.1 ++ #"=" ++ kv.2)) <$> args).
Proof.
  revert acc. induction args as [|[k v] args IH]; intros acc; cbn; [intros [= <-]; by rewrite app_nil_r|].
  destruct (validate_build_arg_key k) as [k'|] eqn:E; cbn; [|done].
  apply require_full_ok in E as [-> _]. intros ->%IH. rewrite <- !app_assoc. do 2 f_equal.

Qed.

Lemma build_argv_groups args :
  concat ((fun kv : pystr * pystr => [W #"--build-arg"; W (kv.1 ++ #"=" ++ kv.2)]) <$> args)
  = W <$> build_argv args.
Proof.
  induction args as [|[k v] args IH]; [done|].
  change (build_argv ((k, v) :: args)) with ([ #"--build-arg"; k ++ #"=" ++ v] ++ build_argv args).
  by rewrite fmap_app, <- IH.
Qed.

Lemma build_lex (no_cache : bool) (args : list (pystr * pystr)) tag :
  Lexes
    (#"build" ++ (if no_cache then #" --no-cache" else [])
     ++ concat ((fun kv => #" " ++ flag_of #"--build-arg" (kv.1 ++ #"=" ++ kv.2)) <$> args)
     ++ #" -t " ++ quote tag ++ #" -")
    (W <$> [ #"build"] ++ (if no_cache then [ #"--no-cache"] else [])
       ++ build_argv args ++ [ #"-t"; tag; #"-"]).
Proof.
  rewrite (app_assoc #"build"), (app_assoc (#"build" ++ _)).
  change (#" -t " ++ quote tag ++ #" -") with (#" " ++ #"-t " ++ quote tag ++ #" -").
  eapply lexes_eq with (ts := ((W <$> [ #"build"] ++ (if no_cache then [ #"--no-cache"] else []))
      ++ concat ((fun kv : pystr * pystr => [W #"--build-arg"; W (kv.1 ++ #"=" ++ kv.2)]) <$> args))
      ++ [W #"-t"; W tag; W #"-"]).
  - apply lexes_space; [|lex_go].
    apply (lexes_flags _ (fun kv => [W #"--build-arg"; W (kv.1 ++ #"=" ++ kv.2)])).
    + destruct no_cache; apply lexes_intro; vm_compute; reflexivity.
    + intros [k v]. by apply lexes_flag_of.
  - rewrite build_argv_groups, !fmap_app. destruct no_cache; by rewrite <- !app_assoc.
Qed.

(** Under any interleaving, a bulk image pull, removal or build returns one result per
    resolved target in order, with counters that add up, and each executed line is the intended
    docker command (for a build, with the Dockerfile piped into it). *)
Theorem bulk_image_results_in_order sched node_ids node_tags op h :
  wp (run_bulk_image sched node_ids node_tags op) h
    (fun _ => bulk_image_call op) (bulk_image_outcome node_ids node_tags h).
Proof.
  destruct op; cbn [run_bulk_image]; apply bulk_image_run_outcome; intros node cmd.
  - destruct (validate_image_name image) as [v|] eqn:E; [|done]. apply require_ok in E as [-> _].
    intros Hc. apply Ok_inj in Hc as <-. apply docker_words_intro. lex_go.
  - destruct (validate_image_tag image_id) as [v|] eqn:E; [|done]. apply require_full_ok in E as [-> _].
    intros Hc. apply Ok_inj in Hc as <-. apply docker_words_intro. lex_go.
  - unfold bulk_build_command. destruct (validate_image_tag tag) as [v|] eqn:E; [|done].
    apply require_full_ok in E as [-> _]. cbn [mbind res_bind].
    destruct (build_args_go [] build_args) as [flags|] eqn:Ef; [|done].
    intros Hc. apply Ok_inj in Hc as <-. apply build_args_go_ok in Ef as ->.
    apply piped_lex, build_lex.
Qed.
End spec.
