(* ===== verification/Images.v ===== *)
(** * Image use cases ([app/application/services/docker/image_service.py])

    Every operation of [DockerImageService] as a call tree. *)
From S2P Require Import Prelude PyStr Regex Shlex Errors Validation Json Effects Dto Ports DockerCore Containers.

Section images.
Context `{Unicode} `{Host}.

(** Unlike the container service's helper, non-strings are dropped. *)
Definition _string_tuple (value : option json) : list pystr :=
  match value with Some (JArr xs) => json_strings xs | _ => [] end.

Definition image_of_item (item : jobject) : DockerImageDTO :=
  {| di_repository := json_string item #"Repository"; di_tag := json_string item #"Tag";
     di_id := json_string item #"ID"; di_size := json_string item #"Size";
     di_created_at := json_string item #"CreatedAt" |}.

Definition list_images (node_id : uuid) : prog (list DockerImageDTO) :=
  node ← get_target node_id;
  let cmd := build_docker_command node #"images --format '{{json .}}'" in
  '(stdout, stderr, exit_code) ← execute node cmd default_timeout;
  lift (raise_for_docker_error stderr exit_code);;
  items ← lift (parse_json_lines stdout);
  log_if false #"docker.images.list" node_id [(#"count", JInt (Z.of_nat (length items)))];;
  mret (image_of_item <$> items).

Definition success_details (validated : pystr) (success : bool) : jobject :=
  [(#"image", JStr validated); (#"success", JBool success)].

(** After [raise_for_docker_error] the exit code is zero; the code still tests it. *)
Definition pull_result (validated stdout stderr : pystr) (exit_code : Z) : DockerPullResultDTO :=
  let success := (exit_code =? 0)%Z in
  {| pl_image := validated; pl_output := if success then stdout else stderr; pl_success := success |}.

Definition pull_image (node_id : uuid) (image : pystr) (timeout : Z) : prog DockerPullResultDTO :=
  validated ← lift (validate_image_name image);
  node ← get_target node_id;
  let cmd := build_docker_command node (#"pull " ++ validated) in
  log_if true #"docker.image.pull.requested" node_id [(#"image", JStr validated)];;
  outcome ← try_except (r ← execute node cmd timeout; mret (inl r))
    (on_class ConnectionFailedError (fun exc => mret (inr exc)));
  match outcome with
  | inr exc =>
      log_if false #"docker.image.pull" node_id (success_details validated false);;
      mret {| pl_image := validated; pl_output := exn_msg exc; pl_success := false |}
  | inl (stdout, stderr, exit_code) =>
      lift (raise_for_docker_error stderr exit_code);;
      log_if false #"docker.image.pull" node_id (success_details validated (exit_code =? 0)%Z);;
      mret (pull_result validated stdout stderr exit_code)
  end.

Definition image_inspect_dto (data : jobject) : DockerImageInspectDTO :=
  {| ii_id := _string (dict_get data #"Id"); ii_repo_tags := _string_tuple (dict_get data #"RepoTags");
     ii_size := _integer (dict_get data #"Size"); ii_created := _string (dict_get data #"Created");
     ii_architecture := _string (dict_get data #"Architecture"); ii_os := _string (dict_get data #"Os") |}.

Definition inspect_image (node_id : uuid) (image_id : pystr) : prog DockerImageInspectDTO :=
  validated ← lift (validate_image_tag image_id);
  node ← get_target node_id;
  let cmd := build_docker_command node
               (#"inspect --type=image " ++ quote validated ++ #" --format '{{json .}}'") in
  '(stdout, stderr, exit_code) ← execute node cmd default_timeout;
  lift (raise_for_docker_error stderr exit_code);;
  items ← lift (parse_json_array stdout);
  match items with
  | [] => lift (raise DockerValidationError
                  (#"docker inspect produced no output for image " ++ py_repr validated))
  | data :: _ =>
      log_if false #"docker.image.inspect" node_id [(#"image_id", JStr validated)];;
      mret (image_inspect_dto data)
  end.

Definition remove_image (node_id : uuid) (image_id : pystr) : prog unit :=
  validated ← lift (validate_image_tag image_id);
  node ← get_target node_id;
  let cmd := build_docker_command node (#"rmi " ++ quote validated) in
  log_if true #"docker.image.remove.requested" node_id [(#"image_id", JStr validated)];;
  '(_, stderr, exit_code) ← execute node cmd default_timeout;
  lift (raise_for_docker_error stderr exit_code);;
  log_if false #"docker.image.remove" node_id [(#"image_id", JStr validated)].

Definition tag_image (request : DockerImageTagRequestDTO) : prog DockerImageTagResultDTO :=
  validated_source ← lift (validate_image_tag (tg_image_id request));
  let target := tg_repo request ++ #":" ++ tg_tag request in
  validated_target ← lift (validate_image_tag target);
  node ← get_target (tg_node_id request);
  let cmd := build_docker_command node
               (#"tag " ++ quote validated_source ++ #" " ++ quote validated_target) in
  let details := [(#"source", JStr validated_source); (#"target", JStr validated_target)] in
  log_if true #"docker.image.tag.requested" (tg_node_id request) details;;
  '(_, stderr, exit_code) ← execute node cmd default_timeout;
  lift (raise_for_docker_error stderr exit_code);;
  log_if false #"docker.image.tag" (tg_node_id request) details;;
  mret {| tr_source := validated_source; tr_target := validated_target |}.

(** ** Build *)

Definition _build_build_command_args (request : DockerImageBuildRequestDTO) : pystr :=
  join #" "
    ([ #"build"; flag_of #"--tag" (bq_tag request)]
     ++ ((fun '(key, value) => flag_of #"--build-arg" (key ++ #"=" ++ value)) <$> bq_build_args request)
     ++ (if bq_no_cache request then [ #"--no-cache"] else [])
     ++ [ #"-"]).

(** [for key, value in request.build_args: validated.append((validate(key), value))]. *)
Fixpoint validated_build_args (build_args : list (pystr * pystr)) : res (list (pystr * pystr)) :=
  match build_args with
  | [] => Ok []
  | (key, value) :: build_args =>
      validated_key ← validate_build_arg_key key;
      rest ← validated_build_args build_args;
      Ok ((validated_key, value) :: rest)
  end.

(** The loop over the reversed output lines, up to its [break]. *)
Fixpoint find_image_id (lines : list pystr) : pystr :=
  match lines with
  | [] => []
  | line :: lines =>
      let stripped := strip line in
      let marker := #"Successfully built " in
      if startswith stripped marker then strip (drop (length marker) stripped)
      else if contains stripped #"sha256:" then
        let token := last_of (split_ws stripped) in
        if startswith token #"sha256:" then token else find_image_id lines
      else find_image_id lines
  end.
Definition built_image_id (stdout : pystr) : pystr := find_image_id (rev (splitlines (strip stdout))).

Definition build_image (request : DockerImageBuildRequestDTO) : prog DockerImageBuildResultDTO :=
  validated_tag ← lift (validate_image_tag (bq_tag request));
  build_args ← lift (validated_build_args (bq_build_args request));
  let normalized := {| bq_node_id := bq_node_id request; bq_dockerfile := bq_dockerfile request;
                       bq_tag := validated_tag; bq_build_args := build_args;
                       bq_no_cache := bq_no_cache request |} in
  node ← get_target (bq_node_id request);
  let base_cmd := build_docker_command node (_build_build_command_args normalized) in
  let cmd := piped (bq_dockerfile normalized) base_cmd in
  log_if true #"docker.image.build.requested" (bq_node_id request) [(#"tag", JStr validated_tag)];;
  '(stdout, stderr, exit_code) ← execute node cmd 600;
  lift (raise_for_docker_error stderr exit_code);;
  let image_id := built_image_id stdout in
  log_if false #"docker.image.build" (bq_node_id request)
    [(#"tag", JStr validated_tag); (#"image_id", JStr image_id)];;
  mret {| br_image_id := image_id; br_tag := validated_tag; br_output := strip stdout |}.

(** ** Push and history *)

Definition push_image (node_id : uuid) (image : pystr) (timeout : Z) : prog DockerPullResultDTO :=
  validated ← lift (validate_image_name image);
  node ← get_target node_id;
  let cmd := build_docker_command node (#"push " ++ quote validated) in
  log_if true #"docker.image.push.requested" node_id [(#"image", JStr validated)];;
  '(stdout, stderr, exit_code) ← execute node cmd timeout;
  lift (raise_for_docker_error stderr exit_code);;
  log_if false #"docker.image.push" node_id (success_details validated (exit_code =? 0)%Z);;
  mret (pull_result validated stdout stderr exit_code).

Definition image_history (node_id : uuid) (image_id : pystr) : prog (list jobject) :=
  validated ← lift (validate_image_tag image_id);
  node ← get_target node_id;
  let cmd := build_docker_command node (#"history --format '{{json .}}' " ++ quote validated) in
  '(stdout, stderr, exit_code) ← execute node cmd default_timeout;
  lift (raise_for_docker_error stderr exit_code);;
  items ← lift (parse_json_lines stdout);
  log_if false #"docker.image.history" node_id
    [(#"image_id", JStr validated); (#"count", JInt (Z.of_nat (length items)))];;
  mret items.

(** ** What the operations promise *)

Inductive image_op :=
| IList | IPull (image : pystr) (timeout : Z) | IInspect (image_id : pystr) | IRemove (image_id : pystr)
| ITag (image_id repo tag : pystr)
| IBuild (dockerfile tag : pystr) (build_args : list (pystr * pystr)) (no_cache : bool)
| IPush (image : pystr) (timeout : Z) | IHistory (image_id : pystr).

Definition run_image_op (node_id : uuid) (op : image_op) : prog unit :=
  match op with
  | IList => ignore (list_images node_id)
  | IPull image timeout => ignore (pull_image node_id image timeout)
  | IInspect image_id => ignore (inspect_image node_id image_id)
  | IRemove image_id => remove_image node_id image_id
  | ITag image_id repo tag => ignore (tag_image (Build_DockerImageTagRequestDTO node_id image_id repo tag))
  | IBuild dockerfile tag build_args no_cache =>
      ignore (build_image (Build_DockerImageBuildRequestDTO node_id dockerfile tag build_args no_cache))
  | IPush image timeout => ignore (push_image node_id image timeout)
  | IHistory image_id => ignore (image_history node_id image_id)
  end.

Definition build_arg_words (build_args : list (pystr * pystr)) : list pystr :=
  '(k, v) ← build_args; [ #"--build-arg"; k ++ #"=" ++ v].

Definition image_argv (op : image_op) : list pystr :=
  match op with
  | IList => [ #"images"; #"--format"; #"{{json .}}"]
  | IPull image _ => [ #"pull"; image]
  | IInspect image_id => [ #"inspect"; #"--type=image"; image_id; #"--format"; #"{{json .}}"]
  | IRemove image_id => [ #"rmi"; image_id]
  | ITag image_id repo tag => [ #"tag"; image_id; repo ++ #":" ++ tag]
  | IBuild _ tag build_args no_cache =>
      [ #"build"; #"--tag"; tag] ++ build_arg_words build_args
      ++ (if no_cache then [ #"--no-cache"] else []) ++ [ #"-"]
  | IPush image _ => [ #"push"; image]
  | IHistory image_id => [ #"history"; #"--format"; #"{{json .}}"; image_id]
  end.

(** A build reads its Dockerfile from a pipe. *)
Definition image_tokens (node : NodeConnectionDTO) (op : image_op) : list tok :=
  match op with
  | IBuild dockerfile _ _ _ => [W #"printf"; W #"%s"; W dockerfile; Op 124]
  | _ => []
  end ++ (W <$> docker_prefix node ++ image_argv op).

Definition image_intent (op : image_op) : option pystr :=
  match op with
  | IPull _ _ => Some #"docker.image.pull.requested"
  | IRemove _ => Some #"docker.image.remove.requested"
  | ITag _ _ _ => Some #"docker.image.tag.requested"
  | IBuild _ _ _ _ => Some #"docker.image.build.requested"
  | IPush _ _ => Some #"docker.image.push.requested"
  | _ => None
  end.

Definition image_call (op : image_op) (h : history) (c : call) : Prop :=
  match c with
  | Execute node cmd _ =>
      match op with IPull image _ => endswith image [10%N] = false | _ => True end ->
      sh_lex cmd = Some (image_tokens node op)
  | _ => True
  end.

Definition image_intent_first (op : image_op) (node_id : uuid) (h : history) (c : call) : Prop :=
  match c, image_intent op with
  | Execute _ _ _, Some action => has_audit = true -> committed action node_id h
  | _, _ => True
  end.

Lemma image_call_intro op h node args timeout :
  match op with IBuild _ _ _ _ => False | _ => True end ->
  (match op with IPull image _ => endswith image [10%N] = false | _ => True end ->
   Lexes args (W <$> image_argv op)) ->
  image_call op h (Execute node (build_docker_command node args) timeout).
Proof.
  intros Hop Ha Himage. specialize (Ha Himage). apply (docker_words_intro node) in Ha.
  unfold docker_words in Ha. rewrite Ha. by destruct op.
Qed.

(** An accepted image name is one word, unless it ends in a newline. *)
Lemma image_name_word s t :
  validate_image_name s = Ok t -> t = s /\ (endswith s [10%N] = false -> Piece s s).
Proof.
  intros [-> [_ Hok]%andb_true_iff]%require_ok. split; [done|]. intros Hnl.
  apply match_dollar_spec in Hok as [Hm|(u & -> & _)].
  - apply fullmatch_spec in Hm. unfold _IMAGE_NAME_RE in Hm. rewrite fullmatch_plus in Hm.
    destruct s as [|c s]; [done|]. apply piece_safe; [done|].
    eapply forallb_impl; [apply image_char_safe|done].
  - unfold endswith in Hnl. rewrite rev_app_distr in Hnl. by cbn in Hnl; destruct (rev u).
Qed.

Lemma validated_build_args_ok args args' : validated_build_args args = Ok args' -> args' = args.
Proof.
  revert args'. induction args as [|[k v] args IH]; intros args'; cbn; [by intros [= <-]|].
  destruct (validate_build_arg_key k) as [k'|] eqn:E; cbn; [|done].
  apply require_full_ok in E as [-> _].
  destruct (validated_build_args args) as [rest|]; cbn; [|done]. intros [= <-]. by rewrite (IH rest).
Qed.

(** Groups of words, joined by blanks. *)
Lemma build_args_words_lex r :
  Lexes (_build_build_command_args r)
    (W <$> image_argv (IBuild (bq_dockerfile r) (bq_tag r) (bq_build_args r) (bq_no_cache r))).
Proof.
  unfold _build_build_command_args.
  apply parts_join; [|done]. cbn [image_argv].
  apply (parts_app [ #"build"; flag_of #"--tag" (bq_tag r)] [ #"build"; #"--tag"; bq_tag r]).
  { apply (parts_app [ #"build"] [ #"build"]); apply parts_one; [by apply lexes_lit_word|by apply lexes_flag_of]. }
  apply parts_app; [|apply parts_app].
  - apply parts_bind. intros [k v]. by apply lexes_flag_of.
  - destruct (bq_no_cache r); [apply parts_one; by apply lexes_lit_word|apply parts_nil].
  - apply parts_one. by apply lexes_lit_word.
Qed.

Ltac unfold_image :=
  unfold ignore, list_images, pull_image, inspect_image, remove_image, tag_image, build_image,
    push_image, image_history; cbn zeta.

(** Every command line of an image use case is the intended docker invocation on the
    endpoint of the node; for a pull, whose image name is not quoted, this needs the name not to
    end in a newline, which the validator accepts. *)
Theorem image_command_lines node_id op h :
  wp (run_image_op node_id op) h (image_call op) (fun _ _ => True).
Proof.
  destruct op; cbn [run_image_op]; unfold_image; repeat wp_step; try done.
  all: repeat match goal with
    | E : validate_image_name _ = Ok _ |- _ => apply image_name_word in E as [-> ?]
    | E : validate_image_tag _ = Ok _ |- _ => apply image_tag_word in E as [-> ?]
    | E : validated_build_args _ = Ok _ |- _ => apply validated_build_args_ok in E as ->
    end.
  all: try (apply image_call_intro; [done|intros; cbn in *; rewrite <- ?app_assoc; solve [lex_go]]).
  all: try (apply image_call_intro; [done|intros Hnl; specialize (H1 Hnl); lex_go]).
  all: intros _; apply (piped_lex node dockerfile _ (image_argv (IBuild dockerfile tag build_args no_cache)));
    exact (build_args_words_lex (Build_DockerImageBuildRequestDTO node_id dockerfile tag build_args no_cache)).
Qed.

(** With an audit sink, image pull, removal, tagging, build and push execute a command only
    after their intent was committed for that node. *)
Theorem image_intent_before_effect node_id op h :
  wp (run_image_op node_id op) h (image_intent_first op node_id) (fun _ _ => True).
Proof.
  destruct op; cbn [run_image_op]; unfold_image; repeat wp_step; try done.
  all: intros Hyes; try (by rewrite Hyes in *).
  all: try apply committed_last.
Qed.

(** The accepted image names are exactly the non-empty strings over the image alphabet,
    optionally followed by one newline: the end-of-text anchor of the pattern also matches
    before a final newline. *)
Theorem image_name_language s :
  (exists t, validate_image_name s = Ok t) <->
  exists body, body <> [] /\ forallb image_char body = true /\ (s = body \/ s = body ++ [10%N]).
Proof.
  unfold validate_image_name, require. split.
  - intros [t Ht]. destruct (negb (str_eqb s []) && match_dollar _IMAGE_NAME_RE s) eqn:E; [|done].
    apply andb_true_iff in E as [_ E]. apply match_dollar_spec in E.
    assert (forall u, matches _IMAGE_NAME_RE u -> u <> [] /\ forallb image_char u = true) as Hu.
    { intros u Hm. apply fullmatch_spec in Hm. unfold _IMAGE_NAME_RE in Hm. rewrite fullmatch_plus in Hm.
      by destruct u. }
    destruct E as [Hm|(u & -> & Hm)]; [exists s|exists u]; destruct (Hu _ Hm); eauto.
  - intros (body & Hne & Hbody & Hs).
    assert (matches _IMAGE_NAME_RE body) as Hm.
    { apply fullmatch_spec. unfold _IMAGE_NAME_RE. rewrite fullmatch_plus. by destruct body. }
    exists s. replace (negb (str_eqb s []) && match_dollar _IMAGE_NAME_RE s) with true; [done|].
    symmetry. apply andb_true_iff. split.
    + apply negb_true_iff. destruct (str_eqb s []) eqn:E; [|done]. apply str_eqb_eq in E as ->.
      destruct Hs as [<-|Hs]; [done|]. by destruct body.
    + apply match_dollar_spec. destruct Hs as [->| ->]; [by left|right; by exists body].
Qed.
End images.
