(* ===== verification/Resources.v ===== *)
(** * Network and volume use cases ([app/application/services/docker/resource_service.py])

    Every operation of [DockerResourceService] as a call tree.  None of them
    commits an audit intent first: the sink, if any, hears of the result. *)
From S2P Require Import Prelude PyStr Regex Shlex Errors Validation Json Effects Dto Ports DockerCore Containers.

Section resources.
Context `{Unicode} `{PyFloat} `{Host}.

Definition _list_raw (node_id : uuid) (docker_args topic : pystr) : prog (list jobject) :=
  node ← get_target node_id;
  let cmd := build_docker_command node docker_args in
  '(stdout, stderr, exit_code) ← execute node cmd default_timeout;
  lift (raise_for_docker_error stderr exit_code);;
  items ← lift (parse_json_lines stdout);
  log_if false topic node_id [(#"count", JInt (Z.of_nat (length items)))];;
  mret items.

Definition network_of_item (item : jobject) : DockerNetworkDTO :=
  {| nw_id := json_string item #"ID"; nw_name := json_string item #"Name";
     nw_driver := json_string item #"Driver"; nw_scope := json_string item #"Scope" |}.
Definition list_networks (node_id : uuid) : prog (list DockerNetworkDTO) :=
  items ← _list_raw node_id #"network ls --format '{{json .}}'" #"docker.networks.list";
  mret (List.map network_of_item items).

Definition volume_of_item (item : jobject) : DockerVolumeDTO :=
  {| vo_driver := json_string item #"Driver"; vo_name := json_string item #"Name" |}.
Definition list_volumes (node_id : uuid) : prog (list DockerVolumeDTO) :=
  items ← _list_raw node_id #"volume ls --format '{{json .}}'" #"docker.volumes.list";
  mret (List.map volume_of_item items).

(** The steps most operations share: run a command line and check its status. *)
Definition run_checked (node_id : uuid) (docker_args : pystr) : prog pystr :=
  node ← get_target node_id;
  let cmd := build_docker_command node docker_args in
  '(stdout, stderr, exit_code) ← execute node cmd default_timeout;
  lift (raise_for_docker_error stderr exit_code);;
  mret stdout.

(** ** Networks *)

(** [if value: parts.append(f"{flag} {shlex.quote(value)}")]. *)
Definition opt_flag (flag : pystr) (value : option pystr) : list pystr :=
  match nonempty value with Some v => [flag_of flag v] | None => [] end.

Definition create_network (data : NetworkCreateRequestDTO) : prog pystr :=
  lift (validate_network_driver (nc_driver data));;
  let parts := [ #"network create"; #"--driver"; quote (nc_driver data)]
               ++ opt_flag #"--subnet" (nc_subnet data) ++ opt_flag #"--gateway" (nc_gateway data)
               ++ [quote (nc_name data)] in
  stdout ← run_checked (nc_node_id data) (join #" " parts);
  let network_id := strip stdout in
  log_if false #"docker.networks.create" (nc_node_id data)
    [(#"name", JStr (nc_name data)); (#"network_id", JStr network_id)];;
  mret network_id.

(** [json_string(value, key)] on a value that may not be a dict. *)
Definition json_get_string (value : json) (key : pystr) : res pystr :=
  match value with
  | JObj item => Ok (json_string item key)
  | _ => raise AttributeError #"object has no attribute 'get'"
  end.

(** [net.get("Containers") or {}], then [.items()]. *)
Definition containers_items (net : jobject) : res jobject :=
  match dict_get net #"Containers" with
  | None => Ok []
  | Some v => if negb (json_truthy v) then Ok []
              else match v with
                   | JObj kvs => Ok kvs
                   | _ => raise AttributeError #"object has no attribute 'items'"
                   end
  end.
Definition container_entries (kvs : jobject) : list (pystr * jobject) :=
  omap (fun '(cid, cdata) =>
          match cdata with
          | JObj c => Some (cid, [(#"Name", JStr (json_string c #"Name"));
                                  (#"IPv4Address", JStr (json_string c #"IPv4Address"));
                                  (#"IPv6Address", JStr (json_string c #"IPv6Address"))])
          | _ => None
          end) kvs.

(** [config = ipam.get("Config", [{}]) if isinstance(ipam, dict) else [{}]]. *)
Definition ipam_config (net : jobject) : json :=
  match dict_get net #"IPAM" with
  | None => JArr [JObj []]
  | Some (JObj ipam) => match dict_get ipam #"Config" with Some c => c | None => JArr [JObj []] end
  | Some _ => JArr [JObj []]
  end.
(** [json_string(config[0], key) if config else ""]. *)
Definition first_config_string (config : json) (key : pystr) : res pystr :=
  if negb (json_truthy config) then Ok []
  else match config with
       | JArr (c :: _) => json_get_string c key
       | JStr (c :: _) => json_get_string (JStr [c]) key
       | JObj _ => raise KeyError #"0"
       | _ => raise TypeError #"object is not subscriptable"
       end.

Definition network_inspect_dto (net : jobject) : res DockerNetworkInspectDTO :=
  kvs ← containers_items net;
  subnet ← first_config_string (ipam_config net) #"Subnet";
  gateway ← first_config_string (ipam_config net) #"Gateway";
  Ok {| ni_id := json_string net #"Id"; ni_name := json_string net #"Name";
        ni_driver := json_string net #"Driver"; ni_scope := json_string net #"Scope";
        ni_subnet := subnet; ni_gateway := gateway; ni_containers := container_entries kvs |}.

(** [raise_for_docker_error(message, 1)] before indexing an empty list. *)
Definition missing (message : pystr) : res jobject :=
  _ ← raise_for_docker_error message 1; raise IndexError #"list index out of range".
Definition first_item (message : pystr) (items : list jobject) : res jobject :=
  match items with [] => missing message | item :: _ => Ok item end.

Definition inspect_network (node_id : uuid) (network_id : pystr) : prog DockerNetworkInspectDTO :=
  lift (validate_container_id network_id);;
  stdout ← run_checked node_id (#"network inspect " ++ quote network_id);
  items ← lift (parse_json_array stdout);
  net ← lift (first_item (#"Network " ++ py_repr network_id ++ #" not found") items);
  lift (network_inspect_dto net).

Definition remove_network (node_id : uuid) (network_id : pystr) : prog unit :=
  lift (validate_container_id network_id);;
  run_checked node_id (#"network rm " ++ quote network_id);;
  log_if false #"docker.networks.remove" node_id [(#"network_id", JStr network_id)].

Definition connect_to_network (data : NetworkConnectRequestDTO) : prog unit :=
  lift (validate_container_id (nk_network_id data));;
  lift (validate_container_id (nk_container_id data));;
  lift (validate_opt validate_ip_address (nonempty (nk_ip_address data)));;
  let parts := [ #"network connect"] ++ opt_flag #"--ip" (nk_ip_address data)
               ++ [quote (nk_network_id data); quote (nk_container_id data)] in
  ignore (run_checked (nk_node_id data) (join #" " parts)).

Definition disconnect_from_network (data : NetworkDisconnectRequestDTO) : prog unit :=
  lift (validate_container_id (nd_network_id data));;
  lift (validate_container_id (nd_container_id data));;
  let parts := [ #"network disconnect"] ++ (if nd_force data then [ #"--force"] else [])
               ++ [quote (nd_network_id data); quote (nd_container_id data)] in
  ignore (run_checked (nd_node_id data) (join #" " parts)).

(** ** Volumes *)

(** The driver is named only when it is not the default. *)
Definition volume_driver (data : VolumeCreateRequestDTO) : option pystr :=
  match vc_driver data with
  | [] => None
  | d => if str_eqb d #"local" then None else Some d
  end.

Definition create_volume (data : VolumeCreateRequestDTO) : prog pystr :=
  lift (validate_opt validate_network_driver (volume_driver data));;
  lift (validate_opt validate_volume_name (nonempty (vc_name data)));;
  let parts := [ #"volume create"] ++ opt_flag #"--driver" (volume_driver data)
               ++ (match nonempty (vc_name data) with Some n => [quote n] | None => [] end) in
  stdout ← run_checked (vc_node_id data) (join #" " parts);
  let volume_name := match strip stdout with [] => default [] (vc_name data) | s => s end in
  log_if false #"docker.volumes.create" (vc_node_id data) [(#"name", JStr volume_name)];;
  mret volume_name.

Definition volume_inspect_dto (vol : jobject) : DockerVolumeInspectDTO :=
  {| vi_name := json_string vol #"Name"; vi_driver := json_string vol #"Driver";
     vi_mountpoint := json_string vol #"Mountpoint";
     vi_labels := match dict_get vol #"Labels" with Some (JObj kvs) => kvs | _ => [] end |}.

Definition inspect_volume (node_id : uuid) (volume_name : pystr) : prog DockerVolumeInspectDTO :=
  lift (validate_volume_name volume_name);;
  stdout ← run_checked node_id (#"volume inspect " ++ quote volume_name);
  items ← lift (parse_json_array stdout);
  vol ← lift (first_item (#"Volume " ++ py_repr volume_name ++ #" not found") items);
  mret (volume_inspect_dto vol).

Definition remove_volume (node_id : uuid) (volume_name : pystr) : prog unit :=
  lift (validate_volume_name volume_name);;
  run_checked node_id (#"volume rm " ++ quote volume_name);;
  log_if false #"docker.volumes.remove" node_id [(#"name", JStr volume_name)].

Definition prune_volumes (node_id : uuid) : prog pystr :=
  stdout ← run_checked node_id #"volume prune -f";
  log_if false #"docker.volumes.prune" node_id [];;
  mret (strip stdout).

Definition prune_networks (node_id : uuid) : prog pystr :=
  stdout ← run_checked node_id #"network prune -f";
  log_if false #"docker.networks.prune" node_id [];;
  mret (strip stdout).

(** ** What the operations promise *)

Inductive resource_op :=
| RListNetworks | RListVolumes
| RCreateNetwork (name driver : pystr) (subnet gateway : option pystr)
| RInspectNetwork (network_id : pystr) | RRemoveNetwork (network_id : pystr)
| RConnect (network_id container_id : pystr) (ip_address : option pystr)
| RDisconnect (network_id container_id : pystr) (force : bool)
| RCreateVolume (name : option pystr) (driver : pystr)
| RInspectVolume (name : pystr) | RRemoveVolume (name : pystr)
| RPruneVolumes | RPruneNetworks.

Definition volume_request (node_id : uuid) (name : option pystr) (driver : pystr) : VolumeCreateRequestDTO :=
  {| vc_node_id := node_id; vc_name := name; vc_driver := driver; vc_labels := [] |}.

Definition run_resource_op (node_id : uuid) (op : resource_op) : prog unit :=
  match op with
  | RListNetworks => ignore (list_networks node_id)
  | RListVolumes => ignore (list_volumes node_id)
  | RCreateNetwork name driver subnet gateway =>
      ignore (create_network (Build_NetworkCreateRequestDTO node_id name driver subnet gateway))
  | RInspectNetwork network_id => ignore (inspect_network node_id network_id)
  | RRemoveNetwork network_id => remove_network node_id network_id
  | RConnect n c ip => connect_to_network (Build_NetworkConnectRequestDTO node_id n c ip)
  | RDisconnect n c force => disconnect_from_network (Build_NetworkDisconnectRequestDTO node_id n c force)
  | RCreateVolume name driver => ignore (create_volume (volume_request node_id name driver))
  | RInspectVolume name => ignore (inspect_volume node_id name)
  | RRemoveVolume name => remove_volume node_id name
  | RPruneVolumes => ignore (prune_volumes node_id)
  | RPruneNetworks => ignore (prune_networks node_id)
  end.

Definition opt_argv (flag : pystr) (value : option pystr) : list pystr :=
  match nonempty value with Some v => [flag; v] | None => [] end.

Definition resource_argv (op : resource_op) : list pystr :=
  match op with
  | RListNetworks => [ #"network"; #"ls"; #"--format"; #"{{json .}}"]
  | RListVolumes => [ #"volume"; #"ls"; #"--format"; #"{{json .}}"]
  | RCreateNetwork name driver subnet gateway =>
      [ #"network"; #"create"; #"--driver"; driver] ++ opt_argv #"--subnet" subnet
      ++ opt_argv #"--gateway" gateway ++ [name]
  | RInspectNetwork network_id => [ #"network"; #"inspect"; network_id]
  | RRemoveNetwork network_id => [ #"network"; #"rm"; network_id]
  | RConnect n c ip => [ #"network"; #"connect"] ++ opt_argv #"--ip" ip ++ [n; c]
  | RDisconnect n c force => [ #"network"; #"disconnect"] ++ (if force then [ #"--force"] else []) ++ [n; c]
  | RCreateVolume name driver =>
      [ #"volume"; #"create"] ++ opt_argv #"--driver" (volume_driver (volume_request 0 name driver))
      ++ match nonempty name with Some n => [n] | None => [] end
  | RInspectVolume name => [ #"volume"; #"inspect"; name]
  | RRemoveVolume name => [ #"volume"; #"rm"; name]
  | RPruneVolumes => [ #"volume"; #"prune"; #"-f"]
  | RPruneNetworks => [ #"network"; #"prune"; #"-f"]
  end.

Definition resource_call (op : resource_op) (h : history) (c : call) : Prop :=
  match c with
  | Execute node cmd _ => docker_words node (resource_argv op) cmd /\ outcomes h = []
  | _ => True
  end.

Lemma parts_opt flag v :
  flag <> [] -> forallb safe_char flag = true -> Parts (opt_flag flag v) (opt_argv flag v).
Proof.
  intros Hne Hf. unfold opt_flag, opt_argv. destruct (nonempty v); [|apply parts_nil].
  apply parts_one. by apply lexes_flag_of.
Qed.

Lemma parts_words (ws : list pystr) : Parts (quote <$> ws) ws.
Proof.
  induction ws as [|w ws IH]; [apply parts_nil|].
  apply (parts_app [quote w] [w]); [|done]. apply parts_one, lexes_word, piece_quote.
Qed.

Lemma parts_lit (s : pystr) ws : sh_lex s = Some (W <$> ws) -> Parts [s] ws.
Proof. intros Hs. by apply parts_one, lexes_intro. Qed.

Ltac unfold_resource :=
  unfold ignore, list_networks, list_volumes, _list_raw, create_network, inspect_network, remove_network,
    connect_to_network, disconnect_from_network, create_volume, inspect_volume, remove_volume,
    prune_volumes, prune_networks, run_checked, ignore; cbn zeta.

Lemma create_network_lex name driver subnet gateway :
  Lexes (join #" " ([ #"network create"; #"--driver"; quote driver] ++ opt_flag #"--subnet" subnet
                    ++ opt_flag #"--gateway" gateway ++ [quote name]))
    (W <$> resource_argv (RCreateNetwork name driver subnet gateway)).
Proof.
  apply parts_join; [|done]. cbn [resource_argv].
  apply (parts_app [ #"network create"; #"--driver"; quote driver] [ #"network"; #"create"; #"--driver"; driver]).
  { apply (parts_app [ #"network create"; #"--driver"] [ #"network"; #"create"; #"--driver"]);
      [|by apply parts_one, lexes_word, piece_quote].
    apply (parts_app [ #"network create"] [ #"network"; #"create"]); by apply parts_lit. }
  apply parts_app; [by apply parts_opt|]. apply parts_app; [by apply parts_opt|].
  apply (parts_words [name]).
Qed.

Lemma connect_lex n c ip :
  Lexes (join #" " ([ #"network connect"] ++ opt_flag #"--ip" ip ++ [quote n; quote c]))
    (W <$> resource_argv (RConnect n c ip)).
Proof.
  apply parts_join; [|done].
  apply (parts_app [ #"network connect"] [ #"network"; #"connect"]); [by apply parts_lit|].
  apply parts_app; [by apply parts_opt|apply (parts_words [n; c])].
Qed.

Lemma disconnect_lex n c (force : bool) :
  Lexes (join #" " ([ #"network disconnect"] ++ (if force then [ #"--force"] else []) ++ [quote n; quote c]))
    (W <$> resource_argv (RDisconnect n c force)).
Proof.
  apply parts_join; [|done].
  apply (parts_app [ #"network disconnect"] [ #"network"; #"disconnect"]); [by apply parts_lit|].
  apply parts_app; [|apply (parts_words [n; c])].
  destruct force; [by apply parts_lit|apply parts_nil].
Qed.

Lemma create_volume_lex node_id name driver :
  Lexes (join #" " ([ #"volume create"] ++ opt_flag #"--driver" (volume_driver (volume_request node_id name driver))
                    ++ (match nonempty name with Some n => [quote n] | None => [] end)))
    (W <$> resource_argv (RCreateVolume name driver)).
Proof.
  apply parts_join; [|done].
  apply (parts_app [ #"volume create"] [ #"volume"; #"create"]); [by apply parts_lit|].
  apply parts_app; [by apply parts_opt|].
  destruct (nonempty name) as [n|]; [apply (parts_words [n])|apply parts_nil].
Qed.

(** Every network and volume use case executes at most one command, which is the intended
    docker invocation, and succeeds only if that command exited with status zero. *)
Theorem resource_command_lines node_id op :
  wp (run_resource_op node_id op) [] (resource_call op) (fun h r => r = Ok tt -> ran_ok h).
Proof.
  destruct op; cbn [run_resource_op]; unfold_resource; repeat wp_step; try done.
  all: try (intros _; match goal with E : raise_for_docker_error _ _ = Ok _ |- _ =>
         apply raise_for_docker_error_ok in E as -> end; unfold ran_ok; do 5 eexists; reflexivity).
  all: split; [apply docker_words_intro|reflexivity].
  all: try (cbn [resource_argv]; lex_go; done).
  - apply create_network_lex.
  - apply connect_lex.
  - apply disconnect_lex.
  - apply create_volume_lex.
Qed.
End resources.
