(* ===== verification/System.v ===== *)
(** * System use cases ([app/application/services/docker/system_service.py])

    Every operation of [DockerSystemService] as a call tree: info, disk usage,
    version and the prunes, with the hand-written parsers of their output. *)
From S2P Require Import Prelude PyStr Shlex Errors Json Effects Dto Ports DockerCore Containers Resources.

Section system.
Context `{Unicode} `{PyFloat} `{Host}.

(** [v if isinstance(v, int) else 0]: a bool is an int in Python. *)
Definition int_or_zero (value : option json) : Z :=
  match value with
  | Some (JInt z) => z
  | Some (JBool b) => if b then 1%Z else 0%Z
  | _ => 0%Z
  end.

Definition info_dto (info : jobject) : DockerSystemInfoDTO :=
  {| si_server_version := json_string info #"ServerVersion"; si_storage_driver := json_string info #"Driver";
     si_operating_system := json_string info #"OperatingSystem";
     si_architecture := json_string info #"Architecture"; si_total_memory := json_string info #"MemTotal";
     si_cpus := int_or_zero (dict_get info #"NCPU");
     si_containers_running := int_or_zero (dict_get info #"ContainersRunning");
     si_containers_stopped := int_or_zero (dict_get info #"ContainersStopped");
     si_images := int_or_zero (dict_get info #"Images") |}.

Definition info (node_id : uuid) : prog DockerSystemInfoDTO :=
  stdout ← run_checked node_id #"info --format '{{json .}}'";
  items ← lift (parse_json_array stdout);
  info ← lift (first_item #"docker info returned empty output" items);
  mret (info_dto info).

(** One line of [docker system df]: [None] when the line is skipped.  A decoded
    value that is not an object has no [get]: that exception is not caught. *)
Definition df_line (line : pystr) : res (option DockerSystemDfDTO) :=
  match loads line with
  | Raise e => if isinstance (exn_type e) JSONDecodeError || isinstance (exn_type e) KeyError
               then Ok None else Raise e
  | Ok (JObj item) =>
      Ok (Some {| df_type := json_string item #"Type";
                  df_total_count := int_or_zero (dict_get item #"TotalCount");
                  df_active_size := json_string item #"ActiveSize";
                  df_reclaimable_size := json_string item #"Reclaimable";
                  df_reclaimable_percent := json_string item #"ReclaimablePercent" |})
  | Ok _ => raise AttributeError #"object has no attribute 'get'"
  end.
Fixpoint df_lines (results : list DockerSystemDfDTO) (lines : list pystr) : res (list DockerSystemDfDTO) :=
  match lines with
  | [] => Ok results
  | line :: lines =>
      item ← df_line line;
      df_lines (match item with Some i => results ++ [i] | None => results end) lines
  end.

Definition disk_usage (node_id : uuid) : prog (list DockerSystemDfDTO) :=
  stdout ← run_checked node_id #"system df --format '{{json .}}'";
  lift (df_lines [] (nonblank_lines stdout)).

(** ** Prunes *)

(** [parts = line.split(":", 1)] with two parts: the ids after the colon. *)
Definition deleted_ids (line : pystr) : option (list pystr) :=
  match split_once 58 line with
  | [_; rest] => Some (List.filter (fun x => negb (str_eqb x [])) (strip <$> split_on 44 rest))
  | _ => None
  end.
(** [line.split(":", 1)[-1].strip() if ":" in line else line.strip()]. *)
Definition reclaimed_space (line : pystr) : pystr :=
  if contains line #":" then strip (last_of (split_once 58 line)) else strip line.

(** The loop over the output: the deleted ids and the reclaimed space last seen.
    [starts] is the test that finds the line of ids. *)
Definition prune_step (starts : pystr -> bool) (acc : list pystr * pystr) (line : pystr) : list pystr * pystr :=
  let '(deleted, space) := acc in
  let deleted := if starts line then default deleted (deleted_ids line) else deleted in
  let space := if contains (lower line) #"reclaimed" then reclaimed_space line else space in
  (deleted, space).
Definition prune_scan (starts : pystr -> bool) (stdout : pystr) : list pystr * pystr :=
  fold_left (prune_step starts) (splitlines (strip stdout)) ([], []).

Definition starts_deleted (line : pystr) : bool := startswith line #"Deleted".
Definition starts_deleted_stripped (line : pystr) : bool := startswith (strip line) #"Deleted".

Definition prune_containers (node_id : uuid) : prog DockerPruneResultDTO :=
  stdout ← run_checked node_id #"container prune -f";
  let '(deleted, space) := prune_scan starts_deleted stdout in
  log_if false #"docker.containers.prune" node_id
    [(#"deleted", JInt (Z.of_nat (length deleted))); (#"space_reclaimed", JStr space)];;
  mret {| pr_containers_deleted := deleted; pr_images_deleted := []; pr_space_reclaimed := space |}.

Definition prune_images (node_id : uuid) : prog DockerPruneResultDTO :=
  stdout ← run_checked node_id #"image prune -f";
  let '(deleted, space) := prune_scan starts_deleted stdout in
  log_if false #"docker.images.prune" node_id
    [(#"deleted", JInt (Z.of_nat (length deleted))); (#"space_reclaimed", JStr space)];;
  mret {| pr_containers_deleted := []; pr_images_deleted := deleted; pr_space_reclaimed := space |}.

Definition system_prune (node_id : uuid) (volumes : bool) : prog DockerPruneResultDTO :=
  stdout ← run_checked node_id (#"system prune -f" ++ if volumes then #" --volumes" else []);
  let '(deleted, space) := prune_scan starts_deleted_stripped stdout in
  log_if false #"docker.system.prune" node_id
    [(#"volumes", JBool volumes); (#"space_reclaimed", JStr space)];;
  mret {| pr_containers_deleted := deleted; pr_images_deleted := deleted; pr_space_reclaimed := space |}.

(** ** Version *)

(** [a or b]. *)
Definition str_or (a b : pystr) : pystr := match a with [] => b | _ => a end.

Definition version_dto (info : jobject) : DockerSystemVersionDTO :=
  let server := match dict_get info #"Server" with Some (JObj s) => s | _ => info end in
  {| sv_server_version := str_or (json_string server #"Version")
                            (str_or (json_string info #"ServerVersion") (json_string info #"Version"));
     sv_api_version := str_or (json_string server #"ApiVersion") (json_string info #"APIVersion");
     sv_go_version := str_or (json_string server #"GoVersion") (json_string info #"GoVersion");
     sv_git_commit := json_string server #"GitCommit"; sv_build_time := json_string server #"BuildTime";
     sv_os := json_string server #"Os"; sv_arch := json_string server #"Arch" |}.

Definition version (node_id : uuid) : prog DockerSystemVersionDTO :=
  stdout ← run_checked node_id #"version --format '{{json .}}'";
  items ← lift (parse_json_array stdout);
  items' ← lift (match items with [] => parse_json_lines stdout | _ => Ok items end);
  info ← lift (first_item #"docker version returned empty output" items');
  mret (version_dto info).

(** ** What the parsers find *)

(** A header line with nothing after its colon names no ids. *)
Lemma deleted_ids_header s : ~ In 58%N s -> deleted_ids (s ++ #":") = Some [].
Proof.
  intros Hs. unfold deleted_ids.
  assert (split_once 58 (s ++ #":") = [s; []]) as ->; [|done].
  induction s as [|c s IH]; [done|]. cbn.
  destruct (N.eqb_spec c 58) as [->|Hc]; [by destruct Hs; left|].
  rewrite IH; [done|]. intros Hin. apply Hs. by right.
Qed.

(** When the line that announces the deleted objects holds nothing after its colon, as
    docker prints it with one identifier per following line, a prune reports no deleted objects
    at all. *)
Theorem prune_ids_only_on_the_header_line starts stdout :
  (forall line, In line (splitlines (strip stdout)) -> starts line = true ->
     exists s, line = s ++ #":" /\ ~ In 58%N s) ->
  fst (prune_scan starts stdout) = [].
Proof.
  unfold prune_scan. generalize (splitlines (strip stdout)) as lines. intros lines Hh.
  enough (forall acc, fst acc = [] -> fst (fold_left (prune_step starts) lines acc) = []) as Hf by by apply Hf.
  induction lines as [|line lines IH]; [done|]. intros [d sp] Hd. cbn in Hd. subst d. cbn [fold_left].
  apply IH; [intros; apply Hh; [by right|done]|]. cbn.
  destruct (starts line) eqn:E; [|done].
  destruct (Hh line) as (s & -> & Hs); [by left|done|]. by rewrite deleted_ids_header.
Qed.

Definition prune_output : pystr :=
  join [10%N] [ #"Deleted Containers:"; #"4f2a"; #"9c1b"; #""; #"Total reclaimed space: 212B"].
End system.

(** [docker container prune] prints its header alone on a line and one id per
    line below it: the two ids are lost, the space is found. *)
Lemma prune_ids_witness :
  fst (@prune_scan ascii_only starts_deleted prune_output) = []
  /\ snd (@prune_scan ascii_only starts_deleted prune_output) = #"212B".
Proof.
  split; [|vm_compute; reflexivity].
  apply (@prune_ids_only_on_the_header_line ascii_only starts_deleted prune_output).
  intros line Hin Hs. exists (#"Deleted Containers").
  assert (forallb (fun l => negb (starts_deleted l) || str_eqb l (#"Deleted Containers" ++ #":"))
            (splitlines (@strip ascii_only prune_output)) = true) as Hall by (vm_compute; reflexivity).
  rewrite forallb_forall in Hall. specialize (Hall line Hin). rewrite Hs in Hall.
  apply str_eqb_eq in Hall. split; [exact Hall|].
  intros Hc. apply one_of_In in Hc. revert Hc. vm_compute. discriminate.
Defined.
