(* ===== verification/Compose.v ===== *)
(** * Compose projects ([app/application/services/compose_service.py])

    CRUD over the compose repositories and the runtime operations of
    [ComposeService], with the [kills] handler of
    [app/api/v2/compose_handlers/bulk_handlers/lifecycle_handlers/pause_control.py]
    that builds one of their arguments.  An empty service list stands for both
    [None] and [[]]. *)
From S2P Require Import Prelude PyStr Regex Shlex Errors Validation Json Bytes Effects Dto Ports DockerCore Containers.

Section compose.
Context `{Unicode} `{PyFloat} `{Host}.

(** ** Helpers *)

Definition _PROJECT_NAME_RE : regex := RIdent ascii_alnum ref_tail.
Definition _ALLOWED_COMPOSE_VERBS : list pystr :=
  [ #"start"; #"stop"; #"restart"; #"pause"; #"unpause"; #"kill"; #"create"; #"rm"; #"pull"; #"push"; #"build"].

Definition _validate_project_name (name : pystr) : res pystr :=
  if str_eqb name [] || negb (fullmatch _PROJECT_NAME_RE name) || (100 <? Z.of_nat (length name))%Z
  then raise ValueError (#"Invalid project_name: " ++ py_repr name)
  else Ok name.

Definition is_alnum (c : N) : bool := if is_ascii c then ascii_alnum c else u_alnum c.

(** [str(Path(directory) / name)]. *)
Definition path_join (directory name : pystr) : pystr :=
  if endswith directory #"/" then directory ++ name else directory ++ #"/" ++ name.

Definition _compose_file_path (project_name : pystr) : prog pystr :=
  suffix ← perform Uuid4Hex8;
  let safe := (fun c => if is_alnum c then c else 95%N) <$> project_name in
  mret (path_join tempdir (#"nn-compose-" ++ safe ++ #"-" ++ suffix ++ #".yml")).

Definition _env_prefix (env : option (list (pystr * pystr))) : pystr :=
  match env with
  | None | Some [] => []
  | Some env => join #" " ((fun '(k, v) => quote k ++ #"=" ++ quote v) <$> env) ++ #" "
  end.

(** ** CRUD *)

Definition create_project (data : ComposeCreateDTO) : prog ComposeViewDTO :=
  lift (_validate_project_name (co_project_name data));;
  perform (ComposeCreate data).

Definition list_projects (node_id : uuid) (offset limit : Z) : prog (list ComposeViewDTO) :=
  perform (ComposeList node_id offset limit).

(** The [while True] loop, cut after [fuel] pages ([None]). *)
Fixpoint list_all_go (fuel : nat) (node_id : uuid) (all_items : list ComposeViewDTO) (offset : Z)
    : prog (option (list ComposeViewDTO)) :=
  match fuel with
  | O => mret None
  | S fuel =>
      page ← list_projects node_id offset 100;
      let all_items := all_items ++ page in
      if (Z.of_nat (length page) <? 100)%Z then mret (Some all_items)
      else list_all_go fuel node_id all_items (offset + 100)
  end.
Definition list_all_projects (fuel : nat) (node_id : uuid) : prog (option (list ComposeViewDTO)) :=
  list_all_go fuel node_id [] 0.

Definition count_projects (node_id : uuid) : prog Z := perform (ComposeCount node_id).
Definition stats (node_id : uuid) : prog Z := perform (ComposeStats node_id).

Definition not_found (project_name : pystr) : exn :=
  Exn ComposeProjectNotFoundError (#"Compose project " ++ py_repr project_name ++ #" not found").

Definition get_project (node_id : uuid) (project_name : pystr) : prog ComposeViewDTO :=
  validated ← lift (_validate_project_name project_name);
  project ← perform (ComposeGet node_id validated);
  match project with
  | None => lift (Raise (not_found project_name))
  | Some project => mret project
  end.

Definition update_project (node_id : uuid) (project_name : pystr) (data : ComposeUpdateDTO) : prog ComposeViewDTO :=
  validated ← lift (_validate_project_name project_name);
  updated ← perform (ComposeUpdate node_id validated data);
  match updated with
  | None => lift (Raise (not_found project_name))
  | Some updated => mret updated
  end.

Definition delete_project (node_id : uuid) (project_name : pystr) : prog unit :=
  validated ← lift (_validate_project_name project_name);
  deleted ← perform (ComposeDelete node_id validated);
  if (deleted : bool) then mret tt else lift (Raise (not_found project_name)).

Definition upsert_project (data : ComposeCreateDTO) : prog ComposeViewDTO :=
  lift (_validate_project_name (co_project_name data));;
  perform (ComposeUpsert data).

(** ** Running compose *)

Definition compose_command (node : NodeConnectionDTO) (project : ComposeViewDTO) (b64 file_path compose_args : pystr) : pystr :=
  let env_str := _env_prefix (cv_env project) in
  let write_cmd := #"printf %s " ++ quote b64 ++ #" | base64 -d > " ++ quote file_path in
  let docker_args := #"compose -p " ++ quote (cv_project_name project) ++ #" -f " ++ quote file_path
                     ++ #" " ++ compose_args in
  write_cmd ++ #" && " ++ env_str ++ build_docker_command node docker_args.

Definition _run_compose (node_id : uuid) (project : ComposeViewDTO) (compose_args : pystr) (timeout : Z) : prog pystr :=
  node ← get_target node_id;
  file_path ← _compose_file_path (cv_project_name project);
  bs ← lift (encode (cv_compose project));
  '(stdout, stderr, exit_code) ← execute node (compose_command node project (b64encode bs) file_path compose_args) timeout;
  lift (raise_for_docker_error stderr exit_code);;
  mret (strip stdout).

(** [try: out = await run; success except Exception as exc: error]. *)
Definition service_result (service : pystr) (run : prog pystr) : prog ComposeServiceResultDTO :=
  try_except
    (out ← run; mret {| sr_service := service; sr_status := Success; sr_output := out; sr_error := [] |})
    (on_exception (fun exc => mret {| sr_service := service; sr_status := Error; sr_output := [];
                                      sr_error := sanitize_bulk_error exc |})).

Definition bulk_result (results : list ComposeServiceResultDTO) : ComposeBulkResultDTO :=
  let succeeded := count (fun r => bool_decide (sr_status r = Success)) results in
  {| cb_total := Z.of_nat (length results); cb_succeeded := succeeded;
     cb_failed := Z.of_nat (length results) - succeeded; cb_results := results |}.

(** One run for the project, or one per named service under [asyncio.gather]. *)
Definition per_service (sched : list nat) (services : list pystr) (label : pystr)
    (whole : prog pystr) (one : pystr -> prog pystr) : prog (list ComposeServiceResultDTO) :=
  match services with
  | [] => r ← service_result label whole; mret [r]
  | _ => gather sched ((fun svc => service_result svc (one svc)) <$> services)
  end.

Definition _bulk_verb (sched : list nat) (node_id : uuid) (project : ComposeViewDTO) (verb : pystr)
    (services : list pystr) (extra : pystr) (timeout : Z) : prog (list ComposeServiceResultDTO) :=
  if negb (bool_decide (verb ∈ _ALLOWED_COMPOSE_VERBS))
  then lift (raise ValueError (#"Invalid compose verb: " ++ py_repr verb))
  else per_service sched services (cv_project_name project)
         (_run_compose node_id project (verb ++ extra) timeout)
         (fun svc => _run_compose node_id project (verb ++ extra ++ #" " ++ quote svc) timeout).

(** ** Runtime operations *)

Definition up_args (pull build : bool) : pystr :=
  #" up -d" ++ (if pull then #" --pull always" else []) ++ (if build then #" --build" else []).

Definition up (sched : list nat) (node_id : uuid) (project_name : pystr) (pull build : bool)
    (services : list pystr) : prog ComposeBulkResultDTO :=
  project ← get_project node_id project_name;
  let extra := up_args pull build in
  results ← per_service sched services project_name
    (_run_compose node_id project extra 60)
    (fun svc => _run_compose node_id project (extra ++ #" " ++ quote svc) 60);
  mret (bulk_result results).

Definition down_args (volumes remove_orphans : bool) (timeout : option Z) (images : option pystr) : pystr :=
  #" down" ++ (if volumes then #" -v" else []) ++ (if remove_orphans then #" --remove-orphans" else [])
  ++ match nonempty images with Some i => #" --rmi " ++ quote i | None => [] end
  ++ match timeout with Some t => #" -t " ++ str_Z t | None => [] end.

Definition down (node_id : uuid) (project_name : pystr) (volumes remove_orphans : bool)
    (timeout : option Z) (images : option pystr) : prog pystr :=
  project ← get_project node_id project_name;
  _run_compose node_id project (down_args volumes remove_orphans timeout images) 120.

Definition verb_bulk (sched : list nat) (node_id : uuid) (project_name verb : pystr)
    (services : list pystr) (extra : pystr) (timeout : Z) : prog ComposeBulkResultDTO :=
  project ← get_project node_id project_name;
  results ← _bulk_verb sched node_id project verb services extra timeout;
  mret (bulk_result results).

(** The loop of [ps]: lines that do not decode, and values that are not objects,
    are skipped. *)
Fixpoint ps_lines (containers : list (list (pystr * pystr))) (lines : list pystr)
    : res (list (list (pystr * pystr))) :=
  match lines with
  | [] => Ok containers
  | line :: lines =>
      match loads line with
      | Ok (JObj obj) => ps_lines (containers ++ [prod_map id json_str <$> obj]) lines
      | Ok _ => ps_lines containers lines
      | Raise e => if isinstance (exn_type e) JSONDecodeError then ps_lines containers lines else Raise e
      end
  end.

Definition ps (node_id : uuid) (project_name : pystr) (all : bool) : prog ComposePsDTO :=
  project ← get_project node_id project_name;
  let args := #"ps --format json" ++ (if all then #" -a" else []) in
  out ← _run_compose node_id project args 60;
  containers ← lift (match strip out with [] => Ok [] | _ => ps_lines [] (splitlines out) end);
  mret {| ps_output := out; ps_containers := containers |}.

Definition logs (node_id : uuid) (project_name : pystr) (tail : Z) (since services : option pystr) : prog pystr :=
  project ← get_project node_id project_name;
  let since_arg := match nonempty since with Some s => #" --since " ++ quote s | None => [] end in
  let services_arg := match nonempty services with Some s => #" " ++ quote s | None => [] end in
  _run_compose node_id project (#"logs --tail " ++ str_Z tail ++ since_arg ++ services_arg) 60.

Definition config (node_id : uuid) (project_name : pystr) : prog pystr :=
  project ← get_project node_id project_name;
  _run_compose node_id project #"config" 60.

(** [obj.get("Repository") or obj.get("repository") or ""]. *)
Definition image_repository (obj : jobject) : option pystr :=
  let truthy k := match dict_get obj k with Some v => if json_truthy v then Some v else None | None => None end in
  match truthy #"Repository", truthy #"repository" with
  | Some v, _ | None, Some v => match v with JStr ((_ :: _) as s) => Some s | _ => None end
  | None, None => None
  end.
Fixpoint image_lines (images : list pystr) (lines : list pystr) : res (list pystr) :=
  match lines with
  | [] => Ok images
  | line :: lines =>
      let stripped := strip line in
      if startswith stripped #"{" then
        match loads stripped with
        | Ok (JObj obj) =>
            image_lines (match image_repository obj with Some r => images ++ [r] | None => images end) lines
        | Ok _ => image_lines images lines
        | Raise e => if isinstance (exn_type e) JSONDecodeError
                     then image_lines (images ++ [stripped]) lines else Raise e
        end
      else image_lines (match stripped with [] => images | _ => images ++ [stripped] end) lines
  end.

Definition images (node_id : uuid) (project_name : pystr) : prog (list pystr * pystr) :=
  project ← get_project node_id project_name;
  out ← try_except (_run_compose node_id project #"images --format json" 60)
    (on_exception (fun _ => _run_compose node_id project #"config --images" 60));
  found ← lift (match strip out with [] => Ok [] | _ => image_lines [] (splitlines out) end);
  mret (found, out).

Definition top (node_id : uuid) (project_name : pystr) (service : option pystr)
    : prog (list pystr * list (list pystr) * pystr) :=
  project ← get_project node_id project_name;
  let svc_arg := match nonempty service with Some s => #" " ++ quote s | None => [] end in
  out ← _run_compose node_id project (#"top" ++ svc_arg) 60;
  mret (match nonblank_lines out with
        | [] => ([], [], out)
        | header :: lines => (split_ws header, List.map split_ws lines, out)
        end).

Definition port (node_id : uuid) (project_name service private_port : pystr) : prog pystr :=
  project ← get_project node_id project_name;
  _run_compose node_id project (#"port " ++ quote service ++ #" " ++ quote private_port) 60.

(** The version found in the output of [compose version --format json]. *)
Definition version_of (out : pystr) : res pystr :=
  let truthy obj k := match dict_get obj k with Some v => if json_truthy v then Some v else None | None => None end in
  match loads out with
  | Ok (JObj obj) => Ok (match truthy obj #"version", truthy obj #"Version" with
                         | Some v, _ | None, Some v => json_str v
                         | None, None => out
                         end)
  | Ok _ => Ok out
  | Raise e => if isinstance (exn_type e) JSONDecodeError then Ok out else Raise e
  end.

Definition version (node_id : uuid) (project_name : pystr) : prog (pystr * pystr) :=
  project ← get_project node_id project_name;
  node ← get_target node_id;
  try_except
    (let cmd := build_docker_command node #"compose version --format json" in
     '(stdout, stderr, exit_code) ← execute node cmd default_timeout;
     lift (raise_for_docker_error stderr exit_code);;
     let out := strip stdout in
     ver ← lift (version_of out);
     mret (ver, out))
    (on_exception (fun _ =>
       out ← _run_compose node_id project #"version --short" 60; mret (strip out, out))).

Definition exec (node_id : uuid) (project_name service command : pystr) (timeout : Z) : prog (pystr * pystr * Z) :=
  project ← get_project node_id project_name;
  out ← _run_compose node_id project (#"exec -T " ++ quote service ++ #" sh -c " ++ quote command) timeout;
  mret (out, [], 0%Z).

Definition run_once (node_id : uuid) (project_name service : pystr) (command : option pystr)
    (detached : bool) (timeout : Z) : prog pystr :=
  project ← get_project node_id project_name;
  let detached_flag := if detached then #" -d" else #" --rm" in
  let cmd_part := match nonempty command with Some c => #" " ++ quote c | None => [] end in
  _run_compose node_id project (#"run" ++ detached_flag ++ #" " ++ quote service ++ cmd_part) timeout.

(** ** The [kills] handler: the one argument that is not quoted *)

Definition kill_extra (signal : pystr) : pystr :=
  match signal with [] => [] | _ => #" -s " ++ signal end.
Definition compose_kills (sched : list nat) (node_id : uuid) (project_name signal : pystr)
    (services : list pystr) : prog ComposeBulkResultDTO :=
  verb_bulk sched node_id project_name #"kill" services (kill_extra signal) 60.
End compose.
