(* ===== verification/ComposeSpec.v ===== *)
(** * What the compose operations promise

    The command line every runtime operation sends, the completeness and
    termination of the paged listing, the per-service results, and the one
    handler whose argument reaches the shell unquoted. *)
From S2P Require Import Prelude PyStr Regex Shlex Errors Validation Json Bytes Effects Stable Dto Ports DockerCore Containers Compose.

Section spec.
Context `{Unicode} `{PyFloat} `{Host}.

(** ** Command lines *)

(** Write the file, then run compose on it with the environment of the project. *)
Definition env_words (project : ComposeViewDTO) : list pystr :=
  (fun kv => kv.1 ++ #"=" ++ kv.2) <$> default [] (cv_env project).
Definition compose_tokens (node : NodeConnectionDTO) (project : ComposeViewDTO) (b64 path : pystr)
    (args : list tok) : list tok :=
  [W #"printf"; W #"%s"; W b64; Op 124; W #"base64"; W #"-d"; Op 62; W path; Op 38; Op 38]
  ++ (W <$> env_words project)
  ++ (W <$> docker_prefix node ++ [ #"compose"; #"-p"; cv_project_name project; #"-f"; path]) ++ args.

Lemma docker_command_lexes node args ts :
  Lexes args ts -> Lexes (build_docker_command node args) ((W <$> docker_prefix node) ++ ts).
Proof.
  intros Ha. apply lexes_intro. unfold build_docker_command, docker_prefix. apply lexes_done.
  assert (Lexes (#"docker " ++ args) ([W #"docker"] ++ ts)) as Hd
    by by apply lexes_lit; [split; vm_compute|].
  destruct (n_docker_host node) as [[|c host]|]; [exact Hd| |exact Hd].
  change (#" docker ") with (#" " ++ #"docker ").
  rewrite <- (app_assoc (#" ")), (app_assoc (#"DOCKER_HOST=")).
  apply (lexes_space _ [W (#"DOCKER_HOST=" ++ c :: host)]); [|exact Hd].
  apply lexes_word, piece_app; [by apply piece_safe|apply piece_quote].
Qed.

Lemma env_prefix_lexes project s ts :
  Lexes s ts -> Lexes (_env_prefix (cv_env project) ++ s) ((W <$> env_words project) ++ ts).
Proof.
  intros Hs. unfold _env_prefix, env_words. destruct (cv_env project) as [[|kv env]|]; [exact Hs| |exact Hs].
  cbn [default]. rewrite <- (app_assoc (join _ _)). apply lexes_space; [|exact Hs].
  apply parts_join; [|done]. clear Hs. induction (kv :: env) as [|[k v] l IH]; [apply parts_nil|].
  apply (parts_app [quote k ++ #"=" ++ quote v] [k ++ #"=" ++ v]); [|exact IH].
  apply parts_one, lexes_word, piece_app; [apply piece_quote|].
  apply piece_app; [by apply piece_safe|apply piece_quote].
Qed.

Lemma compose_command_lex node project b64 path args ts :
  Lexes args ts -> sh_lex (compose_command node project b64 path args) = Some (compose_tokens node project b64 path ts).
Proof.
  intros Ha. apply lexes_done. unfold compose_command, compose_tokens. rewrite <- !app_assoc.
  apply (lexes_lit _ _ [W #"printf"; W #"%s"]); [by split; vm_compute|].
  eapply lexes_word_then; [apply piece_quote|vm_compute; reflexivity|].
  apply (lexes_lit _ _ [Op 124; W #"base64"; W #"-d"; Op 62]); [by split; vm_compute|].
  eapply lexes_word_then; [apply piece_quote|vm_compute; reflexivity|].
  apply (lexes_lit _ _ [Op 38; Op 38]); [by split; vm_compute|].
  apply env_prefix_lexes. rewrite fmap_app, <- app_assoc. apply docker_command_lexes.
  apply (lexes_lit _ _ [W #"compose"; W #"-p"]); [by split; vm_compute|].
  eapply lexes_word_then; [apply piece_quote|vm_compute; reflexivity|].
  apply (lexes_lit _ _ [W #"-f"]); [by split; vm_compute|].
  apply (lexes_space _ [W path]); [apply lexes_word, piece_quote|exact Ha].
Qed.

(** ** The operations *)

(** The texts the handlers pass as [extra], apart from a kill signal. *)
Inductive verb_extra := XNone | XTimeout (t : Z) | XForce (volumes : bool) | XNoCache.
Definition extra_text (x : verb_extra) : pystr :=
  match x with
  | XNone => [] | XTimeout t => #" -t " ++ str_Z t
  | XForce volumes => #" -f" ++ (if volumes then #" -v" else []) | XNoCache => #" --no-cache"
  end.
Definition extra_argv (x : verb_extra) : list pystr :=
  match x with
  | XNone => [] | XTimeout t => [ #"-t"; str_Z t]
  | XForce volumes => [ #"-f"] ++ (if volumes then [ #"-v"] else []) | XNoCache => [ #"--no-cache"]
  end.

Inductive compose_op :=
| CUp (pull build : bool) (services : list pystr)
| CDown (volumes remove_orphans : bool) (timeout : option Z) (images : option pystr)
| CVerb (verb : pystr) (services : list pystr) (extra : verb_extra) (timeout : Z)
| CPs (all : bool)
| CLogs (tail : Z) (since services : option pystr)
| CConfig | CImages
| CTop (service : option pystr)
| CPort (service private_port : pystr)
| CVersion
| CExec (service command : pystr) (timeout : Z)
| CRun (service : pystr) (command : option pystr) (detached : bool) (timeout : Z).

Definition run_compose_op (sched : list nat) (node_id : uuid) (name : pystr) (op : compose_op) : prog unit :=
  match op with
  | CUp pull build services => ignore (up sched node_id name pull build services)
  | CDown v r t i => ignore (down node_id name v r t i)
  | CVerb verb services extra t => ignore (verb_bulk sched node_id name verb services (extra_text extra) t)
  | CPs all => ignore (ps node_id name all)
  | CLogs tail since services => ignore (logs node_id name tail since services)
  | CConfig => ignore (config node_id name)
  | CImages => ignore (images node_id name)
  | CTop service => ignore (top node_id name service)
  | CPort service p => ignore (port node_id name service p)
  | CVersion => ignore (version node_id name)
  | CExec service command t => ignore (exec node_id name service command t)
  | CRun service command d t => ignore (run_once node_id name service command d t)
  end.

Definition opt_word (v : option pystr) : list pystr := match nonempty v with Some w => [w] | None => [] end.
Definition opt_words (flag : pystr) (v : option pystr) : list pystr :=
  match nonempty v with Some w => [flag; w] | None => [] end.
Definition per_service_argv (base : list pystr) (services : list pystr) : list (list pystr) :=
  match services with [] => [base] | _ => (fun s => base ++ [s]) <$> services end.

(** The compose arguments an operation may run: one command, one per service, or a
    command and its fallback. *)
Definition compose_argvs (op : compose_op) : list (list pystr) :=
  match op with
  | CUp pull build services =>
      per_service_argv ([ #"up"; #"-d"] ++ (if pull then [ #"--pull"; #"always"] else [])
                        ++ (if build then [ #"--build"] else [])) services
  | CDown v r t i =>
      [[ #"down"] ++ (if v then [ #"-v"] else []) ++ (if r then [ #"--remove-orphans"] else [])
       ++ opt_words #"--rmi" i ++ match t with Some t => [ #"-t"; str_Z t] | None => [] end]
  | CVerb verb services extra _ => per_service_argv ([verb] ++ extra_argv extra) services
  | CPs all => [[ #"ps"; #"--format"; #"json"] ++ (if all then [ #"-a"] else [])]
  | CLogs tail since services =>
      [[ #"logs"; #"--tail"; str_Z tail] ++ opt_words #"--since" since ++ opt_word services]
  | CConfig => [[ #"config"]]
  | CImages => [[ #"images"; #"--format"; #"json"]; [ #"config"; #"--images"]]
  | CTop service => [[ #"top"] ++ opt_word service]
  | CPort service p => [[ #"port"; service; p]]
  | CVersion => [[ #"version"; #"--short"]]
  | CExec service command _ => [[ #"exec"; #"-T"; service; #"sh"; #"-c"; command]]
  | CRun service command d _ => [[ #"run"] ++ (if d then [ #"-d"] else [ #"--rm"]) ++ [service] ++ opt_word command]
  end.

(** The file a project is written to, with the suffix that was drawn. *)
Definition compose_path (project : ComposeViewDTO) (suffix : pystr) : pystr :=
  path_join tempdir (#"nn-compose-" ++ ((fun c => if is_alnum c then c else 95%N) <$> cv_project_name project)
                     ++ #"-" ++ suffix ++ #".yml").

(** What has been answered before: the project that was asked for, and its node. *)
Definition was_stored (node_id : uuid) (name : pystr) (h : history) (project : ComposeViewDTO) : Prop :=
  existT (ComposeGet node_id name) (Ok (Some project) : res (answer (ComposeGet node_id name))) ∈ h.
Definition was_connected (node_id : uuid) (h : history) (node : NodeConnectionDTO) : Prop :=
  existT (GetConnection node_id) (Ok (Some node) : res (answer (GetConnection node_id))) ∈ h
  /\ n_is_docker_available node = true.
Definition was_drawn (h : history) (suffix : pystr) : Prop :=
  existT Uuid4Hex8 (Ok suffix : res (answer Uuid4Hex8)) ∈ h.
Definition compose_call (node_id : uuid) (name : pystr) (op : compose_op) (h : history) (c : call) : Prop :=
  match c with
  | GetConnection id => id = node_id
  | ComposeGet id project_name => id = node_id /\ project_name = name
  | Uuid4Hex8 => True
  | Execute node cmd _ => was_connected node_id h node /\
      ((exists project suffix bs argv, was_stored node_id name h project /\ was_drawn h suffix
         /\ encode (cv_compose project) = Ok bs /\ argv ∈ compose_argvs op
         /\ sh_lex cmd = Some (compose_tokens node project (b64encode bs) (compose_path project suffix) (W <$> argv)))
       \/ (op = CVersion /\ docker_words node [ #"compose"; #"version"; #"--format"; #"json"] cmd))
  | _ => False
  end.

(** ** Rules *)

Lemma wp_run_compose node_id project args timeout (P : call -> Prop) h :
  P (GetConnection node_id) -> P Uuid4Hex8 ->
  (forall node b64 path, P (Execute node (compose_command node project b64 path args) timeout)) ->
  wp (_run_compose node_id project args timeout) h (fun _ => P) (fun _ _ => True).
Proof.
  intros H1' H2' H3'. unfold _run_compose, _compose_file_path. repeat wp_step; done.
Qed.

Lemma wp_service_result label run (P : call -> Prop) h :
  (forall h, wp run h (fun _ => P) (fun _ _ => True)) ->
  wp (service_result label run) h (fun _ => P)
    (fun _ r => match r with
                | Ok s => sr_service s = label
                | Raise e => isinstance (exn_type e) Exception_ = false
                end).
Proof.
  intros Hrun. unfold service_result. apply wp_try, wp_bind.
  eapply wp_mono; [apply Hrun|done|]. cbn beta. intros h' [out|e] _; cbn beta iota; [done|].
  wp_step; done.
Qed.

Lemma wp_get_project node_id name (P : call -> Prop) h (Q : history -> res ComposeViewDTO -> Prop) :
  P (ComposeGet node_id name) -> (forall h r, Q h r) ->
  wp (get_project node_id name) h (fun _ => P) Q.
Proof.
  intros HP HQ. unfold get_project. apply wp_bind, wp_lift.
  destruct (_validate_project_name name) as [v|] eqn:E; cbn beta iota; [|done].
  assert (v = name) as ->.
  { unfold _validate_project_name in E. destruct (_ || _) in E; [done|]. by injection E. }
  repeat wp_step; done.
Qed.

Lemma wp_per_service sched services label whole one (P : call -> Prop) h :
  (services = [] -> forall h, wp whole h (fun _ => P) (fun _ _ => True)) ->
  (forall svc, svc ∈ services -> forall h, wp (one svc) h (fun _ => P) (fun _ _ => True)) ->
  wp (per_service sched services label whole one) h (fun _ => P)
    (fun _ r => match r with
                | Ok l => sr_service <$> l = match services with [] => [label] | _ => services end
                | Raise e => isinstance (exn_type e) Exception_ = false
                end).
Proof.
  intros Hwhole Hone. unfold per_service. destruct services as [|s ss].
  - apply wp_bind. eapply wp_mono; [by apply wp_service_result, Hwhole|done|]. cbn beta.
    intros h' [r|e] Hr; cbn beta iota; [|done]. apply wp_mret. cbn. by rewrite Hr.
  - eapply wp_mono; [apply (local_gather sched P
      (fun svc r => match r with
                    | Ok s => sr_service s = svc
                    | Raise e => isinstance (exn_type e) Exception_ = false
                    end))|done|].
    + intros svc Hsvc h'. by apply wp_service_result, Hone.
    + cbn beta. intros h' [l|e]; [|by intros (x & _ & Hx)].
      intros HF. clear -HF. induction HF as [|svc r svcs rs Hr _ IH]; [done|]. cbn. by rewrite Hr, IH.
Qed.

(** ** Guards over what was answered *)

Section guards.
Context (node_id : uuid) (name : pystr) (op : compose_op).
Local Abbreviation guarded p h := (gwp p h (compose_call node_id name op) (fun _ _ => True)).

Lemma guarded_then {A B} (p : prog A) (f : A -> prog B) h (R : history -> A -> Prop) :
  gwp p h (compose_call node_id name op) (fun h' r => match r with Ok a => R h' a | Raise _ => True end) ->
  (forall a k, R (h ++ k) a -> guarded (f a) (h ++ k)) -> guarded (p ≫= f) h.
Proof.
  intros Hp Hf. apply gwp_bind. eapply gwp_mono; [by apply gwp_extends|]. intros h' [a|e] [Hr [k ->]]; [by apply Hf|done].
Qed.
Lemma guarded_bind {A B} (p : prog A) (f : A -> prog B) h :
  guarded p h -> (forall a k, guarded (f a) (h ++ k)) -> guarded (p ≫= f) h.
Proof.
  intros Hp Hf. apply (guarded_then p f h (fun _ _ => True)); [|by intros a k _; apply Hf]. eapply gwp_mono; [exact Hp|].
  by intros ? [].
Qed.
Lemma guarded_try {A} (p q : prog A) h : guarded p h -> (forall k, guarded q (h ++ k)) ->
  guarded (try_except p (on_exception (fun _ => q))) h.
Proof.
  intros Hp Hq. apply gwp_try. eapply gwp_mono; [by apply gwp_extends|]. intros h' [a|e] [_ [k ->]]; [done|].
  unfold on_exception. by destruct (isinstance _ _).
Qed.
Lemma guarded_lift {A} (r : res A) h : guarded (lift r) h.
Proof. done. Qed.
Lemma guarded_mret {A} (a : A) h : guarded (mret a) h.
Proof. done. Qed.

Lemma project_stored_later h k project : was_stored node_id name h project -> was_stored node_id name (h ++ k) project.
Proof. intros Hs. apply elem_of_app. by left. Qed.
Lemma connected_later h k node : was_connected node_id h node -> was_connected node_id (h ++ k) node.
Proof. intros [Hs Hd]. split; [apply elem_of_app; by left|done]. Qed.

Lemma gwp_get_project h : gwp (get_project node_id name) h (compose_call node_id name op)
  (fun h' r => match r with Ok project => was_stored node_id name h' project | Raise _ => True end).
Proof.
  unfold get_project, _validate_project_name. apply gwp_bind. destruct (_ || _); [done|]. intros k. cbn [lift].
  apply gwp_bind, gwp_perform; [done|]. intros j j' [[project|]|e]; [|done..]. intros j2. unfold was_stored.
  rewrite !elem_of_app. left; left; right. by left.
Qed.
Lemma gwp_get_target h : gwp (get_target node_id) h (compose_call node_id name op)
  (fun h' r => match r with Ok node => was_connected node_id h' node | Raise _ => True end).
Proof.
  unfold get_target. apply gwp_bind, gwp_perform; [done|]. intros j j' [[node|]|e]; [|done..].
  destruct (n_is_docker_available node) eqn:Ed; cbn [negb]; [|done]. intros j2. split; [|done].
  rewrite !elem_of_app. left; left; right. by left.
Qed.

(** A run of compose whose arguments are allowed, on the project that was read. *)
Lemma run_compose_call project args argv timeout h : was_stored node_id name h project ->
  argv ∈ compose_argvs op -> Lexes args (W <$> argv) -> guarded (_run_compose node_id project args timeout) h.
Proof.
  intros Hs Hin Ha. unfold _run_compose. eapply guarded_then; [apply gwp_get_target|]. intros node k Hn.
  apply (guarded_then _ _ _ (fun h' path => exists suffix, was_drawn h' suffix /\ path = compose_path project suffix)).
  { unfold _compose_file_path. apply gwp_bind, gwp_perform; [done|]. intros j j' [suffix|e]; [|done]. intros j2.
    exists suffix. split; [|done]. unfold was_drawn. rewrite !elem_of_app. left; left; right. by left. }
  intros path k2 (suffix & Hd & ->). apply (guarded_then _ _ _ (fun _ bs => encode (cv_compose project) = Ok bs)).
  { apply gwp_lift. intros _. by destruct (encode _). }
  intros bs k3 Hb. apply guarded_bind; [|intros [[out err] code] j; apply guarded_bind; [apply guarded_lift|intros [] ?; apply guarded_mret]].
  unfold execute. apply guarded_bind; [|done]. apply gwp_perform; [|done]. intros j. split; [by do 3 apply connected_later|].
  left. exists project, suffix, bs, argv. split_and!; [by do 4 apply project_stored_later| |done|done|by apply compose_command_lex].
  unfold was_drawn in *. do 2 (apply elem_of_app; left). exact Hd.
Qed.
Lemma run_compose_then {A} project args argv timeout (k : pystr -> prog A) h : was_stored node_id name h project ->
  argv ∈ compose_argvs op -> Lexes args (W <$> argv) -> (forall out j, guarded (k out) (h ++ j)) ->
  guarded (_run_compose node_id project args timeout ≫= k) h.
Proof. intros Hs Hin Ha Hk. apply guarded_bind; [by eapply run_compose_call|done]. Qed.
Lemma guarded_project {A} (k : ComposeViewDTO -> prog A) h :
  (forall project h, was_stored node_id name h project -> guarded (k project) h) -> guarded (get_project node_id name ≫= k) h.
Proof. intros Hk. eapply guarded_then; [apply gwp_get_project|]. intros p j. apply Hk. Qed.

Lemma guarded_service label run h : guarded run h -> guarded (service_result label run) h.
Proof.
  intros Hr. unfold service_result. apply gwp_try. eapply gwp_mono; [apply (guarded_bind run); [exact Hr|done]|].
  intros h' [a|e] _; [done|]. unfold on_exception. by destruct (isinstance _ _).
Qed.
Lemma per_service_call sched services label whole one base project timeout h : was_stored node_id name h project ->
  compose_argvs op = per_service_argv base services ->
  Lexes whole (W <$> base) -> (forall svc, one svc = whole ++ #" " ++ quote svc) ->
  guarded (per_service sched services label (_run_compose node_id project whole timeout)
        (fun svc => _run_compose node_id project (one svc) timeout)) h.
Proof.
  intros Hs Hargvs Hbase Hone. unfold per_service. destruct services as [|s ss].
  - apply guarded_bind; [|done]. apply guarded_service. eapply run_compose_call; [done| |exact Hbase]. rewrite Hargvs. by left.
  - eapply gwp_mono; [apply (gwp_gather _ _ (fun _ _ _ => True))|done]. intros svc Hsvc. apply guarded_service.
    apply (run_compose_call project _ (base ++ [svc])); [done|..].
    + rewrite Hargvs. unfold per_service_argv. apply list_elem_of_fmap. by exists svc.
    + rewrite Hone, fmap_app. apply lexes_space; [exact Hbase|]. apply lexes_word, piece_quote.
Qed.
End guards.

Lemma wp_true_bind {A B} (p : prog A) (f : A -> prog B) h G :
  wp p h G (fun _ _ => True) -> (forall a h, wp (f a) h G (fun _ _ => True)) ->
  wp (p ≫= f) h G (fun _ _ => True).
Proof.
  intros Hp Hf. apply wp_bind. eapply wp_mono; [exact Hp|done|]. cbn beta. intros h' [a|e] _; auto.
Qed.

Lemma up_args_lex (pull build : bool) :
  Lexes (up_args pull build)
    (W <$> [ #"up"; #"-d"] ++ (if pull then [ #"--pull"; #"always"] else []) ++ (if build then [ #"--build"] else [])).
Proof. destruct pull, build; apply lexes_intro; vm_compute; reflexivity. Qed.

Lemma lexes_opt_space (v : option pystr) s ts :
  Lexes s ts ->
  Lexes (s ++ match nonempty v with Some w => #" " ++ quote w | None => [] end) (ts ++ (W <$> opt_word v)).
Proof.
  intros Hs. unfold opt_word. destruct (nonempty v) as [w|]; [|by rewrite !app_nil_r].
  apply lexes_space; [done|]. apply lexes_word, piece_quote.
Qed.

Lemma lexes_opt_flag flag (v : option pystr) s ts l :
  Lexes s ts -> l = #" " ++ flag ++ #" " -> flag <> [] -> forallb safe_char flag = true ->
  Lexes (s ++ match nonempty v with Some w => l ++ quote w | None => [] end) (ts ++ (W <$> opt_words flag v)).
Proof.
  intros Hs -> Hne Hf. unfold opt_words. destruct (nonempty v) as [w|]; [|by rewrite !app_nil_r].
  rewrite <- !app_assoc. apply lexes_space; [done|]. apply (lexes_flag_of flag w Hne Hf).
Qed.

Lemma down_args_lex (v r : bool) t i :
  Lexes (down_args v r t i)
    (W <$> [ #"down"] ++ (if v then [ #"-v"] else []) ++ (if r then [ #"--remove-orphans"] else [])
       ++ opt_words #"--rmi" i ++ match t with Some t => [ #"-t"; str_Z t] | None => [] end).
Proof.
  unfold down_args. rewrite (app_assoc (#" down")), (app_assoc (#" down" ++ _)), (app_assoc ((#" down" ++ _) ++ _)).
  eapply lexes_eq with (ts := ((W <$> [ #"down"] ++ (if v then [ #"-v"] else [])
      ++ (if r then [ #"--remove-orphans"] else [])) ++ (W <$> opt_words #"--rmi" i))
      ++ (W <$> match t with Some t => [ #"-t"; str_Z t] | None => [] end)).
  - assert (Lexes (((#" down" ++ (if v then #" -v" else [])) ++ (if r then #" --remove-orphans" else []))
              ++ match nonempty i with Some w => #" --rmi " ++ quote w | None => [] end)
             ((W <$> [ #"down"] ++ (if v then [ #"-v"] else []) ++ (if r then [ #"--remove-orphans"] else []))
              ++ (W <$> opt_words #"--rmi" i))) as Hl.
    { apply (lexes_opt_flag (#"--rmi")); [|reflexivity|discriminate|vm_compute; reflexivity].
      destruct v, r; apply lexes_intro; vm_compute; reflexivity. }
    destruct t as [t|]; [|by rewrite !app_nil_r].
    change (#" -t " ++ str_Z t) with (#" " ++ #"-t " ++ str_Z t). apply lexes_space; [exact Hl|lex_go].
  - rewrite <- !fmap_app. f_equal. by rewrite <- !app_assoc.
Qed.

Lemma extra_lex verb x :
  verb ∈ _ALLOWED_COMPOSE_VERBS -> Lexes (verb ++ extra_text x) (W <$> [verb] ++ extra_argv x).
Proof.
  intros Hv. assert (Piece verb verb) as Hp.
  { apply piece_safe; revert Hv; unfold _ALLOWED_COMPOSE_VERBS; rewrite !elem_of_cons, elem_of_nil;
      intros Hv; repeat (destruct Hv as [->|Hv]; [done|]); done. }
  destruct x as [|t|volumes|]; cbn [extra_text extra_argv].
  - rewrite app_nil_r. by apply lexes_word.
  - change (#" -t " ++ str_Z t) with (#" " ++ #"-t " ++ str_Z t).
    apply (lexes_space verb [W verb]); [by apply lexes_word|lex_go].
  - destruct volumes; (eapply lexes_word_end; [exact Hp|vm_compute; reflexivity|vm_compute; reflexivity]).
  - eapply lexes_word_end; [exact Hp|vm_compute; reflexivity|vm_compute; reflexivity].
Qed.

Lemma logs_args_lex tail since services :
  Lexes (#"logs --tail " ++ str_Z tail
         ++ match nonempty since with Some s => #" --since " ++ quote s | None => [] end
         ++ match nonempty services with Some s => #" " ++ quote s | None => [] end)
    (W <$> [ #"logs"; #"--tail"; str_Z tail] ++ opt_words #"--since" since ++ opt_word services).
Proof.
  rewrite (app_assoc (str_Z tail)), (app_assoc #"logs --tail "), (app_assoc #"logs --tail ").
  rewrite (app_assoc [ #"logs"; #"--tail"; str_Z tail]), fmap_app. apply lexes_opt_space.
  rewrite fmap_app. apply (lexes_opt_flag (#"--since")); [lex_go|reflexivity|discriminate|vm_compute; reflexivity].
Qed.

Lemma run_args_lex (detached : bool) service command :
  Lexes (#"run" ++ (if detached then #" -d" else #" --rm") ++ #" " ++ quote service
         ++ match nonempty command with Some c => #" " ++ quote c | None => [] end)
    (W <$> [ #"run"] ++ (if detached then [ #"-d"] else [ #"--rm"]) ++ [service] ++ opt_word command).
Proof.
  rewrite (app_assoc (#"run")), (app_assoc (#" ")), (app_assoc (#"run" ++ _)).
  rewrite (app_assoc [ #"run"]), (app_assoc ([ #"run"] ++ _)), fmap_app. apply lexes_opt_space.
  rewrite fmap_app. apply lexes_space; [|apply lexes_word, piece_quote].
  destruct detached; apply lexes_intro; vm_compute; reflexivity.
Qed.


(** A compose verb returns one result per requested service, in the order of the request
    (one for the whole project without services), under any interleaving, with counters that add
    up. *)
Theorem compose_verb_results sched node_id name verb services extra timeout h :
  wp (verb_bulk sched node_id name verb services extra timeout) h (fun _ _ => True)
    (fun _ r => forall dto, r = Ok dto ->
       (services <> [] -> sr_service <$> cb_results dto = services)
       /\ cb_total dto = Z.max 1 (Z.of_nat (length services))
       /\ cb_succeeded dto = count (fun r => bool_decide (sr_status r = Success)) (cb_results dto)
       /\ (cb_total dto = cb_succeeded dto + cb_failed dto)%Z /\ (0 <= cb_failed dto)%Z).
Proof.
  unfold verb_bulk, _bulk_verb. apply wp_bind. apply (wp_get_project _ _ (fun _ => True)); [done|].
  intros h1 [p|e]; [|done]. cbn beta iota. apply wp_bind.
  case_bool_decide; cbn [negb]; [|done].
  eapply wp_mono; [apply (wp_per_service _ _ _ _ _ (fun _ => True))|done|].
  1, 2: intros; by apply wp_run_compose.
  cbn beta. intros h2 [l|e] Hl; cbn beta iota; [|done]. apply wp_mret. intros dto [= <-].
  unfold bulk_result. cbn.
  pose proof (count_le_length (fun r => bool_decide (sr_status r = Success)) l) as Hc.
  assert (length l = match services with [] => 1 | _ => length services end) as Hlen.
  { apply (f_equal length) in Hl. rewrite length_fmap in Hl. rewrite Hl. by destruct services. }
  destruct services as [|s ss]; split_and!; try done; rewrite ?Hlen; cbn [length] in *; lia.
Qed.

(** ** Listing every page *)

(** A reader that holds [items] for the node and serves slices of them. *)
Definition serves (o : oracle) (node_id : uuid) (items : list ComposeViewDTO) : Prop :=
  forall h offset limit,
    o h (ComposeList node_id offset limit) = Ok (take (Z.to_nat limit) (drop (Z.to_nat offset) items)).

Lemma list_all_go_complete o node_id items fuel acc offset h :
  serves o node_id items -> acc = take offset items -> offset <= length items ->
  length items < offset + 100 * fuel ->
  (run o (list_all_go fuel node_id acc (Z.of_nat offset)) h).1 = Ok (Some items).
Proof.
  intros Hs. revert acc offset h. induction fuel as [|fuel IH]; intros acc offset h -> Hle Hlt; [lia|].
  cbn [list_all_go]. unfold list_projects. cbn [mbind prog_bind pbind perform run].
  rewrite (Hs _ (Z.of_nat offset) 100%Z). cbn [pbind].
  rewrite Nat2Z.id. change (Z.to_nat 100) with 100.
  rewrite take_take_drop, length_take, length_drop.
  destruct (Z.of_nat (100 `min` (length items - offset)) <? 100)%Z eqn:Hlast; to_prop.
  - cbn. by rewrite take_ge by lia.
  - replace (Z.of_nat offset + 100)%Z with (Z.of_nat (offset + 100)) by lia.
    apply IH; [done|lia|lia].
Qed.

(** Listing all projects of a node terminates and returns every project exactly once and in
    order, for any number of projects: fewer than 100 times the number of rounds allowed. *)
Theorem list_all_projects_complete o node_id items fuel :
  serves o node_id items -> length items < 100 * fuel ->
  (run o (list_all_projects fuel node_id) []).1 = Ok (Some items).
Proof.
  intros Hs Hlt. apply (list_all_go_complete o node_id items fuel [] 0); [done|done|lia|lia].
Qed.

(** ** The unquoted kill signal *)

(** The signal of a compose kill request is not quoted: the accepted 8-character signal
    9&reboot makes every executed line a compose kill sent to the background followed by the
    command reboot. *)
Theorem compose_kill_signal_reaches_the_shell sched node_id name h :
  wp (compose_kills sched node_id name #"9&reboot" []) h
    (fun _ c => match c with
                | Execute node cmd _ => exists project b64 path,
                    sh_lex cmd = Some (compose_tokens node project b64 path
                                         [W #"kill"; W #"-s"; W #"9"; Op 38; W #"reboot"])
                | _ => True
                end)
    (fun _ _ => True).
Proof.
  unfold compose_kills, verb_bulk, _bulk_verb.
  apply wp_true_bind.
  { unfold get_project. repeat wp_step; done. }
  intros p h1. apply wp_true_bind; [|done]. case_bool_decide; cbn [negb]; [|done].
  eapply wp_mono; [apply (wp_per_service _ _ _ _ _ (fun c => match c with
                | Execute node cmd _ => exists project b64 path,
                    sh_lex cmd = Some (compose_tokens node project b64 path
                                         [W #"kill"; W #"-s"; W #"9"; Op 38; W #"reboot"])
                | _ => True
                end))|done|done].
  - intros _ h2. apply wp_run_compose; [done..|]. intros node b64 path. exists p, b64, path.
    apply compose_command_lex. apply lexes_intro. vm_compute. reflexivity.
  - intros svc Hsvc. by apply elem_of_nil in Hsvc.
Qed.
End spec.

(** A reader over 150 projects: two pages. *)
Definition sample_project (i : nat) : ComposeViewDTO :=
  {| cv_id := N.of_nat i; cv_node_id := 7; cv_project_name := #"web"; cv_compose := #"services: {}";
     cv_env := None; cv_template_pack_id := None; cv_created_at := 0; cv_updated_at := 0 |}.
Definition sample_projects : list ComposeViewDTO := sample_project <$> seq 0 150.
Definition sample_reader : oracle := fun _ c =>
  match c with
  | ComposeList _ offset limit => Ok (take (Z.to_nat limit) (drop (Z.to_nat offset) sample_projects))
  | _ => raise RuntimeError #"unused"
  end.

Lemma list_all_projects_witness :
  length sample_projects = 150
  /\ (run sample_reader (list_all_projects 2 7) []).1 = Ok (Some sample_projects).
Proof.
  split; [vm_compute; reflexivity|].
  apply (list_all_projects_complete sample_reader 7 sample_projects 2).
  - intros h offset limit. reflexivity.
  - apply Nat.ltb_lt. vm_compute. reflexivity.
Defined.
