(* ===== verification/Output.v ===== *)
(** * Persisted payloads

    [app/application/policies/output.py]: cutting command output to a number of bytes
    without splitting a character; [app/application/policies/audit.py]: dropping
    credentials and command payloads from audit details. *)
From S2P Require Import Prelude PyStr Errors Json Bytes.

(** ** [bytes.decode(errors="ignore")] *)

Section decode.
Open Scope N_scope.

(** A continuation byte. *)
Definition cont (b : N) : bool := in_range 128 191 b.
(** The well-formed two, three and four byte sequences. *)
Definition two (b0 b1 : N) : bool := in_range 194 223 b0 && cont b1.
Definition three (b0 b1 b2 : N) : bool :=
  ((b0 =? 224) && in_range 160 191 b1 || in_range 225 236 b0 && cont b1
   || (b0 =? 237) && in_range 128 159 b1 || in_range 238 239 b0 && cont b1) && cont b2.
Definition four (b0 b1 b2 b3 : N) : bool :=
  ((b0 =? 240) && in_range 144 191 b1 || in_range 241 243 b0 && cont b1
   || (b0 =? 244) && in_range 128 143 b1) && cont b2 && cont b3.

(** Bytes that start no well-formed sequence are dropped. *)
Fixpoint decode_ignore (bs : bytes) : pystr :=
  match bs with
  | [] => []
  | b0 :: t0 =>
      if b0 <? 128 then b0 :: decode_ignore t0
      else match t0 with
        | [] => []
        | b1 :: t1 =>
            if two b0 b1 then (b0 - 192) * 64 + (b1 - 128) :: decode_ignore t1
            else match t1 with
              | [] => decode_ignore t0
              | b2 :: t2 =>
                  if three b0 b1 b2
                  then (b0 - 224) * 4096 + (b1 - 128) * 64 + (b2 - 128) :: decode_ignore t2
                  else match t2 with
                    | [] => decode_ignore t0
                    | b3 :: t3 =>
                        if four b0 b1 b2 b3
                        then (b0 - 240) * 262144 + (b1 - 128) * 4096 + (b2 - 128) * 64 + (b3 - 128)
                             :: decode_ignore t3
                        else decode_ignore t0
                    end
              end
        end
  end.
End decode.

(** ** The policies *)

Record BoundedOutput := { bo_value : pystr; bo_original_bytes : Z; bo_truncated : bool }.
Definition DEFAULT_MAX_PERSISTED_OUTPUT_BYTES : Z := 65536.

Definition bound_output (value : pystr) (max_bytes : Z) : res BoundedOutput :=
  if (max_bytes <? 0)%Z then raise ValueError #"max_bytes must be non-negative"
  else
    raw ← encode value;
    if (Z.of_nat (length raw) <=? max_bytes)%Z
    then Ok {| bo_value := value; bo_original_bytes := Z.of_nat (length raw); bo_truncated := false |}
    else
      let truncated := decode_ignore (take (Z.to_nat max_bytes) raw) in
      Ok {| bo_value := truncated; bo_original_bytes := Z.of_nat (length raw); bo_truncated := true |}.

Definition _SENSITIVE_DETAIL_KEYS : list pystr :=
  [ #"password"; #"ssh_key"; #"token"; #"api_key"; #"authorization"; #"command"; #"params"; #"stdout"; #"stderr"].

Definition sanitize_audit_details `{Unicode} (details : jobject) : jobject :=
  List.filter (fun kv => negb (bool_decide (lower kv.1 ∈ _SENSITIVE_DETAIL_KEYS))) details.

(** ** Decoding what was encoded *)

Section laws.
Open Scope N_scope.

Definition scalar (c : N) : bool := (c <? 1114112) && negb (is_surrogate c).

Lemma in_range_true lo hi c : lo <= c -> c <= hi -> in_range lo hi c = true.
Proof. intros ? ?. unfold in_range. rewrite !(proj2 (N.leb_le _ _)) by lia. done. Qed.
Lemma in_range_false lo hi c : c < lo \/ hi < c -> in_range lo hi c = false.
Proof.
  intros Hc. unfold in_range. destruct (N.leb_spec lo c), (N.leb_spec c hi); cbn; lia || done.
Qed.

(** Bytes from 128 that start nothing. *)
Lemma two_false b0 b1 : b0 < 194 \/ 223 < b0 -> two b0 b1 = false.
Proof. intros Hb. unfold two. by rewrite in_range_false. Qed.
Lemma three_false b0 b1 b2 : b0 < 224 \/ 239 < b0 -> three b0 b1 b2 = false.
Proof.
  intros Hb. unfold three. rewrite (in_range_false 225 236), (in_range_false 238 239) by lia.
  by rewrite !(proj2 (N.eqb_neq _ _)) by lia.
Qed.

(** The encodings by number of bytes. *)
Lemma utf8_char_cases c :
  scalar c = true ->
  (c < 128 /\ utf8_char c = [c])
  \/ (exists b0 b1, utf8_char c = [b0; b1] /\ 128 <= b0 /\ 128 <= b1 < 192 /\ two b0 b1 = true
        /\ (b0 - 192) * 64 + (b1 - 128) = c)
  \/ (exists b0 b1 b2, utf8_char c = [b0; b1; b2] /\ 224 <= b0 /\ 128 <= b1 < 192 /\ 128 <= b2 < 192
        /\ three b0 b1 b2 = true /\ (b0 - 224) * 4096 + (b1 - 128) * 64 + (b2 - 128) = c)
  \/ (exists b0 b1 b2 b3, utf8_char c = [b0; b1; b2; b3] /\ 240 <= b0 /\ 128 <= b1 < 192
        /\ 128 <= b2 < 192 /\ 128 <= b3 < 192 /\ four b0 b1 b2 b3 = true
        /\ (b0 - 240) * 262144 + (b1 - 128) * 4096 + (b2 - 128) * 64 + (b3 - 128) = c).
Proof.
  unfold scalar, is_surrogate. intros [Hmax%N.ltb_lt Hs%negb_true_iff]%andb_true_iff.
  assert (c < 55296 \/ 57343 < c) as Hs'.
  { destruct (N.leb_spec 55296 c), (N.leb_spec c 57343); [|lia..].
    by rewrite in_range_true in Hs by lia. }
  unfold utf8_char.
  destruct (N.ltb_spec c 128) as [H1|H1]; [by left|right].
  destruct (N.ltb_spec c 2048) as [H2|H2]; [left|right].
  - do 2 eexists. split; [reflexivity|]. split_and!; try dlia.
    unfold two, cont. by rewrite !in_range_true by dlia.
  - destruct (N.ltb_spec c 65536) as [H3|H3]; [left|right].
    + do 3 eexists. split; [reflexivity|]. split_and!; try dlia.
      unfold three, cont. rewrite (in_range_true 128 191 (128 + c mod 64)) by dlia. rewrite andb_true_r.
      destruct (N.eqb_spec (224 + c / 4096) 224); [by rewrite (in_range_true 160 191) by dlia|].
      rewrite (in_range_true 128 191) by dlia. rewrite !andb_true_r.
      destruct (N.eqb_spec (224 + c / 4096) 237).
      * rewrite (in_range_true 128 159) by dlia. by rewrite !orb_true_r.
      * cbn [andb orb]. rewrite orb_false_r.
        destruct (N.leb_spec (224 + c / 4096) 236); [by rewrite in_range_true by dlia|].
        rewrite (in_range_true 238 239) by dlia. apply orb_true_r.
    + do 4 eexists. split; [reflexivity|]. split_and!; try dlia.
      unfold four, cont. rewrite (in_range_true 128 191 (128 + c mod 64)) by dlia.
      rewrite (in_range_true 128 191 (128 + (c / 64) mod 64)) by dlia. rewrite !andb_true_r.
      destruct (N.eqb_spec (240 + c / 262144) 240); [by rewrite (in_range_true 144 191) by dlia|].
      rewrite (in_range_true 128 191) by dlia. rewrite andb_true_r.
      destruct (N.eqb_spec (240 + c / 262144) 244).
      * rewrite (in_range_true 128 143) by dlia. by rewrite !orb_true_r.
      * cbn [andb orb]. by rewrite in_range_true by dlia.
Qed.

Lemma high_byte b : 128 <= b -> (b <? 128) = false.
Proof. intros. by apply N.ltb_ge. Qed.

Lemma decode_char c r :
  scalar c = true -> decode_ignore (utf8_char c ++ r) = c :: decode_ignore r.
Proof.
  intros Hc. destruct (utf8_char_cases c Hc)
    as [[Hlt ->]|[(b0&b1&->&H0&H1&Ht&<-)|[(b0&b1&b2&->&H0&H1&H2&Ht&<-)|(b0&b1&b2&b3&->&H0&H1&H2&H3&Ht&<-)]]];
    cbn [app decode_ignore].
  - by rewrite (proj2 (N.ltb_lt _ _) Hlt).
  - by rewrite high_byte, Ht.
  - by rewrite high_byte, two_false, Ht by lia.
  - by rewrite high_byte, two_false, three_false, Ht by lia.
Qed.

(** A character cut in the middle leaves nothing. *)
Lemma decode_cut c n :
  scalar c = true -> (n < length (utf8_char c))%nat -> decode_ignore (take n (utf8_char c)) = [].
Proof.
  intros Hc Hn. destruct (utf8_char_cases c Hc)
    as [[Hlt Hu]|[(b0&b1&Hu&H0&H1&_)|[(b0&b1&b2&Hu&H0&H1&H2&_)|(b0&b1&b2&b3&Hu&H0&H1&H2&H3&_)]]];
    rewrite Hu in *; cbn [length] in Hn.
  all: destruct n as [|[|[|[|n]]]]; try lia; cbn [take decode_ignore]; try done.
  all: rewrite !high_byte by lia; try done.
  all: rewrite ?(two_false b0), ?(two_false b1), ?(three_false b0) by lia; done.
Qed.

(** ** Cutting *)

(** How many characters fit in [n] bytes. *)
Fixpoint fit (n : nat) (s : pystr) : nat :=
  match s with
  | [] => 0
  | c :: s => if (length (utf8_char c) <=? n)%nat then S (fit (n - length (utf8_char c)) s) else 0
  end.

Lemma decode_cut_text n s :
  forallb scalar s = true -> decode_ignore (take n (flat_map utf8_char s)) = take (fit n s) s.
Proof.
  revert n. induction s as [|c s IH]; intros n Hs; [by destruct n|].
  cbn [forallb] in Hs. apply andb_true_iff in Hs as [Hc Hs]. cbn [flat_map fit].
  destruct (Nat.leb_spec (length (utf8_char c)) n) as [Hn|Hn].
  - rewrite take_app_ge by lia. rewrite decode_char by done. cbn [take]. by rewrite IH.
  - rewrite take_app_le by lia. by apply decode_cut.
Qed.

Lemma fit_bytes n s : (length (flat_map utf8_char (take (fit n s) s)) <= n)%nat.
Proof.
  revert n. induction s as [|c s IH]; intros n; cbn [fit]; [cbn; lia|].
  destruct (Nat.leb_spec (length (utf8_char c)) n) as [Hn|Hn]; [|cbn; lia].
  cbn [take flat_map]. rewrite length_app. specialize (IH (n - length (utf8_char c))%nat). lia.
Qed.

Lemma fit_maximal n s :
  (n < length (flat_map utf8_char s))%nat ->
  (n < length (flat_map utf8_char (take (S (fit n s)) s)))%nat.
Proof.
  revert n. induction s as [|c s IH]; intros n; [cbn; lia|]. cbn [fit flat_map]. rewrite length_app.
  destruct (Nat.leb_spec (length (utf8_char c)) n) as [Hn|Hn]; intros Hlt.
  - specialize (IH (n - length (utf8_char c))%nat ltac:(lia)). rewrite firstn_cons. cbn [flat_map].
    rewrite length_app. lia.
  - cbn [take flat_map]. rewrite length_app. lia.
Qed.

Lemma scalar_str s : is_str s = true -> existsb is_surrogate s = false -> forallb scalar s = true.
Proof.
  unfold is_str. induction s as [|c s IH]; [done|]. cbn [forallb existsb].
  intros [Hc Hs]%andb_true_iff [Hc' Hs']%orb_false_iff. unfold scalar at 1.
  rewrite Hc, Hc'. cbn [negb andb]. by apply IH.
Qed.
End laws.

(** ** What the policies promise *)

(** The number of bytes of a text. *)
Definition utf8_length (s : pystr) : Z := Z.of_nat (length (flat_map utf8_char s)).

(** Bounded output is the longest prefix of whole characters that fits the byte limit, with
    the original byte size, marked as truncated exactly when the text did not fit; a negative
    limit and a text that has no encoding are the only errors. *)
Theorem bound_output_longest_prefix value max_bytes :
  is_str value = true ->
  match bound_output value max_bytes with
  | Ok b =>
      bo_original_bytes b = utf8_length value
      /\ (bo_truncated b = true <-> (max_bytes < utf8_length value)%Z)
      /\ (bo_truncated b = false -> bo_value b = value)
      /\ (utf8_length (bo_value b) <= max_bytes)%Z
      /\ exists k, bo_value b = take k value
           /\ (bo_truncated b = true -> (max_bytes < utf8_length (take (S k) value))%Z)
  | Raise e =>
      ((max_bytes < 0)%Z /\ exn_type e = ValueError)
      \/ ((0 <= max_bytes)%Z /\ existsb is_surrogate value = true /\ exn_type e = UnicodeEncodeError)
  end.
Proof.
  intros Hstr. unfold bound_output, encode, utf8_length.
  destruct (Z.ltb_spec max_bytes 0) as [Hneg|Hpos]; [by left|].
  destruct (existsb is_surrogate value) eqn:Hs; [by right|]. cbn [mbind res_bind].
  destruct (Z.leb_spec (Z.of_nat (length (flat_map utf8_char value))) max_bytes) as [Hle|Hlt]; cbn.
  - split_and!; [done|split; [done|lia]|done|done|]. exists (length value). by rewrite take_ge.
  - rewrite decode_cut_text by by apply scalar_str.
    pose proof (fit_bytes (Z.to_nat max_bytes) value).
    pose proof (fit_maximal (Z.to_nat max_bytes) value ltac:(lia)).
    split_and!; [done|done|done|lia|]. exists (fit (Z.to_nat max_bytes) value). split; [done|lia].
Qed.

(** Eight bytes hold the three characters of two bytes each, and one more byte is left. *)
Lemma bound_output_witness :
  is_str [233; 233; 233; 8364; 33]%N = true
  /\ bound_output [233; 233; 233; 8364; 33]%N 8
     = Ok {| bo_value := [233; 233; 233]%N; bo_original_bytes := 10; bo_truncated := true |}
  /\ (utf8_length [233; 233; 233]%N <= 8)%Z.
Proof.
  split; [reflexivity|]. split; [vm_compute; reflexivity|].
  exact (proj1 (proj2 (proj2 (proj2 (bound_output_longest_prefix [233; 233; 233; 8364; 33]%N 8 eq_refl))))).
Defined.

(** The redaction of audit details removes exactly the top-level keys that are, in any
    letter case, one of the nine sensitive names; a passphrase and everything in nested objects
    is kept. *)
Theorem audit_details_redaction `{Unicode} details key value :
  ((key, value) ∈ sanitize_audit_details details
   <-> (key, value) ∈ details /\ ~ lower key ∈ _SENSITIVE_DETAIL_KEYS)
  /\ ((#"passphrase", value) ∈ details -> (#"passphrase", value) ∈ sanitize_audit_details details)
  /\ sanitize_audit_details [(#"node", JObj [(#"password", value)])] = [(#"node", JObj [(#"password", value)])].
Proof.
  assert (forall k v, (k, v) ∈ sanitize_audit_details details
     <-> (k, v) ∈ details /\ ~ lower k ∈ _SENSITIVE_DETAIL_KEYS) as Hfilter.
  { intros k v. unfold sanitize_audit_details. rewrite (list_elem_of_In (List.filter _ _)), (list_elem_of_In details), List.filter_In.
    by rewrite negb_true_iff, bool_decide_eq_false. }
  split; [apply Hfilter|]. split; [|reflexivity].
  rewrite Hfilter. intros Hin. split; [done|]. vm_compute. intros Hc.
  repeat (apply elem_of_cons in Hc as [Hc|Hc]; [done|]). by apply elem_of_nil in Hc.
Qed.
