(* ===== verification/Template.v ===== *)
(** * Command templates ([app/core/template.py])

    [render_command] substitutes quoted parameter values for [{name}] placeholders.  The
    regular expression [\{(\w+)\}] is the scanner [scan_go]; what a shell makes of a
    rendered command is compared with the template itself ([template_lex]). *)
From stdpp Require Import sorting.
From S2P Require Import Prelude PyStr Shlex Errors Json.

Record TemplateParameter := { tp_name : pystr; tp_required : bool; tp_default : json }.

(** Lexicographic order of strings, and [sorted(names)]. *)
Fixpoint str_leb (s t : pystr) : bool :=
  match s, t with
  | [], _ => true
  | _ :: _, [] => false
  | c :: s, d :: t => (c <? d)%N || ((c =? d)%N && str_leb s t)
  end.
Definition str_le (s t : pystr) : Prop := str_leb s t = true.
#[export] Instance str_le_dec s t : Decision (str_le s t).
Proof. unfold str_le. apply _. Defined.
Definition sorted_names (names : list pystr) : list pystr := merge_sort str_le names.

(** Text between the matches of [PLACEHOLDER_RE], and the names matched. *)
Inductive piece := Text (c : N) | Hole (name : pystr).

Section template.
Context `{Unicode} `{PyFloat}.

Definition texts (s : pystr) : list piece := Text <$> s.

(** [pending] holds the word characters read after a brace. *)
Fixpoint scan_go (pending : option pystr) (s : pystr) : list piece :=
  match s with
  | [] => match pending with None => [] | Some name => texts (123%N :: name) end
  | c :: s =>
      match pending with
      | None => if (c =? 123)%N then scan_go (Some []) s else Text c :: scan_go None s
      | Some name =>
          if re_word c then scan_go (Some (name ++ [c])) s
          else if (c =? 125)%N && negb (str_eqb name []) then Hole name :: scan_go None s
          else texts (123%N :: name)
               ++ (if (c =? 123)%N then scan_go (Some []) s else Text c :: scan_go None s)
      end
  end.
Definition scan (template : pystr) : list piece := scan_go None template.

(** [set(PLACEHOLDER_RE.findall(template))], as a list. *)
Definition holes (ps : list piece) : list pystr :=
  omap (fun p => match p with Hole name => Some name | Text _ => None end) ps.

Definition defaults_of (parameters : list TemplateParameter) : list (pystr * json) :=
  dict_of ((fun p => (tp_name p, tp_default p)) <$> parameters).
(** [defaults.get(name) is not None]. *)
Definition default_value (parameters : list TemplateParameter) (name : pystr) : option json :=
  match dict_get (defaults_of parameters) name with
  | Some JNull | None => None
  | Some v => Some v
  end.
Definition has_default (parameters : list TemplateParameter) (name : pystr) : bool :=
  if default_value parameters name is Some _ then true else false.

Definition undeclared_names (parameters : list TemplateParameter) (found : list pystr) : list pystr :=
  remove_dups (List.filter (fun name => negb (bool_decide (name ∈ tp_name <$> parameters))) found).
Definition missing_names (parameters : list TemplateParameter) (params : jobject) (found : list pystr) : list pystr :=
  tp_name <$> List.filter (fun p => bool_decide (tp_name p ∈ found) && negb (dict_mem params (tp_name p))
                                    && negb (has_default parameters (tp_name p)) && tp_required p) parameters.

(** The text a name stands for: the parameter, or its default. *)
Definition hole_value (parameters : list TemplateParameter) (params : jobject) (name : pystr) : option pystr :=
  match dict_get params name with
  | Some v => Some (json_str v)
  | None => json_str <$> default_value parameters name
  end.
(** [_replace], applied to the matches. *)
Definition render_piece (parameters : list TemplateParameter) (params : jobject) (p : piece) : pystr :=
  match p with
  | Text c => [c]
  | Hole name =>
      match hole_value parameters params name with
      | Some v => quote v
      | None => #"{" ++ name ++ #"}"
      end
  end.

Definition render_command (template : pystr) (parameters : list TemplateParameter) (params : jobject) : res pystr :=
  let found := holes (scan template) in
  let undeclared := undeclared_names parameters found in
  let missing := missing_names parameters params found in
  match undeclared, missing with
  | _ :: _, _ => raise TemplateRenderError
      (#"Undeclared placeholders in command: " ++ join #", " (sorted_names undeclared))
  | [], _ :: _ => raise TemplateRenderError
      (#"Missing required parameters: " ++ join #", " (sorted_names missing))
  | [], [] => Ok (flat_map (render_piece parameters params) (scan template))
  end.

(** ** The words of a template *)

(** A word of a template: characters and values still to come. *)
Inductive frag := FChar (c : N) | FHole (name : pystr).
Inductive ttok := TW (w : list frag) | TOp (c : N).

(** The shell's reading of a template whose placeholders stand outside quotes; it does
    not look at any value. *)
Fixpoint template_go (st : sh_state) (cur : list frag) (started : bool) (ps : list piece) : option (list ttok) :=
  match ps with
  | [] => match st with SPlain => Some (if started then [TW cur] else []) | _ => None end
  | Hole name :: ps =>
      match st with SPlain => template_go SPlain (cur ++ [FHole name]) true ps | _ => None end
  | Text c :: ps =>
      match st with
      | SPlain =>
          if (c =? 32)%N
          then (fun ts => if started then TW cur :: ts else ts) <$> template_go SPlain [] false ps
          else if sh_op c
          then (fun ts => if started then TW cur :: TOp c :: ts else TOp c :: ts)
                 <$> template_go SPlain [] false ps
          else if (c =? 39)%N then template_go SSingle cur true ps
          else if (c =? 34)%N then template_go SDouble cur true ps
          else if plain_char c then template_go SPlain (cur ++ [FChar c]) true ps
          else None
      | SSingle => if (c =? 39)%N then template_go SPlain cur true ps
                   else template_go SSingle (cur ++ [FChar c]) true ps
      | SDouble =>
          if (c =? 34)%N then template_go SPlain cur true ps
          else if dq_plain c then template_go SDouble (cur ++ [FChar c]) true ps
          else None
      end
  end.
Definition template_lex (template : pystr) : option (list ttok) :=
  template_go SPlain [] false (scan template).

(** The values put in. *)
Definition fill_frag (value : pystr -> pystr) (f : frag) : pystr :=
  match f with FChar c => [c] | FHole name => value name end.
Definition fill (value : pystr -> pystr) (w : list frag) : pystr := flat_map (fill_frag value) w.
Definition fill_tok (value : pystr -> pystr) (t : ttok) : tok :=
  match t with TW w => W (fill value w) | TOp c => Op c end.

(** ** The scanner *)

(** What a piece was read from. *)
Definition source_of (p : piece) : pystr :=
  match p with Text c => [c] | Hole name => #"{" ++ name ++ #"}" end.

Lemma source_texts s : flat_map source_of (texts s) = s.
Proof. induction s as [|c s IH]; [done|]. cbn. by rewrite <- IH at 2. Qed.

Lemma scan_go_source pending s :
  flat_map source_of (scan_go pending s)
  = match pending with Some name => 123%N :: name | None => [] end ++ s.
Proof.
  revert pending. induction s as [|c s IH]; intros [name|]; cbn [scan_go].
  - by rewrite source_texts, app_nil_r.
  - done.
  - assert (flat_map source_of (texts (123%N :: name)
        ++ (if (c =? 123)%N then scan_go (Some []) s else Text c :: scan_go None s))
        = (123%N :: name) ++ c :: s) as Hfail.
    { rewrite flat_map_app, source_texts. f_equal.
      destruct (N.eqb_spec c 123) as [->|]; [by rewrite IH|]. cbn [flat_map]. by rewrite IH. }
    destruct (re_word c); [rewrite IH; cbn; by rewrite <- app_assoc|].
    destruct (N.eqb_spec c 125) as [->|]; cbn [andb]; [destruct (str_eqb name []); cbn [negb]|]; [done| |done].
    cbn [flat_map]. rewrite IH. change (source_of (Hole name)) with (123%N :: name ++ [125%N]).
    cbn [app]. by rewrite <- app_assoc.
  - destruct (N.eqb_spec c 123) as [->|]; [by rewrite IH|]. cbn [flat_map]. by rewrite IH.
Qed.

(** A name is a non-empty run of word characters. *)
Definition well_named (p : piece) : Prop :=
  match p with Text _ => True | Hole name => name <> [] /\ forallb re_word name = true end.
Lemma scan_go_named pending s :
  (forall name, pending = Some name -> forallb re_word name = true) -> Forall well_named (scan_go pending s).
Proof.
  assert (forall t, Forall well_named (texts t)) as Htexts.
  { intros t. apply Forall_fmap, Forall_true. done. }
  revert pending. induction s as [|c s IH]; intros [name|] Hp; cbn [scan_go]; [done..| |].
  - specialize (Hp name eq_refl).
    destruct (re_word c) eqn:Ec.
    { apply IH. intros ? [= <-]. rewrite forallb_app_iff, Hp. cbn. by rewrite Ec. }
    destruct ((c =? 125)%N && negb (str_eqb name [])) eqn:E.
    { apply andb_true_iff in E as [_ E%negb_true_iff]. constructor; [|by apply IH].
      split; [|done]. by intros ->. }
    apply Forall_app; split; [apply Htexts|].
    destruct (c =? 123)%N; [apply IH; by intros ? [= <-]|constructor; [done|by apply IH]].
  - destruct (c =? 123)%N; [apply IH; by intros ? [= <-]|constructor; [done|by apply IH]].
Qed.

Lemma fill_snoc value w f : fill value (w ++ [f]) = fill value w ++ fill_frag value f.
Proof. unfold fill. rewrite flat_map_app. cbn. by rewrite app_nil_r. Qed.

Lemma template_go_fill (value : pystr -> pystr) (render : piece -> pystr) ps st cur started ts :
  (forall c, render (Text c) = [c]) ->
  (forall name, Hole name ∈ ps -> render (Hole name) = quote (value name)) ->
  template_go st cur started ps = Some ts ->
  sh_go st (fill value cur) started (flat_map render ps) = Some (fill_tok value <$> ts).
Proof.
  intros Htext. revert st cur started ts. induction ps as [|p ps IH]; intros st cur started ts Hholes.
  { destruct st; cbn; [|done..]. by intros [= <-]; destruct started. }
  assert (forall name, Hole name ∈ ps -> render (Hole name) = quote (value name)) as Hrest.
  { intros name Hin. apply Hholes. by right. }
  cbn [flat_map]. destruct p as [c|name]; cbn [template_go].
  - rewrite Htext. cbn [app sh_go].
    assert (forall st' cur' started' (f : list ttok -> list ttok) (g : list tok -> list tok),
       (forall l, fill_tok value <$> f l = g (fill_tok value <$> l)) ->
       f <$> template_go st' cur' started' ps = Some ts ->
       g <$> sh_go st' (fill value cur') started' (flat_map render ps) = Some (fill_tok value <$> ts)) as Hmap.
    { intros st' cur' started' f g Hfg. destruct (template_go st' cur' started' ps) as [l|] eqn:E; [|done].
      cbn. intros [= <-]. rewrite (IH _ _ _ l Hrest E). cbn. by rewrite Hfg. }
    assert (forall c', fill value (cur ++ [FChar c']) = fill value cur ++ [c']) as Hc by by intros; apply fill_snoc.
    destruct st.
    + destruct (c =? 32)%N; [apply Hmap; by intros; destruct started|].
      destruct (sh_op c); [apply Hmap; by intros; destruct started|].
      destruct (c =? 39)%N; [by apply IH|]. destruct (c =? 34)%N; [by apply IH|].
      destruct (plain_char c); [|done]. rewrite <- Hc. by apply IH.
    + destruct (c =? 39)%N; [by apply IH|]. rewrite <- Hc. by apply IH.
    + destruct (c =? 34)%N; [by apply IH|]. destruct (dq_plain c); [|done]. rewrite <- Hc. by apply IH.
  - destruct st; [|done..]. intros Hts. rewrite Hholes by by left.
    rewrite piece_quote. change (value name) with (fill_frag value (FHole name)).
    rewrite <- fill_snoc. by apply IH.
Qed.

Lemma elem_of_holes name ps : name ∈ holes ps <-> Hole name ∈ ps.
Proof.
  unfold holes. rewrite list_elem_of_omap. split.
  - by intros ([c|n] & Hin & [= <-]).
  - intros Hin. by exists (Hole name).
Qed.

(** ** What rendering promises *)

Definition declared (parameters : list TemplateParameter) (name : pystr) : Prop :=
  name ∈ tp_name <$> parameters.
Definition required (parameters : list TemplateParameter) (name : pystr) : Prop :=
  exists p, p ∈ parameters /\ tp_name p = name /\ tp_required p = true.

Lemma elem_of_filter_b {A} (f : A -> bool) (l : list A) x : x ∈ List.filter f l <-> x ∈ l /\ f x = true.
Proof. rewrite (list_elem_of_In (List.filter f l)), (list_elem_of_In l). apply List.filter_In. Qed.

Lemma elem_of_undeclared parameters found name :
  name ∈ undeclared_names parameters found <-> name ∈ found /\ ~ declared parameters name.
Proof.
  unfold undeclared_names, declared. rewrite elem_of_remove_dups, elem_of_filter_b.
  by rewrite negb_true_iff, bool_decide_eq_false.
Qed.

Lemma hole_value_none parameters params name :
  hole_value parameters params name = None
  <-> dict_mem params name = false /\ has_default parameters name = false.
Proof.
  unfold hole_value, dict_mem, has_default. destruct (dict_get params name); cbn; [by split; [|intros []]|].
  destruct (default_value parameters name); cbn; split; try done. by intros [].
Qed.

Lemma elem_of_missing parameters params found name :
  name ∈ missing_names parameters params found
  <-> name ∈ found /\ hole_value parameters params name = None /\ required parameters name.
Proof.
  unfold missing_names, required. rewrite hole_value_none, list_elem_of_fmap. split.
  - intros (p & -> & [Hp Hc]%elem_of_filter_b). to_prop. split_and!; [done..|by exists p].
  - intros (Hf & [Hp Hd] & (p & Hin & <- & Hr)). exists p. split; [done|].
    apply elem_of_filter_b. split; [done|]. by rewrite bool_decide_eq_true_2, Hp, Hd, Hr.
Qed.

(** Rendering succeeds exactly when every placeholder is declared and no placeholder
    without a value is required, and then replaces each placeholder by its quoted value and
    keeps all other text; otherwise it raises a template error; the pieces of a template put
    together are the template. *)
Theorem render_command_outcome template parameters params :
  match render_command template parameters params with
  | Ok cmd =>
      cmd = flat_map (render_piece parameters params) (scan template)
      /\ (forall name, Hole name ∈ scan template ->
           declared parameters name
           /\ (hole_value parameters params name = None -> ~ required parameters name))
  | Raise e =>
      exn_type e = TemplateRenderError
      /\ exists name, Hole name ∈ scan template
           /\ (~ declared parameters name
               \/ hole_value parameters params name = None /\ required parameters name)
  end
  /\ flat_map source_of (scan template) = template.
Proof.
  split; [|apply (scan_go_source None)].
  unfold render_command.
  pose proof (elem_of_undeclared parameters (holes (scan template))) as Hu.
  pose proof (elem_of_missing parameters params (holes (scan template))) as Hm.
  destruct (undeclared_names _ _) as [|u us].
  2: { split; [done|]. exists u. destruct (Hu u) as [[Hin Hd] _]; [by left|].
       by rewrite <- elem_of_holes; auto. }
  destruct (missing_names _ _ _) as [|m ms].
  2: { split; [done|]. exists m. destruct (Hm m) as [(Hin & Hd) _]; [by left|].
       by rewrite <- elem_of_holes; auto. }
  split; [done|]. intros name Hin%elem_of_holes. split.
  - destruct (decide (name ∈ tp_name <$> parameters)) as [|Hd]; [done|].
    destruct (not_elem_of_nil name). apply Hu. done.
  - intros Hv Hr. destruct (not_elem_of_nil name). apply Hm. done.
Qed.


(** A template without placeholders is sent as it is. *)
Lemma render_no_holes template parameters params :
  holes (scan template) = [] -> render_command template parameters params = Ok template.
Proof.
  intros Hh. unfold render_command. rewrite Hh.
  destruct (missing_names parameters params []) as [|m ms] eqn:Em; cbn.
  - f_equal. rewrite <- (scan_go_source None template) at 2. unfold scan in *.
    induction (scan_go None template) as [|[c|name] ps IH]; [done| |done].
    cbn. by rewrite IH.
  - assert (m ∈ missing_names parameters params []) as Hm by (rewrite Em; by left).
    apply elem_of_missing in Hm as [Hm _]. by apply elem_of_nil in Hm.
Qed.

(** The documented example with a doubly braced placeholder contains no placeholder for the
    renderer: for all declarations and values it is sent to the node as it is written. *)
Theorem documented_placeholder_is_not_substituted parameters params :
  render_command #"df -h {{ mount }}" parameters params = Ok #"df -h {{ mount }}".
Proof. by apply render_no_holes. Qed.

(** Inside single quotes of the template the quotes added around a value cancel out: the
    template echo followed by a quoted placeholder runs a second command for the value ampersand
    reboot. *)
Theorem quoted_placeholder_injects (v : pystr) :
  render_command #"echo '{x}'" [ {| tp_name := #"x"; tp_required := true; tp_default := JNull |} ]
    [(#"x", JStr v)] = Ok (#"echo '" ++ quote v ++ #"'")
  /\ (v = #"& reboot" ->
      sh_lex (#"echo '" ++ quote v ++ #"'") = Some [W #"echo"; W []; Op 38; W #"reboot"]).
Proof.
  split; [|by intros ->]. unfold render_command.
  change (scan #"echo '{x}'") with (texts #"echo '" ++ [Hole #"x"] ++ texts #"'").
  cbn. by rewrite app_nil_r.
Qed.
End template.

