(* ===== verification/RateLimit.v ===== *)
(** * Rate limiting ([RateLimitMiddleware] of [app/api/middleware.py])

    The sliding window per client address, with the ordered dictionary of the
    middleware and its eviction of the least recently seen client.  A reading of
    [time.monotonic()] is a number of nanoseconds. *)
From S2P Require Import Prelude PyStr Errors.

Section rate_limit.
Open Scope Z_scope.

Definition second : Z := 1000000000.

(** [RateLimitMiddleware.__init__], the window in seconds. *)
Record limiter := { rl_requests : Z; rl_window : Z; rl_max_clients : Z }.
(** [self._ip_counts]: oldest client first. *)
Definition ip_counts : Type := list (pystr * list Z).

Inductive decision :=
| Pass                            (* an excluded path *)
| Allowed (remaining : Z)        (* call_next, X-RateLimit-Remaining *)
| Limited (retry_after : Z).      (* 429, Retry-After *)

Definition EXCLUDED_PATHS : list pystr := [ #"/health"; #"/ready"; #"/metrics"].

(** [while entries and entries[0] <= cutoff: entries.popleft()]. *)
Fixpoint popleft_until (cutoff : Z) (entries : list Z) : list Z :=
  match entries with
  | t :: entries' => if t <=? cutoff then popleft_until cutoff entries' else entries
  | [] => []
  end.
Definition _cleanup_old_entries (cfg : limiter) (ip : pystr) (now : Z) (st : ip_counts) : ip_counts :=
  let cutoff := now - rl_window cfg * second in
  dict_set st ip (popleft_until cutoff (default [] (dict_get st ip))).

(** [popitem(last=False)]. *)
Definition popitem_first (st : ip_counts) : res ip_counts :=
  match st with [] => raise KeyError #"'dictionary is empty'" | _ :: st => Ok st end.
(** [move_to_end(key)], for a key that is present. *)
Definition move_to_end (ip : pystr) (st : ip_counts) : ip_counts :=
  match dict_get st ip with Some entries => dict_pop st ip ++ [(ip, entries)] | None => st end.

Definition make_room (cfg : limiter) (ip : pystr) (st : ip_counts) : res ip_counts :=
  if negb (dict_mem st ip) && (rl_max_clients cfg <=? Z.of_nat (length st))
  then popitem_first st else Ok st.

(** [int(self._window - (now - first))], at least one second. *)
Definition retry_after (cfg : limiter) (now first : Z) : Z :=
  Z.max 1 (Z.quot (rl_window cfg * second - (now - first)) second).

(** [dispatch], up to the answer: the new state and the decision. *)
Definition dispatch (cfg : limiter) (path client_ip : pystr) (now : Z) (st : ip_counts) : ip_counts * res decision :=
  if bool_decide (path ∈ EXCLUDED_PATHS) then (st, Ok Pass)
  else match make_room cfg client_ip st with
    | Raise e => (st, Raise e)
    | Ok st =>
        let st := move_to_end client_ip (_cleanup_old_entries cfg client_ip now st) in
        let entries := default [] (dict_get st client_ip) in
        let current_count := Z.of_nat (length entries) in
        let remaining := Z.max 0 (rl_requests cfg - current_count - 1) in
        if rl_requests cfg <=? current_count
        then (st, match entries with
                  | first :: _ => Ok (Limited (retry_after cfg now first))
                  | [] => raise IndexError #"deque index out of range"
                  end)
        else (dict_set st client_ip (entries ++ [now]), Ok (Allowed remaining))
    end.

(** ** Runs *)

Record request := { rq_path : pystr; rq_ip : pystr; rq_now : Z }.

(** Requests one after another: the final state and the decisions. *)
Fixpoint serve (cfg : limiter) (st : ip_counts) (rs : list request) : ip_counts * list (request * res decision) :=
  match rs with
  | [] => (st, [])
  | r :: rs =>
      let '(st, d) := dispatch cfg (rq_path r) (rq_ip r) (rq_now r) st in
      let '(st, ds) := serve cfg st rs in (st, (r, d) :: ds)
  end.

(** When a client's requests were counted and let through. *)
Definition admissions (ip : pystr) (ds : list (request * res decision)) : list Z :=
  omap (fun rd => match rd.2 with
                  | Ok (Allowed _) => if bool_decide (rq_ip rd.1 = ip) then Some (rq_now rd.1) else None
                  | _ => None
                  end) ds.

(** ** The state *)

Definition entries_of (st : ip_counts) (ip : pystr) : list Z := default [] (dict_get st ip).

Lemma popleft_until_split cutoff entries :
  exists old, entries = old ++ popleft_until cutoff entries /\ Forall (fun t => t <= cutoff) old.
Proof.
  induction entries as [|t entries (old & Hold & HF)]; [by exists []|]. cbn.
  destruct (Z.leb_spec t cutoff); [|by exists []].
  exists (t :: old). split; [by rewrite Hold at 1|by constructor].
Qed.

Lemma dict_get_app (d d' : ip_counts) k :
  dict_get (d ++ d') k = match dict_get d k with Some v => Some v | None => dict_get d' k end.
Proof. induction d as [|[k' v] d IH]; [done|]. cbn. by destruct (decide (k' = k)). Qed.

Lemma dict_get_move_to_end st ip ip' : dict_get (move_to_end ip st) ip' = dict_get st ip'.
Proof.
  unfold move_to_end. destruct (dict_get st ip) as [es|] eqn:E; [|done]. rewrite dict_get_app. cbn.
  destruct (decide (ip = ip')) as [<-|Hne]; [by rewrite dict_get_pop_eq|].
  rewrite dict_get_pop_ne by done. by destruct (dict_get st ip').
Qed.

Lemma dict_get_mem (st : ip_counts) ip : is_Some (dict_get st ip) <-> ip ∈ st.*1.
Proof.
  induction st as [|[k v] st IH]; cbn.
  - split; [by intros []|]. intros Hin. by apply elem_of_nil in Hin.
  - rewrite elem_of_cons. destruct (decide (k = ip)) as [->|]; [split; eauto|].
    rewrite IH. split; [by right|]. by intros [->|].
Qed.

Lemma dict_pop_keys (st : ip_counts) ip : (dict_pop st ip).*1 = List.filter (fun k => negb (bool_decide (k = ip))) st.*1.
Proof.
  unfold dict_pop. induction st as [|[k v] st IH]; [done|]. cbn.
  case_bool_decide; cbn; [done|]. by rewrite <- IH.
Qed.

(** The keys after the move: the same ones. *)
Lemma move_to_end_keys st ip : NoDup st.*1 -> (move_to_end ip st).*1 ≡ₚ st.*1.
Proof.
  intros Hnd. unfold move_to_end. destruct (dict_get st ip) as [es|] eqn:E; [|done].
  assert (ip ∈ st.*1) as Hin by (apply dict_get_mem; by eexists).
  rewrite fmap_app, dict_pop_keys. cbn. clear E. revert Hin Hnd.
  generalize (st.*1) as ks. intros ks. induction ks as [|k ks IH]; intros Hin Hnd; [by apply elem_of_nil in Hin|].
  apply NoDup_cons in Hnd as [Hk Hnd]. cbn. case_bool_decide as Heq; cbn.
  - subst k. replace (List.filter _ ks) with ks; [by rewrite Permutation_app_comm|].
    clear IH Hnd Hin. induction ks as [|k ks IH]; [done|]. cbn.
    rewrite bool_decide_eq_false_2 by (intros ->; apply Hk; by left). cbn. f_equal. apply IH.
    intros ?. apply Hk. by right.
  - apply elem_of_cons in Hin as [->|Hin]; [done|]. by rewrite IH.
Qed.

(** ** One request *)

Lemma set_keys_nil (st : ip_counts) ip es es' : (dict_set st ip es).*1 = (dict_set st ip es').*1.
Proof. by rewrite !dict_set_keys. Qed.

Definition counted (cfg : limiter) (ip : pystr) (now : Z) (base : ip_counts) : list Z :=
  popleft_until (now - rl_window cfg * second) (entries_of base ip).

(** What a counted request does to the state and what it is answered. *)
Lemma dispatch_spec cfg path ip now st base :
  path ∉ EXCLUDED_PATHS -> make_room cfg ip st = Ok base -> NoDup base.*1 -> 0 < rl_requests cfg ->
  let '(st', d) := dispatch cfg path ip now st in
  let entries := counted cfg ip now base in
  st'.*1 ≡ₚ (dict_set base ip []).*1
  /\ (forall ip', ip' <> ip -> entries_of st' ip' = entries_of base ip')
  /\ ((Z.of_nat (length entries) < rl_requests cfg
       /\ d = Ok (Allowed (rl_requests cfg - Z.of_nat (length entries) - 1))
       /\ entries_of st' ip = entries ++ [now])
      \/ (rl_requests cfg <= Z.of_nat (length entries)
          /\ (exists first, head entries = Some first /\ d = Ok (Limited (retry_after cfg now first)))
          /\ entries_of st' ip = entries)).
Proof.
  intros Hpath Hroom Hnd Hreq. unfold dispatch. rewrite bool_decide_eq_false_2, Hroom by done.
  unfold _cleanup_old_entries. fold (entries_of base ip). fold (counted cfg ip now base).
  set (entries := counted cfg ip now base). set (st1 := dict_set base ip entries).
  assert (NoDup st1.*1) as Hnd1 by by apply dict_set_NoDup.
  assert (dict_get (move_to_end ip st1) ip = Some entries) as Hget.
  { rewrite dict_get_move_to_end. apply dict_get_set_eq. }
  assert ((move_to_end ip st1).*1 ≡ₚ (dict_set base ip []).*1) as Hkeys.
  { rewrite move_to_end_keys by done. by rewrite (set_keys_nil base ip [] entries). }
  assert (forall ip', ip' <> ip -> entries_of (move_to_end ip st1) ip' = entries_of base ip') as Hother.
  { intros ip' Hne. unfold entries_of. rewrite dict_get_move_to_end. unfold st1.
    by rewrite dict_get_set_ne by done. }
  rewrite Hget. change (default [] (Some entries)) with entries. destruct (Z.leb_spec (rl_requests cfg) (Z.of_nat (length entries))) as [Hle|Hlt].
  - split_and!; [done|done|]. right. split; [done|]. split.
    + destruct entries as [|first rest]; [cbn in Hle; lia|]. by exists first.
    + unfold entries_of. by rewrite Hget.
  - split_and!.
    + rewrite dict_set_keys, decide_True; [done|]. apply dict_get_mem. by eexists.
    + intros ip' Hne. unfold entries_of. rewrite dict_get_set_ne by done. by apply Hother.
    + left. split; [done|]. split; [do 2 f_equal; lia|]. unfold entries_of. by rewrite dict_get_set_eq.
Qed.

(** ** Sliding window *)

(** Times do not decrease. *)
Fixpoint chronological (now : Z) (rs : list request) : Prop :=
  match rs with [] => True | r :: rs => now <= rq_now r /\ chronological (rq_now r) rs end.

(** Any [n + 1] consecutive elements span at least [w]. *)
Definition spaced (n : nat) (w : Z) (l : list Z) : Prop :=
  forall i a b, l !! i = Some a -> l !! (i + n)%nat = Some b -> a + w <= b.

Lemma spaced_snoc n w old kept now :
  spaced n w (old ++ kept) -> Forall (fun t => t <= now - w) old -> (length kept < n)%nat ->
  spaced n w ((old ++ kept) ++ [now]).
Proof.
  intros Hs Hold Hlen i a b Ha Hb.
  destruct (decide (i + n < length (old ++ kept))%nat) as [Hlt|Hge].
  - rewrite lookup_app_l in Ha, Hb by lia. by eapply Hs.
  - rewrite length_app in Hge.
    rewrite lookup_app_r in Hb by (rewrite length_app; lia).
    apply list_lookup_singleton_Some in Hb as [Hi ->]. rewrite length_app in Hi.
    rewrite <- app_assoc, lookup_app_l in Ha by lia.
    rewrite Forall_lookup in Hold. specialize (Hold _ _ Ha). cbn in Hold. lia.
Qed.

(** The state remembers every recent admission: what it forgot is out of the window. *)
Record window_inv (cfg : limiter) (clients : list pystr) (past : pystr -> list Z) (now : Z) (st : ip_counts) : Prop := {
  wi_keys : NoDup st.*1;
  wi_clients : forall ip, ip ∈ st.*1 -> ip ∈ clients;
  wi_entries : forall ip, exists old, past ip = old ++ entries_of st ip
                 /\ Forall (fun t => t <= now - rl_window cfg * second) old;
  wi_spaced : forall ip, spaced (Z.to_nat (rl_requests cfg)) (rl_window cfg * second) (past ip) }.

Lemma make_room_enough cfg clients past now st ip :
  window_inv cfg clients past now st -> ip ∈ clients -> NoDup clients ->
  Z.of_nat (length clients) <= rl_max_clients cfg -> make_room cfg ip st = Ok st.
Proof.
  intros [Hnd Hin _ _] Hip Hcl Hmax. unfold make_room.
  destruct (dict_mem st ip) eqn:E; cbn [negb andb]; [done|].
  destruct (Z.leb_spec (rl_max_clients cfg) (Z.of_nat (length st))) as [Hle|]; [exfalso|done].
  assert (ip ∉ st.*1) as Hni.
  { intros [v Hv]%dict_get_mem. unfold dict_mem in E. by rewrite Hv in E. }
  assert (length (ip :: st.*1) <= length clients)%nat as Hlen.
  { apply NoDup_incl_length; [apply NoDup_ListNoDup; by constructor|].
    intros x. rewrite <- !list_elem_of_In. intros [->|Hx]%elem_of_cons; auto. }
  cbn in Hlen. rewrite length_fmap in Hlen. lia.
Qed.

(** What an admission adds to the past of its client. *)
Definition admitted_now (r : request) (d : res decision) (ip : pystr) : list Z :=
  admissions ip [(r, d)].

Lemma window_inv_step cfg clients past now st r :
  window_inv cfg clients past now st -> now <= rq_now r -> rq_ip r ∈ clients -> NoDup clients ->
  Z.of_nat (length clients) <= rl_max_clients cfg -> 0 < rl_requests cfg ->
  let '(st', d) := dispatch cfg (rq_path r) (rq_ip r) (rq_now r) st in
  window_inv cfg clients (fun ip => past ip ++ admitted_now r d ip) (rq_now r) st'.
Proof.
  intros Hinv Hnow Hip Hcl Hmax Hreq.
  assert (forall old, Forall (fun t => t <= now - rl_window cfg * second) old ->
                      Forall (fun t => t <= rq_now r - rl_window cfg * second) old) as Hlater.
  { intros old. rewrite !Forall_forall. intros Hold t Ht. specialize (Hold t Ht). cbn in *. lia. }
  destruct (decide (rq_path r ∈ EXCLUDED_PATHS)) as [Hex|Hex].
  { unfold dispatch. rewrite bool_decide_eq_true_2 by done. destruct Hinv as [H1 H2 H3 H4].
    unfold admitted_now. cbn. split; [done..| |].
    - intros ip. rewrite app_nil_r. destruct (H3 ip) as (old & ? & ?). exists old. auto.
    - intros ip. by rewrite app_nil_r. }
  pose proof (make_room_enough _ _ _ _ _ _ Hinv Hip Hcl Hmax) as Hroom.
  destruct Hinv as [H1 H2 H3 H4].
  pose proof (dispatch_spec cfg (rq_path r) (rq_ip r) (rq_now r) st st Hex Hroom H1 Hreq) as Hd.
  destruct (dispatch _ _ _ _ _) as [st' d]. destruct Hd as (Hkeys & Hother & Hcase).
  assert (forall ip, ip ∈ st'.*1 -> ip ∈ clients) as Hin.
  { intros ip. rewrite Hkeys, dict_set_keys. case_decide; [auto|].
    rewrite elem_of_app, list_elem_of_singleton. intros [?| ->]; auto. }
  assert (NoDup st'.*1) as Hnd by (rewrite Hkeys; by apply dict_set_NoDup).
  destruct (H3 (rq_ip r)) as (old & Hpast & Hold).
  destruct (popleft_until_split (rq_now r - rl_window cfg * second) (entries_of st (rq_ip r)))
    as (gone & Hgone & HFgone).
  fold (counted cfg (rq_ip r) (rq_now r) st) in Hgone.
  assert (past (rq_ip r) = (old ++ gone) ++ counted cfg (rq_ip r) (rq_now r) st) as Hsplit
    by by rewrite Hpast, <- app_assoc, <- Hgone.
  assert (Forall (fun t => t <= rq_now r - rl_window cfg * second) (old ++ gone)) as HF
    by (apply Forall_app; auto).
  assert (forall ip, ip <> rq_ip r -> admitted_now r d ip = []) as Hnone.
  { intros ip Hne. unfold admitted_now, admissions. cbn. destruct d as [[]|]; [done| |done..].
    by rewrite bool_decide_eq_false_2 by congruence. }
  split; [done|done| |].
  - intros ip. destruct (decide (ip = rq_ip r)) as [->|Hne].
    + exists (old ++ gone). split; [|done]. rewrite Hsplit, <- app_assoc. f_equal.
      destruct Hcase as [(_ & -> & ->)|(_ & (first & _ & ->) & ->)]; unfold admitted_now; cbn.
      * by rewrite bool_decide_eq_true_2 by done.
      * by rewrite app_nil_r.
    + rewrite Hnone, app_nil_r, Hother by done. destruct (H3 ip) as (o & ? & ?). exists o. auto.
  - intros ip. destruct (decide (ip = rq_ip r)) as [->|Hne].
    + destruct Hcase as [(Hlt & -> & _)|(_ & (first & _ & ->) & _)]; unfold admitted_now; cbn.
      * rewrite bool_decide_eq_true_2 by done. rewrite Hsplit. apply spaced_snoc; [by rewrite <- Hsplit|done|lia].
      * by rewrite app_nil_r.
    + by rewrite Hnone, app_nil_r.
Qed.

Lemma admissions_app ip ds ds' : admissions ip (ds ++ ds') = admissions ip ds ++ admissions ip ds'.
Proof. apply omap_app. Qed.

Lemma serve_spaced cfg clients past now st rs :
  window_inv cfg clients past now st -> chronological now rs -> Forall (fun r => rq_ip r ∈ clients) rs ->
  NoDup clients -> Z.of_nat (length clients) <= rl_max_clients cfg -> 0 < rl_requests cfg ->
  forall ip, spaced (Z.to_nat (rl_requests cfg)) (rl_window cfg * second) (past ip ++ admissions ip (serve cfg st rs).2).
Proof.
  revert past now st. induction rs as [|r rs IH]; intros past now st Hinv Hch HF Hcl Hmax Hreq ip.
  { cbn. rewrite app_nil_r. apply (wi_spaced _ _ _ _ _ Hinv). }
  destruct Hch as [Hle Hch]. apply Forall_cons in HF as [Hip HF]. cbn [serve].
  pose proof (window_inv_step cfg clients past now st r Hinv Hle Hip Hcl Hmax Hreq) as Hstep.
  destruct (dispatch _ _ _ _ _) as [st' d].
  specialize (IH _ _ _ Hstep Hch HF Hcl Hmax Hreq ip).
  destruct (serve cfg st' rs) as [st2 ds]. cbn [snd] in IH |- *.
  change (admissions ip ((r, d) :: ds)) with (admissions ip ([(r, d)] ++ ds)).
  rewrite admissions_app, app_assoc. exact IH.
Qed.

(** C13: as long as no more clients show up than the limiter remembers, any requests-plus-one
    consecutive admissions of one client span at least the whole window, for every sequence of
    requests with a clock that does not run backwards. *)
Theorem rate_limit_window cfg clients rs start ip i a b :
  0 < rl_requests cfg -> NoDup clients -> Z.of_nat (length clients) <= rl_max_clients cfg ->
  chronological start rs -> Forall (fun r => rq_ip r ∈ clients) rs ->
  admissions ip (serve cfg [] rs).2 !! i = Some a ->
  admissions ip (serve cfg [] rs).2 !! (i + Z.to_nat (rl_requests cfg))%nat = Some b ->
  a + rl_window cfg * second <= b.
Proof.
  intros Hreq Hcl Hmax Hch HF. apply (serve_spaced cfg clients (fun _ => []) start [] rs); try done.
  split; [constructor|intros x Hx; by apply elem_of_nil in Hx| |].
  - intros x. by exists [].
  - intros x j u v Hu. done.
Qed.

(** ** Memory and answers *)

Record bounded_inv (cfg : limiter) (now : Z) (st : ip_counts) : Prop := {
  bi_keys : NoDup st.*1;
  bi_size : Z.of_nat (length st) <= rl_max_clients cfg;
  bi_entries : forall ip, Z.of_nat (length (entries_of st ip)) <= rl_requests cfg
                          /\ Forall (fun t => t <= now) (entries_of st ip) }.

Definition sane (cfg : limiter) (d : res decision) : Prop :=
  match d with
  | Ok Pass => True
  | Ok (Allowed remaining) => 0 <= remaining < rl_requests cfg
  | Ok (Limited retry_after) => 1 <= retry_after <= Z.max 1 (rl_window cfg)
  | Raise _ => False
  end.

(** Room for one more key, or the key is there. *)
Lemma make_room_spec cfg ip now st :
  bounded_inv cfg now st -> 1 <= rl_max_clients cfg ->
  exists base, make_room cfg ip st = Ok base /\ bounded_inv cfg now base
    /\ Z.of_nat (length (dict_set base ip [])) <= rl_max_clients cfg.
Proof.
  intros [Hnd Hsize Hent] Hmax. unfold make_room.
  assert (forall base : ip_counts, length (dict_set base ip []) = if decide (ip ∈ base.*1) then length base else S (length base)) as Hlen.
  { intros base. rewrite <- (length_fmap fst), dict_set_keys, <- (length_fmap fst base).
    case_decide; [done|]. rewrite length_app. cbn. lia. }
  destruct (dict_mem st ip) eqn:E; cbn [negb andb].
  { exists st. split; [done|]. split; [done|]. rewrite Hlen, decide_True; [done|].
    apply dict_get_mem. unfold dict_mem in E. destruct (dict_get st ip); [by eexists|done]. }
  destruct (Z.leb_spec (rl_max_clients cfg) (Z.of_nat (length st))) as [Hle|Hlt].
  - destruct st as [|[k es] st]; [cbn in Hle; lia|]. exists st. split; [done|].
    cbn in Hnd, Hsize. apply NoDup_cons in Hnd as [Hk Hnd]. split.
    + split; [done|lia|]. intros ip'. specialize (Hent ip'). unfold entries_of in *. cbn in Hent.
      destruct (decide (k = ip')) as [->|]; [|done].
      assert (dict_get st ip' = None) as ->; [|split; [cbn; destruct Hent; lia|constructor]].
      destruct (dict_get st ip') eqn:Eg; [|done]. destruct Hk. apply dict_get_mem. by eexists.
    + rewrite Hlen. case_decide; lia.
  - exists st. split; [done|]. split; [done|]. rewrite Hlen. case_decide; lia.
Qed.

Lemma head_elem {A} (l : list A) a : head l = Some a -> a ∈ l.
Proof. destruct l; [done|]. intros [= ->]. by left. Qed.

Lemma popleft_until_head cutoff es t : head (popleft_until cutoff es) = Some t -> cutoff < t.
Proof. induction es as [|u es IH]; cbn; [done|]. destruct (Z.leb_spec u cutoff); [done|]. by intros [= <-]. Qed.

Lemma retry_after_bounds cfg now first :
  first <= now -> now - rl_window cfg * second < first ->
  1 <= retry_after cfg now first <= Z.max 1 (rl_window cfg).
Proof.
  intros H1 H2. unfold retry_after, second in *. split; [lia|]. apply Z.max_le_compat_l.
  rewrite Z.quot_div_nonneg by lia. apply Z.div_le_upper_bound; lia.
Qed.

Lemma bounded_inv_step cfg now st r :
  bounded_inv cfg now st -> now <= rq_now r -> 1 <= rl_max_clients cfg -> 0 < rl_requests cfg ->
  let '(st', d) := dispatch cfg (rq_path r) (rq_ip r) (rq_now r) st in
  bounded_inv cfg (rq_now r) st' /\ sane cfg d.
Proof.
  intros Hinv Hnow Hmax Hreq.
  assert (forall l, Forall (fun t => t <= now) l -> Forall (fun t => t <= rq_now r) l) as Hlater.
  { intros l. rewrite !Forall_forall. intros Hl t Ht. specialize (Hl t Ht). cbn in *. lia. }
  destruct (decide (rq_path r ∈ EXCLUDED_PATHS)) as [Hex|Hex].
  { unfold dispatch. rewrite bool_decide_eq_true_2 by done. destruct Hinv as [? ? H3].
    split; [|done]. split; [done..|]. intros ip. destruct (H3 ip). auto. }
  destruct (make_room_spec cfg (rq_ip r) now st Hinv Hmax) as (base & Hroom & [Hnd Hsize Hent] & Hset).
  pose proof (dispatch_spec cfg (rq_path r) (rq_ip r) (rq_now r) st base Hex Hroom Hnd Hreq) as Hd.
  destruct (dispatch _ _ _ _ _) as [st' d]. destruct Hd as (Hkeys & Hother & Hcase).
  set (entries := counted cfg (rq_ip r) (rq_now r) base) in *.
  destruct (popleft_until_split (rq_now r - rl_window cfg * second) (entries_of base (rq_ip r))) as (old & Hold & _).
  fold (counted cfg (rq_ip r) (rq_now r) base) entries in Hold.
  destruct (Hent (rq_ip r)) as [Hlen HF]. rewrite Hold in Hlen, HF. rewrite length_app in Hlen.
  apply Forall_app in HF as [_ HF]. split.
  - split; [rewrite Hkeys; by apply dict_set_NoDup| |].
    + apply Permutation_length in Hkeys. rewrite !length_fmap in Hkeys. lia.
    + intros ip. destruct (decide (ip = rq_ip r)) as [->|Hne].
      * destruct Hcase as [(Hlt & _ & ->)|(_ & _ & ->)]; [|split; [lia|auto]].
        rewrite length_app. cbn. split; [lia|]. apply Forall_app. split; [auto|by constructor].
      * rewrite Hother by done. destruct (Hent ip). auto.
  - destruct Hcase as [(Hlt & -> & _)|(_ & (first & Hf & ->) & _)]; cbn; [lia|].
    apply retry_after_bounds.
    + apply Hlater in HF. rewrite Forall_forall in HF. by apply HF, head_elem.
    + by apply (popleft_until_head _ (entries_of base (rq_ip r))).
Qed.

(** For any sequence of requests the limiter remembers at most the configured number of
    clients and admissions per client, never fails, and announces a remaining quota within the
    limit and a retry delay between one second and the window. *)
Theorem rate_limit_bounded cfg start rs :
  1 <= rl_max_clients cfg -> 0 < rl_requests cfg -> chronological start rs ->
  let '(st, ds) := serve cfg [] rs in
  NoDup st.*1 /\ Z.of_nat (length st) <= rl_max_clients cfg
  /\ (forall ip, Z.of_nat (length (entries_of st ip)) <= rl_requests cfg)
  /\ Forall (fun rd => sane cfg rd.2) ds.
Proof.
  intros Hmax Hreq Hch.
  assert (forall now st, bounded_inv cfg now st -> chronological now rs ->
    let '(st', ds) := serve cfg st rs in
    (exists now', bounded_inv cfg now' st') /\ Forall (fun rd => sane cfg rd.2) ds) as Hgen.
  { clear Hch. induction rs as [|r rs IH]; intros now st Hinv Hch; cbn [serve].
    - split; [by exists now|constructor].
    - destruct Hch as [Hle Hch]. pose proof (bounded_inv_step cfg now st r Hinv Hle Hmax Hreq) as Hs.
      destruct (dispatch _ _ _ _ _) as [st1 d]. destruct Hs as [Hs Hd].
      specialize (IH _ _ Hs Hch). destruct (serve cfg st1 rs) as [st2 ds]. destruct IH as [? ?].
      split; [done|]. by constructor. }
  specialize (Hgen start []). destruct (serve cfg [] rs) as [st ds]. destruct Hgen as [[now' [? ? H3]] ?].
  - split; [constructor|cbn; lia|]. intros ip. split; [cbn; lia|constructor].
  - done.
  - split_and!; [done..| |done]. intros ip. apply H3.
Qed.
End rate_limit.

(** Two requests a minute: the third and fourth are refused, the fifth comes in the next window. *)
Definition sample_limiter : limiter := {| rl_requests := 2; rl_window := 60; rl_max_clients := 3 |}.
Definition sample_requests : list request :=
  (fun t => {| rq_path := #"/api"; rq_ip := #"10.0.0.1"; rq_now := (t * second)%Z |}) <$> [0; 10; 20; 30; 65]%Z.

Lemma rate_limit_window_witness :
  admissions #"10.0.0.1" (serve sample_limiter [] sample_requests).2 = [0; 10 * second; 65 * second]%Z
  /\ (0 + 60 * second <= 65 * second)%Z.
Proof.
  split; [vm_compute; reflexivity|].
  apply (rate_limit_window sample_limiter [ #"10.0.0.1"] sample_requests 0 #"10.0.0.1" 0).
  - vm_compute. reflexivity.
  - apply NoDup_singleton.
  - vm_compute. discriminate.
  - vm_compute. repeat split; discriminate.
  - repeat (apply Forall_cons; split; [by left|]). by apply Forall_nil.
  - vm_compute. reflexivity.
  - vm_compute. reflexivity.
Defined.

Lemma rate_limit_bounded_witness :
  (1 <= rl_max_clients sample_limiter)%Z
  /\ let '(st, ds) := serve sample_limiter [] sample_requests in
     NoDup st.*1 /\ (Z.of_nat (length st) <= rl_max_clients sample_limiter)%Z
     /\ (forall ip, (Z.of_nat (length (entries_of st ip)) <= rl_requests sample_limiter)%Z)
     /\ Forall (fun rd => sane sample_limiter rd.2) ds.
Proof.
  split; [vm_compute; discriminate|].
  apply (rate_limit_bounded sample_limiter 0 sample_requests).
  - vm_compute. discriminate.
  - vm_compute. reflexivity.
  - vm_compute. repeat split; discriminate.
Defined.
