(* ===== verification/Sse.v ===== *)
(** * Server-sent events ([app/application/services/sse_broadcaster.py])

    [SseBroadcaster] with the streams of [app/api/v2/events.py] that consume its queues.
    A queue is an object shared by the broadcaster and one stream: [queues] is the store of
    queue objects, by subscription, and [registered] the keys of [self._queues], in order.
    A stream keeps reading its queue after the broadcaster has dropped it. *)
From S2P Require Import Prelude PyStr Json.

Record SseEvent := { ev_event : pystr; ev_data : jobject; ev_id : pystr; ev_timestamp : pystr }.

Definition _max_history : nat := 100.
Definition maxsize : nat := 256.

Record broadcaster := {
  queues : list (pystr * list SseEvent);
  registered : list pystr;
  history : list SseEvent }.
Definition new_broadcaster : broadcaster := {| queues := []; registered := []; history := [] |}.

(** [l[-n:]]. *)
Definition last_n {A} (n : nat) (l : list A) : list A := drop (length l - n) l.

(** [queue.put_nowait(event)]: [None] is [QueueFull]. *)
Definition put_nowait (queue : list SseEvent) (event : SseEvent) : option (list SseEvent) :=
  if maxsize <=? length queue then None else Some (queue ++ [event]).

(** [for event in ...: try put_nowait except QueueFull: break]. *)
Fixpoint put_all (queue events : list SseEvent) : list SseEvent :=
  match events with
  | [] => queue
  | event :: events => match put_nowait queue event with
                       | Some queue => put_all queue events
                       | None => queue
                       end
  end.

Definition queue_of (b : broadcaster) (sub_id : pystr) : list SseEvent :=
  default [] (dict_get (queues b) sub_id).

Definition subscribe (sub_id : pystr) (b : broadcaster) : broadcaster :=
  {| queues := dict_set (queues b) sub_id (put_all [] (last_n 50 (history b)));
     registered := registered b ++ [sub_id]; history := history b |}.

Definition unsubscribe (sub_id : pystr) (b : broadcaster) : broadcaster :=
  {| queues := queues b; registered := List.filter (fun s => negb (str_eqb s sub_id)) (registered b);
     history := history b |}.

(** The loop over [self._queues.items()]: the filled queues and the dead subscriptions. *)
Fixpoint publish_go (event : SseEvent) (qs : list (pystr * list SseEvent)) (dead subs : list pystr)
    : list (pystr * list SseEvent) * list pystr :=
  match subs with
  | [] => (qs, dead)
  | sub_id :: subs =>
      match put_nowait (default [] (dict_get qs sub_id)) event with
      | Some queue => publish_go event (dict_set qs sub_id queue) dead subs
      | None => publish_go event qs (dead ++ [sub_id]) subs
      end
  end.
Definition trim_history (h : list SseEvent) : list SseEvent :=
  if _max_history <? length h then last_n _max_history h else h.
Definition publish (event : SseEvent) (b : broadcaster) : broadcaster :=
  let '(qs, dead) := publish_go event (queues b) [] (registered b) in
  {| queues := qs; registered := List.filter (fun s => negb (bool_decide (s ∈ dead))) (registered b);
     history := trim_history (history b ++ [event]) |}.

(** One turn of [_event_generator]: an event, or ([None]) a keepalive after the timeout. *)
Definition next_event (sub_id : pystr) (b : broadcaster) : broadcaster * option SseEvent :=
  match queue_of b sub_id with
  | event :: queue =>
      ({| queues := dict_set (queues b) sub_id queue; registered := registered b; history := history b |}, Some event)
  | [] => (b, None)
  end.

(** ** Runs *)

Inductive op := Subscribe (sub_id : pystr) | Unsubscribe (sub_id : pystr) | Publish (event : SseEvent) | Next (sub_id : pystr).

Definition step (o : op) (b : broadcaster) : broadcaster * option SseEvent :=
  match o with
  | Subscribe s => (subscribe s b, None)
  | Unsubscribe s => (unsubscribe s b, None)
  | Publish e => (publish e b, None)
  | Next s => next_event s b
  end.
(** The final state, and what stream [sub] was given. *)
Fixpoint run_ops (sub : pystr) (ops : list op) (b : broadcaster) : broadcaster * list SseEvent :=
  match ops with
  | [] => (b, [])
  | o :: ops =>
      let '(b, out) := step o b in
      let '(b, delivered) := run_ops sub ops b in
      (b, match o, out with
          | Next s, Some e => if str_eqb s sub then e :: delivered else delivered
          | _, _ => delivered
          end)
  end.
Definition published (ops : list op) : list SseEvent :=
  omap (fun o => match o with Publish e => Some e | _ => None end) ops.
Definition subscribes (sub : pystr) (o : op) : bool := match o with Subscribe s => str_eqb s sub | _ => false end.

(** ** Lists *)

Lemma last_n_length {A} n (l : list A) : length (last_n n l) <= n.
Proof. unfold last_n. rewrite length_drop. lia. Qed.

Lemma last_n_all {A} n (l : list A) : length l <= n -> last_n n l = l.
Proof. intros. unfold last_n. by replace (length l - n) with 0 by lia. Qed.

Lemma last_n_last_n {A} m n (l : list A) : n <= m -> last_n n (last_n m l) = last_n n l.
Proof.
  intros. unfold last_n. rewrite drop_drop, length_drop. f_equal. lia.
Qed.

Lemma last_n_app {A} n (l k : list A) : last_n n (last_n n l ++ k) = last_n n (l ++ k).
Proof.
  unfold last_n. rewrite !length_app, length_drop.
  destruct (Nat.le_gt_cases (length l) n) as [Hle|Hgt].
  - replace (length l - n) with 0 by lia. by rewrite drop_0, Nat.sub_0_r.
  - destruct (Nat.le_gt_cases (length k) n).
    + rewrite !drop_app_le by (rewrite ?length_drop; lia). rewrite drop_drop. do 2 f_equal. lia.
    + rewrite !drop_app_ge by (rewrite ?length_drop; lia). rewrite length_drop. f_equal. lia.
Qed.

(** ** Queues *)

Lemma put_all_room queue events : length queue + length events <= maxsize -> put_all queue events = queue ++ events.
Proof.
  revert queue. induction events as [|e events IH]; intros queue Hlen; cbn; [by rewrite app_nil_r|].
  unfold put_nowait. cbn in Hlen. rewrite (proj2 (Nat.leb_gt _ _)) by lia.
  rewrite IH by (rewrite length_app; cbn; lia). by rewrite <- app_assoc.
Qed.

Lemma replay_length (l : list SseEvent) : length (last_n 50 l) <= maxsize.
Proof. pose proof (last_n_length 50 l). unfold maxsize. lia. Qed.

Definition get_queue (qs : list (pystr * list SseEvent)) (s : pystr) : list SseEvent := default [] (dict_get qs s).

Lemma get_queue_set qs s t q : get_queue (dict_set qs s q) t = if str_eqb s t then q else get_queue qs t.
Proof.
  unfold get_queue, str_eqb. case_bool_decide as E; [subst; by rewrite dict_get_set_eq|].
  by rewrite dict_get_set_ne.
Qed.

(** What a publication does to the queue of one subscription. *)
Lemma publish_go_spec event qs dead subs :
  NoDup subs ->
  let '(qs', dead') := publish_go event qs dead subs in
  (forall s, get_queue qs' s =
     if bool_decide (s ∈ subs) && (length (get_queue qs s) <? maxsize) then get_queue qs s ++ [event] else get_queue qs s)
  /\ (forall s, s ∈ dead' <-> s ∈ dead \/ (s ∈ subs /\ maxsize <= length (get_queue qs s))).
Proof.
  revert qs dead. induction subs as [|t subs IH]; intros qs dead Hnd; cbn [publish_go].
  - split; intros s; [done|]. split; [by left|]. intros [?|[Hin _]]; [done|by apply elem_of_nil in Hin].
  - apply NoDup_cons in Hnd as [Ht Hnd]. fold (get_queue qs t). unfold put_nowait.
    assert (forall s, s <> t -> bool_decide (s ∈ t :: subs) = bool_decide (s ∈ subs)) as Hcons.
    { intros s Hne. apply bool_decide_ext. rewrite elem_of_cons. tauto. }
    assert (bool_decide (t ∈ t :: subs) = true) as Hhead by (apply bool_decide_eq_true_2; by left).
    assert (bool_decide (t ∈ subs) = false) as Htail by by apply bool_decide_eq_false_2.
    destruct (Nat.leb_spec maxsize (length (get_queue qs t))) as [Hfull|Hroom].
    + specialize (IH qs (dead ++ [t]) Hnd). destruct (publish_go _ _ _ _) as [qs' dead'].
      destruct IH as [IHq IHd]. split; intros s.
      * rewrite IHq. destruct (decide (s = t)) as [->|Hne]; [|by rewrite Hcons].
        rewrite (proj2 (Nat.ltb_ge _ _)) by done. by rewrite !andb_false_r.
      * rewrite IHd, elem_of_app, list_elem_of_singleton, elem_of_cons.
        destruct (decide (s = t)) as [->|]; tauto.
    + specialize (IH (dict_set qs t (get_queue qs t ++ [event])) dead Hnd).
      destruct (publish_go _ _ _ _) as [qs' dead']. destruct IH as [IHq IHd].
      assert (forall s, s <> t -> get_queue (dict_set qs t (get_queue qs t ++ [event])) s = get_queue qs s) as Hne'.
      { intros s Hne. rewrite get_queue_set. unfold str_eqb. by rewrite bool_decide_eq_false_2 by congruence. }
      split; intros s.
      * rewrite IHq. destruct (decide (s = t)) as [->|Hne]; [|by rewrite Hcons, Hne'].
        rewrite Htail, Hhead. cbn [andb]. rewrite (proj2 (Nat.ltb_lt _ _) Hroom).
        rewrite get_queue_set. unfold str_eqb. by rewrite bool_decide_eq_true_2.
      * rewrite IHd, elem_of_cons. destruct (decide (s = t)) as [->|Hne]; [|rewrite Hne' by done; tauto].
        split; [|intros [?|[_ ?]]; [by left|lia]]. intros [?|[? _]]; [by left|done].
Qed.

(** ** The invariant of the broadcaster *)

Record valid (b : broadcaster) : Prop := {
  va_registered : NoDup (registered b);
  va_bounded : forall s, length (queue_of b s) <= maxsize;
  va_history : length (history b) <= _max_history }.

Lemma filter_NoDup {A} (f : A -> bool) (l : list A) : NoDup l -> NoDup (List.filter f l).
Proof. intros Hl. apply NoDup_ListNoDup, List.NoDup_filter, NoDup_ListNoDup, Hl. Qed.

Lemma elem_of_filter_bool {A} (f : A -> bool) (l : list A) x : x ∈ List.filter f l <-> x ∈ l /\ f x = true.
Proof. rewrite (list_elem_of_In (List.filter f l)), (list_elem_of_In l). apply List.filter_In. Qed.

Lemma trim_history_length h : length (trim_history h) <= _max_history.
Proof.
  unfold trim_history. destruct (Nat.ltb_spec _max_history (length h)); [apply last_n_length|lia].
Qed.

(** The queue of [sub] and its registration, one operation later. *)
Lemma publish_queue event b sub :
  valid b ->
  (queue_of (publish event b) sub
   = if bool_decide (sub ∈ registered (publish event b)) then queue_of b sub ++ [event] else queue_of b sub)
  /\ (sub ∈ registered (publish event b) <-> sub ∈ registered b /\ length (queue_of b sub) < maxsize).
Proof.
  intros [Hnd _ _]. unfold publish.
  pose proof (publish_go_spec event (queues b) [] (registered b) Hnd) as Hgo.
  destruct (publish_go _ _ _ _) as [qs dead]. destruct Hgo as [Hq Hdead]. cbn [queue_of queues registered].
  assert (sub ∈ List.filter (fun s => negb (bool_decide (s ∈ dead))) (registered b)
          <-> sub ∈ registered b /\ length (queue_of b sub) < maxsize) as Hreg.
  { rewrite elem_of_filter_bool, negb_true_iff, bool_decide_eq_false, Hdead.
    change (get_queue (queues b) sub) with (queue_of b sub).
    split; intros [Hin Hn]; (split; [done|]).
    - destruct (Nat.lt_ge_cases (length (queue_of b sub)) maxsize); [done|]. destruct Hn. by right.
    - intros [Hnil|[_ Hge]]; [by apply elem_of_nil in Hnil|lia]. }
  split; [|exact Hreg]. unfold queue_of at 1. cbn [queues registered]. fold (get_queue qs sub). rewrite Hq.
  change (get_queue (queues b) sub) with (queue_of b sub).
  rewrite (bool_decide_ext _ _ Hreg). destruct (Nat.ltb_spec (length (queue_of b sub)) maxsize);
    rewrite ?andb_true_r, ?andb_false_r; repeat case_bool_decide; try done; tauto || lia.
Qed.

(** The subscription identifiers a run creates. *)
Definition sub_ids (ops : list op) : list pystr :=
  omap (fun o => match o with Subscribe s => Some s | _ => None end) ops.

Lemma sublist_NoDup_app {A} (f : A -> bool) (l k : list A) : NoDup (l ++ k) -> NoDup (List.filter f l ++ k).
Proof.
  intros (Hl & Hd & Hk)%NoDup_app. apply NoDup_app. split_and!; [by apply filter_NoDup| |done].
  intros x [Hx _]%elem_of_filter_bool. by apply Hd.
Qed.

(** One operation of anyone: the invariant, and the view of subscription [sub]. *)
Lemma step_valid o b ids :
  valid b -> NoDup (registered b ++ sub_ids [o] ++ ids) ->
  valid (step o b).1 /\ NoDup (registered (step o b).1 ++ ids).
Proof.
  intros Hv Hnd. pose proof Hv as [H1 H2 H3]. destruct o as [s|s|e|s]; cbn [step fst sub_ids omap list_omap app] in *.
  - replace ((registered (subscribe s b)) ++ ids) with (registered b ++ [s] ++ ids)
      by (unfold subscribe; cbn; by rewrite <- app_assoc).
    split; [|exact Hnd]. split; [|intros t|done]; cbn.
    + rewrite cons_middle, app_assoc in Hnd. by apply NoDup_app in Hnd as [? _].
    + unfold queue_of. cbn. fold (get_queue (dict_set (queues b) s (put_all [] (last_n 50 (history b)))) t).
      rewrite get_queue_set. destruct (str_eqb s t); [|apply H2].
      pose proof (replay_length (history b)). rewrite put_all_room; cbn; lia.
  - split; [|by apply sublist_NoDup_app]. split; [by apply filter_NoDup|apply H2|done].
  - assert (NoDup (registered (publish e b) ++ ids)) as Hr.
    { unfold publish. destruct (publish_go _ _ _ _). by apply sublist_NoDup_app. }
    split; [|exact Hr]. split; [by apply NoDup_app in Hr as [? _]| |].
    + intros t. destruct (publish_queue e b t Hv) as [Hq Hreg]. rewrite Hq.
      case_bool_decide as Hin; [|apply H2]. apply Hreg in Hin as [_ Hlt]. rewrite length_app. cbn. lia.
    + unfold publish. destruct (publish_go _ _ _ _). apply trim_history_length.
  - unfold next_event. destruct (queue_of b s) as [|e q] eqn:Eq; cbn; [done|]. split; [|exact Hnd].
    split; [done| |done]. intros t. unfold queue_of. cbn. fold (get_queue (dict_set (queues b) s q) t).
    rewrite get_queue_set. unfold str_eqb. case_bool_decide as E; [|apply H2].
    specialize (H2 s). rewrite Eq in H2. cbn in H2. lia.
Qed.

(** What [sub]'s stream got in one step. *)
Definition got (sub : pystr) (o : op) (out : option SseEvent) : list SseEvent :=
  match o, out with Next s, Some e => if str_eqb s sub then [e] else [] | _, _ => [] end.

Lemma step_view o b sub :
  valid b -> subscribes sub o = false ->
  let '(b', out) := step o b in
  (sub ∈ registered b' -> sub ∈ registered b)
  /\ got sub o out ++ queue_of b' sub
     = queue_of b sub ++ (if bool_decide (sub ∈ registered b') then published [o] else []).
Proof.
  intros Hv Hsub. destruct o as [s|s|e|s]; cbn [step got published omap list_omap].
  - cbn in Hsub. unfold subscribe, queue_of. cbn [registered queues].
    fold (get_queue (dict_set (queues b) s (put_all [] (last_n 50 (history b)))) sub).
    rewrite get_queue_set, Hsub. split.
    + rewrite elem_of_app, list_elem_of_singleton. intros [?| ->]; [done|].
      unfold str_eqb in Hsub. by rewrite bool_decide_eq_true_2 in Hsub.
    + by destruct (bool_decide _); rewrite app_nil_r.
  - split; [by intros [? _]%elem_of_filter_bool|]. by destruct (bool_decide _); rewrite app_nil_r.
  - destruct (publish_queue e b sub Hv) as [Hq Hreg]. split; [by intros [? _]%Hreg|].
    cbn [app]. rewrite Hq. case_bool_decide; [done|by rewrite app_nil_r].
  - unfold next_event. destruct (queue_of b s) as [|e q] eqn:Eq; cbn [registered].
    + split; [done|]. cbn. by destruct (bool_decide _); rewrite app_nil_r.
    + split; [done|]. unfold queue_of at 1. cbn [queues]. fold (get_queue (dict_set (queues b) s q) sub).
      rewrite get_queue_set. destruct (str_eqb s sub) eqn:E.
      * apply str_eqb_eq in E as ->. rewrite Eq. by destruct (bool_decide _); rewrite app_nil_r.
      * by destruct (bool_decide _); rewrite app_nil_r.
Qed.

Lemma run_ops_cons sub o ops b :
  run_ops sub (o :: ops) b
  = ((run_ops sub ops (step o b).1).1, got sub o (step o b).2 ++ (run_ops sub ops (step o b).1).2).
Proof.
  cbn [run_ops]. destruct (step o b) as [b' out]. cbn. destruct (run_ops sub ops b') as [b'' del]. cbn. f_equal.
  unfold got. destruct o; try done. destruct out; [|done]. by destruct (str_eqb _ _).
Qed.

(** A run: what was delivered and what is queued, against what was due. *)
Lemma run_view sub ops b :
  valid b -> NoDup (registered b ++ sub_ids ops) -> forallb (fun o => negb (subscribes sub o)) ops = true ->
  let '(b', delivered) := run_ops sub ops b in
  valid b'
  /\ (sub ∈ registered b' -> sub ∈ registered b /\ delivered ++ queue_of b' sub = queue_of b sub ++ published ops)
  /\ (sub ∉ registered b -> delivered ++ queue_of b' sub = queue_of b sub)
  /\ exists k, delivered ++ queue_of b' sub = queue_of b sub ++ take k (published ops).
Proof.
  revert b. induction ops as [|o ops IH]; intros b Hv Hnd Hsub.
  { cbn. split_and!; [done|by rewrite app_nil_r|done|by exists 0; rewrite app_nil_r]. }
  cbn [forallb] in Hsub. apply andb_true_iff in Hsub as [Ho%negb_true_iff Hsub].
  rewrite run_ops_cons.
  assert (NoDup (registered b ++ sub_ids [o] ++ sub_ids ops)) as Hnd'.
  { unfold sub_ids. rewrite <- omap_app. exact Hnd. }
  destruct (step_valid o b _ Hv Hnd') as [Hv1 Hnd1].
  pose proof (step_view o b sub Hv Ho) as Hview. destruct (step o b) as [b1 out]. cbn [fst snd] in *.
  destruct Hview as [Hreg Hq]. specialize (IH b1 Hv1 Hnd1 Hsub).
  destruct (run_ops sub ops b1) as [b' del]. cbn [fst snd] in *. destruct IH as (Hv' & Hin & Hout & k & Hk).
  assert (published (o :: ops) = published [o] ++ published ops) as Hpub.
  { unfold published. by rewrite <- omap_app. }
  rewrite <- !app_assoc, Hpub. split_and!; [done| | |].
  - intros Hr. apply Hin in Hr as [Hr1 Hd]. split; [by apply Hreg|].
    rewrite bool_decide_eq_true_2 in Hq by done. by rewrite Hd, !app_assoc, Hq.
  - intros Hn. rewrite bool_decide_eq_false_2, app_nil_r in Hq by tauto.
    by rewrite Hout by tauto.
  - destruct (bool_decide (sub ∈ registered b1)) eqn:E.
    + exists (length (published [o]) + k). rewrite Hk, app_assoc, Hq, <- app_assoc. f_equal.
      by rewrite firstn_app_2.
    + exists 0. apply bool_decide_eq_false in E. rewrite Hout by done. cbn. by rewrite Hq.
Qed.

Lemma run_history sub ops b :
  length (history b) <= _max_history ->
  history (run_ops sub ops b).1 = last_n _max_history (history b ++ published ops).
Proof.
  revert b. induction ops as [|o ops IH]; intros b Hb.
  { cbn. by rewrite app_nil_r, last_n_all. }
  rewrite run_ops_cons. cbn [fst].
  assert (history (step o b).1 = last_n _max_history (history b ++ published [o])) as Hstep.
  { destruct o as [s|s|e|s]; cbn [step fst published omap list_omap]; rewrite ?app_nil_r; [by rewrite last_n_all..| |].
    - unfold publish. destruct (publish_go _ _ _ _). cbn. unfold trim_history.
      destruct (Nat.ltb_spec _max_history (length (history b ++ [e]))); [done|]. by rewrite last_n_all.
    - unfold next_event. by destruct (queue_of b s); rewrite last_n_all. }
  rewrite IH by (rewrite Hstep; apply last_n_length). rewrite Hstep, last_n_app, <- app_assoc.
  f_equal. f_equal. unfold published. by rewrite <- omap_app.
Qed.

(** ** What the broadcaster promises *)

Lemma run_valid sub ops b ids :
  valid b -> NoDup (registered b ++ sub_ids ops ++ ids) ->
  valid (run_ops sub ops b).1 /\ NoDup (registered (run_ops sub ops b).1 ++ ids).
Proof.
  revert b. induction ops as [|o ops IH]; intros b Hv Hnd; [done|]. rewrite run_ops_cons. cbn [fst].
  assert (NoDup (registered b ++ sub_ids [o] ++ sub_ids ops ++ ids)) as Hnd'.
  { rewrite (app_assoc (sub_ids [o])). unfold sub_ids. by rewrite <- omap_app. }
  destruct (step_valid o b _ Hv Hnd') as [? ?]. by apply IH.
Qed.

Lemma new_valid : valid new_broadcaster.
Proof. split; [constructor|intros s; cbn; lia|cbn; lia]. Qed.

(** A subscription: the state right after it. *)
Lemma subscribe_view sub b :
  queue_of (subscribe sub b) sub = last_n 50 (history b) /\ sub ∈ registered (subscribe sub b).
Proof.
  unfold subscribe, queue_of. cbn. split; [|apply elem_of_app; right; by apply list_elem_of_singleton].
  fold (get_queue (dict_set (queues b) sub (put_all [] (last_n 50 (history b)))) sub).
  rewrite get_queue_set. unfold str_eqb. rewrite bool_decide_eq_true_2 by done.
  rewrite put_all_room; [done|]. pose proof (replay_length (history b)). cbn. lia.
Qed.

Lemma not_subscribed_again sub ops : sub ∉ sub_ids ops -> forallb (fun o => negb (subscribes sub o)) ops = true.
Proof.
  intros Hn. apply forallb_forall. intros o Ho. apply negb_true_iff.
  destruct o as [s| | |]; cbn; try done. unfold str_eqb. apply bool_decide_eq_false_2. intros ->. apply Hn.
  apply list_elem_of_omap. exists (Subscribe sub). by rewrite list_elem_of_In.
Qed.

(** C14: with fresh subscription identifiers, what a stream has been given followed by what its
    queue holds is, while it is subscribed, exactly the last 50 earlier events and every event
    published since, in order and without duplicates; it is always a prefix of that; its queue
    never exceeds 256 events and the history holds the last 100. *)
Theorem sse_delivery before sub after :
  NoDup (sub_ids (before ++ Subscribe sub :: after)) ->
  let b0 := (run_ops sub before new_broadcaster).1 in
  let '(b, delivered) := run_ops sub after (subscribe sub b0) in
  let due := last_n 50 (published before) ++ published after in
  (sub ∈ registered b -> delivered ++ queue_of b sub = due)
  /\ (exists k, delivered ++ queue_of b sub = take k due)
  /\ length (queue_of b sub) <= 256 /\ history b = last_n 100 (published (before ++ after)).
Proof.
  intros Hids. cbn zeta.
  assert (sub_ids (before ++ Subscribe sub :: after) = sub_ids before ++ sub :: sub_ids after) as Heq
    by (unfold sub_ids; by rewrite omap_app).
  rewrite Heq in Hids.
  destruct (run_valid sub before new_broadcaster (sub :: sub_ids after) new_valid Hids) as [Hv0 Hnd0].
  pose proof (run_history sub before new_broadcaster ltac:(cbn; lia)) as Hh0.
  set (b0 := (run_ops sub before new_broadcaster).1) in *. cbn [history new_broadcaster app] in Hh0.
  destruct (step_valid (Subscribe sub) b0 (sub_ids after) Hv0 Hnd0) as [Hv1 Hnd1]. cbn [step fst] in Hv1, Hnd1.
  destruct (subscribe_view sub b0) as [Hq Hreg]. rewrite Hh0, last_n_last_n in Hq by (unfold _max_history; lia).
  assert (sub ∉ sub_ids after) as Hfresh.
  { apply NoDup_app in Hids as (_ & _ & Hids). by apply NoDup_cons in Hids as [? _]. }
  pose proof (run_view sub after (subscribe sub b0) Hv1 Hnd1 (not_subscribed_again _ _ Hfresh)) as Hrun.
  pose proof (run_history sub after (subscribe sub b0) (va_history _ Hv1)) as Hh.
  destruct (run_ops sub after (subscribe sub b0)) as [b del]. cbn [fst] in Hh.
  destruct Hrun as (Hv & Hin & _ & k & Hk). rewrite Hq in Hin, Hk. split_and!.
  - intros Hr. by apply Hin.
  - exists (length (last_n 50 (published before)) + k). by rewrite firstn_app_2.
  - apply (va_bounded _ Hv).
  - rewrite Hh. cbn [subscribe history]. rewrite Hh0, last_n_app. unfold published. by rewrite omap_app.
Qed.

(** A stream whose subscription was dropped is given the events still in its queue and
    nothing after them; once they are read, each turn is a keepalive: the stream neither ends
    nor reports the loss. *)
Theorem sse_dropped_stream_gets_nothing_new before sub after :
  NoDup (sub_ids (before ++ after)) -> sub ∉ sub_ids after ->
  let b0 := (run_ops sub before new_broadcaster).1 in
  sub ∉ registered b0 ->
  let '(b, delivered) := run_ops sub after b0 in
  delivered ++ queue_of b sub = queue_of b0 sub
  /\ (queue_of b0 sub = [] -> step (Next sub) b = (b, None)).
Proof.
  intros Hids Hfresh b0 Hn. unfold sub_ids in Hids. rewrite omap_app in Hids.
  destruct (run_valid sub before new_broadcaster (sub_ids after) new_valid Hids) as [Hv0 Hnd0]. fold b0 in Hv0, Hnd0.
  pose proof (run_view sub after b0 Hv0 Hnd0 (not_subscribed_again _ _ Hfresh)) as Hrun.
  destruct (run_ops sub after b0) as [b del]. destruct Hrun as (_ & _ & Hout & _).
  specialize (Hout Hn). split; [done|]. intros Hnil. rewrite Hnil in Hout. apply app_nil in Hout as [_ Hq].
  cbn. unfold next_event. by rewrite Hq.
Qed.

(** ** A stream that does not keep up *)

Definition sample_event (n : nat) : SseEvent :=
  {| ev_event := #"execution.completed"; ev_data := [(#"n", JInt (Z.of_nat n))]; ev_id := str_Z (Z.of_nat n);
     ev_timestamp := #"t" |}.
Definition sample_events (n : nat) : list op := (fun i => Publish (sample_event i)) <$> seq 0 n.

(** Three events before the subscription, one after it, two read. *)
Lemma sse_delivery_witness :
  let b0 := (run_ops #"s" (sample_events 3) new_broadcaster).1 in
  let '(b, delivered) := run_ops #"s" [Next #"s"; Publish (sample_event 9); Next #"s"] (subscribe #"s" b0) in
  let due := last_n 50 (published (sample_events 3)) ++ [sample_event 9] in
  (#"s" ∈ registered b -> delivered ++ queue_of b #"s" = due)
  /\ (exists k, delivered ++ queue_of b #"s" = take k due)
  /\ length (queue_of b #"s") <= 256
  /\ history b = last_n 100 (published (sample_events 3 ++ [Next #"s"; Publish (sample_event 9); Next #"s"])).
Proof.
  apply (sse_delivery (sample_events 3) #"s" [Next #"s"; Publish (sample_event 9); Next #"s"]).
  apply NoDup_singleton.
Defined.

(** After 257 unread events the subscription is dropped; one event later the stream has
    had its 256 events and waits for ever. *)
Lemma sse_dropped_witness :
  let b0 := (run_ops #"s" (Subscribe #"s" :: sample_events 257) new_broadcaster).1 in
  (#"s" ∉ registered b0)
  /\ (let '(b, delivered) := run_ops #"s" [Publish (sample_event 300); Next #"s"] b0 in
      delivered ++ queue_of b #"s" = queue_of b0 #"s"
      /\ (queue_of b0 #"s" = [] -> step (Next #"s") b = (b, None))).
Proof.
  assert (registered (run_ops #"s" (Subscribe #"s" :: sample_events 257) new_broadcaster).1 = []) as Hr
    by (vm_compute; reflexivity).
  assert (#"s" ∉ registered (run_ops #"s" (Subscribe #"s" :: sample_events 257) new_broadcaster).1) as Hn
    by (rewrite Hr; apply not_elem_of_nil).
  split; [exact Hn|].
  apply (sse_dropped_stream_gets_nothing_new (Subscribe #"s" :: sample_events 257) #"s"
           [Publish (sample_event 300); Next #"s"]); [| |exact Hn].
  - replace (sub_ids _) with [ #"s"] by (vm_compute; reflexivity). apply NoDup_singleton.
  - apply not_elem_of_nil.
Defined.
