(* ===== verification/Auth.v ===== *)
(** * Authentication and API keys

    [app/application/services/api_key_authentication.py], [api_key_management.py] and
    [auth_service.py], and the dependencies of [app/api/deps.py] that decide which
    principal a request has and whether it may write.  Ports are calls; token libraries,
    hashes and the clock are behind them.  An instant is a number of microseconds. *)
From S2P Require Import Prelude PyStr Errors Json Effects Dto.

(** ** Data *)

Record APIKeyAuthDTO := {
  ka_id : uuid; ka_key_prefix : pystr; ka_is_active : bool; ka_scope : pystr;
  ka_expires_at : option Z; ka_last_used_at : option Z }.
Record APIKeyViewDTO := {
  kv_id : uuid; kv_name : pystr; kv_key_prefix : pystr; kv_is_active : bool; kv_scope : pystr;
  kv_created_at : Z; kv_last_used_at : option Z; kv_expires_at : option Z }.
Record APIKeyCreateDTO := { kc_name : pystr; kc_scope : pystr }.
Record APIKeyPersistenceDTO := { kp_name : pystr; kp_key_hash : pystr; kp_key_prefix : pystr; kp_scope : pystr }.
Record APIKeyCreateResultDTO := {
  kr_id : uuid; kr_name : pystr; kr_plain_key : pystr; kr_key_prefix : pystr; kr_created_at : Z }.
Record APIKeyPageDTO := { kg_items : list APIKeyViewDTO; kg_total : Z }.
(** [changes]: field names with their new values. *)
Inductive key_value := KStr (s : pystr) | KBool (b : bool) | KTime (t : Z) | KNone.
Record APIKeyUpdateDTO := { ku_changes : list (pystr * key_value) }.
Record AuthenticatedPrincipal := { ap_key_id : uuid; ap_key_prefix : pystr; ap_scope : pystr; ap_key_type : pystr }.
(** [app/application/dto/user.py], the fields used here. *)
Record UserViewDTO := { us_id : uuid; us_email : pystr; us_is_active : bool; us_is_superuser : bool; us_created_at : Z }.
Record tokens := { tk_access_token : pystr; tk_refresh_token : pystr; tk_token_type : pystr }.

Inductive principal_source := Jwt | ApiKey.
Record Principal := { pr_source : principal_source; pr_identifier : pystr }.

(** ** Ports *)

Inductive auth_call :=
| Now
| HashKey (plain_key : pystr)
| TokenUrlsafe (nbytes : Z)
| GetAuthByHash (key_hash : pystr)
| TouchLastUsed (key_id : uuid) (used_at : Z)
| GetApiKey (key_id : uuid)
| ListApiKeys (offset limit : Z)
| CreateApiKey (data : APIKeyPersistenceDTO)
| UpdateApiKey (key_id : uuid) (data : APIKeyUpdateDTO)
| RevokeApiKey (key_id : uuid)
| DecodeToken (token expected_type : pystr)
| EncodeAccessToken (user_id email : pystr) (is_superuser : bool)
| EncodeRefreshToken (user_id : pystr)
| HashToken (token : pystr)
| GetUserIdByEmail (email : pystr)
| GetHashedPassword (email : pystr)
| VerifyPassword (password hashed : pystr)
| IsUserActive (user_id : uuid)
| IsSuperuser (user_id : uuid)
| GetUser (user_id : uuid)
| DeleteExpiredByUser (user_id : uuid)
| CreateRefresh (user_id : uuid) (token_hash : pystr) (expires_at : Z)
| GetRefreshByHash (token_hash : pystr)
| RotateRefresh (old_hash : pystr) (user_id : uuid) (token_hash : pystr) (expires_at : Z)
| DeleteRefresh (token_hash : pystr).

Definition auth_answer (c : auth_call) : Type :=
  match c with
  | Now => Z
  | HashKey _ | TokenUrlsafe _ | EncodeAccessToken _ _ _ | EncodeRefreshToken _ | HashToken _ => pystr
  | GetAuthByHash _ => option APIKeyAuthDTO
  | TouchLastUsed _ _ | DeleteExpiredByUser _ | CreateRefresh _ _ _ | DeleteRefresh _ => unit
  | GetApiKey _ | UpdateApiKey _ _ => option APIKeyViewDTO
  | ListApiKeys _ _ => APIKeyPageDTO
  | CreateApiKey _ => APIKeyViewDTO
  | RevokeApiKey _ | VerifyPassword _ _ | IsUserActive _ | IsSuperuser _ | RotateRefresh _ _ _ _ => bool
  | DecodeToken _ _ => jobject
  | GetUserIdByEmail _ | GetRefreshByHash _ => option uuid
  | GetHashedPassword _ => option pystr
  | GetUser _ => option UserViewDTO
  end.

#[local] Instance auth_signature : Signature := {| call := auth_call; answer := auth_answer |}.

(** The settings read here, and [uuid.UUID(text)] ([None]: [ValueError]). *)
Class AuthHost := {
  MASTER_API_KEY : pystr;
  refresh_token_expire_days : Z;
  parse_uuid : pystr -> option uuid }.

Section auth.
Context `{Unicode} `{PyFloat} `{AuthHost}.

Definition microsecond_day : Z := 86400000000.
Definition _LAST_USED_UPDATE_INTERVAL : Z := 300000000.

(** ** API keys *)

Definition authenticate (plain_key : pystr) : prog AuthenticatedPrincipal :=
  key_hash ← perform (HashKey plain_key);
  record ← perform (GetAuthByHash key_hash);
  match record with
  | None => lift (raise AuthenticationError #"Invalid API key")
  | Some record =>
      if negb (ka_is_active record) then lift (raise APIKeyRevokedError #"API key has been revoked")
      else
        now ← perform Now;
        if match ka_expires_at record with Some t => (t <? now)%Z | None => false end
        then lift (raise APIKeyExpiredError #"API key has expired")
        else
          (if match ka_last_used_at record with
              | None => true
              | Some t => (_LAST_USED_UPDATE_INTERVAL <=? now - t)%Z
              end
           then perform (TouchLastUsed (ka_id record) now) else mret tt);;
          mret {| ap_key_id := ka_id record; ap_key_prefix := ka_key_prefix record;
                  ap_scope := ka_scope record; ap_key_type := #"managed" |}
  end.

Definition _KEY_PREFIX_LENGTH : nat := 8.
Definition _KEY_RANDOM_LENGTH : nat := 48.
Definition _KEY_FORMAT : pystr := #"nnk_".

Definition generate_api_key : prog (pystr * pystr * pystr) :=
  random ← perform (TokenUrlsafe (Z.of_nat _KEY_RANDOM_LENGTH));
  let random_part := take _KEY_RANDOM_LENGTH random in
  let plain_key := _KEY_FORMAT ++ random_part in
  key_hash ← perform (HashKey plain_key);
  mret (plain_key, key_hash, take _KEY_PREFIX_LENGTH plain_key).

Definition create_api_key (data : APIKeyCreateDTO) : prog APIKeyCreateResultDTO :=
  '(plain_key, key_hash, key_prefix) ← generate_api_key;
  created ← perform (CreateApiKey {| kp_name := kc_name data; kp_key_hash := key_hash;
                                     kp_key_prefix := key_prefix; kp_scope := kc_scope data |});
  mret {| kr_id := kv_id created; kr_name := kv_name created; kr_plain_key := plain_key;
          kr_key_prefix := kv_key_prefix created; kr_created_at := kv_created_at created |}.

Definition key_not_found (key_id : uuid) : exn :=
  Exn APIKeyNotFoundError (#"API key " ++ uuid_str key_id ++ #" not found").

Definition get_api_key (key_id : uuid) : prog APIKeyViewDTO :=
  view ← perform (GetApiKey key_id);
  match view with None => lift (Raise (key_not_found key_id)) | Some view => mret view end.
Definition list_api_keys (page size : Z) : prog APIKeyPageDTO :=
  perform (ListApiKeys ((page - 1) * size) size).
Definition update_api_key (key_id : uuid) (data : APIKeyUpdateDTO) : prog APIKeyViewDTO :=
  updated ← perform (UpdateApiKey key_id data);
  match updated with None => lift (Raise (key_not_found key_id)) | Some updated => mret updated end.
Definition revoke_api_key (key_id : uuid) : prog unit :=
  revoked ← perform (RevokeApiKey key_id);
  if (revoked : bool) then mret tt else lift (Raise (key_not_found key_id)).

(** ** Principals ([app/api/deps.py]) *)

(** [HTTPException(status_code, detail)]: its text is status and detail. *)
Definition HTTPException : exn_class := LibraryError #"HTTPException".
Definition http_error (status : Z) (detail : pystr) : exn := Exn HTTPException (str_Z status ++ #": " ++ detail).

(** [hmac.compare_digest] of two strings: only ASCII is supported. *)
Definition compare_digest (a b : pystr) : res bool :=
  if forallb is_ascii a && forallb is_ascii b then Ok (str_eqb a b)
  else raise TypeError #"comparing strings with non-ASCII characters is not supported".

(** [settings.MASTER_API_KEY and hmac.compare_digest(value, settings.MASTER_API_KEY)]. *)
Definition is_master (value : pystr) : res bool :=
  match MASTER_API_KEY with [] => Ok false | _ => compare_digest value MASTER_API_KEY end.

Definition _decode_access_token (token : pystr) : prog (uuid * jobject) :=
  try_except
    (payload ← perform (DecodeToken token #"access");
     match dict_get payload #"sub" with
     | None => lift (raise KeyError #"'sub'")
     | Some (JStr sub) =>
         match parse_uuid sub with
         | Some user_id => mret (user_id, payload)
         | None => lift (raise ValueError #"badly formed hexadecimal UUID string")
         end
     | Some _ => lift (Raise (http_error 401 #"Invalid token payload"))
     end)
    (fun exc =>
       if bool_decide (exn_type exc = HTTPException) then None
       else on_exception (fun _ => lift (Raise (http_error 401 #"Invalid or expired token"))) exc).

Definition master_principal : Principal := {| pr_source := Jwt; pr_identifier := #"master" |}.
Definition not_authenticated : exn := http_error 401 #"Not authenticated".

(** [if api_key: ...] of the dual resolvers; [check] refuses a principal. *)
Definition api_key_principal (check : AuthenticatedPrincipal -> res unit) (api_key : option pystr) : prog Principal :=
  match api_key with
  | Some ((_ :: _) as api_key) =>
      master ← lift (is_master api_key);
      if (master : bool) then mret master_principal
      else
        principal ← authenticate api_key;
        lift (check principal);;
        mret {| pr_source := ApiKey; pr_identifier := ap_key_prefix principal |}
  | _ => lift (Raise not_authenticated)
  end.

Definition get_current_principal (bearer api_key : option pystr) : prog Principal :=
  match bearer with
  | Some token =>
      '(user_id, claims) ← _decode_access_token token;
      master ← lift (match MASTER_API_KEY, dict_get claims #"x-api-key" with
                     | _ :: _, Some (JStr claim) => compare_digest claim MASTER_API_KEY
                     | _, _ => Ok false
                     end);
      if (master : bool) then mret master_principal
      else mret {| pr_source := Jwt; pr_identifier := uuid_str user_id |}
  | None => api_key_principal (fun _ => Ok tt) api_key
  end.

(** [claims.get("is_superuser")], as a condition. *)
Definition claims_superuser (claims : jobject) : bool :=
  match dict_get claims #"is_superuser" with Some v => json_truthy v | None => false end.
Definition check_write_scope (principal : AuthenticatedPrincipal) : res unit :=
  if str_eqb (ap_scope principal) #"read-only"
  then Raise (http_error 403 #"API key has read-only scope") else Ok tt.

Definition require_write_or_jwt_scope (bearer api_key : option pystr) : prog Principal :=
  match bearer with
  | Some token =>
      '(user_id, claims) ← _decode_access_token token;
      if negb (claims_superuser claims) then lift (Raise (http_error 403 #"Superuser privileges required"))
      else mret {| pr_source := Jwt; pr_identifier := uuid_str user_id |}
  | None => api_key_principal check_write_scope api_key
  end.

(** The legacy helpers. *)
Definition legacy_key (check : AuthenticatedPrincipal -> res unit) (api_key : option pystr) : prog pystr :=
  match api_key with
  | Some ((_ :: _) as api_key) =>
      master ← lift (is_master api_key);
      if (master : bool) then mret #"master"
      else principal ← authenticate api_key; lift (check principal);; mret (ap_key_prefix principal)
  | _ => lift (Raise (http_error 401 #"Missing X-API-Key header"))
  end.
Definition get_current_api_key (api_key : option pystr) : prog pystr := legacy_key (fun _ => Ok tt) api_key.
Definition require_write_scope (api_key : option pystr) : prog pystr := legacy_key check_write_scope api_key.
Definition get_current_user_id (bearer : option pystr) : prog uuid :=
  match bearer with
  | Some token => '(user_id, _) ← _decode_access_token token; mret user_id
  | None => lift (Raise not_authenticated)
  end.
Definition require_superuser (bearer : option pystr) : prog uuid :=
  match bearer with
  | Some token =>
      '(user_id, claims) ← _decode_access_token token;
      if negb (claims_superuser claims) then lift (Raise (http_error 403 #"Superuser privileges required"))
      else mret user_id
  | None => lift (Raise not_authenticated)
  end.

(** ** Sessions ([AuthService]) *)

Definition bad_credentials : exn := Exn InvalidCredentialsError #"Invalid email or password".

(** The shared tail: a fresh pair of tokens, its expiry, and the hash to store. *)
Definition bearer_tokens (access_token refresh_token : pystr) : tokens :=
  {| tk_access_token := access_token; tk_refresh_token := refresh_token; tk_token_type := #"bearer" |}.

Definition login (email password : pystr) : prog tokens :=
  user_id ← perform (GetUserIdByEmail email);
  match user_id with
  | None => lift (Raise bad_credentials)
  | Some user_id =>
      hashed ← perform (GetHashedPassword email);
      match hashed with
      | None => lift (Raise bad_credentials)
      | Some hashed =>
          verified ← perform (VerifyPassword password hashed);
          if negb (verified : bool) then lift (Raise bad_credentials)
          else
            active ← perform (IsUserActive user_id);
            if negb (active : bool) then lift (Raise bad_credentials)
            else
              perform (DeleteExpiredByUser user_id);;
              superuser ← perform (IsSuperuser user_id);
              access_token ← perform (EncodeAccessToken (uuid_str user_id) email superuser);
              refresh_token ← perform (EncodeRefreshToken (uuid_str user_id));
              now ← perform Now;
              let expires_at := (now + refresh_token_expire_days * microsecond_day)%Z in
              token_hash ← perform (HashToken refresh_token);
              perform (CreateRefresh user_id token_hash expires_at);;
              mret (bearer_tokens access_token refresh_token)
      end
  end.

Definition refresh_access_token (refresh_token_hash : pystr) : prog tokens :=
  user_id ← perform (GetRefreshByHash refresh_token_hash);
  match user_id with
  | None => lift (raise TokenExpiredError #"Invalid or expired refresh token")
  | Some user_id =>
      active ← perform (IsUserActive user_id);
      if negb (active : bool) then lift (raise InvalidCredentialsError #"User is inactive")
      else
        user ← perform (GetUser user_id);
        match user with
        | None => lift (raise TokenExpiredError #"User not found")
        | Some user =>
            access_token ← perform (EncodeAccessToken (uuid_str user_id) (us_email user) (us_is_superuser user));
            refresh_token ← perform (EncodeRefreshToken (uuid_str user_id));
            now ← perform Now;
            let expires_at := (now + refresh_token_expire_days * microsecond_day)%Z in
            token_hash ← perform (HashToken refresh_token);
            rotated ← perform (RotateRefresh refresh_token_hash user_id token_hash expires_at);
            if negb (rotated : bool) then lift (raise TokenExpiredError #"Invalid or expired refresh token")
            else mret (bearer_tokens access_token refresh_token)
        end
  end.

Definition logout (refresh_token_hash : pystr) : prog unit := perform (DeleteRefresh refresh_token_hash).

Definition get_current_user (user_id : uuid) : prog UserViewDTO :=
  user ← perform (GetUser user_id);
  match user with
  | None => lift (raise InvalidCredentialsError #"User not found")
  | Some user => if negb (us_is_active user) then lift (raise InvalidCredentialsError #"User is inactive") else mret user
  end.

(** ** Reading a history *)

(** The call [c] was made and answered with [a]. *)
Definition answered (h : history) (c : auth_call) (a : auth_answer c) : Prop := existT c (Ok a) ∈ h.

Lemma answered_here h c a : answered (h ++ [existT c (Ok a)]) c a.
Proof. apply elem_of_app. right. by apply list_elem_of_singleton. Qed.
Lemma answered_later h ev c a : answered h c a -> answered (h ++ [ev]) c a.
Proof. intros Ha. apply elem_of_app. by left. Qed.

(** A record that authenticates at [now]. *)
Definition usable (record : APIKeyAuthDTO) (now : Z) : Prop :=
  ka_is_active record = true /\ forall t, ka_expires_at record = Some t -> (now <= t)%Z.
(** The key was looked up by its hash, and the record found was usable. *)
Definition key_accepted (h : history) (key : pystr) (record : APIKeyAuthDTO) : Prop :=
  exists key_hash now, answered h (HashKey key) key_hash
    /\ answered h (GetAuthByHash key_hash) (Some record) /\ answered h Now now /\ usable record now.

(** Symbolic execution of the services of this file. *)
Ltac auth_step :=
  lazymatch goal with
  | |- wp ?p _ _ _ =>
      lazymatch p with
      | _ ≫= _ => apply wp_bind
      | mbind _ _ => apply wp_bind
      | try_except _ _ => apply wp_try
      | perform _ => split; [|intros [?x|?e]]; cbn beta iota
      | lift _ => apply wp_lift; cbn beta iota
      | mret _ => apply wp_lift; cbn beta iota
      | Done _ => apply wp_lift; cbn beta iota
      | match ?x with _ => _ end => let E := fresh "E" in destruct x eqn:E; cbn beta iota
      end
  end.
Ltac answered_tac := repeat first [apply answered_here | apply answered_later].

Lemma wp_authenticate key h (G : history -> call -> Prop) (Q : history -> res AuthenticatedPrincipal -> Prop) :
  (forall h' c, match c with HashKey _ | GetAuthByHash _ | Now | TouchLastUsed _ _ => True | _ => False end -> G h' c) ->
  (forall h' record, key_accepted h' key record ->
     Q h' (Ok {| ap_key_id := ka_id record; ap_key_prefix := ka_key_prefix record;
                 ap_scope := ka_scope record; ap_key_type := #"managed" |})) ->
  (forall h' e, Q h' (Raise e)) ->
  wp (authenticate key) h G Q.
Proof.
  intros HG HQ He. unfold authenticate.
  repeat auth_step; try (by apply He); try (by apply HG).
  all: apply HQ; exists x, x1; subst; split_and!; [answered_tac..|].
  all: split; [by apply negb_false_iff|]; intros t Ht; rewrite Ht in *; to_prop; lia.
Qed.

Lemma wp_decode_access_token token h (G : history -> call -> Prop) (Q : history -> res (uuid * jobject) -> Prop) :
  (forall h', G h' (DecodeToken token #"access")) ->
  (forall h' claims sub user_id, answered h' (DecodeToken token #"access") claims ->
     dict_get claims #"sub" = Some (JStr sub) -> parse_uuid sub = Some user_id -> Q h' (Ok (user_id, claims))) ->
  (forall h' e, isinstance (exn_type e) Exception_ = true -> exn_type e = HTTPException -> Q h' (Raise e)) ->
  (forall h' e, isinstance (exn_type e) Exception_ = false -> Q h' (Raise e)) ->
  wp (_decode_access_token token) h G Q.
Proof.
  intros HG HQ He Hb. unfold _decode_access_token.
  repeat auth_step; try (by apply HG); cbn; try (by apply He).
  - by eapply HQ; [answered_tac| |].
  - case_bool_decide as Ec; [by apply He; [rewrite Ec|]|]. unfold on_exception.
    destruct (isinstance (exn_type e) Exception_) eqn:E; [by apply He|by apply Hb].
Qed.

(** ** What the dependencies promise *)

(** The calls of a request that presented a bearer token. *)
Definition token_only (bearer : option pystr) (c : call) : Prop :=
  match bearer, c with Some token, DecodeToken t _ => t = token | Some _, _ => False | None, DecodeToken _ _ => False | None, _ => True end.

(** How a request may have been allowed to write. *)
Definition write_allowed (bearer api_key : option pystr) (h : history) (p : Principal) : Prop :=
  match bearer with
  | Some token => exists claims sub user_id,
      answered h (DecodeToken token #"access") claims /\ dict_get claims #"sub" = Some (JStr sub)
      /\ parse_uuid sub = Some user_id /\ claims_superuser claims = true
      /\ p = {| pr_source := Jwt; pr_identifier := uuid_str user_id |}
  | None => exists key, api_key = Some key /\ key <> []
      /\ ((key = MASTER_API_KEY /\ p = master_principal)
          \/ (key <> MASTER_API_KEY /\ exists record, key_accepted h key record /\ ka_scope record <> #"read-only"
              /\ p = {| pr_source := ApiKey; pr_identifier := ka_key_prefix record |}))
  end.

Lemma is_master_ok key b : is_master key = Ok b -> key <> [] -> b = true <-> key = MASTER_API_KEY.
Proof.
  unfold is_master, compare_digest. destruct MASTER_API_KEY as [|c m]; [by intros [= <-]; split|].
  destruct (_ && _); [|done]. intros [= <-] _. apply str_eqb_eq.
Qed.

Lemma wp_api_key_principal check api_key h (G : history -> call -> Prop) (Q : history -> res Principal -> Prop) :
  (forall h' c, match c with HashKey _ | GetAuthByHash _ | Now | TouchLastUsed _ _ => True | _ => False end -> G h' c) ->
  (forall h' key, api_key = Some key -> key <> [] -> key = MASTER_API_KEY -> Q h' (Ok master_principal)) ->
  (forall h' key record, api_key = Some key -> key <> [] -> key <> MASTER_API_KEY -> key_accepted h' key record ->
     check {| ap_key_id := ka_id record; ap_key_prefix := ka_key_prefix record;
              ap_scope := ka_scope record; ap_key_type := #"managed" |} = Ok tt ->
     Q h' (Ok {| pr_source := ApiKey; pr_identifier := ka_key_prefix record |})) ->
  (forall h' e, Q h' (Raise e)) ->
  wp (api_key_principal check api_key) h G Q.
Proof.
  intros HG Hm Hk He. unfold api_key_principal. destruct api_key as [[|c key]|]; [apply He| |apply He].
  apply wp_bind, wp_lift. destruct (is_master (c :: key)) as [b|e] eqn:Em; [|apply He].
  apply is_master_ok in Em; [|done]. destruct b.
  - by apply (Hm _ (c :: key)); [..|apply Em].
  - apply wp_bind, wp_authenticate; [done| |intros; apply He]. intros h' record Hrec. cbn beta iota.
    apply wp_bind, wp_lift. destruct (check _) as [[]|e] eqn:Ec; [|apply He].
    apply (Hk _ (c :: key) record); try done. intros Heq. by apply Em in Heq.
Qed.

(** C16: a request passes the write check only with a bearer token that decodes to a superuser,
    or without one with the master key, or with a key whose record was found by its hash, is
    active, has not expired and is not read-only; a bearer token is never replaced by the key of
    the same request. *)
Theorem write_requires_authorization bearer api_key :
  wp (require_write_or_jwt_scope bearer api_key) [] (fun _ => token_only bearer)
    (fun h r => forall p, r = Ok p -> write_allowed bearer api_key h p).
Proof.
  unfold require_write_or_jwt_scope. destruct bearer as [token|].
  - apply wp_bind, wp_decode_access_token; [done| |done|done].
    intros h claims sub user_id Ha Hsub Hid. cbn beta iota.
    destruct (claims_superuser claims) eqn:Es; cbn [negb]; [|done].
    intros p [= <-]. by exists claims, sub, user_id.
  - apply wp_api_key_principal; [by intros ? []| | |done].
    + intros h key -> Hne Hm p [= <-]. exists key. auto.
    + intros h key record -> Hne Hm Hacc Hcheck p [= <-]. exists key. split_and!; [done..|]. right.
      split; [done|]. exists record. split_and!; [done| |done].
      intros Hs. unfold check_write_scope in Hcheck. cbn in Hcheck. by rewrite Hs in Hcheck.
Qed.

(** ** What sessions promise *)

(** The refresh token returned is the one stored for a user who is active. *)
Definition session_stored (email : pystr) (password : pystr) (h : history) (t : tokens) : Prop :=
  exists user_id hashed superuser token_hash expires_at,
    answered h (GetUserIdByEmail email) (Some user_id)
    /\ answered h (GetHashedPassword email) (Some hashed) /\ answered h (VerifyPassword password hashed) true
    /\ answered h (IsUserActive user_id) true
    /\ answered h (IsSuperuser user_id) superuser
    /\ answered h (EncodeAccessToken (uuid_str user_id) email superuser) (tk_access_token t)
    /\ answered h (EncodeRefreshToken (uuid_str user_id)) (tk_refresh_token t)
    /\ answered h (HashToken (tk_refresh_token t)) token_hash
    /\ answered h (CreateRefresh user_id token_hash expires_at) tt.

(** Tokens are made and sessions stored only for the user the password was verified for. *)
Definition verified_user (email password : pystr) (h : history) (user_id : uuid) : Prop :=
  exists hashed, answered h (GetUserIdByEmail email) (Some user_id) /\ answered h (GetHashedPassword email) (Some hashed)
    /\ answered h (VerifyPassword password hashed) true /\ answered h (IsUserActive user_id) true.
Definition issue_guard (email password : pystr) (h : history) (c : call) : Prop :=
  match c with
  | EncodeAccessToken u _ _ | EncodeRefreshToken u =>
      exists user_id, u = uuid_str user_id /\ verified_user email password h user_id
  | CreateRefresh user_id _ _ => verified_user email password h user_id
  | RotateRefresh _ _ _ _ => False
  | _ => True
  end.

Ltac session_tac :=
  repeat match goal with E : negb ?b = false |- _ => apply negb_false_iff in E; subst end.

(** Tokens are created and sessions stored only for the user found under the email whose
    password was verified and who is active, and the refresh token returned is the one whose
    hash was stored. *)
Theorem login_issues_to_verified_users email password :
  wp (login email password) [] (issue_guard email password)
    (fun h r => forall t, r = Ok t -> session_stored email password h t).
Proof.
  unfold login. repeat auth_step; try done. all: session_tac.
  - exists n. split; [done|]. exists l. split_and!; answered_tac.
  - exists n. split; [done|]. exists l. split_and!; answered_tac.
  - exists l. split_and!; answered_tac.
  - intros t [= <-]. exists n, l, x4, x8, (x7 + refresh_token_expire_days * microsecond_day)%Z.
    destruct x9. cbn [bearer_tokens tk_access_token tk_refresh_token]. split_and!; answered_tac.
Qed.

(** The old token was exchanged, once, for the one returned. *)
Definition rotated (old_hash : pystr) (h : history) (t : tokens) : Prop :=
  exists user_id user token_hash expires_at,
    answered h (GetRefreshByHash old_hash) (Some user_id) /\ answered h (IsUserActive user_id) true
    /\ answered h (GetUser user_id) (Some user)
    /\ answered h (EncodeAccessToken (uuid_str user_id) (us_email user) (us_is_superuser user)) (tk_access_token t)
    /\ answered h (EncodeRefreshToken (uuid_str user_id)) (tk_refresh_token t)
    /\ answered h (HashToken (tk_refresh_token t)) token_hash
    /\ answered h (RotateRefresh old_hash user_id token_hash expires_at) true.

(** A refresh returns tokens only after the presented refresh token of an active user was
    exchanged in one step for the hash of the refresh token it returns. *)
Theorem refresh_rotates_the_presented_token old_hash :
  wp (refresh_access_token old_hash) []
    (fun h c => match c with
       | CreateRefresh _ _ _ => False
       | RotateRefresh old user_id _ _ => old = old_hash /\ answered h (GetRefreshByHash old_hash) (Some user_id)
                                          /\ answered h (IsUserActive user_id) true
       | _ => True
       end)
    (fun h r => forall t, r = Ok t -> rotated old_hash h t).
Proof.
  unfold refresh_access_token. repeat auth_step; try done. all: session_tac.
  - split_and!; [done|answered_tac..].
  - intros t [= <-]. exists n, u; do 2 eexists.
    cbn [bearer_tokens tk_access_token tk_refresh_token]. split_and!; answered_tac.
Qed.

(** ** What key management promises *)

(** The record stored for a new API key holds the hash of the key that is returned and only
    its first eight characters, four of them random, with the requested name and scope. *)
Theorem created_key_is_stored_hashed data :
  wp (create_api_key data) []
    (fun h c => match c with
       | CreateApiKey record => exists random,
           answered h (TokenUrlsafe 48) random
           /\ answered h (HashKey (_KEY_FORMAT ++ take 48 random)) (kp_key_hash record)
           /\ kp_key_prefix record = _KEY_FORMAT ++ take 4 random
           /\ kp_name record = kc_name data /\ kp_scope record = kc_scope data
       | _ => True
       end)
    (fun h r => forall result, r = Ok result -> exists random record created,
       answered h (TokenUrlsafe 48) random /\ kr_plain_key result = _KEY_FORMAT ++ take 48 random
       /\ answered h (HashKey (kr_plain_key result)) (kp_key_hash record)
       /\ answered h (CreateApiKey record) created /\ kr_id result = kv_id created).
Proof.
  unfold create_api_key, generate_api_key. repeat auth_step; try done.
  all: repeat match goal with E : _ = (_, _) |- _ => injection E as <- <- end.
  all: repeat match goal with E : mret _ = Ok _ |- _ => injection E as <- end.
  - exists x. split_and!; [answered_tac..| |done|done]. cbn [kp_key_prefix].
    unfold _KEY_PREFIX_LENGTH, _KEY_RANDOM_LENGTH. change (length _KEY_FORMAT) with 4.
    change 8 with (length _KEY_FORMAT + 4) at 1. by rewrite firstn_app_2, take_take.
  - intros result [= <-]. exists x. do 2 eexists. cbn [kr_plain_key kr_id].
    split_and!; [answered_tac|done| |answered_tac|done]. cbn [kp_key_hash]. answered_tac.
Qed.
End auth.
