(* ===== verification/Script.v ===== *)
(** * Script pipelines ([app/application/services/script_execution_service.py])

    Resolving the steps of a script ([_resolve_step]) and its target nodes
    ([_target_resolver.py]), and running the resolved steps on one node ([_run_remote]):
    one connection, one command after the other, a timeout per step, and the failure policy
    of each step. *)
From S2P Require Import Prelude PyStr Errors Json Bytes Effects Dto Output Template.

(** ** Data ([app/application/dto/script_execution.py]) *)

Record ResolvedScriptStepDTO := {
  rs_label : json; rs_command : pystr; rs_on_failure : json; rs_resolution_error : option pystr }.
Record ScriptExecutionTargetDTO := {
  st_execution_id : uuid; st_script_id : uuid; st_node : NodeConnectionDTO;
  st_steps : list ResolvedScriptStepDTO; st_timeout : Z }.
Record ScriptStepResultDTO := {
  ss_step_index : nat; ss_label : json; ss_command_fingerprint : pystr; ss_stdout : pystr; ss_stderr : pystr;
  ss_stdout_bytes : Z; ss_stderr_bytes : Z; ss_truncated : bool; ss_exit_code : Z }.
Record ScriptNodeResultDTO := {
  sn_execution_id : uuid; sn_node_id : uuid; sn_node_name : pystr; sn_success : bool;
  sn_steps : list ScriptStepResultDTO }.
(** What the command reader returns for a stored command. *)
Record CommandTemplate := { ct_command : pystr; ct_parameters : list TemplateParameter }.

(** ** Ports: stored commands, node reader, credential cipher and SSH session *)

Inductive script_call :=
| GetTemplate (command_id : uuid)
| GetConnectionsByIds (node_ids : list uuid)
| GetConnectionsByTags (tags : list pystr)
| Decrypt (value : option pystr)
| Connect (node : NodeConnectionDTO) (password ssh_key passphrase : option pystr)
| ExecuteCommand (command : pystr) (timeout : Z)
| Disconnect.
Definition script_answer (c : script_call) : Type :=
  match c with
  | GetTemplate _ => option CommandTemplate
  | GetConnectionsByIds _ | GetConnectionsByTags _ => list NodeConnectionDTO
  | Decrypt _ => option pystr
  | Connect _ _ _ _ | Disconnect => unit
  | ExecuteCommand _ _ => pystr * pystr * Z
  end.
#[local] Instance script_signature : Signature := {| call := script_call; answer := script_answer |}.

Section script.
Context `{Unicode} `{PyFloat}.
(** [uuid.UUID] ([None]: [ValueError]) and [hashlib.sha256(...).hexdigest()]. *)
Context (parse_uuid : pystr -> option uuid) (sha256_hex : bytes -> pystr).

(** ** Targets *)

Definition resolve_targets (node_ids : list uuid) (tags : list pystr) : prog (list NodeConnectionDTO) :=
  nodes_by_ids ← match node_ids with
                 | [] => mret None
                 | _ => nodes ← perform (GetConnectionsByIds node_ids); mret (Some nodes)
                 end;
  nodes_by_tags ← match tags with
                  | [] => mret None
                  | _ => nodes ← perform (GetConnectionsByTags tags); mret (Some nodes)
                  end;
  mret (match nodes_by_ids, nodes_by_tags with
        | Some by_ids, Some by_tags => List.filter (fun node => bool_decide (n_id node ∈ n_id <$> by_tags)) by_ids
        | Some by_ids, None => by_ids
        | None, by_tags => default [] by_tags
        end).

(** ** Steps *)

(** [{**global_params, **step_params}]. *)
Definition merge_params (global_params step_params : jobject) : jobject :=
  fold_left (fun d kv => dict_set d kv.1 kv.2) step_params global_params.

Definition truthy_field (raw_step : jobject) (key : pystr) : option json :=
  match dict_get raw_step key with Some v => if json_truthy v then Some v else None | None => None end.

Definition render_inline (raw_step global_params : jobject) : res pystr :=
  match truthy_field raw_step #"command" with
  | None => raise TemplateRenderError #"Inline step has no command"
  | Some (JStr command) => render_command command [] global_params
  | Some _ => raise TypeError #"expected string or bytes-like object"
  end.
Definition render_stored (raw_step global_params : jobject) : prog pystr :=
  match truthy_field raw_step #"command_id" with
  | None => lift (raise TemplateRenderError #"Command step has no command_id")
  | Some raw_command_id =>
      match parse_uuid (json_str raw_command_id) with
      | None => lift (raise ValueError #"badly formed hexadecimal UUID string")
      | Some command_id =>
          template ← perform (GetTemplate command_id);
          match template with
          | None => lift (raise CommandNotFoundError (#"Command " ++ uuid_str command_id ++ #" not found"))
          | Some template =>
              match default (JObj []) (dict_get raw_step #"params") with
              | JObj step_params =>
                  lift (render_command (ct_command template) (ct_parameters template)
                          (merge_params global_params step_params))
              | _ => lift (raise TypeError #"object is not a mapping")
              end
          end
      end
  end.

(** [except (CommandNotFoundError, TemplateRenderError) as exc]. *)
Definition resolution_handler (label on_failure : json) (exc : exn) : option (prog ResolvedScriptStepDTO) :=
  if isinstance (exn_type exc) CommandNotFoundError || isinstance (exn_type exc) TemplateRenderError
  then Some (mret {| rs_label := label; rs_command := []; rs_on_failure := on_failure;
                     rs_resolution_error := Some (exn_msg exc) |})
  else None.

Definition _resolve_step (raw_step global_params : jobject) : prog ResolvedScriptStepDTO :=
  match dict_get raw_step #"label" with
  | None => lift (raise KeyError #"'label'")
  | Some label =>
      let on_failure := default (JStr #"stop") (dict_get raw_step #"on_failure") in
      try_except
        (rendered ← match dict_get raw_step #"type" with
                    | None => lift (raise KeyError #"'type'")
                    | Some (JStr t) =>
                        if str_eqb t #"inline" then lift (render_inline raw_step global_params)
                        else if str_eqb t #"command" then render_stored raw_step global_params
                        else lift (raise TemplateRenderError (#"Unknown step type: " ++ t))
                    | Some v => lift (raise TemplateRenderError (#"Unknown step type: " ++ json_str v))
                    end;
         mret {| rs_label := label; rs_command := rendered; rs_on_failure := on_failure;
                 rs_resolution_error := None |})
        (resolution_handler label on_failure)
  end.

(** ** One node *)

Definition command_fingerprint (command : pystr) : res pystr := bs ← encode command; Ok (sha256_hex bs).

(** The command of a step under its timeout, or its resolution error. *)
Definition step_output (timeout : Z) (step : ResolvedScriptStepDTO) : prog (pystr * pystr * Z) :=
  match rs_resolution_error step with
  | None =>
      try_except (perform (ExecuteCommand (rs_command step) timeout) : prog (pystr * pystr * Z))
        (on_class TimeoutError (fun _ => mret ([], #"Timeout after " ++ str_Z timeout ++ #"s", 124%Z)))
  | Some error => mret ([], error, 1%Z)
  end.

Definition step_result (index : nat) (step : ResolvedScriptStepDTO) (stdout stderr : pystr) (exit_code : Z)
    : res ScriptStepResultDTO :=
  safe_stdout ← bound_output stdout DEFAULT_MAX_PERSISTED_OUTPUT_BYTES;
  safe_stderr ← bound_output stderr DEFAULT_MAX_PERSISTED_OUTPUT_BYTES;
  fingerprint ← command_fingerprint (rs_command step);
  Ok {| ss_step_index := index; ss_label := rs_label step; ss_command_fingerprint := fingerprint;
        ss_stdout := bo_value safe_stdout; ss_stderr := bo_value safe_stderr;
        ss_stdout_bytes := bo_original_bytes safe_stdout; ss_stderr_bytes := bo_original_bytes safe_stderr;
        ss_truncated := bo_truncated safe_stdout || bo_truncated safe_stderr; ss_exit_code := exit_code |}.

Definition stops_on_failure (step : ResolvedScriptStepDTO) : bool :=
  if rs_on_failure step is JStr policy then str_eqb policy #"stop" else false.

(** The loop over the steps.  [results] and [status] are the variables of the enclosing
    function: they survive an exception, which the third component carries. *)
Fixpoint run_steps (timeout : Z) (index : nat) (steps : list ResolvedScriptStepDTO)
    (results : list ScriptStepResultDTO) (success : bool)
    : prog (list ScriptStepResultDTO * bool * option exn) :=
  match steps with
  | [] => mret (results, success, None)
  | step :: steps =>
      outcome ← try_except (o ← step_output timeout step; mret (inl o)) (fun exc => Some (mret (inr exc)));
      match outcome with
      | inr exc => mret (results, success, Some exc)
      | inl (stdout, stderr, exit_code) =>
          match step_result index step stdout stderr exit_code with
          | Raise exc => mret (results, success, Some exc)
          | Ok result =>
              let results := results ++ [result] in
              if (exit_code =? 0)%Z then run_steps timeout (S index) steps results success
              else if stops_on_failure step then mret (results, false, None)
              else run_steps timeout (S index) steps results false
          end
      end
  end.

(** [async with connector]: the session is closed whatever the loop did; an exception of
    the closing replaces the loop's. *)
Definition run_session (target : ScriptExecutionTargetDTO) (password ssh_key passphrase : option pystr)
    : prog (list ScriptStepResultDTO * bool * option exn) :=
  connected ← try_except (perform (Connect (st_node target) password ssh_key passphrase);; mret None)
                (fun exc => Some (mret (Some exc)));
  match connected with
  | Some exc => mret ([], true, Some exc)
  | None =>
      '(results, success, failure) ← run_steps (st_timeout target) 0 (st_steps target) [] true;
      closed ← try_except (perform Disconnect;; mret None) (fun exc => Some (mret (Some exc)));
      mret (results, success, match closed with Some exc => Some exc | None => failure end)
  end.

(** [except Exception: status = "error"], and the result. *)
Definition finish_run (target : ScriptExecutionTargetDTO)
    (outcome : list ScriptStepResultDTO * bool * option exn) : prog ScriptNodeResultDTO :=
  let '(results, success, failure) := outcome in
  let node := st_node target in
  let result success :=
    {| sn_execution_id := st_execution_id target; sn_node_id := n_id node; sn_node_name := n_name node;
       sn_success := success; sn_steps := results |} in
  match failure with
  | None => mret (result success)
  | Some exc => if isinstance (exn_type exc) Exception_ then mret (result false) else lift (Raise exc)
  end.

Definition _run_remote (target : ScriptExecutionTargetDTO) : prog ScriptNodeResultDTO :=
  let credentials := n_credentials (st_node target) in
  outcome ← try_except
    (password ← perform (Decrypt (cr_password credentials));
     ssh_key ← perform (Decrypt (cr_ssh_key credentials));
     passphrase ← perform (Decrypt (cr_passphrase credentials));
     run_session target password ssh_key passphrase)
    (fun exc => Some (mret ([], true, Some exc)));
  finish_run target outcome.

(** ** Reading a history and its results *)

Definition executed (h : history) : list pystr :=
  omap (fun ev => match called ev with ExecuteCommand command _ => Some command | _ => None end) h.
(** The commands of the steps that resolved. *)
Definition runnable (steps : list ResolvedScriptStepDTO) : list pystr :=
  omap (fun step => match rs_resolution_error step with None => Some (rs_command step) | Some _ => None end) steps.

Definition failed (r : ScriptStepResultDTO) : Prop := ss_exit_code r <> 0%Z.

(** What [ExecuteCommand] answered, in order, and the output that stands for it. *)
Definition reply_of (ev : event) : option (res (pystr * pystr * Z)) :=
  let 'existT c a := ev in
  match c return res (script_answer c) -> option (res (pystr * pystr * Z)) with
  | ExecuteCommand _ _ => fun a => Some a
  | _ => fun _ => None
  end a.
Definition replies (h : history) : list (res (pystr * pystr * Z)) := omap reply_of h.
Definition output_of (timeout : Z) (a : res (pystr * pystr * Z)) : res (pystr * pystr * Z) :=
  match a with
  | Ok output => Ok output
  | Raise e => if isinstance (exn_type e) TimeoutError then Ok ([], #"Timeout after " ++ str_Z timeout ++ #"s", 124%Z) else Raise e
  end.
(** What step [j] puts out: its resolution error, or the answer to its command. *)
Definition output_at (timeout : Z) (answers : list (res (pystr * pystr * Z))) (steps : list ResolvedScriptStepDTO) (j : nat)
    : option (res (pystr * pystr * Z)) :=
  step ← steps !! j;
  match rs_resolution_error step with
  | Some error => Some (Ok ([], error, 1%Z))
  | None => output_of timeout <$> answers !! length (runnable (take j steps))
  end.
(** The result of a step is made of its output. *)
Definition reported (timeout : Z) (answers : list (res (pystr * pystr * Z))) (steps : list ResolvedScriptStepDTO) (j : nat)
    (r : ScriptStepResultDTO) : Prop :=
  exists step out err code, steps !! j = Some step /\ output_at timeout answers steps j = Some (Ok (out, err, code))
    /\ step_result j step out err code = Ok r.

(** Results of the first [length results] steps, none of which stopped the script. *)
Record passed (timeout : Z) (answers : list (res (pystr * pystr * Z))) (steps : list ResolvedScriptStepDTO)
    (results : list ScriptStepResultDTO) (success : bool) : Prop := {
  pa_length : length results = length steps;
  pa_reported : forall j r, results !! j = Some r -> reported timeout answers steps j r;
  pa_policy : forall j s r, steps !! j = Some s -> results !! j = Some r -> failed r -> stops_on_failure s = false;
  pa_success : success = true <-> Forall (fun r => ss_exit_code r = 0%Z) results }.

(** What the loop leaves: some steps passed, and then the end, a stop or a crash, of the
    command or of making its result. *)
Definition loop_outcome (timeout : Z) (steps : list ResolvedScriptStepDTO) (results : list ScriptStepResultDTO) (success : bool)
    (failure : option exn) (commands : list pystr) (answers : list (res (pystr * pystr * Z))) : Prop :=
  (failure = None /\ passed timeout answers steps results success /\ commands = runnable steps)
  \/ (exists before step after init last,
       steps = before ++ step :: after /\ results = init ++ [last]
       /\ (exists ok, passed timeout answers before init ok) /\ failure = None /\ success = false /\ failed last
       /\ stops_on_failure step = true /\ reported timeout answers (before ++ [step]) (length before) last
       /\ commands = runnable (before ++ [step]))
  \/ (exists before step after e,
       steps = before ++ step :: after /\ failure = Some e
       /\ (exists ok, passed timeout answers before results ok) /\ commands = runnable (before ++ [step])
       /\ (output_at timeout answers (before ++ [step]) (length before) = Some (Raise e)
           \/ exists out err code, output_at timeout answers (before ++ [step]) (length before) = Some (Ok (out, err, code))
                /\ step_result (length before) step out err code = Raise e)).

Lemma runnable_snoc before step :
  runnable (before ++ [step])
  = runnable before ++ match rs_resolution_error step with None => [rs_command step] | Some _ => [] end.
Proof. unfold runnable. rewrite omap_app. cbn. by destruct (rs_resolution_error step). Qed.

Lemma output_at_grows timeout answers more steps j out : output_at timeout answers steps j = Some out ->
  output_at timeout (answers ++ more) steps j = Some out.
Proof.
  unfold output_at. destruct (steps !! j) as [s|]; [|done]. cbn. destruct (rs_resolution_error s); [done|].
  destruct (answers !! _) as [a|] eqn:Ea; [|done]. by rewrite (lookup_app_l_Some _ _ _ _ Ea).
Qed.
Lemma output_at_prefix timeout answers before more j : j < length before ->
  output_at timeout answers (before ++ more) j = output_at timeout answers before j.
Proof. intros Hj. unfold output_at. rewrite lookup_app_l, take_app_le by lia. done. Qed.
Lemma passed_grows timeout answers more steps results success :
  passed timeout answers steps results success -> passed timeout (answers ++ more) steps results success.
Proof.
  intros [H1 H2 H3 H4]. split; [done| |done|done]. intros j r (s & out & err & code & ? & ? & ?)%H2.
  exists s, out, err, code. split_and!; [done|by apply output_at_grows|done].
Qed.

Lemma passed_snoc timeout answers before init ok step r :
  passed timeout answers before init ok -> reported timeout answers (before ++ [step]) (length before) r ->
  (failed r -> stops_on_failure step = false) ->
  passed timeout answers (before ++ [step]) (init ++ [r]) (ok && (ss_exit_code r =? 0)%Z).
Proof.
  intros [H1 H2 H3 H4] Hr Hp. split.
  - rewrite !length_app. cbn. lia.
  - intros j q Hq. destruct (decide (j < length before)) as [Hlt|Hge].
    + rewrite lookup_app_l in Hq by lia. destruct (H2 j q Hq) as (s & out & err & code & ? & ? & ?).
      exists s, out, err, code. rewrite output_at_prefix, lookup_app_l by lia. done.
    + rewrite lookup_app_r in Hq by lia. apply list_lookup_singleton_Some in Hq as [Hj <-].
      by replace j with (length before) by lia.
  - intros j s q Hs Hq Hf. destruct (decide (j < length before)) as [Hlt|Hge].
    + rewrite lookup_app_l in Hs by lia. rewrite lookup_app_l in Hq by lia. by eapply H3.
    + rewrite lookup_app_r in Hs by lia. rewrite lookup_app_r in Hq by lia.
      apply list_lookup_singleton_Some in Hs as [_ <-]. apply list_lookup_singleton_Some in Hq as [_ <-]. by apply Hp.
  - rewrite andb_true_iff, H4, Z.eqb_eq, Forall_app, Forall_singleton. done.
Qed.

Lemma executed_snoc h ev :
  executed (h ++ [ev]) = executed h ++ match called ev with ExecuteCommand c _ => [c] | _ => [] end.
Proof. unfold executed. rewrite omap_app. cbn. by destruct (called ev). Qed.

(** The commands that may be executed: the next one of the resolved steps, with the timeout
    of the target, and never while disconnected. *)
Definition next_command (steps : list ResolvedScriptStepDTO) (timeout : Z) (h : history) (c : call) : Prop :=
  match c with
  | ExecuteCommand command t =>
      t = timeout /\ runnable steps !! length (executed h) = Some command
      /\ exists node p k q, existT (Connect node p k q) (Ok tt) ∈ h
  | _ => True
  end.

Definition connected (h : history) : Prop := exists node p k q, existT (Connect node p k q) (Ok tt) ∈ h.
Lemma connected_snoc h ev : connected h -> connected (h ++ [ev]).
Proof. intros (node & p & k & q & Hin). exists node, p, k, q. apply elem_of_app. by left. Qed.

Lemma step_result_code index step out err code r : step_result index step out err code = Ok r -> ss_exit_code r = code.
Proof.
  unfold step_result. destruct (bound_output out _) as [o|]; cbn [mbind res_bind]; [|done].
  destruct (bound_output err _) as [e|]; cbn [mbind res_bind]; [|done].
  destruct (command_fingerprint _) as [f|]; cbn [mbind res_bind]; [|done]. by intros [= <-].
Qed.
Lemma executed_replies h : length (executed h) = length (replies h).
Proof.
  unfold executed, replies. induction h as [|[c a] h IH]; [done|]. destruct c; cbn; try exact IH. f_equal. exact IH.
Qed.
Lemma replies_app h k : replies (h ++ k) = replies h ++ replies k.
Proof. apply omap_app. Qed.

Lemma wp_step_output all timeout before step after h (Q : history -> res (pystr * pystr * Z) -> Prop) :
  all = before ++ step :: after -> executed h = runnable before -> connected h ->
  (forall k r, executed (h ++ k) = runnable (before ++ [step]) -> connected (h ++ k) ->
     output_at timeout (replies (h ++ k)) (before ++ [step]) (length before) = Some r -> Q (h ++ k) r) ->
  wp (step_output timeout step) h (next_command all timeout) Q.
Proof.
  intros -> Hh Hc HQ. unfold step_output. destruct (rs_resolution_error step) as [e|] eqn:E.
  - apply wp_lift. rewrite <- (app_nil_r h). apply HQ; rewrite ?app_nil_r; [by rewrite runnable_snoc, E, app_nil_r|done|].
    unfold output_at. rewrite lookup_app_r, Nat.sub_diag by done. cbn. by rewrite E.
  - assert (forall a, executed (h ++ [existT (ExecuteCommand (rs_command step) timeout) a]) = runnable (before ++ [step])) as Hex.
    { intros a. by rewrite executed_snoc, runnable_snoc, E, Hh. }
    assert (forall a, output_at timeout (replies (h ++ [existT (ExecuteCommand (rs_command step) timeout) a])) (before ++ [step])
      (length before) = Some (output_of timeout a)) as Ho.
    { intros a. unfold output_at. rewrite lookup_app_r, Nat.sub_diag by done. cbn. rewrite E, take_app_length, <- Hh, executed_replies.
      rewrite replies_app, lookup_app_r, Nat.sub_diag by done. done. }
    apply wp_try. split.
    + split; [done|]. split; [|done]. rewrite Hh. unfold runnable. rewrite omap_app. cbn. rewrite E.
      by rewrite lookup_app_r, Nat.sub_diag by done.
    + intros a. specialize (Ho a). destruct a as [x|e]; cbn [output_of] in Ho; [by apply HQ; [apply Hex|apply connected_snoc|]|].
      change (output_at timeout (replies (h ++ [existT (ExecuteCommand (rs_command step) timeout) (Raise e)])) (before ++ [step])
        (length before) = Some (output_of timeout (Raise e))) in Ho. unfold output_of in Ho. revert Ho. cbn. unfold on_class.
      destruct (isinstance _ _); intros Ho; [apply wp_lift|]; (apply HQ; [apply Hex|by apply connected_snoc|exact Ho]).
Qed.

Lemma wp_run_steps all timeout before rest results success h :
  all = before ++ rest -> executed h = runnable before -> connected h -> passed timeout (replies h) before results success ->
  wp (run_steps timeout (length before) rest results success) h (next_command all timeout)
    (fun h' r => connected h' /\ exists results' success' failure, r = Ok (results', success', failure)
                 /\ loop_outcome timeout all results' success' failure (executed h') (replies h')).
Proof.
  revert before results success h. induction rest as [|step rest IH]; intros before results success h Hall Hh Hc Hp.
  { apply wp_lift. split; [done|]. exists results, success, None. split; [done|]. left.
    rewrite app_nil_r in Hall. by subst. }
  cbn [run_steps]. apply wp_bind, wp_try, wp_bind.
  eapply wp_step_output; [exact Hall|exact Hh|exact Hc|]. intros k r Hh' Hc' Ho. set (h' := h ++ k) in *.
  assert (passed timeout (replies h') before results success) as Hp' by (unfold h'; rewrite replies_app; by apply passed_grows).
  destruct r as [[[out err] code]|e]; cbn beta iota; apply wp_lift; cbn beta iota.
  2: { apply wp_lift. split; [done|]. exists results, success, (Some e). split; [done|]. right. right.
       exists before, step, rest, e. split_and!; [done|done|by exists success|done|by left]. }
  destruct (step_result (length before) step out err code) as [res|e] eqn:Er.
  2: { apply wp_lift. split; [done|]. exists results, success, (Some e). split; [done|]. right. right.
       exists before, step, rest, e. split_and!; [done|done|by exists success|done|right; by exists out, err, code]. }
  assert (reported timeout (replies h') (before ++ [step]) (length before) res) as Hrep.
  { exists step, out, err, code. split_and!; [|done|done]. by rewrite lookup_app_r, Nat.sub_diag by done. }
  apply step_result_code in Er as Hcode.
  assert (all = (before ++ [step]) ++ rest) as Hall' by by rewrite <- app_assoc.
  assert (S (length before) = length (before ++ [step])) as Hlen by (rewrite length_app; cbn; lia).
  pose proof (passed_snoc timeout (replies h') before results success step res Hp' Hrep) as Hsnoc. rewrite Hcode in Hsnoc.
  destruct (code =? 0)%Z eqn:Ez.
  - rewrite Hlen. rewrite andb_true_r in Hsnoc. apply IH; [done..|]. apply Hsnoc. unfold failed. to_prop. lia.
  - rewrite andb_false_r in Hsnoc. destruct (stops_on_failure step) eqn:Es.
    + apply wp_lift. split; [done|]. exists (results ++ [res]), false, None. split; [done|]. right. left.
      exists before, step, rest, results, res. split_and!; try done; [by exists success|].
      unfold failed. to_prop. lia.
    + rewrite Hlen. apply IH; [done..|]. by apply Hsnoc.
Qed.

(** ** What a node's run promises *)

(** The session never started, as its credentials were not read or it was refused; or it did,
    its loop ended as [loop_outcome] says, and closing it was the last call. *)
Definition run_outcome (timeout : Z) (steps : list ResolvedScriptStepDTO) (results : list ScriptStepResultDTO) (failure : option exn)
    (succeeded : bool) (h : history) : Prop :=
  (exists e, results = [] /\ executed h = [] /\ succeeded = false /\ failure = Some e
     /\ exists c, last h = Some (existT c (Raise e)) /\ match c with Decrypt _ | Connect _ _ _ _ => True | _ => False end)
  \/ (exists success crash h0 a, loop_outcome timeout steps results success crash (executed h) (replies h)
       /\ h = h0 ++ [existT Disconnect a]
       /\ failure = match a with Raise e => Some e | Ok _ => crash end
       /\ succeeded = (success && match failure with None => true | Some _ => false end)).

(** A complete run: every step has a result with exit status zero, and the session was closed. *)
Definition complete_run (steps : list ResolvedScriptStepDTO) (results : list ScriptStepResultDTO) (h : history) : Prop :=
  length results = length steps /\ Forall (fun r => ss_exit_code r = 0%Z) results /\ last h = Some (existT Disconnect (Ok tt)).

Lemma run_outcome_success timeout steps results failure succeeded h :
  run_outcome timeout steps results failure succeeded h -> succeeded = true <-> complete_run steps results h.
Proof.
  intros [(e & -> & _ & -> & _ & c & Hlast & Hc)|(success & crash & h0 & a & Hl & -> & -> & ->)].
  - split; [done|]. intros (_ & _ & Hd). rewrite Hlast in Hd. injection Hd as ->. by destruct Hc.
  - unfold complete_run. rewrite last_snoc. destruct a as [[]|e]; [|by rewrite andb_false_r; split; [|intros (_ & _ & [=])]].
    destruct Hl as [(-> & Hp & _)|[(before & step & after & init & lst & -> & -> & _ & -> & -> & Hf & _)
      |(before & step & after & e & -> & -> & [ok Hp] & _)]]; cbn [andb].
    + pose proof (pa_success _ _ _ _ _ Hp) as Hz. destruct success; cbn; (split; [|done || (intros (_ & Hf & _); by apply Hz)]); [|done].
      intros _. split; [apply Hp|]. split; [by apply Hz|done].
    + split; [done|]. intros (_ & Hz & _). apply Forall_app in Hz as [_ Hz]; rewrite Forall_singleton in Hz. by destruct Hf.
    + rewrite andb_false_r. split; [done|]. intros (Hlen & _ & _). rewrite (pa_length _ _ _ _ _ Hp), length_app in Hlen.
      cbn in Hlen. lia.
Qed.

(** Calls that execute nothing. *)
Lemma executed_quiet h ev : match called ev with ExecuteCommand _ _ => False | _ => True end -> executed (h ++ [ev]) = executed h.
Proof. intros Hq. rewrite executed_snoc. destruct (called ev); [by rewrite app_nil_r..|done|by rewrite app_nil_r]. Qed.
Lemma replies_quiet h ev : match called ev with ExecuteCommand _ _ => False | _ => True end -> replies (h ++ [ev]) = replies h.
Proof. intros Hq. rewrite replies_app. destruct ev as [c a]. destruct c; cbn in *; [by rewrite app_nil_r..|done|by rewrite app_nil_r]. Qed.

Lemma wp_run_session target password ssh_key passphrase h :
  executed h = [] -> replies h = [] ->
  wp (run_session target password ssh_key passphrase) h (next_command (st_steps target) (st_timeout target))
    (fun h' r => exists results success failure, r = Ok (results, success, failure)
       /\ run_outcome (st_timeout target) (st_steps target) results failure
            (match failure with None => success | Some _ => false end) h').
Proof.
  intros Hh Hr. unfold run_session. apply wp_bind, wp_try, wp_bind. split; [done|].
  intros [[]|e]; cbn beta iota.
  2: { apply wp_lift. exists [], true, (Some e). split; [done|]. left. exists e. split_and!; [done| |done|done|].
       - by rewrite executed_quiet.
       - eexists. by rewrite last_snoc. }
  apply wp_lift. cbn beta iota. apply wp_bind.
  eapply wp_mono; [apply (wp_run_steps (st_steps target) (st_timeout target) [] (st_steps target) [] true)|done|].
  - done.
  - by rewrite executed_quiet.
  - exists (st_node target), password, ssh_key, passphrase. apply elem_of_app. right. by apply list_elem_of_singleton.
  - split; cbn; try done.
  - intros h' r (_ & results & success & crash & -> & Hloop). cbn beta iota.
    apply wp_bind, wp_try, wp_bind. split; [done|].
    assert (forall a, executed (h' ++ [existT Disconnect a]) = executed h') as Hq by by intros; apply executed_quiet.
    assert (forall a, replies (h' ++ [existT Disconnect a]) = replies h') as Hq' by by intros; apply replies_quiet.
    intros [[]|e]; cbn beta iota; apply wp_lift; cbn beta iota; (apply wp_lift || idtac).
    + exists results, success, crash. split; [done|]. right. exists success, crash, h', (Ok tt). rewrite Hq, Hq'.
      split_and!; [done..|]. destruct crash; [by rewrite andb_false_r|by rewrite andb_true_r].
    + exists results, success, (Some e). split; [done|]. right. exists success, crash, h', (Raise e). rewrite Hq, Hq'.
      split_and!; [done..|by rewrite andb_false_r].
Qed.

(** A result of the target, a success exactly for a complete run.  Only an exception outside
    [Exception] escapes. *)
Definition run_promise (target : ScriptExecutionTargetDTO) (h : history) (r : res ScriptNodeResultDTO) : Prop :=
  match r with
  | Ok result =>
      sn_execution_id result = st_execution_id target /\ sn_node_id result = n_id (st_node target)
      /\ sn_node_name result = n_name (st_node target)
      /\ (exists failure, run_outcome (st_timeout target) (st_steps target) (sn_steps result) failure (sn_success result) h)
      /\ (sn_success result = true <-> complete_run (st_steps target) (sn_steps result) h)
  | Raise e =>
      isinstance (exn_type e) Exception_ = false
      /\ exists results succeeded, run_outcome (st_timeout target) (st_steps target) results (Some e) succeeded h
  end.

Lemma wp_finish_run target h G results success failure :
  run_outcome (st_timeout target) (st_steps target) results failure (match failure with None => success | Some _ => false end) h ->
  wp (finish_run target (results, success, failure)) h G (run_promise target).
Proof.
  intros Hr. pose proof (run_outcome_success _ _ _ _ _ _ Hr) as Hs. unfold finish_run.
  destruct failure as [e|]; [destruct (isinstance (exn_type e) Exception_) eqn:E|]; apply wp_lift; cbn.
  - split_and!; [done..|by exists (Some e)|exact Hs].
  - split; [done|]. by exists results, false.
  - split_and!; [done..|by exists None|exact Hs].
Qed.


(** ** Inline steps *)

(** A step written in the script itself, with its command. *)
Definition inline_step (raw_step : jobject) (label : json) (command : pystr) : Prop :=
  dict_get raw_step #"label" = Some label /\ dict_get raw_step #"type" = Some (JStr #"inline")
  /\ dict_get raw_step #"command" = Some (JStr command) /\ command <> [].

Lemma render_undeclared command params name :
  Hole name ∈ scan command -> exists msg, render_command command [] params = raise TemplateRenderError msg.
Proof.
  intros Hin%elem_of_holes. unfold render_command.
  assert (name ∈ undeclared_names [] (holes (scan command))) as Hu.
  { apply elem_of_undeclared. split; [done|]. unfold declared. apply not_elem_of_nil. }
  destruct (undeclared_names [] _) as [|u us]; [by apply elem_of_nil in Hu|]. by eexists.
Qed.

(** An inline step whose command contains a braced word is resolved to an error, whatever
    parameters the request supplies, and an inline step without one is resolved to its command
    as it is written. *)
Theorem inline_steps_take_no_parameters raw_step global_params label command :
  inline_step raw_step label command ->
  exists step, _resolve_step raw_step global_params = Done (Ok step) /\ rs_label step = label
    /\ ((exists name, Hole name ∈ scan command) -> rs_command step = [] /\ is_Some (rs_resolution_error step))
    /\ (~ (exists name, Hole name ∈ scan command) -> rs_command step = command /\ rs_resolution_error step = None).
Proof.
  intros (Hl & Ht & Hc & Hne). unfold _resolve_step. rewrite Hl, Ht.
  replace (str_eqb #"inline" #"inline") with true by (vm_compute; reflexivity).
  unfold render_inline, truthy_field. rewrite Hc.
  replace (json_truthy (JStr command)) with true by by destruct command.
  destruct (holes (scan command)) as [|name names] eqn:Eh.
  - rewrite (render_no_holes command [] global_params Eh). cbn. eexists. split; [done|]. split_and!; [done| |done].
    intros [name Hin%elem_of_holes]. rewrite Eh in Hin. by apply elem_of_nil in Hin.
  - assert (Hole name ∈ scan command) as Hin by (apply elem_of_holes; rewrite Eh; by left).
    destruct (render_undeclared command global_params name Hin) as [msg ->]. cbn.
    eexists. split; [done|]. split_and!; [done|by intros; split|]. intros Hn. destruct Hn. by exists name.
Qed.
End script.

(** A braced word in an awk program is taken for a placeholder: the step never runs. *)
Definition awk_step : jobject :=
  [(#"label", JStr #"count"); (#"type", JStr #"inline"); (#"command", JStr #"awk '{print}' /etc/hosts")].
Lemma inline_steps_witness :
  Hole #"print" ∈ @scan ascii_only #"awk '{print}' /etc/hosts"
  /\ exists step,
       @_resolve_step ascii_only literal_floats (fun _ => None) awk_step [(#"print", JStr #"x")] = Done (Ok step)
       /\ rs_command step = [].
Proof.
  assert (Hole #"print" ∈ @scan ascii_only #"awk '{print}' /etc/hosts") as Hin.
  { apply elem_of_holes. replace (holes _) with [ #"print"] by (vm_compute; reflexivity). by left. }
  split; [exact Hin|].
  destruct (@inline_steps_take_no_parameters ascii_only literal_floats (fun _ => None) awk_step
              [(#"print", JStr #"x")] (JStr #"count") #"awk '{print}' /etc/hosts") as (step & Hs & _ & Hh & _).
  - split; [vm_compute; reflexivity|]. split; [vm_compute; reflexivity|]. split; [vm_compute; reflexivity|].
    vm_compute. discriminate.
  - exists step. split; [exact Hs|]. apply Hh. exists (#"print"). exact Hin.
Defined.
