(* ===== verification/Codec.v ===== *)
(** * Decoders: Base64, Unicode encodings, [json.loads] of bytes

    The decoders of the standard library the cursors and the configuration files go
    through: [binascii.a2b_base64] in its default, lenient mode, [base64.urlsafe_*],
    the Unicode decodings [json.loads] selects from the first bytes, and [int(value)]
    of a JSON value. *)
From S2P Require Import Prelude PyStr Errors Json Bytes.

(** ** Base64 *)

Section base64.
Open Scope N_scope.

(** Value of a digit of the standard alphabet. *)
Definition b64_value (c : N) : option N :=
  if in_range 65 90 c then Some (c - 65)
  else if in_range 97 122 c then Some (c - 71)
  else if in_range 48 57 c then Some (c + 4)
  else if c =? 43 then Some 62
  else if c =? 47 then Some 63
  else None.

(** [binascii.Error] is a [ValueError]. *)
Definition binascii_error : res bytes := raise ValueError #"Incorrect padding".

(** [quad] digits of the current group have been read, [left] holds their bits not
    yet written, [pads] counts the padding since the last digit.  Characters outside
    the alphabet are skipped; enough padding ends the data. *)
Fixpoint a2b (quad left pads : N) (s : bytes) : res bytes :=
  match s with
  | [] => if quad =? 0 then Ok [] else binascii_error
  | c :: s =>
      if c =? 61 then
        if 2 <=? quad then if 4 <=? quad + (pads + 1) then Ok [] else a2b quad left (pads + 1) s
        else a2b quad left pads s
      else
        match b64_value c with
        | None => a2b quad left pads s
        | Some v =>
            if quad =? 0 then a2b 1 v 0 s
            else if quad =? 1 then bs ← a2b 2 (v mod 16) 0 s; Ok (left * 4 + v / 16 :: bs)
            else if quad =? 2 then bs ← a2b 3 (v mod 4) 0 s; Ok (left * 16 + v / 4 :: bs)
            else bs ← a2b 0 0 0 s; Ok (left * 64 + v :: bs)
        end
  end.
Definition b64decode (s : bytes) : res bytes := a2b 0 0 0 s.

Definition to_urlsafe (c : N) : N := if c =? 43 then 45 else if c =? 47 then 95 else c.
Definition of_urlsafe (c : N) : N := if c =? 45 then 43 else if c =? 95 then 47 else c.
(** [base64.urlsafe_b64encode(bs).decode()] and [base64.urlsafe_b64decode(s)]. *)
Definition urlsafe_b64encode (bs : bytes) : pystr := map to_urlsafe (b64encode bs).
Definition urlsafe_b64decode (s : bytes) : res bytes := b64decode (map of_urlsafe s).

Definition is_byte (b : N) : bool := b <? 256.

(** *** Laws *)

Lemma below_64 (P : N -> Prop) (f : N -> bool) n :
  (forall m, f m = true -> P m) -> forallb (fun k => f (N.of_nat k)) (seq 0 64) = true -> n < 64 -> P n.
Proof.
  intros Hf Hall Hn. apply Hf. rewrite forallb_forall in Hall.
  specialize (Hall (N.to_nat n)). rewrite N2Nat.id in Hall. apply Hall, in_seq. lia.
Qed.

Lemma b64_value_digit n : n < 64 -> b64_value (b64_digit n) = Some n.
Proof.
  apply (below_64 (fun n => b64_value (b64_digit n) = Some n) (fun n => bool_decide (b64_value (b64_digit n) = Some n)));
    [by intros m ?%bool_decide_eq_true|vm_compute; reflexivity].
Qed.

Lemma of_to_urlsafe_digit n : n < 64 -> of_urlsafe (to_urlsafe (b64_digit n)) = b64_digit n.
Proof.
  apply (below_64 (fun n => of_urlsafe (to_urlsafe (b64_digit n)) = b64_digit n) (fun n => of_urlsafe (to_urlsafe (b64_digit n)) =? b64_digit n));
    [by intros m ?%N.eqb_eq|vm_compute; reflexivity].
Qed.

Lemma b64_digit_ascii n : n < 64 -> (to_urlsafe (b64_digit n) <? 128) = true.
Proof.
  by apply (below_64 (fun n => (to_urlsafe (b64_digit n) <? 128) = true) (fun n => to_urlsafe (b64_digit n) <? 128)); [|vm_compute; reflexivity].
Qed.

Lemma b64_digit_not_pad n : n < 64 -> (b64_digit n =? 61) = false.
Proof.
  apply (below_64 (fun n => (b64_digit n =? 61) = false) (fun n => negb (b64_digit n =? 61)));
    [by intros m ?%negb_true_iff|vm_compute; reflexivity].
Qed.

(** A digit of the alphabet advances the decoder. *)
Lemma a2b_digit quad left pads v s : v < 64 ->
  a2b quad left pads (b64_digit v :: s) =
    if quad =? 0 then a2b 1 v 0 s
    else if quad =? 1 then bs ← a2b 2 (v mod 16) 0 s; Ok (left * 4 + v / 16 :: bs)
    else if quad =? 2 then bs ← a2b 3 (v mod 4) 0 s; Ok (left * 16 + v / 4 :: bs)
    else bs ← a2b 0 0 0 s; Ok (left * 64 + v :: bs).
Proof. intros Hv. cbn [a2b]. by rewrite b64_digit_not_pad, b64_value_digit. Qed.

(** Induction over groups of three bytes. *)
Lemma triple_ind (P : bytes -> Prop) :
  P [] -> (forall a, P [a]) -> (forall a b, P [a; b]) ->
  (forall a b c bs, P bs -> P (a :: b :: c :: bs)) -> forall bs, P bs.
Proof.
  intros H0 H1 H2 H3 bs. induction bs as [bs IH] using (induction_ltof1 _ (@length N)); unfold ltof in IH.
  destruct bs as [|a [|b [|c bs]]]; [done..|]. apply H3, IH. cbn. lia.
Qed.

Lemma first_digit a b : a < 256 -> b < 16 -> a / 4 * 4 + (a mod 4 * 16 + b) / 16 = a.
Proof. intros. dlia. Qed.
Lemma second_left a b : a < 256 -> b < 16 -> (a mod 4 * 16 + b) mod 16 = b.
Proof. intros. dlia. Qed.
Lemma third_left b c : c < 4 -> (b mod 16 * 4 + c) mod 4 = c.
Proof. intros. dlia. Qed.
Lemma second_digit b c : b < 256 -> c < 4 -> b / 16 * 16 + (b mod 16 * 4 + c) / 4 = b.
Proof. intros. dlia. Qed.
Lemma one_byte a : a < 256 -> a / 4 * 4 + a mod 4 * 16 / 16 = a.
Proof. intros. dlia. Qed.
Lemma two_bytes b : b < 256 -> b / 16 * 16 + b mod 16 * 4 / 4 = b.
Proof. intros. dlia. Qed.
Lemma third_digit c : c / 64 * 64 + c mod 64 = c.
Proof. dlia. Qed.

Lemma b64_round_trip bs : forallb is_byte bs = true -> b64decode (b64encode bs) = Ok bs.
Proof.
  unfold b64decode, is_byte.
  induction bs as [|a|a b|a b c bs IH] using triple_ind; cbn [forallb]; intros Hb; to_prop.
  - done.
  - cbn [b64encode]. rewrite !a2b_digit by dlia. cbn -[N.div N.modulo N.mul N.add].
    by rewrite one_byte.
  - cbn [b64encode]. rewrite !a2b_digit by dlia. cbn -[N.div N.modulo N.mul N.add].
    rewrite first_digit, second_left, two_bytes by dlia. done.
  - cbn [b64encode]. rewrite !a2b_digit by dlia. cbn -[N.div N.modulo N.mul N.add a2b].
    rewrite IH by done. cbn -[N.div N.modulo N.mul N.add].
    rewrite first_digit, second_left, second_digit, third_left, third_digit by dlia. done.
Qed.

(** Every character of an encoding is a digit, or padding. *)
Lemma b64encode_chars bs : forallb is_byte bs = true ->
  Forall (fun c => c = 61 \/ exists n, n < 64 /\ c = b64_digit n) (b64encode bs).
Proof.
  unfold is_byte.
  induction bs as [|a|a b|a b c bs IH] using triple_ind; cbn [forallb b64encode]; intros Hb; to_prop;
    repeat first [apply Forall_nil_2; done|apply Forall_cons_2|apply IH; done];
    first [by left|right; eexists; split; [|reflexivity]; dlia].
Qed.

Lemma urlsafe_round_trip bs : forallb is_byte bs = true ->
  urlsafe_b64decode (urlsafe_b64encode bs) = Ok bs.
Proof.
  intros Hb. unfold urlsafe_b64decode, urlsafe_b64encode. rewrite map_map.
  rewrite <- (b64_round_trip bs Hb). f_equal. rewrite <- map_id. apply map_ext_Forall.
  eapply Forall_impl; [by apply b64encode_chars|]. cbn. intros c [->|(n & Hn & ->)]; [done|].
  by apply of_to_urlsafe_digit.
Qed.

Lemma urlsafe_ascii bs : forallb is_byte bs = true -> forallb is_ascii (urlsafe_b64encode bs) = true.
Proof.
  intros Hb. unfold urlsafe_b64encode. apply forallb_forall. intros c (d & <- & Hd)%in_map_iff.
  pose proof (b64encode_chars bs Hb) as Hf. rewrite List.Forall_forall in Hf.
  destruct (Hf d Hd) as [->|(n & Hn & ->)]; [done|]. by apply b64_digit_ascii.
Qed.
End base64.

(** ** Unicode decoders, with the [surrogatepass] error handler *)

Section unicode.
Open Scope N_scope.

Definition decode_error' {A} : res A := raise UnicodeDecodeError #"invalid data".
Definition cont_byte (b : N) : bool := in_range 128 191 b.

Fixpoint utf8_decode (bs : bytes) : res pystr :=
  match bs with
  | [] => Ok []
  | b :: r0 =>
      if b <? 128 then s ← utf8_decode r0; Ok (b :: s)
      else match r0 with
      | b1 :: r1 =>
          if in_range 194 223 b && cont_byte b1 then
            s ← utf8_decode r1; Ok ((b - 192) * 64 + (b1 - 128) :: s)
          else match r1 with
          | b2 :: r2 =>
              if in_range 224 239 b && cont_byte b1 && cont_byte b2 && ((224 <? b) || (160 <=? b1)) then
                s ← utf8_decode r2; Ok ((b - 224) * 4096 + (b1 - 128) * 64 + (b2 - 128) :: s)
              else match r2 with
              | b3 :: r3 =>
                  if in_range 240 244 b && cont_byte b1 && cont_byte b2 && cont_byte b3
                     && ((240 <? b) || (144 <=? b1)) && ((b <? 244) || (b1 <? 144)) then
                    s ← utf8_decode r3;
                    Ok ((b - 240) * 262144 + (b1 - 128) * 4096 + (b2 - 128) * 64 + (b3 - 128) :: s)
                  else decode_error'
              | [] => decode_error'
              end
          | [] => decode_error'
          end
      | [] => decode_error'
      end
  end.

(** The 16-bit units of the text, then its surrogate pairs. *)
Fixpoint utf16_units (big : bool) (bs : bytes) : res (list N) :=
  match bs with
  | [] => Ok []
  | [_] => decode_error'
  | a :: b :: bs => us ← utf16_units big bs; Ok ((if big then a * 256 + b else b * 256 + a) :: us)
  end.
Fixpoint join_surrogates (us : list N) : pystr :=
  match us with
  | [] => []
  | u :: r =>
      match r with
      | v :: r' =>
          if in_range 55296 56319 u && in_range 56320 57343 v
          then 65536 + (u - 55296) * 1024 + (v - 56320) :: join_surrogates r'
          else u :: join_surrogates r
      | [] => [u]
      end
  end.
Definition utf16_decode (big : bool) (bs : bytes) : res pystr :=
  us ← utf16_units big bs; Ok (join_surrogates us).

Fixpoint utf32_decode (big : bool) (bs : bytes) : res pystr :=
  match bs with
  | [] => Ok []
  | a :: b :: c :: d :: bs =>
      let u := if big then ((a * 256 + b) * 256 + c) * 256 + d else ((d * 256 + c) * 256 + b) * 256 + a in
      if u <? 1114112 then s ← utf32_decode big bs; Ok (u :: s) else decode_error'
  | _ => decode_error'
  end.

(** [json.detect_encoding], then the decoding it names. *)
Inductive json_encoding := Utf8 | Utf8Sig | Utf16 | Utf16Be | Utf16Le | Utf32 | Utf32Be | Utf32Le.
Fixpoint starts_bytes (p bs : bytes) : bool :=
  match p, bs with
  | [], _ => true
  | a :: p, b :: bs => (a =? b) && starts_bytes p bs
  | _ :: _, [] => false
  end.
Definition detect_encoding (bs : bytes) : json_encoding :=
  if starts_bytes [0; 0; 254; 255] bs || starts_bytes [255; 254; 0; 0] bs then Utf32
  else if starts_bytes [254; 255] bs || starts_bytes [255; 254] bs then Utf16
  else if starts_bytes [239; 187; 191] bs then Utf8Sig
  else match bs with
  | a :: b :: c :: d :: _ =>
      if a =? 0 then if b =? 0 then Utf32Be else Utf16Be
      else if b =? 0 then if (c =? 0) && (d =? 0) then Utf32Le else Utf16Le
      else Utf8
  | [a; b] => if a =? 0 then Utf16Be else if b =? 0 then Utf16Le else Utf8
  | _ => Utf8
  end.
Definition decode_as (enc : json_encoding) (bs : bytes) : res pystr :=
  match enc with
  | Utf8 => utf8_decode bs
  | Utf8Sig => utf8_decode (drop 3 bs)
  | Utf16 => utf16_decode (starts_bytes [254; 255] bs) (drop 2 bs)
  | Utf16Be => utf16_decode true bs
  | Utf16Le => utf16_decode false bs
  | Utf32 => utf32_decode (starts_bytes [0; 0; 254; 255] bs) (drop 4 bs)
  | Utf32Be => utf32_decode true bs
  | Utf32Le => utf32_decode false bs
  end.
(** [json.loads(bs)]. *)
Definition loads_bytes (bs : bytes) : res json :=
  s ← decode_as (detect_encoding bs) bs; loads s.

Lemma utf8_decode_ascii s : forallb is_ascii s = true -> utf8_decode s = Ok s.
Proof.
  induction s as [|c s IH]; [done|]. cbn [forallb]. intros [Hc Hs]%andb_true_iff.
  unfold is_ascii in Hc. cbn [utf8_decode]. by rewrite Hc, (IH Hs).
Qed.

Lemma encode_ascii s : forallb is_ascii s = true -> encode s = Ok s.
Proof.
  intros Hs. unfold encode.
  assert (existsb is_surrogate s = false) as ->.
  { apply not_true_iff_false. intros (c & Hc & Hin)%existsb_exists.
    rewrite forallb_forall in Hs. apply Hs in Hc. unfold is_ascii, is_surrogate, in_range in *.
    to_prop. lia. }
  f_equal. induction s as [|c s IH]; [done|]. cbn [forallb] in Hs. to_prop.
  unfold is_ascii in *. cbn [flat_map]. unfold utf8_char at 1.
  destruct (c <? 128); [|done]. cbn. by rewrite IH.
Qed.
End unicode.

(** ** [int(value)] of a JSON value

    [float_int] is [int] of the float a numeral denotes; [None] for nan and the
    infinities, where it raises. *)
Class PyFloatInt := { float_int : pystr -> option Z }.

Section json_int.
Context `{Unicode} `{PyFloatInt}.

Definition int_of_json (v : json) : res Z :=
  match v with
  | JInt z => Ok z
  | JBool b => Ok (if b then 1 else 0)%Z
  | JFloat raw =>
      match float_int raw with Some z => Ok z | None => raise ValueError #"cannot convert float to integer" end
  | JStr s =>
      match py_int s with Some z => Ok z | None => raise ValueError #"invalid literal for int() with base 10" end
  | JNull | JArr _ | JObj _ =>
      raise TypeError #"int() argument must be a string, a bytes-like object or a real number"
  end.

(** [value["key"]]. *)
Definition json_item (v : json) (k : pystr) : res json :=
  match v with
  | JObj kvs => match dict_get kvs k with Some v => Ok v | None => raise KeyError k end
  | _ => raise TypeError #"object is not subscriptable"
  end.
End json_int.

(** ** [json.dumps] *)

Section dumps.
Context `{PyFloat}.
Open Scope N_scope.

Definition u_escape (n : N) : pystr := [92; 117] ++ hex_fixed 4 n.
(** [ensure_ascii]: characters outside the printable ASCII range are escaped, beyond the
    basic plane as a surrogate pair. *)
Definition json_escape (c : N) : pystr :=
  if c =? 34 then [92; 34] else if c =? 92 then [92; 92]
  else if c =? 10 then [92; 110] else if c =? 13 then [92; 114] else if c =? 9 then [92; 116]
  else if c =? 12 then [92; 102] else if c =? 8 then [92; 98]
  else if in_range 32 126 c then [c]
  else if c <? 65536 then u_escape c
  else u_escape (55296 + (c - 65536) / 1024) ++ u_escape (56320 + (c - 65536) mod 1024).
Definition json_quote (s : pystr) : pystr := [34] ++ mjoin (json_escape <$> s) ++ [34].
Fixpoint json_dumps (v : json) : pystr :=
  match v with
  | JNull => #"null"
  | JBool true => #"true"
  | JBool false => #"false"
  | JInt z => str_Z z
  | JFloat raw => float_str raw
  | JStr s => json_quote s
  | JArr xs => #"[" ++ join #", " (map json_dumps xs) ++ #"]"
  | JObj kvs => #"{" ++ join #", " (map (fun kv => json_quote kv.1 ++ #": " ++ json_dumps kv.2) kvs) ++ #"}"
  end.
End dumps.

(** ** An integer inside a document *)

(** The digits of [str(n)], which are read back up to the first other character. *)
Lemma digits_go_ascii_digits fuel n acc :
  forallb ascii_digit acc = true -> forallb ascii_digit (digits_go fuel n acc) = true.
Proof.
  revert n acc. induction fuel as [|fuel IH]; intros n acc Hacc; [done|]. cbn [digits_go].
  destruct (n <? 10)%N eqn:E; to_prop; [|apply IH];
    cbn [forallb]; rewrite Hacc, andb_true_r; unfold ascii_digit, in_range;
    apply andb_true_iff; rewrite !N.leb_le; [lia|].
  pose proof (N.mod_lt n 10 ltac:(done)) as Hm. revert Hm. generalize (n mod 10)%N. lia.
Qed.

Lemma str_N_digits n : forallb ascii_digit (str_N n) = true.
Proof. by apply digits_go_ascii_digits. Qed.

Lemma digits_go_head fuel n acc : (0 < n)%N -> (n < 2 ^ N.of_nat fuel)%N ->
  exists c ds, digits_go fuel n acc = c :: ds /\ (48 < c)%N.
Proof.
  revert n acc. induction fuel as [|fuel IH]; intros n acc Hn Hf.
  { cbn in Hf. lia. }
  cbn [digits_go]. destruct (n <? 10)%N eqn:E; to_prop; [eexists _, _; split; [done|lia]|].
  apply IH; [apply N.div_str_pos; lia|].
  rewrite Nat2N.inj_succ, N.pow_succ_r' in Hf. apply N.Div0.div_lt_upper_bound.
  assert (0 < 2 ^ N.of_nat fuel)%N by (apply N.neq_0_lt_0, N.pow_nonzero; lia). lia.
Qed.

Lemma str_N_head p : exists c ds, str_N (Npos p) = c :: ds /\ (48 < c)%N.
Proof.
  unfold str_N. apply digits_go_head; [lia|].
  rewrite Nat2N.inj_succ, N.pow_succ_r'. pose proof (N.size_gt (Npos p)).
  assert (N.of_nat (N.size_nat (Npos p)) = N.size (Npos p)) as ->; [|lia].
  cbn. clear. induction p as [p IH|p IH|]; cbn in *; lia.
Qed.

Lemma span_digits_all ds c r :
  forallb ascii_digit ds = true -> ascii_digit c = false -> span_digits (ds ++ c :: r) = (ds, c :: r).
Proof.
  intros Hds Hc. induction ds as [|d ds IH]; cbn [app span_digits]; [by rewrite Hc|].
  cbn [forallb] in Hds. to_prop. destruct (ascii_digit d); [|done]. by rewrite IH.
Qed.

(** [str(z)] has at most [sys.get_int_max_str_digits()] digits. *)
Definition str_limit (z : Z) : bool :=
  (N.of_nat (length (str_N (Z.abs_N z))) <=? 4300)%N.

Lemma str_N_zero_or p ds c r :
  str_N (Npos p) = c :: ds -> (48 < c)%N -> scan_int (str_N (Npos p) ++ 125%N :: r) = (str_N (Npos p), 125%N :: r).
Proof.
  intros E Hc. unfold scan_int. pose proof (str_N_digits (Npos p)) as Hd.
  destruct (str_N (Npos p) ++ 125%N :: r) as [|c' s'] eqn:Es; [by rewrite E in Es|].
  assert (c' = c) as -> by (rewrite E in Es; by simplify_eq/=).
  destruct (c =? 48)%N eqn:E48; to_prop; [lia|]. rewrite <- Es. by apply span_digits_all.
Qed.

(** A numeral followed by a closing brace. *)
Lemma scan_number_str_Z z r : str_limit z = true ->
  scan_number (str_Z z ++ 125%N :: r) = Ok (JInt z, 125%N :: r).
Proof.
  unfold str_limit. intros Hl%N.leb_le. destruct z as [|p|p]; [done|..];
    destruct (str_N_head p) as (c & ds & E & Hc); pose proof (str_N_digits (Npos p)) as Hd;
    unfold scan_number, str_Z; cbn [Z.abs_N] in Hl.
  - assert (scan_sign (str_N (Npos p) ++ 125%N :: r) = (false, str_N (Npos p) ++ 125%N :: r)) as ->.
    { rewrite E. cbn. destruct (c =? 45)%N eqn:E'; [|done]. to_prop. lia. }
    cbn -[scan_int str_N]. rewrite (str_N_zero_or p ds c) by done. rewrite E. cbn [scan_frac scan_exp].
    cbn -[int_of_literal]. rewrite <- E. unfold int_of_literal.
    rewrite (proj2 (N.ltb_ge _ _) Hl). cbn -[str_N]. by rewrite str_N_value.
  - cbn -[scan_int str_N]. rewrite (str_N_zero_or p ds c) by done. rewrite E.
    cbn -[int_of_literal]. rewrite <- E. unfold int_of_literal.
    rewrite (proj2 (N.ltb_ge _ _) Hl). cbn -[str_N]. by rewrite str_N_value.
Qed.
