(* ===== verification/Pagination.v ===== *)
(** * Cursor pagination

    [app/api/pagination.py] and the three ways the list handlers of [app/api/v2] use
    it: a slice of a list held in memory (volumes, networks, images, containers,
    Compose projects), an offset handed to the service (packs, installations,
    registries), and an offset translated to a page number and a page size (scripts,
    commands, executions, audit logs, favorites).  Services are programs over any
    signature; the database's answer is described by [serves]. *)
From S2P Require Import Prelude PyStr Errors Json Effects Bytes Codec.

(** ** The cursor *)

Section cursor.
Context `{Unicode} `{PyFloatInt}.

(** [json.dumps({"offset": offset})]. *)
Definition offset_payload (offset : Z) : pystr :=
  [123; 34]%N ++ #"offset" ++ [34]%N ++ #": " ++ str_Z offset ++ #"}".
(** Python refuses to print an integer of more than 4300 digits. *)
Definition encode_offset (offset : Z) : res pystr :=
  if str_limit offset then Ok (urlsafe_b64encode (offset_payload offset))
  else raise ValueError #"Exceeds the limit (4300 digits) for integer string conversion".

Definition decode_offset (cursor : pystr) : res Z :=
  match
    (bs ← encode cursor;
     raw ← urlsafe_b64decode bs;
     data ← loads_bytes raw;
     value ← json_item data #"offset";
     int_of_json value)
  with
  | Ok offset => Ok offset
  | Raise e =>
      if isinstance (exn_type e) Exception_ then raise ValueError (#"Invalid cursor: " ++ cursor)
      else Raise e
  end.

(** [HTTPException(status_code=status, detail=detail)], which prints as its status and detail. *)
Definition HTTPException (status : Z) (detail : pystr) : exn :=
  Exn (LibraryError #"HTTPException") (str_Z status ++ #": " ++ detail).

Definition invalid_cursor (r : res Z) : res Z :=
  match r with
  | Raise e => if isinstance (exn_type e) ValueError then Raise (HTTPException 422 #"Invalid cursor") else Raise e
  | Ok offset => Ok offset
  end.
Definition parse_cursor_offset (cursor : option pystr) : res Z :=
  match cursor with
  | None | Some [] => Ok 0%Z
  | Some cursor => invalid_cursor (decode_offset cursor)
  end.

(** [offset % limit] and [offset // limit] round down, as [Z.modulo] and [Z.div] do. *)
Definition pagination_params (offset limit : Z) : Z * Z * Z :=
  let remainder := (if (limit =? 0) then 0 else offset mod limit)%Z in
  let page := (if (limit =? 0) then 1 else offset / limit + 1)%Z in
  let fetch_size := (if (remainder =? 0) then limit else limit + remainder)%Z in
  (page, fetch_size, remainder).

Definition cursor_next (offset limit total returned : Z) : res (option pystr * bool) :=
  let has_more := (offset + returned <? total)%Z in
  next_cursor ← (if has_more then c ← encode_offset (offset + limit); Ok (Some c) else Ok None);
  Ok (next_cursor, has_more).
End cursor.

(** [xs[lo:hi]]: a negative bound counts from the end, and bounds are clipped. *)
Definition slice_index (n i : Z) : Z := (if i <? 0 then Z.max 0 (i + n) else Z.min i n)%Z.
Definition py_slice {A} (lo hi : Z) (xs : list A) : list A :=
  let n := Z.of_nat (length xs) in
  let lo := slice_index n lo in
  let hi := slice_index n hi in
  take (Z.to_nat (hi - lo)) (drop (Z.to_nat lo) xs).

Record CursorPage (A : Type) := {
  cp_items : list A; cp_next_cursor : option pystr; cp_has_more : bool; cp_limit : Z }.
Arguments cp_items {A} _.
Arguments cp_next_cursor {A} _.
Arguments cp_has_more {A} _.
Arguments cp_limit {A} _.

(** ** The handlers *)

Section handlers.
Context `{Unicode} `{PyFloatInt} `{Signature} {A : Type}.

Definition make_page (offset limit total : Z) (items : list A) : prog (CursorPage A) :=
  '(next_cursor, has_more) ← lift (cursor_next offset limit total (Z.of_nat (length items)));
  mret {| cp_items := items; cp_next_cursor := next_cursor; cp_has_more := has_more; cp_limit := limit |}.

(** The whole list is fetched, then the cursor is read and the list sliced. *)
Definition slice_page (service : prog (list A)) (cursor : option pystr) (limit : Z) : prog (CursorPage A) :=
  items ← service;
  offset ← lift (parse_cursor_offset cursor);
  make_page offset limit (Z.of_nat (length items)) (py_slice offset (offset + limit) items).
Definition list_volumes (service : prog (list A)) := slice_page service.
Definition list_networks (service : prog (list A)) := slice_page service.
Definition list_images (service : prog (list A)) := slice_page service.
Definition list_containers (service : prog (list A)) := slice_page service.
Definition list_projects (service : prog (list A)) := slice_page service.

(** The service takes the offset; it answers the items and the total. *)
Definition offset_page (service : Z -> Z -> prog (list A * Z)) (cursor : option pystr) (limit : Z)
    : prog (CursorPage A) :=
  offset ← lift (parse_cursor_offset cursor);
  '(items, total) ← service offset limit;
  make_page offset limit total items.
Definition list_packs (service : Z -> Z -> prog (list A * Z)) := offset_page service.
Definition list_installations (service : Z -> Z -> prog (list A * Z)) := offset_page service.
Definition list_registries (service : Z -> Z -> prog (list A * Z)) := offset_page service.

(** The service takes a page number and a page size. *)
Definition page_at (service : Z -> Z -> prog (list A * Z)) (offset limit : Z) : prog (CursorPage A) :=
  let '(page, fetch_size, remainder) := pagination_params offset limit in
  '(items, total) ← service page fetch_size;
  let items := if (remainder =? 0)%Z then items else py_slice remainder (remainder + limit) items in
  make_page offset limit total items.
Definition numbered_page (service : Z -> Z -> prog (list A * Z)) (cursor : option pystr) (limit : Z)
    : prog (CursorPage A) :=
  offset ← lift (parse_cursor_offset cursor);
  page_at service offset limit.
Definition list_scripts (service : Z -> Z -> prog (list A * Z)) := numbered_page service.
Definition list_commands (service : Z -> Z -> prog (list A * Z)) := numbered_page service.
Definition get_command_executions_by_command (service : Z -> Z -> prog (list A * Z)) := numbered_page service.
Definition list_audit_logs (service : Z -> Z -> prog (list A * Z)) := numbered_page service.
Definition get_scheduled_execution_history (service : Z -> Z -> prog (list A * Z)) := numbered_page service.
Definition script_executions (service : Z -> Z -> prog (list A * Z)) := numbered_page service.
(** The empty cursor is decoded here, not taken for the first page. *)
Definition list_favorites (service : Z -> Z -> prog (list A * Z)) (cursor : option pystr) (limit : Z)
    : prog (CursorPage A) :=
  offset ← lift (match cursor with None => Ok 0%Z | Some cursor => invalid_cursor (decode_offset cursor) end);
  page_at service offset limit.

(** The services read page [page] of size [size] at this offset. *)
Definition paged (query : Z -> Z -> prog (list A * Z)) (page size : Z) : prog (list A * Z) :=
  query ((page - 1) * size)%Z size.

(** A client that follows [next_cursor], asking each page with the next of its limits: what it
    has read, and the cursor it would follow next. *)
Fixpoint walk (handler : option pystr -> Z -> prog (CursorPage A)) (limits : list Z) (cursor : option pystr)
    : prog (list A * option pystr) :=
  match limits with
  | [] => mret ([], cursor)
  | limit :: limits =>
      page ← handler cursor limit;
      match cp_next_cursor page with
      | None => mret (cp_items page, None)
      | Some next => '(rest, last) ← walk handler limits (Some next); mret (cp_items page ++ rest, last)
      end
  end.
End handlers.

(** ** The cursor round trip *)

Section cursor_laws.
Context `{Unicode} `{PyFloatInt}.

Lemma str_Z_ascii z : forallb is_ascii (str_Z z) = true.
Proof.
  assert (forall n, forallb is_ascii (str_N n) = true) as Hd.
  { intros n. eapply forallb_impl, str_N_digits. intros c. unfold ascii_digit, in_range, is_ascii.
    intros ?. to_prop. apply N.ltb_lt. lia. }
  destruct z as [|p|p]; [done|apply Hd|]. cbn [str_Z forallb]. by rewrite Hd.
Qed.

Lemma payload_ascii z : forallb is_ascii (offset_payload z) = true.
Proof.
  unfold offset_payload. rewrite !forallb_app_iff, str_Z_ascii. vm_compute. reflexivity.
Qed.

Lemma ascii_is_byte s : forallb is_ascii s = true -> forallb is_byte s = true.
Proof. apply forallb_impl. intros c. unfold is_ascii, is_byte. rewrite !N.ltb_lt. lia. Qed.

Lemma digit_cases c : ascii_digit c = true -> c ∈ [48; 49; 50; 51; 52; 53; 54; 55; 56; 57]%N.
Proof.
  unfold ascii_digit, in_range. intros ?; to_prop.
  assert (c = 48 \/ c = 49 \/ c = 50 \/ c = 51 \/ c = 52 \/ c = 53 \/ c = 54 \/ c = 55 \/ c = 56 \/ c = 57)%N
    as Hc by lia. rewrite !elem_of_cons; tauto.
Qed.

Ltac digit_case c := match goal with
  | H : ascii_digit c = true |- _ =>
      apply digit_cases in H; repeat (apply elem_of_cons in H as [->|H]); [..|by apply elem_of_nil in H]
  end.

(** A value that starts with a digit, or a minus sign and a digit, is a numeral. *)
Lemma scan_value_digit fuel c s : ascii_digit c = true ->
  scan_value (S fuel) (skip_ws (32%N :: c :: s)) = scan_number (c :: s).
Proof. intros Hc. digit_case c; reflexivity. Qed.

Lemma scan_value_minus fuel c s : ascii_digit c = true ->
  scan_value (S fuel) (skip_ws (32%N :: 45%N :: c :: s)) = scan_number (45%N :: c :: s).
Proof. intros Hc. digit_case c; reflexivity. Qed.

Lemma scan_value_str_Z fuel z r : str_limit z = true ->
  scan_value (S fuel) (skip_ws (32%N :: str_Z z ++ 125%N :: r)) = Ok (JInt z, 125%N :: r).
Proof.
  intros Hz. rewrite <- (scan_number_str_Z z r Hz). destruct z as [|p|p]; [reflexivity|..];
    destruct (str_N_head p) as (c & ds & E & _); pose proof (str_N_digits (Npos p)) as Hd;
    cbn [str_Z]; rewrite E in *; cbn [forallb] in Hd; to_prop; cbn [app].
  - by apply scan_value_digit.
  - by apply scan_value_minus.
Qed.

Lemma loads_payload z : str_limit z = true ->
  loads_bytes (offset_payload z) = Ok (JObj [(#"offset", JInt z)]).
Proof.
  intros Hz. unfold loads_bytes.
  change (detect_encoding (offset_payload z)) with Utf8. cbn [decode_as].
  rewrite utf8_decode_ascii by apply payload_ascii. change (loads (offset_payload z) = Ok (JObj [(#"offset", JInt z)])).
  unfold loads. change (next_is 65279 (offset_payload z)) with (@None pystr). cbv iota.
  change (skip_ws (offset_payload z)) with (offset_payload z).
  replace (2 * length (offset_payload z) + 2) with (S (S (S (2 * length (offset_payload z) - 1)))).
  2: { unfold offset_payload. rewrite !length_app. cbn. lia. }
  generalize (2 * length (offset_payload z) - 1). intros fuel.
  assert (scan_value (S (S (S fuel))) (offset_payload z) =
    ('(v, r2) ← scan_value (S fuel) (skip_ws (32%N :: str_Z z ++ 125%N :: []));
     match next_is 125 (skip_ws r2), next_is 44 (skip_ws r2) with
     | Some r3, _ => Ok (JObj (dict_set [] #"offset" v), r3)
     | _, Some r3 => scan_members (S fuel) (dict_set [] #"offset" v) (skip_ws r3)
     | _, _ => json_error
     end)) as -> by reflexivity.
  rewrite scan_value_str_Z by done. reflexivity.
Qed.

Lemma decode_encode z c : encode_offset z = Ok c -> decode_offset c = Ok z.
Proof.
  unfold encode_offset. destruct (str_limit z) eqn:Hz; [|done]. intros [= <-].
  unfold decode_offset. pose proof (ascii_is_byte _ (payload_ascii z)) as Hb.
  rewrite encode_ascii by (by apply urlsafe_ascii). cbn [mbind res_bind].
  rewrite urlsafe_round_trip by done. cbn [mbind res_bind]. by rewrite loads_payload.
Qed.

Lemma encode_not_empty z c : encode_offset z = Ok c -> c <> [].
Proof. unfold encode_offset. destruct (str_limit z); [|done]. by intros [= <-]. Qed.

Lemma parse_encoded z c : encode_offset z = Ok c -> parse_cursor_offset (Some c) = Ok z.
Proof.
  intros Hc. pose proof (encode_not_empty z c Hc) as Hne. pose proof (decode_encode z c Hc) as Hd.
  unfold parse_cursor_offset. destruct c; [done|]. by rewrite Hd.
Qed.

(** Numbers of less than twenty digits can be printed. *)
Lemma digits_go_length fuel n acc k :
  (n < 10 ^ N.of_nat (S k))%N -> length (digits_go fuel n acc) <= length acc + S k.
Proof.
  revert n acc k. induction fuel as [|fuel IH]; intros n acc k Hn; cbn [digits_go]; [lia|].
  destruct (n <? 10)%N eqn:E; to_prop; [cbn; lia|].
  destruct k as [|k]; [cbn in Hn; lia|]. etrans; [apply (IH _ _ k)|cbn; lia].
  apply N.Div0.div_lt_upper_bound. by rewrite (Nat2N.inj_succ (S k)), N.pow_succ_r' in Hn.
Qed.

Lemma str_limit_small z : (Z.abs z < 10 ^ 20)%Z -> str_limit z = true.
Proof.
  intros Hz. unfold str_limit. apply N.leb_le. unfold str_N.
  pose proof (digits_go_length (S (N.size_nat (Z.abs_N z))) (Z.abs_N z) [] 19) as Hl.
  assert (Z.abs_N z < 10 ^ N.of_nat 20)%N as Hb by (cbn; lia). apply Hl in Hb. cbn [length] in Hb. lia.
Qed.
End cursor_laws.

(** ** Windows *)

Lemma py_slice_forward {A} (lo n : Z) (xs : list A) : (0 <= lo)%Z -> (0 <= n)%Z ->
  py_slice lo (lo + n) xs = take (Z.to_nat n) (drop (Z.to_nat lo) xs).
Proof.
  intros Hlo Hn. unfold py_slice, slice_index.
  rewrite !(proj2 (Z.ltb_ge _ _)) by lia.
  destruct (decide (lo <= Z.of_nat (length xs))%Z).
  - replace (Z.min lo (Z.of_nat (length xs))) with lo by lia.
    destruct (decide (lo + n <= Z.of_nat (length xs))%Z).
    + do 2 f_equal; lia.
    + rewrite !take_ge; [done|rewrite length_drop; lia..].
  - rewrite !drop_ge by lia. by rewrite !take_nil.
Qed.

Section walking.
Context `{Unicode} `{PyFloatInt} `{Signature} {A : Type} (o : oracle) (rows : list A).
#[local] Abbreviation total := (Z.of_nat (length rows)).

(** The items from [offset] on, at most [limit] of them. *)
Definition window (offset limit : Z) : list A := take (Z.to_nat limit) (drop (Z.to_nat offset) rows).

(** The service answers windows of [rows] and their number. *)
Definition serves (query : Z -> Z -> prog (list A * Z)) : Prop :=
  forall h offset limit, (0 <= offset)%Z -> (0 <= limit)%Z ->
  (run o (query offset limit) h).1 = Ok (window offset limit, total).
Definition answers_rows (service : prog (list A)) : Prop := forall h, (run o service h).1 = Ok rows.

(** What a client should get at [offset]: the window, and a cursor when it is not the last. *)
Definition window_page (offset limit : Z) : res (CursorPage A) :=
  next ← (if (offset + limit <? total)%Z then c ← encode_offset (offset + limit); Ok (Some c) else Ok None);
  Ok {| cp_items := window offset limit; cp_next_cursor := next;
        cp_has_more := (offset + limit <? total)%Z; cp_limit := limit |}.

Lemma window_length offset limit : (0 <= offset)%Z -> (0 <= limit)%Z ->
  Z.of_nat (length (window offset limit)) = Z.max 0 (Z.min limit (total - offset)).
Proof. intros Ho Hl. unfold window. rewrite length_take, length_drop. lia. Qed.

Lemma window_more offset limit : (0 <= offset)%Z -> (1 <= limit)%Z ->
  (offset + Z.of_nat (length (window offset limit)) <? total)%Z = (offset + limit <? total)%Z.
Proof.
  intros Ho Hl. rewrite window_length by lia.
  destruct (_ <? _)%Z eqn:E; symmetry; [apply Z.ltb_lt|apply Z.ltb_ge]; to_prop; lia.
Qed.

Lemma run_make_page offset limit h : (0 <= offset)%Z -> (1 <= limit)%Z ->
  (run o (make_page offset limit total (window offset limit)) h).1 = window_page offset limit.
Proof.
  intros Ho Hl. unfold make_page, cursor_next, window_page. rewrite window_more by done.
  destruct (offset + limit <? total)%Z; [|done]. by destruct (encode_offset (offset + limit)).
Qed.

(** The value of a service's answer, whatever history it leaves. *)
Lemma run_bind_ok {B C} (p : prog B) (f : B -> prog C) h b r :
  (run o p h).1 = Ok b -> (forall h', (run o (f b) h').1 = r) -> (run o (p ≫= f) h).1 = r.
Proof. rewrite run_bind. destruct (run o p h) as [r' h']. cbn. by intros -> Hf. Qed.

Context (offset limit : Z) (Ho : (0 <= offset)%Z) (Hl : (1 <= limit)%Z).
Context (cursor : option pystr) (Hc : parse_cursor_offset cursor = Ok offset).

Lemma slice_page_window service h : answers_rows service ->
  (run o (slice_page service cursor limit) h).1 = window_page offset limit.
Proof.
  intros Hs. unfold slice_page. eapply run_bind_ok; [apply Hs|]. intros h1.
  eapply run_bind_ok; [rewrite Hc; reflexivity|]. intros h2.
  rewrite py_slice_forward by lia. apply run_make_page; lia.
Qed.

Lemma offset_page_window query h : serves query ->
  (run o (offset_page query cursor limit) h).1 = window_page offset limit.
Proof.
  intros Hs. unfold offset_page. rewrite Hc. eapply run_bind_ok; [reflexivity|]. intros h1.
  eapply run_bind_ok; [apply Hs; lia|]. intros h2. apply run_make_page; lia.
Qed.

(** The page handed out for [offset] starts at
    [offset + (offset / limit) * (offset mod limit)]. *)
Definition served_offset : Z := (offset + (offset / limit) * (offset mod limit))%Z.

Lemma numbered_page_items query h : serves query ->
  (run o (numbered_page (paged query) cursor limit) h).1 =
  (run o (make_page offset limit total (window served_offset limit)) h).1.
Proof.
  intros Hs. unfold numbered_page, page_at, pagination_params. rewrite Hc, run_bind, run_lift.
  rewrite (proj2 (Z.eqb_neq limit 0)) by lia.
  pose proof (Z.mod_pos_bound offset limit ltac:(lia)) as Hm.
  pose proof (Z.div_pos offset limit ltac:(lia) ltac:(lia)) as Hd.
  assert (Ho' := Z.div_mod offset limit ltac:(lia)).
  unfold paged. replace (offset / limit + 1 - 1)%Z with (offset / limit)%Z by lia.
  unfold served_offset. destruct (offset mod limit =? 0)%Z eqn:E; to_prop.
  - eapply run_bind_ok; [apply Hs; nia|]. intros h2. cbn beta iota.
    replace (offset / limit * limit)%Z with (offset + offset / limit * (offset mod limit))%Z by nia.
    unfold make_page. rewrite !run_bind, !run_lift. by destruct (cursor_next _ _ _ _) as [[??]|].
  - eapply run_bind_ok; [apply Hs; nia|]. intros h2. cbn beta iota.
    rewrite py_slice_forward by lia.
    assert (take (Z.to_nat limit) (drop (Z.to_nat (offset mod limit))
      (window (offset / limit * (limit + offset mod limit)) (limit + offset mod limit))) =
      window (offset + offset / limit * (offset mod limit)) limit) as ->.
    { unfold window. rewrite skipn_firstn_comm, drop_drop, take_take.
      rewrite Nat.min_l by lia. do 2 f_equal; nia. }
    unfold make_page. rewrite !run_bind, !run_lift. by destruct (cursor_next _ _ _ _) as [[??]|].
Qed.
End walking.

(** ** Following the cursors *)

(** [Query(20, ge=1, le=100)]. *)
Definition page_limit (limit : Z) : Prop := (1 <= limit <= 100)%Z.
Definition limit_sum (limits : list Z) : Z := foldr Z.add 0%Z limits.

Lemma limit_sum_nonneg limits : Forall page_limit limits -> (0 <= limit_sum limits)%Z.
Proof. induction 1 as [|l ls Hl _ IH]; cbn; [done|]. unfold page_limit, limit_sum in *. lia. Qed.

Lemma limit_sum_copies k limit : limit_sum (replicate k limit) = (Z.of_nat k * limit)%Z.
Proof. unfold limit_sum. induction k as [|k IH]; cbn [replicate foldr]; lia. Qed.

Section follow.
Context `{Unicode} `{PyFloatInt} `{Signature} {A : Type} (o : oracle) (rows : list A).
Context (handler : option pystr -> Z -> prog (CursorPage A)) (good : Z -> Z -> Prop).
Context (Hserve : forall h cursor offset limit,
  (0 <= offset)%Z -> (1 <= limit)%Z -> good offset limit -> parse_cursor_offset cursor = Ok offset ->
  (run o (handler cursor limit) h).1 = window_page rows offset limit).
Context (Hsmall : (Z.of_nat (length rows) < 2 ^ 63)%Z).

Fixpoint all_good (offset : Z) (limits : list Z) : Prop :=
  match limits with
  | [] => True
  | limit :: limits => good offset limit /\ all_good (offset + limit) limits
  end.
Lemma window_split offset n m : (0 <= offset)%Z -> (0 <= n)%Z -> (0 <= m)%Z ->
  window rows offset (n + m) = window rows offset n ++ window rows (offset + n) m.
Proof.
  intros. unfold window. rewrite !Z2Nat.inj_add by lia.
  rewrite <- (take_drop (Z.to_nat n) (drop (Z.to_nat offset) rows)) at 1.
  rewrite <- drop_drop. rewrite take_app. rewrite take_take, Nat.min_r by lia.
  rewrite length_take. destruct (decide (Z.to_nat n <= length (drop (Z.to_nat offset) rows))).
  - do 2 f_equal. lia.
  - rewrite (drop_ge (drop _ _)) by lia. by rewrite !take_nil.
Qed.

Lemma walk_windows limits cursor offset h :
  Forall page_limit limits -> (0 <= offset)%Z -> all_good offset limits ->
  parse_cursor_offset cursor = Ok offset ->
  exists last, (run o (walk handler limits cursor) h).1 = Ok (window rows offset (limit_sum limits), last).
Proof.
  intros Hls. revert cursor offset h.
  induction Hls as [|limit limits Hl Hls IH]; intros cursor offset h Ho Hg Hc; [by exists cursor|].
  destruct Hg as [Hg Hgs]. cbn [walk]. pose proof (limit_sum_nonneg _ Hls) as Hsum.
  unfold page_limit in Hl. pose proof (Hserve h cursor offset limit Ho ltac:(lia) Hg Hc) as Hpage.
  change (limit_sum (limit :: limits)) with (limit + limit_sum limits)%Z.
  unfold window_page in Hpage. destruct (offset + limit <? Z.of_nat (length rows))%Z eqn:Emore; to_prop.
  - destruct (encode_offset (offset + limit)) as [next|e] eqn:Enext.
    2: { unfold encode_offset in Enext. rewrite str_limit_small in Enext; [done|lia]. }
    assert (forall h1, exists last, (run o (walk handler limits (Some next)) h1).1
      = Ok (window rows (offset + limit) (limit_sum limits), last)) as Hrest.
    { intros h1. apply IH; [lia|done|by eapply parse_encoded]. }
    destruct (run o (handler cursor limit) h) as [page h1] eqn:Er. cbn in Hpage. subst page.
    destruct (Hrest h1) as [last Hlast]. exists last.
    rewrite run_bind, Er. cbn [mbind res_bind cp_next_cursor cp_items].
    eapply run_bind_ok; [exact Hlast|]. intros h2. cbn. by rewrite window_split by lia.
  - exists None. eapply run_bind_ok; [exact Hpage|]. intros h1. cbn [cp_next_cursor cp_items].
    cbn. do 2 f_equal. rewrite window_split by lia.
    assert (window rows (offset + limit) (limit_sum limits) = []) as ->; [|by rewrite app_nil_r].
    unfold window. rewrite drop_ge by lia. by rewrite take_nil.
Qed.

Lemma walk_from_start limits h : Forall page_limit limits -> all_good 0 limits ->
  exists last, (run o (walk handler limits None) h).1 = Ok (take (Z.to_nat (limit_sum limits)) rows, last).
Proof.
  intros Hls Hg. destruct (walk_windows limits None 0 h) as [last Hw]; [done..|]. exists last. rewrite Hw.
  unfold window. by rewrite drop_0.
Qed.
End follow.

Lemma all_good_True limits offset : all_good (fun _ _ => True) offset limits.
Proof. revert offset. induction limits; cbn; auto. Qed.

Lemma all_good_aligned limit k offset : (offset mod limit = 0)%Z -> limit <> 0%Z ->
  all_good (fun offset limit => (offset mod limit = 0)%Z) offset (replicate k limit).
Proof.
  intros Ho Hl. revert offset Ho. induction k as [|k IH]; intros offset Ho; cbn; [done|].
  split; [done|]. apply IH. rewrite <- (Z.mul_1_l limit) at 1. by rewrite Z.mod_add.
Qed.

(** ** Counting

    What can be said of a source that returns its rows in another order at each query. *)

Section counting.
Context `{Unicode} `{PyFloatInt} `{Signature} {A : Type} (o : oracle) (total : Z).

Definition part (offset limit : Z) : Z := Z.max 0 (Z.min limit (total - offset)).
(** As many rows as [OFFSET] and [LIMIT] leave, whichever these are, and their total. *)
Definition counts (query : Z -> Z -> prog (list A * Z)) : Prop :=
  forall h offset limit, (0 <= offset)%Z -> (0 <= limit)%Z ->
  exists items, (run o (query offset limit) h).1 = Ok (items, total) /\ Z.of_nat (length items) = part offset limit.
Definition lists_all (service : prog (list A)) : Prop :=
  forall h, exists items, (run o service h).1 = Ok items /\ Z.of_nat (length items) = total.

Definition counted_page (offset limit : Z) (r : res (CursorPage A)) : Prop :=
  exists items, Z.of_nat (length items) = part offset limit /\
    r = (next ← (if (offset + limit <? total)%Z then c ← encode_offset (offset + limit); Ok (Some c) else Ok None);
         Ok {| cp_items := items; cp_next_cursor := next; cp_has_more := (offset + limit <? total)%Z; cp_limit := limit |}).

Lemma make_page_counted offset limit items h : (0 <= offset)%Z -> (1 <= limit)%Z ->
  Z.of_nat (length items) = part offset limit -> counted_page offset limit (run o (make_page offset limit total items) h).1.
Proof.
  intros Ho Hl Hi. exists items. split; [done|]. unfold make_page, cursor_next.
  assert ((offset + Z.of_nat (length items) <? total)%Z = (offset + limit <? total)%Z) as ->.
  { rewrite Hi. unfold part. destruct (offset + limit <? total)%Z eqn:E; [apply Z.ltb_lt|apply Z.ltb_ge]; to_prop; lia. }
  destruct (offset + limit <? total)%Z; [|done]. by destruct (encode_offset (offset + limit)).
Qed.

Section one_page.
Context (offset limit : Z) (Ho : (0 <= offset)%Z) (Hl : (1 <= limit)%Z).
Context (cursor : option pystr) (Hc : parse_cursor_offset cursor = Ok offset).

Lemma slice_page_counted service h : lists_all service -> counted_page offset limit (run o (slice_page service cursor limit) h).1.
Proof.
  intros Hs. destruct (Hs h) as (items & Hi & Hn). unfold slice_page. rewrite run_bind.
  destruct (run o service h) as [r h1]. cbn in Hi. subst r. rewrite run_bind, run_lift, Hc.
  rewrite py_slice_forward, Hn by lia. apply make_page_counted; [done..|]. rewrite length_take, length_drop. unfold part. lia.
Qed.
Lemma offset_page_counted query h : counts query -> counted_page offset limit (run o (offset_page query cursor limit) h).1.
Proof.
  intros Hs. unfold offset_page. rewrite run_bind, run_lift, Hc, run_bind.
  destruct (Hs h offset limit) as (items & Hi & Hn); [lia..|]. destruct (run o (query offset limit) h) as [r h1].
  cbn in Hi. subst r. by apply make_page_counted.
Qed.
Lemma numbered_page_counted query h : (offset mod limit = 0)%Z -> counts query ->
  counted_page offset limit (run o (numbered_page (paged query) cursor limit) h).1.
Proof.
  intros Hm Hs. unfold numbered_page, page_at, pagination_params, paged. rewrite run_bind, run_lift, Hc.
  rewrite (proj2 (Z.eqb_neq limit 0)), Hm by lia. cbn [Z.eqb]. rewrite run_bind.
  pose proof (Z.div_mod offset limit ltac:(lia)) as Hd.
  replace ((offset / limit + 1 - 1) * limit)%Z with offset by lia.
  destruct (Hs h offset limit) as (items & Hi & Hn); [lia..|]. destruct (run o (query offset limit) h) as [r h1].
  cbn in Hi. subst r. by apply make_page_counted.
Qed.
End one_page.

Context (handler : option pystr -> Z -> prog (CursorPage A)) (good : Z -> Z -> Prop).
Context (Hserve : forall h cursor offset limit,
  (0 <= offset)%Z -> (1 <= limit)%Z -> good offset limit -> parse_cursor_offset cursor = Ok offset ->
  counted_page offset limit (run o (handler cursor limit) h).1).
Context (Hsmall : (0 <= total < 2 ^ 63)%Z).

(** The client has read [sum] rows, or all there are, and then it is told so. *)
Definition read_up_to (offset sum : Z) (r : res (list A * option pystr)) : Prop :=
  exists items last, r = Ok (items, last) /\ Z.of_nat (length items) = part offset sum /\ (0 < sum -> total <= offset + sum -> last = None)%Z.

Lemma walk_counted limits cursor offset h :
  Forall page_limit limits -> (0 <= offset)%Z -> all_good good offset limits -> parse_cursor_offset cursor = Ok offset ->
  read_up_to offset (limit_sum limits) (run o (walk handler limits cursor) h).1.
Proof.
  intros Hls. revert cursor offset h.
  induction Hls as [|limit limits Hl Hls IH]; intros cursor offset h Ho Hg Hc.
  { exists [], cursor. cbn. unfold part. split_and!; [done|lia|lia]. }
  destruct Hg as [Hg Hgs]. cbn [walk]. pose proof (limit_sum_nonneg _ Hls) as Hsum.
  unfold page_limit in Hl. destruct (Hserve h cursor offset limit Ho ltac:(lia) Hg Hc) as (items & Hn & Hpage).
  change (limit_sum (limit :: limits)) with (limit + limit_sum limits)%Z. unfold part in Hn. rewrite run_bind.
  destruct (run o (handler cursor limit) h) as [page h1]. cbn [fst] in Hpage. subst page.
  destruct (offset + limit <? total)%Z eqn:Emore; to_prop.
  - destruct (encode_offset (offset + limit)) as [next|e] eqn:Enext.
    2: { unfold encode_offset in Enext. rewrite str_limit_small in Enext; [done|lia]. }
    cbn [mbind res_bind cp_next_cursor cp_items].
    destruct (IH (Some next) (offset + limit)%Z h1) as (rest & last & Hr & Hm & He); [lia|done|by eapply parse_encoded|].
    rewrite run_bind. destruct (run o (walk handler limits (Some next)) h1) as [r h2]. cbn [fst] in Hr. subst r.
    exists (items ++ rest), last. cbn. split; [done|]. rewrite length_app, Nat2Z.inj_add, Hn, Hm. unfold part.
    split; [lia|]. intros _ Ht. apply He; lia.
  - cbn [mbind res_bind cp_next_cursor cp_items]. exists items, None. cbn. split; [done|]. rewrite Hn. unfold part. split; [lia|done].
Qed.
End counting.

(** ** Properties *)

Section properties.
Context `{Unicode} `{PyFloatInt} `{Signature} {A : Type} (o : oracle) (rows : list A).

Lemma numbered_page_aligned query cursor offset limit h :
  (0 <= offset)%Z -> (1 <= limit)%Z -> (offset mod limit = 0 \/ offset < limit)%Z ->
  parse_cursor_offset cursor = Ok offset -> serves o rows query ->
  (run o (numbered_page (paged query) cursor limit) h).1 = window_page rows offset limit.
Proof.
  intros Ho Hl Halign Hc Hs. rewrite (numbered_page_items o rows offset limit Ho Hl cursor Hc query h Hs).
  assert (served_offset offset limit = offset) as ->; [|by apply run_make_page].
  unfold served_offset. destruct Halign as [->|Hlt]; [lia|]. rewrite Z.div_small by lia. lia.
Qed.

(** C12: a client that follows the next cursor from the first page, over rows whose number stays
    the same meanwhile, comes to an end: after pages of the given sizes it has read as many rows
    as these sizes allow, or as many as there are, and then it is left without a cursor -
    whatever order each query sees the rows in. If every query sees one order, they are the
    first rows in that order, none twice and none missing. Handlers that slice or pass the
    offset on allow a different limit at each page, those that number pages need one limit
    throughout. *)
Theorem cursor_walk_complete (service : prog (list A)) (query : Z -> Z -> prog (list A * Z)) (total : Z)
    (limits : list Z) (limit : Z) (k : nat) (h : history) :
  (0 <= total < 2 ^ 63)%Z -> lists_all o total service -> counts o total query -> Forall page_limit limits -> page_limit limit ->
  let sum := limit_sum limits in
  let sliced := (run o (walk (slice_page service) limits None) h).1 in
  let offsets := (run o (walk (offset_page query) limits None) h).1 in
  let numbered := (run o (walk (numbered_page (paged query)) (replicate k limit) None) h).1 in
  (read_up_to total 0 sum sliced /\ read_up_to total 0 sum offsets /\ read_up_to total 0 (Z.of_nat k * limit) numbered)
  /\ (answers_rows o rows service -> exists last, sliced = Ok (take (Z.to_nat sum) rows, last))
  /\ (serves o rows query ->
      (exists last, offsets = Ok (take (Z.to_nat sum) rows, last))
      /\ exists last, numbered = Ok (take (k * Z.to_nat limit) rows, last)).
Proof.
  intros Ht Hs Hq Hls Hl sum sliced offsets numbered.
  assert (limit_sum (replicate k limit) = Z.of_nat k * limit)%Z as Hk by apply limit_sum_copies.
  assert (all_good (fun offset limit => (offset mod limit = 0)%Z) 0 (replicate k limit)) as Ha.
  { apply all_good_aligned; [by rewrite Zmod_0_l|]. unfold page_limit in Hl. lia. }
  assert (Forall page_limit (replicate k limit)) as Hr by by apply Forall_replicate.
  split_and!.
  - apply (walk_counted o total _ (fun _ _ => True)); auto using all_good_True; [|lia]. intros. by apply slice_page_counted.
  - apply (walk_counted o total _ (fun _ _ => True)); auto using all_good_True; [|lia]. intros. by apply offset_page_counted.
  - rewrite <- Hk. apply (walk_counted o total _ (fun offset limit => (offset mod limit = 0)%Z)); auto; [|lia].
    intros. by apply numbered_page_counted.
  - intros Ho. apply (walk_from_start o rows _ (fun _ _ => True)); auto using all_good_True.
    + intros. by apply slice_page_window.
    + destruct (Hs h) as (items & Hi & <-). rewrite Ho in Hi. injection Hi as ->. lia.
  - intros Ho. assert (Z.of_nat (length rows) = total) as Hn.
    { destruct (Hq h 0%Z 0%Z) as (items & Hi & _); [lia..|]. rewrite (Ho h) in Hi by lia. by injection Hi. }
    split.
    + apply (walk_from_start o rows _ (fun _ _ => True)); auto using all_good_True; [|lia]. intros. by apply offset_page_window.
    + replace (k * Z.to_nat limit) with (Z.to_nat (limit_sum (replicate k limit))) by (rewrite Hk; unfold page_limit in Hl; lia).
      apply (walk_from_start o rows _ (fun offset limit => (offset mod limit = 0)%Z)); auto; [|lia].
      intros. apply numbered_page_aligned; auto.
Qed.

(** C35: a numbered page is the page that starts at the offset of the cursor when the limit
    divides that offset or the offset lies on the first page; otherwise its rows are read
    further on, by the page number times the remainder. *)
Theorem numbered_page_equivalence (query : Z -> Z -> prog (list A * Z)) cursor offset limit h :
  (0 <= offset)%Z -> (1 <= limit)%Z -> parse_cursor_offset cursor = Ok offset -> serves o rows query ->
  ((offset mod limit = 0 \/ offset < limit)%Z ->
   (run o (numbered_page (paged query) cursor limit) h).1 = (run o (offset_page query cursor limit) h).1) /\
  (forall page, (run o (numbered_page (paged query) cursor limit) h).1 = Ok page ->
   cp_items page = window rows (offset + (offset / limit) * (offset mod limit)) limit).
Proof.
  intros Ho Hl Hc Hs. split.
  - intros Halign. rewrite (numbered_page_aligned query cursor offset limit h) by done.
    symmetry. by apply offset_page_window.
  - intros page. rewrite (numbered_page_items o rows offset limit Ho Hl cursor Hc query h Hs).
    unfold make_page. rewrite run_bind, run_lift. destruct (cursor_next _ _ _ _) as [[??]|]; [|done].
    cbn. by intros [= <-].
Qed.
End properties.

(** ** The decoders only raise exceptions *)

Section raises.
Context `{Unicode} `{PyFloatInt}.

Lemma a2b_ordinary quad left pads s : ordinary (a2b quad left pads s).
Proof.
  revert quad left pads. induction s as [|c s IH]; intros quad left pads; cbn [a2b].
  - by destruct (quad =? 0)%N.
  - destruct (c =? 61)%N; [destruct (2 <=? quad)%N; [destruct (4 <=? _)%N|]; done || apply IH|].
    destruct (b64_value c); [|apply IH].
    destruct (quad =? 0)%N; [apply IH|]. destruct (quad =? 1)%N, (quad =? 2)%N; by apply ordinary_bind.
Qed.

Lemma utf8_ordinary bs : ordinary (utf8_decode bs).
Proof.
  induction bs as [bs IH] using (induction_ltof1 _ (@length N)); unfold ltof in IH.
  destruct bs as [|b r]; [done|]. cbn [utf8_decode].
  repeat (cbv iota; lazymatch goal with
    | |- ordinary (_ ≫= _) => apply ordinary_bind; [|done]
    | |- ordinary (utf8_decode _) => apply IH; cbn; lia
    | |- ordinary (match ?x with _ => _ end) => destruct x
    end); done.
Qed.

Lemma utf16_ordinary big bs : ordinary (utf16_decode big bs).
Proof.
  apply ordinary_bind; [|done].
  induction bs as [bs IH] using (induction_ltof1 _ (@length N)); unfold ltof in IH.
  destruct bs as [|a [|b bs]]; cbn [utf16_units]; [done..|].
  apply ordinary_bind; [|done]. apply IH. cbn. lia.
Qed.

Lemma utf32_ordinary big bs : ordinary (utf32_decode big bs).
Proof.
  induction bs as [bs IH] using (induction_ltof1 _ (@length N)); unfold ltof in IH.
  destruct bs as [|a [|b [|c [|d bs]]]]; cbn [utf32_decode]; [done..|].
  destruct (_ <? 1114112)%N; [|done]. apply ordinary_bind; [|done]. apply IH. cbn. lia.
Qed.

Lemma loads_ordinary s : ordinary (loads s).
Proof.
  destruct (loads s) as [v|e] eqn:E; [done|]. cbn. by destruct (loads_errors s e E) as [->| ->].
Qed.

Lemma decode_offset_errors c e : decode_offset c = Raise e ->
  e = Exn ValueError (#"Invalid cursor: " ++ c).
Proof.
  unfold decode_offset. set (r := mbind _ _).
  assert (ordinary r) as Hr.
  { subst r. apply ordinary_bind; [unfold encode; by destruct (existsb _ c)|]. intros bs _.
    apply ordinary_bind; [apply a2b_ordinary|]. intros raw _.
    apply ordinary_bind.
    { apply ordinary_bind; [|intros; apply loads_ordinary].
      destruct (detect_encoding raw); eauto using utf8_ordinary, utf16_ordinary, utf32_ordinary. }
    intros data _. apply ordinary_bind.
    { destruct data as [| | | | | |kvs]; try done. cbn. by destruct (dict_get kvs _). }
    intros value _. destruct value as [| | |raw'|s'| |]; try done; cbn.
    - by destruct (float_int raw').
    - by destruct (py_int s'). }
  destruct r as [v|e']; [done|]. cbn in Hr. rewrite Hr. by intros [= <-].
Qed.

(** A cursor the server hands out is read back as the offset it was made for, and every
    offset of fewer than twenty digits has one; a text that is not a cursor is refused with
    status 422 and nothing else. *)
Theorem cursor_round_trip (offset : Z) (cursor : pystr) (e : exn) :
  (encode_offset offset = Ok cursor ->
   decode_offset cursor = Ok offset /\ parse_cursor_offset (Some cursor) = Ok offset) /\
  ((Z.abs offset < 10 ^ 20)%Z -> is_ok (encode_offset offset) = true) /\
  (parse_cursor_offset (Some cursor) = Raise e -> e = HTTPException 422 #"Invalid cursor").
Proof.
  split_and!.
  - intros Hc. split; [by apply decode_encode|by apply parse_encoded].
  - intros Hz. unfold encode_offset. by rewrite str_limit_small.
  - unfold parse_cursor_offset. destruct cursor as [|c s]; [done|].
    destruct (decode_offset (c :: s)) as [z|e'] eqn:E; [done|].
    apply decode_offset_errors in E as ->. by intros [= <-].
Qed.
End raises.

(** ** Concrete runs *)

#[local] Instance test_signature : Signature := {| call := unit; answer _ := unit |}.
#[local] Instance test_floats : PyFloatInt := {| float_int _ := None |}.
#[local] Existing Instance ascii_only.
Definition test_oracle : oracle := fun _ _ => Ok tt.
(** A service over the numbers below [n]. *)
Definition test_rows (n : nat) : list Z := Z.of_nat <$> seq 0 n.
Definition test_service (n : nat) : prog (list Z) := mret (test_rows n).
Definition test_query (n : nat) (offset limit : Z) : prog (list Z * Z) :=
  mret (window (test_rows n) offset limit, Z.of_nat n).

Lemma cursor_round_trip_witness :
  decode_offset #"eyJvZmZzZXQiOiA0MH0=" = Ok 40%Z /\
  parse_cursor_offset (Some #"eyJvZmZzZXQiOiA0MH0=") = Ok 40%Z /\
  HTTPException 422 #"Invalid cursor" = Exn (LibraryError #"HTTPException") #"422: Invalid cursor".
Proof.
  destruct (cursor_round_trip 40 #"eyJvZmZzZXQiOiA0MH0=" (HTTPException 422 #"Invalid cursor")) as [Hc _].
  destruct Hc as [Hd Hp]; [vm_compute; reflexivity|]. split_and!; [exact Hd|exact Hp|vm_compute; reflexivity].
Defined.

Lemma cursor_walk_complete_witness :
  (exists last, (run test_oracle (walk (slice_page (test_service 7)) [3; 2; 4]%Z None) []).1 = Ok (test_rows 7, last)) /\
  (exists last, (run test_oracle (walk (numbered_page (paged (test_query 7))) [3; 3; 3]%Z None) []).1 = Ok (test_rows 7, last)) /\
  read_up_to 7 0 9 (run test_oracle (walk (offset_page (test_query 7)) [3; 2; 4]%Z None) []).1.
Proof.
  destruct (cursor_walk_complete test_oracle (test_rows 7) (test_service 7) (test_query 7) 7
    [3; 2; 4]%Z 3 3 []) as ((_ & H1 & _) & H2 & H3).
  - done.
  - intros h. by exists (test_rows 7).
  - intros h offset limit Ho Hl. exists (window (test_rows 7) offset limit). split; [reflexivity|].
    rewrite window_length by done. reflexivity.
  - repeat constructor; done.
  - done.
  - split; [by apply H2|]. split; [|exact H1]. apply H3. by intros h offset limit _ _.
Defined.

Lemma numbered_page_equivalence_witness :
  (run test_oracle (numbered_page (paged (test_query 60)) (Some #"eyJvZmZzZXQiOiAyNX0=") 10) []).1
    = Ok {| cp_items := [35; 36; 37; 38; 39; 40; 41; 42; 43; 44]%Z;
            cp_next_cursor := Some #"eyJvZmZzZXQiOiAzNX0="; cp_has_more := true; cp_limit := 10 |} /\
  window (test_rows 60) (25 + (25 / 10) * (25 mod 10)) 10 = [35; 36; 37; 38; 39; 40; 41; 42; 43; 44]%Z.
Proof.
  assert (forall h offset limit, (0 <= offset)%Z -> (0 <= limit)%Z ->
    (run test_oracle (test_query 60 offset limit) h).1
      = Ok (window (test_rows 60) offset limit, Z.of_nat (length (test_rows 60)))) as Hs by done.
  destruct (numbered_page_equivalence test_oracle (test_rows 60) (test_query 60)
    (Some #"eyJvZmZzZXQiOiAyNX0=") 25 10 []) as [_ Hp]; [done|done|vm_compute; reflexivity|exact Hs|].
  split; [vm_compute; reflexivity|]. symmetry.
  apply (Hp {| cp_items := [35; 36; 37; 38; 39; 40; 41; 42; 43; 44]%Z;
    cp_next_cursor := Some #"eyJvZmZzZXQiOiAzNX0="; cp_has_more := true; cp_limit := 10 |}).
  vm_compute. reflexivity.
Defined.
