(* ===== verification/Stateful.v ===== *)
(** * Programs over a state

    The same call trees as [Effects], run against handlers that keep a state: the
    persistence adapters, the runtime.  [handles] says what a call may answer and
    which state it leaves; [exec] are the executions; [swp] is the logic, sound for
    them ([swp_exec]).  A call to the database may also fail, leaving the state: its
    transaction is rolled back. *)
From S2P Require Import Prelude PyStr Errors Effects.

Section stateful.
Context `{Signature} {W : Type}.

Definition handler := forall c : call, W -> res (answer c) -> W -> Prop.

Context (handles : handler).

Inductive exec {A} : prog A -> W -> res A -> W -> Prop :=
| exec_done r w : exec (Done r) w r w
| exec_do c k w a w' r w'' : handles c w a w' -> exec (k a) w' r w'' -> exec (Do c k) w r w''.

(** Whatever the calls answer, the outcome and the state it is reached in satisfy [Q]. *)
Fixpoint swp {A} (p : prog A) (w : W) (Q : res A -> W -> Prop) : Prop :=
  match p with
  | Done r => Q r w
  | Do c k => forall a w', handles c w a w' -> swp (k a) w' Q
  end.

Lemma swp_exec {A} (p : prog A) w Q r w' : swp p w Q -> exec p w r w' -> Q r w'.
Proof. intros Hp Hx. revert Hp. induction Hx as [|c k w a w' r w'' Ha _ IH]; cbn; auto. Qed.

Lemma exec_swp {A} (p : prog A) w Q : (forall r w', exec p w r w' -> Q r w') -> swp p w Q.
Proof.
  revert w. induction p as [r|c k IH]; cbn; intros w Hq; [apply Hq; constructor|].
  intros a w' Ha. apply IH. intros r w'' Hx. apply Hq. by econstructor.
Qed.

Lemma swp_mono {A} (p : prog A) w (Q Q' : res A -> W -> Prop) :
  swp p w Q -> (forall r w', Q r w' -> Q' r w') -> swp p w Q'.
Proof. intros Hp HQ. apply exec_swp. intros r w' Hx. by apply HQ, (swp_exec p w). Qed.

Lemma swp_bind {A B} (p : prog A) (f : A -> prog B) w Q :
  swp p w (fun r w' => match r with Ok a => swp (f a) w' Q | Raise e => Q (Raise e) w' end) ->
  swp (p ≫= f) w Q.
Proof.
  unfold mbind, prog_bind. revert w. induction p as [[a|e]|c k IH]; cbn; intros w Hp; [done..|]. auto.
Qed.

Lemma swp_try {A} (p : prog A) h w Q :
  swp p w (fun r w' =>
    match r with
    | Ok a => Q (Ok a) w'
    | Raise e => match h e with Some q => swp q w' Q | None => Q (Raise e) w' end
    end) ->
  swp (try_except p h) w Q.
Proof. revert w. induction p as [[a|e]|c k IH]; cbn; intros w Hp; [done|by destruct (h e)|]. auto. Qed.

Lemma swp_lift {A} (r : res A) w (Q : res A -> W -> Prop) : Q r w -> swp (lift r) w Q.
Proof. done. Qed.

Lemma swp_outcome {A} (p : prog A) w Q : swp p w (fun r w' => Q (Ok r) w') -> swp (outcome_of p) w Q.
Proof. intros Hp. apply swp_try, swp_bind. eapply swp_mono; [exact Hp|]. by intros [a|e] w'. Qed.

Lemma swp_finally {A} (p : prog A) cleanup w Q :
  swp p w (fun r w1 => swp cleanup w1 (fun rc w2 => match rc with Ok _ => Q r w2 | Raise e => Q (Raise e) w2 end)) ->
  swp (finally p cleanup) w Q.
Proof.
  intros Hp. apply swp_bind, swp_outcome. eapply swp_mono; [exact Hp|]. cbn beta iota. intros r w1 Hc.
  apply swp_bind. eapply swp_mono; [exact Hc|]. by intros [[]|e] w2.
Qed.

Lemma exec_bind {A B} (p : prog A) (f : A -> prog B) w a w' r w'' :
  exec p w (Ok a) w' -> exec (f a) w' r w'' -> exec (p ≫= f) w r w''.
Proof.
  intros Hp Hf. remember (Ok a) as ra eqn:E. induction Hp as [|c k w b w1 r' w2 Hb _ IH]; [by subst|].
  econstructor; [exact Hb|]. by apply IH.
Qed.
End stateful.

(** An ordinary exception that is none of the program's own classes. *)
Definition foreign (e : exn) : Prop :=
  isinstance (exn_type e) Exception_ = true /\ isinstance (exn_type e) DomainError = false.

(** ** Handlers computed by a function, with faults of the database

    [faults c] are the exceptions that [c] may raise instead of being served. *)

Section faults.
Context `{Signature} {W : Type}.
Context (serve : forall c : call, W -> res (answer c) * W) (faults : call -> exn -> Prop).

Definition with_faults : handler (W:=W) := fun c w a w' =>
  (a, w') = serve c w \/ (w' = w /\ exists e, a = Raise e /\ faults c e).

Lemma swp_call c w (Q : res (answer c) -> W -> Prop) :
  Q (serve c w).1 (serve c w).2 -> (forall e, faults c e -> Q (Raise e) w) ->
  swp with_faults (perform c) w Q.
Proof.
  intros Hs Hf a w' [E|(-> & e & -> & He)]; [|by apply Hf]. cbn. by rewrite <- E in Hs.
Qed.

(** The execution in which nothing fails. *)
Fixpoint run_state {A} (p : prog A) (w : W) : res A * W :=
  match p with
  | Done r => (r, w)
  | Do c k => let '(a, w') := serve c w in run_state (k a) w'
  end.

Lemma run_state_bind {A B} (p : prog A) (f : A -> prog B) w :
  run_state (p ≫= f) w = match run_state p w with (Ok a, w') => run_state (f a) w' | (Raise e, w') => (Raise e, w') end.
Proof.
  unfold mbind, prog_bind. revert w. induction p as [[a|e]|c k IH]; cbn; intros w; [done..|].
  destruct (serve c w) as [a w']. apply IH.
Qed.

Lemma run_state_exec {A} (p : prog A) w r w' : run_state p w = (r, w') -> exec with_faults p w r w'.
Proof.
  revert w. induction p as [r0|c k IH]; cbn; intros w; [intros [= -> ->]; constructor|].
  destruct (serve c w) as [a w1] eqn:E. intros Hr. econstructor; [left; by rewrite E|by apply IH].
Qed.

Lemma run_state_swp {A} (p : prog A) w (Q : res A -> W -> Prop) r w' :
  swp with_faults p w Q -> run_state p w = (r, w') -> Q r w'.
Proof. intros Hp Hr. by eapply swp_exec, run_state_exec. Qed.
End faults.

(** One step of symbolic execution against such a handler; a call leaves the goal of its
    answer and the goal of its faults. *)
Ltac swp_step :=
  lazymatch goal with
  | |- swp _ (_ ≫= _) _ _ => apply swp_bind
  | |- swp _ (try_except _ _) _ _ => apply swp_try
  | |- swp _ (perform _) _ _ => apply swp_call; [cbn [fst snd]|intros ?e ?Hfault]
  | |- swp _ (lift _) _ _ => apply swp_lift
  | |- swp _ (mret _) _ _ => apply swp_lift
  end.
