(* ===== verification/Ownership.v ===== *)
(** * Ownership of scheduled execution

    Replicas of the program elect the one that runs scheduled scripts with a
    PostgreSQL session advisory lock:
    [app/adapters/persistence/scheduler_ownership.py] (the lock) and the ownership part
    of [app/adapters/runtime/apscheduler_runtime.py] (the monitor, the legacy path
    that keeps its own connection, start and stop).  An operation is a tree of calls; between
    two calls anything may happen: calls of the other replicas, the end of a session.  The
    server is a parameter; its laws are those PostgreSQL documents for session-level advisory
    locks, and SQLAlchemy for a connection that is checked out of a pool. *)
From S2P Require Import Prelude PyStr Errors Effects.

(** ** The replicas *)

(** A session of the server; a pool may keep it when its connection is closed. *)
Definition session : Type := N.

(** [SqlAlchemySchedulerOwnership]. *)
Record ownership := { ow_connection : option session; ow_acquired : bool }.
(** [ApschedulerRuntime], the fields ownership is about; the port is [None] in the
    legacy configuration. *)
Record runtime := {
  rt_ownership : option ownership;
  rt_owner_connection : option session;
  rt_owns_execution : bool;
  rt_owner_gauge : Z;
  rt_ownership_task : bool;
  rt_ready : bool }.

Inductive lock_call :=
| Self                        (* the fields, read *)
| SetSelf (t : runtime)       (* the fields, written *)
| Connect                     (* [engine.connect()] *)
| TryLock (c : session)       (* [SELECT pg_try_advisory_lock(...)] *)
| Unlock (c : session)        (* [SELECT pg_advisory_unlock(...)] *)
| Select1 (c : session)
| Close (c : session).        (* [connection.close()] *)
Definition lock_answer (c : lock_call) : Type :=
  match c with Self => runtime | Connect => session | TryLock _ => bool | SetSelf _ | Unlock _ | Select1 _ | Close _ => unit end.
#[export] Instance lock_signature : Signature := {| call := lock_call; answer := lock_answer |}.

Definition new_ownership : ownership := {| ow_connection := None; ow_acquired := false |}.
Definition new_runtime (own : option ownership) : runtime :=
  {| rt_ownership := own; rt_owner_connection := None; rt_owns_execution := true; rt_owner_gauge := 0;
     rt_ownership_task := false; rt_ready := false |}.

Definition is_acquired (o : ownership) : bool := ow_acquired o.
Definition owns_execution (t : runtime) : bool :=
  match rt_ownership t with Some o => is_acquired o | None => rt_owns_execution t end.

Definition set_ownership (o : ownership) (t : runtime) : runtime :=
  {| rt_ownership := Some o; rt_owner_connection := rt_owner_connection t;
     rt_owns_execution := rt_owns_execution t; rt_owner_gauge := rt_owner_gauge t;
     rt_ownership_task := rt_ownership_task t; rt_ready := rt_ready t |}.
Definition set_owns (owns : bool) (t : runtime) : runtime :=
  {| rt_ownership := rt_ownership t; rt_owner_connection := rt_owner_connection t;
     rt_owns_execution := owns; rt_owner_gauge := if owns then 1 else 0;
     rt_ownership_task := rt_ownership_task t; rt_ready := rt_ready t |}.
Definition set_connection (c : option session) (t : runtime) : runtime :=
  {| rt_ownership := rt_ownership t; rt_owner_connection := c;
     rt_owns_execution := rt_owns_execution t; rt_owner_gauge := rt_owner_gauge t;
     rt_ownership_task := rt_ownership_task t; rt_ready := rt_ready t |}.
Definition set_task (running : bool) (t : runtime) : runtime :=
  {| rt_ownership := rt_ownership t; rt_owner_connection := rt_owner_connection t;
     rt_owns_execution := rt_owns_execution t; rt_owner_gauge := rt_owner_gauge t;
     rt_ownership_task := running; rt_ready := rt_ready t |}.

(** [self.field = value]: assignments without an [await] between them are one. *)
Definition update (f : runtime -> runtime) : prog unit := self ← perform Self; perform (SetSelf (f self)).

Section operations.
Context (is_postgres : bool).

(** *** The ownership port *)

Definition port : prog ownership :=
  self ← perform Self;
  match rt_ownership self with Some o => mret o | None => lift (raise RuntimeError #"Scheduler ownership is not configured") end.
Definition update_port (o : ownership) : prog unit := update (set_ownership o).

Definition try_acquire : prog bool :=
  o ← port;
  if negb is_postgres then update_port {| ow_connection := ow_connection o; ow_acquired := true |};; mret true
  else if ow_acquired o && (if ow_connection o is Some _ then true else false) then mret true
  else
    conn ← perform Connect;
    acquired ← try_except (perform (TryLock conn)) (on_exception (fun e => perform (Close conn);; lift (Raise e)));
    if (acquired : bool) then update_port {| ow_connection := Some conn; ow_acquired := true |};; mret true
    else
      perform (Close conn);;
      update_port {| ow_connection := ow_connection o; ow_acquired := false |};;
      mret false.

Definition probe : prog bool :=
  if negb is_postgres then mret true
  else
    o ← port;
    match ow_connection o with
    | None => mret false
    | Some conn => try_except (perform (Select1 conn);; mret true) (on_exception (fun _ => mret false))
    end.

Definition logged (p : prog unit) : prog unit := try_except p (on_exception (fun _ => mret tt)).
Definition release : prog unit :=
  o ← port;
  if negb is_postgres then update_port {| ow_connection := ow_connection o; ow_acquired := false |}
  else
    match ow_connection o with
    | Some conn => logged (perform (Unlock conn));; logged (perform (Close conn))
    | None => mret tt
    end;;
    update_port new_ownership.

(** *** The runtime *)

(** [acquire_ownership(engine)]; [engine] says whether one is given. *)
Definition acquire_ownership (engine : bool) : prog bool :=
  self ← perform Self;
  match rt_ownership self with
  | Some _ =>
      acquired ← try_acquire;
      update (set_owns acquired);;
      mret acquired
  | None =>
      if negb engine then update (set_owns true);; mret true
      else
        update (set_owns false);;
        if negb is_postgres then update (set_owns true);; mret true
        else
          connection ← perform Connect;
          acquired ← perform (TryLock connection);
          if (acquired : bool) then update (fun t => set_owns true (set_connection (Some connection) t));; mret true
          else perform (Close connection);; mret false
  end.

Definition start_ownership_monitor (engine : bool) : prog unit :=
  self ← perform Self;
  match rt_ownership self with
  | Some _ => if negb is_postgres || rt_ownership_task self then mret tt else update (set_task true)
  | None => if negb engine || negb is_postgres || rt_ownership_task self then mret tt else update (set_task true)
  end.

(** One turn of the loop of [_monitor_ownership_with_port]: every error but a cancellation is
    logged, and clears the flag and the gauge. *)
Definition _monitor_ownership_with_port : prog unit :=
  try_except
    (o ← port;
     if negb (is_acquired o) then _ ← acquire_ownership false; mret tt
     else ok ← probe; if (ok : bool) then mret tt else lift (raise RuntimeError #"probe failed"))
    (on_exception (fun _ => update (set_owns false))).

(** One turn of the loop of [_monitor_ownership]; closing the broken connection may
    raise, which ends the task. *)
Definition _monitor_ownership : prog unit :=
  try_except
    (self ← perform Self;
     match rt_owner_connection self with
     | None => _ ← acquire_ownership true; mret tt
     | Some c => perform (Select1 c)
     end)
    (on_exception (fun _ =>
       update (set_owns false);;
       self ← perform Self;
       match rt_owner_connection self with
       | Some c =>
           try_except (perform (Close c)) (fun e => Some (update (set_task false);; lift (Raise e)));;
           update (set_connection None)
       | None => mret tt
       end)).
Definition monitor : prog unit :=
  self ← perform Self;
  match rt_ownership self with Some _ => _monitor_ownership_with_port | None => _monitor_ownership end.

(** [stop()]: its tasks are cancelled first. *)
Definition stopped (t : runtime) : runtime :=
  {| rt_ownership := rt_ownership t; rt_owner_connection := rt_owner_connection t; rt_owns_execution := false;
     rt_owner_gauge := 0; rt_ownership_task := rt_ownership_task t; rt_ready := false |}.
Definition stop : prog unit :=
  update (set_task false);;
  self ← perform Self;
  match rt_ownership self, rt_owner_connection self with
  | Some _, _ => logged release
  | None, Some c =>
      logged (perform (Unlock c));;
      logged (perform (Close c));;
      update (set_connection None)
  | None, None => mret tt
  end;;
  update stopped.

Inductive operation := Acquire | StartMonitor | MonitorTurn | Stop.
#[export] Instance operation_eq_dec : EqDecision operation.
Proof. solve_decision. Defined.
Definition operate (op : operation) : prog unit :=
  match op with
  | Acquire => _ ← acquire_ownership false; mret tt
  | StartMonitor => start_ownership_monitor false
  | MonitorTurn => monitor
  | Stop => stop
  end.
End operations.

(** ** The server and the replicas together *)

(** [serves s c a s']: statement [c] may be answered [a], with this effect. A statement that is
    cancelled is one that raises. *)
Class LockServer := {
  server : Type;
  serves : server -> forall c : lock_call, res (lock_answer c) -> server -> Prop;
  (** The session that holds the lock, whether a session has ended, whether a connection to it is
      checked out. *)
  holder : server -> option session;
  ended : server -> session -> Prop;
  in_use : server -> session -> Prop }.

(** Effect of a statement on the lock: it stays, or leaves a session that ended. *)
Definition keeps_lock `{LockServer} (s s' : server) : Prop :=
  (forall c, ended s c -> ended s' c) /\
  (holder s' = holder s \/ exists c, holder s = Some c /\ holder s' = None /\ ended s' c).

Class LockLaws `{LockServer} := {
  serves_ended s c a s' d : serves s c a s' -> ended s d -> ended s' d;
  serves_in_use s c a s' d : serves s c a s' -> in_use s d -> c <> Close d -> in_use s' d;
  (** A connection that is checked out is given to nobody else until it is closed. *)
  connect_new s c s' : serves s Connect (Ok c) s' -> ~ in_use s c /\ in_use s' c;
  connect_keeps s a s' : serves s Connect a s' -> keeps_lock s s';
  try_lock_true s c s' : serves s (TryLock c) (Ok true) s' ->
    (holder s = None \/ holder s = Some c) /\ holder s' = Some c;
  try_lock_false s c s' : serves s (TryLock c) (Ok false) s' -> keeps_lock s s';
  (** The server may have given the lock although the answer was lost. *)
  try_lock_raise s c e s' : serves s (TryLock c) (Raise e) s' ->
    keeps_lock s s' \/ (holder s = None /\ holder s' = Some c);
  (** A session that took the lock twice has to give it back twice. *)
  unlock_lock s c a s' : serves s (Unlock c) a s' -> keeps_lock s s' \/ (holder s = Some c /\ holder s' = None);
  select_keeps s c a s' : serves s (Select1 c) a s' -> keeps_lock s s';
  (** Closing gives the session back to its pool, with the lock if it has it, or ends it. *)
  close_keeps s c a s' : serves s (Close c) a s' -> holder s' = holder s \/ (holder s = Some c /\ holder s' = None) }.

(** What is known of a replica besides its fields: the connections it has checked out, the one
    that got the lock and was not asked to give it back, and whether the last one was asked to. *)
Record replica := {
  rp_self : runtime; rp_conns : list session; rp_held : option session; rp_unlocked : bool }.
Definition new_replica : replica :=
  {| rp_self := new_runtime (Some new_ownership); rp_conns := []; rp_held := None; rp_unlocked := false |}.
Definition dropped (c : session) (held : option session) : option session := if decide (held = Some c) then None else held.
Definition noted (c : lock_call) : res (lock_answer c) -> replica -> replica :=
  match c with
  | SetSelf t => fun _ g => {| rp_self := t; rp_conns := rp_conns g; rp_held := rp_held g; rp_unlocked := rp_unlocked g |}
  | Connect => fun a g =>
      match a with
      | Ok c => {| rp_self := rp_self g; rp_conns := c :: rp_conns g; rp_held := rp_held g; rp_unlocked := rp_unlocked g |}
      | Raise _ => g
      end
  | TryLock c => fun a g =>
      match a with
      | Ok true => {| rp_self := rp_self g; rp_conns := rp_conns g; rp_held := Some c; rp_unlocked := false |}
      | _ => g
      end
  | Unlock c => fun _ g =>
      {| rp_self := rp_self g; rp_conns := rp_conns g; rp_held := dropped c (rp_held g); rp_unlocked := true |}
  | Close c => fun _ g =>
      {| rp_self := rp_self g; rp_conns := List.filter (fun d => bool_decide (d <> c)) (rp_conns g);
         rp_held := dropped c (rp_held g); rp_unlocked := rp_unlocked g |}
  | Self | Select1 _ => fun _ g => g
  end.

(** The connection a statement is made on. *)
Definition made_on (c : lock_call) : option session :=
  match c with TryLock c | Unlock c | Select1 c | Close c => Some c | _ => None end.
(** The answers that do not depend on the server: of the fields, and of a connection object that
    is closed. *)
Definition local_answer (c : lock_call) : res (lock_answer c) -> replica -> Prop :=
  match c with
  | Self => fun a g => a = Ok (rp_self g)
  | SetSelf _ => fun a _ => a = Ok tt
  | Connect => fun _ _ => False
  | TryLock c | Unlock c | Select1 c => fun a g => (c ∉ rp_conns g) /\ is_ok a = false
  | Close c => fun _ g => c ∉ rp_conns g
  end.
Definition is_statement (c : lock_call) (g : replica) : Prop :=
  match c with Self | SetSelf _ => False | Connect => True | TryLock c | Unlock c | Select1 c | Close c => c ∈ rp_conns g end.

Section system.
Context `{LockServer} (is_postgres : bool).

(** A replica performs one operation at a time: the monitor is started after the first attempt,
    and [stop] cancels it, which the call it waits for answers, before it releases the lock. *)
Record system := { sy_server : server; sy_replicas : list (replica * prog unit) }.

Inductive system_step : system -> system -> Prop :=
| step_begin i op s rs g r :
    rs !! i = Some (g, Done r) -> (op = MonitorTurn -> rt_ownership_task (rp_self g) = true) ->
    system_step {| sy_server := s; sy_replicas := rs |}
                {| sy_server := s; sy_replicas := <[i := (g, operate is_postgres op)]> rs |}
| step_local i s rs g c k a :
    rs !! i = Some (g, Do c k) -> local_answer c a g ->
    system_step {| sy_server := s; sy_replicas := rs |}
                {| sy_server := s; sy_replicas := <[i := (noted c a g, k a)]> rs |}
| step_serve i s s' rs g c k a :
    rs !! i = Some (g, Do c k) -> is_statement c g -> serves s c a s' ->
    system_step {| sy_server := s; sy_replicas := rs |}
                {| sy_server := s'; sy_replicas := <[i := (noted c a g, k a)]> rs |}
(** Sessions end, and others work on other connections. *)
| step_elsewhere s s' rs :
    keeps_lock s s' -> (forall i g p c, rs !! i = Some (g, p) -> c ∈ rp_conns g -> in_use s c -> in_use s' c) ->
    system_step {| sy_server := s; sy_replicas := rs |} {| sy_server := s'; sy_replicas := rs |}.

Definition initial (s : server) (n : nat) : system :=
  {| sy_server := s; sy_replicas := replicate n (new_replica, Done (Ok tt)) |}.
End system.

(** ** One replica alone *)

(** Whenever the replica owns execution, its connection got the lock and was not asked to give it
    back, or the unlocking has begun. *)
Definition steady (g : replica) : Prop :=
  exists o, rt_ownership (rp_self g) = Some o /\
    (ow_acquired o = true -> exists c, ow_connection o = Some c /\ (rp_held g = Some c \/ rp_unlocked g = true)).

(** [steady] at every call, and at the end. *)
Fixpoint steady_run {A} (p : prog A) (g : replica) (Q : res A -> replica -> Prop) : Prop :=
  steady g /\
  match p with
  | Done r => Q r g
  | Do c k => forall a, match c as c return res (lock_answer c) -> Prop with
                        | Self => fun a => a = Ok (rp_self g)
                        | SetSelf _ => fun a => a = Ok tt
                        | _ => fun _ => True
                        end a -> steady_run (k a) (noted c a g) Q
  end.

Lemma steady_now {A} (p : prog A) g Q : steady_run p g Q -> steady g.
Proof. by destruct p; intros [? _]. Qed.
Lemma steady_mono {A} (p : prog A) g (Q Q' : res A -> replica -> Prop) :
  steady_run p g Q -> (forall r g, steady g -> Q r g -> Q' r g) -> steady_run p g Q'.
Proof.
  intros Hp HQ. revert g Hp. induction p as [r|c k IH]; cbn [steady_run]; intros g [Hs Hp]; (split; [done|]); [by apply HQ|].
  intros a Ha. apply IH, Hp, Ha.
Qed.
Lemma steady_bind {A B} (p : prog A) (f : A -> prog B) g Q :
  steady_run p g (fun r g => match r with Ok a => steady_run (f a) g Q | Raise e => Q (Raise e) g end) ->
  steady_run (p ≫= f) g Q.
Proof.
  unfold mbind, prog_bind. revert g. induction p as [[a|e]|c k IH]; cbn; intros g [Hs Hp]; [done|done|].
  split; [done|]. intros a Ha. apply IH, Hp, Ha.
Qed.
Lemma steady_try {A} (p : prog A) handler g Q :
  steady_run p g (fun r g => match r with
                             | Ok a => Q (Ok a) g
                             | Raise e => match handler e with Some q => steady_run q g Q | None => Q (Raise e) g end
                             end) ->
  steady_run (try_except p handler) g Q.
Proof.
  revert g. induction p as [[a|e]|c k IH]; cbn; intros g [Hs Hp]; [done| |].
  - by destruct (handler e).
  - split; [done|]. intros a Ha. apply IH, Hp, Ha.
Qed.
Lemma steady_ret {A} (a : A) g (Q : res A -> replica -> Prop) : steady g -> Q (Ok a) g -> steady_run (mret a) g Q.
Proof. by split. Qed.
Lemma steady_lift {A} (r : res A) g (Q : res A -> replica -> Prop) : steady g -> Q r g -> steady_run (lift r) g Q.
Proof. by split. Qed.
Lemma steady_self g Q : steady g -> Q (Ok (rp_self g)) g -> steady_run (perform Self) g Q.
Proof. intros Hs HQ. split; [done|]. intros a ->. by split. Qed.
Lemma steady_update f g (Q : res unit -> replica -> Prop) :
  steady g -> steady (noted (SetSelf (f (rp_self g))) (Ok tt) g) -> Q (Ok tt) (noted (SetSelf (f (rp_self g))) (Ok tt) g) ->
  steady_run (update f) g Q.
Proof.
  intros Hs Hs' HQ. apply steady_bind, steady_self; [done|]. split; [done|]. intros a ->. by split.
Qed.
(** A call that leaves the fields as they are. *)
Lemma steady_call c g (Q : res (lock_answer c) -> replica -> Prop) : steady g ->
  match c with Self | SetSelf _ => False | _ => True end ->
  (forall a, steady (noted c a g) -> Q a (noted c a g)) -> (forall a, steady (noted c a g)) -> steady_run (perform c) g Q.
Proof. intros Hs Hc HQ Hn. split; [done|]. intros a _. split; [apply Hn|]. by apply HQ. Qed.

(** Without ownership, or once the unlocking has begun, no statement matters. *)
Lemma steady_idle g o : rt_ownership (rp_self g) = Some o -> ow_acquired o = false -> steady g.
Proof. intros Ho Ha. exists o. split; [done|]. by rewrite Ha. Qed.
Lemma noted_self c a g : match c with SetSelf _ => False | _ => True end -> rp_self (noted c a g) = rp_self g.
Proof. destruct c; try done; cbn; intros _; by repeat case_match. Qed.
Lemma steady_unlocked g g' : steady g -> rp_self g' = rp_self g -> rp_unlocked g' = true -> steady g'.
Proof. intros (o & Ho & Ha) Hs Hu. exists o. rewrite Hs. split; [done|]. intros (c & Hc & _)%Ha. exists c. by auto. Qed.
Lemma steady_same g g' : steady g -> rt_ownership (rp_self g') = rt_ownership (rp_self g) -> rp_held g' = rp_held g ->
  rp_unlocked g' = rp_unlocked g -> steady g'.
Proof. intros (o & Ho & Ha) Hs Hh Hu. exists o. by rewrite Hs, Hh, Hu. Qed.

Section trees.
#[local] Arguments steady_run : simpl never.
#[local] Arguments noted : simpl never.
Local Abbreviation run := (fun p g => steady_run p g (fun _ _ => True)).

Lemma steady_port g (Q : res ownership -> replica -> Prop) :
  steady g -> (forall o, rt_ownership (rp_self g) = Some o -> Q (Ok o) g) -> steady_run port g Q.
Proof.
  intros Hs HQ. pose proof Hs as (o & Ho & _). apply steady_bind, steady_self; [done|]. rewrite Ho.
  apply steady_ret; [done|]. by apply HQ.
Qed.
(** While it does not own execution, a replica may make any call. *)
Lemma steady_free {A} c (k : res (lock_answer c) -> prog A) g o Q :
  rt_ownership (rp_self g) = Some o -> ow_acquired o = false -> match c with Self | SetSelf _ => False | _ => True end ->
  (forall a, rt_ownership (rp_self (noted c a g)) = Some o -> steady_run (k a) (noted c a g) Q) -> steady_run (Do c k) g Q.
Proof.
  intros Ho Ha Hc Hk. split; [by eapply steady_idle|]. intros a _. apply Hk. by rewrite noted_self by by destruct c.
Qed.

Lemma steady_try_acquire g : steady g -> run (try_acquire true) g.
Proof.
  intros Hs. unfold try_acquire. apply steady_bind, steady_port; [done|]. intros o Ho. cbn [negb].
  destruct (ow_acquired o && _) eqn:Eacq; [by apply steady_ret|].
  assert (ow_acquired o = false) as Ha.
  { destruct (ow_acquired o) eqn:Ea; [|done]. pose proof Hs as (o' & Ho' & Hc). rewrite Ho in Ho'. injection Ho' as <-.
    destruct (Hc Ea) as (c & Hconn & _). by rewrite Hconn in Eacq. }
  assert (forall g' o', rt_ownership (rp_self g') = Some o -> ow_acquired o' = false ->
    steady_run (update_port o' ;; mret false) g' (fun _ _ => True)) as Hlost.
  { intros g' o' Ho' Hf. apply steady_bind, steady_update; [by eapply steady_idle|by eapply steady_idle|].
    apply steady_ret; [by eapply steady_idle|done]. }
  apply (steady_free _ _ _ o); [done..|]. intros [conn|e] Ho1; [|split; [by eapply steady_idle|done]]. cbn [res_bind].
  apply (steady_free _ _ _ o); [done..|]. intros [[]|e] Ho2.
  - apply steady_bind, steady_update; [by eapply steady_idle| |apply steady_ret; [|done]].
    all: eexists; (split; [done|]); intros _; exists conn; split; [done|by left].
  - cbn. apply (steady_free _ _ _ o); [done..|]. intros [[]|e] Ho3; [by apply Hlost|split; [by eapply steady_idle|done]].
  - cbn. unfold on_exception. destruct (isinstance (exn_type e) Exception_); [|split; [by eapply steady_idle|done]].
    cbn. apply (steady_free _ _ _ o); [done..|]. intros [[]|e'] Ho3; (split; [by eapply steady_idle|done]).
Qed.

Lemma steady_fields f g (Q : res unit -> replica -> Prop) :
  (forall t, rt_ownership (f t) = rt_ownership t) -> steady g -> (forall g', steady g' -> Q (Ok tt) g') -> steady_run (update f) g Q.
Proof.
  intros Hf Hs HQ. assert (steady (noted (SetSelf (f (rp_self g))) (Ok tt) g)) as Hs' by (eapply steady_same; [exact Hs|apply Hf|done..]).
  apply steady_update; [done|done|]. by apply HQ.
Qed.

Lemma steady_acquire g : steady g -> run (acquire_ownership true false) g.
Proof.
  intros Hs. unfold acquire_ownership. apply steady_bind, steady_self; [done|]. pose proof Hs as (o & -> & _).
  apply steady_bind. eapply steady_mono; [by apply steady_try_acquire|]. intros [acquired|e] g' Hs' _; [|done].
  apply steady_bind, steady_fields; [done|done|]. intros g2 Hs2. by apply steady_ret.
Qed.
Lemma steady_quiet g (Q : res unit -> replica -> Prop) (p : prog unit) : steady_run p g (fun _ _ => True) ->
  (forall r g', steady g' -> Q r g') -> steady_run p g Q.
Proof. intros Hp HQ. eapply steady_mono; [exact Hp|]. intros r g' Hs _. by apply HQ. Qed.

Lemma steady_probe g : steady g -> run (probe true) g.
Proof.
  intros Hs. unfold probe. cbn [negb]. apply steady_bind, steady_port; [done|]. intros o _.
  destruct (ow_connection o) as [c|]; [|by apply steady_ret].
  split; [done|]. intros [[]|e] _; cbn; [done|]. unfold on_exception. by destruct (isinstance _ _).
Qed.
Lemma steady_monitor g : steady g -> run (monitor true) g.
Proof.
  intros Hs. unfold monitor. apply steady_bind, steady_self; [done|]. pose proof Hs as (o & -> & _).
  apply steady_try. apply (steady_mono _ _ (fun _ _ => True)).
  - apply steady_bind, steady_port; [done|]. intros o' _. destruct (is_acquired o'); cbn [negb].
    + apply steady_bind. eapply steady_mono; [by apply steady_probe|]. intros [[]|e] g' Hs' _; [by apply steady_ret|by apply steady_lift|done].
    + apply steady_bind. eapply steady_mono; [by apply steady_acquire|]. intros [b|e] g' Hs' _; [|done].
      by apply steady_ret.
  - intros [[]|e] g' Hs' _; [done|]. unfold on_exception. destruct (isinstance _ _); [|done]. by apply steady_fields.
Qed.

(** Once it was asked to unlock, the rest of the release keeps the replica steady. *)
Lemma steady_release g : steady g -> run (release true) g.
Proof.
  intros Hs. unfold release. apply steady_bind, steady_port; [done|]. intros o Ho. cbn [negb].
  assert (forall g', (exists o', rt_ownership (rp_self g') = Some o') -> steady g' ->
    steady_run (update_port new_ownership) g' (fun _ _ => True)) as Hdone.
  { intros g' _ Hs'. apply steady_update; [done|by eapply steady_idle|done]. }
  apply steady_bind. destruct (ow_connection o) as [c|]; [|apply steady_ret; [done|]; apply Hdone; [by eauto|done]].
  split; [done|]. intros a _. set (g1 := noted (Unlock c) a g). assert (steady g1) as Hs1 by by eapply steady_unlocked.
  assert (steady_run (logged (perform (Close c))) g1 (fun r g => match r with
      | Ok _ => steady_run (update_port new_ownership) g (fun _ _ => True) | Raise _ => True end)) as Hsplit.
  { split; [done|]. intros a' _. set (g2 := noted (Close c) a' g1). assert (steady g2) as Hs2 by by eapply steady_unlocked.
    destruct a' as [[]|e]; [split; [done|]; apply Hdone; [by eauto|done]|]. cbn. unfold on_exception.
    destruct (isinstance _ _); (split; [done|]); [apply Hdone; [by eauto|done]|done]. }
  destruct a as [[]|e]; [exact Hsplit|]. cbn. unfold on_exception. destruct (isinstance _ _); [exact Hsplit|by split].
Qed.
Lemma steady_stop g : steady g -> run (stop true) g.
Proof.
  intros Hs. unfold stop. apply steady_bind, steady_fields; [done|done|]. intros g1 Hs1.
  apply steady_bind, steady_self; [done|]. pose proof Hs1 as (o & -> & _).
  apply steady_bind, steady_try. eapply steady_quiet; [by apply steady_release|]. intros [[]|e] g2 Hs2; cbn.
  - by apply steady_fields.
  - unfold on_exception. destruct (isinstance _ _); [|done]. apply steady_ret; [done|]. by apply steady_fields.
Qed.
Lemma steady_operate op g : steady g -> run (operate true op) g.
Proof.
  intros Hs. destruct op; cbn [operate].
  - apply steady_bind. eapply steady_mono; [by apply steady_acquire|]. intros [b|e] g' Hs' _; [|done].
    by apply steady_ret.
  - unfold start_ownership_monitor. apply steady_bind, steady_self; [done|]. pose proof Hs as (o & Ho & _). rewrite Ho. cbn [negb orb].
    destruct (rt_ownership_task _); [by apply steady_ret|]. by apply steady_fields.
  - by apply steady_monitor.
  - by apply steady_stop.
Qed.
End trees.

(** ** All replicas *)

Section invariant.
Context `{LockLaws}.

(** A session that held the lock holds it still, or has ended. *)
Definition holds_or_ended (s : server) (c : session) : Prop := holder s = Some c \/ ended s c.

Lemma keeps_holds s s' c : keeps_lock s s' -> holds_or_ended s c -> holds_or_ended s' c.
Proof.
  intros [He Hl] [Hc|Hc]; [|right; auto]. destruct Hl as [Hl|(d & Hd & _ & Hd')].
  - left. by rewrite Hl.
  - right. by simplify_eq.
Qed.
(** Only giving it back takes the lock from a session that lives. *)
Lemma holds_step s c a s' d : is_statement c {| rp_self := new_runtime None; rp_conns := option_list (made_on c); rp_held := None; rp_unlocked := false |} ->
  serves s c a s' -> holds_or_ended s d -> c <> Unlock d -> c <> Close d -> holds_or_ended s' d.
Proof.
  intros Hst Hs Hd Hu Hc. destruct Hd as [Hd|Hd]; [|right; by eapply serves_ended].
  assert (holds_or_ended s d) as Hold by by left.
  destruct c as [|t| |e|e|e|e]; try done.
  - eapply keeps_holds; [by eapply connect_keeps|done].
  - destruct a as [[]|x].
    + apply try_lock_true in Hs as [[Hn|Hn] Hh]; [congruence|]. left. congruence.
    + eapply keeps_holds; [by eapply try_lock_false|done].
    + apply try_lock_raise in Hs as [Hk|[Hn _]]; [by eapply keeps_holds|congruence].
  - apply unlock_lock in Hs as [Hk|[Hn _]]; [by eapply keeps_holds|congruence].
  - eapply keeps_holds; [by eapply select_keeps|done].
  - apply close_keeps in Hs as [Hk|[Hn _]]; [left; congruence|congruence].
Qed.

(** What is known of a replica is true of the server. *)
Definition linked (s : server) (g : replica) : Prop :=
  (forall c, c ∈ rp_conns g -> in_use s c) /\
  (forall c, rp_held g = Some c -> c ∈ rp_conns g /\ holds_or_ended s c).

Lemma statement_plain c g : is_statement c g ->
  is_statement c {| rp_self := new_runtime None; rp_conns := option_list (made_on c); rp_held := None; rp_unlocked := false |}.
Proof. destruct c; try done; intros _; by apply list_elem_of_singleton. Qed.
Lemma elem_others c d (l : list session) : d ∈ List.filter (fun d => bool_decide (d <> c)) l <-> d ∈ l /\ d <> c.
Proof. by rewrite list_elem_of_In, filter_In, bool_decide_eq_true, <- list_elem_of_In. Qed.
Lemma dropped_some c held d : dropped c held = Some d -> held = Some d /\ d <> c.
Proof. unfold dropped. case_decide as E; [done|]. intros ->. split; [done|]. congruence. Qed.

Lemma linked_local s c a g : linked s g -> local_answer c a g -> linked s (noted c a g).
Proof.
  intros [Hu Hh] Ha. destruct c as [|t| |d|d|d|d]; cbn in *; try done.
  - destruct Ha as [_ Ha]. by destruct a as [[]|].
  - split; [done|]. intros c [Hc _]%dropped_some. by apply Hh.
  - split.
    + intros c [Hc _]%elem_others. by apply Hu.
    + intros c [[Hc Hh']%Hh Hne]%dropped_some. split; [by apply elem_others|done].
Qed.
Lemma linked_own s c a s' g : linked s g -> is_statement c g -> serves s c a s' -> linked s' (noted c a g).
Proof.
  intros [Hu Hh] Hst Hs. pose proof (statement_plain _ _ Hst) as Hst'.
  assert (forall d, c <> Unlock d -> c <> Close d -> rp_held g = Some d -> d ∈ rp_conns g /\ holds_or_ended s' d) as Hheld.
  { intros d H1 H2 Hd. destruct (Hh d Hd) as [Hin Hd']. split; [done|]. by eapply holds_step. }
  assert (forall d, c <> Close d -> d ∈ rp_conns g -> in_use s' d) as Huse by (intros d Hne Hd; eapply serves_in_use; [exact Hs|by apply Hu|done]).
  destruct c as [|t| |d|d|d|d]; cbn in *; try done.
  - destruct a as [d|e]; [|by split; auto]. destruct (connect_new _ _ _ Hs) as [_ Hnew]. split; cbn.
    + intros c [->|Hc]%elem_of_cons; [done|by apply Huse].
    + intros c Hc. destruct (Hheld c) as [Hin ?]; try done. split; [by right|done].
  - destruct a as [[]|e]; try (by split; auto). split; [by auto|]. cbn. intros c [= <-]. split; [done|]. left.
    by eapply try_lock_true.
  - split; [by auto|]. cbn. intros c [Hc Hne]%dropped_some. apply Hheld; congruence.
  - split; by auto.
  - split; cbn.
    + intros c [Hc Hne]%elem_others. apply Huse; congruence.
    + intros c [Hc Hne]%dropped_some. destruct (Hheld c) as [Hin ?]; try congruence. split; [by apply elem_others|done].
Qed.
Lemma linked_other s c a s' g g' : linked s g' -> is_statement c g -> serves s c a s' ->
  (forall d, d ∈ rp_conns g -> d ∉ rp_conns g') -> linked s' g'.
Proof.
  intros [Hu Hh] Hst Hs Hdis. pose proof (statement_plain _ _ Hst) as Hst'. split.
  - intros d Hd. eapply serves_in_use; [exact Hs|by apply Hu|]. intros ->. by apply (Hdis d).
  - intros d Hd. destruct (Hh d Hd) as [Hin Hd']. split; [done|]. eapply holds_step; [done..| |]; intros ->; by apply (Hdis d).
Qed.

(** No two replicas have the same connection, and each keeps what its operation needs. *)
Record system_ok (sy : system) : Prop := {
  so_linked i g p : sy_replicas sy !! i = Some (g, p) -> linked (sy_server sy) g;
  so_steady i g p : sy_replicas sy !! i = Some (g, p) -> steady_run p g (fun _ _ => True);
  so_distinct i j g g' p p' c : i <> j -> sy_replicas sy !! i = Some (g, p) -> sy_replicas sy !! j = Some (g', p') ->
    c ∈ rp_conns g -> c ∉ rp_conns g' }.

Lemma system_ok_insert s s' rs i g p g' p' :
  system_ok {| sy_server := s; sy_replicas := rs |} -> rs !! i = Some (g, p) ->
  linked s' g' -> steady_run p' g' (fun _ _ => True) ->
  (forall j h q, j <> i -> rs !! j = Some (h, q) -> linked s' h) ->
  (forall c, c ∈ rp_conns g' -> c ∈ rp_conns g \/ forall j h q, j <> i -> rs !! j = Some (h, q) -> c ∉ rp_conns h) ->
  system_ok {| sy_server := s'; sy_replicas := <[i := (g', p')]> rs |}.
Proof.
  intros Hok Hi Hl Hs Hothers Hnew. split; cbn.
  - intros j h q [[-> [[= <- <-] _]]|[Hj Hq]]%list_lookup_insert_Some; [done|]. by eapply Hothers.
  - intros j h q [[-> [[= <- <-] _]]|[Hj Hq]]%list_lookup_insert_Some; [done|]. by eapply (so_steady _ Hok).
  - intros j k h h' q q' c Hne [[-> [[= <- <-] _]]|[Hj Hq]]%list_lookup_insert_Some
      [[-> [[= <- <-] _]]|[Hk Hq']]%list_lookup_insert_Some Hc; [done|..].
    + destruct (Hnew c Hc) as [Hc'|Hc']; [by eapply (so_distinct _ Hok j k)|by eapply Hc'].
    + intros Hc'. destruct (Hnew c Hc') as [Hc2|Hc2]; [by eapply (so_distinct _ Hok k j)|by eapply Hc2].
    + by eapply (so_distinct _ Hok j k).
Qed.
Lemma noted_conns c a g d : d ∈ rp_conns (noted c a g) -> d ∈ rp_conns g \/ existT c a = existT Connect (Ok d) :> event.
Proof.
  destruct c; cbn; try (by left).
  - destruct a as [e|]; [|by left]. intros [->|?]%elem_of_cons; [by right|by left].
  - destruct a as [[]|]; by left.
  - intros [? _]%elem_others. by left.
Qed.
Lemma steady_answer {A} c (k : res (lock_answer c) -> prog A) g Q a : steady_run (Do c k) g Q ->
  local_answer c a g \/ is_statement c g -> steady_run (k a) (noted c a g) Q.
Proof. intros [_ Hk] Ha. apply Hk. destruct c; try done; by destruct Ha. Qed.

Lemma system_ok_step sy sy' : system_step true sy sy' -> system_ok sy -> system_ok sy'.
Proof.
  intros Hst Hok. destruct Hst as [i op s rs g r Hi _|i s rs g c k a Hi Ha|i s s' rs g c k a Hi Hst Hs|s s' rs Hk Huse].
  - pose proof (so_linked _ Hok _ _ _ Hi) as Hl. pose proof (so_steady _ Hok _ _ _ Hi) as Hrun.
    eapply system_ok_insert; [exact Hok|exact Hi|done|eapply steady_operate, steady_now, Hrun|..].
    + intros j h q _ Hj. by eapply (so_linked _ Hok).
    + intros c Hc. by left.
  - pose proof (so_linked _ Hok _ _ _ Hi) as Hl. pose proof (so_steady _ Hok _ _ _ Hi) as Hrun.
    eapply system_ok_insert; [exact Hok|exact Hi|by eapply linked_local|eapply steady_answer; [exact Hrun|by left]|..].
    + intros j h q _ Hj. by eapply (so_linked _ Hok).
    + intros d [Hd|Hd]%noted_conns; [by left|]. assert (c = Connect) as -> by exact (f_equal called Hd). done.
  - pose proof (so_linked _ Hok _ _ _ Hi) as Hl. pose proof (so_steady _ Hok _ _ _ Hi) as Hrun. cbn in Hl.
    assert (forall j h q, j <> i -> rs !! j = Some (h, q) -> linked s h /\ forall d, d ∈ rp_conns g -> d ∉ rp_conns h) as Hoth.
    { intros j h q Hne Hj. split; [by eapply (so_linked _ Hok)|]. intros d Hd. by eapply (so_distinct _ Hok i j); [congruence|..]. }
    eapply system_ok_insert; [exact Hok|exact Hi|by eapply linked_own|eapply steady_answer; [exact Hrun|by right]|..].
    + intros j h q Hne Hj. destruct (Hoth j h q Hne Hj) as [Hlh Hdis]. by eapply linked_other.
    + intros d [Hd|Hd]%noted_conns; [by left|]. right. intros j h q Hne Hj.
      assert (c = Connect) as -> by exact (f_equal called Hd).
      assert (a = Ok d) as ->.
      { pose proof (f_equal (fun ev : event => let 'existT c a := ev in
          match c return res (lock_answer c) -> option session with Connect => fun a => match a with Ok x => Some x | Raise _ => None end | _ => fun _ => None end a) Hd) as E.
        cbn in E. destruct a; [by injection E as ->|done]. }
      destruct (Hoth j h q Hne Hj) as [[Hu _] _]. intros Hin. by apply (connect_new _ _ _ Hs), Hu.
  - split; cbn.
    + intros i g p Hi. destruct (so_linked _ Hok _ _ _ Hi) as [Hu Hh]. split.
      * intros c Hc. by eapply Huse; [| |apply Hu].
      * intros c Hc. destruct (Hh c Hc) as [Hin Hd]. split; [done|]. by eapply keeps_holds.
    + apply (so_steady _ Hok).
    + apply (so_distinct _ Hok).
Qed.

Lemma initial_ok s n : system_ok (initial s n).
Proof.
  split; cbn.
  - intros i g p [[= -> ->] _]%lookup_replicate. split; [by intros c ?%elem_of_nil|done].
  - intros i g p [[= -> ->] _]%lookup_replicate. split; [|done]. by eapply steady_idle.
  - intros i j g g' p p' c _ [[= -> ->] _]%lookup_replicate _ Hc. by apply elem_of_nil in Hc.
Qed.
Lemma reached_ok s n sy : rtc (system_step true) (initial s n) sy -> system_ok sy.
Proof.
  intros Hr. pose proof (initial_ok s n) as Hs. revert Hr Hs. generalize (initial s n). intros sy0 Hr.
  induction Hr as [|sy1 sy2 sy3 H12 _ IH]; [done|]. intros H1. apply IH. by eapply system_ok_step.
Qed.

Definition held_by (t : runtime) : option session := o ← rt_ownership t; ow_connection o.

(** C7: on PostgreSQL, with the ownership port, however the calls of the replicas interleave
    while each acquires, monitors, releases and stops, one operation after the other, and
    whatever the statements answer: two replicas own scheduled execution at once only if the
    database session of one of them has ended, or one of them has already asked to unlock and
    its release has not cleared the flag - because it still closes its connection, or was
    cancelled there. *)
Theorem scheduler_single_owner (n : nat) (s0 : server) (sy : system) (i j : nat) (g h : replica) (p q : prog unit) :
  rtc (system_step true) (initial s0 n) sy -> i <> j ->
  sy_replicas sy !! i = Some (g, p) -> sy_replicas sy !! j = Some (h, q) ->
  owns_execution (rp_self g) = true -> owns_execution (rp_self h) = true ->
  (exists c, ended (sy_server sy) c /\ (held_by (rp_self g) = Some c \/ held_by (rp_self h) = Some c))
  \/ rp_unlocked g = true \/ rp_unlocked h = true.
Proof.
  intros Hr Hij Hi Hj Hg Hh. apply reached_ok in Hr as Hok.
  assert (forall k r x, sy_replicas sy !! k = Some (r, x) -> owns_execution (rp_self r) = true ->
    rp_unlocked r = true \/ exists c, held_by (rp_self r) = Some c /\ c ∈ rp_conns r /\ holds_or_ended (sy_server sy) c) as Hown.
  { intros k r x Hk Ho. destruct (steady_now _ _ _ (so_steady _ Hok _ _ _ Hk)) as (o & Eo & Ha).
    unfold owns_execution in Ho. rewrite Eo in Ho. destruct (Ha Ho) as (c & Hc & [Hheld|Hun]); [|by left]. right.
    exists c. destruct (so_linked _ Hok _ _ _ Hk) as [_ Hl]. destruct (Hl c Hheld) as [Hin Hhe]. split; [|done].
    unfold held_by. by rewrite Eo. }
  destruct (Hown i g p Hi Hg) as [?|(c & Hc & Hcin & [Hhc|Hec])]; [by right; left| |by left; exists c; auto].
  destruct (Hown j h q Hj Hh) as [?|(d & Hd & Hdin & [Hhd|Hed])]; [by right; right| |by left; exists d; auto].
  simplify_eq. by destruct (so_distinct _ Hok i j g h p q c Hij Hi Hj Hcin).
Qed.
End invariant.

(** ** A server, to run the replicas against *)

Record pg := { pg_open : list session; pg_pool : list session; pg_holder : option session; pg_ended : list session }.
Definition mem (c : session) (l : list session) : bool := bool_decide (c ∈ l).
(** A connection of the pool that nobody has checked out and that lives, or a new one. *)
Definition next_session (s : pg) : session :=
  match List.find (fun c => negb (mem c (pg_open s)) && negb (mem c (pg_ended s))) (pg_pool s) with
  | Some c => c
  | None => N.succ (fold_right N.max 0%N (pg_open s ++ pg_pool s ++ pg_ended s))
  end.
Definition with_holder (h : option session) (s : pg) : pg :=
  {| pg_open := pg_open s; pg_pool := pg_pool s; pg_holder := h; pg_ended := pg_ended s |}.
Definition broken : exn := Exn OSError #"the connection was closed".
Definition pg_serve (s : pg) (c : lock_call) : res (lock_answer c) * pg :=
  match c with
  | Connect =>
      let c := next_session s in
      (Ok c, {| pg_open := c :: pg_open s; pg_pool := pg_pool s; pg_holder := pg_holder s; pg_ended := pg_ended s |})
  | TryLock c =>
      if mem c (pg_ended s) then (Raise broken, s)
      else match pg_holder s with
           | Some h => (Ok (bool_decide (h = c)), s)
           | None => (Ok true, with_holder (Some c) s)
           end
  | Unlock c =>
      if mem c (pg_ended s) then (Raise broken, s)
      else (Ok tt, if bool_decide (pg_holder s = Some c) then with_holder None s else s)
  | Select1 c => (if mem c (pg_ended s) then Raise broken else Ok tt, s)
  | Close c =>
      (Ok tt, {| pg_open := List.filter (fun d => bool_decide (d <> c)) (pg_open s); pg_pool := c :: pg_pool s;
                 pg_holder := pg_holder s; pg_ended := pg_ended s |})
  | Self | SetSelf _ => (Raise broken, s)
  end.
Definition pg_lose (c : session) (s : pg) : pg :=
  {| pg_open := pg_open s; pg_pool := pg_pool s;
     pg_holder := if bool_decide (pg_holder s = Some c) then None else pg_holder s; pg_ended := c :: pg_ended s |}.

#[export] Instance pg_server : LockServer := {|
  server := pg; serves s c a s' := pg_serve s c = (a, s'); holder := pg_holder;
  ended s c := c ∈ pg_ended s; in_use s c := c ∈ pg_open s |}.

Lemma max_above (l : list N) c : c ∈ l -> (c <= fold_right N.max 0 l)%N.
Proof. induction 1 as [|? ? ? ? IH]; cbn; lia. Qed.
Lemma next_session_free s : next_session s ∉ pg_open s.
Proof.
  unfold next_session. destruct (List.find _ _) as [c|] eqn:E.
  - apply find_some in E as [_ [Hc _]%andb_true_iff]. unfold mem in Hc. by rewrite negb_true_iff, bool_decide_eq_false in Hc.
  - intros Hin. pose proof (max_above (pg_open s ++ pg_pool s ++ pg_ended s) _ ltac:(apply elem_of_app; left; exact Hin)). lia.
Qed.
#[export] Instance pg_laws : LockLaws.
Proof.
  split; unfold serves, keeps_lock; cbn.
  - intros s c a s' d Hs Hd. destruct c; cbn in Hs; repeat case_match; simplify_eq; done.
  - intros s c a s' d Hs Hd Hne. destruct c; cbn in Hs; repeat case_match; simplify_eq; cbn; try done; [by right|].
    apply elem_others. split; [done|]. congruence.
  - intros s c s' [= <- <-]. split; [apply next_session_free|by left].
  - intros s a s' [= <- <-]. split; [done|by left].
  - intros s c s' Hs. repeat case_match; simplify_eq; [|split; [by left|done]].
    match goal with E : bool_decide _ = true |- _ => apply bool_decide_eq_true in E as -> end. auto.
  - intros s c s' Hs. repeat case_match; simplify_eq. split; [done|by left].
  - intros s c e s' Hs. left. repeat case_match; simplify_eq. split; [done|by left].
  - intros s c a s' Hs. repeat case_match; simplify_eq; [left; split; [done|by left]| |left; split; [done|by left]].
    right. match goal with E : bool_decide _ = true |- _ => by apply bool_decide_eq_true in E end.
  - intros s c a s' [= <- <-]. split; [done|by left].
  - intros s c a s' [= <- <-]. by left.
Qed.

(** What happens next: a replica begins an operation, its call is answered, a session ends. *)
Inductive action := Begin (i : nat) (op : operation) | Turn (i : nat) | Lose (c : session).
Definition turn (c : lock_call) (g : replica) (s : pg) : res (lock_answer c) * pg :=
  match c with
  | Self => (Ok (rp_self g), s)
  | SetSelf t => (Ok tt, s)
  | Connect => pg_serve s Connect
  | TryLock d => if mem d (rp_conns g) then pg_serve s (TryLock d) else (Raise broken, s)
  | Unlock d => if mem d (rp_conns g) then pg_serve s (Unlock d) else (Raise broken, s)
  | Select1 d => if mem d (rp_conns g) then pg_serve s (Select1 d) else (Raise broken, s)
  | Close d => if mem d (rp_conns g) then pg_serve s (Close d) else (Ok tt, s)
  end.
Definition do_action (sy : system) (a : action) : system :=
  let s := sy_server sy in let rs := sy_replicas sy in
  match a with
  | Begin i op =>
      match rs !! i with
      | Some (g, Done _) =>
          if bool_decide (op = MonitorTurn) && negb (rt_ownership_task (rp_self g)) then sy
          else {| sy_server := s; sy_replicas := <[i := (g, operate true op)]> rs |}
      | _ => sy
      end
  | Turn i =>
      match rs !! i with
      | Some (g, Do c k) =>
          let '(a, s') := turn c g s in {| sy_server := s'; sy_replicas := <[i := (noted c a g, k a)]> rs |}
      | _ => sy
      end
  | Lose c => {| sy_server := pg_lose c s; sy_replicas := rs |}
  end.

Lemma pg_lose_keeps c s : keeps_lock s (pg_lose c s).
Proof.
  split; cbn; [by right|]. case_bool_decide as E; [|by left]. right. exists c. split; [done|]. split; [done|by left].
Qed.
Lemma turn_sound c g s a s' : turn c g s = (a, s') -> (local_answer c a g /\ s' = s) \/ (is_statement c g /\ serves s c a s').
Proof.
  unfold turn, mem. destruct c; cbn; intros Ht; try case_bool_decide; try (right; by split); left; by injection Ht as <- <-.
Qed.
Lemma do_action_sound sy a : rtc (system_step true) sy (do_action sy a).
Proof.
  destruct sy as [s rs]. destruct a as [i op|i|c]; cbn.
  - destruct (rs !! i) as [[g [r|c k]]|] eqn:E; try apply rtc_refl. destruct (_ && _) eqn:Eop; [apply rtc_refl|].
    eapply rtc_once, step_begin; [exact E|]. intros ->. rewrite bool_decide_eq_true_2 in Eop by done. by apply negb_false_iff in Eop.
  - destruct (rs !! i) as [[g [r|c k]]|] eqn:E; try apply rtc_refl. destruct (turn c g s) as [a s'] eqn:Et. apply rtc_once.
    destruct (turn_sound _ _ _ _ _ Et) as [[Ha ->]|[Hst Hs]]; [by eapply step_local|by eapply step_serve].
  - apply rtc_once, step_elsewhere; [apply pg_lose_keeps|done].
Qed.
Definition actions : list action -> system -> system := fold_left do_action.
Lemma actions_sound l sy : rtc (system_step true) sy (actions l sy).
Proof. revert sy. induction l as [|a l IH]; intros sy; [apply rtc_refl|]. etrans; [apply do_action_sound|apply IH]. Qed.

Definition two_replicas : system := initial {| pg_open := []; pg_pool := []; pg_holder := None; pg_ended := [] |} 2.
(** The session of the owner ends, and the other replica gets the lock. *)
Definition session_lost : list action :=
  Begin 0 Acquire :: replicate 12 (Turn 0) ++ Lose 1%N :: Begin 1 Acquire :: replicate 12 (Turn 1).
(** The owner stops; when it has unlocked, the other replica gets the lock. *)
Definition while_releasing : list action :=
  Begin 0 Acquire :: replicate 12 (Turn 0) ++ Begin 0 Stop :: replicate 6 (Turn 0) ++ Begin 1 Acquire :: replicate 12 (Turn 1).
Definition nth_replica (sy : system) (i : nat) : replica := default new_replica (fst <$> sy_replicas sy !! i).

Lemma scheduler_single_owner_witness :
  let lost := actions session_lost two_replicas in let releasing := actions while_releasing two_replicas in
  (ended (sy_server lost) 1%N /\ rp_unlocked (nth_replica lost 0) = false /\ rp_unlocked (nth_replica lost 1) = false /\
   ((exists c, ended (sy_server lost) c /\ (held_by (rp_self (nth_replica lost 0)) = Some c \/ held_by (rp_self (nth_replica lost 1)) = Some c))
    \/ rp_unlocked (nth_replica lost 0) = true \/ rp_unlocked (nth_replica lost 1) = true)) /\
  (pg_ended (sy_server releasing) = [] /\ rp_unlocked (nth_replica releasing 1) = false /\
   ((exists c, ended (sy_server releasing) c /\ (held_by (rp_self (nth_replica releasing 0)) = Some c \/ held_by (rp_self (nth_replica releasing 1)) = Some c))
    \/ rp_unlocked (nth_replica releasing 0) = true \/ rp_unlocked (nth_replica releasing 1) = true)).
Proof.
  intros lost releasing. split.
  - split; [vm_compute; left|]. split; [vm_compute; reflexivity|]. split; [vm_compute; reflexivity|].
    apply (scheduler_single_owner 2 _ lost 0 1 (nth_replica lost 0) (nth_replica lost 1) (Done (Ok tt)) (Done (Ok tt)) (actions_sound _ _));
      [discriminate|vm_compute; reflexivity..].
  - split; [vm_compute; reflexivity|]. split; [vm_compute; reflexivity|].
    eapply (scheduler_single_owner 2 _ releasing 0 1 (nth_replica releasing 0) (nth_replica releasing 1) _ _ (actions_sound _ _));
      [discriminate|vm_compute; reflexivity..].
Defined.
