(* ===== verification/Schedule.v ===== *)
(** * Schedules: desired state, runtime projection, reconciliation

    [app/application/services/schedule_management.py], [schedule_reconciliation.py],
    [schedule_restorer.py] and [scheduled_script_executor.py] over the gateway of
    [app/adapters/persistence/schedule.py] and the job operations of
    [app/adapters/runtime/scheduler.py] and [apscheduler_runtime.py].  The services are
    call trees; the gateway and the job store are the handler they run against.  The
    table of schedules is the map of its committed rows by script (the column is
    unique) and carries the CHECK constraint of [app/models/script_schedule.py].  Cron
    expressions and the job store's refusals are parameters. *)
From S2P Require Import Prelude PyStr Errors Json Effects Stable Stateful Dto.
From stdpp Require Import gmap.

(** ** Data *)

Record ScheduleRequestDTO := {
  sr_cron : pystr; sr_node_ids : list uuid; sr_params : jobject; sr_timezone : pystr;
  sr_misfire_grace_seconds : Z }.
(** A row, and the view of it ([_to_view] copies field by field).  Node ids and
    parameters are kept as values, not as the JSON text they are stored in. *)
Record ScheduleViewDTO := {
  sv_id : uuid; sv_script_id : uuid; sv_cron : pystr; sv_timezone : pystr; sv_node_ids : list uuid;
  sv_params : jobject; sv_enabled : bool; sv_misfire_grace_seconds : Z; sv_operational_state : pystr;
  sv_last_error_type : option pystr; sv_last_run_at : option Z; sv_last_success_at : option Z;
  sv_last_failure_at : option Z; sv_next_run_at : option Z }.
Record RuntimeScheduleDTO := {
  rj_schedule_id : uuid; rj_script_id : uuid; rj_cron : pystr; rj_timezone : pystr;
  rj_node_ids : list uuid; rj_params : jobject; rj_misfire_grace_seconds : Z }.
Record RuntimeJobViewDTO := { jv_script_id : uuid; jv_next_run_at : option Z }.
Record ScheduleReconciliationResultDTO := { rc_restored : Z; rc_failed : Z }.

(** ** Ports *)

Inductive schedule_call :=
| GetScript (script_id : uuid)
| GetNode (node_id : uuid)
| Validate (cron timezone : pystr)
| UpsertSchedule (script_id : uuid) (data : ScheduleRequestDTO)
| DeleteSchedule (script_id : uuid)
| GetSchedule (script_id : uuid)
| ListEnabledSchedules
| MarkRegistration (script_id : uuid) (state : pystr) (error_type : option pystr) (next_run_at : option Z)
| MarkStarted (script_id : uuid) (occurred_at : Z)
| MarkSucceeded (script_id : uuid) (occurred_at : Z)
| MarkFailed (script_id : uuid) (occurred_at : Z) (error_type : pystr)
| AddOrReplace (schedule : RuntimeScheduleDTO)
| Remove (script_id : uuid)
| Inspect
| MarkRestored (failed : Z)
| PublishScheduled (script_id : uuid)
| Now
| ExecuteScript (script_id : uuid) (node_ids : list uuid) (params : jobject).

(** [ExecuteScript] answers the status of each node's result. *)
Definition schedule_answer (c : schedule_call) : Type :=
  match c with
  | GetScript _ | GetNode _ => bool
  | Validate _ _ => unit
  | UpsertSchedule _ _ => ScheduleViewDTO
  | DeleteSchedule _ | Remove _ => bool
  | GetSchedule _ => option ScheduleViewDTO
  | ListEnabledSchedules => list ScheduleViewDTO
  | MarkRegistration _ _ _ _ | MarkStarted _ _ | MarkSucceeded _ _ | MarkFailed _ _ _ => unit
  | AddOrReplace _ => RuntimeJobViewDTO
  | Inspect => list RuntimeJobViewDTO
  | MarkRestored _ | PublishScheduled _ => unit
  | Now => Z
  | ExecuteScript _ _ _ => list pystr
  end.
#[local] Instance schedule_signature : Signature := {| call := schedule_call; answer := schedule_answer |}.

(** ** Services *)

(** [except (A, B) as exc]. *)
Definition on_classes {A} (cs : list exn_class) (f : exn -> prog A) (e : exn) : option (prog A) :=
  if existsb (isinstance (exn_type e)) cs then Some (f e) else None.

Section services.
Context `{ExnNames}.

Definition _to_runtime (s : ScheduleViewDTO) : RuntimeScheduleDTO :=
  {| rj_schedule_id := sv_id s; rj_script_id := sv_script_id s; rj_cron := sv_cron s;
     rj_timezone := sv_timezone s; rj_node_ids := sv_node_ids s; rj_params := sv_params s;
     rj_misfire_grace_seconds := sv_misfire_grace_seconds s |}.

Fixpoint check_nodes (node_ids : list uuid) : prog unit :=
  match node_ids with
  | [] => mret tt
  | node_id :: node_ids =>
      found ← perform (GetNode node_id);
      if (found : bool) then check_nodes node_ids
      else lift (raise NodeNotFoundError (#"Node " ++ uuid_str node_id ++ #" not found"))
  end.

(** The request is checked before anything is written. *)
Definition check_request (script_id : uuid) (data : ScheduleRequestDTO) : prog unit :=
  found ← perform (GetScript script_id);
  (if (found : bool) then mret tt else lift (raise ScriptNotFoundError #"Script not found"));;
  try_except (A:=unit) (perform (Validate (sr_cron data) (sr_timezone data)))
    (on_classes (A:=unit) [KeyError; RuntimeError; ValueError]
       (fun _ => lift (raise ScheduleValidationError #"Invalid cron expression or timezone")));;
  check_nodes (sr_node_ids data).

Definition create_or_update (script_id : uuid) (data : ScheduleRequestDTO) : prog ScheduleViewDTO :=
  check_request script_id data;;
  desired ← perform (UpsertSchedule script_id data);
  runtime ← try_except (A:=RuntimeJobViewDTO) (perform (AddOrReplace (_to_runtime desired)))
    (on_classes (A:=RuntimeJobViewDTO) [RuntimeError; ValueError]
       (fun exc =>
          perform (MarkRegistration script_id #"registration_failed" (Some (exn_name (exn_type exc))) None);;
          lift (raise SchedulePersistenceError #"Schedule was saved but runtime registration failed")));
  perform (MarkRegistration script_id #"registered" None (jv_next_run_at runtime));;
  perform (PublishScheduled script_id);;
  registered ← perform (GetSchedule script_id);
  mret (default desired registered).

Definition schedule_not_found : exn := Exn ScheduleNotFoundError #"No schedule found for script".
Definition get (script_id : uuid) : prog ScheduleViewDTO :=
  schedule ← perform (GetSchedule script_id);
  match schedule with Some s => mret s | None => lift (Raise schedule_not_found) end.
Definition delete_schedule (script_id : uuid) : prog unit :=
  deleted ← perform (DeleteSchedule script_id);
  if negb deleted then lift (Raise schedule_not_found) else ignore (perform (Remove script_id)).

(** The loop that removes the jobs no enabled schedule asks for. *)
Fixpoint remove_undesired (desired : list uuid) (runtimes : list RuntimeJobViewDTO) : prog unit :=
  match runtimes with
  | [] => mret tt
  | runtime :: runtimes =>
      (if bool_decide (jv_script_id runtime ∈ desired) then mret tt
       else ignore (perform (Remove (jv_script_id runtime))));;
      remove_undesired desired runtimes
  end.
Fixpoint register_all (schedules : list ScheduleViewDTO) (restored failed : Z) : prog (Z * Z) :=
  match schedules with
  | [] => mret (restored, failed)
  | schedule :: schedules =>
      outcome ← try_except (runtime ← perform (AddOrReplace (_to_runtime schedule)); mret (inl runtime))
                  (on_classes [RuntimeError; ValueError] (fun exc => mret (inr exc)));
      match outcome with
      | inr exc =>
          perform (MarkRegistration (sv_script_id schedule) #"registration_failed"
                     (Some (exn_name (exn_type exc))) None);;
          register_all schedules restored (failed + 1)
      | inl runtime =>
          perform (MarkRegistration (sv_script_id schedule) #"registered" None (jv_next_run_at runtime));;
          register_all schedules (restored + 1) failed
      end
  end.
Definition reconcile : prog ScheduleReconciliationResultDTO :=
  schedules ← perform ListEnabledSchedules;
  runtimes ← perform Inspect;
  remove_undesired (sv_script_id <$> schedules) runtimes;;
  '(restored, failed) ← register_all schedules 0 0;
  mret {| rc_restored := restored; rc_failed := failed |}.

(** [ScheduleRestorer.run] and [mark_disabled]. *)
Definition restore : prog ScheduleReconciliationResultDTO :=
  result ← reconcile;
  perform (MarkRestored (rc_failed result));;
  mret result.
Definition mark_disabled : prog unit := perform (MarkRestored 0).

(** One turn of [_reconcile_loop]: its errors are logged and published as not ready. *)
Definition _reconcile_loop : prog unit :=
  try_except (result ← restore; perform (MarkRestored (rc_failed result)))
    (on_exception (fun _ => perform (MarkRestored 1))).

(** [ScheduledScriptExecutor.execute]. *)
Definition execute (script_id : uuid) (node_ids : list uuid) (params : jobject) : prog unit :=
  started ← perform Now;
  perform (MarkStarted script_id started);;
  statuses ← try_except (perform (ExecuteScript script_id node_ids params))
    (on_exception (fun exc =>
       failed_at ← perform Now;
       perform (MarkFailed script_id failed_at (exn_name (exn_type exc)));;
       lift (Raise exc)));
  if existsb (fun status => str_eqb status #"error") statuses then
    failed_at ← perform Now;
    perform (MarkFailed script_id failed_at #"ScheduledScriptExecutionError");;
    lift (raise ScheduledScriptExecutionError
            (#"Scheduled script " ++ uuid_str script_id ++ #" reported a failed execution"))
  else
    succeeded_at ← perform Now;
    perform (MarkSucceeded script_id succeeded_at).

(** [_execute_scheduled_script]: only the owner runs the job, and it needs its callback. *)
Definition _execute_scheduled_script (owns_execution configured : bool)
    (script_id : uuid) (node_ids : list uuid) (params : jobject) : prog unit :=
  if negb owns_execution then mret tt
  else if negb configured then lift (raise RuntimeError #"Scheduled script executor is not configured")
  else execute script_id node_ids params.
End services.

(** ** The adapters *)

(** [from_crontab cron timezone] is the refusal of [CronTrigger.from_crontab] (or of
    [ZoneInfo]), if any; [add_job] that of the job store; [next_run_time] what a
    registered job reports. *)
Class JobRuntime := {
  from_crontab : pystr -> pystr -> option exn;
  add_job_error : RuntimeScheduleDTO -> option exn;
  next_run_time : RuntimeScheduleDTO -> option Z }.

Record world := {
  w_scripts : gset uuid;
  w_nodes : gset uuid;
  w_rows : gmap uuid ScheduleViewDTO;
  w_jobs : gmap uuid RuntimeScheduleDTO;
  w_ready : bool;
  w_published : list uuid;
  w_fresh : uuid;             (* the next uuid4 *)
  w_clock : Z;
  w_results : list pystr }.   (* what executing a script answers *)

Definition set_rows (w : world) (rows : gmap uuid ScheduleViewDTO) : world :=
  {| w_scripts := w_scripts w; w_nodes := w_nodes w; w_rows := rows; w_jobs := w_jobs w; w_ready := w_ready w;
     w_published := w_published w; w_fresh := w_fresh w; w_clock := w_clock w; w_results := w_results w |}.
Definition set_jobs (w : world) (jobs : gmap uuid RuntimeScheduleDTO) : world :=
  {| w_scripts := w_scripts w; w_nodes := w_nodes w; w_rows := w_rows w; w_jobs := jobs; w_ready := w_ready w;
     w_published := w_published w; w_fresh := w_fresh w; w_clock := w_clock w; w_results := w_results w |}.
Definition set_ready (w : world) (ready : bool) : world :=
  {| w_scripts := w_scripts w; w_nodes := w_nodes w; w_rows := w_rows w; w_jobs := w_jobs w; w_ready := ready;
     w_published := w_published w; w_fresh := w_fresh w; w_clock := w_clock w; w_results := w_results w |}.
Definition publish (w : world) (script_id : uuid) : world :=
  {| w_scripts := w_scripts w; w_nodes := w_nodes w; w_rows := w_rows w; w_jobs := w_jobs w; w_ready := w_ready w;
     w_published := w_published w ++ [script_id]; w_fresh := w_fresh w; w_clock := w_clock w; w_results := w_results w |}.

Section adapters.
Context `{JobRuntime}.

(** *** [SqlAlchemyScheduleGateway] *)

(** [CheckConstraint("operational_state IN ('registered', 'pending_registration')")]. *)
Definition chk_operational_state (row : ScheduleViewDTO) : bool :=
  bool_decide (sv_operational_state row ∈ [ #"registered"; #"pending_registration"]).
Definition integrity_error : exn :=
  Exn (LibraryError #"IntegrityError") #"new row violates check constraint chk_script_schedules_operational_state".

Definition upserted (id script_id : uuid) (old : option ScheduleViewDTO) (data : ScheduleRequestDTO) : ScheduleViewDTO :=
  {| sv_id := match old with Some s => sv_id s | None => id end;
     sv_script_id := script_id; sv_cron := sr_cron data; sv_timezone := sr_timezone data;
     sv_node_ids := sr_node_ids data; sv_params := sr_params data; sv_enabled := true;
     sv_misfire_grace_seconds := sr_misfire_grace_seconds data; sv_operational_state := #"pending_registration";
     sv_last_error_type := None; sv_last_run_at := old ≫= sv_last_run_at;
     sv_last_success_at := old ≫= sv_last_success_at; sv_last_failure_at := old ≫= sv_last_failure_at;
     sv_next_run_at := None |}.
Definition upsert_schedule (script_id : uuid) (data : ScheduleRequestDTO) (w : world) : res ScheduleViewDTO * world :=
  let row := upserted (w_fresh w) script_id (w_rows w !! script_id) data in
  (Ok row,
   {| w_scripts := w_scripts w; w_nodes := w_nodes w; w_rows := <[script_id := row]> (w_rows w);
      w_jobs := w_jobs w; w_ready := w_ready w; w_published := w_published w;
      w_fresh := (w_fresh w + 1)%N; w_clock := w_clock w; w_results := w_results w |}).
Definition gateway_delete (script_id : uuid) (w : world) : res bool * world :=
  match w_rows w !! script_id with
  | None => (Ok false, w)
  | Some _ => (Ok true, set_rows w (base.delete script_id (w_rows w)))
  end.
Definition list_enabled_schedules (w : world) : list ScheduleViewDTO :=
  List.filter sv_enabled (map_to_list (w_rows w)).*2.

(** [UPDATE ... WHERE script_id = ...]: no row, no effect; a row that breaks the
    constraint is refused. *)
Definition _update_state (script_id : uuid) (change : ScheduleViewDTO -> ScheduleViewDTO) (w : world) : res unit * world :=
  match w_rows w !! script_id with
  | None => (Ok tt, w)
  | Some row =>
      if chk_operational_state (change row) then (Ok tt, set_rows w (<[script_id := change row]> (w_rows w)))
      else (Raise integrity_error, w)
  end.
Definition with_registration (state : pystr) (error_type : option pystr) (next_run_at : option Z)
    (s : ScheduleViewDTO) : ScheduleViewDTO :=
  {| sv_id := sv_id s; sv_script_id := sv_script_id s; sv_cron := sv_cron s; sv_timezone := sv_timezone s;
     sv_node_ids := sv_node_ids s; sv_params := sv_params s; sv_enabled := sv_enabled s;
     sv_misfire_grace_seconds := sv_misfire_grace_seconds s; sv_operational_state := state;
     sv_last_error_type := error_type; sv_last_run_at := sv_last_run_at s;
     sv_last_success_at := sv_last_success_at s; sv_last_failure_at := sv_last_failure_at s;
     sv_next_run_at := next_run_at |}.
Definition mark_registration (script_id : uuid) (state : pystr) (error_type : option pystr) (next_run_at : option Z) :=
  _update_state script_id (with_registration state error_type next_run_at).
Definition with_runs (run success failure : option Z) (error_type : option (option pystr)) (s : ScheduleViewDTO) : ScheduleViewDTO :=
  let keep (o : option Z) (old : option Z) := match o with Some t => Some t | None => old end in
  {| sv_id := sv_id s; sv_script_id := sv_script_id s; sv_cron := sv_cron s; sv_timezone := sv_timezone s;
     sv_node_ids := sv_node_ids s; sv_params := sv_params s; sv_enabled := sv_enabled s;
     sv_misfire_grace_seconds := sv_misfire_grace_seconds s; sv_operational_state := sv_operational_state s;
     sv_last_error_type := match error_type with Some e => e | None => sv_last_error_type s end;
     sv_last_run_at := keep run (sv_last_run_at s); sv_last_success_at := keep success (sv_last_success_at s);
     sv_last_failure_at := keep failure (sv_last_failure_at s); sv_next_run_at := sv_next_run_at s |}.
Definition mark_started (script_id : uuid) (occurred_at : Z) :=
  _update_state script_id (with_runs (Some occurred_at) None None None).
Definition mark_succeeded (script_id : uuid) (occurred_at : Z) :=
  _update_state script_id (with_runs None (Some occurred_at) None (Some None)).
Definition mark_failed (script_id : uuid) (occurred_at : Z) (error_type : pystr) :=
  _update_state script_id (with_runs None None (Some occurred_at) (Some (Some error_type))).

(** *** The job store *)

(** A job is kept under the text of its script's id, which determines it. *)
Definition schedule_script (s : RuntimeScheduleDTO) (w : world) : res unit * world :=
  match from_crontab (rj_cron s) (rj_timezone s) with
  | Some e => (Raise e, w)
  | None =>
      let w := set_jobs w (base.delete (rj_script_id s) (w_jobs w)) in
      match add_job_error s with
      | Some e => (Raise e, w)
      | None => (Ok tt, set_jobs w (<[rj_script_id s := s]> (w_jobs w)))
      end
  end.
Definition get_next_run_time (script_id : uuid) (w : world) : option Z := w_jobs w !! script_id ≫= next_run_time.
Definition add_or_replace (s : RuntimeScheduleDTO) (w : world) : res RuntimeJobViewDTO * world :=
  match schedule_script s w with
  | (Raise e, w) => (Raise e, w)
  | (Ok _, w) =>
      (Ok {| jv_script_id := rj_script_id s; jv_next_run_at := get_next_run_time (rj_script_id s) w |}, w)
  end.
Definition unschedule_script (script_id : uuid) (w : world) : bool * world :=
  match w_jobs w !! script_id with
  | Some _ => (true, set_jobs w (base.delete script_id (w_jobs w)))
  | None => (false, w)
  end.
Definition inspect (w : world) : list RuntimeJobViewDTO :=
  (fun kv => {| jv_script_id := kv.1; jv_next_run_at := next_run_time kv.2 |}) <$> map_to_list (w_jobs w).
Definition mark_restored (failed : Z) (w : world) : world := set_ready w (failed =? 0)%Z.

Definition validate (cron timezone : pystr) : res unit :=
  match from_crontab cron timezone with Some e => Raise e | None => Ok tt end.

Definition serve (c : schedule_call) (w : world) : res (schedule_answer c) * world :=
  match c with
  | GetScript script_id => (Ok (bool_decide (script_id ∈ w_scripts w)), w)
  | GetNode node_id => (Ok (bool_decide (node_id ∈ w_nodes w)), w)
  | Validate cron timezone => (validate cron timezone, w)
  | UpsertSchedule script_id data => upsert_schedule script_id data w
  | DeleteSchedule script_id => gateway_delete script_id w
  | GetSchedule script_id => (Ok (w_rows w !! script_id), w)
  | ListEnabledSchedules => (Ok (list_enabled_schedules w), w)
  | MarkRegistration script_id state error_type next_run_at => mark_registration script_id state error_type next_run_at w
  | MarkStarted script_id t => mark_started script_id t w
  | MarkSucceeded script_id t => mark_succeeded script_id t w
  | MarkFailed script_id t error_type => mark_failed script_id t error_type w
  | AddOrReplace s => add_or_replace s w
  | Remove script_id => let '(found, w) := unschedule_script script_id w in (Ok found, w)
  | Inspect => (Ok (inspect w), w)
  | MarkRestored failed => (Ok tt, mark_restored failed w)
  | PublishScheduled script_id => (Ok tt, publish w script_id)
  | Now => (Ok (w_clock w), w)
  | ExecuteScript _ _ _ => (Ok (w_results w), w)
  end.

(** The database may fail, with an exception of its own; executing a script may raise
    anything; the runtime's own calls do not fail by themselves. *)
Definition schedule_faults (c : schedule_call) (e : exn) : Prop :=
  match c with
  | GetScript _ | GetNode _ | UpsertSchedule _ _ | DeleteSchedule _ | GetSchedule _ | ListEnabledSchedules
  | MarkRegistration _ _ _ _ | MarkStarted _ _ | MarkSucceeded _ _ | MarkFailed _ _ _ => foreign e
  | ExecuteScript _ _ _ => isinstance (exn_type e) Exception_ = true
  | _ => False
  end.
Definition schedule_handler : handler (W:=world) := with_faults serve schedule_faults.
End adapters.

(** ** Well-formed states *)

Record wf (w : world) : Prop := {
  wf_rows : forall k row, w_rows w !! k = Some row -> sv_script_id row = k;
  wf_check : forall k row, w_rows w !! k = Some row -> chk_operational_state row = true;
  wf_jobs : forall k job, w_jobs w !! k = Some job -> rj_script_id job = k }.

(** Outside script [k], the two states have the same schedules and jobs. *)
Definition same_but (k : uuid) (w w' : world) : Prop :=
  forall j, j <> k -> w_rows w' !! j = w_rows w !! j /\ w_jobs w' !! j = w_jobs w !! j.

Section laws.
Context `{ExnNames} `{JobRuntime}.

(** The refusal of a job, which does not depend on the state. *)
Definition refusal (s : RuntimeScheduleDTO) : option exn :=
  match from_crontab (rj_cron s) (rj_timezone s) with Some e => Some e | None => add_job_error s end.

Lemma add_or_replace_cases s w :
  match refusal s with
  | None => add_or_replace s w =
      (Ok {| jv_script_id := rj_script_id s; jv_next_run_at := next_run_time s |},
       set_jobs w (<[rj_script_id s := s]> (w_jobs w)))
  | Some e => exists jobs, add_or_replace s w = (Raise e, set_jobs w jobs) /\
      (jobs = w_jobs w \/ jobs = base.delete (rj_script_id s) (w_jobs w))
  end.
Proof.
  unfold refusal, add_or_replace, schedule_script. destruct (from_crontab _ _) as [e|].
  - exists (w_jobs w). split; [by destruct w|by left].
  - destruct (add_job_error s) as [e|]; [by eexists; split; [|right]|].
    unfold get_next_run_time. cbn. rewrite lookup_insert_eq. cbn. by rewrite insert_delete_eq.
Qed.

Lemma set_jobs_wf w jobs : wf w -> (forall k job, jobs !! k = Some job -> rj_script_id job = k) -> wf (set_jobs w jobs).
Proof. intros [H1 H2 H3] Hj. by split. Qed.

Lemma delete_jobs_wf w k : wf w -> wf (set_jobs w (base.delete k (w_jobs w))).
Proof. intros Hw. apply set_jobs_wf; [done|]. intros j job [_ Hj]%lookup_delete_Some. by apply Hw. Qed.

Lemma insert_job_wf w s : wf w -> wf (set_jobs w (<[rj_script_id s := s]> (w_jobs w))).
Proof.
  intros Hw. apply set_jobs_wf; [done|]. intros j job [[<- <-]|[_ Hj]]%lookup_insert_Some; [done|]. by apply Hw.
Qed.

Lemma insert_row_wf w k row : wf w -> sv_script_id row = k -> chk_operational_state row = true ->
  wf (set_rows w (<[k := row]> (w_rows w))).
Proof.
  intros [H1 H2 H3] Hk Hc. split; cbn; [| |done]; intros j r [[<- <-]|[_ ?]]%lookup_insert_Some; eauto.
Qed.

Lemma set_jobs_self w : set_jobs w (w_jobs w) = w.
Proof. by destruct w. Qed.

(** A refused registration leaves the schedules, and at most drops the job. *)
Lemma refused_wf w s e jobs : wf w -> add_or_replace s w = (Raise e, set_jobs w jobs) ->
  jobs = w_jobs w \/ jobs = base.delete (rj_script_id s) (w_jobs w) -> wf (set_jobs w jobs).
Proof. intros Hw _ [->| ->]; [by rewrite set_jobs_self|by apply delete_jobs_wf]. Qed.

(** A state that is not allowed cannot be recorded on a row that exists. *)
Lemma mark_registration_failed w k row error_type next :
  w_rows w !! k = Some row -> mark_registration k #"registration_failed" error_type next w = (Raise integrity_error, w).
Proof. intros Hk. unfold mark_registration, _update_state. by rewrite Hk. Qed.

Lemma mark_registration_ok w k row error_type next :
  w_rows w !! k = Some row ->
  mark_registration k #"registered" error_type next w
  = (Ok tt, set_rows w (<[k := with_registration #"registered" error_type next row]> (w_rows w))).
Proof. intros Hk. unfold mark_registration, _update_state. by rewrite Hk. Qed.
End laws.

Ltac sched_step :=
  lazymatch goal with
  | |- swp _ (_ ≫= _) _ _ => apply swp_bind
  | |- swp _ (try_except _ _) _ _ => apply swp_try
  | |- swp _ (perform _) _ _ => apply swp_call; [cbn [serve fst snd]|intros ?e ?Hfault]
  | |- swp _ (lift _) _ _ => apply swp_lift
  | |- swp _ (mret _) _ _ => apply swp_lift
  | |- swp _ (ignore _) _ _ => apply swp_bind
  end.

(** ** Reconciliation *)

Section reconciliation.
Context `{ExnNames} `{JobRuntime}.
(** The faults that may occur: all of [schedule_faults], or fewer. *)
Context (faults : schedule_call -> exn -> Prop) (Hfaults : forall c e, faults c e -> schedule_faults c e).
#[local] Abbreviation schedule_handler := (with_faults serve faults).

Lemma no_fault c e : (forall e, ~ schedule_faults c e) -> ~ faults c e.
Proof. intros Hn Hf. by apply (Hn e), Hfaults. Qed.

Lemma swp_remove_undesired desired runtimes w (Q : res unit -> world -> Prop) :
  (forall jobs, (forall k, jobs !! k =
     if decide (k ∈ (jv_script_id <$> runtimes) /\ k ∉ desired) then None else w_jobs w !! k) ->
   Q (Ok tt) (set_jobs w jobs)) ->
  swp schedule_handler (remove_undesired desired runtimes) w Q.
Proof.
  revert w. induction runtimes as [|runtime runtimes IH]; intros w HQ; cbn [remove_undesired].
  { sched_step. rewrite <- (set_jobs_self w). apply HQ. intros k. rewrite decide_False; [done|]. rewrite elem_of_nil. by intros [? _]. }
  sched_step. case_bool_decide as Hd.
  - sched_step. apply IH. intros jobs Hj. apply HQ. intros k. rewrite Hj.
    repeat case_decide; rewrite ?fmap_cons, ?elem_of_cons in *; naive_solver.
  - sched_step. sched_step; [|by apply Hfaults in Hfault]. unfold unschedule_script.
    assert (forall jobs, jobs = base.delete (jv_script_id runtime) (w_jobs w) ->
      swp schedule_handler (remove_undesired desired runtimes) (set_jobs w jobs) Q) as Hnext.
    { intros jobs ->. apply IH. intros jobs' Hj. apply (HQ jobs'). intros k. rewrite Hj.
      cbn [set_jobs w_jobs]. rewrite lookup_delete.
      repeat case_decide; rewrite ?fmap_cons, ?elem_of_cons in *; naive_solver. }
    destruct (w_jobs w !! jv_script_id runtime) as [job|] eqn:Ej; cbn [fst snd].
    + sched_step. by apply Hnext.
    + sched_step. rewrite <- (set_jobs_self w). apply Hnext. by rewrite delete_id.
Qed.

(** The schedule a row asks for, whatever its operational fields say. *)
Record registered_as (s : ScheduleViewDTO) (w : world) : Prop := {
  ra_refusal : refusal (_to_runtime s) = None;
  ra_job : w_jobs w !! sv_script_id s = Some (_to_runtime s);
  ra_row : w_rows w !! sv_script_id s
           = Some (with_registration #"registered" None (next_run_time (_to_runtime s)) s) }.

(** Why a reconciliation does not return: the database failed in one of its own statements, or
    an enabled schedule is refused by the runtime.  Recording a refusal that is caught breaks the
    constraint of the table. *)
Definition reconcile_statement (c : schedule_call) : Prop :=
  match c with ListEnabledSchedules | MarkRegistration _ _ _ _ => True | _ => False end.
Definition caught (e : exn) : bool := existsb (isinstance (exn_type e)) [RuntimeError; ValueError].
Definition raised_by_refusal (schedules : list ScheduleViewDTO) (e : exn) : Prop :=
  exists s refused, s ∈ schedules /\ refusal (_to_runtime s) = Some refused /\ e = (if caught refused then integrity_error else refused).
Definition reconcile_error (schedules : list ScheduleViewDTO) (e : exn) : Prop :=
  (exists c, reconcile_statement c /\ faults c e) \/ raised_by_refusal schedules e.

Lemma reconcile_error_cons s todo e : reconcile_error todo e -> reconcile_error (s :: todo) e.
Proof. intros [?|(s0 & refused & ? & ?)]; [by left|]. right. exists s0, refused. split; [by right|done]. Qed.

Lemma swp_register_all todo w restored failed :
  wf w -> NoDup (sv_script_id <$> todo) -> (forall s, s ∈ todo -> w_rows w !! sv_script_id s = Some s) ->
  swp schedule_handler (register_all todo restored failed) w (fun r w' =>
    wf w' /\
    (forall k, k ∉ (sv_script_id <$> todo) -> w_rows w' !! k = w_rows w !! k /\ w_jobs w' !! k = w_jobs w !! k) /\
    match r with
    | Ok (restored', failed') =>
        restored' = (restored + Z.of_nat (length todo))%Z /\ failed' = failed /\
        forall s, s ∈ todo -> registered_as s w'
    | Raise e => reconcile_error todo e
    end).
Proof.
  revert w restored. induction todo as [|s todo IH]; intros w restored Hw Hnd Hrows; cbn [register_all].
  { sched_step. split_and!; [done|done|cbn; lia|done|]. by intros s ?%elem_of_nil. }
  apply NoDup_cons in Hnd as [Hfresh Hnd]. pose proof (Hrows s (list_elem_of_here s todo)) as Hrow.
  pose proof (add_or_replace_cases (_to_runtime s) w) as Hadd. change (rj_script_id (_to_runtime s)) with (sv_script_id s) in Hadd.
  sched_step. sched_step. sched_step. sched_step; [|by destruct (Hfaults _ _ Hfault)].
  destruct (refusal (_to_runtime s)) as [e|] eqn:Eref.
  - destruct Hadd as (jobs & Eadd & Hjobs). rewrite Eadd. cbn [fst snd].
    pose proof (refused_wf w (_to_runtime s) e jobs Hw Eadd Hjobs) as Hw'.
    assert (forall k, k ∉ sv_script_id <$> (s :: todo) -> w_rows (set_jobs w jobs) !! k = w_rows w !! k /\
              w_jobs (set_jobs w jobs) !! k = w_jobs w !! k) as Hframe.
    { intros k Hk. split; [done|]. cbn. destruct Hjobs as [->| ->]; [done|]. rewrite lookup_delete_ne; [done|].
      intros Heq. apply Hk. rewrite fmap_cons, elem_of_cons. by left. }
    assert (reconcile_error (s :: todo) (if caught e then integrity_error else e)) as Hrefused.
    { right. exists s, e. split_and!; [by left|done|done]. }
    unfold on_classes. unfold caught in Hrefused. destruct (existsb _ _); [|by split_and!].
    sched_step. sched_step. sched_step.
    + cbn [set_jobs w_rows]. rewrite (mark_registration_failed _ _ s) by done. cbn [fst snd]. by split_and!.
    + split_and!; [done..|]. left. eexists. by split; [|exact Hfault].
  - rewrite Hadd. cbn [fst snd]. sched_step. cbn beta iota.
    set (w1 := set_jobs w (<[sv_script_id s := _to_runtime s]> (w_jobs w))).
    assert (wf w1) as Hw1 by apply (insert_job_wf w (_to_runtime s) Hw).
    assert (forall k, k <> sv_script_id s -> w_rows w1 !! k = w_rows w !! k /\ w_jobs w1 !! k = w_jobs w !! k) as Hf1.
    { intros k Hk. split; [done|]. cbn. by rewrite lookup_insert_ne. }
    sched_step. sched_step.
    + rewrite (mark_registration_ok w1 _ s) by exact Hrow. cbn [fst snd].
      set (w2 := set_rows w1 _).
      assert (wf w2) as Hw2 by (by apply insert_row_wf).
      assert (forall k, k <> sv_script_id s -> w_rows w2 !! k = w_rows w !! k /\ w_jobs w2 !! k = w_jobs w !! k) as Hf2.
      { intros k Hk. destruct (Hf1 k Hk) as [Hr Hj]. split; [|done]. cbn. by rewrite lookup_insert_ne. }
      eapply swp_mono; [apply IH; [done|done|]|].
      { intros s' Hs'. rewrite (proj1 (Hf2 (sv_script_id s') ltac:(intros E; apply Hfresh; rewrite <- E; by apply list_elem_of_fmap_2))).
        apply Hrows. by right. }
      cbn beta. intros r w' (Hw' & Hf' & Hr). split_and!; [done| |].
      * intros k Hk. rewrite fmap_cons, not_elem_of_cons in Hk. destruct Hk as [Hk1 Hk2].
        destruct (Hf' k Hk2) as [-> ->]. by apply Hf2.
      * destruct r as [[rs fl]|]; [|by apply reconcile_error_cons].
        destruct Hr as (-> & -> & Hall). split_and!; [cbn [length]; lia|done|].
        intros s' [->|Hs']%elem_of_cons; [|by apply Hall].
        destruct (Hf' (sv_script_id s) Hfresh) as [Hrow' Hjob']. split; [done| |].
        -- rewrite Hjob'. cbn. apply lookup_insert_eq.
        -- rewrite Hrow'. cbn. apply lookup_insert_eq.
    + split_and!; [done| |left; eexists; by split; [|exact Hfault]]. intros k Hk. apply Hf1. intros ->. apply Hk. by left.
Qed.

Lemma enabled_rows w s : wf w -> s ∈ list_enabled_schedules w <->
  w_rows w !! sv_script_id s = Some s /\ sv_enabled s = true.
Proof.
  intros Hw. unfold list_enabled_schedules. rewrite list_elem_of_In, filter_In, <- list_elem_of_In, list_elem_of_fmap.
  split.
  - intros ([[k row] [-> Hk%elem_of_map_to_list]] & He). cbn in *. by rewrite (wf_rows _ Hw k row Hk).
  - intros [Hk He]. split; [|done]. exists (sv_script_id s, s). split; [done|]. by apply elem_of_map_to_list.
Qed.

Lemma enabled_NoDup w : wf w -> NoDup (sv_script_id <$> list_enabled_schedules w).
Proof.
  intros Hw. unfold list_enabled_schedules.
  assert (sv_script_id <$> (map_to_list (w_rows w)).*2 = (map_to_list (w_rows w)).*1) as E.
  { rewrite <- list_fmap_compose. apply list_fmap_ext. intros i [k row] Hi. cbn.
    apply (wf_rows _ Hw). apply elem_of_map_to_list, list_elem_of_lookup. by exists i. }
  assert (NoDup (sv_script_id <$> (map_to_list (w_rows w)).*2)) as Hnd by (rewrite E; apply NoDup_fst_map_to_list).
  revert Hnd. generalize ((map_to_list (w_rows w)).*2). intros l. induction l as [|s l IH]; [done|].
  cbn [fmap list_fmap List.filter]. intros [Hs Hl]%NoDup_cons. destruct (sv_enabled s); [|by apply IH].
  cbn. constructor; [|by apply IH]. intros Hin. apply Hs. apply list_elem_of_fmap in Hin as (s' & -> & Hs').
  apply list_elem_of_fmap_2. apply list_elem_of_In, filter_In in Hs' as [Hs' _]. by apply list_elem_of_In.
Qed.

(** What the runtime should hold: a job for each enabled schedule and nothing else. *)
Definition projection (w : world) (k : uuid) : option RuntimeScheduleDTO :=
  row ← w_rows w !! k; if sv_enabled row then Some (_to_runtime row) else None.

Lemma swp_reconcile w : wf w ->
  swp schedule_handler reconcile w (fun r w' =>
    wf w' /\
    match r with
    | Ok result =>
        result = {| rc_restored := Z.of_nat (length (list_enabled_schedules w)); rc_failed := 0 |} /\
        (forall k, w_jobs w' !! k = projection w k) /\
        (forall s, s ∈ list_enabled_schedules w -> registered_as s w')
    | Raise e => reconcile_error (list_enabled_schedules w) e
    end).
Proof.
  intros Hw. unfold reconcile. sched_step. sched_step; [|by split; [|left; eexists; by split; [|exact Hfault]]].
  sched_step. sched_step; [|by apply Hfaults in Hfault]. sched_step.
  apply swp_remove_undesired. intros jobs Hjobs. sched_step.
  set (todo := list_enabled_schedules w). set (w1 := set_jobs w jobs).
  assert (wf w1) as Hw1.
  { apply set_jobs_wf; [done|]. intros k job Hk. rewrite Hjobs in Hk. case_decide; [done|].
    by apply Hw. }
  eapply swp_mono; [apply swp_register_all; [done|by apply enabled_NoDup|]|].
  { intros s Hs. by apply (enabled_rows w) in Hs as [Hs _]. }
  cbn beta. intros r w' (Hw' & Hframe & Hr). destruct r as [[rs fl]|e]; [|done].
  destruct Hr as (-> & -> & Hall). sched_step. split; [done|]. split_and!; [done| |done].
  intros k. destruct (decide (k ∈ sv_script_id <$> todo)) as [Hk|Hk].
  - apply list_elem_of_fmap in Hk as (s & -> & Hs). rewrite (ra_job _ _ (Hall s Hs)).
    apply (enabled_rows w) in Hs as [Hs He]; [|done]. unfold projection. rewrite Hs. cbn. by rewrite He.
  - destruct (Hframe k Hk) as [_ ->]. cbn [w1 set_jobs w_jobs]. rewrite Hjobs.
    assert (projection w k = None) as ->.
    { destruct (w_rows w !! k) as [row|] eqn:Ek; unfold projection; rewrite Ek; [|done]. cbn.
      destruct (sv_enabled row) eqn:Ee; [|done]. destruct Hk. apply list_elem_of_fmap. exists row.
      pose proof (wf_rows _ Hw k row Ek) as Hid. split; [done|]. apply enabled_rows; [done|]. by rewrite Hid. }
    case_decide as Hd; [done|]. destruct (w_jobs w !! k) as [job|] eqn:Ek; [|done]. destruct Hd. split; [|done].
    apply list_elem_of_fmap. exists {| jv_script_id := k; jv_next_run_at := next_run_time job |}. split; [done|].
    unfold inspect. apply list_elem_of_fmap. exists (k, job). split; [done|]. by apply elem_of_map_to_list.
Qed.
End reconciliation.

(** ** Properties *)

Section properties.
Context `{ExnNames} `{JobRuntime}.

(** C5: when a reconciliation that no other operation overlaps returns, from tables whose rows
    satisfy their constraint and are kept, like the jobs, under their script, the jobs of the
    runtime are exactly those of the enabled schedules, whatever they were before, every enabled
    schedule is marked registered and none is reported as failed. It raises only what the
    database raises in one of its own statements, or when the runtime refuses an enabled
    schedule: then the error is the violated constraint of the table, as that state cannot be
    recorded, or the refusal itself, if it is no RuntimeError or ValueError. Without these it
    returns. *)
Theorem reconcile_refines_projection (w : world) :
  wf w ->
  (forall faults r w', (forall c e, faults c e -> schedule_faults c e) -> exec (with_faults serve faults) reconcile w r w' ->
     match r with
     | Ok result =>
         rc_restored result = Z.of_nat (length (list_enabled_schedules w)) /\ rc_failed result = 0%Z /\
         (forall k, w_jobs w' !! k = projection w k) /\
         (forall s, s ∈ list_enabled_schedules w -> refusal (_to_runtime s) = None /\
            w_rows w' !! sv_script_id s
            = Some (with_registration #"registered" None (next_run_time (_to_runtime s)) s))
     | Raise e => (exists c, reconcile_statement c /\ faults c e) \/ raised_by_refusal (list_enabled_schedules w) e
     end) /\
  ((forall s, s ∈ list_enabled_schedules w -> refusal (_to_runtime s) = None) ->
   is_ok (run_state serve reconcile w).1 = true).
Proof.
  intros Hw. split.
  - intros faults r w' Hf Hx. pose proof (swp_exec _ _ _ _ _ _ (swp_reconcile faults Hf w Hw) Hx) as [_ Hr].
    destruct r as [result|e]; [|exact Hr]. destruct Hr as (-> & Hjobs & Hrows). split_and!; [done..|].
    intros s Hs. destruct (Hrows s Hs) as [H1 H2 H3]. done.
  - intros Hok. destruct (@run_state schedule_signature world serve _ reconcile w) as [r w'] eqn:E.
    apply (@run_state_exec schedule_signature world serve (fun _ _ => False)) in E.
    pose proof (swp_exec _ _ _ _ _ _ (swp_reconcile (fun _ _ => False) (fun _ _ Hf => False_ind _ Hf) w Hw) E) as [_ Hr].
    destruct r as [result|e]; [done|]. destruct Hr as [(c & _ & [])|(s & refused & Hs & Href & _)]. by rewrite (Hok s Hs) in Href.
Qed.

(** The request reached the table: the row asks for it. *)
Record saved (script_id : uuid) (data : ScheduleRequestDTO) (row : ScheduleViewDTO) : Prop := {
  sa_script : sv_script_id row = script_id;
  sa_cron : sv_cron row = sr_cron data;
  sa_timezone : sv_timezone row = sr_timezone data;
  sa_nodes : sv_node_ids row = sr_node_ids data;
  sa_params : sv_params row = sr_params data;
  sa_grace : sv_misfire_grace_seconds row = sr_misfire_grace_seconds data;
  sa_enabled : sv_enabled row = true }.

Lemma swp_check_nodes node_ids w (Q : res unit -> world -> Prop) :
  ((forall n, n ∈ node_ids -> n ∈ w_nodes w) -> Q (Ok tt) w) ->
  (forall e, exn_type e <> SchedulePersistenceError -> Q (Raise e) w) ->
  swp schedule_handler (check_nodes node_ids) w Q.
Proof.
  intros Hok Hbad. induction node_ids as [|n node_ids IH]; cbn [check_nodes].
  { sched_step. apply Hok. by intros n ?%elem_of_nil. }
  sched_step. sched_step.
  - case_bool_decide as Hn; [|sched_step; by apply Hbad]. apply IH. intros Hall. apply Hok.
    intros m [->|Hm]%elem_of_cons; auto.
  - apply Hbad. intros E. destruct Hfault as [_ Hd]. by rewrite E in Hd.
Qed.

Lemma foreign_not_domain e c : foreign e -> isinstance c DomainError = true -> exn_type e <> c.
Proof. intros [_ Hd] Hc Heq. rewrite Heq in Hd. congruence. Qed.

Lemma swp_check_request script_id data w (Q : res unit -> world -> Prop) :
  (from_crontab (sr_cron data) (sr_timezone data) = None -> script_id ∈ w_scripts w ->
   (forall n, n ∈ sr_node_ids data -> n ∈ w_nodes w) -> Q (Ok tt) w) ->
  (forall e, exn_type e <> SchedulePersistenceError \/ from_crontab (sr_cron data) (sr_timezone data) = Some e ->
   Q (Raise e) w) ->
  swp schedule_handler (check_request script_id data) w Q.
Proof.
  intros Hok Hbad. unfold check_request. sched_step. sched_step.
  2: { apply Hbad. left. by eapply foreign_not_domain. }
  sched_step. case_bool_decide as Hs; sched_step; [|by apply Hbad; left].
  sched_step. sched_step. sched_step; [|done]. unfold validate.
  destruct (from_crontab _ _) as [e|] eqn:Ec.
  - unfold on_classes. destruct (existsb _ _); [sched_step; apply Hbad; by left|]. apply Hbad. by right.
  - apply swp_check_nodes; [by intros; apply Hok|]. intros e He. apply Hbad. by left.
Qed.

(** What a call to [create_or_update] leaves. *)
Definition saved_outcome (script_id : uuid) (data : ScheduleRequestDTO) (w : world)
    (r : res ScheduleViewDTO) (w' : world) : Prop :=
  match r with
  | Ok view =>
      saved script_id data view /\ sv_operational_state view = #"registered" /\
      w_rows w' !! script_id = Some view /\ w_jobs w' !! script_id = Some (_to_runtime view) /\
      sv_next_run_at view = next_run_time (_to_runtime view)
  | Raise e =>
      (w_rows w' = w_rows w /\ w_jobs w' = w_jobs w) \/
      (exists row, w_rows w' !! script_id = Some row /\ saved script_id data row)
  end.

Lemma saved_upserted id script_id old data : saved script_id data (upserted id script_id old data).
Proof. by split. Qed.

Lemma saved_registration script_id data state error next row :
  saved script_id data row -> saved script_id data (with_registration state error next row).
Proof. intros []. by split. Qed.

Lemma same_but_jobs script_id w w' jobs :
  same_but script_id w w' -> (forall j, j <> script_id -> jobs !! j = w_jobs w' !! j) ->
  same_but script_id w (set_jobs w' jobs).
Proof. intros Hs Hj k Hk. destruct (Hs k Hk) as [Hr Hjk]. split; [done|]. cbn. by rewrite Hj. Qed.

Lemma same_but_row script_id w w' row :
  same_but script_id w w' -> same_but script_id w (set_rows w' (<[script_id := row]> (w_rows w'))).
Proof. intros Hs k Hk. destruct (Hs k Hk) as [Hr Hj]. split; [|done]. cbn. by rewrite lookup_insert_ne. Qed.

Lemma upsert_spec script_id data w row w1 :
  upsert_schedule script_id data w = (Ok row, w1) -> wf w ->
  wf w1 /\ same_but script_id w w1 /\ w_rows w1 !! script_id = Some row /\ saved script_id data row /\
  w_jobs w1 = w_jobs w /\ row = upserted (w_fresh w) script_id (w_rows w !! script_id) data.
Proof.
  intros [= <- <-] Hw. split_and!; cbn.
  - destruct (insert_row_wf w script_id (upserted (w_fresh w) script_id (w_rows w !! script_id) data) Hw); [done..|]. by split.
  - intros k Hk. split; cbn; [by rewrite lookup_insert_ne|done].
  - by rewrite lookup_insert_eq.
  - apply saved_upserted.
  - done.
  - done.
Qed.

Lemma swp_create_or_update script_id data w : wf w ->
  swp schedule_handler (create_or_update script_id data) w (fun r w' =>
    wf w' /\ same_but script_id w w' /\ saved_outcome script_id data w r w' /\
    (forall e, r = Raise e -> exn_type e = SchedulePersistenceError ->
       exists s, from_crontab (sr_cron data) (sr_timezone data) = Some e \/ refusal s = Some e)).
Proof.
  intros Hw. unfold create_or_update. sched_step.
  assert (same_but script_id w w) as Hrefl by done.
  assert (forall e, exn_type e <> SchedulePersistenceError -> forall e', Raise (A:=ScheduleViewDTO) e = Raise e' ->
    exn_type e' = SchedulePersistenceError -> exists s, from_crontab (sr_cron data) (sr_timezone data) = Some e' \/ refusal s = Some e') as Hother
    by (intros e He e' [= <-]; done).
  apply swp_check_request; [intros Hcron _ _|intros e He].
  2: { split_and!; [done..|by left|]. intros e' [= <-] Ht. destruct He as [He|He]; [done|].
       exists {| rj_schedule_id := 0; rj_script_id := 0; rj_cron := []; rj_timezone := []; rj_node_ids := [];
                 rj_params := []; rj_misfire_grace_seconds := 0 |}. by left. }
  sched_step. sched_step.
  2: { split_and!; [done..|by left|]. apply Hother. by eapply foreign_not_domain. }
  destruct (upsert_schedule script_id data w) as [[row|e] w1] eqn:Eup; [|done].
  destruct (upsert_spec _ _ _ _ _ Eup Hw) as (Hw1 & Hs1 & Hrow & Hsaved & Hj1 & Hup). cbn [fst snd].
  pose proof (add_or_replace_cases (_to_runtime row) w1) as Hadd.
  change (rj_script_id (_to_runtime row)) with (sv_script_id row) in Hadd. rewrite (sa_script _ _ _ Hsaved) in Hadd.
  sched_step. sched_step. sched_step; [|done].
  destruct (refusal (_to_runtime row)) as [e|] eqn:Eref.
  - destruct Hadd as (jobs & -> & Hjobs). cbn [fst snd].
    assert (wf (set_jobs w1 jobs)) as Hw2.
    { destruct Hjobs as [->| ->]; [by rewrite set_jobs_self|by apply delete_jobs_wf]. }
    assert (same_but script_id w (set_jobs w1 jobs)) as Hs2.
    { apply same_but_jobs; [done|]. intros j Hj. destruct Hjobs as [->| ->]; [done|]. by rewrite lookup_delete_ne. }
    assert (forall e, saved_outcome script_id data w (Raise e) (set_jobs w1 jobs)) as Hout
      by (intros e'; right; by exists row).
    unfold on_classes. destruct (existsb _ _).
    2: { split_and!; [done..|]. intros e' [= <-] _. by exists (_to_runtime row); right. }
    sched_step. sched_step; cbn [fst snd].
    + rewrite (mark_registration_failed _ _ row) by done. cbn [fst snd]. split_and!; [done..|by apply Hother].
    + split_and!; [done..|]. apply Hother. by eapply foreign_not_domain.
  - rewrite Hadd. cbn [fst snd]. set (w2 := set_jobs w1 _).
    assert (wf w2) as Hw2.
    { pose proof (insert_job_wf w1 (_to_runtime row) Hw1) as Hi.
      change (rj_script_id (_to_runtime row)) with (sv_script_id row) in Hi. by rewrite (sa_script _ _ _ Hsaved) in Hi. }
    assert (same_but script_id w w2) as Hs2 by (apply same_but_jobs; [done|]; intros j Hj; by rewrite lookup_insert_ne).
    assert (forall e, saved_outcome script_id data w (Raise e) w2) as Hout by (intros e; right; by exists row).
    sched_step. sched_step; cbn [fst snd].
    2: { split_and!; [done..|]. apply Hother. by eapply foreign_not_domain. }
    rewrite (mark_registration_ok w2 _ row) by exact Hrow. cbn [fst snd jv_next_run_at].
    set (row' := with_registration _ _ _ row). set (w3 := set_rows w2 _).
    assert (wf w3) as Hw3 by (apply insert_row_wf; [done|apply (sa_script _ _ _ Hsaved)|done]).
    assert (same_but script_id w w3) as Hs3 by (by apply same_but_row).
    assert (w_rows w3 !! script_id = Some row') as Hrow' by (cbn; apply lookup_insert_eq).
    assert (saved script_id data row') as Hsaved' by (by apply saved_registration).
    sched_step. sched_step; [|done]. sched_step. sched_step; cbn [fst snd].
    2: { split_and!; [by destruct Hw3; split|by intros k Hk; apply Hs3|right; by exists row'|].
         apply Hother. by eapply foreign_not_domain. }
    sched_step. cbn [publish w_rows]. rewrite Hrow'. cbn [default from_option].
    split_and!; [by destruct Hw3; split|by intros k Hk; apply Hs3| |done].
    split_and!; [done|done|done|cbn; apply lookup_insert_eq|done].
Qed.

(** Creating or replacing a schedule touches no other schedule or job; when it returns, the
    row asks for exactly the request and is registered, the job is its runtime projection and
    the view is the row; when it raises, either nothing was written or the row holds the
    request; the error meant for a schedule that was saved but not registered is never raised. *)
Theorem create_or_update_outcome (script_id : uuid) (data : ScheduleRequestDTO) (w w' : world)
    (r : res ScheduleViewDTO) :
  wf w ->
  (forall cron timezone e, from_crontab cron timezone = Some e -> foreign e) ->
  (forall s e, add_job_error s = Some e -> foreign e) ->
  exec (with_faults serve schedule_faults) (create_or_update script_id data) w r w' ->
  same_but script_id w w' /\ saved_outcome script_id data w r w' /\
  (forall e, r = Raise e -> exn_type e <> SchedulePersistenceError).
Proof.
  intros Hw Hcron Hadd Hx.
  destruct (swp_exec _ _ _ _ _ _ (swp_create_or_update script_id data w Hw) Hx) as (_ & Hs & Ho & He).
  split_and!; [done..|]. intros e -> Ht. destruct (He e eq_refl Ht) as [s Hs'].
  assert (foreign e) as [_ Hd]; [|by rewrite Ht in Hd].
  destruct Hs' as [Hc|Hc]; [exact (Hcron _ _ _ Hc)|]. unfold refusal in Hc.
  destruct (from_crontab (rj_cron s) (rj_timezone s)) as [e0|] eqn:E; [|exact (Hadd _ _ Hc)]. injection Hc as ->. exact (Hcron _ _ _ E).
Qed.

Lemma update_state_wf script_id change w : wf w ->
  (forall row, sv_script_id (change row) = sv_script_id row) -> wf (_update_state script_id change w).2.
Proof.
  intros Hw Hid. unfold _update_state. destruct (w_rows w !! script_id) as [row|] eqn:Ek; [|done].
  destruct (chk_operational_state (change row)) eqn:Ec; [|done]. apply insert_row_wf; [done| |done].
  rewrite Hid. by apply Hw.
Qed.

Lemma with_runs_check run success failure error row :
  chk_operational_state (with_runs run success failure error row) = chk_operational_state row.
Proof. done. Qed.

(** Recording a run on a row that satisfies the constraint succeeds. *)
Lemma update_runs script_id run success failure error w :
  wf w -> exists w1, _update_state script_id (with_runs run success failure error) w = (Ok tt, w1) /\ wf w1 /\
  w_jobs w1 = w_jobs w /\ w_clock w1 = w_clock w /\
  w_rows w1 = alter (with_runs run success failure error) script_id (w_rows w).
Proof.
  intros Hw. pose proof (update_state_wf script_id (with_runs run success failure error) w Hw) as Hwf.
  unfold _update_state in *. destruct (w_rows w !! script_id) as [row|] eqn:Ek.
  - rewrite with_runs_check, (wf_check _ Hw _ _ Ek) in *. eexists. split; [done|]. split; [by apply Hwf|].
    split_and!; [done..|]. cbn. apply map_eq. intros j. destruct (decide (j = script_id)) as [->|Hj].
    + by rewrite lookup_insert_eq, lookup_alter_eq, Ek.
    + by rewrite lookup_insert_ne, lookup_alter_ne.
  - exists w. split_and!; [done..|]. apply map_eq. intros j. destruct (decide (j = script_id)) as [->|Hj].
    + by rewrite lookup_alter_eq, Ek.
    + by rewrite lookup_alter_ne.
Qed.

Ltac mark_step := match goal with
  | Hw : wf ?w |- context [mark_started ?k ?t ?w] =>
      let E := fresh "E" in destruct (update_runs k (Some t) None None None w Hw) as (? & E & ? & ? & ? & ?);
      change (mark_started k t w) with (_update_state k (with_runs (Some t) None None None) w); rewrite E
  | Hw : wf ?w |- context [mark_succeeded ?k ?t ?w] =>
      let E := fresh "E" in destruct (update_runs k None (Some t) None (Some None) w Hw) as (? & E & ? & ? & ? & ?);
      change (mark_succeeded k t w) with (_update_state k (with_runs None (Some t) None (Some None)) w); rewrite E
  | Hw : wf ?w |- context [mark_failed ?k ?t ?e ?w] =>
      let E := fresh "E" in destruct (update_runs k None None (Some t) (Some (Some e)) w Hw) as (? & E & ? & ? & ? & ?);
      change (mark_failed k t e w) with (_update_state k (with_runs None None (Some t) (Some (Some e))) w); rewrite E
  end; cbn [fst snd].

(** A scheduled run is recorded on its schedule: after a run in which no node reported an
    error the row has the success and no error type; after any other, unless the database itself
    failed, it has the failure and the class of the error that is raised. *)
Theorem execute_records_outcome (script_id : uuid) (node_ids : list uuid) (params : jobject) (w w' : world)
    (r : res unit) (row : ScheduleViewDTO) :
  wf w -> w_rows w !! script_id = Some row ->
  exn_name ScheduledScriptExecutionError = #"ScheduledScriptExecutionError" ->
  exec (with_faults serve schedule_faults) (execute script_id node_ids params) w r w' ->
  match r with
  | Ok _ => w_rows w' !! script_id
      = Some (with_runs (Some (w_clock w)) (Some (w_clock w)) None (Some None) row)
  | Raise e => foreign e \/ w_rows w' !! script_id
      = Some (with_runs (Some (w_clock w)) None (Some (w_clock w)) (Some (Some (exn_name (exn_type e)))) row)
  end.
Proof.
  intros Hw Hrow Hname Hx. refine (swp_exec _ _ _ (fun r w' => match r with Ok _ => _ | Raise e => _ end) r w' _ Hx).
  unfold execute. sched_step. sched_step; [|done]. sched_step. sched_step; [|by left]. mark_step.
  rename select world into w1. sched_step. sched_step. sched_step; cbn [fst snd].
  - destruct (existsb _ _).
    + sched_step. sched_step; [|done]. sched_step. sched_step; [|by left]. mark_step. sched_step.
      right. simplify_eq. cbn [exn_type]. rewrite Hname.
      repeat match goal with H : w_rows _ = _ |- _ => rewrite H end.
      rewrite !lookup_alter_eq, Hrow. cbn. by repeat match goal with H : w_clock _ = _ |- _ => rewrite H end.
    + sched_step. sched_step; [|done]. sched_step; [|by left]. mark_step.
      repeat match goal with H : w_rows _ = _ |- _ => rewrite H end.
      rewrite !lookup_alter_eq, Hrow. cbn. by repeat match goal with H : w_clock _ = _ |- _ => rewrite H end.
  - unfold on_exception. rewrite Hfault. sched_step. sched_step; [|done]. sched_step. sched_step; [|by left].
    mark_step. sched_step. right.
    repeat match goal with H : w_rows _ = _ |- _ => rewrite H end.
    rewrite !lookup_alter_eq, Hrow. cbn. by repeat match goal with H : w_clock _ = _ |- _ => rewrite H end.
Qed.

Lemma delete_outcome (script_id : uuid) (w w' : world) (r : res unit) :
  wf w -> exec (with_faults serve schedule_faults) (delete_schedule script_id) w r w' ->
  match r with
  | Ok _ => is_Some (w_rows w !! script_id) /\
      w_rows w' = base.delete script_id (w_rows w) /\ w_jobs w' = base.delete script_id (w_jobs w)
  | Raise e => w' = w /\ (foreign e \/ (e = schedule_not_found /\ w_rows w !! script_id = None))
  end.
Proof.
  intros Hw Hx. refine (swp_exec _ _ _ (fun r w' => match r with Ok _ => _ | Raise e => _ end) r w' _ Hx).
  unfold delete_schedule. sched_step. sched_step; [|by split; [|left]].
  unfold gateway_delete. destruct (w_rows w !! script_id) as [row|] eqn:Ek; cbn [fst snd negb].
  - sched_step. sched_step; [|done]. unfold unschedule_script. cbn [set_rows w_jobs].
    destruct (w_jobs w !! script_id) as [job|] eqn:Ej; cbn [fst snd]; sched_step; (split; [by eexists|]; split; [done|]).
    + done.
    + cbn. by rewrite delete_id.
  - sched_step. split; [done|]. by right.
Qed.

(** Deleting a schedule removes its row and its job together and nothing else; a
    script without one is reported, and the state is as it was. *)
Theorem delete_removes_row_and_job (script_id : uuid) (w w' : world) (r : res unit) :
  wf w -> exec (with_faults serve schedule_faults) (delete_schedule script_id) w r w' ->
  match r with
  | Ok _ => is_Some (w_rows w !! script_id) /\
      w_rows w' = base.delete script_id (w_rows w) /\ w_jobs w' = base.delete script_id (w_jobs w)
  | Raise e => w' = w /\ (foreign e \/ (e = schedule_not_found /\ w_rows w !! script_id = None))
  end.
Proof. apply delete_outcome. Qed.

(** ** Overlapping operations

    The use cases, the turns of the loop and the scheduled runs are tasks, and a task may be
    suspended at every call: any number of them may be under way, and each may be cancelled. *)
Inductive use_case :=
| CreateOrUpdate (script_id : uuid) (data : ScheduleRequestDTO)
| Delete (script_id : uuid)
| Restore
| ReconcileTurn
| RunJob (owns_execution configured : bool) (script_id : uuid) (node_ids : list uuid) (params : jobject).
Definition run_use_case (u : use_case) : prog unit :=
  match u with
  | CreateOrUpdate script_id data => ignore (create_or_update script_id data)
  | Delete script_id => delete_schedule script_id
  | Restore => ignore restore
  | ReconcileTurn => _reconcile_loop
  | RunJob owns configured script_id node_ids params => _execute_scheduled_script owns configured script_id node_ids params
  end.
(** The statements on the table of schedules, which other replicas execute too. *)
Definition table_statement (c : schedule_call) : Prop :=
  match c with
  | UpsertSchedule _ _ | DeleteSchedule _ | MarkRegistration _ _ _ _ | MarkStarted _ _ | MarkSucceeded _ _ | MarkFailed _ _ _ => True
  | _ => False
  end.
(** [reached w0 past w h tasks]: from [w0], the states [past] were passed through, [w] is the
    state now, [h] are the calls answered so far and [tasks] what is under way. *)
Inductive reached (w0 : world) : list world -> world -> history -> list (prog unit) -> Prop :=
| reached_start : reached w0 [] w0 [] []
| reached_begin past w h tasks u : reached w0 past w h tasks -> reached w0 past w h (tasks ++ [run_use_case u])
| reached_call past w h tasks i c k a w' :
    reached w0 past w h tasks -> tasks !! i = Some (Do c k) -> with_faults serve schedule_faults c w a w' ->
    reached w0 (past ++ [w]) w' (h ++ [existT c a]) (<[i := k a]> tasks)
| reached_end past w h tasks i : reached w0 past w h tasks -> reached w0 past w h (base.delete i tasks)
| reached_elsewhere past w h tasks c a w' :
    reached w0 past w h tasks -> table_statement c -> with_faults serve schedule_faults c w a w' ->
    reached w0 (past ++ [w]) w' h tasks
| reached_meanwhile past w h tasks w' :   (* scripts, nodes, the clock *)
    reached w0 past w h tasks -> w_rows w' = w_rows w -> w_jobs w' = w_jobs w -> reached w0 (past ++ [w]) w' h tasks.

(** The database has answered this row, as an enabled schedule. *)
Definition tells (ev : event) (row : ScheduleViewDTO) : Prop :=
  let 'existT c a := ev in
  match c return res (schedule_answer c) -> Prop with
  | UpsertSchedule _ _ => fun a => a = Ok row
  | ListEnabledSchedules => fun a => exists rows, a = Ok rows /\ row ∈ rows
  | _ => fun _ => False
  end a.
Definition told (h : history) (row : ScheduleViewDTO) : Prop := exists ev, ev ∈ h /\ tells ev row.
(** A task registers such rows only. *)
Definition registers (h : history) (c : schedule_call) : Prop :=
  match c with AddOrReplace job => exists row, told h row /\ job = _to_runtime row | _ => True end.

Lemma told_grows h h' row : told h row -> told (h ++ h') row.
Proof. intros (ev & Hin & Hev). exists ev. split; [|done]. apply elem_of_app. by left. Qed.
Lemma told_last h ev h' row : tells ev row -> told ((h ++ [ev]) ++ h') row.
Proof. intros Hev. apply told_grows. exists ev. split; [|done]. apply elem_of_app. right. by left. Qed.

Ltac task_step :=
  lazymatch goal with
  | |- gwp (_ ≫= _) _ _ _ => apply gwp_bind
  | |- gwp (try_except _ _) _ _ _ => apply gwp_try
  | |- gwp (ignore _) _ _ _ => apply gwp_bind
  | |- gwp (perform _) _ _ _ => apply gwp_perform; [try done|intros ?k ?k' ?a]
  | |- gwp (lift _) _ _ _ => apply gwp_lift; intros ?k
  | |- gwp (mret _) _ _ _ => apply gwp_lift; intros ?k
  | |- gwp match ?x with _ => _ end _ _ _ => destruct x
  | |- match on_classes ?cs ?f ?e with Some _ => _ | None => _ end => unfold on_classes; destruct (existsb _ _)
  | |- match on_exception ?f ?e with Some _ => _ | None => _ end => unfold on_exception; destruct (isinstance _ _)
  | |- match ?x with Ok _ => _ | Raise _ => _ end => destruct x
  end.

Lemma task_check_nodes node_ids h (Q : history -> res unit -> Prop) : (forall h' r, Q h' r) -> gwp (check_nodes node_ids) h registers Q.
Proof. intros HQ. revert h. induction node_ids as [|n node_ids IH]; intros h; cbn [check_nodes]; repeat task_step; auto. Qed.
Lemma task_check_request script_id data h (Q : history -> res unit -> Prop) :
  (forall h' r, Q h' r) -> gwp (check_request script_id data) h registers Q.
Proof. intros HQ. unfold check_request. repeat task_step; auto; by apply task_check_nodes. Qed.
Lemma task_remove_undesired desired runtimes h (Q : history -> res unit -> Prop) :
  (forall k r, Q (h ++ k) r) -> gwp (remove_undesired desired runtimes) h registers Q.
Proof.
  revert h. induction runtimes as [|runtime runtimes IH]; intros h HQ; cbn [remove_undesired].
  { task_step. apply HQ. }
  repeat task_step; try (apply IH); intros; rewrite <- ?app_assoc; apply HQ.
Qed.
Lemma task_register_all todo restored failed h (Q : history -> res (Z * Z) -> Prop) :
  (forall row, row ∈ todo -> told h row) -> (forall k r, Q (h ++ k) r) -> gwp (register_all todo restored failed) h registers Q.
Proof.
  revert restored failed h. induction todo as [|s todo IH]; intros restored failed h Hrows HQ; cbn [register_all].
  { task_step. apply HQ. }
  assert (forall k restored' failed', gwp (register_all todo restored' failed') (h ++ k) registers Q) as Hnext.
  { intros k restored' failed'. apply IH; [intros row Hrow; apply told_grows, Hrows; by right|].
    intros j r. rewrite <- app_assoc. apply HQ. }
  task_step. task_step. task_step. task_step; [intros j; exists s; split; [apply told_grows, Hrows; by left|done]|].
  repeat task_step; rewrite <- ?app_assoc; auto.
Qed.
Lemma task_reconcile h (Q : history -> res ScheduleReconciliationResultDTO -> Prop) :
  (forall h' r, Q h' r) -> gwp reconcile h registers Q.
Proof.
  intros HQ. unfold reconcile. task_step. task_step. destruct a as [schedules|e]; [|apply HQ].
  task_step. task_step. destruct a as [runtimes|e]; [|apply HQ]. task_step. apply task_remove_undesired. intros j r.
  destruct r; [|apply HQ]. task_step. apply task_register_all.
  - intros row Hrow. do 4 apply told_grows. apply told_last. exists schedules. by split.
  - intros j' r. repeat task_step; apply HQ.
Qed.
Lemma task_create_or_update script_id data h (Q : history -> res ScheduleViewDTO -> Prop) :
  (forall h' r, Q h' r) -> gwp (create_or_update script_id data) h registers Q.
Proof.
  intros HQ. unfold create_or_update. task_step. apply task_check_request. intros h' r. destruct r as [[]|]; [|apply HQ].
  task_step. task_step. destruct a as [row|e]; [|apply HQ]. task_step. task_step.
  task_step; [intros j; exists row; split; [|done]|repeat task_step; apply HQ].
  apply told_grows. by apply told_last.
Qed.
Lemma task_use_case u h : gwp (run_use_case u) h registers (fun _ _ => True).
Proof.
  destruct u as [script_id data|script_id| | |owns configured script_id node_ids params]; cbn [run_use_case].
  - task_step. by apply task_create_or_update; intros ? [].
  - unfold delete_schedule. by repeat task_step.
  - task_step. unfold restore. task_step. apply task_reconcile. intros h' [result|e]; by repeat task_step.
  - unfold _reconcile_loop, restore. task_step. task_step. task_step. apply task_reconcile. intros h' [result|e]; by repeat task_step.
  - unfold _execute_scheduled_script. destruct owns; [|done]. destruct configured; [|done]. unfold execute. by repeat task_step.
Qed.

(** What a call does to the tables and the jobs. *)
Lemma served_wf c w a w' : wf w -> with_faults serve schedule_faults c w a w' -> wf w'.
Proof.
  intros Hw [E|[-> _]]; [|done]. assert (w' = (serve c w).2) as -> by by rewrite <- E. clear E. destruct c; try done.
  - by destruct (upsert_spec script_id data w _ _ eq_refl Hw).
  - cbn. unfold gateway_delete. destruct (w_rows w !! script_id); [|done].
    destruct Hw. split; cbn; [intros k row [_ ?]%lookup_delete_Some; eauto..|done].
  - by apply update_state_wf.
  - by apply update_state_wf.
  - by apply update_state_wf.
  - by apply update_state_wf.
  - cbn. pose proof (add_or_replace_cases schedule w) as Ha. destruct (refusal schedule).
    + destruct Ha as (jobs & -> & [->| ->]); cbn; [by rewrite set_jobs_self|by apply delete_jobs_wf].
    + rewrite Ha. by apply insert_job_wf.
  - cbn. unfold unschedule_script. destruct (w_jobs w !! script_id); [by apply delete_jobs_wf|done].
  - cbn. by destruct Hw; split.
  - cbn. by destruct Hw; split.
Qed.
Lemma update_jobs script_id change w : w_jobs (_update_state script_id change w).2 = w_jobs w.
Proof. unfold _update_state. destruct (_ !! _); [|done]. by destruct (chk_operational_state _). Qed.
Lemma served_jobs c w a w' k job : with_faults serve schedule_faults c w a w' -> w_jobs w' !! k = Some job ->
  w_jobs w !! k = Some job \/ c = AddOrReplace job.
Proof.
  intros [E|[-> _]]; [|by left]. assert (w' = (serve c w).2) as -> by by rewrite <- E. clear E.
  destruct c; try (by left); cbn [serve];
    try (unfold mark_registration, mark_started, mark_succeeded, mark_failed; rewrite update_jobs; by left).
  - unfold gateway_delete. destruct (w_rows w !! script_id); by left.
  - pose proof (add_or_replace_cases schedule w) as Ha. destruct (refusal schedule).
    + destruct Ha as (jobs & -> & [->| ->]); cbn; [by left|]. intros [_ ?]%lookup_delete_Some. by left.
    + rewrite Ha. cbn. intros [[<- <-]|[_ ?]]%lookup_insert_Some; [by right|by left].
  - unfold unschedule_script. destruct (w_jobs w !! script_id); [|by left].
    cbn. intros [_ ?]%lookup_delete_Some. by left.
Qed.

(** The row was stored at some time, as an enabled schedule of its script. *)
Definition stored_once (states : list world) (row : ScheduleViewDTO) : Prop :=
  sv_enabled row = true /\ exists w, w ∈ states /\ w_rows w !! sv_script_id row = Some row.
Record reach_inv (past : list world) (w : world) (h : history) (tasks : list (prog unit)) : Prop := {
  ri_wf : wf w;
  ri_told : forall row, told h row -> stored_once (past ++ [w]) row;
  ri_jobs : forall k job, w_jobs w !! k = Some job -> exists row, stored_once (past ++ [w]) row /\ job = _to_runtime row;
  ri_tasks : Forall (fun p => gwp p h registers (fun _ _ => True)) tasks }.

Lemma stored_later states w row : stored_once states row -> stored_once (states ++ [w]) row.
Proof. intros (He & w1 & Hw & Hr). split; [done|]. exists w1. split; [|done]. apply elem_of_app. by left. Qed.
Lemma stored_now states w row : sv_enabled row = true -> w_rows w !! sv_script_id row = Some row -> stored_once (states ++ [w]) row.
Proof. intros He Hr. split; [done|]. exists w. split; [|done]. apply elem_of_app. right. by left. Qed.

Lemma served_told c w a w' row states : wf w -> with_faults serve schedule_faults c w a w' ->
  tells (existT c a) row -> stored_once ((states ++ [w]) ++ [w']) row.
Proof.
  intros Hw [E|(-> & e & -> & _)] Ht; [|destruct c; try done; by destruct Ht as (? & ? & _)].
  destruct c; try done; cbn [serve tells] in *.
  - subst a. destruct (upsert_schedule script_id data w) as [r w1] eqn:Eu. injection E as <- <-.
    destruct (upsert_spec _ _ _ _ _ Eu Hw) as (_ & _ & Hr & Hs & _). rewrite <- (sa_script _ _ _ Hs) in Hr.
    apply stored_now; [apply Hs|done].
  - destruct Ht as (rows & -> & Hrow). injection E as -> ->.
    apply (enabled_rows w) in Hrow as [Hr He]; [|done]. by apply stored_now.
Qed.

Lemma reach_ok w0 past w h tasks : wf w0 -> w_jobs w0 = ∅ -> reached w0 past w h tasks -> reach_inv past w h tasks.
Proof.
  intros Hw0 Hj0. induction 1 as [|past w h tasks u _ IH|past w h tasks i c k a w' _ IH Hi Hc|past w h tasks i _ IH
    |past w h tasks c a w' _ IH Ht Hc|past w h tasks w' _ IH Er Ej].
  - split; [done| | |done].
    + intros row (ev & Hin & _). by apply elem_of_nil in Hin.
    + intros k job. rewrite Hj0, lookup_empty. done.
  - destruct IH as [H1 H2 H3 H4]. split; [done..|]. apply Forall_app. split; [done|]. constructor; [apply task_use_case|done].
  - destruct IH as [H1 H2 H3 H4]. pose proof (Forall_lookup_1 _ _ _ _ H4 Hi) as Hp.
    apply gwp_wp in Hp. cbn in Hp. destruct Hp as [Hg _].
    split.
    + by eapply served_wf.
    + intros row (ev & [Hin|Hin%list_elem_of_singleton]%elem_of_app & Hev).
      * apply stored_later, H2. by exists ev.
      * subst ev. by eapply served_told.
    + intros j job [Hj| ->]%(served_jobs _ _ _ _ _ _ Hc).
      * destruct (H3 j job Hj) as (row & Hrow & ->). exists row. split; [by apply stored_later|done].
      * destruct Hg as (row & Hrow & ->). exists row. split; [by apply stored_later, H2|done].
    + apply Forall_insert; [eapply Forall_impl; [exact H4|]; intros p Hp; by apply gwp_extend|].
      pose proof (Forall_lookup_1 _ _ _ _ H4 Hi) as Hp. cbn in Hp. destruct (Hp []) as [_ Hk]. by rewrite app_nil_r in Hk.
  - destruct IH as [H1 H2 H3 H4]. split; [done..|]. by apply Forall_delete.
  - destruct IH as [H1 H2 H3 H4]. split; [by eapply served_wf|intros row Hrow; by apply stored_later, H2| |done].
    intros j job [Hj| ->]%(served_jobs _ _ _ _ _ _ Hc); [|done].
    destruct (H3 j job Hj) as (row & Hrow & ->). exists row. split; [by apply stored_later|done].
  - destruct IH as [H1 H2 H3 H4]. split; [|intros row Hrow; by apply stored_later, H2| |done].
    + destruct H1. split; intros ? ?; rewrite ?Er, ?Ej; eauto.
    + rewrite Ej. intros j job Hj. destruct (H3 j job Hj) as (row & Hrow & ->). exists row. split; [by apply stored_later|done].
Qed.

End properties.

(** ** Concrete runs *)

#[local] Abbreviation run_now := (@run_state schedule_signature world serve _).

#[local] Instance test_names : ExnNames :=
  {| exn_name c := match c with ValueError => #"ValueError" | ScheduledScriptExecutionError => #"ScheduledScriptExecutionError" | _ => #"Exception" end |}.
#[local] Instance test_jobs : JobRuntime :=
  {| from_crontab cron _ := if str_eqb cron #"bad" then Some (Exn ValueError #"Wrong number of fields") else None;
     add_job_error _ := None; next_run_time _ := Some 100%Z |}.
Definition test_request (cron : pystr) : ScheduleRequestDTO :=
  {| sr_cron := cron; sr_node_ids := [2%N]; sr_params := []; sr_timezone := #"UTC"; sr_misfire_grace_seconds := 60 |}.
Definition empty_world : world :=
  {| w_scripts := {[ 1%N ]}; w_nodes := {[ 2%N ]}; w_rows := ∅; w_jobs := ∅; w_ready := false; w_published := [];
     w_fresh := 10%N; w_clock := 50; w_results := [ #"success"] |}.
(** One schedule was saved; its expression is one the runtime now refuses. *)
Definition world_with (cron : pystr) : world := (upsert_schedule 1 (test_request cron) empty_world).2.

Lemma empty_wf : wf empty_world.
Proof. split; cbn; intros k; rewrite lookup_empty; [done..|by intros [? ?]]. Qed.

Lemma world_with_wf cron : wf (world_with cron).
Proof. by destruct (upsert_spec 1 (test_request cron) empty_world _ _ eq_refl empty_wf). Qed.

Lemma reconcile_refines_projection_witness :
  projection (world_with #"* * * * *") 1 <> None /\
  is_ok (run_now reconcile (world_with #"* * * * *")).1 = true /\
  is_ok (run_now reconcile (world_with #"bad")).1 = false.
Proof.
  split; [by vm_compute|]. split; [|vm_compute; reflexivity].
  apply (reconcile_refines_projection (world_with #"* * * * *") (world_with_wf _)).
  intros s Hs. unfold refusal. cbn [add_job_error test_jobs from_crontab].
  apply enabled_rows in Hs as [Hs _]; [|apply world_with_wf].
  unfold world_with, upsert_schedule in Hs. cbn [w_rows snd] in Hs.
  apply lookup_insert_Some in Hs as [[_ <-]|[_ Hs]]; [by vm_compute|].
  cbn [empty_world w_rows] in Hs. by rewrite lookup_empty in Hs.
Defined.

Lemma create_or_update_outcome_witness :
  let '(r, w') := run_now (create_or_update 1 (test_request #"* * * * *")) empty_world in
  is_ok r = true /\ saved_outcome 1 (test_request #"* * * * *") empty_world r w'.
Proof.
  destruct (run_now _ _) as [r w'] eqn:E. split; [apply (f_equal fst) in E; cbn in E; by rewrite <- E|].
  apply (create_or_update_outcome 1 (test_request #"* * * * *") empty_world w' r empty_wf).
  - intros cron timezone e. cbn. destruct (str_eqb cron #"bad"); [|done]. by intros [= <-].
  - done.
  - by apply (@run_state_exec schedule_signature).
Defined.

Lemma execute_records_outcome_witness :
  let w := (run_now (execute 1 [2%N] []) (world_with #"* * * * *")).2 in
  sv_last_success_at <$> w_rows w !! 1%N = Some (Some 50%Z).
Proof.
  cbn zeta. destruct (run_now (execute 1 [2%N] []) (world_with #"* * * * *")) as [r w'] eqn:E. cbn [snd].
  pose proof (execute_records_outcome 1 [2%N] [] (world_with #"* * * * *") w' r
    (upserted 10 1 None (test_request #"* * * * *")) (world_with_wf _)) as Hr.
  destruct r as [[]|e]; [|vm_compute in E; discriminate E].
  rewrite Hr; [reflexivity|vm_compute; reflexivity|reflexivity|]. by apply (@run_state_exec schedule_signature).
Defined.

Lemma delete_removes_row_and_job_witness :
  let '(r, w') := run_now (delete_schedule 1) (world_with #"* * * * *") in
  r = Ok tt /\ w_rows w' = base.delete 1%N (w_rows (world_with #"* * * * *")).
Proof.
  destruct (run_now _ _) as [r w'] eqn:E.
  pose proof (delete_removes_row_and_job 1 (world_with #"* * * * *") w' r (world_with_wf _)) as Hd.
  destruct r as [[]|e]; [|vm_compute in E; discriminate E]. split; [done|]. apply Hd.
  by apply (@run_state_exec schedule_signature).
Defined.

(** The tasks take turns; nothing fails. *)
Fixpoint run_turns (turns : list nat) (past : list world) (w : world) (h : history) (tasks : list (prog unit))
    : list world * world * history * list (prog unit) :=
  match turns with
  | [] => (past, w, h, tasks)
  | i :: turns =>
      match tasks !! i with
      | Some (Do c k) =>
          let '(a, w') := serve c w in run_turns turns (past ++ [w]) w' (h ++ [existT c a]) (<[i := k a]> tasks)
      | _ => run_turns turns past w h tasks
      end
  end.
Lemma run_turns_reached w0 turns past w h tasks : reached w0 past w h tasks ->
  let '(past', w', h', tasks') := run_turns turns past w h tasks in reached w0 past' w' h' tasks'.
Proof.
  revert past w h tasks. induction turns as [|i turns IH]; intros past w h tasks Hr; cbn [run_turns]; [done|].
  destruct (tasks !! i) as [[r|c k]|] eqn:Ei; [by apply IH| |by apply IH].
  destruct (serve c w) as [a w'] eqn:E. apply IH. eapply reached_call; [exact Hr|exact Ei|]. by left.
Qed.
Definition two_scripts : world :=
  {| w_scripts := {[ 1%N; 2%N ]}; w_nodes := {[ 2%N ]}; w_rows := ∅; w_jobs := ∅; w_ready := false; w_published := [];
     w_fresh := 10%N; w_clock := 50; w_results := [ #"success"] |}.
Definition busy_tasks : list (prog unit) :=
  [run_use_case (CreateOrUpdate 1 (test_request #"* * * * *")); run_use_case (CreateOrUpdate 2 (test_request #"* * * * *"));
   run_use_case ReconcileTurn; run_use_case (Delete 1)].
(** Both schedules are saved; one is deleted while the reconciliation is at the other. *)
Definition busy_turns : list nat := replicate 8 0 ++ replicate 8 1 ++ [2; 2; 2; 3; 3] ++ replicate 9 2.
Definition busy_end := run_turns busy_turns [] two_scripts [] busy_tasks.

Lemma two_wf : wf two_scripts.
Proof. split; cbn; intros k; by rewrite lookup_empty. Qed.
Lemma busy_reached : let '(past, w, h, tasks) := busy_end in reached two_scripts past w h tasks.
Proof.
  apply run_turns_reached.
  pose proof (reached_start two_scripts) as Hr. apply (reached_begin _ _ _ _ _ (CreateOrUpdate 1 (test_request #"* * * * *"))) in Hr.
  apply (reached_begin _ _ _ _ _ (CreateOrUpdate 2 (test_request #"* * * * *"))) in Hr.
  apply (reached_begin _ _ _ _ _ ReconcileTurn) in Hr. apply (reached_begin _ _ _ _ _ (Delete 1)) in Hr. exact Hr.
Qed.

(** The schedule that was deleted has no row, but a job. *)
Example deleted_schedule_comes_back :
  let '(_, w, _, tasks) := busy_end in
  Forall (fun p => match p with Done (Ok _) => True | _ => False end) tasks /\
  is_Some (w_rows w !! 2%N) /\ w_rows w !! 1%N = None /\ is_Some (w_jobs w !! 1%N).
Proof. vm_compute. split; [repeat constructor|]. split; [by eexists|]. split; [done|by eexists]. Qed.

