(* ===== verification/ScriptBatch.v ===== *)
(** * Scripts on several nodes ([ScriptExecutionService.execute_script])

    The whole use case around [Script._run_remote]: loading the definition, resolving
    steps and targets, creating one execution record per node, the gathered workers under
    a timeout for the whole script, and recording the outcome.  Schedules are arbitrary
    (the semaphore of the code, five workers at a time, only excludes some of them);
    cancelling one execution is the answer [CancelledError] to the call its worker
    awaits. *)
From S2P Require Import Prelude PyStr Errors Json Bytes Effects Dto Output Template Script.

(** ** Data and ports *)

Record ScriptExecutionRequestDTO := {
  sq_node_ids : list uuid; sq_tags : list pystr; sq_params : jobject; sq_trigger : pystr;
  sq_schedule_id : option uuid; sq_timeout : option Z }.
Record ScriptDefinitionDTO := { sf_id : uuid; sf_steps : list jobject; sf_timeout : Z }.
Record ScriptExecutionBatchResultDTO := { sb_script_id : uuid; sb_results : list ScriptNodeResultDTO }.
(** The values of a new execution record (parameters empty, status running, no steps) and
    of its update; [None] leaves a field out.  The clock readings are left out. *)
Record NewExecution := {
  ne_script_id : uuid; ne_node_id : uuid; ne_status : pystr; ne_trigger : pystr; ne_schedule_id : option uuid;
  ne_timeout : Z }.
Record ExecutionUpdate := {
  eu_status : pystr; eu_steps : list ScriptStepResultDTO; eu_timeout : option Z }.

Inductive batch_call :=
| Remote (c : script_call)
| GetDefinition (script_id : uuid)
| CreateExecution (data : NewExecution)
| UpdateExecution (execution_id : uuid) (data : ExecutionUpdate)
| RegisterExecution (execution_id : uuid)
| PublishEvent (event : pystr) (execution_id script_id node_id : uuid) (status : pystr)
| LogAudit (node_id script_id : uuid) (status : pystr).
Definition batch_answer (c : batch_call) : Type :=
  match c with
  | Remote c => script_answer c
  | GetDefinition _ => option ScriptDefinitionDTO
  | CreateExecution _ => uuid
  | UpdateExecution _ _ | RegisterExecution _ | PublishEvent _ _ _ _ _ | LogAudit _ _ _ => unit
  end.
#[local] Instance script_signature : Signature := {| call := script_call; answer := script_answer |}.
#[local] Instance batch_signature : Signature := {| call := batch_call; answer := batch_answer |}.

(** The calls of [Script], among those of the whole use case. *)
Fixpoint remote {A} (p : @prog script_signature A) : @prog batch_signature A :=
  match p with
  | Done r => Done r
  | Do c k => @Do batch_signature A (Remote c) (fun a => remote (k a))
  end.

(** ** Concurrency *)

Section concurrency.
Context {A : Type}.

(** The turns of a schedule, then the rest. *)
Fixpoint turns {B} (sched : list nat) (ps : list (prog A)) (f : list (prog A) -> prog B) : prog B :=
  match sched with
  | [] => f ps
  | i :: sched =>
      match ps !! i with
      | Some (Do c k) => Do c (fun a => turns sched (<[i := k a]> ps) f)
      | _ => turns sched ps f
      end
  end.

(** The call a worker awaits is cancelled. *)
Definition cancelled : exn := Exn CancelledError [].
Definition interrupt (p : prog A) : prog A :=
  match p with Done r => Done r | Do c k => Do c (fun _ => k (Raise cancelled)) end.

Definition finished (p : prog A) : bool := if p is Done _ then true else false.
Definition raised (p : prog A) : bool := if p is Done (Raise _) then true else false.

(** [asyncio.wait_for(asyncio.gather(...), timeout)]: at the timeout, unless the gathering
    is over, every unfinished worker is cancelled. *)
Definition wait_for (sched : list nat) (timed_out : bool) (ps : list (prog A)) : prog (list A) :=
  turns sched ps (fun ps =>
    if timed_out && negb (existsb raised ps) && negb (forallb finished ps)
    then finish_all (interrupt <$> ps) (fun rs => Done (Ok rs)) ≫= fun _ => lift (raise TimeoutError [])
    else finish_all ps (fun rs => Done (Ok rs)) ≫= fun rs => lift (first_error rs)).
End concurrency.

(** ** The use case *)

Section batch.
Context `{Unicode} `{PyFloat}.
Context (parse_uuid : pystr -> option uuid) (sha256_hex : bytes -> pystr) (has_audit : bool).

Definition terminal_status (success : bool) : pystr := if success then #"success" else #"error".

Fixpoint resolve_steps (steps : list jobject) (params : jobject) : prog (list ResolvedScriptStepDTO) :=
  match steps with
  | [] => mret []
  | step :: steps =>
      s ← remote (_resolve_step parse_uuid step params);
      ss ← resolve_steps steps params;
      mret (s :: ss)
  end.

Fixpoint create_targets (script_id : uuid) (request : ScriptExecutionRequestDTO) (timeout : Z)
    (steps : list ResolvedScriptStepDTO) (nodes : list NodeConnectionDTO) : prog (list ScriptExecutionTargetDTO) :=
  match nodes with
  | [] => mret []
  | node :: nodes =>
      execution_id ← perform (CreateExecution
        {| ne_script_id := script_id; ne_node_id := n_id node; ne_status := #"running"; ne_trigger := sq_trigger request;
           ne_schedule_id := sq_schedule_id request; ne_timeout := timeout |});
      targets ← create_targets script_id request timeout steps nodes;
      mret ({| st_execution_id := execution_id; st_script_id := script_id; st_node := node;
               st_steps := steps; st_timeout := timeout |} :: targets)
  end.

(** The worker of one target: it registers its task, so that it can be cancelled. *)
Definition run_target (target : ScriptExecutionTargetDTO) : prog ScriptNodeResultDTO :=
  perform (RegisterExecution (st_execution_id target));;
  remote (_run_remote sha256_hex target).

(** [try: await update(...) except Exception: warn else: publish]. *)
Definition record_outcome (execution_id script_id node_id : uuid) (event status : pystr)
    (data : ExecutionUpdate) : prog unit :=
  saved ← try_except (perform (UpdateExecution execution_id data);; mret true)
            (on_exception (fun _ => mret false));
  if (saved : bool) then perform (PublishEvent event execution_id script_id node_id status) else mret tt.

Fixpoint mark_timed_out (script_id : uuid) (timeout : Z) (targets : list ScriptExecutionTargetDTO) : prog unit :=
  match targets with
  | [] => mret tt
  | target :: targets =>
      record_outcome (st_execution_id target) script_id (n_id (st_node target)) #"execution.failed" #"error"
        {| eu_status := #"error"; eu_steps := []; eu_timeout := Some timeout |};;
      mark_timed_out script_id timeout targets
  end.

Definition _log_result (script_id : uuid) (result : ScriptNodeResultDTO) : prog unit :=
  if has_audit then
    try_except (perform (LogAudit (sn_node_id result) script_id (terminal_status (sn_success result))))
      (on_class AuditWriteError (fun _ => mret tt))
  else mret tt.

Fixpoint record_results (script_id : uuid) (results : list ScriptNodeResultDTO) : prog unit :=
  match results with
  | [] => mret tt
  | result :: results =>
      let status := terminal_status (sn_success result) in
      record_outcome (sn_execution_id result) script_id (sn_node_id result)
        (if sn_success result then #"execution.completed" else #"execution.failed") status
        {| eu_status := status; eu_steps := sn_steps result; eu_timeout := None |};;
      _log_result script_id result;;
      record_results script_id results
  end.

(** Everything before the workers start: targets that are recorded as running. *)
Definition prepare_script (script_id : uuid) (request : ScriptExecutionRequestDTO)
    : prog (Z * list ScriptExecutionTargetDTO) :=
  definition ← perform (GetDefinition script_id);
  match definition with
  | None => lift (raise ScriptNotFoundError (#"Script " ++ uuid_str script_id ++ #" not found"))
  | Some definition =>
      let params := dict_of (sq_params request) in
      steps ← resolve_steps (sf_steps definition) params;
      nodes ← remote (resolve_targets (sq_node_ids request) (sq_tags request));
      (match nodes, sq_node_ids request with
       | [], _ :: _ => lift (raise NodeNotFoundError #"Node not found")
       | _, _ => mret tt
       end);;
      let timeout := default (sf_timeout definition) (sq_timeout request) in
      targets ← create_targets script_id request timeout steps nodes;
      mret (timeout, targets)
  end.

(** The workers, and what is left to do when the time is over. *)
Definition run_targets (sched : list nat) (timed_out : bool) (script_id : uuid) (timeout : Z)
    (targets : list ScriptExecutionTargetDTO) : prog (list ScriptNodeResultDTO) :=
  try_except (wait_for sched timed_out (run_target <$> targets))
    (on_class TimeoutError (fun _ =>
       mark_timed_out script_id timeout targets;;
       lift (raise TimeoutError (#"Script execution timed out after " ++ str_Z timeout ++ #"s")))).

Definition execute_script (sched : list nat) (timed_out : bool) (script_id : uuid)
    (request : ScriptExecutionRequestDTO) : prog ScriptExecutionBatchResultDTO :=
  '(timeout, targets) ← prepare_script script_id request;
  results ← run_targets sched timed_out script_id timeout targets;
  record_results script_id results;;
  mret {| sb_script_id := script_id; sb_results := results |}.
End batch.

(** ** What a history records *)

(** The attempted updates, with whether they were answered; the events; and the executions
    that were created, with their nodes. *)
Definition attempts (h : history) : list (uuid * ExecutionUpdate * bool) :=
  omap (fun ev : event =>
    let '(existT c a) := ev in
    match c return res (batch_answer c) -> option (uuid * ExecutionUpdate * bool) with
    | UpdateExecution id data => fun a => Some (id, data, is_ok a)
    | _ => fun _ => None
    end a) h.
Definition updates (h : history) : list (uuid * pystr) := (fun x => (x.1.1, eu_status x.1.2)) <$> attempts h.
Definition published (h : history) : list (pystr * uuid * pystr) :=
  omap (fun ev => match called ev with PublishEvent event id _ _ status => Some (event, id, status) | _ => None end) h.
Definition created (h : history) : list (uuid * uuid) :=
  omap (fun ev : event =>
    let '(existT c a) := ev in
    match c return res (batch_answer c) -> option (uuid * uuid) with
    | CreateExecution data => fun a => if a is Ok id then Some (id, ne_node_id data) else None
    | _ => fun _ => None
    end a) h.

(** A call that neither creates nor updates an execution, nor publishes an event. *)
Definition quiet (c : call) : Prop :=
  match c with CreateExecution _ | UpdateExecution _ _ | PublishEvent _ _ _ _ _ => False | _ => True end.

Lemma attempts_other h ev : (if called ev is UpdateExecution _ _ then False else True) -> attempts (h ++ [ev]) = attempts h.
Proof. intros Hq. unfold attempts. rewrite omap_app. destruct ev as [[] a]; cbn in *; done || by rewrite app_nil_r. Qed.
Lemma published_other h ev : (if called ev is PublishEvent _ _ _ _ _ then False else True) -> published (h ++ [ev]) = published h.
Proof. intros Hq. unfold published. rewrite omap_app. destruct ev as [[] a]; cbn in *; done || by rewrite app_nil_r. Qed.
Lemma created_other h ev : (if called ev is CreateExecution _ then False else True) -> created (h ++ [ev]) = created h.
Proof. intros Hq. unfold created. rewrite omap_app. destruct ev as [[] a]; cbn in *; done || by rewrite app_nil_r. Qed.

(** The history goes on without recording anything. *)
Record unrecorded (h h' : history) : Prop := {
  un_attempts : attempts h' = attempts h; un_published : published h' = published h; un_created : created h' = created h }.
Lemma unrecorded_refl h : unrecorded h h.
Proof. done. Qed.
Lemma unrecorded_trans h1 h2 h3 : unrecorded h1 h2 -> unrecorded h2 h3 -> unrecorded h1 h3.
Proof. intros [] []. split; congruence. Qed.
Lemma unrecorded_quiet h ev : quiet (called ev) -> unrecorded h (h ++ [ev]).
Proof.
  intros Hq. split; [apply attempts_other|apply published_other|apply created_other]; by destruct (called ev).
Qed.

Lemma quiet_history h k : Forall quiet (calls k) -> unrecorded h (h ++ k).
Proof.
  induction k as [|ev k IH] using rev_ind; [by rewrite app_nil_r|]. unfold calls in *.
  rewrite fmap_app, Forall_app. intros [Hk Hev%List.Forall_inv]. rewrite app_assoc.
  eapply unrecorded_trans; [by apply IH|by apply unrecorded_quiet].
Qed.

(** The events that belong to attempts: one for each that was answered. *)
Definition event_of (data : ExecutionUpdate) : pystr :=
  if str_eqb (eu_status data) #"success" then #"execution.completed" else #"execution.failed".
Definition announced (l : list (uuid * ExecutionUpdate * bool)) : list (pystr * uuid * pystr) :=
  omap (fun x : uuid * ExecutionUpdate * bool => if x.2 then Some (event_of x.1.2, x.1.1, eu_status x.1.2) else None) l.
(** The history goes on with one attempt for each entry, in order, and their events. *)
Definition recorded (entries : list (uuid * ExecutionUpdate)) (h h' : history) : Prop :=
  created h' = created h /\ exists more : list (uuid * ExecutionUpdate * bool), more.*1 = entries /\ attempts h' = attempts h ++ more /\ published h' = published h ++ announced more.

Lemma recorded_unrecorded h h' : unrecorded h h' -> recorded [] h h'.
Proof. intros [Ha Hp Hc]. split; [done|]. exists []. by rewrite !app_nil_r. Qed.
Lemma recorded_trans l1 l2 h1 h2 h3 : recorded l1 h1 h2 -> recorded l2 h2 h3 -> recorded (l1 ++ l2) h1 h3.
Proof.
  intros (Hc1 & m1 & <- & Ha1 & Hp1) (Hc2 & m2 & <- & Ha2 & Hp2). split; [congruence|]. exists (m1 ++ m2).
  unfold announced in *. rewrite fmap_app, omap_app, Ha2, Ha1, Hp2, Hp1, !app_assoc. done.
Qed.

(** ** Laws *)

Section local.
Context {A : Type}.

(** A local specification also says what the history was extended with. *)
Definition extends (P : call -> Prop) (h h' : history) : Prop := exists k, h' = h ++ k /\ Forall P (calls k).

Lemma extends_snoc (P : call -> Prop) h h' ev : extends P h h' -> P (called ev) -> extends P h (h' ++ [ev]).
Proof.
  intros (k & -> & Hk) Hev. exists (k ++ [ev]). rewrite app_assoc. split; [done|].
  unfold calls. rewrite fmap_app. apply Forall_app. split; [done|]. by constructor.
Qed.

Lemma local_extends (p : prog A) h P (Q : res A -> Prop) :
  local_spec P Q p -> wp p h (fun h' c => P c /\ extends P h h') (fun h' r => Q r /\ extends P h h').
Proof.
  intros Hp. assert (forall h', extends P h h' ->
    wp p h' (fun h' c => P c /\ extends P h h') (fun h' r => Q r /\ extends P h h')) as Hall.
  2: { apply Hall. exists []. by rewrite app_nil_r. }
  revert Hp. induction p as [r|c k IH]; intros Hp h' Hh'.
  - split; [exact (Hp [])|done].
  - apply local_inv in Hp as [Hc Hk]. split; [done|]. intros a. apply IH; [done|]. by apply extends_snoc.
Qed.

Lemma local_turns {B} sched P (Qs : list (res A -> Prop)) ps (f : list (prog A) -> prog B) (R : res B -> Prop) :
  Forall2 (local_spec P) Qs ps ->
  (forall ps', Forall2 (local_spec P) Qs ps' -> local_spec P R (f ps')) -> local_spec P R (turns sched ps f).
Proof.
  intros HF Hf. revert ps HF. induction sched as [|i sched IH]; intros ps HF; cbn [turns]; [by apply Hf|].
  destruct (ps !! i) as [[r|c k]|] eqn:Hi; [by apply IH| |by apply IH].
  destruct (Forall2_lookup_r _ _ _ _ _ HF Hi) as (Q & HQ & Hp). apply local_inv in Hp as [Hc Hk].
  apply local_do. split; [done|]. intros a. apply IH. rewrite <- (list_insert_id Qs i Q) by done.
  by apply Forall2_insert.
Qed.

Lemma local_interrupt P (Q : res A -> Prop) p : local_spec P Q p -> local_spec P Q (interrupt p).
Proof.
  destruct p as [r|c k]; [done|]. intros [Hc Hk]%local_inv. apply local_do. split; [done|]. intros _. apply Hk.
Qed.

(** [wait_for] answers the values of all workers, in their order, or raises. *)
Lemma local_wait_for {X} sched timed_out P (Q : X -> res A -> Prop) (worker : X -> prog A) xs :
  (forall x, x ∈ xs -> local_spec P (Q x) (worker x)) ->
  local_spec P (fun r => match r with Ok l => Forall2 (fun x a => Q x (Ok a)) xs l | Raise _ => True end)
    (wait_for sched timed_out (worker <$> xs)).
Proof.
  intros Hw. unfold wait_for. apply (local_turns sched P (Q <$> xs)).
  { apply Forall2_fmap_l, Forall2_fmap_r, Forall_Forall2_diag, Forall_forall. exact Hw. }
  intros ps' HF. destruct (timed_out && _ && _).
  - apply (local_bind P (fun _ => True)); [|done|done].
    apply (local_finish_all P (Q <$> xs)); [|done].
    apply Forall2_fmap_r. eapply Forall2_impl; [exact HF|]. intros. by apply local_interrupt.
  - apply (local_bind P (fun r => exists rs, r = Ok rs /\ Forall2 (fun Q r => Q r) (Q <$> xs) rs)).
    + apply (local_finish_all P (Q <$> xs)); [done|]. intros rs Hrs. apply local_done. eauto.
    + intros rs (? & [= <-] & Hrs%Forall2_fmap_l). apply local_done.
      pose proof (first_error_cases Q xs rs Hrs) as Hf. by destruct (first_error rs).
    + done.
Qed.
End local.

(** Remote calls are quiet, and the answer of a run names its target. *)
Lemma local_remote_bind {A B} (Q : res B -> Prop) (p : @prog script_signature A) (f : A -> @prog script_signature B) :
  (forall a, local_spec quiet Q (remote (f a))) -> (forall e, Q (Raise e)) ->
  local_spec quiet Q (remote (@mbind _ (@prog_bind script_signature) _ _ f p)).
Proof.
  intros Hf He. induction p as [[a|e]|c k IH]; [apply Hf|by apply local_done|].
  apply local_do. split; [done|]. intros a. apply IH.
Qed.

Lemma local_remote {A} (p : @prog script_signature A) : local_spec quiet (fun _ => True) (remote p).
Proof. induction p as [r|c k IH]; [by apply local_done|]. apply local_do. split; [done|]. intros a. apply IH. Qed.

Section batch_laws.
Context `{Unicode} `{PyFloat}.
Context (parse_uuid : pystr -> option uuid) (sha256_hex : bytes -> pystr) (has_audit : bool).

Definition target_ids (target : ScriptExecutionTargetDTO) : uuid * uuid :=
  (st_execution_id target, n_id (st_node target)).
Definition result_ids (result : ScriptNodeResultDTO) : uuid * uuid := (sn_execution_id result, sn_node_id result).

Lemma local_run_target target :
  local_spec quiet (fun r => match r with Ok result => result_ids result = target_ids target | Raise _ => True end)
    (run_target sha256_hex target).
Proof.
  unfold run_target. apply (local_bind quiet (fun _ => True)); [|intros _ _|done].
  - apply local_do. split; [done|]. intros a. by apply local_done.
  - unfold _run_remote. apply local_remote_bind; [|done]. intros [[results success] failure]. unfold finish_run.
    destruct failure as [exc|]; [destruct (isinstance (exn_type exc) Exception_)|]; by apply local_done.
Qed.

(** Registrations and updates name executions that were created. *)
Definition of_created (h : history) (c : call) : Prop :=
  match c with UpdateExecution id _ => id ∈ (created h).*1 | _ => True end.

Lemma wp_record_outcome id script_id node_id event status data h :
  id ∈ (created h).*1 -> eu_status data = status -> event = event_of data ->
  wp (record_outcome id script_id node_id event status data) h of_created (fun h' _ => recorded [(id, data)] h h').
Proof.
  intros Hid <- ->. unfold record_outcome. apply wp_bind, wp_try, wp_bind. apply wp_perform; [done|].
  set (h1 := fun a => h ++ [existT (UpdateExecution id data) a]).
  assert (forall a, attempts (h1 a) = attempts h ++ [(id, data, is_ok a)]) as Ha.
  { intros a. unfold h1, attempts. by rewrite omap_app. }
  intros [[]|e].
  - apply wp_lift. cbv beta iota. split; [done|]. intros a. cbn [wp]. split.
    + etrans; [by apply created_other|]. unfold h1. by apply created_other.
    + exists [(id, data, true)]. split; [done|]. split; [etrans; [by apply attempts_other|exact (Ha (Ok tt))]|].
      unfold published. rewrite omap_app. f_equal. by apply published_other.
  - assert (recorded [(id, data)] h (h1 (Raise e))) as Hfail.
    { split; [by apply created_other|]. exists [(id, data, false)]. split; [done|]. split; [exact (Ha (Raise e))|].
      cbn. rewrite app_nil_r. by apply published_other. }
    unfold on_exception. destruct (isinstance _ _); [|exact Hfail]. apply wp_lift. cbv beta iota. by apply wp_lift.
Qed.

(** What is recorded of a result, and of a target whose time is over. *)
Definition result_entry (result : ScriptNodeResultDTO) : uuid * ExecutionUpdate :=
  (sn_execution_id result, {| eu_status := terminal_status (sn_success result); eu_steps := sn_steps result; eu_timeout := None |}).
Definition timeout_entry (timeout : Z) (target : ScriptExecutionTargetDTO) : uuid * ExecutionUpdate :=
  (st_execution_id target, {| eu_status := #"error"; eu_steps := []; eu_timeout := Some timeout |}).

Lemma recorded_created l h h' : recorded l h h' -> created h' = created h.
Proof. by intros [? _]. Qed.

Lemma wp_record_results script_id results h :
  (forall result, result ∈ results -> sn_execution_id result ∈ (created h).*1) ->
  wp (record_results has_audit script_id results) h of_created
    (fun h' r => exists done_, recorded (result_entry <$> done_) h h' /\
       match r with Ok _ => done_ = results | Raise _ => exists rest, results = done_ ++ rest end).
Proof.
  revert h. induction results as [|result results IH]; intros h Hin; cbn [record_results].
  { apply wp_lift. exists []. split; [by apply recorded_unrecorded|done]. }
  apply wp_bind. eapply wp_mono; [apply wp_record_outcome; [apply Hin; by left|done|by destruct (sn_success result)]|done|]. cbn beta.
  fold (result_entry result). intros h1 [[]|e] Hr1.
  2: { exists [result]. split; [done|]. by exists results. }
  assert (forall h2, unrecorded h1 h2 ->
    wp (record_results has_audit script_id results) h2 of_created
      (fun h' r => exists done_, recorded (result_entry <$> done_) h h' /\
         match r with Ok _ => done_ = result :: results | Raise _ => exists rest, result :: results = done_ ++ rest end)) as Hnext.
  { intros h2 Hu. pose proof (recorded_trans _ _ _ _ _ Hr1 (recorded_unrecorded _ _ Hu)) as Hr2.
    eapply wp_mono; [apply IH|done|].
    - intros x Hx. rewrite (recorded_created _ _ _ Hr2). apply Hin. by right.
    - cbn beta. intros h' r (d & Hd & Hr). exists (result :: d). split; [exact (recorded_trans _ _ _ _ _ Hr2 Hd)|].
      destruct r as [u|e]; [by rewrite Hr|]. destruct Hr as [rest ->]. by exists rest. }
  apply wp_bind. unfold _log_result. destruct has_audit; [|apply wp_lift; by apply Hnext].
  apply wp_try. split; [done|]. intros [[]|e]; cbn [wp].
  - apply Hnext. by apply unrecorded_quiet.
  - unfold on_class. destruct (isinstance _ _).
    + apply wp_lift. apply Hnext. by apply unrecorded_quiet.
    + exists [result]. split; [|by exists results].
      apply (recorded_trans _ [] _ _ _ Hr1), recorded_unrecorded. by apply unrecorded_quiet.
Qed.

Lemma wp_mark_timed_out script_id timeout targets h :
  (forall target, target ∈ targets -> st_execution_id target ∈ (created h).*1) ->
  wp (mark_timed_out script_id timeout targets) h of_created
    (fun h' r => exists done_, recorded (timeout_entry timeout <$> done_) h h' /\
       match r with Ok _ => done_ = targets | Raise _ => exists rest, targets = done_ ++ rest end).
Proof.
  revert h. induction targets as [|target targets IH]; intros h Hin; cbn [mark_timed_out].
  { apply wp_lift. exists []. split; [by apply recorded_unrecorded|done]. }
  apply wp_bind. eapply wp_mono; [apply wp_record_outcome; [apply Hin; by left|done|done]|done|]. cbn beta.
  fold (timeout_entry timeout target). intros h1 [[]|e] Hr1.
  2: { exists [target]. split; [done|]. by exists targets. }
  eapply wp_mono; [apply IH|done|].
  - intros x Hx. rewrite (recorded_created _ _ _ Hr1). apply Hin. by right.
  - cbn beta. intros h' r (d & Hd & Hr). exists (target :: d). split; [exact (recorded_trans _ _ _ _ _ Hr1 Hd)|].
    destruct r as [u|e]; [by rewrite Hr|]. destruct Hr as [rest ->]. by exists rest.
Qed.

(** Quiet calls keep what was created and updated. *)
Lemma extends_quiet h h' : extends quiet h h' -> unrecorded h h'.
Proof. intros (k & -> & Hk). by apply quiet_history. Qed.

Lemma quiet_of_created h c : quiet c -> of_created h c.
Proof. by destruct c. Qed.

Lemma wp_quiet {A} (p : prog A) h Q : local_spec quiet Q p -> wp p h of_created (fun h' r => Q r /\ unrecorded h h').
Proof.
  intros Hp. eapply wp_mono; [by apply local_extends|intros h' c [Hc _]; by apply quiet_of_created|].
  cbn beta. intros h' r [Hr Hx%extends_quiet]. done.
Qed.

Lemma local_resolve_steps steps params :
  local_spec quiet (fun _ => True) (resolve_steps parse_uuid steps params).
Proof.
  induction steps as [|step steps IH]; cbn [resolve_steps]; [by apply local_done|].
  apply (local_bind quiet (fun _ => True)); [apply local_remote|intros s _|done].
  apply (local_bind quiet (fun _ => True)); [done|intros ss _|done]. by apply local_done.
Qed.

(** Records are created, and nothing is updated. *)
Definition only_created (h h' : history) : Prop := attempts h' = attempts h /\ published h' = published h.

Lemma wp_create_targets script_id request timeout steps nodes h :
  wp (create_targets script_id request timeout steps nodes) h of_created
    (fun h' r => only_created h h' /\
       match r with
       | Ok targets => st_node <$> targets = nodes /\ created h' = created h ++ (target_ids <$> targets)
       | Raise _ => exists more, created h' = created h ++ more
       end).
Proof.
  revert h. induction nodes as [|node nodes IH]; intros h; cbn [create_targets].
  { apply wp_lift. split; [done|]. cbn. by rewrite app_nil_r. }
  apply wp_bind. split; [done|]. intros a.
  match goal with |- context [h ++ [?ev]] => assert (only_created h (h ++ [ev])) as [Ha Hp] end.
  { split; [by apply attempts_other|by apply published_other]. }
  destruct a as [id|e]; cbn [wp].
  2: { split; [by split|]. exists []. unfold created. rewrite omap_app. cbn. by rewrite !app_nil_r. }
  apply wp_bind. eapply wp_mono; [apply IH|done|]. cbn beta. intros h' [targets|e] [[Ha' Hp'] Hc].
  - apply wp_lift. split; [split; (etrans; [eassumption|exact Ha || exact Hp])|]. destruct Hc as [Hn ->]. split; [cbn; by rewrite Hn|].
    unfold created at 1. rewrite omap_app. cbn. by rewrite <- app_assoc.
  - split; [split; (etrans; [eassumption|exact Ha || exact Hp])|].
    destruct Hc as [more ->]. unfold created at 1. rewrite omap_app. cbn. rewrite <- app_assoc. by eexists.
Qed.

(** What the preparation leaves: targets that are the executions created, and no update. *)
Lemma wp_prepare script_id request :
  wp (prepare_script parse_uuid script_id request) [] of_created
    (fun h r => only_created [] h /\
       match r with Ok (_, targets) => created h = target_ids <$> targets | Raise _ => True end).
Proof.
  unfold prepare_script. apply wp_bind. split; [done|].
  intros [[definition|]|e]; cbn [wp]; [|by apply wp_lift|done].
  apply wp_bind. eapply wp_mono; [apply (wp_quiet _ _ _ (local_resolve_steps _ _))|done|]. cbn beta.
  intros h1 [steps|e] (_ & [Ha1 Hp1 Hc1]); [|done].
  apply wp_bind. eapply wp_mono; [apply (wp_quiet _ _ _ (local_remote _))|done|]. cbn beta.
  intros h2 [nodes|e] (_ & [Ha2 Hp2 Hc2]); rewrite Ha1 in Ha2; rewrite Hp1 in Hp2; rewrite Hc1 in Hc2; [|done].
  apply wp_bind.
  assert (wp (create_targets script_id request (default (sf_timeout definition) (sq_timeout request)) steps nodes
    ≫= fun targets => mret (default (sf_timeout definition) (sq_timeout request), targets)) h2 of_created
    (fun h r => only_created [] h /\
       match r with Ok (_, targets) => created h = target_ids <$> targets | Raise _ => True end)) as Hnext.
  { apply wp_bind. eapply wp_mono; [apply wp_create_targets|done|]. cbn beta.
    intros h3 [targets|e] [[Ha3 Hp3] Hc3]; [apply wp_lift; destruct Hc3 as [_ Hc3]|];
      (split; [split; (etrans; [eassumption|]; assumption)|]); [|done]. by rewrite Hc3, Hc2. }
  destruct nodes as [|node nodes]; [destruct (sq_node_ids request)|]; [by apply wp_lift| |by apply wp_lift].
  by apply wp_lift.
Qed.

(** The gathered workers record nothing; their results name the targets. *)
Lemma local_workers sched timed_out targets :
  local_spec quiet
    (fun r => match r with Ok results => result_ids <$> results = target_ids <$> targets | Raise _ => True end)
    (wait_for sched timed_out (run_target sha256_hex <$> targets)).
Proof.
  intros h. eapply wp_mono.
  - apply (local_wait_for sched timed_out quiet
      (fun target r => match r with Ok result => result_ids result = target_ids target | Raise _ => True end)).
    intros target _. apply local_run_target.
  - done.
  - cbn beta. intros _ [results|e] Hr; [|done]. induction Hr as [|x y xs ys Hxy _ IH]; [done|]. cbn. by rewrite Hxy, IH.
Qed.

Lemma ids_created (targets : list ScriptExecutionTargetDTO) h :
  created h = target_ids <$> targets -> forall target, target ∈ targets -> st_execution_id target ∈ (created h).*1.
Proof.
  intros -> target Ht. rewrite <- list_fmap_compose. apply list_elem_of_fmap. by exists target.
Qed.

Lemma prefix_fmap {A B} (f : A -> B) (l k : list A) : (exists rest, k = l ++ rest) -> (f <$> l) `prefix_of` (f <$> k).
Proof. intros [rest ->]. exists (f <$> rest). by rewrite fmap_app. Qed.
End batch_laws.

Section properties.
Context `{Unicode} `{PyFloat}.
Context (parse_uuid : pystr -> option uuid) (sha256_hex : bytes -> pystr) (has_audit : bool).

(** C18: whatever the ports answer, and however the workers interleave, the update of an
    execution is tried only after it was created, at most once, and in the order of creation,
    and an event is published for exactly those updates that were answered; when the use case
    returns, there is one result per created execution, in that order, and each was tried to be
    recorded once, with the status and the steps that the result reports. An update that fails
    is neither repeated nor reported: its execution stays running in the table. *)
Theorem script_batch_recorded (sched : list nat) (timed_out : bool) (script_id : uuid)
    (request : ScriptExecutionRequestDTO) :
  wp (execute_script parse_uuid sha256_hex has_audit sched timed_out script_id request) [] of_created
    (fun h r =>
       (attempts h).*1.*1 `prefix_of` (created h).*1 /\ published h = announced (attempts h) /\
       match r with
       | Ok batch => result_ids <$> sb_results batch = created h /\ (attempts h).*1 = result_entry <$> sb_results batch
       | Raise _ => True
       end).
Proof.
  unfold execute_script. apply wp_bind. eapply wp_mono; [apply wp_prepare|done|]. cbn beta.
  intros h1 [[timeout targets]|e] [[Ha1 Hp1] Hc1]; [|rewrite Ha1, Hp1; split_and!; [apply prefix_nil|done|done]].
  cbv beta iota. apply wp_bind. unfold run_targets. apply wp_try.
  eapply wp_mono; [apply (wp_quiet _ _ _ (local_workers sha256_hex sched timed_out targets))|done|]. cbn beta.
  intros h2 r (Hr & [Ha2 Hp2 Hc2]). rewrite Ha1 in Ha2. rewrite Hp1 in Hp2. rewrite Hc1 in Hc2.
  assert (forall entries h3, recorded entries h2 h3 ->
    (attempts h3).*1 = entries /\ published h3 = announced (attempts h3) /\ created h3 = target_ids <$> targets) as Hrec.
  { intros entries h3 (Hc & more & <- & Ha & Hp). rewrite Ha, Hp, Hc, Ha2, Hp2. done. }
  destruct r as [results|e].
  - apply wp_bind.
    assert (forall result, result ∈ results -> sn_execution_id result ∈ (created h2).*1) as Hin.
    { intros result Hres. rewrite Hc2, <- Hr, <- list_fmap_compose. apply list_elem_of_fmap. by exists result. }
    eapply wp_mono; [apply (wp_record_results has_audit script_id results h2 Hin)|done|]. cbn beta.
    intros h3 [[]|e] (d & Hd & Hrest); destruct (Hrec _ _ Hd) as (Ha3 & Hp3 & Hc3).
    + subst d. apply wp_lift. rewrite Ha3, Hc3, <- Hr, <- !list_fmap_compose. by split_and!.
    + rewrite Ha3, Hc3, <- Hr, <- !list_fmap_compose. split_and!; [exact (prefix_fmap sn_execution_id d results Hrest)|done|done].
  - unfold on_class. destruct (isinstance _ _); [|rewrite Ha2, Hp2; split_and!; [apply prefix_nil|done|done]].
    apply wp_bind. eapply wp_mono; [apply (wp_mark_timed_out script_id timeout targets h2)|done|].
    { apply ids_created. done. }
    cbn beta. intros h3 r' (d & Hd & Hrest). destruct (Hrec _ _ Hd) as (Ha3 & Hp3 & Hc3).
    assert ((attempts h3).*1.*1 `prefix_of` (created h3).*1) as Hpre.
    { rewrite Ha3, Hc3, <- !list_fmap_compose. apply (prefix_fmap st_execution_id d targets).
      destruct r' as [u|e']; [subst d; exists []; by rewrite app_nil_r|done]. }
    destruct r' as [u|e']; [apply wp_lift|]; by split_and!.
Qed.

(** The database fails with ordinary exceptions only, and publishing does not fail. *)
Definition ordinary_oracle (o : oracle) : Prop :=
  (forall h id data e, o h (UpdateExecution id data) = Raise e -> isinstance (exn_type e) Exception_ = true) /\
  (forall h event id script_id node_id status, o h (PublishEvent event id script_id node_id status) = Ok tt).

Lemma run_mark_timed_out o script_id timeout targets h : ordinary_oracle o ->
  (run o (mark_timed_out script_id timeout targets) h).1 = Ok tt.
Proof.
  intros [Hupd Hpub]. revert h. induction targets as [|target targets IH]; intros h; [done|]. cbn [mark_timed_out].
  rewrite run_bind. unfold record_outcome. rewrite run_bind, run_try, run_bind. cbn [run perform].
  destruct (o h (UpdateExecution _ _)) as [[]|e] eqn:E.
  - cbn -[mark_timed_out]. rewrite Hpub. apply IH.
  - unfold on_exception. rewrite (Hupd _ _ _ _ E). cbn [run mret prog_ret]. apply IH.
Qed.

(** When the gathered workers raise, the batch is lost: an exception other than a timeout,
    as when one execution is cancelled, leaves the use case at once and no execution of the
    batch, the finished ones included, is ever updated; a timeout marks every execution as an
    error, whatever its worker had reached. *)
Theorem script_batch_failure (o : oracle) (sched : list nat) (timed_out : bool) (script_id : uuid)
    (request : ScriptExecutionRequestDTO) (timeout : Z) (targets : list ScriptExecutionTargetDTO)
    (h1 h2 : history) (e : exn) :
  ordinary_oracle o ->
  run o (prepare_script parse_uuid script_id request) [] = (Ok (timeout, targets), h1) ->
  run o (wait_for sched timed_out (run_target sha256_hex <$> targets)) h1 = (Raise e, h2) ->
  let '(r, h3) := run o (execute_script parse_uuid sha256_hex has_audit sched timed_out script_id request) [] in
  created h3 = target_ids <$> targets /\
  if isinstance (exn_type e) TimeoutError
  then r = raise TimeoutError (#"Script execution timed out after " ++ str_Z timeout ++ #"s") /\
       updates h3 = (fun target => (st_execution_id target, #"error")) <$> targets
  else r = Raise e /\ updates h3 = [].
Proof.
  intros Ho Hprep Hwait.
  pose proof (wp_run _ o [] _ _ (wp_prepare parse_uuid script_id request)) as Hp. rewrite Hprep in Hp.
  destruct Hp as [[[Ha1 _] Hc1] _].
  pose proof (wp_run _ o h1 _ _ (wp_quiet _ h1 _ (local_workers sha256_hex sched timed_out targets))) as Hw.
  rewrite Hwait in Hw. destruct Hw as [(_ & [Ha2 _ Hc2]) _]. rewrite Ha1 in Ha2. rewrite Hc1 in Hc2.
  unfold execute_script, run_targets. rewrite run_bind, Hprep. cbv beta iota.
  rewrite run_bind, run_try, Hwait. unfold on_class, updates. destruct (isinstance (exn_type e) TimeoutError); [|by rewrite Ha2].
  rewrite run_bind.
  pose proof (wp_run _ o h2 _ _ (wp_mark_timed_out script_id timeout targets h2 (ids_created targets h2 Hc2))) as Hm.
  pose proof (run_mark_timed_out o script_id timeout targets h2 Ho) as Hok.
  destruct (run o (mark_timed_out script_id timeout targets) h2) as [r h3]. cbn in Hok. subst r.
  destruct Hm as [(d & (Hc3 & more & Hm & Ha3 & _) & ->) _]. rewrite run_lift. split; [by rewrite Hc3|]. split; [done|].
  rewrite Ha3, Ha2. transitivity ((fun y : uuid * ExecutionUpdate => (y.1, eu_status y.2)) <$> more.*1); [by rewrite <- list_fmap_compose|].
  by rewrite Hm, <- list_fmap_compose.
Qed.
End properties.

(** ** A concrete run: two nodes, the first execution is cancelled *)

#[local] Existing Instance ascii_only.
#[local] Existing Instance literal_floats.

Definition test_node (id : uuid) : NodeConnectionDTO :=
  {| n_id := id; n_name := #"node";
     n_endpoint := {| ep_host := #"h"; ep_port := 22; ep_connection_type := #"ssh"; ep_docker_host := None; ep_has_docker := false |};
     n_credentials := {| cr_username := None; cr_password := None; cr_ssh_key := None; cr_passphrase := None |} |}.
Definition test_step : jobject :=
  [(#"label", JStr #"first"); (#"type", JStr #"inline"); (#"command", JStr #"uptime")].
(** The first command that is executed is cancelled, all other calls succeed. *)
Definition cancelling_oracle : oracle := fun h c =>
  match c return res (answer c) with
  | Remote rc =>
      match rc return res (script_answer rc) with
      | GetTemplate _ => Ok None
      | GetConnectionsByIds ids => Ok (test_node <$> ids)
      | GetConnectionsByTags _ => Ok []
      | Decrypt value => Ok value
      | Connect _ _ _ _ | Disconnect => Ok tt
      | ExecuteCommand _ _ =>
          if existsb (fun ev : event => match called ev with Remote (ExecuteCommand _ _) => true | _ => false end) h
          then Ok (#"up", [], 0%Z) else Raise cancelled
      end
  | GetDefinition id => Ok (Some {| sf_id := id; sf_steps := [test_step]; sf_timeout := 30 |})
  | CreateExecution data => Ok (100 + ne_node_id data)%N
  | UpdateExecution _ _ | RegisterExecution _ | PublishEvent _ _ _ _ _ | LogAudit _ _ _ => Ok tt
  end.
Definition test_script_request : ScriptExecutionRequestDTO :=
  {| sq_node_ids := [1; 2]%N; sq_tags := []; sq_params := []; sq_trigger := #"manual"; sq_schedule_id := None; sq_timeout := None |}.
Definition test_target (id : uuid) : ScriptExecutionTargetDTO :=
  {| st_execution_id := (100 + id)%N; st_script_id := 7; st_node := test_node id;
     st_steps := [{| rs_label := JStr #"first"; rs_command := #"uptime"; rs_on_failure := JStr #"stop"; rs_resolution_error := None |}];
     st_timeout := 30 |}.
Definition test_prepared : history :=
  (run cancelling_oracle (prepare_script (fun _ => None) 7 test_script_request) []).2.
Definition test_waited : history :=
  (run cancelling_oracle (wait_for [] false (run_target (fun _ => []) <$> [test_target 1; test_target 2])) test_prepared).2.

(** The second worker ran its step to the end, and nothing is recorded of either. *)
Lemma script_batch_failure_witness :
  let '(r, h) := run cancelling_oracle (execute_script (fun _ => None) (fun _ => []) false [] false 7 test_script_request) [] in
  r = Raise cancelled /\ created h = [(101, 1); (102, 2)]%N /\ updates h = [].
Proof.
  pose proof (script_batch_failure (fun _ => None) (fun _ => []) false cancelling_oracle [] false 7 test_script_request
    30 [test_target 1; test_target 2] test_prepared test_waited cancelled) as Hf.
  destruct (run cancelling_oracle (execute_script _ _ _ _ _ _ _) []) as [r h].
  destruct Hf as (Hc & Hr & Hu); [|vm_compute; reflexivity|vm_compute; reflexivity|].
  - split; [by intros h0 id data e|by intros].
  - split; [exact Hr|]. split; [exact Hc|exact Hu].
Defined.
