(* ===== verification/Registry.v ===== *)
(** * Execution registry and lifecycle

    [app/application/services/execution_registry.py]: the in-memory table of running
    tasks, with its clean-up and the callback that removes a finished task; and
    [execution_lifecycle_service.py] over the gateway of
    [app/adapters/persistence/execution_lifecycle.py].  A reading of the monotonic clock
    is a number of seconds.  Asyncio's tasks appear as their names and the set of those
    that are done. *)
From S2P Require Import Prelude PyStr Errors Effects Stateful Dto.

(** ** The registry *)

Abbreviation task := N.
(** A value of the table: a task with the time of its registration, or a bare task
    (only written by tests). *)
Inductive entry := Timed (t : task) (ts : Z) | Direct (t : task).
Definition entry_task (e : entry) : task := match e with Timed t _ | Direct t => t end.

Record registry := {
  rg_tasks : list (uuid * entry);
  rg_done : list task;
  rg_callbacks : list (task * uuid) }.   (* [task.add_done_callback] *)
Definition new_registry : registry := {| rg_tasks := []; rg_done := []; rg_callbacks := [] |}.

Definition _TTL_SECONDS : Z := 3600.

Definition is_expired (now : Z) (e : entry) : bool :=
  match e with Timed _ ts => (_TTL_SECONDS <? now - ts)%Z | Direct _ => false end.
Definition _cleanup_expired (now : Z) (tasks : list (uuid * entry)) : list (uuid * entry) :=
  let expired := (List.filter (fun kv => is_expired now kv.2) tasks).*1 in
  fold_left dict_pop expired tasks.

(** The callbacks of a finished task pop the execution they were made for. *)
Definition run_callbacks (t : task) (callbacks : list (task * uuid)) (tasks : list (uuid * entry)) : list (uuid * entry) :=
  fold_left dict_pop (List.filter (fun c => bool_decide (c.1 = t)) callbacks).*2 tasks.

(** A callback added to a task that is done already runs at once. *)
Definition register_execution (eid : uuid) (t : task) (now : Z) (r : registry) : registry :=
  let tasks := dict_set (_cleanup_expired now (rg_tasks r)) eid (Timed t now) in
  {| rg_tasks := if bool_decide (t ∈ rg_done r) then dict_pop tasks eid else tasks;
     rg_done := rg_done r; rg_callbacks := rg_callbacks r ++ [(t, eid)] |}.
Definition finish_task (t : task) (r : registry) : registry :=
  {| rg_tasks := run_callbacks t (rg_callbacks r) (rg_tasks r);
     rg_done := t :: rg_done r; rg_callbacks := rg_callbacks r |}.

Definition get_execution_task (eid : uuid) (r : registry) : option task := entry_task <$> dict_get (rg_tasks r) eid.
(** The answer of [cancel_execution_task], and the task it asks to stop. *)
Definition cancel_execution_task (eid : uuid) (r : registry) : bool * option task :=
  match dict_get (rg_tasks r) eid with
  | None => (false, None)
  | Some e => if bool_decide (entry_task e ∈ rg_done r) then (false, None) else (true, Some (entry_task e))
  end.

(** ** Histories of the registry *)

Inductive registry_op := Register (eid : uuid) (t : task) (now : Z) | Finish (t : task).
Definition do_op (r : registry) (op : registry_op) : registry :=
  match op with Register eid t now => register_execution eid t now r | Finish t => finish_task t r end.
Definition run_ops (ops : list registry_op) : registry := fold_left do_op ops new_registry.

Definition registered_ids (ops : list registry_op) : list uuid :=
  omap (fun op => match op with Register eid _ _ => Some eid | Finish _ => None end) ops.

(** Execution [eid] was registered with task [t] at [ts], the task has not finished, and
    no later registration came more than the time to live after it. *)
Definition reachable (ops : list registry_op) (eid : uuid) (t : task) (ts : Z) : Prop :=
  exists pre post, ops = pre ++ Register eid t ts :: post /\ (Finish t ∉ ops) /\
    forall eid' t' now, Register eid' t' now ∈ post -> (now - ts <= _TTL_SECONDS)%Z.

(** ** Retrying and cancelling *)

Record CommandHistoryDTO := { ch_id : uuid; ch_node_id : option uuid; ch_command_fingerprint : pystr }.
Record RetryCommandResultDTO := {
  rr_execution_id : pystr; rr_node_id : option pystr; rr_command_fingerprint : pystr; rr_status : pystr }.
Record RetryScriptResultDTO := { rs_execution_id : pystr; rs_status : pystr }.

Inductive lifecycle_call :=
| CancelTask (execution_id : uuid)                              (* the registry *)
| PublishSse (kind : pystr) (execution_id : uuid)             (* the broadcaster *)
| ManagerCancel (execution_id : uuid)                           (* [self._manager] *)
| HistoryGet (execution_id : uuid).                             (* [self._command_history_reader] *)
Definition lifecycle_answer (c : lifecycle_call) : Type :=
  match c with
  | CancelTask _ | ManagerCancel _ => bool
  | PublishSse _ _ => unit
  | HistoryGet _ => option CommandHistoryDTO
  end.
#[local] Instance lifecycle_signature : Signature := {| call := lifecycle_call; answer := lifecycle_answer |}.

(** [has_reader]: the service was given a reader of the command history. *)
Definition retry_command (has_reader : bool) (execution_id : uuid) : prog RetryCommandResultDTO :=
  if negb has_reader then lift (raise ExecutionNotFoundError #"Command history reader not available")
  else
    execution ← perform (HistoryGet execution_id);
    match (execution : option CommandHistoryDTO) with
    | None => lift (raise ExecutionNotFoundError (#"Execution " ++ uuid_str execution_id ++ #" not found"))
    | Some x => mret {| rr_execution_id := uuid_str (ch_id x); rr_node_id := uuid_str <$> ch_node_id x;
        rr_command_fingerprint := ch_command_fingerprint x; rr_status := #"retry_scheduled" |}
    end.
Definition retry_script (execution_id : uuid) : RetryScriptResultDTO :=
  {| rs_execution_id := uuid_str execution_id; rs_status := #"retry_scheduled" |}.
Definition cancel_execution (execution_id : uuid) : prog bool :=
  task_cancelled ← perform (CancelTask execution_id);
  (if (task_cancelled : bool) then perform (PublishSse #"execution.cancelled" execution_id) else mret tt);;
  result ← perform (ManagerCancel execution_id);
  if negb (result : bool) && negb task_cancelled then
    lift (raise ExecutionNotFoundError (#"Execution " ++ uuid_str execution_id ++ #" not found or already completed"))
  else mret true.

(** *** The registry, the broadcaster and the tables behind the service *)

Record lifecycle_world := {
  lw_registry : registry;
  lw_stopped : list task;                       (* the tasks [task.cancel()] was called on *)
  lw_published : list (pystr * uuid);
  lw_commands : list (uuid * CommandHistoryDTO);  (* command_executions *)
  lw_scripts : list (uuid * pystr) }.             (* script_executions: id and status *)

(** [SqlAlchemyExecutionLifecycleGateway.cancel_execution], one transaction. *)
Definition gateway_cancel (eid : uuid) (w : lifecycle_world) : bool * lifecycle_world :=
  if dict_mem (lw_commands w) eid then (true, w)
  else match dict_get (lw_scripts w) eid with
  | Some status =>
      if bool_decide (status ∈ [ #"pending"; #"running"]) then
        (true, {| lw_registry := lw_registry w; lw_stopped := lw_stopped w; lw_published := lw_published w;
                  lw_commands := lw_commands w; lw_scripts := dict_set (lw_scripts w) eid #"cancelled" |})
      else (false, w)
  | None => (false, w)
  end.

Definition stop_task (eid : uuid) (w : lifecycle_world) : bool * lifecycle_world :=
  let '(cancelled, stopped) := cancel_execution_task eid (lw_registry w) in
  (cancelled, {| lw_registry := lw_registry w; lw_stopped := lw_stopped w ++ option_list stopped;
                 lw_published := lw_published w; lw_commands := lw_commands w; lw_scripts := lw_scripts w |}).
Definition publish_cancelled (kind : pystr) (eid : uuid) (w : lifecycle_world) : lifecycle_world :=
  {| lw_registry := lw_registry w; lw_stopped := lw_stopped w; lw_published := lw_published w ++ [(kind, eid)];
     lw_commands := lw_commands w; lw_scripts := lw_scripts w |}.

Definition serve_lifecycle (c : lifecycle_call) (w : lifecycle_world) : res (lifecycle_answer c) * lifecycle_world :=
  match c with
  | CancelTask eid => let '(b, w) := stop_task eid w in (Ok b, w)
  | PublishSse kind eid => (Ok tt, publish_cancelled kind eid w)
  | ManagerCancel eid => let '(b, w) := gateway_cancel eid w in (Ok b, w)
  | HistoryGet eid => (Ok (dict_get (lw_commands w) eid), w)
  end.
Definition lifecycle_faults (c : lifecycle_call) (e : exn) : Prop :=
  match c with ManagerCancel _ | HistoryGet _ => foreign e | _ => False end.

(** *** Laws *)

Lemma dict_get_pops {V} (ks : list uuid) (d : list (uuid * V)) k :
  dict_get (fold_left dict_pop ks d) k = if decide (k ∈ ks) then None else dict_get d k.
Proof.
  revert d. induction ks as [|j ks IH]; intros d; cbn [fold_left].
  { rewrite decide_False; [done|]. apply not_elem_of_nil. }
  rewrite IH. destruct (decide (k = j)) as [->|Hne].
  - rewrite (decide_True (P:=j ∈ j :: ks)) by (by left). case_decide; [done|]. apply dict_get_pop_eq.
  - rewrite dict_get_pop_ne by done. repeat case_decide; rewrite ?elem_of_cons in *; tauto.
Qed.

Lemma pops_NoDup {V} (ks : list uuid) (d : list (uuid * V)) : NoDup d.*1 -> NoDup (fold_left dict_pop ks d).*1.
Proof.
  revert d. induction ks as [|j ks IH]; intros d Hd; cbn [fold_left]; [done|]. apply IH.
  unfold dict_pop. induction d as [|[k v] d IHd]; [done|]. cbn in *. apply NoDup_cons in Hd as [Hk Hd].
  case_bool_decide; cbn; [by apply IHd|]. constructor; [|by apply IHd]. intros Hin. apply Hk.
  apply list_elem_of_fmap in Hin as ([k' v'] & -> & Hin). apply list_elem_of_fmap. exists (k', v').
  split; [done|]. apply list_elem_of_In, filter_In in Hin as [Hin _]. by apply list_elem_of_In.
Qed.

Lemma cleanup_get now d eid : NoDup d.*1 ->
  dict_get (_cleanup_expired now d) eid =
  match dict_get d eid with Some e => if is_expired now e then None else Some e | None => None end.
Proof.
  intros Hd. unfold _cleanup_expired. rewrite dict_get_pops.
  assert (eid ∈ (List.filter (fun kv => is_expired now kv.2) d).*1 <-> exists e, dict_get d eid = Some e /\ is_expired now e = true) as Hiff.
  { rewrite list_elem_of_fmap. split.
    - intros ([k e] & -> & Hin). apply list_elem_of_In, filter_In in Hin as [Hin He]. exists e. split; [|done].
      apply dict_get_NoDup; [done|]. by apply list_elem_of_In.
    - intros (e & He & Hx). exists (eid, e). split; [done|]. apply list_elem_of_In, filter_In. split; [|done].
      apply list_elem_of_In. by apply dict_get_elem. }
  case_decide as Hin.
  - apply Hiff in Hin as (e & -> & ->). done.
  - destruct (dict_get d eid) as [e|]; [|done]. destruct (is_expired now e) eqn:Ex; [|done].
    destruct Hin. apply Hiff. by exists e.
Qed.

Lemma run_ops_snoc ops op : run_ops (ops ++ [op]) = do_op (run_ops ops) op.
Proof. unfold run_ops. by rewrite fold_left_app. Qed.

Record registry_inv (ops : list registry_op) (r : registry) : Prop := {
  ri_keys : NoDup (rg_tasks r).*1;
  ri_done : forall t, t ∈ rg_done r <-> Finish t ∈ ops;
  ri_callbacks : forall t eid, (t, eid) ∈ rg_callbacks r <-> exists now, Register eid t now ∈ ops;
  ri_tasks : forall eid e, dict_get (rg_tasks r) eid = Some e <->
    exists t ts, e = Timed t ts /\ reachable ops eid t ts }.

Lemma registered_elem ops eid t now : Register eid t now ∈ ops -> eid ∈ registered_ids ops.
Proof.
  intros Hin. unfold registered_ids. apply list_elem_of_omap. by exists (Register eid t now).
Qed.

Lemma registered_once ops eid t now t' now' : NoDup (registered_ids ops) ->
  Register eid t now ∈ ops -> Register eid t' now' ∈ ops -> Register eid t now = Register eid t' now'.
Proof.
  induction ops as [|op ops IH]; intros Hnd Hin Hr; [by apply elem_of_nil in Hin|].
  assert (NoDup (registered_ids ops) /\ forall k u n, op = Register k u n -> k ∉ registered_ids ops) as [Hnd' Hop].
  { destruct op; [apply NoDup_cons in Hnd as [Hx Hnd]|]; (split; [done|]); intros; by simplify_eq. }
  apply elem_of_cons in Hin as [Hin|Hin], Hr as [Hr|Hr]; [congruence| | |by apply IH].
  - destruct (Hop _ _ _ (eq_sym Hin)). eapply registered_elem, Hr.
  - destruct (Hop _ _ _ (eq_sym Hr)). eapply registered_elem, Hin.
Qed.

Lemma elem_middle {A} (x : A) pre post : x ∈ pre ++ x :: post.
Proof. apply elem_of_app. right. by left. Qed.

Lemma reachable_registered ops eid t ts : reachable ops eid t ts -> Register eid t ts ∈ ops.
Proof. intros (pre & post & -> & _). apply elem_middle. Qed.

(** Reachability after one more operation. *)
Lemma reachable_finish ops eid t ts t' :
  reachable (ops ++ [Finish t']) eid t ts <-> reachable ops eid t ts /\ t <> t'.
Proof.
  split.
  - intros (pre & post & E & Hf & Hp). destruct (decide (post = [])) as [->|Hne].
    { apply (f_equal last) in E. rewrite !last_snoc in E. done. }
    destruct (exists_last Hne) as (post' & op & ->). rewrite app_comm_cons, app_assoc in E.
    apply app_inj_tail in E as [E <-]. split; [|intros ->; apply Hf; set_solver].
    exists pre, post'. split; [done|]. split; [set_solver|]. intros eid' t'' now Hin. apply (Hp eid' t''). set_solver.
  - intros [(pre & post & -> & Hf & Hp) Hne]. exists pre, (post ++ [Finish t']).
    split; [by rewrite <- app_assoc|]. split; [set_solver|]. intros eid' t'' now Hin. apply (Hp eid' t'').
    apply elem_of_app in Hin as [Hin|Hin]; [done|]. apply list_elem_of_singleton in Hin. done.
Qed.

Lemma reachable_register ops eid t ts eid' t' now : eid' ∉ registered_ids ops ->
  reachable (ops ++ [Register eid' t' now]) eid t ts <->
  (eid = eid' /\ t = t' /\ ts = now /\ Finish t ∉ ops) \/
  (eid <> eid' /\ reachable ops eid t ts /\ (now - ts <= _TTL_SECONDS)%Z).
Proof.
  intros Hfresh. split.
  - intros (pre & post & E & Hf & Hp). destruct (decide (post = [])) as [->|Hne].
    { apply app_inj_tail in E as [<- [= -> -> ->]]. left. set_solver. }
    destruct (exists_last Hne) as (post' & op & ->). rewrite app_comm_cons, app_assoc in E.
    apply app_inj_tail in E as [E <-]. right. split.
    + intros ->. apply Hfresh. rewrite E. eapply registered_elem, elem_middle.
    + split; [|apply (Hp eid' t'); set_solver]. exists pre, post'. split; [done|]. split; [set_solver|].
      intros eid'' t'' now' Hin. apply (Hp eid'' t''). set_solver.
  - intros [(-> & -> & -> & Hf)|(Hne & (pre & post & -> & Hf & Hp) & Hnow)].
    + exists ops, []. split; [done|]. split; [set_solver|]. set_solver.
    + exists pre, (post ++ [Register eid' t' now]). split; [by rewrite <- app_assoc|]. split; [set_solver|].
      intros eid'' t'' now' Hin. apply elem_of_app in Hin as [Hin|Hin]; [by apply (Hp eid'' t'')|].
      apply list_elem_of_singleton in Hin as [= _ _ ->]. done.
Qed.

Lemma registry_inv_run ops : NoDup (registered_ids ops) -> registry_inv ops (run_ops ops).
Proof.
  induction ops as [|op ops IH] using rev_ind; intros Hnd.
  { split; cbn; [constructor|set_solver|set_solver|]. intros eid e. split; [done|].
    intros (t & ts & _ & (pre & post & E & _)). by destruct pre. }
  unfold registered_ids in Hnd. rewrite omap_app in Hnd. apply NoDup_app in Hnd as (Hnd & Hdis & _).
  destruct (IH Hnd) as [Hk Hd Hc Ht]. rewrite run_ops_snoc. set (r := run_ops ops) in *.
  destruct op as [eid0 t0 now|t0]; cbn [do_op].
  - assert (eid0 ∉ registered_ids ops) as Hfresh by (intros Hin; apply (Hdis eid0 Hin); set_solver).
    assert (NoDup (_cleanup_expired now (rg_tasks r)).*1) as Hk' by by apply pops_NoDup.
    split; unfold register_execution; cbn [rg_tasks rg_done rg_callbacks].
    + case_bool_decide; [apply (pops_NoDup [eid0])|]; by apply dict_set_NoDup.
    + intros t. rewrite Hd. set_solver.
    + intros t eid. rewrite elem_of_app, Hc. set_solver.
    + intros eid e.
      assert (dict_get (if bool_decide (t0 ∈ rg_done r) then dict_pop (dict_set (_cleanup_expired now (rg_tasks r)) eid0 (Timed t0 now)) eid0
        else dict_set (_cleanup_expired now (rg_tasks r)) eid0 (Timed t0 now)) eid =
        if decide (eid = eid0) then if bool_decide (t0 ∈ rg_done r) then None else Some (Timed t0 now)
        else dict_get (_cleanup_expired now (rg_tasks r)) eid) as ->.
      { destruct (decide (eid = eid0)) as [->|Hne]; case_bool_decide.
        - apply dict_get_pop_eq.
        - apply dict_get_set_eq.
        - by rewrite dict_get_pop_ne, dict_get_set_ne by done.
        - by rewrite dict_get_set_ne by done. }
      setoid_rewrite (fun t ts => reachable_register ops eid t ts eid0 t0 now Hfresh).
      destruct (decide (eid = eid0)) as [->|Hne].
      * case_bool_decide as Hdone; rewrite Hd in Hdone; split.
        -- done.
        -- by intros (t & ts & _ & [(_ & -> & _ & ?)|[? _]]).
        -- intros [= <-]. exists t0, now. split; [done|]. by left.
        -- intros (t & ts & -> & [(_ & -> & -> & _)|[? _]]); done.
      * rewrite cleanup_get by done. specialize (Ht eid). split.
        -- intros He. destruct (dict_get (rg_tasks r) eid) as [e0|]; [|done].
           destruct (proj1 (Ht e0) eq_refl) as (t & ts & -> & Hr). cbn in He.
           destruct (_ <? _)%Z eqn:El; [done|]. simplify_eq. exists t, ts. split; [done|]. right. to_prop. auto.
        -- intros (t & ts & -> & [(? & _)|(_ & Hr & Hnow)]); [done|].
           rewrite (proj2 (Ht (Timed t ts))) by eauto. cbn. by rewrite (proj2 (Z.ltb_ge _ _)).
  - split; unfold finish_task; cbn [rg_tasks rg_done rg_callbacks].
    + by apply pops_NoDup.
    + intros t. rewrite elem_of_cons, Hd. set_solver.
    + intros t eid. rewrite Hc. set_solver.
    + intros eid e. unfold run_callbacks. rewrite dict_get_pops.
      setoid_rewrite (fun t ts => reachable_finish ops eid t ts t0).
      assert (eid ∈ (List.filter (fun c => bool_decide (c.1 = t0)) (rg_callbacks r)).*2 <-> exists now, Register eid t0 now ∈ ops) as Hpop.
      { rewrite <- Hc, list_elem_of_fmap. split.
        - intros ([t k] & -> & Hin). apply list_elem_of_In, filter_In in Hin as [Hin Ht0].
          apply bool_decide_eq_true in Ht0. cbn in *. subst t. by apply list_elem_of_In.
        - intros Hin. exists (t0, eid). split; [done|]. apply list_elem_of_In, filter_In.
          split; [by apply list_elem_of_In|]. by apply bool_decide_eq_true. }
      case_decide as Hin.
      * apply Hpop in Hin as [now Hin]. split; [done|]. intros (t & ts & -> & Hr & Hne).
        apply reachable_registered in Hr. exfalso.
        assert (Register eid t0 now = Register eid t ts) by (eapply registered_once; eauto). congruence.
      * rewrite Ht. split.
        -- intros (t & ts & -> & Hr). exists t, ts. split_and!; [done..|]. intros ->. apply Hin, Hpop.
           exists ts. by apply reachable_registered.
        -- intros (t & ts & -> & Hr & _). eauto.
Qed.

(** In every history that registers each execution once, asking to cancel an execution
    reaches its task exactly when the task was registered, has not finished, and no execution
    was registered more than an hour after it: a task that runs longer than that is forgotten at
    the next registration, although it is neither done nor cancelled. *)
Theorem cancel_reaches_registered_tasks (ops : list registry_op) (eid : uuid) (t : task) :
  NoDup (registered_ids ops) ->
  (cancel_execution_task eid (run_ops ops) = (true, Some t) <-> exists ts, reachable ops eid t ts) /\
  (cancel_execution_task eid (run_ops ops) = (false, None) <-> forall t' ts, ~ reachable ops eid t' ts).
Proof.
  intros Hnd. destruct (registry_inv_run ops Hnd) as [Hk Hd _ Ht]. specialize (Ht eid).
  unfold cancel_execution_task. destruct (dict_get (rg_tasks (run_ops ops)) eid) as [e|].
  - destruct (proj1 (Ht e) eq_refl) as (t0 & ts & -> & Hr).
    assert (t0 ∉ rg_done (run_ops ops)) as Hnot by (rewrite Hd; by destruct Hr as (? & ? & _ & ? & _)).
    cbn [entry_task]. rewrite bool_decide_false by done. split; split.
    + intros [= <-]. eauto.
    + intros [ts' Hr']. assert (Some (Timed t0 ts) = Some (Timed t ts')) by (apply Ht; eauto). congruence.
    + done.
    + intros Hno. by destruct (Hno t0 ts).
  - split; split; [done| |intros _ t' ts Hr|done].
    + intros [ts Hr]. assert (None = Some (Timed t ts)) by (apply Ht; eauto). done.
    + assert (None = Some (Timed t' ts)) by (apply Ht; eauto). done.
Qed.

(** Registered at 0, still running at 3601, when another execution is registered. *)
Lemma cancel_reaches_registered_tasks_witness :
  cancel_execution_task 1 (run_ops [Register 1 10 0; Register 2 20 3600]) = (true, Some 10%N) /\
  cancel_execution_task 1 (run_ops [Register 1 10 0; Register 2 20 3601]) = (false, None).
Proof.
  split.
  - apply (cancel_reaches_registered_tasks [Register 1 10 0; Register 2 20 3600] 1%N 10%N).
    + vm_compute. repeat constructor; set_solver.
    + exists 0%Z, [], [Register 2 20 3600]. split; [done|]. split; [set_solver|].
      intros eid' t' now [= _ _ ->]%list_elem_of_singleton. done.
  - vm_compute. reflexivity.
Defined.

(** ** Cancelling an execution *)

(** What the tables accept: any command execution, and a script execution that is not over. *)
Definition cancellable (w : lifecycle_world) (eid : uuid) : bool :=
  dict_mem (lw_commands w) eid ||
  match dict_get (lw_scripts w) eid with
  | Some status => bool_decide (status ∈ [ #"pending"; #"running"])
  | None => false
  end.
Definition cancelled_script (w : lifecycle_world) (eid : uuid) : list (uuid * pystr) :=
  if negb (dict_mem (lw_commands w) eid) && cancellable w eid then dict_set (lw_scripts w) eid #"cancelled"
  else lw_scripts w.

Lemma gateway_cancel_spec eid w : gateway_cancel eid w =
  (cancellable w eid, {| lw_registry := lw_registry w; lw_stopped := lw_stopped w; lw_published := lw_published w;
     lw_commands := lw_commands w; lw_scripts := cancelled_script w eid |}).
Proof.
  unfold gateway_cancel, cancelled_script, cancellable. destruct w as [reg st pub cmds scr]; cbn.
  destruct (dict_mem cmds eid); cbn; [done|]. destruct (dict_get scr eid); [|done]. by case_bool_decide.
Qed.

(** Cancelling an execution asks the task the registry finds to stop and announces it,
    whatever happens afterwards; then the tables are consulted: when the database answers, a
    script execution that is pending or running becomes cancelled, the caller hears true if a
    task was stopped or the tables accepted the request, and a not-found error otherwise; when
    it fails, no row has changed. *)
Theorem cancel_execution_outcome (eid : uuid) (w : lifecycle_world) (r : res bool) (w' : lifecycle_world) :
  exec (with_faults serve_lifecycle lifecycle_faults) (cancel_execution eid) w r w' ->
  let stopped := (cancel_execution_task eid (lw_registry w)).2 in
  lw_registry w' = lw_registry w /\
  lw_stopped w' = lw_stopped w ++ option_list stopped /\
  lw_published w' = lw_published w ++ ((fun _ => (#"execution.cancelled", eid)) <$> option_list stopped) /\
  lw_commands w' = lw_commands w /\
  ((lw_scripts w' = cancelled_script w eid /\
    if cancellable w eid || bool_decide (is_Some stopped) then r = Ok true
    else exists msg, r = Raise (Exn ExecutionNotFoundError msg)) \/
   (lw_scripts w' = lw_scripts w /\ exists e, r = Raise e /\ foreign e)).
Proof.
  intros Hx. pattern r, w'. eapply swp_exec; [|exact Hx]. clear Hx r w'. cbn zeta.
  assert (exists stopped, cancel_execution_task eid (lw_registry w) = (bool_decide (is_Some stopped), stopped)) as [stopped E].
  { unfold cancel_execution_task. destruct (dict_get _ _) as [e|]; [case_bool_decide|];
    [by exists None|by exists (Some (entry_task e))|by exists None]. }
  unfold cancel_execution. swp_step. swp_step; [|done]. cbn [serve_lifecycle]. unfold stop_task. rewrite E. cbn [fst snd].
  destruct stopped as [t|].
  - rewrite bool_decide_true by eauto. rewrite orb_true_r. swp_step. swp_step; [|done]. cbn [serve_lifecycle fst snd].
    swp_step. swp_step; cbn [serve_lifecycle]; rewrite ?gateway_cancel_spec; cbn [fst snd].
    + rewrite andb_false_r. swp_step. split_and!; try done. by left.
    + split_and!; try done. right. eauto.
  - rewrite bool_decide_false by by intros []. rewrite orb_false_r. cbn [option_list fmap list_fmap]. rewrite !app_nil_r.
    swp_step. swp_step. swp_step. swp_step; cbn [serve_lifecycle]; rewrite ?gateway_cancel_spec; cbn [fst snd].
    + rewrite andb_true_r. change (cancellable _ eid) with (cancellable w eid).
      destruct (cancellable w eid) eqn:Ec; cbn [negb]; swp_step; split_and!; try done; left; split; try done; by eexists.
    + split_and!; try done. right. eauto.
Qed.

(** A running script whose task is registered; a database that fails. *)
Definition one_running : lifecycle_world :=
  {| lw_registry := run_ops [Register 1 10 0]; lw_stopped := []; lw_published := []; lw_commands := [];
     lw_scripts := [(1%N, #"running")] |}.
Lemma cancel_execution_outcome_witness :
  let w := one_running in
  let w' := (@run_state lifecycle_signature lifecycle_world serve_lifecycle _ (cancel_execution 1) w).2 in
  lw_stopped w' = [10%N] /\ lw_scripts w' = [(1%N, #"cancelled")].
Proof.
  cbn zeta.
  pose proof (cancel_execution_outcome 1 one_running (Ok true)
    (@run_state lifecycle_signature lifecycle_world serve_lifecycle _ (cancel_execution 1) one_running).2) as Ht.
  destruct Ht as (_ & Hs & _ & _ & Hc).
  - by apply (@run_state_exec lifecycle_signature).
  - split; [rewrite Hs; vm_compute; reflexivity|]. destruct Hc as [[-> _]|(_ & e & [=] & _)]. vm_compute. reflexivity.
Defined.
