(* ===== verification/Outbox.v ===== *)
(** * The audit outbox

    Audit events are appended to a table and delivered to the audit log by a worker:
    [app/application/services/audit_event_service.py] over the outboxes of
    [app/adapters/persistence/audit.py], the worker of [audit_outbox_worker.py], and the
    retention of [audit_cleanup_job.py] and [audit_log_service.py].  Tables are
    dictionaries by primary key; a clock reading is a number of microseconds.  [outbox_step]
    interleaves any number of workers: the rows a worker claims are locked until its
    transaction ends, and the others skip them. *)
From S2P Require Import Prelude PyStr Errors Json Effects Dto Output Codec.
From stdpp Require Import sorting.

(** ** Data *)

Record AuditEventDTO := {
  ae_action : pystr; ae_node_id : option uuid; ae_user : option pystr; ae_details : option jobject }.
(** A row of audit_outbox, without its key. *)
Record outbox_row := {
  ob_payload : jobject; ob_status : pystr; ob_attempts : Z; ob_last_error_type : option pystr;
  ob_next_attempt_at : Z; ob_created_at : Z; ob_delivered_at : option Z }.
(** A row of audit_logs, without its key. *)
Record audit_log := {
  al_node_id : option uuid; al_action : pystr; al_user : option pystr; al_details : option pystr;
  al_created_at : Z }.
Record db := {
  db_outbox : list (uuid * outbox_row); db_logs : list (uuid * audit_log); db_nodes : list uuid }.
Definition empty_db (nodes : list uuid) : db := {| db_outbox := []; db_logs := []; db_nodes := nodes |}.

Definition second : Z := 1000000.

(** ** Appending *)

Definition json_opt (v : option pystr) : json := if v is Some s then JStr s else JNull.

Section append.
Context `{Unicode} `{PyFloat}.

Definition payload_of (event : AuditEventDTO) : jobject :=
  [(#"node_id", json_opt (uuid_str <$> ae_node_id event)); (#"action", JStr (ae_action event));
   (#"user", json_opt (ae_user event));
   (#"details", match ae_details event with
                | Some ((_ :: _) as details) => JStr (json_dumps (JObj details))
                | _ => JNull
                end)].
(** The columns the adapter leaves out take their defaults; the clock is read for each. *)
Definition _outbox_model (event : AuditEventDTO) (next_attempt_at created_at : Z) : outbox_row :=
  {| ob_payload := payload_of event; ob_status := #"pending"; ob_attempts := 0; ob_last_error_type := None;
     ob_next_attempt_at := next_attempt_at; ob_created_at := created_at; ob_delivered_at := None |}.

(** The outbox of the request's transaction, and the one that commits by itself. *)
Inductive outbox_call := EnqueueOptional (event : AuditEventDTO) | EnqueueRequired (event : AuditEventDTO).
#[local] Instance outbox_signature : Signature := {| call := outbox_call; answer _ := unit |}.

Definition _event (action : pystr) (node_id : option uuid) (user : option pystr) (details : option jobject) : AuditEventDTO :=
  {| ae_action := action; ae_node_id := node_id; ae_user := user;
     ae_details := match details with
                   | Some ((_ :: _) as details) => Some (sanitize_audit_details details)
                   | _ => None
                   end |}.
Definition log (action : pystr) (node_id : option uuid) (user : option pystr) (details : option jobject) : prog unit :=
  try_except (perform (EnqueueOptional (_event action node_id user details)))
    (on_exception (fun _ => lift (raise AuditWriteError #"Audit event could not be persisted"))).
Definition log_required (action : pystr) (node_id : option uuid) (details : option jobject) : prog unit :=
  try_except (perform (EnqueueRequired (_event action node_id None details)))
    (on_exception (fun _ => lift (raise AuditWriteError #"Required audit event could not be committed"))).
End append.

(** ** The worker *)

Definition older (a b : uuid * outbox_row) : Prop := (ob_created_at a.2 <= ob_created_at b.2)%Z.
#[export] Instance older_dec a b : Decision (older a b) := Z_le_dec _ _.

Section worker.
Context `{ExnNames}.
(** [UUID(text)], and the settings of the worker. *)
Context (parse_uuid : pystr -> option uuid) (max_attempts batch_size : Z).

Definition payload_get (payload : jobject) (key : pystr) : json := default JNull (dict_get payload key).
Definition opt_str (v : json) (msg : pystr) : res (option pystr) :=
  match v with JNull => Ok None | JStr s => Ok (Some s) | _ => raise ValueError msg end.

(** [created_at] is left to its default, the clock at the insertion. *)
Definition _to_audit_log (nodes : list uuid) (payload : jobject) (inserted : Z) : res audit_log :=
  node_id ← opt_str (payload_get payload #"node_id") #"Audit outbox node_id must be a string or null";
  parsed ← match node_id with
           | None | Some [] => Ok None
           | Some text => match parse_uuid text with
                          | Some u => Ok (Some u)
                          | None => raise ValueError #"badly formed hexadecimal UUID string"
                          end
           end;
  let parsed := match parsed with Some u => if bool_decide (u ∈ nodes) then Some u else None | None => None end in
  action ← match payload_get payload #"action" with
           | JStr s => Ok s
           | _ => raise ValueError #"Audit outbox action must be a string"
           end;
  user ← opt_str (payload_get payload #"user") #"Audit outbox user must be a string or null";
  details ← opt_str (payload_get payload #"details") #"Audit outbox details must be a string or null";
  Ok {| al_node_id := parsed; al_action := action; al_user := user; al_details := details; al_created_at := inserted |}.

Definition retry_delay (attempts : Z) : Z := Z.min 300 (2 ^ (attempts - 1)).

Definition failed_row (row : outbox_row) (attempts now : Z) (e : exn) : outbox_row :=
  let failed := (max_attempts <=? attempts)%Z in
  {| ob_payload := ob_payload row; ob_status := if failed then #"failed" else ob_status row;
     ob_attempts := attempts; ob_last_error_type := Some (exn_name (exn_type e));
     ob_next_attempt_at := if failed then ob_next_attempt_at row else now + retry_delay attempts * second;
     ob_created_at := ob_created_at row; ob_delivered_at := ob_delivered_at row |}.
Definition delivered_row (row : outbox_row) (attempts now : Z) : outbox_row :=
  {| ob_payload := ob_payload row; ob_status := #"completed"; ob_attempts := attempts; ob_last_error_type := None;
     ob_next_attempt_at := ob_next_attempt_at row; ob_created_at := ob_created_at row;
     ob_delivered_at := Some now |}.

(** [inserted]: the time of the insertion, or the exception that the database raises in the nested
    transaction, which is rolled back. *)
Definition _deliver (inserted : res Z) (now : Z) (id : uuid) (row : outbox_row) (d : db) : bool * db :=
  let attempts := (ob_attempts row + 1)%Z in
  match
    match inserted with
    | Raise e => Raise e
    | Ok inserted => match dict_get (db_logs d) id with
                     | Some _ => Ok None
                     | None => log ← _to_audit_log (db_nodes d) (ob_payload row) inserted; Ok (Some log)
                     end
    end
  with
  | Raise e => (false, {| db_outbox := dict_set (db_outbox d) id (failed_row row attempts now e);
                          db_logs := db_logs d; db_nodes := db_nodes d |})
  | Ok log => (true, {| db_outbox := dict_set (db_outbox d) id (delivered_row row attempts now);
                        db_logs := if log is Some log then dict_set (db_logs d) id log else db_logs d;
                        db_nodes := db_nodes d |})
  end.

(** The loop over a claimed batch; the number of deliveries. *)
Fixpoint deliver_all (fault : uuid -> res Z) (now : Z) (ids : list uuid) (d : db) : Z * db :=
  match ids with
  | [] => (0%Z, d)
  | id :: ids =>
      match dict_get (db_outbox d) id with
      | None => deliver_all fault now ids d
      | Some row =>
          let '(ok, d) := _deliver (fault id) now id row d in
          let '(n, d) := deliver_all fault now ids d in
          (if ok then n + 1 else n, d)%Z
      end
  end.

Definition due (now : Z) (row : outbox_row) : bool :=
  bool_decide (ob_status row = #"pending") && (ob_next_attempt_at row <=? now)%Z.
(** The rows the query matches that no other transaction has locked. *)
Definition claimable (now : Z) (locked : list uuid) (rows : list (uuid * outbox_row)) : list (uuid * outbox_row) :=
  List.filter (fun kv => due now kv.2 && negb (bool_decide (kv.1 ∈ locked))) rows.

(** [order_by(created_at).limit(batch_size)]: any order among rows created at the same time. *)
Definition claims (now : Z) (locked : list uuid) (rows : list (uuid * outbox_row)) (ids : list uuid) : Prop :=
  exists ordered, ordered ≡ₚ claimable now locked rows /\ Sorted older ordered /\
    ids = (take (Z.to_nat batch_size) ordered).*1.
(** One such choice. *)
Definition claim (now : Z) (locked : list uuid) (rows : list (uuid * outbox_row)) : list uuid :=
  (take (Z.to_nat batch_size) (merge_sort older (claimable now locked rows))).*1.

Definition pending_rows (rows : list (uuid * outbox_row)) : list (uuid * outbox_row) :=
  List.filter (fun kv => bool_decide (ob_status kv.2 = #"pending")) rows.
(** The gauges: the number of pending rows, and the age of the oldest. *)
Definition _update_metrics (now : Z) (d : db) : Z * Z :=
  let pending := pending_rows (db_outbox d) in
  (Z.of_nat (length pending),
   match pending with
   | [] => 0
   | kv :: rest =>
       Z.max 0 (now - foldr Z.min (ob_created_at kv.2) ((fun kv => ob_created_at kv.2) <$> rest))
   end)%Z.

(** A poll of a single worker, and what the database answers in it: the exceptions of the query,
    of the gauges and of the commit, and for each event the time of its insertion or an
    exception.  When the commit raises, the transaction may have been committed nevertheless. *)
Record poll := {
  po_now : Z; po_select : option exn; po_insert : uuid -> res Z; po_metrics : option exn; po_commit : option (exn * bool) }.
(** Its deliveries, the database it leaves, and the gauges, if it sets them. *)
Definition run_once (p : poll) (d : db) : res Z * db * option (Z * Z) :=
  match po_select p with
  | Some e => (Raise e, d, None)
  | None =>
      let '(delivered, d') := deliver_all (po_insert p) (po_now p) (claim (po_now p) [] (db_outbox d)) d in
      match po_metrics p with
      | Some e => (Raise e, d, None)
      | None =>
          let gauges := _update_metrics (po_now p) d' in
          match po_commit p with
          | Some (e, kept) => (Raise e, if kept then d' else d, Some gauges)
          | None => (Ok delivered, d', Some gauges)
          end
      end
  end.
End worker.

(** ** Retention *)

(** [datetime.min] and [datetime.max], and the exception of arithmetic that leaves them. *)
Definition datetime_min : Z := -62135596800000000.
Definition datetime_max : Z := 253402300799999999.
Definition OverflowError : exn_class := LibraryError #"OverflowError".
Definition day : Z := 86400 * second.

Definition delete_before (cutoff : Z) (d : db) : Z * db :=
  let kept := List.filter (fun kv => negb (al_created_at kv.2 <? cutoff)%Z) (db_logs d) in
  (Z.of_nat (length (db_logs d)) - Z.of_nat (length kept),
   {| db_outbox := db_outbox d; db_logs := kept; db_nodes := db_nodes d |})%Z.
(** [AuditCleanupJob.run], and [cleanup_old_logs] of the service. *)
Definition cleanup_old_logs (now retention_days : Z) (d : db) : res Z * db :=
  if (retention_days <=? 0)%Z then (Ok 0%Z, d)
  else if (999999999 <? retention_days)%Z then (raise OverflowError #"days out of range", d)
  else if (now - retention_days * day <? datetime_min)%Z then (raise OverflowError #"date value out of range", d)
  else let '(n, d) := delete_before (now - retention_days * day) d in (Ok n, d).
Definition delete_all_logs (d : db) : Z * db := delete_before datetime_max d.

(** ** Interleavings of workers, requests and maintenance *)

(** [sy_claims]: the open transactions of the workers, with the time of the poll and the
    rows it locked. *)
Record system := { sy_db : db; sy_claims : list (N * (Z * list uuid)) }.
Definition locked (claims : list (N * (Z * list uuid))) : list uuid := mjoin ((fun c => c.2.2) <$> claims).
Definition initial_system (nodes : list uuid) : system := {| sy_db := empty_db nodes; sy_claims := [] |}.

Definition new_ids (old new : list (uuid * audit_log)) : list uuid :=
  List.filter (fun id => negb (bool_decide (id ∈ old.*1))) new.*1.
(** The table of nodes, and [ON DELETE SET NULL]. *)
Definition remove_node (u : uuid) (d : db) : db :=
  {| db_outbox := db_outbox d;
     db_logs := prod_map id (fun l =>
       {| al_node_id := if bool_decide (al_node_id l = Some u) then None else al_node_id l;
          al_action := al_action l; al_user := al_user l; al_details := al_details l;
          al_created_at := al_created_at l |}) <$> db_logs d;
     db_nodes := List.filter (fun n => negb (bool_decide (n = u))) (db_nodes d) |}.
Definition set_db (s : system) (d : db) : system := {| sy_db := d; sy_claims := sy_claims s |}.
Definition set_outbox (d : db) (rows : list (uuid * outbox_row)) : db :=
  {| db_outbox := rows; db_logs := db_logs d; db_nodes := db_nodes d |}.

Section interleaving.
Context `{Unicode} `{PyFloat} `{ExnNames}.
Context (parse_uuid : pystr -> option uuid) (max_attempts batch_size : Z).

(** [outbox_step s inserted s']: a step, with the identifiers it adds to the audit log. *)
Inductive outbox_step (s : system) : list uuid -> system -> Prop :=
| step_enqueue id event next_at now :
    id ∉ (db_outbox (sy_db s)).*1 ->   (* [uuid4] *)
    outbox_step s [] (set_db s (set_outbox (sy_db s) (db_outbox (sy_db s) ++ [(id, _outbox_model event next_at now)])))
| step_claim w now ids :
    dict_get (sy_claims s) w = None ->
    claims batch_size now (locked (sy_claims s)) (db_outbox (sy_db s)) ids ->
    outbox_step s [] {| sy_db := sy_db s; sy_claims := (w, (now, ids)) :: sy_claims s |}
| step_commit w now ids fault :
    dict_get (sy_claims s) w = Some (now, ids) ->
    let d := (deliver_all parse_uuid max_attempts fault now ids (sy_db s)).2 in
    outbox_step s (new_ids (db_logs (sy_db s)) (db_logs d)) {| sy_db := d; sy_claims := dict_pop (sy_claims s) w |}
| step_abort w :
    outbox_step s [] {| sy_db := sy_db s; sy_claims := dict_pop (sy_claims s) w |}
| step_retain cutoff : outbox_step s [] (set_db s (delete_before cutoff (sy_db s)).2)
| step_remove_node u : outbox_step s [] (set_db s (remove_node u (sy_db s))).

Inductive outbox_run (s : system) : list uuid -> system -> Prop :=
| run_nil : outbox_run s [] s
| run_snoc trace s1 inserted s2 : outbox_run s trace s1 -> outbox_step s1 inserted s2 -> outbox_run s (trace ++ inserted) s2.

(** ** Laws of the delivery *)

(** The outcome of an attempt, and the row it leaves, when the event is not yet in the log. *)
Definition attempt (fault : res Z) (nodes : list uuid) (row : outbox_row) : res audit_log :=
  inserted ← fault; _to_audit_log parse_uuid nodes (ob_payload row) inserted.
Definition settle (fault : res Z) (nodes : list uuid) (now : Z) (row : outbox_row) : outbox_row :=
  match attempt fault nodes row with
  | Raise e => failed_row max_attempts row (ob_attempts row + 1) now e
  | Ok _ => delivered_row row (ob_attempts row + 1) now
  end.
Definition settle_batch (fault : uuid -> res Z) (nodes : list uuid) (now : Z) (ids : list uuid)
    (rows : list (uuid * outbox_row)) : list (uuid * outbox_row) :=
  (fun kv => if decide (kv.1 ∈ ids) then (kv.1, settle (fault kv.1) nodes now kv.2) else kv) <$> rows.
Definition delivered_logs (fault : uuid -> res Z) (nodes : list uuid)
    (rows : list (uuid * outbox_row)) (ids : list uuid) : list (uuid * audit_log) :=
  omap (fun id => row ← dict_get rows id; if attempt (fault id) nodes row is Ok log then Some (id, log) else None) ids.

Lemma settle_batch_keys fault nodes now ids rows : (settle_batch fault nodes now ids rows).*1 = rows.*1.
Proof.
  unfold settle_batch. rewrite <- list_fmap_compose. apply list_fmap_ext. intros i kv _. cbn. by case_decide.
Qed.

Lemma settle_batch_get fault nodes now ids rows id :
  dict_get (settle_batch fault nodes now ids rows) id =
  (fun row => if decide (id ∈ ids) then settle (fault id) nodes now row else row) <$> dict_get rows id.
Proof.
  induction rows as [|[k row] rows IH]; [done|]. cbn. destruct (decide (k ∈ ids)) as [Hk|Hk]; cbn;
    (destruct (decide (k = id)) as [->|Hne]; [|exact IH]); cbn;
    first [by rewrite decide_True|by rewrite decide_False].
Qed.

Lemma settle_batch_cons fault nodes now id ids rows row :
  NoDup rows.*1 -> id ∉ ids -> dict_get rows id = Some row ->
  settle_batch fault nodes now ids (dict_set rows id (settle (fault id) nodes now row)) =
  settle_batch fault nodes now (id :: ids) rows.
Proof.
  intros Hnd Hid Hrow.
  assert (id ∈ rows.*1) as Hin.
  { apply dict_get_elem in Hrow. apply list_elem_of_fmap. by exists (id, row). }
  rewrite dict_set_map by done. unfold settle_batch. rewrite <- list_fmap_compose. apply list_fmap_ext.
  intros i [k r] Hi. cbn. apply list_elem_of_lookup_2 in Hi. destruct (decide (k = id)) as [->|Hne]; cbn.
  - rewrite decide_False by done. rewrite decide_True by by left.
    apply dict_get_NoDup in Hi; [|done]. congruence.
  - destruct (decide (k ∈ ids)) as [Hk|Hk]; [by rewrite decide_True by by right|].
    rewrite decide_False; [done|]. by intros [?|?]%elem_of_cons.
Qed.

Lemma deliver_eq fault now id row d : id ∉ (db_logs d).*1 ->
  _deliver parse_uuid max_attempts fault now id row d =
  let r := attempt fault (db_nodes d) row in
  (is_ok r,
   {| db_outbox := dict_set (db_outbox d) id (settle fault (db_nodes d) now row);
      db_logs := db_logs d ++ (if r is Ok log then [(id, log)] else []); db_nodes := db_nodes d |}).
Proof.
  intros Hid. unfold _deliver, settle, attempt.
  assert (dict_get (db_logs d) id = None) as ->.
  { destruct (dict_get (db_logs d) id) as [l|] eqn:El; [|done]. destruct Hid. apply dict_get_elem in El.
    apply list_elem_of_fmap. by exists (id, l). }
  destruct fault as [inserted|e]; cbn zeta; [|by rewrite app_nil_r]. cbn [mbind res_bind].
  destruct (_to_audit_log _ _ _ _) as [log|e]; cbn; [by rewrite (dict_set_app (db_logs d))|by rewrite app_nil_r].
Qed.

Lemma delivered_logs_set fault nodes rows ids id row : id ∉ ids ->
  delivered_logs fault nodes (dict_set rows id row) ids = delivered_logs fault nodes rows ids.
Proof.
  intros Hid. unfold delivered_logs. induction ids as [|i ids IH]; [done|]. apply not_elem_of_cons in Hid as [Hne Hid].
  cbn [omap list_omap]. rewrite dict_get_set_ne by done. by rewrite IH.
Qed.

Lemma deliver_all_spec fault now ids d :
  NoDup (db_outbox d).*1 -> NoDup ids -> (forall id, id ∈ ids -> id ∈ (db_outbox d).*1 /\ id ∉ (db_logs d).*1) ->
  deliver_all parse_uuid max_attempts fault now ids d =
  (Z.of_nat (length (delivered_logs fault (db_nodes d) (db_outbox d) ids)),
   {| db_outbox := settle_batch fault (db_nodes d) now ids (db_outbox d);
      db_logs := db_logs d ++ delivered_logs fault (db_nodes d) (db_outbox d) ids; db_nodes := db_nodes d |}).
Proof.
  revert d. induction ids as [|id ids IH]; intros [rows logs nodes] Hnd Hids Hsub; cbn [db_outbox db_logs db_nodes] in *.
  { cbn. rewrite app_nil_r. do 2 f_equal. unfold settle_batch. rewrite <- (list_fmap_id rows) at 1.
    apply list_fmap_ext. intros i kv _. cbn. by rewrite decide_False by apply not_elem_of_nil. }
  apply NoDup_cons in Hids as [Hid Hids]. destruct (Hsub id ltac:(by left)) as [Hin Hlog].
  destruct (dict_get rows id) as [row|] eqn:Hrow.
  2:{ apply list_elem_of_fmap in Hin as ([k r] & -> & Hin). apply (dict_get_NoDup _ _ _ Hnd) in Hin. cbn in *. congruence. }
  cbn [deliver_all db_outbox]. rewrite Hrow, deliver_eq by done. cbn [db_logs db_nodes db_outbox]. cbn zeta beta iota.
  unfold delivered_logs at 1 2. cbn [omap list_omap]. rewrite Hrow. cbn [mbind option_bind].
  fold (delivered_logs fault nodes rows ids).
  rewrite IH; cbn [db_outbox db_logs db_nodes]; [|by apply dict_set_NoDup|done|].
  - rewrite settle_batch_cons, delivered_logs_set by done. cbn beta iota.
    destruct (attempt (fault id) nodes row); cbn [is_ok]; rewrite <- app_assoc; cbn; f_equal; lia.
  - intros i Hi. destruct (Hsub i ltac:(by right)) as [Hi1 Hi2]. split; [apply elem_of_dict_set; by right|].
    rewrite fmap_app, elem_of_app. intros [?|Hl]; [done|]. apply Hid.
    destruct (attempt _ _ _); [|by apply elem_of_nil in Hl]. by apply list_elem_of_singleton in Hl as ->.
Qed.

(** ** The invariant of the outbox *)

Definition row_ok (row : outbox_row) : Prop :=
  (ob_status row = #"pending" /\ (0 <= ob_attempts row < max_attempts)%Z /\ ob_delivered_at row = None) \/
  (ob_status row = #"completed" /\ is_Some (ob_delivered_at row) /\ ob_last_error_type row = None) \/
  (ob_status row = #"failed" /\ (max_attempts <= ob_attempts row)%Z /\ ob_delivered_at row = None).
Definition has_status (rows : list (uuid * outbox_row)) (id : uuid) (status : pystr) : Prop :=
  exists row, dict_get rows id = Some row /\ ob_status row = status.
(** The log entry is the event of the row, with the time of its insertion; its node may have
    been deleted since. *)
Definition entry_of (row : outbox_row) (l : audit_log) : Prop :=
  exists nodes l0, _to_audit_log parse_uuid nodes (ob_payload row) (al_created_at l) = Ok l0 /\
    al_action l = al_action l0 /\ al_user l = al_user l0 /\ al_details l = al_details l0 /\
    (al_node_id l = al_node_id l0 \/ al_node_id l = None).

Record outbox_inv (s : system) (trace : list uuid) : Prop := {
  oi_keys : NoDup (db_outbox (sy_db s)).*1;
  oi_claims : NoDup (sy_claims s).*1;
  oi_locked : NoDup (locked (sy_claims s));
  oi_pending : forall id, id ∈ locked (sy_claims s) -> has_status (db_outbox (sy_db s)) id #"pending";
  oi_rows : forall id row, dict_get (db_outbox (sy_db s)) id = Some row -> row_ok row;
  oi_trace : NoDup trace;
  oi_delivered : forall id, id ∈ trace <-> has_status (db_outbox (sy_db s)) id #"completed";
  oi_logs : NoDup (db_logs (sy_db s)).*1;
  oi_entries : forall id l, dict_get (db_logs (sy_db s)) id = Some l ->
    exists row, dict_get (db_outbox (sy_db s)) id = Some row /\ ob_status row = #"completed" /\ entry_of row l }.

Lemma has_status_eq rows id st st' : has_status rows id st -> has_status rows id st' -> st = st'.
Proof. intros (row & Hr & <-) (row' & Hr' & <-). congruence. Qed.

Lemma delivered_logs_elem fault nodes rows ids id l :
  (id, l) ∈ delivered_logs fault nodes rows ids <->
  id ∈ ids /\ exists row, dict_get rows id = Some row /\ attempt (fault id) nodes row = Ok l.
Proof.
  unfold delivered_logs. rewrite list_elem_of_omap. split.
  - intros (i & Hi & E). destruct (dict_get rows i) as [row|] eqn:Er; [|done]. cbn in E.
    destruct (attempt _ _ _) eqn:Ea; [|done]. injection E as -> ->. eauto.
  - intros (Hid & row & Hr & Ha). exists id. split; [done|]. rewrite Hr. cbn. by rewrite Ha.
Qed.

Lemma delivered_logs_NoDup fault nodes rows ids : NoDup ids -> NoDup (delivered_logs fault nodes rows ids).*1.
Proof.
  unfold delivered_logs. induction ids as [|id ids IH]; [constructor|]. intros [Hid Hnd]%NoDup_cons. cbn [omap list_omap].
  specialize (IH Hnd). destruct (dict_get rows id) as [row|]; [|done]. cbn. destruct (attempt _ _ _) as [l|e]; [|done].
  cbn. constructor; [|done]. intros ([i l'] & -> & Hin)%list_elem_of_fmap.
  by apply delivered_logs_elem in Hin as [Hin _].
Qed.

Lemma new_ids_app old new : (forall id, id ∈ new.*1 -> id ∉ old.*1) -> new_ids old (old ++ new) = new.*1.
Proof.
  intros Hnew. unfold new_ids. rewrite fmap_app, List.filter_app.
  rewrite filter_none, filter_all; [done| |].
  - intros x Hx. by rewrite bool_decide_false by by apply Hnew.
  - intros x Hx. by rewrite bool_decide_true.
Qed.

Lemma settle_row fault nodes now row : row_ok row -> ob_status row = #"pending" -> (0 < max_attempts)%Z ->
  row_ok (settle fault nodes now row) /\
  (ob_status (settle fault nodes now row) = #"completed" <-> is_ok (attempt fault nodes row) = true) /\
  (0 <= ob_attempts row < max_attempts)%Z.
Proof.
  intros Hrow Hst Hmax. assert (0 <= ob_attempts row < max_attempts /\ ob_delivered_at row = None)%Z as [Ha Hd].
  { destruct Hrow as [(_ & ? & ?)|[(E & _)|(E & _)]]; [done|by rewrite Hst in E..]. }
  unfold settle. destruct (attempt _ _ _) as [l|e]; cbn.
  - split; [|by split; [split|]]. right. left. cbn. by split_and!.
  - destruct (max_attempts <=? ob_attempts row + 1)%Z eqn:El; to_prop; rewrite ?Hst; (split; [|by split; [split|]]).
    + right. right. unfold failed_row. cbn. rewrite (proj2 (Z.leb_le _ _)) by lia. done.
    + left. unfold failed_row. cbn. rewrite (proj2 (Z.leb_gt _ _)) by lia. split; [done|]. split; [lia|done].
Qed.

Lemma locked_pop claims w now ids : NoDup claims.*1 -> dict_get claims w = Some (now, ids) ->
  locked claims ≡ₚ ids ++ locked (dict_pop claims w).
Proof.
  unfold locked. induction claims as [|[k c] claims IH]; [done|]. cbn. intros [Hk Hnd]%NoDup_cons.
  unfold dict_pop. cbn. case_decide as E.
  - subst k. intros [= ->]. rewrite bool_decide_true by done. cbn.
    replace (List.filter _ claims) with claims; [done|]. symmetry. apply forallb_filter_id.
    apply forallb_forall. intros [j u] Hin. cbn. rewrite bool_decide_false; [done|]. intros ->. apply Hk, list_elem_of_fmap.
    exists (w, u). split; [done|]. by apply list_elem_of_In.
  - intros Hg. rewrite bool_decide_false by done. cbn. rewrite (IH Hnd Hg). unfold dict_pop.
    by rewrite !(assoc_L (++)), (comm (++) c.2 ids).
Qed.

Lemma claims_elem now locks rows ids : NoDup rows.*1 -> claims batch_size now locks rows ids ->
  NoDup ids /\ forall id, id ∈ ids -> (id ∉ locks) /\ has_status rows id #"pending".
Proof.
  intros Hnd (ordered & Hp & _ & ->). split.
  - assert (NoDup ordered.*1) as Ho by (rewrite Hp; by apply filter_keys).
    rewrite fmap_take. eapply sublist_NoDup; [exact Ho|apply sublist_take].
  - intros id Hin. apply list_elem_of_fmap in Hin as ([k row] & -> & Hin).
    apply elem_of_take in Hin as (i & Hi & _). apply list_elem_of_lookup_2 in Hi. rewrite Hp in Hi.
    apply list_elem_of_In, filter_In in Hi as [Hi Hf]. apply andb_true_iff in Hf as [Hdue Hl].
    apply andb_true_iff in Hdue as [Hst _]. apply bool_decide_eq_true in Hst.
    apply negb_true_iff, bool_decide_eq_false in Hl. split; [done|]. exists row. split; [|done].
    apply dict_get_NoDup; [done|]. by apply list_elem_of_In.
Qed.

Context (Hmax : (0 < max_attempts)%Z).

Lemma to_audit_log_created nodes payload now l :
  _to_audit_log parse_uuid nodes payload now = Ok l -> al_created_at l = now.
Proof.
  unfold _to_audit_log. intros (nid & _ & (p & _ & (a & _ & (u & _ & (d & _ & [= <-])%bind_ok)%bind_ok)%bind_ok)%bind_ok)%bind_ok.
  done.
Qed.

Lemma has_status_settled fault nodes now ids rows id st :
  has_status (settle_batch fault nodes now ids rows) id st <->
  exists row, dict_get rows id = Some row /\
    ob_status (if decide (id ∈ ids) then settle (fault id) nodes now row else row) = st.
Proof.
  unfold has_status. rewrite settle_batch_get. split.
  - intros (row & Hr & Hst). destruct (dict_get rows id) as [r|]; [|done]. cbn in Hr. simplify_eq. eauto.
  - intros (row & -> & Hst). eauto.
Qed.

Lemma has_status_kept fault nodes now ids rows id st : id ∉ ids ->
  has_status (settle_batch fault nodes now ids rows) id st <-> has_status rows id st.
Proof. intros Hid. unfold has_status. rewrite settle_batch_get. destruct (dict_get rows id); [|done]. cbn. by rewrite decide_False. Qed.

Lemma inv_enqueue s trace id event next_at now : outbox_inv s trace -> id ∉ (db_outbox (sy_db s)).*1 ->
  outbox_inv (set_db s (set_outbox (sy_db s) (db_outbox (sy_db s) ++ [(id, _outbox_model event next_at now)]))) trace.
Proof.
  intros [Hk Hc Hl Hp Hr Ht Hd Hlk He] Hid. set (row := _outbox_model event next_at now).
  assert (dict_get (db_outbox (sy_db s)) id = None) as Hnone by (apply eq_None_not_Some; by rewrite <- dict_get_key).
  assert (forall k st, st <> #"pending" \/ k <> id -> has_status (db_outbox (sy_db s)) k st <->
    has_status (db_outbox (sy_db s) ++ [(id, row)]) k st) as Hst.
  { intros k st Hne. unfold has_status. setoid_rewrite dict_get_app_new.
    destruct (dict_get (db_outbox (sy_db s)) k) as [r|] eqn:E; [done|]. split; [by intros (? & ? & _)|].
    intros (r & Hk' & <-). case_decide; [|done]. simplify_eq. by destruct Hne as [[]|]. }
  split; cbn; try done.
  - rewrite fmap_app. apply NoDup_app. split_and!; [done| |by apply NoDup_singleton].
    by intros x Hx ->%list_elem_of_singleton.
  - intros k Hk'. apply Hst; [|by apply Hp]. right. intros ->. destruct (Hp _ Hk') as (r & Hr' & _). congruence.
  - intros k r. rewrite dict_get_app_new. destruct (dict_get _ k) as [r'|] eqn:E; [intros [= <-]; by apply (Hr k)|].
    case_decide; [|done]. intros [= <-]. left. cbn. done.
  - intros k. rewrite Hd. apply Hst. by left.
  - intros k l Hl'. destruct (He k l Hl') as (r & Hr' & ?). exists r. rewrite dict_get_app_new. by rewrite Hr'.
Qed.

Lemma inv_claim s trace w now ids : outbox_inv s trace -> dict_get (sy_claims s) w = None ->
  claims batch_size now (locked (sy_claims s)) (db_outbox (sy_db s)) ids ->
  outbox_inv {| sy_db := sy_db s; sy_claims := (w, (now, ids)) :: sy_claims s |} trace.
Proof.
  intros [Hk Hc Hl Hp Hr Ht Hd Hlk He] Hw Hcl. apply claims_elem in Hcl as [Hnd Hids]; [|done].
  split; cbn; try done.
  - constructor; [|done]. intros [c Hw']%dict_get_key. congruence.
  - change (NoDup (ids ++ locked (sy_claims s))). apply NoDup_app. split_and!; [done| |done].
    intros id Hin. by apply Hids.
  - intros id. change (locked _) with (ids ++ locked (sy_claims s)). rewrite elem_of_app. intros [Hin|Hin].
    + by apply Hids.
    + by apply Hp.
Qed.

Lemma inv_release s trace claims d : outbox_inv s trace ->
  claims = sy_claims s \/ (exists w, claims = dict_pop (sy_claims s) w) ->
  db_outbox d = db_outbox (sy_db s) -> NoDup (db_logs d).*1 ->
  (forall id l, dict_get (db_logs d) id = Some l -> exists l', dict_get (db_logs (sy_db s)) id = Some l' /\
     al_action l = al_action l' /\ al_user l = al_user l' /\ al_details l = al_details l' /\
     al_created_at l = al_created_at l' /\ (al_node_id l = al_node_id l' \/ al_node_id l = None)) ->
  outbox_inv {| sy_db := d; sy_claims := claims |} trace.
Proof.
  intros [Hk Hc Hl Hp Hr Ht Hd Hlk He] Hcl Ho Hlk' Hsame.
  assert (NoDup claims.*1 /\ NoDup (locked claims) /\ forall id, id ∈ locked claims -> id ∈ locked (sy_claims s)) as (? & ? & Hsub).
  { destruct Hcl as [->|[w ->]]; [done|]. destruct (dict_get (sy_claims s) w) as [[now ids]|] eqn:E.
    - apply locked_pop in E; [|done]. split; [by apply filter_keys|]. rewrite E in Hl. apply NoDup_app in Hl as (_ & _ & ?).
      split; [done|]. intros id Hid. rewrite E. apply elem_of_app. by right.
    - replace (dict_pop (sy_claims s) w) with (sy_claims s); [done|]. symmetry. apply forallb_filter_id, forallb_forall.
      intros [k c] Hin. cbn. rewrite bool_decide_false; [done|]. intros ->. apply list_elem_of_In in Hin.
      apply dict_get_NoDup in Hin; [|done]. congruence. }
  split; cbn; rewrite ?Ho; try done.
  - intros id Hid. by apply Hp, Hsub.
  - intros id l Hg. destruct (Hsame id l Hg) as (l' & Hg' & Ea & Eu & Ed & Ec & En).
    destruct (He id l' Hg') as (row & Hrow & Hst & nodes & l0 & ? & ? & ? & ? & Hn).
    exists row. split_and!; [done..|]. exists nodes, l0. split_and!; try congruence.
    destruct En as [En|En]; [by rewrite En|by right].
Qed.

Lemma delivered_completed fault nodes now ids rows id :
  (forall id, id ∈ ids -> has_status rows id #"pending") ->
  id ∈ (delivered_logs fault nodes rows ids).*1 <->
  id ∈ ids /\ has_status (settle_batch fault nodes now ids rows) id #"completed".
Proof.
  intros Hpend. rewrite list_elem_of_fmap. split.
  - intros ([k l] & -> & Hin). apply delivered_logs_elem in Hin as (Hid & row & Hrow & Ha). cbn [fst]. split; [done|].
    apply has_status_settled. exists row. rewrite decide_True by done. split; [done|]. unfold settle. by rewrite Ha.
  - intros (Hid & (row & Hrow & Hst)%has_status_settled). rewrite decide_True in Hst by done.
    unfold settle in Hst. destruct (attempt _ _ _) as [l|e] eqn:Ea.
    + exists (id, l). split; [done|]. apply delivered_logs_elem. eauto.
    + destruct (Hpend id Hid) as (row' & Hrow' & Hst'). cbn in Hst. simplify_eq.
      destruct (max_attempts <=? _)%Z in Hst; [done|]. by rewrite Hst' in Hst.
Qed.

Lemma inv_commit s trace w now ids fault : outbox_inv s trace -> dict_get (sy_claims s) w = Some (now, ids) ->
  let d := (deliver_all parse_uuid max_attempts fault now ids (sy_db s)).2 in
  outbox_inv {| sy_db := d; sy_claims := dict_pop (sy_claims s) w |} (trace ++ new_ids (db_logs (sy_db s)) (db_logs d)).
Proof.
  intros [Hk Hc Hl Hp Hr Ht Hd Hlk He] Hw. apply locked_pop in Hw; [|done].
  assert (NoDup (dict_pop (sy_claims s) w).*1) as Hc' by by apply filter_keys.
  rewrite Hw in Hl. apply NoDup_app in Hl as (Hids & Hdis & Hl).
  assert (forall id, id ∈ ids -> has_status (db_outbox (sy_db s)) id #"pending") as Hpend.
  { intros id Hid. apply Hp. rewrite Hw. apply elem_of_app. by left. }
  assert (forall id, id ∈ ids -> id ∉ (db_logs (sy_db s)).*1) as Hnolog.
  { intros id Hid [l Hg]%dict_get_key. destruct (He id l Hg) as (row & Hrow & Hst & _).
    pose proof (has_status_eq _ _ _ _ (Hpend id Hid) (ex_intro _ row (conj Hrow Hst))). done. }
  cbn zeta. rewrite deliver_all_spec; [|done|done|].
  2:{ intros id Hid. split; [|by apply Hnolog]. apply dict_get_key. destruct (Hpend id Hid) as (row & Hrow & _). by eexists. }
  set (nodes := db_nodes (sy_db s)). set (rows := db_outbox (sy_db s)) in *.
  set (new := delivered_logs fault nodes rows ids).
  pose proof (fun id => delivered_completed fault nodes now ids rows id Hpend) as Hnew. fold new in Hnew.
  cbn [snd db_logs db_outbox db_nodes sy_db sy_claims]. rewrite new_ids_app by (intros id [Hid _]%Hnew; by apply Hnolog).
  split; cbn [snd db_logs db_outbox db_nodes sy_db sy_claims]; try done.
  - by rewrite settle_batch_keys.
  - intros id Hid. destruct (Hp id) as (row & Hrow & Hst); [rewrite Hw; apply elem_of_app; by right|].
    apply has_status_kept; [by intros ?%Hdis|]. by exists row.
  - intros id row. rewrite settle_batch_get. destruct (dict_get rows id) as [r|] eqn:Er; [|done]. intros [= <-].
    case_decide as Hid; [|by apply (Hr id)]. apply settle_row; [by apply (Hr id)| |done].
    destruct (Hpend id Hid) as (r' & ? & ?). congruence.
  - apply NoDup_app. split_and!; [done| |by apply delivered_logs_NoDup].
    intros id Hin [Hid _]%Hnew. apply Hd in Hin. by pose proof (has_status_eq _ _ _ _ Hin (Hpend id Hid)).
  - intros id. rewrite elem_of_app, Hd, Hnew. destruct (decide (id ∈ ids)) as [Hid|Hid].
    + split; [|by right]. intros [Hin|[_ ?]]; [|done]. by pose proof (has_status_eq _ _ _ _ Hin (Hpend id Hid)).
    + rewrite has_status_kept by done. naive_solver.
  - rewrite fmap_app. apply NoDup_app. split_and!; [done| |by apply delivered_logs_NoDup].
    intros id Hin [Hid _]%Hnew. by apply (Hnolog id).
  - intros id l Hg. apply dict_get_elem, elem_of_app in Hg as [Hg|Hg].
    + apply dict_get_NoDup in Hg; [|done]. destruct (He id l Hg) as (row & Hrow & Hst & Hent). exists row.
      rewrite settle_batch_get, Hrow. cbn. rewrite decide_False; [done|].
      intros Hid. apply (Hnolog id Hid). apply dict_get_key. by eexists.
    + pose proof Hg as (Hid & row & Hrow & Ha)%delivered_logs_elem.
      exists (settle (fault id) nodes now row). rewrite settle_batch_get, Hrow. cbn. rewrite decide_True by done.
      split; [done|]. unfold settle. rewrite Ha. split; [done|]. unfold attempt in Ha. destruct (fault id) as [inserted|]; [|done].
      cbn [mbind res_bind] in Ha. exists nodes, l. rewrite (to_audit_log_created _ _ _ _ Ha). split_and!; try done. by left.
Qed.

Lemma outbox_inv_step s trace inserted s' : outbox_inv s trace -> outbox_step s inserted s' ->
  outbox_inv s' (trace ++ inserted).
Proof.
  intros Hs. destruct 1; rewrite ?app_nil_r.
  - by apply inv_enqueue.
  - by apply inv_claim.
  - by apply inv_commit.
  - apply (inv_release s); try done; [by right; eexists|apply Hs|]. intros id l Hg. exists l. split_and!; auto.
  - apply (inv_release s); try done; [by left|by apply filter_keys, Hs|]. intros id l Hg.
    apply dict_get_filter in Hg; [|apply Hs]. exists l. split_and!; auto.
  - apply (inv_release s); try done; [by left| |].
    + cbn. rewrite <- list_fmap_compose. apply Hs.
    + intros id l. cbn. rewrite dict_get_fmap_snd. destruct (dict_get _ id) as [l'|]; [|done]. intros [= <-].
      exists l'. split_and!; try done. cbn. case_bool_decide; auto.
Qed.

Lemma outbox_inv_run nodes trace s : outbox_run (initial_system nodes) trace s -> outbox_inv s trace.
Proof.
  induction 1 as [|trace s1 inserted s2 _ IH Hstep]; [|by eapply outbox_inv_step].
  split; cbn; try by constructor.
  - by intros id ?%elem_of_nil.
  - intros id. split; [by intros ?%elem_of_nil|]. by intros (row & ? & _).
  - done.
Qed.

End interleaving.

(** ** What is enqueued can be delivered *)

Section service.
Context `{Unicode} `{PyFloat}.
#[local] Existing Instance outbox_signature.

(** The entry that an event becomes. *)
Definition entry_for (nodes : list uuid) (now : Z) (event : AuditEventDTO) : audit_log :=
  {| al_node_id := match ae_node_id event with
                   | Some u => if bool_decide (u ∈ nodes) then Some u else None
                   | None => None
                   end;
     al_action := ae_action event; al_user := ae_user event;
     al_details := match ae_details event with
                   | Some ((_ :: _) as details) => Some (json_dumps (JObj details))
                   | _ => None
                   end;
     al_created_at := now |}.

(** An event that was appended never fails on its payload: the worker reads back the
    action, the user, the serialized details and the node, if that still exists. *)
Theorem outbox_payload_round_trip (parse_uuid : pystr -> option uuid) (nodes : list uuid) (now : Z) (event : AuditEventDTO) :
  (forall u, ae_node_id event = Some u -> parse_uuid (uuid_str u) = Some u) ->
  _to_audit_log parse_uuid nodes (payload_of event) now = Ok (entry_for nodes now event).
Proof.
  intros Hu. unfold _to_audit_log, entry_for, payload_get, payload_of.
  destruct event as [action node user details]; cbn [ae_action ae_node_id ae_user ae_details] in *.
  replace (dict_get _ #"node_id") with (Some (json_opt (uuid_str <$> node))) by done.
  replace (dict_get _ #"action") with (Some (JStr action)) by done.
  replace (dict_get _ #"user") with (Some (json_opt user)) by done.
  replace (dict_get _ #"details") with (Some (match details with Some ((_ :: _) as ds) => JStr (json_dumps (JObj ds)) | _ => JNull end)) by done.
  destruct node as [u|]; cbn -[uuid_str].
  - destruct (uuid_str u) as [|c text] eqn:E; [by apply (f_equal length) in E|]. rewrite <- E, (Hu u) by done. cbn.
    destruct user; cbn; by destruct details as [[|]|].
  - destruct user; cbn; by destruct details as [[|]|].
Qed.

Lemma sanitize_elem key value ds : (key, value) ∈ sanitize_audit_details ds <->
  (lower key ∉ _SENSITIVE_DETAIL_KEYS) /\ (key, value) ∈ ds.
Proof.
  unfold sanitize_audit_details. rewrite (list_elem_of_In (List.filter _ _)), (list_elem_of_In ds), filter_In.
  cbn [fst]. rewrite negb_true_iff, bool_decide_eq_false. tauto.
Qed.

Lemma event_details action node_id user details key value :
  (exists ds, ae_details (_event action node_id user details) = Some ds /\ (key, value) ∈ ds) <->
  (lower key ∉ _SENSITIVE_DETAIL_KEYS) /\ exists ds, details = Some ds /\ (key, value) ∈ ds.
Proof.
  unfold _event. cbn [ae_details]. destruct details as [[|d ds0]|]; split.
  - by intros (ds & ? & _).
  - intros (_ & ds & [= <-] & ?%elem_of_nil). done.
  - intros (ds & E & Hin). assert ((key, value) ∈ sanitize_audit_details (d :: ds0)) as [??]%sanitize_elem by congruence. eauto.
  - intros (Hk & ds & E & Hin). eexists. split; [done|]. apply sanitize_elem. by simplify_eq.
  - by intros (ds & ? & _).
  - by intros (_ & ds & ? & _).
Qed.

(** The service appends one event, to the outbox of the request or to the one that commits
    at once; its details are those given without the sensitive keys; and if that raises an
    exception the caller receives an audit write error. *)
Theorem audit_events_are_sanitized (o : oracle) (action : pystr) (node_id : option uuid) (user : option pystr)
    (details : option jobject) :
  (forall h c e, o h c = Raise e -> isinstance (exn_type e) Exception_ = true) ->
  let checked (required : bool) (r : res unit * history) :=
    exists event, calls r.2 = [if required then EnqueueRequired event else EnqueueOptional event] /\
      ae_action event = action /\ ae_node_id event = node_id /\
      (forall key value, (exists ds, ae_details event = Some ds /\ (key, value) ∈ ds) <->
         (lower key ∉ _SENSITIVE_DETAIL_KEYS) /\ exists ds, details = Some ds /\ (key, value) ∈ ds) /\
      match r.1 with
      | Ok _ => is_ok (o [] (if required then EnqueueRequired event else EnqueueOptional event)) = true
      | Raise e => exn_type e = AuditWriteError
      end in
  checked false (run o (log action node_id user details) []) /\
  checked true (run o (log_required action node_id details) []).
Proof.
  intros Ho checked.
  split; [exists (_event action node_id user details)|exists (_event action node_id None details)];
    unfold log, log_required; rewrite run_try; cbn -[_event _SENSITIVE_DETAIL_KEYS];
    destruct (o [] _) as [u|e] eqn:E; cbn -[_event _SENSITIVE_DETAIL_KEYS]; unfold on_exception; try rewrite (Ho _ _ _ E);
    split_and!; try done; by apply event_details.
Qed.
End service.

(** ** Draining the outbox *)

Section drain.
Context `{Unicode} `{PyFloat} `{ExnNames}.
Context (parse_uuid : pystr -> option uuid) (max_attempts batch_size : Z).
Context (Hmax : (0 < max_attempts)%Z) (Hbatch : (0 < batch_size)%Z).

(** Polls later than [t] and five minutes apart. *)
Fixpoint spaced (t : Z) (polls : list poll) : Prop :=
  match polls with
  | [] => True
  | p :: polls => (t <= po_now p)%Z /\ spaced (po_now p + 300 * second) polls
  end.
Definition run_polls (polls : list poll) (d : db) : db :=
  fold_left (fun d p => (run_once parse_uuid max_attempts batch_size p d).1.2) polls d.
(** The database fails neither at the query nor at the gauges nor at the commit. *)
Definition commits (p : poll) : bool :=
  match po_select p, po_metrics p, po_commit p with None, None, None => true | _, _, _ => false end.
Definition committed_polls (polls : list poll) : list poll := List.filter commits polls.

(** The attempts that are left. *)
Definition remaining (row : outbox_row) : nat :=
  if bool_decide (ob_status row = #"pending") then Z.to_nat (max_attempts - ob_attempts row) else 0.
Definition potential (rows : list (uuid * outbox_row)) : nat := sum_list_with (fun kv => remaining kv.2) rows.
Definition all_due (t : Z) (rows : list (uuid * outbox_row)) : Prop :=
  forall id row, dict_get rows id = Some row -> ob_status row = #"pending" -> (ob_next_attempt_at row <= t)%Z.
Definition idle (d : db) : system := {| sy_db := d; sy_claims := [] |}.

Lemma pending_claimable now rows : NoDup rows.*1 -> all_due now rows -> claimable now [] rows = pending_rows rows.
Proof.
  intros Hnd Hdue. unfold claimable, pending_rows. apply List.filter_ext_in. intros [k row] Hin. cbn.
  rewrite andb_true_r. unfold due. cbn. case_bool_decide as Hst; [|done]. cbn. apply Z.leb_le, (Hdue k row); [|done].
  apply dict_get_NoDup; [done|]. by apply list_elem_of_In.
Qed.

Lemma claim_claims now locks rows : claims batch_size now locks rows (claim batch_size now locks rows).
Proof.
  exists (merge_sort older (claimable now locks rows)). split; [apply merge_sort_Permutation|]. split; [|done].
  apply Sorted_merge_sort. intros a b. unfold older. lia.
Qed.

Lemma claim_nonempty now rows : NoDup rows.*1 -> all_due now rows -> pending_rows rows <> [] ->
  claim batch_size now [] rows <> [].
Proof.
  intros Hnd Hdue Hne. unfold claim. rewrite pending_claimable by done.
  intros E. apply (f_equal length) in E. rewrite length_fmap, length_take, merge_sort_Permutation in E.
  destruct (pending_rows rows); [done|]. cbn [length] in E. lia.
Qed.

Lemma settle_remaining fault nodes now row : row_ok max_attempts row -> ob_status row = #"pending" ->
  remaining (settle parse_uuid max_attempts fault nodes now row) + 1 <= remaining row.
Proof.
  intros Hrow Hst. pose proof (settle_row parse_uuid max_attempts fault nodes now row Hrow Hst Hmax) as (_ & _ & Ha).
  unfold remaining. rewrite (bool_decide_true (ob_status row = _)) by done. unfold settle.
  destruct (attempt _ _ _ _); [rewrite bool_decide_false by done; lia|]. cbn.
  destruct (max_attempts <=? _)%Z; [rewrite bool_decide_false by done; lia|]. rewrite bool_decide_true by done. lia.
Qed.

Lemma potential_settled fault nodes now ids rows :
  NoDup rows.*1 -> NoDup ids -> (forall id, id ∈ ids -> has_status rows id #"pending") ->
  (forall id row, dict_get rows id = Some row -> row_ok max_attempts row) ->
  potential (settle_batch parse_uuid max_attempts fault nodes now ids rows) + length ids <= potential rows.
Proof.
  intros Hnd Hids Hpend Hok.
  assert (length ids <= length (List.filter (fun kv => bool_decide (kv.1 ∈ ids)) rows)) as Hlen.
  { rewrite <- (length_fmap fst (List.filter _ rows)). apply submseteq_length, NoDup_submseteq; [done|].
    intros id Hid. destruct (Hpend id Hid) as (row & Hrow & _). apply dict_get_elem in Hrow.
    apply list_elem_of_fmap. exists (id, row). split; [done|]. apply list_elem_of_In, filter_In.
    split; [by apply list_elem_of_In|]. by apply bool_decide_eq_true. }
  enough (potential (settle_batch parse_uuid max_attempts fault nodes now ids rows) +
          length (List.filter (fun kv => bool_decide (kv.1 ∈ ids)) rows) <= potential rows) by lia.
  clear Hlen Hids. assert (forall id row, (id, row) ∈ rows -> row_ok max_attempts row /\ (id ∈ ids -> ob_status row = #"pending")) as Hall.
  { intros id row Hin. apply (dict_get_NoDup _ _ _ Hnd) in Hin. split; [by apply (Hok id)|].
    intros (r & Hr & Hst)%Hpend. congruence. }
  clear Hnd Hpend Hok. induction rows as [|[id row] rows IH]; [done|]. cbn.
  specialize (IH ltac:(intros; apply Hall; by right)). unfold potential, settle_batch in IH.
  destruct (Hall id row ltac:(by left)) as [Hr Hp]. case_bool_decide as Hid; cbn.
  - rewrite decide_True by done. cbn. pose proof (settle_remaining (fault id) nodes now row Hr (Hp Hid)). lia.
  - rewrite decide_False by done. cbn. lia.
Qed.

(** What a poll does, in terms of the interleaved system: it settles the batch it claims, or it is
    rolled back. *)
Definition settled_poll (p : poll) (d d' : db) : Prop :=
  let ids := claim batch_size (po_now p) [] (db_outbox d) in
  NoDup ids /\ (forall id, id ∈ ids -> has_status (db_outbox d) id #"pending") /\
  db_outbox d' = settle_batch parse_uuid max_attempts (po_insert p) (db_nodes d) (po_now p) ids (db_outbox d).

Lemma run_once_spec p d trace : outbox_inv parse_uuid max_attempts (idle d) trace ->
  let d' := (run_once parse_uuid max_attempts batch_size p d).1.2 in
  db_nodes d' = db_nodes d /\ (settled_poll p d d' \/ d' = d /\ commits p = false) /\
  exists trace', outbox_inv parse_uuid max_attempts (idle d') trace'.
Proof.
  intros Hi. cbn zeta. set (ids := claim batch_size (po_now p) [] (db_outbox d)).
  pose proof (claim_claims (po_now p) [] (db_outbox d)) as Hcl. fold ids in Hcl.
  pose proof (claims_elem _ _ _ _ _ (oi_keys _ _ _ _ Hi) Hcl) as [Hnd Hids].
  pose proof (inv_claim parse_uuid max_attempts batch_size _ _ 0%N (po_now p) ids Hi eq_refl Hcl) as Hi1.
  pose proof (inv_commit parse_uuid max_attempts Hmax _ _ 0%N (po_now p) ids (po_insert p) Hi1 eq_refl) as Hi2. cbn in Hi2.
  assert (deliver_all parse_uuid max_attempts (po_insert p) (po_now p) ids d =
    (Z.of_nat (length (delivered_logs parse_uuid (po_insert p) (db_nodes d) (db_outbox d) ids)),
     {| db_outbox := settle_batch parse_uuid max_attempts (po_insert p) (db_nodes d) (po_now p) ids (db_outbox d);
        db_logs := db_logs d ++ delivered_logs parse_uuid (po_insert p) (db_nodes d) (db_outbox d) ids; db_nodes := db_nodes d |})) as E.
  { apply deliver_all_spec; [apply (oi_keys _ _ _ _ Hi)|done|]. intros id Hid. destruct (Hids id Hid) as (_ & row & Hrow & Hst).
    split; [apply dict_get_key; by eexists|]. intros [l Hl]%dict_get_key.
    destruct (oi_entries _ _ _ _ Hi id l Hl) as (row' & Hrow' & Hst' & _). cbn in Hrow, Hrow'. assert (#"pending" = #"completed") by congruence. done. }
  rewrite E in Hi2. cbn in Hi2. unfold run_once, commits. fold ids. rewrite E.
  assert (forall id, id ∈ ids -> has_status (db_outbox d) id #"pending") as Hpend by (intros id Hid; by apply Hids).
  destruct (po_select p) as [e|]; [split_and!; [done|by right|by eexists]|].
  destruct (po_metrics p) as [e|]; [split_and!; [done|by right|by eexists]|].
  destruct (po_commit p) as [[e []]|]; (split; [done|]); (split; [|by eexists]); [by left|by right|by left].
Qed.

Definition deliverable (nodes : list uuid) (row : outbox_row) : bool :=
  is_ok (_to_audit_log parse_uuid nodes (ob_payload row) 0).

Lemma to_audit_log_time nodes payload now now' :
  is_ok (_to_audit_log parse_uuid nodes payload now) = is_ok (_to_audit_log parse_uuid nodes payload now').
Proof.
  unfold _to_audit_log. destruct (opt_str (payload_get payload #"node_id") _) as [nid|]; [|done]. cbn [mbind res_bind].
  destruct (match nid with None => _ | Some _ => _ end) as [p|]; [|done]. cbn [mbind res_bind]. cbn zeta.
  destruct (match payload_get payload #"action" with JStr _ => _ | _ => _ end) as [a|]; [|done]. cbn [mbind res_bind].
  destruct (opt_str (payload_get payload #"user") _) as [u|]; [|done]. cbn [mbind res_bind].
  by destruct (opt_str (payload_get payload #"details") _).
Qed.

(** A row that was pending, followed through polls in which the database does not fail. *)
Definition progress (nodes : list uuid) (row row' : outbox_row) : Prop :=
  ob_payload row' = ob_payload row /\
  (ob_status row' = #"pending" \/ ob_status row' = if deliverable nodes row then #"completed" else #"failed").

Lemma progress_settle nodes now row row' : progress nodes row row' -> ob_status row' = #"pending" ->
  forall inserted, progress nodes row (settle parse_uuid max_attempts (Ok inserted) nodes now row').
Proof.
  intros [Hp _] Hst inserted. unfold settle, attempt. cbn [mbind res_bind]. rewrite Hp.
  pose proof (to_audit_log_time nodes (ob_payload row) inserted 0) as Ht. unfold progress, deliverable. rewrite <- Ht.
  destruct (_to_audit_log _ _ _ _); cbn; [by auto|]. case_match; auto.
Qed.

Lemma pending_rows_nil rows : (forall id row, (id, row) ∈ rows -> ob_status row <> #"pending") -> pending_rows rows = [].
Proof.
  intros Hno. destruct (pending_rows rows) as [|[id row] rest] eqn:E; [done|]. exfalso.
  assert (In (id, row) (pending_rows rows)) as Hin by (rewrite E; by left).
  apply filter_In in Hin as [Hin Hst]. apply bool_decide_eq_true in Hst. apply (Hno id row); [|done]. by apply list_elem_of_In.
Qed.

Lemma no_potential rows : NoDup rows.*1 -> (forall id row, dict_get rows id = Some row -> row_ok max_attempts row) ->
  potential rows = 0 <-> pending_rows rows = [].
Proof.
  intros Hnd Hok. split.
  - intros Hpot. apply pending_rows_nil. intros id row Hin Hst.
    pose proof (sum_list_with_in (id, row) (fun kv : uuid * outbox_row => remaining kv.2) rows Hin) as Hle.
    fold (potential rows) in Hle. rewrite Hpot in Hle. cbn in Hle. unfold remaining in Hle. rewrite bool_decide_true in Hle by done.
    apply (dict_get_NoDup _ _ _ Hnd) in Hin. destruct (Hok id row Hin) as [(_ & ? & _)|[(E & _)|(E & _)]]; [lia| |];
      by rewrite Hst in E.
  - intros Hnil. unfold potential. clear Hnd Hok. induction rows as [|[id row] rows IH]; [done|]. cbn in *. unfold remaining at 1.
    case_bool_decide; [done|]. by apply IH.
Qed.

Lemma settled_due fault nodes now ids rows : all_due now rows ->
  (forall id, id ∈ ids -> has_status rows id #"pending") ->
  all_due (now + 300 * second) (settle_batch parse_uuid max_attempts fault nodes now ids rows).
Proof.
  intros Hdue Hids id row. rewrite settle_batch_get. destruct (dict_get rows id) as [r|] eqn:Er; [|done]. intros [= <-].
  case_decide as Hid; intros Hst.
  2:{ specialize (Hdue id r Er Hst). unfold second. lia. }
  unfold settle in *. destruct (attempt _ _ _ _); [done|]. cbn in *. destruct (max_attempts <=? _)%Z; [done|].
  unfold retry_delay, second. lia.
Qed.

Lemma due_later t t' rows : (t <= t')%Z -> all_due t rows -> all_due t' rows.
Proof. intros Ht Hdue id row Hrow Hst. specialize (Hdue id row Hrow Hst). lia. Qed.

Lemma drain_loop polls t d trace : outbox_inv parse_uuid max_attempts (idle d) trace ->
  all_due t (db_outbox d) -> spaced t polls -> potential (db_outbox d) <= length (committed_polls polls) ->
  let d' := run_polls polls d in
  db_nodes d' = db_nodes d /\ pending_rows (db_outbox d') = [] /\
  (Forall (fun p => forall id, is_ok (po_insert p id) = true) polls -> forall id row0 row,
     dict_get (db_outbox d) id = Some row -> progress (db_nodes d) row0 row ->
     exists row', dict_get (db_outbox d') id = Some row' /\ progress (db_nodes d) row0 row').
Proof.
  revert t d trace. induction polls as [|p polls IH]; intros t d trace Hi Hdue Hsp Hpot; cbn zeta.
  { split; [done|]. split; [|by eauto]. change (run_polls [] d) with d.
    apply no_potential; [apply Hi|apply (oi_rows _ _ _ _ Hi)|]. cbn in Hpot. lia. }
  destruct Hsp as [Ht Hsp]. change (run_polls (p :: polls) d) with
    (run_polls polls (run_once parse_uuid max_attempts batch_size p d).1.2).
  pose proof (run_once_spec p d trace Hi) as (Hnodes & Hd1 & trace' & Hi').
  set (d1 := (run_once parse_uuid max_attempts batch_size p d).1.2) in *. unfold committed_polls in Hpot. cbn [List.filter] in Hpot.
  destruct Hd1 as [(Hnd & Hids & Hout)|[Ed Hc]].
  2: { destruct (IH (po_now p + 300 * second)%Z d1 trace') as (Hn & Hdone & Hfollow); [done| |done| |].
       - rewrite Ed. eapply due_later; [|exact Hdue]. unfold second. lia.
       - rewrite Ed. by rewrite Hc in Hpot.
       - split; [congruence|]. split; [done|]. intros Hno id row0 row Hrow Hpr. apply Forall_cons in Hno as [_ Hno].
         rewrite Hnodes in Hfollow. eapply (Hfollow Hno id); [by rewrite Ed|done]. }
  set (ids := claim batch_size (po_now p) [] (db_outbox d)) in *.
  pose proof (due_later _ _ _ Ht Hdue) as Hdue1.
  pose proof (potential_settled (po_insert p) (db_nodes d) (po_now p) ids (db_outbox d) (oi_keys _ _ _ _ Hi) Hnd Hids (oi_rows _ _ _ _ Hi)) as Hdec.
  rewrite <- Hout in Hdec.
  destruct (IH (po_now p + 300 * second)%Z d1 trace') as (Hn & Hdone & Hfollow); [done| |done| |].
  - rewrite Hout. by apply settled_due.
  - unfold committed_polls. destruct (pending_rows (db_outbox d)) eqn:E.
    + apply no_potential in E; [lia|apply Hi|apply (oi_rows _ _ _ _ Hi)].
    + assert (ids <> []) as Hne by (apply claim_nonempty; [apply Hi|done|by rewrite E]).
      destruct ids; [done|]. destruct (commits p); cbn in *; lia.
  - split; [congruence|]. split; [done|]. intros Hno id row0 row Hrow Hpr. apply Forall_cons in Hno as [Hf Hno].
    rewrite Hnodes in Hfollow. eapply (Hfollow Hno id); [rewrite Hout, settle_batch_get, Hrow; cbn; reflexivity|].
    case_decide as Hid; [|done]. specialize (Hf id). destruct (po_insert p id); [|done]. apply progress_settle; [done|].
    destruct (Hids id Hid) as (r & ? & ?). congruence.
Qed.

Lemma potential_bound rows : (forall id row, (id, row) ∈ rows -> row_ok max_attempts row) ->
  potential rows <= Z.to_nat max_attempts * length (pending_rows rows).
Proof.
  induction rows as [|[id row] rows IH]; intros Hok; [cbn; lia|]. cbn. specialize (IH ltac:(intros; eapply Hok; by right)).
  unfold potential, pending_rows in IH. unfold remaining at 1. case_bool_decide as Hst; cbn [length]; [|lia].
  rewrite Nat.mul_succ_r.
  destruct (Hok id row ltac:(by left)) as [(_ & ? & _)|[(E & _)|(E & _)]]; [lia| |]; by rewrite Hst in E.
Qed.

End drain.

(** ** Concrete runs *)

#[local] Existing Instance ascii_only.
#[local] Existing Instance literal_floats.
#[local] Instance test_outbox_names : ExnNames := {| exn_name _ := #"ValueError" |}.
#[local] Existing Instance outbox_signature.

Definition test_uuid (s : pystr) : option uuid := if str_eqb s (uuid_str 7) then Some 7%N else None.
Definition test_event : AuditEventDTO :=
  {| ae_action := #"node.created"; ae_node_id := Some 7%N; ae_user := None; ae_details := Some [(#"name", JStr #"web")] |}.
Definition test_outbox : db :=
  set_outbox (empty_db [7%N]) [(1%N, _outbox_model test_event 0 0); (2%N, _outbox_model test_event 1 1)].

Lemma test_outbox_run : outbox_run test_uuid 5 1 (initial_system [7%N]) [] {| sy_db := test_outbox; sy_claims := [] |}.
Proof.
  change (@nil uuid) with (([] ++ []) ++ @nil uuid). eapply run_snoc; [eapply run_snoc; [apply run_nil|]|].
  - apply (step_enqueue _ _ _ (initial_system [7%N]) 1%N test_event 0 0). by apply not_elem_of_nil.
  - lazymatch goal with |- outbox_step _ _ _ ?s _ _ => apply (step_enqueue _ _ _ s 2%N test_event 1 1) end.
    by intros ?%list_elem_of_singleton.
Qed.


Lemma outbox_payload_round_trip_witness :
  _to_audit_log test_uuid [7%N] (payload_of test_event) 5 =
  Ok {| al_node_id := Some 7%N; al_action := #"node.created"; al_user := None;
        al_details := Some ([123; 34]%N ++ #"name" ++ [34; 58; 32; 34]%N ++ #"web" ++ [34; 125]%N); al_created_at := 5 |}.
Proof.
  rewrite (outbox_payload_round_trip test_uuid [7%N] 5 test_event); [vm_compute; reflexivity|].
  intros u [= <-]. vm_compute. reflexivity.
Defined.

Lemma audit_events_are_sanitized_witness :
  exists event, calls (run (fun _ _ => Ok tt) (log #"node.created" None None (Some [(#"Password", JNull); (#"name", JNull)])) []).2 =
    [EnqueueOptional event].
Proof.
  destruct (audit_events_are_sanitized (fun _ _ => Ok tt) #"node.created" None None
    (Some [(#"Password", JNull); (#"name", JNull)]) ltac:(done)) as [(event & Hc & _) _].
  by exists event.
Defined.

(** Ten polls that commit, after one whose commit fails. *)
Definition test_poll (n : nat) : poll :=
  {| po_now := 300 * second * Z.of_nat n; po_select := None; po_insert := fun _ => Ok (300 * second * Z.of_nat n + 7)%Z; po_metrics := None;
     po_commit := if decide (n = 1) then Some (Exn (LibraryError #"OperationalError") [], false) else None |}.
Definition test_polls : list poll := test_poll <$> seq 1 11.
