(* ===== verification/Assets.v ===== *)
(** * Files of template packs

    The rules for the files of a pack in [app/adapters/persistence/template_pack.py]
    ([validate_pack_id], [validate_asset_path], [_decode_assets], [_decode_stored_content])
    and how [app/adapters/persistence/template_asset.py] stores them: text as it is, other
    content in base64, with the size that tells them apart.  The strict base64 decoder is
    that of CPython 3.13. *)
From S2P Require Import Prelude PyStr Regex Errors Validation Bytes Codec Output.

(** ** The standard library *)

Section stdlib.
Open Scope N_scope.

(** [binascii.a2b_base64(data, strict_mode=True)] after the first character; [padded] says
    that padding has started. *)
Fixpoint a2b_strict (padded : bool) (quad left pads : N) (s : bytes) : res bytes :=
  match s with
  | [] => if quad =? 0 then Ok [] else binascii_error
  | c :: s =>
      if c =? 61 then
        if 2 <=? quad then
          if 4 <=? quad + (pads + 1) then match s with [] => Ok [] | _ => binascii_error end
          else a2b_strict true quad left (pads + 1) s
        else a2b_strict true quad left pads s
      else
        match b64_value c with
        | None => binascii_error
        | Some v =>
            if padded then binascii_error
            else if quad =? 0 then a2b_strict false 1 v 0 s
            else if quad =? 1 then bs ← a2b_strict false 2 (v mod 16) 0 s; Ok (left * 4 + v / 16 :: bs)
            else if quad =? 2 then bs ← a2b_strict false 3 (v mod 4) 0 s; Ok (left * 16 + v / 4 :: bs)
            else bs ← a2b_strict false 0 0 0 s; Ok (left * 64 + v :: bs)
        end
  end.
(** [base64.b64decode(text, validate=True)]. *)
Definition b64decode_validate (s : pystr) : res bytes :=
  if negb (forallb is_ascii s) then raise ValueError #"string argument should contain only ASCII characters"
  else match s with
       | 61 :: _ => binascii_error
       | _ => a2b_strict false 0 0 0 s
       end.

(** [raw.decode("utf-8")]. *)
Definition decode_utf8 (bs : bytes) : res pystr :=
  s ← utf8_decode bs;
  if existsb is_surrogate s then decode_error' else Ok s.
End stdlib.

(** ** Names and paths *)

Section names.
Context `{Unicode}.

Definition PACK_ID_RE : regex := RIdent ascii_alnum ref_tail.
Definition validate_pack_id (pack_id : pystr) : res pystr :=
  if str_eqb pack_id [] || (100 <? length pack_id) || negb (fullmatch PACK_ID_RE pack_id)
  then raise DomainError (#"Invalid pack_id: " ++ py_repr pack_id) else Ok pack_id.

Definition bad_part (part : pystr) : bool := bool_decide (part ∈ [ []; #"."; #".."]).
Definition validate_asset_path (path : pystr) : res pystr :=
  let invalid := raise DomainError (#"Invalid asset path: " ++ py_repr path) in
  if str_eqb path [] || (255 <? length path) then invalid
  else if startswith path #"/" || contains path [92%N] then invalid
  else if existsb bad_part (split_on 47 path) then invalid
  else Ok path.
Definition sanitize_tar_name (path : pystr) : option pystr :=
  match validate_asset_path path with
  | Ok _ => Some path
  | Raise e => None
  end.
End names.

(** ** Decoding and storing *)

Record PackAssetCreateDTO := { pa_path : pystr; pa_content_base64 : pystr }.
Definition MAX_ASSETS_PER_PACK : nat := 100.
Definition MAX_ASSET_BYTES : Z := 1048576.
Definition MAX_PACK_ASSETS_BYTES : Z := 10485760.

Section assets.
Context `{Unicode}.

(** The loop, with the paths seen and the bytes counted. *)
Fixpoint decode_loop (seen : list pystr) (total : Z) (assets : list PackAssetCreateDTO)
    : res (list (PackAssetCreateDTO * bytes)) :=
  match assets with
  | [] => Ok []
  | asset :: assets =>
      _ ← validate_asset_path (pa_path asset);
      (if bool_decide (pa_path asset ∈ seen)
       then raise DomainError (#"Duplicate asset path: " ++ py_repr (pa_path asset)) else Ok tt);;
      match b64decode_validate (pa_content_base64 asset) with
      | Raise e => raise DomainError (#"Invalid base64 for asset " ++ pa_path asset ++ #": " ++ exn_msg e)
      | Ok raw =>
          let size := Z.of_nat (length raw) in
          if (MAX_ASSET_BYTES <? size)%Z
          then raise DomainError (#"Asset " ++ pa_path asset ++ #" too large: " ++ str_Z size ++ #" bytes (max " ++ str_Z MAX_ASSET_BYTES ++ #")")
          else
            let total := (total + size)%Z in
            if (MAX_PACK_ASSETS_BYTES <? total)%Z
            then raise DomainError (#"Pack assets too large: " ++ str_Z total ++ #" bytes (max " ++ str_Z MAX_PACK_ASSETS_BYTES ++ #")")
            else
              rest ← decode_loop (pa_path asset :: seen) total assets;
              Ok ((asset, raw) :: rest)
      end
  end.
Definition _decode_assets (assets : list PackAssetCreateDTO) : res (list (PackAssetCreateDTO * bytes)) :=
  if MAX_ASSETS_PER_PACK <? length assets
  then raise DomainError (#"Too many assets: " ++ str_Z (Z.of_nat (length assets)) ++ #" (max " ++ str_Z (Z.of_nat MAX_ASSETS_PER_PACK) ++ #")")
  else decode_loop [] 0 assets.

(** The text stored for some content. *)
Definition stored_content (raw : bytes) : pystr :=
  match decode_utf8 raw with Ok s => s | Raise _ => b64encode raw end.
Definition _decode_stored_content (content : pystr) (size : Z) : bytes :=
  match encode content with
  | Ok raw =>
      if (size =? Z.of_nat (length raw))%Z then raw
      else match b64decode_validate content with
           | Ok decoded => if (Z.of_nat (length decoded) =? size)%Z then decoded else raw
           | Raise _ => raw
           end
  | Raise _ => match b64decode_validate content with Ok raw => raw | Raise _ => [] end
  end.
End assets.

(** *** Laws *)

Section laws.
Open Scope N_scope.

Lemma two_bytes_char b b1 : 194 <= b <= 223 -> 128 <= b1 <= 191 ->
  utf8_char ((b - 192) * 64 + (b1 - 128)) = [b; b1].
Proof.
  intros Hb H1. unfold utf8_char. rewrite (proj2 (N.ltb_ge _ _)), (proj2 (N.ltb_lt _ _)) by lia.
  f_equal; [|f_equal]; dlia.
Qed.
Lemma three_bytes_char b b1 b2 : 224 <= b <= 239 -> 128 <= b1 <= 191 -> 128 <= b2 <= 191 -> 224 < b \/ 160 <= b1 ->
  utf8_char ((b - 224) * 4096 + (b1 - 128) * 64 + (b2 - 128)) = [b; b1; b2].
Proof.
  intros Hb H1 H2 Hmin. unfold utf8_char. rewrite !(proj2 (N.ltb_ge _ _)), (proj2 (N.ltb_lt _ _)) by lia.
  f_equal; [|f_equal; [|f_equal]]; dlia.
Qed.
Lemma four_bytes_char b b1 b2 b3 : 240 <= b <= 244 -> 128 <= b1 <= 191 -> 128 <= b2 <= 191 -> 128 <= b3 <= 191 ->
  240 < b \/ 144 <= b1 ->
  utf8_char ((b - 240) * 262144 + (b1 - 128) * 4096 + (b2 - 128) * 64 + (b3 - 128)) = [b; b1; b2; b3].
Proof.
  intros Hb H1 H2 H3 Hmin. unfold utf8_char. rewrite !(proj2 (N.ltb_ge _ _)) by lia.
  f_equal; [|f_equal; [|f_equal; [|f_equal]]]; dlia.
Qed.

Lemma in_range_iff lo hi c : in_range lo hi c = true <-> lo <= c <= hi.
Proof. unfold in_range. rewrite andb_true_iff, !N.leb_le. lia. Qed.

(** What decodes encodes back. *)
Lemma utf8_decode_encode bs s : utf8_decode bs = Ok s -> flat_map utf8_char s = bs.
Proof.
  revert s. induction bs as [bs IH] using (induction_ltof1 _ (@length N)). unfold ltof in IH. intros s.
  destruct bs as [|b r0]; cbn [utf8_decode]; [by intros [= <-]|].
  destruct (b <? 128) eqn:E; to_prop.
  { intros (s' & Hs & [= <-])%bind_ok. cbn. unfold utf8_char. rewrite (proj2 (N.ltb_lt _ _)) by lia. cbn.
    f_equal. apply IH; [cbn; lia|done]. }
  destruct r0 as [|b1 r1]; [done|]. destruct (in_range 194 223 b && cont_byte b1) eqn:E2.
  { apply andb_true_iff in E2 as [Hb%in_range_iff H1%in_range_iff]. intros (s' & Hs & [= <-])%bind_ok.
    cbn [flat_map]. rewrite two_bytes_char by lia. cbn. do 2 f_equal. apply IH; [cbn; lia|done]. }
  destruct r1 as [|b2 r2]; [done|].
  destruct (in_range 224 239 b && cont_byte b1 && cont_byte b2 && _) eqn:E3.
  { rewrite !andb_true_iff, orb_true_iff, N.ltb_lt, N.leb_le in E3.
    destruct E3 as (((Hb%in_range_iff & H1%in_range_iff) & H2%in_range_iff) & Hmin). intros (s' & Hs & [= <-])%bind_ok.
    cbn [flat_map]. rewrite three_bytes_char by (done || lia). cbn. do 3 f_equal. apply IH; [cbn; lia|done]. }
  destruct r2 as [|b3 r3]; [done|].
  destruct (in_range 240 244 b && cont_byte b1 && cont_byte b2 && cont_byte b3 && _ && _) eqn:E4; [|done].
  rewrite !andb_true_iff, !orb_true_iff, !N.ltb_lt, N.leb_le in E4.
  destruct E4 as (((((Hb%in_range_iff & H1%in_range_iff) & H2%in_range_iff) & H3%in_range_iff) & Hmin) & _).
  intros (s' & Hs & [= <-])%bind_ok.
  cbn [flat_map]. rewrite four_bytes_char by (done || lia). cbn. do 4 f_equal. apply IH; [cbn; lia|done].
Qed.

Lemma a2b_strict_digit quad left pads v s : v < 64 ->
  a2b_strict false quad left pads (b64_digit v :: s) =
    if quad =? 0 then a2b_strict false 1 v 0 s
    else if quad =? 1 then bs ← a2b_strict false 2 (v mod 16) 0 s; Ok (left * 4 + v / 16 :: bs)
    else if quad =? 2 then bs ← a2b_strict false 3 (v mod 4) 0 s; Ok (left * 16 + v / 4 :: bs)
    else bs ← a2b_strict false 0 0 0 s; Ok (left * 64 + v :: bs).
Proof. intros Hv. cbn [a2b_strict]. by rewrite b64_digit_not_pad, b64_value_digit by done. Qed.

Lemma strict_round_trip bs : forallb is_byte bs = true -> a2b_strict false 0 0 0 (b64encode bs) = Ok bs.
Proof.
  induction bs as [| | |a b c bs IH] using triple_ind; cbn [forallb]; unfold is_byte; intros Hb; to_prop.
  - done.
  - cbn [b64encode]. rewrite !a2b_strict_digit by dlia. cbn. by rewrite one_byte by done.
  - cbn [b64encode]. rewrite !a2b_strict_digit by dlia. cbn. rewrite first_digit, second_left, two_bytes by dlia. done.
  - cbn [b64encode]. rewrite !a2b_strict_digit by dlia. cbn [N.eqb Pos.eqb]. rewrite IH by done. cbn.
    rewrite first_digit, second_left, second_digit, third_left, third_digit by dlia. done.
Qed.
Lemma b64encode_length bs : length (b64encode bs) = (4 * ((length bs + 2) / 3))%nat.
Proof.
  induction bs as [| | |a b c bs IH] using triple_ind; [done..|]. cbn [b64encode length]. rewrite IH.
  replace (S (S (S (length bs))) + 2)%nat with (length bs + 2 + 1 * 3)%nat by lia.
  rewrite Nat.div_add by lia. lia.
Qed.

Lemma decode_utf8_encode bs s : decode_utf8 bs = Ok s -> encode s = Ok bs.
Proof.
  unfold decode_utf8. intros (s' & Hs & E)%bind_ok. destruct (existsb is_surrogate s') eqn:Es; [done|].
  injection E as <-. unfold encode. rewrite Es. by rewrite (utf8_decode_encode bs).
Qed.

Lemma b64encode_ascii bs : forallb is_byte bs = true -> forallb is_ascii (b64encode bs) = true.
Proof.
  intros Hb. pose proof (b64encode_chars bs Hb) as Hc. rewrite Forall_forall in Hc. apply forallb_forall.
  intros c Hin%list_elem_of_In. destruct (Hc c Hin) as [->|(n & Hn & ->)]; [done|].
  unfold is_ascii, b64_digit. apply N.ltb_lt.
  repeat match goal with |- context [if ?b then _ else _] => destruct b eqn:?; to_prop end; lia.
Qed.

Lemma b64encode_head bs c s : forallb is_byte bs = true -> b64encode bs = c :: s -> (c =? 61) = false.
Proof.
  destruct bs as [|a [|b [|d bs]]]; [done|..]; cbn [forallb b64encode]; unfold is_byte; intros Hb [= <- _]; to_prop;
    apply b64_digit_not_pad; dlia.
Qed.

Lemma validate_round_trip bs : forallb is_byte bs = true -> b64decode_validate (b64encode bs) = Ok bs.
Proof.
  intros Hb. unfold b64decode_validate. rewrite b64encode_ascii by done. cbn [negb].
  pose proof (strict_round_trip bs Hb) as Hr. destruct (b64encode bs) as [|c s] eqn:Eb; [done|].
  pose proof (b64encode_head _ _ _ Hb Eb) as Hc. rewrite <- Hr.
  destruct c as [|p]; [done|]. do 6 (destruct p as [p|p|]; try done).
Qed.

Lemma stored_content_read raw : forallb is_byte raw = true -> _decode_stored_content (stored_content raw) (Z.of_nat (length raw)) = raw.
Proof.
  intros Hb. unfold stored_content, _decode_stored_content. destruct (decode_utf8 raw) as [s|e] eqn:E.
  - by rewrite (decode_utf8_encode raw), Z.eqb_refl.
  - rewrite encode_ascii by by apply b64encode_ascii. rewrite validate_round_trip, Z.eqb_refl by done.
    destruct (Z.eqb_spec (Z.of_nat (length raw)) (Z.of_nat (length (b64encode raw)))) as [Hl|_]; [|done].
    rewrite b64encode_length in Hl. destruct raw as [|b raw]; [done|]. cbn [length] in Hl.
    pose proof (Nat.div_mod_eq (S (length raw) + 2) 3). pose proof (Nat.mod_upper_bound (S (length raw) + 2) 3). lia.
Qed.
(** The content of a file is read back as it was given, whether it is text, which is stored
    as it is, or not, which is stored in base64: the recorded size tells them apart. *)
Theorem asset_content_round_trip (raw : bytes) :
  forallb is_byte raw = true -> _decode_stored_content (stored_content raw) (Z.of_nat (length raw)) = raw.
Proof. apply stored_content_read. Qed.

(** Bytes that are no text, and text. *)
Lemma asset_content_round_trip_witness :
  _decode_stored_content (stored_content [255; 0; 128]) 3 = [255; 0; 128] /\
  _decode_stored_content (stored_content [104; 105]) 2 = [104; 105] /\
  stored_content [104; 105] = #"hi" /\ stored_content [255; 0; 128] = #"/wCA".
Proof.
  split_and!.
  - apply (asset_content_round_trip [255; 0; 128]). reflexivity.
  - apply (asset_content_round_trip [104; 105]). reflexivity.
  - vm_compute. reflexivity.
  - vm_compute. reflexivity.
Defined.
End laws.

(** ** Paths and limits *)

Section limits.
Context `{Unicode}.

(** Where a path leads from a directory, given by its components. *)
Definition enter (dir : list pystr) (part : pystr) : list pystr :=
  if bool_decide (part ∈ [ []; #"."]) then dir
  else if str_eqb part #".." then removelast dir else dir ++ [part].
Definition resolve (dir : list pystr) (path : pystr) : list pystr :=
  fold_left enter (split_on 47 path) (if startswith path #"/" then [] else dir).

Lemma enter_parts dir parts : existsb bad_part parts = false -> fold_left enter parts dir = dir ++ parts.
Proof.
  revert dir. induction parts as [|part parts IH]; intros dir; cbn [existsb fold_left]; [by rewrite app_nil_r|].
  intros [Hp Hps]%orb_false_iff. unfold bad_part in Hp. apply bool_decide_eq_false in Hp.
  unfold enter at 2. rewrite bool_decide_false by (intros Hin; apply Hp; set_solver).
  unfold str_eqb. rewrite bool_decide_false by (intros ->; apply Hp; set_solver).
  rewrite IH by done. by rewrite <- app_assoc.
Qed.

(** An accepted path has at most 255 characters and no backslash, and leads from any
    directory to a file below it: through its components, none of which is empty, the directory
    itself or its parent; different accepted paths lead to different files, and a refusal is a
    domain error. *)
Theorem asset_paths_stay_inside (dir : list pystr) (path path' : pystr) :
  match validate_asset_path path with
  | Ok p =>
      p = path /\ path <> [] /\ length path <= 255 /\ contains path [92%N] = false /\
      resolve dir path = dir ++ split_on 47 path /\ Forall (fun part => part ∉ [ []; #"."; #".."]) (split_on 47 path) /\
      (is_ok (validate_asset_path path') = true -> resolve dir path = resolve dir path' -> path = path')
  | Raise e => exn_type e = DomainError
  end.
Proof.
  assert (forall q, is_ok (validate_asset_path q) = true -> resolve dir q = dir ++ split_on 47 q /\
    existsb bad_part (split_on 47 q) = false) as Hres.
  { intros q. unfold validate_asset_path, resolve. destruct (_ || _); [done|]. destruct (startswith q _); [done|].
    destruct (contains _ _); [done|]. destruct (existsb _ _) eqn:Eb; [done|]. intros _. split; [by apply enter_parts|done]. }
  destruct (validate_asset_path path) as [p|e] eqn:E.
  2:{ unfold validate_asset_path, raise in E. repeat (case_match; simplify_eq); done. }
  destruct (Hres path) as [Hr Hparts]; [by rewrite E|]. unfold validate_asset_path in E.
  destruct (_ || _) eqn:E1 in E; [done|]. destruct (_ || _) eqn:E2 in E; [done|]. rewrite Hparts in E.
  injection E as <-. apply orb_false_iff in E1 as [E1 Hl], E2 as [_ Hb]. unfold str_eqb in E1. apply bool_decide_eq_false in E1.
  apply Nat.ltb_ge in Hl. split_and!; try done.
  - apply Forall_forall. intros part Hin Hbad. assert (existsb bad_part (split_on 47 path) = true); [|congruence]. apply existsb_exists. exists part.
    split; [by apply list_elem_of_In|]. by apply bool_decide_eq_true.
  - intros Hp' Heq. destruct (Hres path' Hp') as [Hr' _]. rewrite Hr, Hr' in Heq. apply app_inv_head in Heq.
    by rewrite <- (join_split_on 47 path), Heq, join_split_on.
Qed.

(** What the decoded files satisfy, when [total] bytes precede. *)
Definition within_limits (seen : list pystr) (total : Z) (decoded : list (PackAssetCreateDTO * bytes)) : Prop :=
  NoDup (pa_path <$> decoded.*1) /\ (forall p, p ∈ (pa_path <$> decoded.*1) -> p ∉ seen) /\
  Forall (fun d => is_ok (validate_asset_path (pa_path d.1)) = true /\
    b64decode_validate (pa_content_base64 d.1) = Ok d.2 /\ (Z.of_nat (length d.2) <= MAX_ASSET_BYTES)%Z) decoded /\
  (decoded = [] \/ total + Z.of_nat (sum_list_with (fun d => length d.2) decoded) <= MAX_PACK_ASSETS_BYTES)%Z.

Lemma within_cons seen total asset raw rest :
  within_limits seen total ((asset, raw) :: rest) <->
  is_ok (validate_asset_path (pa_path asset)) = true /\ (pa_path asset ∉ seen) /\
  b64decode_validate (pa_content_base64 asset) = Ok raw /\ (Z.of_nat (length raw) <= MAX_ASSET_BYTES)%Z /\
  (total + Z.of_nat (length raw) <= MAX_PACK_ASSETS_BYTES)%Z /\
  within_limits (pa_path asset :: seen) (total + Z.of_nat (length raw)) rest.
Proof.
  unfold within_limits. rewrite !fmap_cons, NoDup_cons, Forall_cons. cbn [fst snd sum_list_with]. split.
  - intros ([Hp Hnd] & Hseen & [(Hv & Hb & Hl) Hall] & [?|Hsum]); [done|].
    split; [done|]. split; [apply Hseen; by left|]. split_and!; try done; [lia| |].
    + intros p Hin. rewrite elem_of_cons. intros [->|Hs]; [done|]. apply (Hseen p); [by right|done].
    + destruct rest; [by left|right]. lia.
  - intros (Hv & Hs & Hb & Hl & Ht & Hnd & Hseen & Hall & Hsum).
    split_and!; try done.
    + intros Hin. apply (Hseen _ Hin). by left.
    + intros p [->|Hin]%elem_of_cons; [done|]. intros Hps. apply (Hseen p Hin). by right.
    + right. destruct Hsum as [->|Hsum]; cbn [sum_list_with]; lia.
Qed.

Lemma decode_loop_spec seen total assets :
  (forall decoded, decode_loop seen total assets = Ok decoded <-> decoded.*1 = assets /\ within_limits seen total decoded) /\
  (forall e, decode_loop seen total assets = Raise e -> exn_type e = DomainError).
Proof.
  revert seen total. induction assets as [|asset assets IH]; intros seen total; cbn [decode_loop].
  { split; [|done]. intros decoded. split; [intros [= <-]|by intros [->%fmap_nil_inv _]].
    split; [done|]. split_and!; [constructor|by intros p ?%elem_of_nil|constructor|by left]. }
  assert (forall decoded, decoded.*1 = asset :: assets /\ within_limits seen total decoded <->
    exists raw rest, decoded = (asset, raw) :: rest /\ rest.*1 = assets /\ within_limits seen total ((asset, raw) :: rest)) as Hcons.
  { intros decoded. split; [|by intros (raw & rest & -> & <- & ?)].
    destruct decoded as [|[a raw] rest]; [by intros [? _]|]. rewrite fmap_cons. intros [[= -> <-] Hw]. eauto. }
  setoid_rewrite Hcons. setoid_rewrite within_cons. clear Hcons.
  destruct (validate_asset_path (pa_path asset)) as [p|e] eqn:Ev; cbn [mbind res_bind is_ok].
  2:{ split; [naive_solver|]. intros e' [= <-]. pose proof (asset_paths_stay_inside [] (pa_path asset) []) as Hp. by rewrite Ev in Hp. }
  case_bool_decide as Hs; cbn [mbind res_bind]; [split; [naive_solver|by unfold raise; intros e' [= <-]]|].
  destruct (b64decode_validate (pa_content_base64 asset)) as [raw|e]; [|split; [naive_solver|by unfold raise; intros e' [= <-]]].
  cbn zeta. destruct (MAX_ASSET_BYTES <? _)%Z eqn:E1; [to_prop; split; [intros decoded; split; [done|]; intros (raw' & rest & _ & _ & _ & _ & [= <-] & ? & _); lia|by unfold raise; intros e' [= <-]]|].
  destruct (MAX_PACK_ASSETS_BYTES <? _)%Z eqn:E2; [to_prop; split; [intros decoded; split; [done|]; intros (raw' & rest & _ & _ & _ & _ & [= <-] & _ & ? & _); lia|by unfold raise; intros e' [= <-]]|].
  to_prop. destruct (IH (pa_path asset :: seen) (total + Z.of_nat (length raw))%Z) as [IHok IHerr]. split.
  - intros decoded. split.
    + intros (rest & [Hrest Hw]%IHok & [= <-])%bind_ok. exists raw, rest. split_and!; try done; lia.
    + intros (raw' & rest & -> & Hrest & _ & _ & [= <-] & _ & _ & Hw). by rewrite (proj2 (IHok rest)).
  - intros e. destruct (decode_loop _ _ assets) as [rest|e'] eqn:El; [done|]. intros [= <-]. by apply (IHerr e').
Qed.

(** The files of a pack are accepted exactly when there are at most a hundred, under
    different valid paths, each strict base64 of at most a mebibyte, and all together at most
    ten mebibytes; they are decoded in order, and every refusal is a domain error. *)
Theorem decoded_assets_within_limits (assets : list PackAssetCreateDTO) :
  (forall decoded, _decode_assets assets = Ok decoded <->
     length assets <= MAX_ASSETS_PER_PACK /\ decoded.*1 = assets /\ NoDup (pa_path <$> assets) /\
     Forall (fun d => is_ok (validate_asset_path (pa_path d.1)) = true /\
       b64decode_validate (pa_content_base64 d.1) = Ok d.2 /\ (Z.of_nat (length d.2) <= MAX_ASSET_BYTES)%Z) decoded /\
     (Z.of_nat (sum_list_with (fun d => length d.2) decoded) <= MAX_PACK_ASSETS_BYTES)%Z) /\
  (forall e, _decode_assets assets = Raise e -> exn_type e = DomainError).
Proof.
  unfold _decode_assets. destruct (Nat.ltb_spec MAX_ASSETS_PER_PACK (length assets)) as [Hl|Hl].
  { split; [|by unfold raise; intros e [= <-]]. intros decoded. split; [done|]. intros [? _]. lia. }
  destruct (decode_loop_spec [] 0 assets) as [Hok Herr]. split; [|done]. intros decoded. rewrite Hok. split.
  - intros (<- & Hnd & _ & Hall & Hsum). split_and!; try done. destruct Hsum as [->|Hsum]; [done|lia].
  - intros (_ & <- & Hnd & Hall & Hsum). split; [done|]. split_and!; try done; [by intros p _ ?%elem_of_nil|right; lia].
Qed.
End limits.
