(* ===== verification/Packs.v ===== *)
(** * Template packs

    The gateway of [app/adapters/persistence/template_pack.py]: packs with their content,
    installed as rows of the command and script tables that links remember.  A method is a
    function on the tables; [transaction] undoes what a method that raises has written.
    Identifiers are drawn from a counter ([uuid4] does not repeat); tables are dictionaries
    by primary key with the constraints of [app/models/].  What a column type refuses is a
    parameter. *)
From S2P Require Import Prelude PyStr Errors Json Dto Bytes Assets.

(** ** Tables *)

Record pack := {
  pk_registry_id : option uuid; pk_pack_id : pystr; pk_name : pystr; pk_description : option pystr;
  pk_version : pystr; pk_author : option pystr; pk_tags : list pystr; pk_manifest_sha : option pystr;
  pk_readme : option pystr; pk_commands : list jobject; pk_scripts : list jobject;
  pk_installed_version : option pystr; pk_installed_at : option Z; pk_created_at : Z; pk_updated_at : Z }.
(** A row of commands or scripts: they differ in the body. *)
Record command_row := {
  cm_name : pystr; cm_description : json; cm_command : pystr; cm_parameters : json; cm_tags : list json;
  cm_timeout : Z; cm_template_pack_id : option uuid }.
Record script_row := {
  sc_name : pystr; sc_description : json; sc_steps : list json; sc_tags : list json;
  sc_timeout : Z; sc_template_pack_id : option uuid }.
Record link := { ln_pack_id : uuid; ln_entity_type : pystr; ln_entity_id : uuid }.
Record asset_row := { as_pack_id : uuid; as_path : pystr; as_content : pystr; as_size : Z }.
Record store := {
  st_packs : list (uuid * pack); st_commands : list (uuid * command_row); st_scripts : list (uuid * script_row);
  st_links : list (uuid * link); st_assets : list (uuid * asset_row); st_next : uuid }.

Definition set_packs (s : store) (x : list (uuid * pack)) : store :=
  {| st_packs := x; st_commands := st_commands s; st_scripts := st_scripts s; st_links := st_links s;
     st_assets := st_assets s; st_next := st_next s |}.
Definition set_commands (s : store) (x : list (uuid * command_row)) : store :=
  {| st_packs := st_packs s; st_commands := x; st_scripts := st_scripts s; st_links := st_links s;
     st_assets := st_assets s; st_next := st_next s |}.
Definition set_scripts (s : store) (x : list (uuid * script_row)) : store :=
  {| st_packs := st_packs s; st_commands := st_commands s; st_scripts := x; st_links := st_links s;
     st_assets := st_assets s; st_next := st_next s |}.
Definition set_links (s : store) (x : list (uuid * link)) : store :=
  {| st_packs := st_packs s; st_commands := st_commands s; st_scripts := st_scripts s; st_links := x;
     st_assets := st_assets s; st_next := st_next s |}.
Definition set_assets (s : store) (x : list (uuid * asset_row)) : store :=
  {| st_packs := st_packs s; st_commands := st_commands s; st_scripts := st_scripts s; st_links := st_links s;
     st_assets := x; st_next := st_next s |}.
Definition set_next (s : store) (x : uuid) : store :=
  {| st_packs := st_packs s; st_commands := st_commands s; st_scripts := st_scripts s; st_links := st_links s;
     st_assets := st_assets s; st_next := x |}.

Definition IntegrityError : exn_class := LibraryError #"IntegrityError".
Definition method (A : Type) : Type := store -> res (A * store).
(** [async with self._sessionmaker.begin()]. *)
Definition transaction {A} (m : method A) (s : store) : res A * store :=
  match m s with Ok (a, s') => (Ok a, s') | Raise e => (Raise e, s) end.

(** ** Names *)

Section names.

Fixpoint unique_go (fuel : nat) (base : pystr) (existing : list pystr) (idx : Z) : option pystr :=
  match fuel with
  | O => None
  | S fuel =>
      let cand := base ++ #"_" ++ str_Z idx in
      if bool_decide (cand ∈ existing) then unique_go fuel base existing (idx + 1) else Some cand
  end.
(** The loop ends within one turn more than there are names ([unique_name_fresh]). *)
Definition _unique_name (base : pystr) (existing : list pystr) : pystr :=
  if bool_decide (base ∈ existing) then default base (unique_go (S (length existing)) base existing 1) else base.
End names.

(** ** Content *)

Section content.
Context `{Unicode} `{PyFloat}.

Definition payload_get (payload : jobject) (key : pystr) : json := default JNull (dict_get payload key).
Definition or_else (v other : json) : json := if json_truthy v then v else other.
(** [list(value)]. *)
Definition py_list (v : json) : res (list json) :=
  match v with
  | JArr xs => Ok xs
  | JStr s => Ok ((fun c => JStr [c]) <$> s)
  | JObj kvs => Ok ((fun kv => JStr kv.1) <$> kvs)
  | _ => raise TypeError #"object is not iterable"
  end.

Fixpoint _content_to_dicts (items : list json) : res (list jobject) :=
  match items with
  | [] => Ok []
  | JObj kvs :: items => rest ← _content_to_dicts items; Ok (kvs :: rest)
  | item :: _ => raise DomainError (#"Invalid pack content item: " ++ json_repr item)
  end.

Definition valid_name (name : json) (what : pystr) : res pystr :=
  match name with
  | JStr ((_ :: _) as s) => if 255 <? length s then raise DomainError (#"Invalid " ++ what ++ #" name in pack: " ++ json_repr name) else Ok s
  | _ => raise DomainError (#"Invalid " ++ what ++ #" name in pack: " ++ json_repr name)
  end.
Definition valid_timeout (payload : jobject) (name : json) : res Z :=
  match default (JInt 60) (dict_get payload #"timeout") with
  | JInt z => Ok z
  | _ => raise DomainError (#"Invalid timeout in pack item " ++ json_repr name)
  end.

Definition _validate_command_payload (payload : jobject) : res command_row :=
  let name := payload_get payload #"name" in
  s ← valid_name name #"command";
  command ← match payload_get payload #"command" with
            | JStr ((_ :: _) as c) => if 4096 <? length c then raise DomainError (#"Invalid command body in pack item " ++ json_repr name) else Ok c
            | _ => raise DomainError (#"Invalid command body in pack item " ++ json_repr name)
            end;
  timeout ← valid_timeout payload name;
  tags ← py_list (or_else (payload_get payload #"tags") (JArr []));
  Ok {| cm_name := s; cm_description := payload_get payload #"description"; cm_command := command;
        cm_parameters := or_else (payload_get payload #"parameters") (JArr []); cm_tags := tags;
        cm_timeout := timeout; cm_template_pack_id := None |}.

Fixpoint check_steps (name : json) (steps : list json) : res unit :=
  match steps with
  | [] => Ok tt
  | JObj step :: steps =>
      let type := payload_get step #"type" in
      (match type with
       | JStr t =>
           if str_eqb t #"inline" then Ok tt
           else if str_eqb t #"command" then
             if negb (json_truthy (payload_get step #"command_id")) && negb (json_truthy (payload_get step #"command_name"))
             then raise DomainError (#"Command step in script " ++ json_repr name ++ #" requires command_id or command_name")
             else Ok tt
           else raise DomainError (#"Invalid step type in script " ++ json_repr name ++ #": " ++ json_repr type)
       | _ => raise DomainError (#"Invalid step type in script " ++ json_repr name ++ #": " ++ json_repr type)
       end);;
      check_steps name steps
  | _ :: _ => raise DomainError (#"Invalid step in script " ++ json_repr name)
  end.
Definition _validate_script_payload (payload : jobject) : res script_row :=
  let name := payload_get payload #"name" in
  s ← valid_name name #"script";
  steps ← match payload_get payload #"steps" with
          | JArr ((_ :: _) as steps) => Ok steps
          | _ => raise DomainError (#"Script " ++ json_repr name ++ #" requires at least one step")
          end;
  check_steps name steps;;
  timeout ← valid_timeout payload name;
  tags ← py_list (or_else (payload_get payload #"tags") (JArr []));
  Ok {| sc_name := s; sc_description := payload_get payload #"description"; sc_steps := steps; sc_tags := tags;
        sc_timeout := timeout; sc_template_pack_id := None |}.
End content.

(** ** Installing *)

Record PackInstallItemDTO := {
  it_entity_type : pystr; it_entity_id : option uuid; it_name : pystr; it_status : pystr; it_error : pystr }.
Record PackInstallResultDTO := {
  ir_pack_id : uuid; ir_version : pystr; ir_total : Z; ir_succeeded : Z; ir_failed : Z;
  ir_results : list PackInstallItemDTO }.
(** [on_conflict]: "fail" or "rename". *)
Inductive conflict_mode := ConflictError | ConflictRename.

Definition success_item (entity_type : pystr) (id : uuid) (name : pystr) : PackInstallItemDTO :=
  {| it_entity_type := entity_type; it_entity_id := Some id; it_name := name; it_status := #"success"; it_error := [] |}.
Definition error_item (entity_type : pystr) (name : pystr) (e : exn) : PackInstallItemDTO :=
  {| it_entity_type := entity_type; it_entity_id := None; it_name := name; it_status := #"error";
     it_error := sanitize_bulk_error e |}.

Section install.
Context `{Unicode} `{PyFloat}.
(** The exception of a value that its column's type refuses. *)
Context (command_refused : command_row -> option exn) (script_refused : script_row -> option exn).

(** Phase 1: the names under which the items will be created. *)
Fixpoint plan_names (what fallback : pystr) (mode : conflict_mode) (existing planned : list pystr) (raws : list jobject)
    : res (list (pystr * jobject)) :=
  match raws with
  | [] => Ok []
  | raw :: raws =>
      let name := json_str (default (JStr fallback) (dict_get raw #"name")) in
      name ← (if bool_decide (name ∈ existing) || bool_decide (name ∈ planned) then
                match mode with
                | ConflictError => raise PackConflictError (what ++ #" name '" ++ name ++ #"' already exists")
                | ConflictRename => Ok (_unique_name name (existing ++ planned))
                end
              else Ok name);
      rest ← plan_names what fallback mode existing (planned ++ [name]) raws;
      Ok ((name, raw) :: rest)
  end.

(** Phase 2: the valid rows, and an error item for each other one. *)
Fixpoint validate_items {R} (entity_type : pystr) (check : jobject -> res R) (planned : list (pystr * jobject))
    : res (list (pystr * R) * list PackInstallItemDTO) :=
  match planned with
  | [] => Ok ([], [])
  | (name, raw) :: planned =>
      match check (dict_set raw #"name" (JStr name)) with
      | Ok row => '(rows, errors) ← validate_items entity_type check planned; Ok ((name, row) :: rows, errors)
      | Raise e =>
          if isinstance (exn_type e) Exception_ then
            '(rows, errors) ← validate_items entity_type check planned;
            Ok (rows, error_item entity_type name e :: errors)
          else Raise e
      end
  end.

Definition timeout_ok (timeout : Z) : bool := ((1 <=? timeout) && (timeout <=? 3600))%Z.
(** An insertion, with the constraints of the table. *)
Definition insert_command (id : uuid) (row : command_row) (s : store) : res store :=
  if existsb (fun kv => str_eqb (cm_name kv.2) (cm_name row)) (st_commands s)
  then raise IntegrityError #"UNIQUE constraint failed: commands.name"
  else if negb (timeout_ok (cm_timeout row)) then raise IntegrityError #"CHECK constraint failed: ck_commands_timeout"
  else match command_refused row with
       | Some e => Raise e
       | None => Ok (set_commands s (st_commands s ++ [(id, row)]))
       end.
Definition insert_script (id : uuid) (row : script_row) (s : store) : res store :=
  if existsb (fun kv => str_eqb (sc_name kv.2) (sc_name row)) (st_scripts s)
  then raise IntegrityError #"UNIQUE constraint failed: scripts.name"
  else if negb (timeout_ok (sc_timeout row)) then raise IntegrityError #"CHECK constraint failed: ck_scripts_timeout"
  else match script_refused row with
       | Some e => Raise e
       | None => Ok (set_scripts s (st_scripts s ++ [(id, row)]))
       end.

(** Phase 3: the rows of one kind, each with its success item. *)
Fixpoint add_rows {R} (entity_type : pystr) (insert : uuid -> R -> store -> res store) (rows : list (pystr * R))
    (s : store) : res (list PackInstallItemDTO * store) :=
  match rows with
  | [] => Ok ([], s)
  | (name, row) :: rows =>
      let id := st_next s in
      s ← insert id row (set_next s (id + 1)%N);
      '(items, s) ← add_rows entity_type insert rows s;
      Ok (success_item entity_type id name :: items, s)
  end.
Definition of_pack_command (pack_id : uuid) (name : pystr) (row : command_row) : command_row :=
  {| cm_name := name; cm_description := cm_description row; cm_command := cm_command row;
     cm_parameters := cm_parameters row; cm_tags := cm_tags row; cm_timeout := cm_timeout row;
     cm_template_pack_id := Some pack_id |}.
Definition of_pack_script (pack_id : uuid) (name : pystr) (row : script_row) : script_row :=
  {| sc_name := name; sc_description := sc_description row; sc_steps := sc_steps row; sc_tags := sc_tags row;
     sc_timeout := sc_timeout row; sc_template_pack_id := Some pack_id |}.

Fixpoint add_links (pack_id : uuid) (items : list PackInstallItemDTO) (s : store) : store :=
  match items with
  | [] => s
  | item :: items =>
      let id := st_next s in
      add_links pack_id items
        (set_links (set_next s (id + 1)%N)
           (st_links s ++ [(id, {| ln_pack_id := pack_id; ln_entity_type := it_entity_type item;
                                   ln_entity_id := default 0%N (it_entity_id item) |})]))
  end.

Definition set_installed (version : option pystr) (at_ : option Z) (now : Z) (p : pack) : pack :=
  {| pk_registry_id := pk_registry_id p; pk_pack_id := pk_pack_id p; pk_name := pk_name p;
     pk_description := pk_description p; pk_version := pk_version p; pk_author := pk_author p;
     pk_tags := pk_tags p; pk_manifest_sha := pk_manifest_sha p; pk_readme := pk_readme p;
     pk_commands := pk_commands p; pk_scripts := pk_scripts p; pk_installed_version := version;
     pk_installed_at := at_; pk_created_at := pk_created_at p; pk_updated_at := now |}.

Definition mark_installed (pack_id : uuid) (p : pack) (now : Z) (ok_items : list PackInstallItemDTO) (s : store) : store :=
  match ok_items with
  | [] => s
  | _ => set_packs s (dict_set (st_packs s) pack_id (set_installed (Some (pk_version p)) (Some now) now p))
  end.
(** The three phases, for a pack with content. *)
Definition install_items (pack_id : uuid) (p : pack) (mode : conflict_mode) (now : Z) : method PackInstallResultDTO := fun s =>
  let existing_commands := (fun kv => cm_name kv.2) <$> st_commands s in
  let existing_scripts := (fun kv => sc_name kv.2) <$> st_scripts s in
  planned_commands ← plan_names #"Command" #"command" mode existing_commands [] (pk_commands p);
  planned_scripts ← plan_names #"Script" #"script" mode existing_scripts [] (pk_scripts p);
  '(valid_commands, command_errors) ← validate_items #"command" _validate_command_payload planned_commands;
  '(valid_scripts, script_errors) ← validate_items #"script" _validate_script_payload planned_scripts;
  '(command_items, s) ← add_rows #"command" insert_command
     ((fun nr => (nr.1, of_pack_command pack_id nr.1 nr.2)) <$> valid_commands) s;
  '(script_items, s) ← add_rows #"script" insert_script
     ((fun nr => (nr.1, of_pack_script pack_id nr.1 nr.2)) <$> valid_scripts) s;
  let ok_items := command_items ++ script_items in
  let results := command_errors ++ script_errors in
  let succeeded := Z.of_nat (length ok_items) in
  let failed := Z.of_nat (length results) in
  Ok ({| ir_pack_id := pack_id; ir_version := pk_version p; ir_total := succeeded + failed;
         ir_succeeded := succeeded; ir_failed := failed; ir_results := ok_items ++ results |},
      mark_installed pack_id p now ok_items (add_links pack_id ok_items s)).

Definition _install_in_session (pack_id : uuid) (p : pack) (mode : conflict_mode) (now : Z) : method PackInstallResultDTO := fun s =>
  match pk_installed_version p with
  | Some _ => raise PackConflictError (#"Pack " ++ uuid_str pack_id ++ #" already installed")
  | None =>
      match pk_commands p, pk_scripts p with
      | [], [] => Ok ({| ir_pack_id := pack_id; ir_version := pk_version p; ir_total := 0; ir_succeeded := 0;
                         ir_failed := 0; ir_results := [] |}, s)
      | _, _ => install_items pack_id p mode now s
      end
  end.
End install.

(** ** Uninstalling, updating, deleting *)

Section editing_rows.
Context `{Unicode} `{PyFloat}.
Context (command_refused : command_row -> option exn) (script_refused : script_row -> option exn).
Local Abbreviation install_in := (_install_in_session command_refused script_refused).

Definition drop_link (s : store) (kv : uuid * link) : store :=
  let l := kv.2 in
  let s := if str_eqb (ln_entity_type l) #"command" then set_commands s (dict_pop (st_commands s) (ln_entity_id l))
           else if str_eqb (ln_entity_type l) #"script" then set_scripts s (dict_pop (st_scripts s) (ln_entity_id l))
           else s in
  set_links s (dict_pop (st_links s) kv.1).
Definition links_of (pack_id : uuid) (s : store) : list (uuid * link) :=
  List.filter (fun kv => bool_decide (ln_pack_id kv.2 = pack_id)) (st_links s).
Definition _uninstall_in_session (pack_id : uuid) (p : pack) (now : Z) (s : store) : store :=
  let s := fold_left drop_link (links_of pack_id s) s in
  set_packs s (dict_set (st_packs s) pack_id (set_installed None None now p)).

Definition with_pack {A} (pack_id : uuid) (f : pack -> method A) : method A := fun s =>
  match dict_get (st_packs s) pack_id with
  | Some p => f p s
  | None => raise PackNotFoundError (#"Pack " ++ uuid_str pack_id ++ #" not found")
  end.
Definition install_pack (pack_id : uuid) (mode : conflict_mode) (now : Z) : store -> res PackInstallResultDTO * store :=
  transaction (with_pack pack_id (fun p => install_in pack_id p mode now)).
Definition uninstall_pack (pack_id : uuid) (now : Z) : store -> res unit * store :=
  transaction (with_pack pack_id (fun p s => Ok (tt, _uninstall_in_session pack_id p now s))).
(** The pack object of the session is updated by the uninstallation. *)
Definition update_pack (pack_id : uuid) (mode : conflict_mode) (now : Z) : store -> res PackInstallResultDTO * store :=
  transaction (with_pack pack_id (fun p s =>
    install_in pack_id (set_installed None None now p) mode now (_uninstall_in_session pack_id p now s))).
(** The foreign keys of the tables: links and assets go with the pack, rows lose it. *)
Definition forget_pack (pack_id : uuid) (s : store) : store :=
  let keep {V} (f : V -> uuid) (d : list (uuid * V)) := List.filter (fun kv => negb (bool_decide (f kv.2 = pack_id))) d in
  {| st_packs := dict_pop (st_packs s) pack_id;
     st_commands := prod_map id (fun r => if bool_decide (cm_template_pack_id r = Some pack_id)
       then {| cm_name := cm_name r; cm_description := cm_description r; cm_command := cm_command r;
               cm_parameters := cm_parameters r; cm_tags := cm_tags r; cm_timeout := cm_timeout r;
               cm_template_pack_id := None |} else r) <$> st_commands s;
     st_scripts := prod_map id (fun r => if bool_decide (sc_template_pack_id r = Some pack_id)
       then {| sc_name := sc_name r; sc_description := sc_description r; sc_steps := sc_steps r; sc_tags := sc_tags r;
               sc_timeout := sc_timeout r; sc_template_pack_id := None |} else r) <$> st_scripts s;
     st_links := keep ln_pack_id (st_links s); st_assets := keep as_pack_id (st_assets s); st_next := st_next s |}.
Definition delete_pack (pack_id : uuid) (now : Z) : store -> res unit * store :=
  transaction (with_pack pack_id (fun p s => Ok (tt, forget_pack pack_id (_uninstall_in_session pack_id p now s)))).
End editing_rows.

(** ** Creating, synchronizing, patching *)

Record PackManifestDTO := {
  mf_pack_id : pystr; mf_name : pystr; mf_version : pystr; mf_description : option pystr; mf_author : option pystr;
  mf_tags : list pystr; mf_manifest_sha : option pystr }.
Record PackCreateDTO := {
  pc_manifest : PackManifestDTO; pc_commands : list json; pc_scripts : list json; pc_readme : option pystr;
  pc_assets : list PackAssetCreateDTO; pc_registry_id : option uuid }.
Record SyncedPackDTO := {
  sy_registry_id : uuid; sy_manifest : PackManifestDTO; sy_readme : option pystr;
  sy_commands : list jobject; sy_scripts : list jobject; sy_assets : list PackAssetCreateDTO }.
Record PackUpdateDTO := {
  pu_name : option pystr; pu_description : option pystr; pu_version : option pystr; pu_author : option pystr;
  pu_tags : option (list pystr); pu_manifest_sha : option pystr; pu_readme : option pystr }.
Inductive sync_outcome := Created | Updated | Unchanged.

(** What the columns of packs and files refuse, by their length, or because PostgreSQL stores no
    NUL character: the error of the driver. *)
Class PackColumns := {
  pack_refused : PackManifestDTO -> option pystr -> list jobject -> list jobject -> option exn;
  asset_refused : pystr -> pystr -> option exn;
  pack_refused_exception m readme commands scripts e :
    pack_refused m readme commands scripts = Some e -> isinstance (exn_type e) Exception_ = true;
  asset_refused_exception path content e : asset_refused path content = Some e -> isinstance (exn_type e) Exception_ = true }.

Section editing.
Context `{Unicode} `{PyFloat} `{PackColumns}.

Definition row_refused (p : pack) : option exn :=
  pack_refused {| mf_pack_id := pk_pack_id p; mf_name := pk_name p; mf_version := pk_version p; mf_description := pk_description p;
                  mf_author := pk_author p; mf_tags := pk_tags p; mf_manifest_sha := pk_manifest_sha p |}
    (pk_readme p) (pk_commands p) (pk_scripts p).

Definition same_identity (registry_id : option uuid) (pack_id : pystr) (p : pack) : bool :=
  bool_decide (pk_registry_id p = registry_id) && str_eqb (pk_pack_id p) pack_id.
Definition _duplicate_exists (pack_id : pystr) (registry_id : option uuid) (s : store) : bool :=
  existsb (fun kv => same_identity registry_id pack_id kv.2) (st_packs s).

Definition new_pack (registry_id : option uuid) (m : PackManifestDTO) (readme : option pystr)
    (commands scripts : list jobject) (now : Z) : pack :=
  {| pk_registry_id := registry_id; pk_pack_id := mf_pack_id m; pk_name := mf_name m;
     pk_description := mf_description m; pk_version := mf_version m; pk_author := mf_author m; pk_tags := mf_tags m;
     pk_manifest_sha := mf_manifest_sha m; pk_readme := readme; pk_commands := commands; pk_scripts := scripts;
     pk_installed_version := None; pk_installed_at := None; pk_created_at := now; pk_updated_at := now |}.

(** The assets were decoded before: decoding them again gives the same bytes. *)
Fixpoint write_assets_in_session (pack_id : uuid) (assets : list PackAssetCreateDTO) (s : store) : res store :=
  match assets with
  | [] => Ok s
  | asset :: assets =>
      match b64decode_validate (pa_content_base64 asset) with
      | Raise e => raise DomainError (#"Invalid base64 for asset " ++ pa_path asset ++ #": " ++ exn_msg e)
      | Ok raw =>
          if existsb (fun kv => bool_decide (as_pack_id kv.2 = pack_id) && str_eqb (as_path kv.2) (pa_path asset)) (st_assets s)
          then raise IntegrityError #"UNIQUE constraint failed: template_assets.pack_id, template_assets.path"
          else if asset_refused (pa_path asset) (stored_content raw) is Some e then Raise e
          else
            let id := st_next s in
            write_assets_in_session pack_id assets
              (set_assets (set_next s (id + 1)%N)
                 (st_assets s ++ [(id, {| as_pack_id := pack_id; as_path := pa_path asset;
                                          as_content := stored_content raw; as_size := Z.of_nat (length raw) |})]))
      end
  end.

Definition create_pack (data : PackCreateDTO) (now : Z) (s : store) : res uuid * store :=
  let m := pc_manifest data in
  match
    (validate_pack_id (mf_pack_id m);;
     commands ← _content_to_dicts (pc_commands data);
     scripts ← _content_to_dicts (pc_scripts data);
     decoded ← _decode_assets (pc_assets data);
     Ok (commands, scripts, decoded))
  with
  | Raise e => (Raise e, s)
  | Ok (commands, scripts, decoded) =>
      transaction (fun s =>
        let id := st_next s in
        let s := set_next s (id + 1)%N in
        if _duplicate_exists (mf_pack_id m) (pc_registry_id data) s
        then raise PackConflictError (#"Pack " ++ mf_pack_id m ++ #" already exists for registry")
        else
          let p := new_pack (pc_registry_id data) m (pc_readme data) commands scripts now in
          if row_refused p is Some e then Raise e else
          s ← write_assets_in_session id (decoded.*1) (set_packs s (st_packs s ++ [(id, p)]));
          Ok (id, s)) s
  end.

Definition synced (data : SyncedPackDTO) (now : Z) (p : pack) : pack :=
  let m := sy_manifest data in
  {| pk_registry_id := pk_registry_id p; pk_pack_id := pk_pack_id p; pk_name := mf_name m;
     pk_description := mf_description m; pk_version := mf_version m; pk_author := mf_author m; pk_tags := mf_tags m;
     pk_manifest_sha := mf_manifest_sha m; pk_readme := sy_readme data; pk_commands := sy_commands data;
     pk_scripts := sy_scripts data; pk_installed_version := pk_installed_version p;
     pk_installed_at := pk_installed_at p; pk_created_at := pk_created_at p; pk_updated_at := now |}.
Definition upsert_synced_pack (data : SyncedPackDTO) (now : Z) (s : store) : res (uuid * sync_outcome) * store :=
  let m := sy_manifest data in
  match (validate_pack_id (mf_pack_id m);; _decode_assets (sy_assets data)) with
  | Raise e => (Raise e, s)
  | Ok decoded =>
      transaction (fun s =>
        match List.find (fun kv => same_identity (Some (sy_registry_id data)) (mf_pack_id m) kv.2) (st_packs s) with
        | Some (id, p) =>
            if bool_decide (pk_manifest_sha p = mf_manifest_sha m) then Ok (id, Unchanged, s)
            else if row_refused (synced data now p) is Some e then Raise e
            else
              let s := set_packs s (dict_set (st_packs s) id (synced data now p)) in
              let s := set_assets s (List.filter (fun kv => negb (bool_decide (as_pack_id kv.2 = id))) (st_assets s)) in
              s ← write_assets_in_session id (decoded.*1) s;
              Ok (id, Updated, s)
        | None =>
            let id := st_next s in
            let p := new_pack (Some (sy_registry_id data)) m (sy_readme data) (sy_commands data) (sy_scripts data) now in
            if row_refused p is Some e then Raise e else
            s ← write_assets_in_session id (decoded.*1) (set_packs (set_next s (id + 1)%N) (st_packs s ++ [(id, p)]));
            Ok (id, Created, s)
        end) s
  end.

Definition patched (data : PackUpdateDTO) (now : Z) (p : pack) : pack :=
  let opt {A} (new old : option A) := match new with Some x => Some x | None => old end in
  {| pk_registry_id := pk_registry_id p; pk_pack_id := pk_pack_id p; pk_name := default (pk_name p) (pu_name data);
     pk_description := opt (pu_description data) (pk_description p); pk_version := default (pk_version p) (pu_version data);
     pk_author := opt (pu_author data) (pk_author p); pk_tags := default (pk_tags p) (pu_tags data);
     pk_manifest_sha := opt (pu_manifest_sha data) (pk_manifest_sha p); pk_readme := opt (pu_readme data) (pk_readme p);
     pk_commands := pk_commands p; pk_scripts := pk_scripts p; pk_installed_version := pk_installed_version p;
     pk_installed_at := pk_installed_at p; pk_created_at := pk_created_at p; pk_updated_at := now |}.
Definition patch_pack (pack_id : uuid) (data : PackUpdateDTO) (now : Z) : store -> res pack * store :=
  transaction (with_pack pack_id (fun p s =>
    let p' := patched data now p in
    if row_refused p' is Some e then Raise e else Ok (p', set_packs s (dict_set (st_packs s) pack_id p')))).
End editing.

(** ** Histories *)

(** The foreign key of a deleted registry becomes null, under the unique index on the
    local packs. *)
Definition detach_registry (registry_id : uuid) : method unit := fun s =>
  let detached := prod_map id (fun p =>
    if bool_decide (pk_registry_id p = Some registry_id) then
      {| pk_registry_id := None; pk_pack_id := pk_pack_id p; pk_name := pk_name p; pk_description := pk_description p;
         pk_version := pk_version p; pk_author := pk_author p; pk_tags := pk_tags p; pk_manifest_sha := pk_manifest_sha p;
         pk_readme := pk_readme p; pk_commands := pk_commands p; pk_scripts := pk_scripts p;
         pk_installed_version := pk_installed_version p; pk_installed_at := pk_installed_at p;
         pk_created_at := pk_created_at p; pk_updated_at := pk_updated_at p |}
    else p) <$> st_packs s in
  if bool_decide (NoDup ((fun p => (pk_registry_id p, pk_pack_id p)) <$> detached.*2)) then Ok (tt, set_packs s detached)
  else raise IntegrityError #"UNIQUE constraint failed: template_packs.pack_id".

Section histories.
Context `{Unicode} `{PyFloat} `{PackColumns}.
Context (command_refused : command_row -> option exn) (script_refused : script_row -> option exn).

(** The operations on packs, and those of the other services on the shared tables: the
    commands and scripts users create belong to no pack. *)
Inductive pack_op :=
| OpCreate (data : PackCreateDTO) | OpSync (data : SyncedPackDTO) | OpPatch (pack_id : uuid) (data : PackUpdateDTO)
| OpInstall (pack_id : uuid) (mode : conflict_mode) | OpUninstall (pack_id : uuid)
| OpUpdate (pack_id : uuid) (mode : conflict_mode) | OpDelete (pack_id : uuid) | OpDetach (registry_id : uuid)
| OpAddCommand (row : command_row) | OpDropCommand (id : uuid)
| OpAddScript (row : script_row) | OpDropScript (id : uuid).

Definition user_command (row : command_row) : command_row :=
  {| cm_name := cm_name row; cm_description := cm_description row; cm_command := cm_command row;
     cm_parameters := cm_parameters row; cm_tags := cm_tags row; cm_timeout := cm_timeout row; cm_template_pack_id := None |}.
Definition user_script (row : script_row) : script_row :=
  {| sc_name := sc_name row; sc_description := sc_description row; sc_steps := sc_steps row; sc_tags := sc_tags row;
     sc_timeout := sc_timeout row; sc_template_pack_id := None |}.

Definition run_op (op : pack_op) (now : Z) (s : store) : store :=
  match op with
  | OpCreate data => (create_pack data now s).2
  | OpSync data => (upsert_synced_pack data now s).2
  | OpPatch pack_id data => (patch_pack pack_id data now s).2
  | OpInstall pack_id mode => (install_pack command_refused script_refused pack_id mode now s).2
  | OpUninstall pack_id => (uninstall_pack pack_id now s).2
  | OpUpdate pack_id mode => (update_pack command_refused script_refused pack_id mode now s).2
  | OpDelete pack_id => (delete_pack pack_id now s).2
  | OpDetach registry_id => (transaction (detach_registry registry_id) s).2
  | OpAddCommand row =>
      (transaction (fun s => s ← insert_command command_refused (st_next s) (user_command row) (set_next s (st_next s + 1)%N); Ok (tt, s)) s).2
  | OpDropCommand id => set_commands s (dict_pop (st_commands s) id)
  | OpAddScript row =>
      (transaction (fun s => s ← insert_script script_refused (st_next s) (user_script row) (set_next s (st_next s + 1)%N); Ok (tt, s)) s).2
  | OpDropScript id => set_scripts s (dict_pop (st_scripts s) id)
  end.
Definition empty_store : store :=
  {| st_packs := []; st_commands := []; st_scripts := []; st_links := []; st_assets := []; st_next := 0 |}.
Definition run_history (ops : list (pack_op * Z)) : store := fold_left (fun s op => run_op op.1 op.2 s) ops empty_store.
End histories.

(** ** Statistics *)

Record PackStatsBucketDTO := { bk_group : pystr; bk_total : Z; bk_installed : Z; bk_not_installed : Z }.
Record PackStatsDTO := { ps_total : Z; ps_installed : Z; ps_not_installed : Z; ps_buckets : list PackStatsBucketDTO }.

Definition is_installed (p : pack) : bool := if pk_installed_version p is Some _ then true else false.
(** The truth value of the version, which the buckets use. *)
Definition shows_installed (p : pack) : bool := if pk_installed_version p is Some (_ :: _) then true else false.
Definition count {A} (f : A -> bool) (xs : list A) : Z := Z.of_nat (length (List.filter f xs)).
(** [groups[key].append(p)] over a defaultdict. *)
Definition group_by_key (pairs : list (pystr * pack)) : list (pystr * list pack) :=
  fold_left (fun groups kp => dict_set groups kp.1 (default [] (dict_get groups kp.1) ++ [kp.2])) pairs [].
Definition buckets_of (groups : list (pystr * list pack)) : list PackStatsBucketDTO :=
  (fun g => let inst := count shows_installed g.2 in
     {| bk_group := g.1; bk_total := Z.of_nat (length g.2); bk_installed := inst;
        bk_not_installed := Z.of_nat (length g.2) - inst |}) <$> groups.
Definition registry_key (p : pack) : pystr := if pk_registry_id p is Some r then uuid_str r else #"local".
Definition tag_keys (p : pack) : list pystr := match pk_tags p with [] => [ #"untagged"] | tags => tags end.

Definition get_stats `{Unicode} (group_by : option pystr) (s : store) : res PackStatsDTO :=
  let packs := (st_packs s).*2 in
  let total := Z.of_nat (length packs) in
  let installed := count is_installed packs in
  let not_installed := (total - installed)%Z in
  let answer buckets := Ok {| ps_total := total; ps_installed := installed; ps_not_installed := not_installed; ps_buckets := buckets |} in
  match group_by with
  | None => answer []
  | Some key =>
      if str_eqb key #"registry_id" then answer (buckets_of (group_by_key ((fun p => (registry_key p, p)) <$> packs)))
      else if str_eqb key #"tag" then
        answer (buckets_of (group_by_key (mjoin ((fun p => (fun t => (t, p)) <$> tag_keys p) <$> packs))))
      else if str_eqb key #"installed" then
        answer [ {| bk_group := #"installed"; bk_total := installed; bk_installed := installed; bk_not_installed := 0 |};
                 {| bk_group := #"not_installed"; bk_total := not_installed; bk_installed := 0; bk_not_installed := not_installed |} ]
      else if str_eqb key #"version" then answer (buckets_of (group_by_key ((fun p => (pk_version p, p)) <$> packs)))
      else raise DomainError (#"Invalid group_by: " ++ py_repr key)
  end.
