(* ===== verification/PackSpec.v ===== *)
(** * What the template packs promise

    The laws of [Packs]: names made unique, what an installation creates and that
    uninstalling removes exactly that, updating as a reinstallation, and the invariant of
    the tables in every history of the operations. *)
From S2P Require Import Prelude PyStr Errors Json Dto Bytes Assets Packs.

(** ** Unique names *)

Definition candidate (base : pystr) (idx : Z) : pystr := base ++ #"_" ++ str_Z idx.

Lemma str_Z_pos_inj a b : (0 < a)%Z -> (0 < b)%Z -> str_Z a = str_Z b -> a = b.
Proof.
  intros Ha Hb. destruct a as [|a|a], b as [|b|b]; try lia. intros E.
  change (str_N (Npos a) = str_N (Npos b)) in E. apply (f_equal digits_value) in E. rewrite !str_N_value in E. lia.
Qed.
Lemma candidate_inj base a b : (0 < a)%Z -> (0 < b)%Z -> candidate base a = candidate base b -> a = b.
Proof. intros Ha Hb E. apply app_inv_head, app_inv_head in E. by apply str_Z_pos_inj. Qed.

Lemma unique_go_spec fuel base existing idx :
  match unique_go fuel base existing idx with
  | Some cand => exists k, (idx <= k < idx + Z.of_nat fuel)%Z /\ cand = candidate base k /\ (cand ∉ existing) /\
      forall j, (idx <= j < k)%Z -> candidate base j ∈ existing
  | None => forall j, (idx <= j < idx + Z.of_nat fuel)%Z -> candidate base j ∈ existing
  end.
Proof.
  revert idx. induction fuel as [|fuel IH]; intros idx; [intros j ?; lia|]. cbn [unique_go]. fold (candidate base idx).
  case_bool_decide as Hin.
  - specialize (IH (idx + 1)%Z). destruct (unique_go fuel base existing (idx + 1)) as [cand|].
    + destruct IH as (k & Hk & -> & Hout & Hbelow). exists k. split; [lia|]. split; [done|]. split; [done|].
      intros j Hj. destruct (decide (j = idx)) as [->|]; [done|]. apply Hbelow. lia.
    + intros j Hj. destruct (decide (j = idx)) as [->|]; [done|]. apply IH. lia.
  - exists idx. split; [lia|]. split; [done|]. split; [done|]. intros j ?; lia.
Qed.

(** There are not enough names to block every candidate. *)
Lemma candidates_run_out base existing n : length existing < n ->
  ~ forall j, (1 <= j < 1 + Z.of_nat n)%Z -> candidate base j ∈ existing.
Proof.
  intros Hlen Hall. set (cands := (fun k => candidate base (Z.of_nat k)) <$> seq 1 n).
  assert (NoDup cands) as Hnd.
  { apply NoDup_fmap_2_strong; [|apply NoDup_seq]. intros a b Ha%elem_of_seq Hb%elem_of_seq E.
    apply candidate_inj in E; lia. }
  assert (cands ⊆+ existing) as Hsub.
  { apply NoDup_submseteq; [done|]. intros c (k & -> & Hk%elem_of_seq)%list_elem_of_fmap. apply Hall. lia. }
  apply submseteq_length in Hsub. unfold cands in Hsub. rewrite length_fmap, length_seq in Hsub. lia.
Qed.

Lemma unique_name_laws base existing :
  (_unique_name base existing ∉ existing) /\
  (base ∉ existing -> _unique_name base existing = base) /\
  (base ∈ existing -> exists k, (1 <= k <= Z.of_nat (length existing) + 1)%Z /\
     _unique_name base existing = candidate base k /\ forall j, (1 <= j < k)%Z -> candidate base j ∈ existing).
Proof.
  unfold _unique_name. case_bool_decide as Hin; [|by split_and!].
  pose proof (unique_go_spec (S (length existing)) base existing 1) as Hgo.
  destruct (unique_go _ _ _ _) as [cand|].
  - destruct Hgo as (k & Hk & Hc & Hout & Hbelow). cbn [default]. split; [done|]. split; [done|].
    intros _. exists k. split; [lia|]. by split.
  - exfalso. by apply (candidates_run_out base existing (S (length existing))); [lia|].
Qed.

(** The search for a unique name ends, with the name itself if it is free, and otherwise
    with the first free one among the name with the suffixes _1, _2 and so on, of which it tries
    at most one more than there are names. *)
Theorem unique_name_fresh (base : pystr) (existing : list pystr) :
  (_unique_name base existing ∉ existing) /\
  (base ∉ existing -> _unique_name base existing = base) /\
  (base ∈ existing -> exists k, (1 <= k <= Z.of_nat (length existing) + 1)%Z /\
     _unique_name base existing = candidate base k /\ forall j, (1 <= j < k)%Z -> candidate base j ∈ existing).
Proof. apply unique_name_laws. Qed.

(** A free name, and a name whose first suffix is taken as well. *)
Lemma unique_name_fresh_witness :
  _unique_name #"a" [ #"b"] = #"a" /\ (_unique_name #"a" [ #"a"; #"a_1"] ∉ [ #"a"; #"a_1"]) /\
  _unique_name #"a" [ #"a"; #"a_1"] = #"a_2".
Proof.
  split_and!.
  - apply (unique_name_fresh #"a" [ #"b"]). by intros ?%list_elem_of_singleton.
  - apply (unique_name_fresh #"a" [ #"a"; #"a_1"]).
  - vm_compute. reflexivity.
Defined.

Section plan.
Context `{Unicode} `{PyFloat}.

Definition item_name (fallback : pystr) (raw : jobject) : pystr := json_str (default (JStr fallback) (dict_get raw #"name")).

Lemma plan_names_ok what fallback mode existing planned raws plan :
  NoDup planned -> (forall n, n ∈ planned -> n ∉ existing) ->
  plan_names what fallback mode existing planned raws = Ok plan ->
  plan.*2 = raws /\ NoDup (planned ++ plan.*1) /\ (forall n, n ∈ plan.*1 -> n ∉ existing) /\
  (mode = ConflictError -> plan.*1 = item_name fallback <$> raws).
Proof.
  revert planned plan. induction raws as [|raw raws IH]; intros planned plan Hnd Hex; cbn [plan_names].
  { intros [= <-]. rewrite app_nil_r. split_and!; try done. by intros n ?%elem_of_nil. }
  fold (item_name fallback raw). set (name0 := item_name fallback raw).
  intros (name & Hname & (rest & Hrest & [= <-])%bind_ok)%bind_ok.
  assert ((name ∉ existing) /\ (name ∉ planned) /\ (mode = ConflictError -> name = name0)) as (Hn1 & Hn2 & Hn3).
  { destruct (bool_decide (name0 ∈ existing) || bool_decide (name0 ∈ planned)) eqn:E.
    - destruct mode; [done|]. injection Hname as <-. pose proof (proj1 (unique_name_laws name0 (existing ++ planned))) as Hf.
      rewrite elem_of_app in Hf. split_and!; [tauto|tauto|done].
    - injection Hname as <-. apply orb_false_iff in E as [E1%bool_decide_eq_false E2%bool_decide_eq_false]. done. }
  apply IH in Hrest as (H2 & Hnd' & Hex' & Hm).
  - rewrite !fmap_cons. cbn [fst snd]. rewrite <- app_assoc in Hnd'. split_and!; [by rewrite H2|done| |].
    + intros n [->|Hin]%elem_of_cons; [done|by apply Hex'].
    + intros Hmode. by rewrite Hm, Hn3.
  - apply NoDup_app. split_and!; [done| |apply NoDup_singleton]. by intros n Hin ->%list_elem_of_singleton.
  - intros n [Hin| ->%list_elem_of_singleton]%elem_of_app; [by apply Hex|done].
Qed.

(** The name under which an item is created: its own if that is free, and otherwise, if
    conflicts are resolved by renaming, the first free one with a suffix. *)
Definition resolved (mode : conflict_mode) (taken : list pystr) (own name : pystr) : Prop :=
  ((own ∉ taken) /\ name = own) \/
  (own ∈ taken /\ mode = ConflictRename /\
   exists k, (1 <= k)%Z /\ name = candidate own k /\ (name ∉ taken) /\ forall j, (1 <= j < k)%Z -> candidate own j ∈ taken).
(** The items in their order, each with its name; a name that is given is taken from then on. *)
Inductive planned (fallback : pystr) (mode : conflict_mode) : list pystr -> list jobject -> list (pystr * jobject) -> Prop :=
| planned_nil taken : planned fallback mode taken [] []
| planned_cons taken raw raws name rest :
    resolved mode taken (item_name fallback raw) name -> planned fallback mode (taken ++ [name]) raws rest ->
    planned fallback mode taken (raw :: raws) ((name, raw) :: rest).
(** An item has a name that is taken, or that an item before it has. *)
Definition clash (fallback : pystr) (taken : list pystr) (raws : list jobject) : Prop :=
  exists before raw rest, raws = before ++ raw :: rest /\ item_name fallback raw ∈ taken ++ (item_name fallback <$> before).

Lemma clash_cons fallback taken raw raws : item_name fallback raw ∉ taken ->
  clash fallback taken (raw :: raws) <-> clash fallback (taken ++ [item_name fallback raw]) raws.
Proof.
  intros Hfree. split.
  - intros ([|raw' before] & r & rest & [= <- ->] & Hin); [by rewrite app_nil_r in Hin|].
    exists before, r, rest. split; [done|]. by rewrite <- app_assoc.
  - intros (before & r & rest & -> & Hin). exists (raw :: before), r, rest. split; [done|].
    by rewrite <- app_assoc in Hin.
Qed.

(** What planning gives: the plan, or a refusal, which needs a clash that is not resolved. *)
Lemma plan_names_spec what fallback mode existing given raws :
  match plan_names what fallback mode existing given raws with
  | Ok plan => planned fallback mode (existing ++ given) raws plan /\ (mode = ConflictError -> ~ clash fallback (existing ++ given) raws)
  | Raise e => mode = ConflictError /\ clash fallback (existing ++ given) raws /\ exn_type e = PackConflictError
  end.
Proof.
  revert given. induction raws as [|raw raws IH]; intros given; cbn [plan_names].
  { split; [constructor|]. by intros _ ([|] & ? & ? & ? & _). }
  fold (item_name fallback raw). set (own := item_name fallback raw).
  destruct (bool_decide (own ∈ existing) || bool_decide (own ∈ given)) eqn:E.
  - assert (own ∈ existing ++ given) as Hin.
    { apply elem_of_app. apply orb_true_iff in E as [?%bool_decide_eq_true|?%bool_decide_eq_true]; auto. }
    destruct mode; cbn [mbind res_bind].
    + split_and!; [done| |done]. exists [], raw, raws. split; [done|]. by rewrite app_nil_r.
    + specialize (IH (given ++ [_unique_name own (existing ++ given)])). rewrite app_assoc in IH.
      destruct (plan_names _ _ _ _ _ _) as [rest|e]; cbn [mbind res_bind]; [|by destruct IH].
      split; [|done]. constructor; [|apply IH]. right. split; [done|]. split; [done|].
      destruct (unique_name_laws own (existing ++ given)) as (Hf & _ & (k & Hk & Hn & Hbelow)%(fun f => f Hin)).
      exists k. split_and!; [lia|exact Hn|exact Hf|exact Hbelow].
  - assert (own ∉ existing ++ given) as Hout.
    { apply orb_false_iff in E as [?%bool_decide_eq_false ?%bool_decide_eq_false]. by apply not_elem_of_app. }
    cbn [mbind res_bind]. specialize (IH (given ++ [own])). rewrite app_assoc in IH.
    destruct (plan_names _ _ _ _ _ _) as [rest|e]; cbn [mbind res_bind]; rewrite (clash_cons fallback _ raw raws Hout);
      [|done]. destruct IH as [Hp Hc]. split; [|done]. constructor; [|done]. by left.
Qed.
End plan.

(** ** Rows, links and items of an installation *)

Fixpoint numbered {R} (n : uuid) (rows : list R) : list (uuid * R) :=
  match rows with [] => [] | row :: rows => (n, row) :: numbered (n + 1)%N rows end.
Definition link_of (pack_id : uuid) (item : PackInstallItemDTO) : link :=
  {| ln_pack_id := pack_id; ln_entity_type := it_entity_type item; ln_entity_id := default 0%N (it_entity_id item) |}.
Definition new_items {R} (entity_type : pystr) (n : uuid) (rows : list (pystr * R)) : list PackInstallItemDTO :=
  (fun kv => success_item entity_type kv.1 kv.2) <$> numbered n rows.*1.
Definition after (n : uuid) {R} (rows : list R) : uuid := (n + N.of_nat (length rows))%N.

Lemma numbered_app {R} n (rows rows' : list R) : numbered n (rows ++ rows') = numbered n rows ++ numbered (after n rows) rows'.
Proof.
  revert n. induction rows as [|row rows IH]; intros n; cbn; [unfold after; cbn; by rewrite N.add_0_r|].
  rewrite IH. unfold after. cbn [length]. do 3 f_equal. lia.
Qed.
Lemma numbered_fmap {R T} (f : R -> T) n (rows : list R) : numbered n (f <$> rows) = prod_map id f <$> numbered n rows.
Proof. revert n. induction rows as [|row rows IH]; intros n; cbn; [done|]. by rewrite IH. Qed.
Lemma numbered_rows {R} n (rows : list R) : (numbered n rows).*2 = rows.
Proof. revert n. induction rows as [|row rows IH]; intros n; cbn; [done|]. by rewrite IH. Qed.
Lemma numbered_ids {R} n (rows : list R) id : id ∈ (numbered n rows).*1 <-> (n <= id < after n rows)%N.
Proof.
  unfold after. revert n. induction rows as [|row rows IH]; intros n; cbn.
  - rewrite elem_of_nil. lia.
  - rewrite elem_of_cons, IH. cbn [length]. lia.
Qed.
Lemma numbered_NoDup {R} n (rows : list R) : NoDup (numbered n rows).*1.
Proof.
  revert n. induction rows as [|row rows IH]; intros n; cbn; constructor; [|done]. rewrite numbered_ids. lia.
Qed.
Lemma length_numbered {R} n (rows : list R) : length (numbered n rows) = length rows.
Proof. revert n. induction rows as [|row rows IH]; intros n; cbn; [done|]. by rewrite IH. Qed.

Lemma add_links_eq pack_id items s :
  add_links pack_id items s =
  set_links (set_next s (after (st_next s) items)) (st_links s ++ numbered (st_next s) (link_of pack_id <$> items)).
Proof.
  revert s. induction items as [|item items IH]; intros s; cbn [add_links].
  - unfold after. cbn. rewrite N.add_0_r, app_nil_r. by destruct s.
  - rewrite IH. unfold after. cbn. rewrite <- app_assoc. cbn.
    unfold set_links, set_next. cbn. f_equal. lia.
Qed.

(** The insertions of one kind: commands, or scripts. *)
Section rows.
Context {R : Type} (entity_type : pystr) (insert : uuid -> R -> store -> res store).
Context (get : store -> list (uuid * R)) (put : store -> list (uuid * R) -> store) (name : R -> pystr) (good : R -> Prop).
Context (insert_ok : forall id row s s', insert id row s = Ok s' ->
  s' = put s (get s ++ [(id, row)]) /\ (name row ∉ (name <$> (get s).*2)) /\ good row).
Context (get_put : forall s x, get (put s x) = x) (put_put : forall s x y, put (put s x) y = put s y)
  (put_get : forall s, put s (get s) = s) (get_next : forall s n, get (set_next s n) = get s)
  (next_put : forall s x, st_next (put s x) = st_next s) (put_next : forall s x n, set_next (put s x) n = put (set_next s n) x).

Lemma add_rows_ok rows s items s' : add_rows entity_type insert rows s = Ok (items, s') ->
  items = new_items entity_type (st_next s) rows /\
  s' = put (set_next s (after (st_next s) rows)) (get s ++ numbered (st_next s) rows.*2) /\
  NoDup (name <$> rows.*2) /\ Forall (fun r => (name r ∉ (name <$> (get s).*2)) /\ good r) rows.*2.
Proof.
  revert s s' items. induction rows as [|[n row] rows IH]; intros s s' items; cbn [add_rows].
  { intros [= <- <-]. cbn. unfold after. cbn. rewrite N.add_0_r, app_nil_r.
    replace (set_next s (st_next s)) with s by by destruct s. rewrite put_get. split_and!; try done; constructor. }
  intros (s1 & (-> & Hnew & Hgood)%insert_ok & ([items1 s2] & (-> & -> & Hnd & Hall)%IH & [= <- <-])%bind_ok)%bind_ok.
  rewrite get_next in *. rewrite !put_next, !next_put, get_put in *. cbn [st_next set_next] in *.
  unfold new_items. cbn. rewrite put_put, <- app_assoc. cbn. split; [done|]. split.
  { f_equal. unfold after, set_next. cbn. f_equal. lia. }
  rewrite !fmap_app in Hall. setoid_rewrite not_elem_of_app in Hall. rewrite Forall_forall in Hall. split.
  - constructor; [|done]. intros (r & E & Hin)%list_elem_of_fmap. destruct (Hall r Hin) as [[_ Hr] _].
    apply Hr. rewrite <- E. by apply list_elem_of_singleton.
  - constructor; [done|]. apply Forall_forall. intros r Hin. destruct (Hall r Hin) as [[? _] ?]. done.
Qed.

Context (bad : R -> exn -> Prop).
Context (insert_error : forall id row s e, insert id row s = Raise e -> name row ∈ (name <$> (get s).*2) \/ bad row e).

(** Rows with new names are refused only for what they hold. *)
Lemma add_rows_error rows s e : NoDup (name <$> rows.*2) -> Forall (fun r => name r ∉ (name <$> (get s).*2)) rows.*2 ->
  add_rows entity_type insert rows s = Raise e -> exists row, row ∈ rows.*2 /\ bad row e.
Proof.
  revert s. induction rows as [|[n row] rows IH]; intros s; cbn [add_rows]; [done|].
  rewrite !fmap_cons. cbn [fst snd]. intros [Hr Hnd]%NoDup_cons [Hnew Hall]%Forall_cons.
  destruct (insert (st_next s) row (set_next s (st_next s + 1)%N)) as [s1|e'] eqn:Ei; cbn [mbind res_bind].
  - apply insert_ok in Ei as (-> & _ & _). rewrite get_next.
    destruct (add_rows _ _ rows _) as [[items s2]|e'] eqn:Er; [done|]. intros [= <-].
    apply IH in Er as (r & Hin & Hb); [exists r; split; [by right|done]|done|].
    rewrite get_put, !fmap_app. apply Forall_forall. intros r Hin. rewrite Forall_forall in Hall.
    rewrite elem_of_app. intros [Hold|E%list_elem_of_singleton]; [by apply (Hall r)|].
    cbn in E. apply Hr. rewrite <- E. apply list_elem_of_fmap. by exists r.
  - intros [= <-]. apply insert_error in Ei as [Hin|Hb]; [by rewrite get_next in Hin|]. exists row. split; [by left|done].
Qed.
End rows.

(** ** Uninstalling *)

Definition linked (entity_type : pystr) (links : list (uuid * link)) : list uuid :=
  ln_entity_id <$> List.filter (fun l => str_eqb (ln_entity_type l) entity_type) links.*2.
Definition without {V} (ids : list uuid) (d : list (uuid * V)) : list (uuid * V) :=
  List.filter (fun kv => negb (bool_decide (kv.1 ∈ ids))) d.

Lemma without_nil {V} (d : list (uuid * V)) : without [] d = d.
Proof. apply forallb_filter_id, forallb_forall. intros kv _. by rewrite bool_decide_false by apply not_elem_of_nil. Qed.
Lemma pop_without {V} (d : list (uuid * V)) id ids : without ids (dict_pop d id) = without (id :: ids) d.
Proof.
  unfold without, dict_pop. induction d as [|[k v] d IH]; [done|]. cbn. destruct (decide (k = id)) as [->|Hne].
  - rewrite (bool_decide_true (id = id)), (bool_decide_true (id ∈ id :: ids)) by (done || by left). cbn. exact IH.
  - rewrite (bool_decide_false (k = id)) by done. cbn. rewrite IH.
    destruct (decide (k ∈ ids)); [rewrite !bool_decide_true by (done || by right)|rewrite !bool_decide_false]; try done.
    by intros [?|?]%elem_of_cons.
Qed.

Lemma linked_cons ty id l links :
  linked ty ((id, l) :: links) = if str_eqb (ln_entity_type l) ty then ln_entity_id l :: linked ty links else linked ty links.
Proof. unfold linked. cbn. by destruct (str_eqb (ln_entity_type l) ty). Qed.

Lemma drop_links_eq links s :
  fold_left drop_link links s =
  {| st_packs := st_packs s; st_commands := without (linked #"command" links) (st_commands s);
     st_scripts := without (linked #"script" links) (st_scripts s); st_links := without links.*1 (st_links s);
     st_assets := st_assets s; st_next := st_next s |}.
Proof.
  revert s. induction links as [|[id l] links IH]; intros s; cbn [fold_left].
  - unfold linked. cbn [fmap list_fmap List.filter]. rewrite !without_nil. by destruct s.
  - rewrite IH, !linked_cons, fmap_cons. unfold drop_link. cbn [fst snd].
    destruct (str_eqb (ln_entity_type l) #"command") eqn:E1; [|destruct (str_eqb (ln_entity_type l) #"script") eqn:E2].
    + unfold str_eqb in E1. apply bool_decide_eq_true in E1. rewrite E1.
      cbn [set_commands set_scripts set_links st_packs st_commands st_scripts st_links st_assets st_next].
      by rewrite !pop_without.
    + cbn [set_commands set_scripts set_links st_packs st_commands st_scripts st_links st_assets st_next].
      by rewrite !pop_without.
    + cbn [set_commands set_scripts set_links st_packs st_commands st_scripts st_links st_assets st_next].
      by rewrite !pop_without.
Qed.

(** ** Installing *)

Section install.
Context `{Unicode} `{PyFloat}.
Context (command_refused : command_row -> option exn) (script_refused : script_row -> option exn).
Local Abbreviation install_in := (_install_in_session command_refused script_refused).
Local Abbreviation install := (install_pack command_refused script_refused).
Local Abbreviation update := (update_pack command_refused script_refused).

(** The tables after an installation that created [cs] and [ss]. *)
Definition items_for (n : uuid) (cs : list command_row) (ss : list script_row) : list PackInstallItemDTO :=
  new_items #"command" n ((fun r => (cm_name r, r)) <$> cs) ++ new_items #"script" (after n cs) ((fun r => (sc_name r, r)) <$> ss).
Definition installed_store (pack_id : uuid) (p : pack) (now : Z) (cs : list command_row) (ss : list script_row) (s : store) : store :=
  let n := st_next s in
  let items := items_for n cs ss in
  let m := after (after n cs) ss in
  {| st_packs := match items with
                 | [] => st_packs s
                 | _ => dict_set (st_packs s) pack_id (set_installed (Some (pk_version p)) (Some now) now p)
                 end;
     st_commands := st_commands s ++ numbered n cs; st_scripts := st_scripts s ++ numbered (after n cs) ss;
     st_links := st_links s ++ numbered m (link_of pack_id <$> items);
     st_assets := st_assets s; st_next := after m items |}.

(** The rows of a pack: distinct new names, and the pack as their owner. *)
Definition new_commands (pack_id : uuid) (s : store) (cs : list command_row) : Prop :=
  NoDup (cm_name <$> cs) /\ Forall (fun r => (cm_name r ∉ (cm_name <$> (st_commands s).*2)) /\
    cm_template_pack_id r = Some pack_id /\ timeout_ok (cm_timeout r) = true) cs.
Definition new_scripts (pack_id : uuid) (s : store) (ss : list script_row) : Prop :=
  NoDup (sc_name <$> ss) /\ Forall (fun r => (sc_name r ∉ (sc_name <$> (st_scripts s).*2)) /\
    sc_template_pack_id r = Some pack_id /\ timeout_ok (sc_timeout r) = true) ss.

Lemma insert_command_ok id row s s' : insert_command command_refused id row s = Ok s' ->
  s' = set_commands s (st_commands s ++ [(id, row)]) /\ (cm_name row ∉ (cm_name <$> (st_commands s).*2)) /\
  timeout_ok (cm_timeout row) = true.
Proof.
  unfold insert_command. destruct (existsb _ _) eqn:E; [done|]. destruct (timeout_ok _) eqn:Et; [|done].
  destruct (command_refused row); [done|]. cbn [negb]. intros [= <-]. split; [done|]. split; [|done].
  intros (r & Hr & ([k r'] & -> & Hin)%list_elem_of_fmap)%list_elem_of_fmap.
  assert (existsb (fun kv => str_eqb (cm_name kv.2) (cm_name row)) (st_commands s) = true); [|congruence].
  apply existsb_exists. exists (k, r'). split; [by apply list_elem_of_In|]. by apply bool_decide_eq_true.
Qed.
Lemma insert_script_ok id row s s' : insert_script script_refused id row s = Ok s' ->
  s' = set_scripts s (st_scripts s ++ [(id, row)]) /\ (sc_name row ∉ (sc_name <$> (st_scripts s).*2)) /\
  timeout_ok (sc_timeout row) = true.
Proof.
  unfold insert_script. destruct (existsb _ _) eqn:E; [done|]. destruct (timeout_ok _) eqn:Et; [|done].
  destruct (script_refused row); [done|]. cbn [negb]. intros [= <-]. split; [done|]. split; [|done].
  intros (r & Hr & ([k r'] & -> & Hin)%list_elem_of_fmap)%list_elem_of_fmap.
  assert (existsb (fun kv => str_eqb (sc_name kv.2) (sc_name row)) (st_scripts s) = true); [|congruence].
  apply existsb_exists. exists (k, r'). split; [by apply list_elem_of_In|]. by apply bool_decide_eq_true.
Qed.

(** The items of a plan that pass the validation, and the reports of the others. *)
Definition accepted {R} (check : jobject -> res R) (plan : list (pystr * jobject)) : list (pystr * R) :=
  omap (fun item : pystr * jobject => match check (dict_set item.2 #"name" (JStr item.1)) with
                                      | Ok row => Some (item.1, row)
                                      | Raise _ => None
                                      end) plan.
Definition rejected {R} (entity_type : pystr) (check : jobject -> res R) (plan : list (pystr * jobject)) : list PackInstallItemDTO :=
  omap (fun item : pystr * jobject => match check (dict_set item.2 #"name" (JStr item.1)) with
                                      | Ok _ => None
                                      | Raise e => Some (error_item entity_type item.1 e)
                                      end) plan.
Lemma accepted_names {R} (check : jobject -> res R) plan : (accepted check plan).*1 `sublist_of` plan.*1.
Proof. induction plan as [|[name raw] plan IH]; cbn; [done|]. destruct (check _); cbn; by constructor. Qed.
Lemma length_accepted {R} entity_type (check : jobject -> res R) plan :
  length (accepted check plan) + length (rejected entity_type check plan) = length plan.
Proof. induction plan as [|[name raw] plan IH]; cbn; [done|]. destruct (check _); cbn; unfold accepted, rejected in *; lia. Qed.
Lemma accepted_in {R} (check : jobject -> res R) plan name row : (name, row) ∈ accepted check plan ->
  exists raw, (name, raw) ∈ plan /\ check (dict_set raw #"name" (JStr name)) = Ok row.
Proof.
  unfold accepted. intros ([n raw] & Hin & Hm)%list_elem_of_omap. cbn [fst snd] in Hm.
  destruct (check _) as [r|e] eqn:E; [|done]. injection Hm as <- <-. by exists raw.
Qed.
Lemma validate_items_eq {R} entity_type (check : jobject -> res R) plan : (forall payload, ordinary (check payload)) ->
  validate_items entity_type check plan = Ok (accepted check plan, rejected entity_type check plan).
Proof.
  intros Hc. induction plan as [|[name raw] plan IH]; cbn [validate_items]; [done|].
  unfold accepted, rejected in *. cbn [omap list_omap fst snd]. rewrite IH.
  destruct (check _) as [row|e] eqn:E; [done|]. by rewrite (ordinary_raise _ e (Hc _) E).
Qed.

(** The validators raise ordinary exceptions, which become items. *)
Lemma ordinary_name v what : ordinary (valid_name v what).
Proof. unfold valid_name. by repeat case_match. Qed.
Lemma ordinary_timeout payload v : ordinary (valid_timeout payload v).
Proof. unfold valid_timeout. by repeat case_match. Qed.
Lemma ordinary_list v : ordinary (py_list v).
Proof. by destruct v. Qed.
Lemma ordinary_steps v steps : ordinary (check_steps v steps).
Proof.
  induction steps as [|step steps IH]; [done|]. cbn [check_steps]. destruct step; try done.
  apply ordinary_bind; [|done]. by repeat case_match.
Qed.
#[local] Hint Resolve ordinary_name ordinary_timeout ordinary_list ordinary_steps : core.
Ltac solve_ordinary := repeat (apply ordinary_bind; [auto|intros]); try done.
Lemma ordinary_command payload : ordinary (_validate_command_payload payload).
Proof. unfold _validate_command_payload. solve_ordinary. by repeat case_match. Qed.
Lemma ordinary_script payload : ordinary (_validate_script_payload payload).
Proof. unfold _validate_script_payload. solve_ordinary. by repeat case_match. Qed.

(** The plans of an installation, the rows it creates and its conflicts. *)
Definition command_names (s : store) : list pystr := cm_name <$> (st_commands s).*2.
Definition script_names (s : store) : list pystr := sc_name <$> (st_scripts s).*2.
Definition plans (mode : conflict_mode) (p : pack) (s : store) (pcs pss : list (pystr * jobject)) : Prop :=
  planned #"command" mode (command_names s) (pk_commands p) pcs /\ planned #"script" mode (script_names s) (pk_scripts p) pss.
Definition pack_clash (p : pack) (s : store) : Prop :=
  clash #"command" (command_names s) (pk_commands p) \/ clash #"script" (script_names s) (pk_scripts p).
Definition command_rows (pack_id : uuid) (pcs : list (pystr * jobject)) : list command_row :=
  (fun nr => of_pack_command pack_id nr.1 nr.2) <$> accepted _validate_command_payload pcs.
Definition script_rows (pack_id : uuid) (pss : list (pystr * jobject)) : list script_row :=
  (fun nr => of_pack_script pack_id nr.1 nr.2) <$> accepted _validate_script_payload pss.

(** The result and the tables of an installation. *)
Definition install_spec (pack_id : uuid) (p : pack) (mode : conflict_mode) (now : Z) (s : store)
    (result : PackInstallResultDTO) (s' : store) : Prop :=
  exists pcs pss, plans mode p s pcs pss /\
    let cs := command_rows pack_id pcs in
    let ss := script_rows pack_id pss in
    let errors := rejected #"command" _validate_command_payload pcs ++ rejected #"script" _validate_script_payload pss in
    s' = installed_store pack_id p now cs ss s /\ new_commands pack_id s cs /\ new_scripts pack_id s ss /\
    ir_pack_id result = pack_id /\ ir_version result = pk_version p /\
    ir_results result = items_for (st_next s) cs ss ++ errors /\
    ir_succeeded result = Z.of_nat (length cs + length ss) /\ ir_failed result = Z.of_nat (length errors) /\
    ir_total result = Z.of_nat (length (pk_commands p) + length (pk_scripts p)).

Lemma length_items n cs ss : length (items_for n cs ss) = length cs + length ss.
Proof. unfold items_for, new_items. by rewrite length_app, !length_fmap, !length_numbered, !length_fmap. Qed.

Lemma empty_installation pack_id p now s : installed_store pack_id p now [] [] s = s.
Proof. unfold installed_store, after. cbn. rewrite !N.add_0_r, !app_nil_r. by destruct s. Qed.

Lemma names_snd {R} (f : R -> pystr) (d : list (uuid * R)) : (fun kv => f kv.2) <$> d = f <$> d.*2.
Proof. by rewrite <- list_fmap_compose. Qed.

Lemma after_fmap {A B} (f : A -> B) n (rows : list A) : after n (f <$> rows) = after n rows.
Proof. unfold after. by rewrite length_fmap. Qed.

Lemma pair_snd {R} (f : R -> pystr) (rows : list R) : ((fun r => (f r, r)) <$> rows).*2 = rows.
Proof. induction rows as [|r rows IH]; [done|]. cbn. by f_equal. Qed.

(** The rows with their names, as they are inserted. *)
Lemma named_rows {R} (name : R -> pystr) (f : pystr * R -> R) (rows : list (pystr * R)) : (forall nr, name (f nr) = nr.1) ->
  (fun nr => (nr.1, f nr)) <$> rows = (fun r => (name r, r)) <$> (f <$> rows).
Proof. intros Hn. rewrite <- list_fmap_compose. apply list_fmap_ext. intros i nr _. cbn. by rewrite Hn. Qed.

Lemma install_items_ok pack_id p mode now s result s' :
  install_items command_refused script_refused pack_id p mode now s = Ok (result, s') ->
  install_spec pack_id p mode now s result s' /\ (mode = ConflictError -> ~ pack_clash p s).
Proof.
  unfold install_items. rewrite !names_snd. fold (command_names s) (script_names s).
  intros (pcs & Hpc & (pss & Hps & Hrest)%bind_ok)%bind_ok.
  pose proof (plan_names_spec #"Command" #"command" mode (command_names s) [] (pk_commands p)) as Hc. rewrite Hpc, app_nil_r in Hc.
  pose proof (plan_names_spec #"Script" #"script" mode (script_names s) [] (pk_scripts p)) as Hs. rewrite Hps, app_nil_r in Hs.
  destruct Hc as [Hc Hcc], Hs as [Hs Hsc]. split; [|intros Hm [?|?]; [by apply Hcc|by apply Hsc]]. clear Hcc Hsc.
  apply plan_names_ok in Hpc as (Hc2 & _ & _ & _); [|by apply NoDup_nil_2|by intros ? ?%elem_of_nil].
  apply plan_names_ok in Hps as (Hs2 & _ & _ & _); [|by apply NoDup_nil_2|by intros ? ?%elem_of_nil].
  rewrite (validate_items_eq #"command" _ pcs ordinary_command), (validate_items_eq #"script" _ pss ordinary_script) in Hrest.
  cbn [mbind res_bind] in Hrest.
  rewrite (named_rows cm_name (fun nr => of_pack_command pack_id nr.1 nr.2)) in Hrest by done.
  rewrite (named_rows sc_name (fun nr => of_pack_script pack_id nr.1 nr.2)) in Hrest by done.
  fold (command_rows pack_id pcs) (script_rows pack_id pss) in Hrest.
  apply bind_ok in Hrest as ([citems s1] & Hcs & Hrest). apply bind_ok in Hrest as ([sitems s2] & Hss & [= <- <-]).
  apply (add_rows_ok _ _ st_commands set_commands cm_name (fun r => timeout_ok (cm_timeout r) = true)) in Hcs
    as (-> & -> & Hcn & Hcall); [|apply insert_command_ok|by intros []..].
  apply (add_rows_ok _ _ st_scripts set_scripts sc_name (fun r => timeout_ok (sc_timeout r) = true)) in Hss
    as (-> & -> & Hsn & Hsall); [|apply insert_script_ok|by intros []..].
  rewrite !pair_snd in *. exists pcs, pss. split; [done|]. cbn zeta. split; [|split; [|split]].
  - rewrite add_links_eq. unfold mark_installed, installed_store, items_for, after. cbn. rewrite !length_fmap.
    by destruct (new_items _ _ _ ++ new_items _ _ _).
  - split; [done|]. apply Forall_forall. intros r Hr. rewrite Forall_forall in Hcall. destruct (Hcall r Hr) as [??].
    apply list_elem_of_fmap in Hr as (nr & -> & _). done.
  - split; [done|]. apply Forall_forall. intros r Hr. rewrite Forall_forall in Hsall. destruct (Hsall r Hr) as [??].
    apply list_elem_of_fmap in Hr as (nr & -> & _). done.
  - pose proof (length_items (st_next s) (command_rows pack_id pcs) (script_rows pack_id pss)) as Hitems.
    unfold items_for in Hitems. cbn [st_next set_next set_commands ir_pack_id ir_version ir_results ir_succeeded ir_failed ir_total].
    rewrite !after_fmap in *. rewrite Hitems. split_and!; try done.
    unfold command_rows, script_rows. rewrite length_app, !length_fmap.
    pose proof (length_accepted #"command" _validate_command_payload pcs). pose proof (length_accepted #"script" _validate_script_payload pss).
    apply (f_equal length) in Hc2, Hs2. rewrite length_fmap in Hc2, Hs2. lia.
Qed.

Lemma install_in_ok pack_id p mode now s result s' : install_in pack_id p mode now s = Ok (result, s') ->
  pk_installed_version p = None /\ install_spec pack_id p mode now s result s' /\ (mode = ConflictError -> ~ pack_clash p s).
Proof.
  unfold _install_in_session. destruct (pk_installed_version p); [done|]. intros Hi. split; [done|].
  destruct (pk_commands p) as [|c cs] eqn:Ec, (pk_scripts p) as [|c' ss] eqn:Es; try by apply install_items_ok.
  injection Hi as <- <-. split.
  - exists [], []. unfold plans. rewrite Ec, Es. split; [split; constructor|]. cbn. rewrite empty_installation.
    split_and!; try done; split; by constructor || apply NoDup_nil_2.
  - unfold pack_clash. rewrite Ec, Es. by intros _ [([|] & ? & ? & ? & _)|([|] & ? & ? & ? & _)].
Qed.
(** What other laws need of it. *)
Lemma install_in_rows pack_id p mode now s result s' : install_in pack_id p mode now s = Ok (result, s') ->
  pk_installed_version p = None /\
  exists cs ss, s' = installed_store pack_id p now cs ss s /\ new_commands pack_id s cs /\ new_scripts pack_id s ss.
Proof. intros (Hp & (pcs & pss & _ & Hs & Hc & Hss & _) & _)%install_in_ok. split; [done|]. by do 2 eexists. Qed.

(** Why a row is refused. *)
Definition command_bad (r : command_row) (e : exn) : Prop :=
  (timeout_ok (cm_timeout r) = false /\ exn_type e = IntegrityError) \/ command_refused r = Some e.
Definition script_bad (r : script_row) (e : exn) : Prop :=
  (timeout_ok (sc_timeout r) = false /\ exn_type e = IntegrityError) \/ script_refused r = Some e.

Lemma existsb_name {R} (f : R -> pystr) n (d : list (uuid * R)) :
  existsb (fun kv => str_eqb (f kv.2) n) d = true -> n ∈ (f <$> d.*2).
Proof.
  intros ([k r] & Hin & E)%existsb_exists. apply bool_decide_eq_true in E. apply list_elem_of_fmap. exists r.
  split; [done|]. apply list_elem_of_fmap. exists (k, r). split; [done|]. by apply list_elem_of_In.
Qed.
Lemma insert_command_error id row s e : insert_command command_refused id row s = Raise e ->
  cm_name row ∈ (cm_name <$> (st_commands s).*2) \/ command_bad row e.
Proof.
  unfold insert_command, command_bad. destruct (existsb _ _) eqn:E; [apply existsb_name in E; by left|].
  destruct (timeout_ok _) eqn:Et; [|intros [= <-]; right; by left]. cbn [negb].
  destruct (command_refused row); [|done]. intros [= <-]. right. by right.
Qed.
Lemma insert_script_error id row s e : insert_script script_refused id row s = Raise e ->
  sc_name row ∈ (sc_name <$> (st_scripts s).*2) \/ script_bad row e.
Proof.
  unfold insert_script, script_bad. destruct (existsb _ _) eqn:E; [apply existsb_name in E; by left|].
  destruct (timeout_ok _) eqn:Et; [|intros [= <-]; right; by left]. cbn [negb].
  destruct (script_refused row); [|done]. intros [= <-]. right. by right.
Qed.

(** A row that the installation would create, and that the table refuses. *)
Definition install_refusal (pack_id : uuid) (p : pack) (mode : conflict_mode) (s : store) (e : exn) : Prop :=
  exists pcs pss, plans mode p s pcs pss /\
    ((exists r, r ∈ command_rows pack_id pcs /\ command_bad r e) \/ (exists r, r ∈ script_rows pack_id pss /\ script_bad r e)).

Lemma sublist_names (vs : list pystr) (ps existing : list pystr) : vs `sublist_of` ps -> NoDup ps ->
  (forall n, n ∈ ps -> n ∉ existing) -> NoDup vs /\ forall n, n ∈ vs -> n ∉ existing.
Proof.
  intros Hs Hnd Hex. split; [by eapply sublist_NoDup|]. intros n Hn. apply Hex. eapply elem_of_submseteq; [exact Hn|].
  by apply sublist_submseteq.
Qed.

Lemma install_items_error pack_id p mode now s e :
  install_items command_refused script_refused pack_id p mode now s = Raise e ->
  (mode = ConflictError /\ pack_clash p s /\ exn_type e = PackConflictError) \/
  ((mode = ConflictError -> ~ pack_clash p s) /\ install_refusal pack_id p mode s e).
Proof.
  unfold install_items. rewrite !names_snd. fold (command_names s) (script_names s).
  pose proof (plan_names_spec #"Command" #"command" mode (command_names s) [] (pk_commands p)) as Hc.
  pose proof (plan_names_spec #"Script" #"script" mode (script_names s) [] (pk_scripts p)) as Hs.
  rewrite app_nil_r in Hc, Hs.
  destruct (plan_names #"Command" _ _ _ _ _) as [pcs|e'] eqn:Ec; [|intros [= <-]; destruct Hc as (? & ? & ?); left; split; [done|]; split; [by left|done]].
  destruct (plan_names #"Script" _ _ _ _ _) as [pss|e'] eqn:Es; [|intros [= <-]; destruct Hs as (? & ? & ?); left; split; [done|]; split; [by right|done]].
  destruct Hc as [Hc Hcc], Hs as [Hs Hsc]. intros Hrest. right. split; [intros Hm [?|?]; [by apply Hcc|by apply Hsc]|].
  exists pcs, pss. split; [done|]. clear Hcc Hsc Hc Hs.
  apply plan_names_ok in Ec as (_ & Hcnd & Hcex & _); [|by apply NoDup_nil_2|by intros ? ?%elem_of_nil].
  apply plan_names_ok in Es as (_ & Hsnd & Hsex & _); [|by apply NoDup_nil_2|by intros ? ?%elem_of_nil].
  cbn [mbind res_bind] in Hrest.
  rewrite (validate_items_eq #"command" _ pcs ordinary_command), (validate_items_eq #"script" _ pss ordinary_script) in Hrest.
  cbn [mbind res_bind] in Hrest.
  rewrite (named_rows cm_name (fun nr => of_pack_command pack_id nr.1 nr.2)) in Hrest by done.
  rewrite (named_rows sc_name (fun nr => of_pack_script pack_id nr.1 nr.2)) in Hrest by done.
  fold (command_rows pack_id pcs) (script_rows pack_id pss) in Hrest.
  destruct (sublist_names _ _ _ (accepted_names _validate_command_payload pcs) Hcnd Hcex) as [Hn1 Hn2].
  destruct (sublist_names _ _ _ (accepted_names _validate_script_payload pss) Hsnd Hsex) as [Hm1 Hm2].
  assert (cm_name <$> command_rows pack_id pcs = (accepted _validate_command_payload pcs).*1) as E1
    by (unfold command_rows; rewrite <- list_fmap_compose; by apply list_fmap_ext).
  assert (sc_name <$> script_rows pack_id pss = (accepted _validate_script_payload pss).*1) as E2
    by (unfold script_rows; rewrite <- list_fmap_compose; by apply list_fmap_ext).
  destruct (add_rows #"command" _ _ s) as [[items s1]|e1] eqn:Ea; cbn [mbind res_bind] in Hrest.
  - apply (add_rows_ok _ _ st_commands set_commands cm_name (fun r => timeout_ok (cm_timeout r) = true)) in Ea
      as (_ & -> & _ & _); [|apply insert_command_ok|by intros []..].
    destruct (add_rows #"script" _ _ _) as [[items2 s2]|e2] eqn:Eb; cbn [mbind res_bind] in Hrest; [done|].
    injection Hrest as <-. right.
    eapply (add_rows_error _ _ st_scripts set_scripts sc_name (fun r => timeout_ok (sc_timeout r) = true)) in Eb
      as (row & Hin & Hbad); [|apply insert_script_ok|by intros []..|apply insert_script_error|by rewrite pair_snd, E2|].
    + rewrite pair_snd in Hin. by exists row.
    + rewrite !pair_snd. apply Forall_forall. intros r Hr. apply Hm2. rewrite <- E2. apply list_elem_of_fmap. by exists r.
  - injection Hrest as <-. left.
    eapply (add_rows_error _ _ st_commands set_commands cm_name (fun r => timeout_ok (cm_timeout r) = true)) in Ea
      as (row & Hin & Hbad); [|apply insert_command_ok|by intros []..|apply insert_command_error|by rewrite pair_snd, E1|].
    + rewrite pair_snd in Hin. by exists row.
    + rewrite pair_snd. apply Forall_forall. intros r Hr. apply Hn2. rewrite <- E1. apply list_elem_of_fmap. by exists r.
Qed.

(** C23: an installation creates, for each item of a pack that is not installed, in their order,
    the row that the validation of the item gives, owned by the pack, remembered by a link and
    reported as a success, or reports the error of the validation; a row has the name of its
    item if no row and no item before has it, and else the first free one with a suffix; the
    pack is marked as installed if anything was created. It fails, and then changes nothing,
    exactly if there is no such pack, if it is installed, if a name is taken or repeated and
    conflicts are not to be resolved by renaming, or when the table refuses a row that passed
    the validation, such as one whose timeout is out of range. *)
Theorem install_pack_outcome (pack_id : uuid) (mode : conflict_mode) (now : Z) (s : store) :
  let '(r, s') := install pack_id mode now s in
  match dict_get (st_packs s) pack_id, r with
  | None, Ok _ => False
  | None, Raise e => s' = s /\ exn_type e = PackNotFoundError
  | Some p, Ok result =>
      pk_installed_version p = None /\ install_spec pack_id p mode now s result s' /\ (mode = ConflictError -> ~ pack_clash p s)
  | Some p, Raise e =>
      s' = s /\
      match pk_installed_version p with
      | Some _ => exn_type e = PackConflictError
      | None =>
          (mode = ConflictError /\ pack_clash p s /\ exn_type e = PackConflictError) \/
          ((mode = ConflictError -> ~ pack_clash p s) /\ install_refusal pack_id p mode s e)
      end
  end.
Proof.
  unfold install_pack, transaction, with_pack. destruct (dict_get (st_packs s) pack_id) as [p|]; [|done].
  destruct (install_in pack_id p mode now s) as [[result s']|e] eqn:E; [by eapply install_in_ok|]. split; [done|].
  unfold _install_in_session in E. destruct (pk_installed_version p); [by injection E as <-|].
  destruct (pk_commands p) as [|c cs] eqn:Ec, (pk_scripts p) as [|c' ss] eqn:Es; [done|..]; by eapply install_items_error.
Qed.

(** Updating a pack is uninstalling and installing it in one step: when the installation
    fails, on a name that is taken for instance, the uninstallation is undone as well, and the
    pack stays installed with its old rows. *)
Theorem update_is_reinstallation (pack_id : uuid) (mode : conflict_mode) (now : Z) (s : store) :
  update pack_id mode now s =
  let '(r1, s1) := uninstall_pack pack_id now s in
  let '(r2, s2) := install pack_id mode now s1 in
  match r1, r2 with
  | Ok _, Ok result => (Ok result, s2)
  | Raise e, _ | _, Raise e => (Raise e, s)
  end.
Proof.
  unfold update_pack, uninstall_pack, install_pack, transaction, with_pack.
  destruct (dict_get (st_packs s) pack_id) as [p|] eqn:Ep; cbn beta iota.
  2:{ unfold raise. cbn beta iota. by rewrite Ep. }
  unfold _uninstall_in_session at 2. cbn [st_packs set_packs]. rewrite dict_get_set_eq.
  by destruct (install_in _ _ mode now _) as [[result s']|e].
Qed.
End install.
