(* ===== verification/PackInv.v ===== *)
(** * The invariant of the template pack tables

    What holds of the tables of [Packs] after any history of its operations and of the
    changes users make to commands and scripts, and the round trip of installing and
    uninstalling in any such state. *)
From S2P Require Import Prelude PyStr Errors Json Dto Bytes Assets Packs PackSpec.

Definition identity (p : pack) : option uuid * pystr := (pk_registry_id p, pk_pack_id p).
Definition below {V} (n : uuid) (d : list (uuid * V)) : Prop := forall k, k ∈ d.*1 -> (k < n)%N.

Record store_inv (s : store) : Prop := {
  si_packs : NoDup (st_packs s).*1 /\ below (st_next s) (st_packs s);
  si_commands : NoDup (st_commands s).*1 /\ below (st_next s) (st_commands s);
  si_scripts : NoDup (st_scripts s).*1 /\ below (st_next s) (st_scripts s);
  si_links : NoDup (st_links s).*1 /\ below (st_next s) (st_links s);
  si_command_names : NoDup (cm_name <$> (st_commands s).*2);
  si_script_names : NoDup (sc_name <$> (st_scripts s).*2);
  si_identity : NoDup (identity <$> (st_packs s).*2);
  si_linked : forall l, l ∈ (st_links s).*2 -> exists p, dict_get (st_packs s) (ln_pack_id l) = Some p /\ is_installed p = true;
  si_installed : forall id p, dict_get (st_packs s) id = Some p -> is_installed p = true ->
    exists l, l ∈ (st_links s).*2 /\ ln_pack_id l = id;
  si_owned_commands : forall id r q, (id, r) ∈ st_commands s -> cm_template_pack_id r = Some q ->
    {| ln_pack_id := q; ln_entity_type := #"command"; ln_entity_id := id |} ∈ (st_links s).*2;
  si_owned_scripts : forall id r q, (id, r) ∈ st_scripts s -> sc_template_pack_id r = Some q ->
    {| ln_pack_id := q; ln_entity_type := #"script"; ln_entity_id := id |} ∈ (st_links s).*2 }.

(** ** Dictionaries *)


Lemma sublist_map {A B} (f : A -> B) (l k : list A) : l `sublist_of` k -> (f <$> l) `sublist_of` (f <$> k).
Proof. induction 1; cbn; by constructor. Qed.
Lemma filter_sublist {V} (f : uuid * V -> bool) d : List.filter f d `sublist_of` d.
Proof. induction d as [|kv d IH]; cbn; [done|]. destruct (f kv); by constructor. Qed.

Lemma below_filter {V} n (f : uuid * V -> bool) d : below n d -> below n (List.filter f d).
Proof.
  intros Hb k Hin. apply Hb. eapply elem_of_submseteq; [exact Hin|]. apply sublist_submseteq, sublist_map, filter_sublist.
Qed.
Lemma NoDup_filter_snd {V B} (g : V -> B) (f : uuid * V -> bool) d : NoDup (g <$> d.*2) -> NoDup (g <$> (List.filter f d).*2).
Proof. intros Hnd. eapply sublist_NoDup; [exact Hnd|]. do 2 apply sublist_map. apply filter_sublist. Qed.

Lemma below_mono {V} n m (d : list (uuid * V)) : (n <= m)%N -> below n d -> below m d.
Proof. intros Hle Hb k Hk. specialize (Hb k Hk). lia. Qed.
Lemma fresh_app {V} n (d e : list (uuid * V)) : NoDup d.*1 -> below n d -> NoDup e.*1 -> (forall k, k ∈ e.*1 -> (n <= k)%N) ->
  NoDup (d ++ e).*1.
Proof.
  intros Hd Hb He Hn. rewrite fmap_app. apply NoDup_app. split_and!; [done| |done].
  intros k Hk Hk'. specialize (Hb k Hk). specialize (Hn k Hk'). lia.
Qed.

(** Replacing the value of a key. *)
Lemma dict_set_snd {V B} (g : V -> B) (d : list (uuid * V)) k v v' : dict_get d k = Some v -> g v' = g v ->
  g <$> (dict_set d k v').*2 = g <$> d.*2.
Proof.
  intros Hg Hv. induction d as [|[j u] d IH]; [done|]. cbn in *. case_decide as E.
  - cbn. f_equal. by simplify_eq.
  - cbn. f_equal. by apply IH.
Qed.
Lemma dict_set_fst {V} (d : list (uuid * V)) k v v' : dict_get d k = Some v -> (dict_set d k v').*1 = d.*1.
Proof.
  intros Hg. rewrite dict_set_keys. rewrite decide_True; [done|]. apply dict_get_elem in Hg. by eapply elem_fst.
Qed.
Lemma dict_set_twice {V} (d : list (uuid * V)) k v v' : dict_set (dict_set d k v) k v' = dict_set d k v'.
Proof.
  induction d as [|[j u] d IH]; cbn; [by rewrite decide_True|]. destruct (decide (j = k)) as [->|Hne]; cbn.
  - by rewrite decide_True.
  - rewrite decide_False by done. by rewrite IH.
Qed.

(** ** Operations that keep links and rows *)

(** Packs rewritten one by one, with their identity and state of installation. *)
Lemma inv_repack s packs next assets : store_inv s ->
  packs.*1 = (st_packs s).*1 -> NoDup (identity <$> packs.*2) ->
  (forall id, is_installed <$> dict_get packs id = is_installed <$> dict_get (st_packs s) id) ->
  (st_next s <= next)%N ->
  store_inv {| st_packs := packs; st_commands := st_commands s; st_scripts := st_scripts s; st_links := st_links s;
               st_assets := assets; st_next := next |}.
Proof.
  intros [[Hp Hpb] [Hc Hcb] [Hs Hsb] [Hl Hlb] Hcn Hsn Hi Hlk Hin Hoc Hos] Hkeys Hid Hinst Hnext.
  assert (below (st_next s) packs) as Hb by (intros k; unfold below in Hpb; rewrite Hkeys; apply Hpb).
  split; cbn; try done; try (split; [congruence|by eapply below_mono]); try (split; [done|by eapply below_mono]).
  - intros l Hl'. destruct (Hlk l Hl') as (p & Hg & Hi'). specialize (Hinst (ln_pack_id l)). rewrite Hg in Hinst.
    destruct (dict_get packs (ln_pack_id l)) as [p'|] eqn:E; [|done]. exists p'. split; [done|]. cbn in Hinst. congruence.
  - intros id p Hg Hi'. specialize (Hinst id). rewrite Hg in Hinst.
    destruct (dict_get (st_packs s) id) as [p'|] eqn:E; [|done]. cbn in Hinst. apply (Hin id p'); [done|congruence].
Qed.

Lemma inv_set_pack s id p p' next assets : store_inv s -> dict_get (st_packs s) id = Some p -> identity p' = identity p ->
  is_installed p' = is_installed p -> (st_next s <= next)%N ->
  store_inv {| st_packs := dict_set (st_packs s) id p'; st_commands := st_commands s; st_scripts := st_scripts s;
               st_links := st_links s; st_assets := assets; st_next := next |}.
Proof.
  intros Hs Hg Hi Hinst Hn. apply inv_repack; [done| | | |done].
  - by eapply dict_set_fst.
  - rewrite (dict_set_snd identity _ _ p) by done. apply Hs.
  - intros j. destruct (decide (j = id)) as [->|Hne]; [|by rewrite dict_get_set_ne].
    rewrite dict_get_set_eq, Hg. cbn. by rewrite Hinst.
Qed.

(** A new pack, not installed. *)
Lemma inv_add_pack s p next assets : store_inv s -> is_installed p = false ->
  (identity p ∉ (identity <$> (st_packs s).*2)) -> (st_next s + 1 <= next)%N ->
  store_inv {| st_packs := st_packs s ++ [(st_next s, p)]; st_commands := st_commands s; st_scripts := st_scripts s;
               st_links := st_links s; st_assets := assets; st_next := next |}.
Proof.
  intros [[Hp Hpb] [Hc Hcb] [Hs Hsb] [Hl Hlb] Hcn Hsn Hi Hlk Hin Hoc Hos] Hinst Hid Hnext.
  split; cbn; try done; try (split; [done|eapply below_mono; [|done]; lia]).
  - split.
    + apply (fresh_app (st_next s)); [done|done|by apply NoDup_singleton|]. intros k ->%list_elem_of_singleton. done.
    + intros k. rewrite fmap_app, elem_of_app. intros [Hk| ->%list_elem_of_singleton]; [specialize (Hpb k Hk); lia|cbn; lia].
  - rewrite !fmap_app. apply NoDup_app. split_and!; [done| |apply NoDup_singleton]. by intros x Hx ->%list_elem_of_singleton.
  - intros l Hl'. destruct (Hlk l Hl') as (q & Hg & Hq). exists q. by rewrite dict_get_app_new, Hg.
  - intros id q. rewrite dict_get_app_new. destruct (dict_get (st_packs s) id) as [q'|] eqn:E; [intros [= <-]; by eapply Hin|].
    case_decide; [intros [= <-]; congruence|done].
Qed.

(** ** Uninstalling *)

Lemma elem_without {V} ids (d : list (uuid * V)) kv : kv ∈ without ids d <-> kv ∈ d /\ (kv.1 ∉ ids).
Proof. unfold without. rewrite elem_filter, negb_true_iff, bool_decide_eq_false. done. Qed.

Lemma linked_elem ty links id : id ∈ linked ty links <-> exists l, l ∈ links.*2 /\ ln_entity_type l = ty /\ ln_entity_id l = id.
Proof.
  unfold linked. rewrite list_elem_of_fmap. setoid_rewrite list_elem_of_In at 1. setoid_rewrite filter_In.
  setoid_rewrite <- list_elem_of_In. unfold str_eqb. setoid_rewrite bool_decide_eq_true. split.
  - intros (l & -> & Hl & Ht). by exists l.
  - intros (l & Hl & Ht & <-). by exists l.
Qed.

Lemma links_of_elem id s l : l ∈ (links_of id s).*2 <-> l ∈ (st_links s).*2 /\ ln_pack_id l = id.
Proof.
  rewrite !elem_snd. unfold links_of. setoid_rewrite elem_filter. cbn. setoid_rewrite bool_decide_eq_true. naive_solver.
Qed.

Lemma without_links_of id s l : NoDup (st_links s).*1 ->
  l ∈ (without (links_of id s).*1 (st_links s)).*2 <-> l ∈ (st_links s).*2 /\ ln_pack_id l <> id.
Proof.
  intros Hnd. rewrite !elem_snd. setoid_rewrite elem_without. cbn. split.
  - intros (k & Hin & Hk). split; [by exists k|]. intros <-. apply Hk, (elem_fst _ k l). unfold links_of. apply elem_filter.
    split; [done|]. by apply bool_decide_eq_true.
  - intros ((k & Hin) & Hne). exists k. split; [done|]. intros ([k' l'] & -> & Hin')%list_elem_of_fmap.
    unfold links_of in Hin'. apply elem_filter in Hin' as [Hin' Hp]. cbn in *. apply bool_decide_eq_true in Hp.
    apply (dict_get_NoDup _ _ _ Hnd) in Hin, Hin'. congruence.
Qed.

Lemma inv_uninstall s id p now : store_inv s -> dict_get (st_packs s) id = Some p ->
  store_inv (_uninstall_in_session id p now s).
Proof.
  intros [[Hp Hpb] [Hc Hcb] [Hs Hsb] [Hl Hlb] Hcn Hsn Hi Hlk Hin Hoc Hos] Hg.
  unfold _uninstall_in_session. rewrite drop_links_eq. set (ls := links_of id s).
  assert (forall q l, dict_get (st_packs s) (ln_pack_id l) = Some q -> ln_pack_id l <> id ->
    dict_get (dict_set (st_packs s) id (set_installed None None now p)) (ln_pack_id l) = Some q) as Hget.
  { intros q l Hq Hne. by rewrite dict_get_set_ne. }
  split; cbn.
  - split; [by erewrite dict_set_fst|]. intros k. erewrite dict_set_fst by done. apply Hpb.
  - split; [by apply filter_keys|by apply below_filter].
  - split; [by apply filter_keys|by apply below_filter].
  - split; [by apply filter_keys|by apply below_filter].
  - by apply NoDup_filter_snd.
  - by apply NoDup_filter_snd.
  - by rewrite (dict_set_snd identity _ _ p).
  - intros l [Hl' Hne]%without_links_of; [|done]. destruct (Hlk l Hl') as (q & Hq & Hqi). exists q. by rewrite (Hget q).
  - intros j q. destruct (decide (j = id)) as [->|Hne]; [rewrite dict_get_set_eq; by intros [= <-]|].
    rewrite dict_get_set_ne by done. intros Hq Hqi. destruct (Hin j q Hq Hqi) as (l & Hl' & <-).
    exists l. split; [|done]. by apply without_links_of.
  - intros rid r q Hr Hq. apply elem_without in Hr as [Hr Hnot]. cbn in Hnot. specialize (Hoc rid r q Hr Hq).
    apply without_links_of; [done|]. split; [done|]. cbn. intros ->. apply Hnot, linked_elem. eexists.
    split; [apply links_of_elem; split; [exact Hoc|done]|done].
  - intros rid r q Hr Hq. apply elem_without in Hr as [Hr Hnot]. cbn in Hnot. specialize (Hos rid r q Hr Hq).
    apply without_links_of; [done|]. split; [done|]. cbn. intros ->. apply Hnot, linked_elem. eexists.
    split; [apply links_of_elem; split; [exact Hos|done]|done].
Qed.

(** Nothing refers to an uninstalled pack. *)
Lemma uninstalled_no_links s id p now l : NoDup (st_links s).*1 ->
  l ∈ (st_links (_uninstall_in_session id p now s)).*2 -> ln_pack_id l <> id.
Proof. intros Hnd. unfold _uninstall_in_session. rewrite drop_links_eq. cbn. by intros [_ ?]%without_links_of. Qed.

Lemma inv_forget s id : store_inv s -> (forall l, l ∈ (st_links s).*2 -> ln_pack_id l <> id) -> store_inv (forget_pack id s).
Proof.
  intros [[Hp Hpb] [Hc Hcb] [Hs Hsb] [Hl Hlb] Hcn Hsn Hi Hlk Hin Hoc Hos] Hno. unfold forget_pack.
  assert (forall l, l ∈ (List.filter (fun kv => negb (bool_decide (ln_pack_id kv.2 = id))) (st_links s)).*2 <-> l ∈ (st_links s).*2) as Hlinks.
  { intros l. rewrite !elem_snd. setoid_rewrite elem_filter. cbn. setoid_rewrite negb_true_iff. setoid_rewrite bool_decide_eq_false.
    split; [by intros (k & ? & _); exists k|]. intros [k Hk]. exists k. split; [done|]. apply Hno, elem_snd. by exists k. }
  split; cbn.
  - split; [by apply filter_keys|by apply below_filter].
  - unfold below. rewrite <- list_fmap_compose. done.
  - unfold below. rewrite <- list_fmap_compose. done.
  - split; [by apply filter_keys|by apply below_filter].
  - rewrite <- !list_fmap_compose in *. erewrite list_fmap_ext; [exact Hcn|]. intros i [k r] _. cbn. by case_bool_decide.
  - rewrite <- !list_fmap_compose in *. erewrite list_fmap_ext; [exact Hsn|]. intros i [k r] _. cbn. by case_bool_decide.
  - by apply NoDup_filter_snd.
  - intros l Hl'%Hlinks. destruct (Hlk l Hl') as (q & Hq & Hqi). exists q. rewrite dict_get_pop_ne; [done|].
    intros E. by apply (Hno l).
  - intros j q Hq Hqi. destruct (decide (j = id)) as [->|Hne]; [by rewrite dict_get_pop_eq in Hq|].
    rewrite dict_get_pop_ne in Hq by done. destruct (Hin j q Hq Hqi) as (l & Hl' & <-). exists l. split; [by apply Hlinks|done].
  - intros rid r q Hr Hq. apply Hlinks. apply list_elem_of_fmap in Hr as ([k r'] & [= -> ->] & Hr). cbn in *.
    apply (Hoc k r'); [done|]. revert Hq. case_bool_decide; done.
  - intros rid r q Hr Hq. apply Hlinks. apply list_elem_of_fmap in Hr as ([k r'] & [= -> ->] & Hr). cbn in *.
    apply (Hos k r'); [done|]. revert Hq. case_bool_decide; done.
Qed.

(** ** Installing *)

Lemma new_items_link {R} pack_id ty n (rows : list (pystr * R)) l :
  l ∈ (link_of pack_id <$> new_items ty n rows) <->
  ln_pack_id l = pack_id /\ ln_entity_type l = ty /\ (n <= ln_entity_id l < after n rows)%N.
Proof.
  unfold new_items. rewrite <- list_fmap_compose, list_elem_of_fmap. split.
  - intros ([id name] & -> & Hin%elem_fst%numbered_ids). rewrite after_fmap in Hin. done.
  - intros (Hp & Ht & Hid). rewrite <- (after_fmap fst) in Hid. apply numbered_ids in Hid.
    apply list_elem_of_fmap in Hid as ([id name] & Hl & Hin). cbn in Hl. exists (id, name). split; [|done].
    destruct l; cbn in *. by subst.
Qed.

Lemma items_link pack_id n cs ss l :
  l ∈ (link_of pack_id <$> items_for n cs ss) <->
  ln_pack_id l = pack_id /\
  ((ln_entity_type l = #"command" /\ (n <= ln_entity_id l < after n cs)%N) \/
   (ln_entity_type l = #"script" /\ (after n cs <= ln_entity_id l < after (after n cs) ss)%N)).
Proof. unfold items_for. rewrite fmap_app, elem_of_app, !new_items_link, !after_fmap. tauto. Qed.

Lemma numbered_elem {R} n (rows : list R) id r : (id, r) ∈ numbered n rows -> r ∈ rows /\ (n <= id < after n rows)%N.
Proof. intros Hin. split; [|by eapply numbered_ids, elem_fst]. rewrite <- (numbered_rows n rows). apply elem_snd. by exists id. Qed.

Lemma le_after {R} n (rows : list R) : (n <= after n rows)%N.
Proof. unfold after. lia. Qed.

Lemma inv_install s id p now cs ss : store_inv s -> dict_get (st_packs s) id = Some p -> pk_installed_version p = None ->
  new_commands id s cs -> new_scripts id s ss -> store_inv (installed_store id p now cs ss s).
Proof.
  intros Hinv Hg Hp0 [Hcnd Hcall] [Hsnd Hsall]. destruct (items_for (st_next s) cs ss) as [|item items] eqn:Eitems.
  { pose proof (length_items (st_next s) cs ss) as Hl. rewrite Eitems in Hl. destruct cs, ss; try done. by rewrite empty_installation. }
  unfold installed_store. set (its := items_for (st_next s) cs ss).
  assert (match its with [] => st_packs s | _ => dict_set (st_packs s) id (set_installed (Some (pk_version p)) (Some now) now p) end
    = dict_set (st_packs s) id (set_installed (Some (pk_version p)) (Some now) now p)) as -> by (unfold its; by rewrite Eitems).
  destruct Hinv as [[Hp Hpb] [Hc Hcb] [Hs Hsb] [Hl Hlb] Hcn Hsn Hi Hlk Hin Hoc Hos].
  set (n := st_next s) in *. set (m := after (after n cs) ss).
  pose proof (le_after n cs). pose proof (le_after (after n cs) ss). pose proof (le_after m its). fold m in H0.
  rewrite Forall_forall in Hcall. rewrite Forall_forall in Hsall.
  split; cbn.
  - split; [by erewrite dict_set_fst|]. intros k. erewrite dict_set_fst by done. intros Hk. specialize (Hpb k Hk). lia.
  - split; [apply (fresh_app n); [done..|apply numbered_NoDup|by intros k ?%numbered_ids; lia]|].
    intros k. rewrite fmap_app, elem_of_app, numbered_ids. intros [Hk|Hk]; [specialize (Hcb k Hk)|]; lia.
  - split; [apply (fresh_app n); [done..|apply numbered_NoDup|by intros k ?%numbered_ids; lia]|].
    intros k. rewrite fmap_app, elem_of_app, numbered_ids. intros [Hk|Hk]; [specialize (Hsb k Hk)|]; lia.
  - split; [apply (fresh_app n); [done..|apply numbered_NoDup|by intros k ?%numbered_ids; lia]|].
    intros k. rewrite fmap_app, elem_of_app, numbered_ids, after_fmap. intros [Hk|Hk]; [specialize (Hlb k Hk)|]; lia.
  - rewrite !fmap_app, numbered_rows. apply NoDup_app. split_and!; [done| |done].
    intros x Hx (r & -> & Hr)%list_elem_of_fmap. by apply (proj1 (Hcall r Hr)).
  - rewrite !fmap_app, numbered_rows. apply NoDup_app. split_and!; [done| |done].
    intros x Hx (r & -> & Hr)%list_elem_of_fmap. by apply (proj1 (Hsall r Hr)).
  - by rewrite (dict_set_snd identity _ _ p).
  - intros l. rewrite fmap_app, numbered_rows, elem_of_app. unfold its. rewrite items_link. intros [Hl'|[-> _]].
    + destruct (Hlk l Hl') as (q & Hq & Hqi). destruct (decide (ln_pack_id l = id)) as [->|Hne].
      * rewrite dict_get_set_eq. by eexists.
      * rewrite dict_get_set_ne by done. by exists q.
    + rewrite dict_get_set_eq. by eexists.
  - intros j q. destruct (decide (j = id)) as [->|Hne].
    + intros _ _. exists (link_of id item). rewrite fmap_app, numbered_rows. split; [|done]. apply elem_of_app. right.
      unfold its. rewrite Eitems. by left.
    + rewrite dict_get_set_ne by done. intros Hq Hqi. destruct (Hin j q Hq Hqi) as (l & Hl' & <-). exists l.
      rewrite fmap_app. split; [|done]. apply elem_of_app. by left.
  - intros rid r q Hr Hq. rewrite fmap_app, numbered_rows, elem_of_app. unfold its. rewrite items_link. apply elem_of_app in Hr as [Hr|Hr].
    + left. by apply (Hoc rid r).
    + right. apply numbered_elem in Hr as [Hr Hid]. destruct (Hcall r Hr) as (_ & Ho & _). cbn.
      split; [congruence|]. by left.
  - intros rid r q Hr Hq. rewrite fmap_app, numbered_rows, elem_of_app. unfold its. rewrite items_link. apply elem_of_app in Hr as [Hr|Hr].
    + left. by apply (Hos rid r).
    + right. apply numbered_elem in Hr as [Hr Hid]. destruct (Hsall r Hr) as (_ & Ho & _). cbn.
      split; [congruence|]. by right.
Qed.

(** ** The other operations *)

Section operations.
Context `{Unicode} `{PyFloat} `{PackColumns}.
Context (command_refused : command_row -> option exn) (script_refused : script_row -> option exn).
Local Abbreviation run_op := (run_op command_refused script_refused).

(** Only the assets and the counter change. *)
Lemma write_assets_ok id assets s s' : write_assets_in_session id assets s = Ok s' ->
  exists rows n, (st_next s <= n)%N /\ s' = set_assets (set_next s n) rows.
Proof.
  revert s. induction assets as [|asset assets IH]; intros s; cbn [write_assets_in_session].
  { intros [= <-]. exists (st_assets s), (st_next s). split; [lia|by destruct s]. }
  destruct (b64decode_validate _); [|done]. destruct (existsb _ _); [done|]. destruct (asset_refused _ _); [done|].
  intros (rows & n & Hn & ->)%IH. exists rows, n. cbn in Hn. split; [lia|done].
Qed.

Lemma no_duplicate_identity registry_id pack_id s p : _duplicate_exists pack_id registry_id s = false ->
  identity p = (registry_id, pack_id) -> identity p ∉ (identity <$> (st_packs s).*2).
Proof.
  intros Hd -> (q & Hq & ([k q'] & -> & Hin)%list_elem_of_fmap)%list_elem_of_fmap. unfold _duplicate_exists in Hd.
  assert (existsb (fun kv => same_identity registry_id pack_id kv.2) (st_packs s) = true); [|congruence].
  apply existsb_exists. exists (k, q'). split; [by apply list_elem_of_In|]. unfold same_identity, str_eqb. cbn in *.
  injection Hq as -> ->. by rewrite !bool_decide_true.
Qed.

Lemma inv_create data now s : store_inv s -> store_inv (create_pack data now s).2.
Proof.
  intros Hs. unfold create_pack, transaction. cbn zeta.
  destruct (validate_pack_id _;; _) as [[[commands scripts] decoded]|e]; [|done].
  destruct (_duplicate_exists _ _ _) eqn:Ed; [done|]. destruct (row_refused _); [done|]. cbn [st_packs set_packs set_next].
  destruct (write_assets_in_session _ _ _) as [s'|e] eqn:Ew; [|done]. cbn [mbind res_bind snd].
  apply write_assets_ok in Ew as (rows & n & Hn & ->). cbn in Hn.
    unfold set_assets, set_next, set_packs. cbn [st_packs st_commands st_scripts st_links st_assets st_next]. apply inv_add_pack; [done|done| |done].
  eapply (no_duplicate_identity _ _ (set_next s (st_next s + 1)%N)); [exact Ed|done].
Qed.

Lemma find_identity registry_id pack_id (d : list (uuid * pack)) :
  match List.find (fun kv => same_identity registry_id pack_id kv.2) d with
  | Some (id, p) => (id, p) ∈ d
  | None => existsb (fun kv => same_identity registry_id pack_id kv.2) d = false
  end.
Proof.
  destruct (List.find _ d) as [[id p]|] eqn:E.
  - apply find_some in E as [Hin _]. by apply list_elem_of_In.
  - destruct (existsb _ d) eqn:Ex; [|done]. apply existsb_exists in Ex as (kv & Hin & Hf).
    pose proof (find_none _ _ E kv Hin). congruence.
Qed.

Lemma inv_sync data now s : store_inv s -> store_inv (upsert_synced_pack data now s).2.
Proof.
  intros Hs. unfold upsert_synced_pack, transaction. cbn zeta.
  destruct (validate_pack_id _;; _) as [decoded|e]; [|done].
  pose proof (find_identity (Some (sy_registry_id data)) (mf_pack_id (sy_manifest data)) (st_packs s)) as Hf.
  destruct (List.find _ _) as [[id p]|].
  - case_bool_decide; [done|]. destruct (row_refused _); [done|].
    destruct (write_assets_in_session _ _ _) as [s'|e] eqn:Ew; [|done]. cbn [mbind res_bind snd].
    apply write_assets_ok in Ew as (rows & n & Hn & ->). cbn in Hn.
    unfold set_assets, set_next, set_packs. cbn [st_packs st_commands st_scripts st_links st_assets st_next]. 
    apply (inv_set_pack s id p); [done| |done|done|done]. apply dict_get_NoDup; [apply Hs|done].
  - destruct (row_refused _); [done|]. destruct (write_assets_in_session _ _ _) as [s'|e] eqn:Ew; [|done]. cbn [mbind res_bind snd].
    apply write_assets_ok in Ew as (rows & n & Hn & ->). cbn in Hn.
    unfold set_assets, set_next, set_packs. cbn [st_packs st_commands st_scripts st_links st_assets st_next]. apply inv_add_pack; [done|done| |done].
    eapply no_duplicate_identity; [exact Hf|done].
Qed.

Lemma inv_detach registry_id s : store_inv s -> store_inv (transaction (detach_registry registry_id) s).2.
Proof.
  intros Hs. unfold transaction, detach_registry. case_bool_decide as Hnd; [|done]. cbn [snd].
  apply inv_repack; [done| |exact Hnd| |done].
  - rewrite <- list_fmap_compose. by apply list_fmap_ext.
  - intros id. rewrite dict_get_fmap_snd. destruct (dict_get (st_packs s) id) as [p|]; [|done]. cbn. by case_bool_decide.
Qed.

Lemma inv_add_command s row : store_inv s ->
  store_inv (transaction (fun s => s ← insert_command command_refused (st_next s) (user_command row) (set_next s (st_next s + 1)%N); Ok (tt, s)) s).2.
Proof.
  intros Hs. unfold transaction. destruct (insert_command _ _ _ _) as [s'|e] eqn:Ei; [|done]. cbn [mbind res_bind snd].
  apply insert_command_ok in Ei as (-> & Hname & _). cbn in Hname.
  destruct Hs as [[Hp Hpb] [Hc Hcb] [Hsc Hsb] [Hl Hlb] Hcn Hsn Hi Hlk Hin Hoc Hos].
  split; cbn; try done; try (split; [done|eapply below_mono; [|done]; lia]).
  - split; [apply (fresh_app (st_next s)); [done|done|by apply NoDup_singleton|]; by intros k ->%list_elem_of_singleton|].
    intros k. rewrite fmap_app, elem_of_app. intros [Hk| ->%list_elem_of_singleton]; [specialize (Hcb k Hk); lia|cbn; lia].
  - rewrite !fmap_app. apply NoDup_app. split_and!; [done| |apply NoDup_singleton]. by intros x Hx ->%list_elem_of_singleton.
  - intros id r q [Hr|[= -> ->]%list_elem_of_singleton]%elem_of_app Hq; [by eapply Hoc|done].
Qed.
Lemma inv_add_script s row : store_inv s ->
  store_inv (transaction (fun s => s ← insert_script script_refused (st_next s) (user_script row) (set_next s (st_next s + 1)%N); Ok (tt, s)) s).2.
Proof.
  intros Hs. unfold transaction. destruct (insert_script _ _ _ _) as [s'|e] eqn:Ei; [|done]. cbn [mbind res_bind snd].
  apply insert_script_ok in Ei as (-> & Hname & _). cbn in Hname.
  destruct Hs as [[Hp Hpb] [Hc Hcb] [Hsc Hsb] [Hl Hlb] Hcn Hsn Hi Hlk Hin Hoc Hos].
  split; cbn; try done; try (split; [done|eapply below_mono; [|done]; lia]).
  - split; [apply (fresh_app (st_next s)); [done|done|by apply NoDup_singleton|]; by intros k ->%list_elem_of_singleton|].
    intros k. rewrite fmap_app, elem_of_app. intros [Hk| ->%list_elem_of_singleton]; [specialize (Hsb k Hk); lia|cbn; lia].
  - rewrite !fmap_app. apply NoDup_app. split_and!; [done| |apply NoDup_singleton]. by intros x Hx ->%list_elem_of_singleton.
  - intros id r q [Hr|[= -> ->]%list_elem_of_singleton]%elem_of_app Hq; [by eapply Hos|done].
Qed.

Lemma inv_drop_rows s (f : uuid * command_row -> bool) (g : uuid * script_row -> bool) : store_inv s ->
  store_inv (set_scripts (set_commands s (List.filter f (st_commands s))) (List.filter g (st_scripts s))).
Proof.
  intros [[Hp Hpb] [Hc Hcb] [Hsc Hsb] [Hl Hlb] Hcn Hsn Hi Hlk Hin Hoc Hos].
  split; cbn; try done; try (split; [by apply filter_keys|by apply below_filter]); try by apply NoDup_filter_snd.
  - intros id r q [Hr _]%elem_filter. by apply Hoc.
  - intros id r q [Hr _]%elem_filter. by apply Hos.
Qed.
Lemma filter_true {A} (l : list A) : List.filter (fun _ => true) l = l.
Proof. apply forallb_filter_id. by apply forallb_forall. Qed.

Lemma inv_run_op op now s : store_inv s -> store_inv (run_op op now s).
Proof.
  intros Hs. destruct op; cbn [Packs.run_op].
  - by apply inv_create.
  - by apply inv_sync.
  - unfold patch_pack, transaction, with_pack. destruct (dict_get (st_packs s) pack_id) as [p|] eqn:Eg; [|done].
    destruct (row_refused _); [done|]. cbn [snd]. by apply (inv_set_pack s pack_id p).
  - unfold install_pack, transaction, with_pack. destruct (dict_get (st_packs s) pack_id) as [p|] eqn:Eg; [|done].
    destruct (_install_in_session _ _ pack_id p mode now s) as [[result s']|e] eqn:E; [|done]. cbn [snd].
    apply install_in_rows in E as (Hp & cs & ss & -> & Hcs & Hss). by apply inv_install.
  - unfold uninstall_pack, transaction, with_pack. destruct (dict_get (st_packs s) pack_id) as [p|] eqn:Eg; [|done]. cbn [snd].
    by apply inv_uninstall.
  - unfold update_pack, transaction, with_pack. destruct (dict_get (st_packs s) pack_id) as [p|] eqn:Eg; [|done].
    destruct (_install_in_session _ _ _ _ _ _ _) as [[result s']|e] eqn:E; [|done]. cbn [snd].
    apply install_in_rows in E as (Hp & cs & ss & -> & Hcs & Hss). apply inv_install; try done.
    + by apply inv_uninstall.
    + unfold _uninstall_in_session. cbn [st_packs set_packs]. by rewrite dict_get_set_eq.
  - unfold delete_pack, transaction, with_pack. destruct (dict_get (st_packs s) pack_id) as [p|] eqn:Eg; [|done]. cbn [snd].
    apply inv_forget; [by apply inv_uninstall|]. intros l. apply uninstalled_no_links, Hs.
  - by apply inv_detach.
  - by apply inv_add_command.
  - pose proof (inv_drop_rows s (fun kv => negb (bool_decide (kv.1 = id))) (fun _ => true) Hs) as Hd. by rewrite filter_true in Hd.
  - by apply inv_add_script.
  - pose proof (inv_drop_rows s (fun _ => true) (fun kv => negb (bool_decide (kv.1 = id))) Hs) as Hd. by rewrite filter_true in Hd.
Qed.
End operations.

(** ** Histories *)

Section theorems.
Context `{Unicode} `{PyFloat} `{PackColumns}.
Context (command_refused : command_row -> option exn) (script_refused : script_row -> option exn).
Local Abbreviation history := (run_history command_refused script_refused).

Lemma inv_history ops : store_inv (history ops).
Proof.
  unfold run_history. induction ops as [|op ops IH] using rev_ind.
  - split; cbn; try (split; [by apply NoDup_nil_2|by intros k ?%elem_of_nil]); try by apply NoDup_nil_2.
    all: by intros; match goal with H : _ ∈ [] |- _ => by apply elem_of_nil in H | _ => done end.
  - rewrite fold_left_app. by apply inv_run_op.
Qed.

(** C22: after any history of creating, synchronizing, patching, installing, uninstalling,
    updating and deleting packs, of deleting registries, and of users adding and deleting
    commands and scripts, each in a transaction of its own that ends before the next begins, the
    names of commands and of scripts are unique, no two packs have the same registry and pack
    identifier, a pack counts as installed exactly when there are links to what it created,
    every link belongs to an existing pack, and every row that names a pack has a link from it:
    no row is left behind when its pack is uninstalled. *)
Theorem pack_tables_consistent (ops : list (pack_op * Z)) :
  let s := history ops in
  NoDup (cm_name <$> (st_commands s).*2) /\ NoDup (sc_name <$> (st_scripts s).*2) /\
  NoDup (identity <$> (st_packs s).*2) /\
  (forall id p, dict_get (st_packs s) id = Some p ->
     (is_installed p = true <-> exists l, l ∈ (st_links s).*2 /\ ln_pack_id l = id)) /\
  (forall l, l ∈ (st_links s).*2 -> is_Some (dict_get (st_packs s) (ln_pack_id l))) /\
  (forall id r q, (id, r) ∈ st_commands s -> cm_template_pack_id r = Some q ->
     {| ln_pack_id := q; ln_entity_type := #"command"; ln_entity_id := id |} ∈ (st_links s).*2) /\
  (forall id r q, (id, r) ∈ st_scripts s -> sc_template_pack_id r = Some q ->
     {| ln_pack_id := q; ln_entity_type := #"script"; ln_entity_id := id |} ∈ (st_links s).*2).
Proof.
  destruct (inv_history ops) as [[Hp Hpb] [Hc Hcb] [Hsc Hsb] [Hl Hlb] Hcn Hsn Hi Hlk Hin Hoc Hos].
  split_and!; try done.
  - intros id p Hg. split; [by apply Hin|]. intros (l & Hl' & <-). destruct (Hlk l Hl') as (q & Hq & ?). congruence.
  - intros l Hl'. destruct (Hlk l Hl') as (q & -> & _). by eexists.
Qed.

(** Removing the rows that were just numbered. *)
Lemma without_new {R} (ids : list uuid) n (d : list (uuid * R)) (rows : list R) : below n d ->
  (forall id, id ∈ ids <-> (n <= id < after n rows)%N) -> without ids (d ++ numbered n rows) = d.
Proof.
  intros Hb Hids. unfold without. rewrite List.filter_app.
  rewrite (filter_all _ d), filter_none, app_nil_r; [done| |].
  - intros [k r] Hin. cbn. rewrite bool_decide_true; [done|]. apply Hids. by eapply numbered_elem.
  - intros [k r] Hin. cbn. rewrite bool_decide_false; [done|]. rewrite Hids.
    apply elem_fst in Hin. specialize (Hb k Hin). lia.
Qed.

Lemma uninstall_installed s id p p' now now' cs ss : store_inv s -> dict_get (st_packs s) id = Some p ->
  pk_installed_version p = None ->
  let s1 := installed_store id p now cs ss s in
  let s2 := _uninstall_in_session id p' now' s1 in
  st_commands s2 = st_commands s /\ st_scripts s2 = st_scripts s /\ st_links s2 = st_links s /\ st_assets s2 = st_assets s /\
  st_packs s2 = dict_set (st_packs s) id (set_installed None None now' p').
Proof.
  intros Hinv Hg Hp0 s1 s2. destruct Hinv as [[Hp Hpb] [Hc Hcb] [Hs Hsb] [Hl Hlb] Hcn Hsn Hi Hlk Hin Hoc Hos].
  set (n := st_next s) in *. set (its := items_for n cs ss). set (m := after (after n cs) ss).
  pose proof (le_after n cs). pose proof (le_after (after n cs) ss).
  assert (links_of id s1 = numbered m (link_of id <$> its)) as Hlinks.
  { unfold links_of, s1, installed_store. cbn [st_links]. rewrite List.filter_app.
    rewrite filter_none, filter_all; [done| |].
    - intros [k l] Hin'. cbn. apply bool_decide_eq_true. apply numbered_elem in Hin' as [Hl' _].
      unfold its in Hl'. by apply items_link in Hl' as [-> _].
    - intros [k l] Hin'. apply bool_decide_eq_false. cbn. intros Hid.
      destruct (Hlk l) as (q & Hq & Hqi); [apply elem_snd; by exists k|]. rewrite Hid, Hg in Hq. injection Hq as <-.
      unfold is_installed in Hqi. by rewrite Hp0 in Hqi. }
  assert (forall ty e, e ∈ linked ty (links_of id s1) <-> exists l, l ∈ (link_of id <$> its) /\ ln_entity_type l = ty /\ ln_entity_id l = e) as Hlinked.
  { intros ty e. rewrite linked_elem, Hlinks, numbered_rows. done. }
  unfold its in Hlinked. setoid_rewrite items_link in Hlinked.
  subst s2. unfold _uninstall_in_session. rewrite drop_links_eq.
  cbn [set_packs st_packs st_commands st_scripts st_links st_assets]. split_and!.
  - apply (without_new _ n); [done|]. intros e. rewrite Hlinked. split.
    + intros (l & (_ & [(_ & He)|(Ht & _)]) & Ht' & <-); [done|by rewrite Ht in Ht'].
    + intros He. exists {| ln_pack_id := id; ln_entity_type := #"command"; ln_entity_id := e |}. cbn. split_and!; try done. by left.
  - apply (without_new _ (after n cs)); [by eapply below_mono|]. intros e. rewrite Hlinked. split.
    + intros (l & (_ & [(Ht & _)|(_ & He)]) & Ht' & <-); [by rewrite Ht in Ht'|done].
    + intros He. exists {| ln_pack_id := id; ln_entity_type := #"script"; ln_entity_id := e |}. cbn. split_and!; try done. by right.
  - rewrite Hlinks. apply (without_new _ m); [eapply below_mono; [|done]; lia|]. intros e. by rewrite numbered_ids.
  - done.
  - unfold s1, installed_store. cbn [st_packs]. destruct (items_for _ cs ss); [done|]. by rewrite dict_set_twice.
Qed.

(** In any reachable state, installing a pack and uninstalling it again restores the
    commands, the scripts, the links and the assets, and leaves the pack not installed. *)
Theorem install_uninstall_restores (ops : list (pack_op * Z)) (pack_id : uuid) (mode : conflict_mode) (now now' : Z) :
  let s := history ops in
  let '(r, s1) := install_pack command_refused script_refused pack_id mode now s in
  is_ok r = true ->
  let '(r', s2) := uninstall_pack pack_id now' s1 in
  r' = Ok tt /\ st_commands s2 = st_commands s /\ st_scripts s2 = st_scripts s /\ st_links s2 = st_links s /\
  st_assets s2 = st_assets s /\
  exists p, dict_get (st_packs s) pack_id = Some p /\
    st_packs s2 = dict_set (st_packs s) pack_id (set_installed None None now' p).
Proof.
  cbn zeta. pose proof (inv_history ops) as Hinv. set (s := history ops) in *.
  unfold install_pack, uninstall_pack, transaction, with_pack.
  destruct (dict_get (st_packs s) pack_id) as [p|] eqn:Eg; [|done].
  destruct (_install_in_session _ _ pack_id p mode now s) as [[result s1]|e] eqn:E; [|done]. intros _.
  apply install_in_rows in E as (Hp & cs & ss & -> & _).
  assert (exists p', dict_get (st_packs (installed_store pack_id p now cs ss s)) pack_id = Some p' /\
    set_installed None None now' p' = set_installed None None now' p) as (p' & Eg' & Ep).
  { unfold installed_store. cbn. destruct (items_for _ cs ss); [by exists p|]. rewrite dict_get_set_eq. by eexists. }
  rewrite Eg'. destruct (uninstall_installed s pack_id p p' now now' cs ss Hinv Eg Hp) as (Ec & Es & El & Ea & Ek).
  split_and!; try done. exists p. by rewrite Ek, Ep.
Qed.
End theorems.

(** ** Statistics *)

Lemma dict_set_sum {K V} `{EqDecision K} (f : V -> nat) (d : list (K * V)) k v :
  sum_list_with (fun kv => f kv.2) (dict_set d k v) + from_option f 0 (dict_get d k) = sum_list_with (fun kv => f kv.2) d + f v.
Proof. induction d as [|[j u] d IH]; cbn; [lia|]. case_decide; cbn; lia. Qed.

Lemma group_total pairs : sum_list_with (fun g => length g.2) (group_by_key pairs) = length pairs.
Proof.
  unfold group_by_key. induction pairs as [|kp pairs IH] using rev_ind; [done|].
  rewrite fold_left_app, length_app. cbn [fold_left length]. set (g := fold_left _ pairs []) in *.
  pose proof (dict_set_sum (@length pack) g kp.1 (default [] (dict_get g kp.1) ++ [kp.2])) as Hs.
  rewrite length_app in Hs. cbn in Hs. destruct (dict_get g kp.1); cbn in *; lia.
Qed.

Lemma buckets_total groups :
  foldr Z.add 0%Z (bk_total <$> buckets_of groups) = Z.of_nat (sum_list_with (fun g => length g.2) groups).
Proof.
  induction groups as [|g groups IH]; [done|]. unfold buckets_of in *. rewrite !fmap_cons.
  cbn [foldr bk_total sum_list_with]. rewrite IH. lia.
Qed.

(** The buckets of the statistics by registry, by version or by state add up to the
    number of packs, and a grouping that is not offered is refused. *)
Theorem pack_stats_partition `{Unicode} (key : pystr) (s : store) :
  match get_stats (Some key) s with
  | Ok stats =>
      key ∈ [ #"registry_id"; #"tag"; #"installed"; #"version"] /\
      ps_total stats = Z.of_nat (length (st_packs s)) /\ (ps_installed stats + ps_not_installed stats = ps_total stats)%Z /\
      (key <> #"tag" -> foldr Z.add 0%Z (bk_total <$> ps_buckets stats) = ps_total stats)
  | Raise e => exn_type e = DomainError /\ (key ∉ [ #"registry_id"; #"tag"; #"installed"; #"version"])
  end.
Proof.
  unfold get_stats. rewrite length_fmap. unfold str_eqb.
  case_bool_decide; [|case_bool_decide; [|case_bool_decide; [|case_bool_decide]]]; cbn [ps_total ps_installed ps_not_installed ps_buckets].
  - split_and!; [set_solver|done|lia|]. intros _. by rewrite buckets_total, group_total, !length_fmap.
  - split_and!; [set_solver|done|lia|done].
  - split_and!; [set_solver|done|lia|]. intros _. cbn. lia.
  - split_and!; [set_solver|done|lia|]. intros _. by rewrite buckets_total, group_total, !length_fmap.
  - split; [done|]. set_solver.
Qed.

(** ** Concrete runs *)

#[local] Existing Instance ascii_only.
#[local] Existing Instance literal_floats.

Definition test_manifest : PackManifestDTO :=
  {| mf_pack_id := #"tools"; mf_name := #"Tools"; mf_version := #"1"; mf_description := None; mf_author := None;
     mf_tags := []; mf_manifest_sha := None |}.
Definition test_pack (timeout : Z) : PackCreateDTO :=
  {| pc_manifest := test_manifest;
     pc_commands := [JObj [(#"name", JStr #"ls"); (#"command", JStr #"ls")];
                     JObj [(#"name", JStr #"df"); (#"command", JStr #"df"); (#"timeout", JInt timeout)]];
     pc_scripts := []; pc_readme := None; pc_assets := []; pc_registry_id := None |}.
Definition no_refusal {A} (_ : A) : option exn := None.
Definition any_value : PackColumns.
Proof. refine {| pack_refused := fun _ _ _ _ => None; asset_refused := fun _ _ => None |}; by intros. Defined.
#[local] Existing Instance any_value.

(** A user owns the name of one item: the installation renames it; uninstalling keeps the
    user's command. *)
Definition test_history : list (pack_op * Z) :=
  [(OpCreate (test_pack 60), 1%Z);
   (OpAddCommand {| cm_name := #"ls"; cm_description := JNull; cm_command := #"ls -l"; cm_parameters := JArr [];
                    cm_tags := []; cm_timeout := 60; cm_template_pack_id := None |}, 2%Z)].
Lemma install_uninstall_restores_witness :
  let s := run_history no_refusal no_refusal test_history in
  let s1 := (install_pack no_refusal no_refusal 0 ConflictRename 3 s).2 in
  (fun kv => cm_name kv.2) <$> st_commands s1 = [ #"ls"; #"ls_1"; #"df"] /\
  st_commands (uninstall_pack 0 4 s1).2 = st_commands s.
Proof.
  cbn zeta. split; [vm_compute; reflexivity|].
  pose proof (install_uninstall_restores no_refusal no_refusal test_history 0 ConflictRename 3 4) as Ht.
  cbn zeta in Ht. destruct (install_pack no_refusal no_refusal 0 ConflictRename 3 (run_history no_refusal no_refusal test_history)) as [r s1] eqn:E.
  assert (is_ok r = true) as Hr by (apply (f_equal fst) in E; cbn [fst] in E; rewrite <- E; vm_compute; reflexivity).
  specialize (Ht Hr). cbn [snd]. destruct (uninstall_pack 0 4 s1) as [r' s2]. apply Ht.
Defined.

(** The validation lets a timeout pass that the table refuses: nothing is installed. *)
Example bad_timeout_undoes_installation :
  let s := run_history no_refusal no_refusal [(OpCreate (test_pack 0), 1%Z)] in
  let '(r, s') := install_pack no_refusal no_refusal 0 ConflictRename 3 s in
  r = raise IntegrityError #"CHECK constraint failed: ck_commands_timeout" /\ st_commands s' = [].
Proof. vm_compute. split; reflexivity. Qed.
