(* ===== verification/Commands.v ===== *)
(** * Commands on nodes

    [app/application/services/ssh_executor.py], [node_command_service.py],
    [command_execution_service.py] and [node_bulk_command_service.py]: one command in one
    session, on a node, rendered from a stored template, or on all matching nodes at once;
    and the connectivity check, which records the status it finds. *)
From S2P Require Import Prelude PyStr Errors Json Bytes Effects Dto Output Template Script.

(** ** Data ([app/application/dto/]) *)

Record CommandRequestDTO := { cq_command : pystr; cq_timeout : option Z }.
Record CommandResultDTO := { cr_stdout : pystr; cr_stderr : pystr; cr_exit_code : Z }.
Record BulkCommandRequestDTO := {
  bq_command : pystr; bq_node_ids : list uuid; bq_tags : list pystr; bq_command_id : option uuid;
  bq_timeout : option Z }.
Record CommandExecutionDTO := {
  ce_node_id : uuid; ce_node_name : pystr; ce_stdout : pystr; ce_stderr : pystr; ce_exit_code : Z }.
Record BulkCommandResultDTO := {
  br_command : pystr; br_results : list CommandExecutionDTO; br_total : Z; br_succeeded : Z; br_failed : Z }.
Record CommandHistoryCreateDTO := {
  hc_node_id : uuid; hc_command_fingerprint : pystr; hc_exit_code : Z; hc_stdout : pystr; hc_stderr : pystr;
  hc_stdout_bytes : Z; hc_stderr_bytes : Z; hc_truncated : bool; hc_command_id : option uuid;
  hc_batch_id : option uuid; hc_started_at : Z; hc_finished_at : Z }.
Record CommandTemplateDTO := {
  te_id : uuid; te_command : pystr; te_parameters : list TemplateParameter; te_timeout : Z }.
Record CommandExecuteRequestDTO := { xq_node_id : uuid; xq_params : jobject; xq_timeout : option Z }.
Record BulkValidateCredentialsResultDTO := {
  vc_node_id : uuid; vc_node_name : pystr; vc_status : pystr; vc_message : pystr }.
Record NodeViewDTO := {
  nv_id : uuid; nv_name : pystr; nv_endpoint : NodeEndpoint; nv_status : pystr; nv_username : option pystr;
  nv_tags : list pystr; nv_created_at : Z; nv_updated_at : Z }.
Record NodeStatusChangeDTO := {
  sc_node_id : uuid; sc_old_status : option pystr; sc_new_status : pystr; sc_source : pystr }.

(** What a session is created with; without a timeout, with the factory's. *)
Record connector := {
  cn_host : pystr; cn_port : Z; cn_username : option pystr; cn_password : option pystr;
  cn_ssh_key : option pystr; cn_passphrase : option pystr; cn_timeout : option Z }.
Record SshExecutionResult := {
  sx_stdout : pystr; sx_stderr : pystr; sx_exit_code : Z; sx_started_at : Z; sx_finished_at : Z }.

(** ** Ports *)

Inductive command_call :=
| Fleet (c : script_call)                 (* the node reader, by identifiers and by tags; the cipher *)
| GetConnection (node_id : uuid)
| GetCommand (command_id : uuid)
| CreateSsh (c : connector)
| OpenSession (c : connector)
| RunCommand (c : connector) (command : pystr)
| CloseSession (c : connector)
| Now
| Uuid4
| Audit (required : bool) (action : pystr) (node_id : uuid) (details : jobject)
| SaveHistory (data : CommandHistoryCreateDTO)
| GetNode (node_id : uuid)
| UpdateNodeStatus (node_id : uuid) (status : pystr)
| SaveStatusChange (change : NodeStatusChangeDTO)
| PublishEvent (event : pystr) (payload : jobject).
Definition command_answer (c : command_call) : Type :=
  match c with
  | Fleet c => script_answer c
  | GetConnection _ => option NodeConnectionDTO
  | GetCommand _ => option CommandTemplateDTO
  | RunCommand _ _ => pystr * pystr * Z
  | Now => Z
  | Uuid4 => uuid
  | GetNode _ | UpdateNodeStatus _ _ => option NodeViewDTO
  | CreateSsh _ | OpenSession _ | CloseSession _ | Audit _ _ _ _ | SaveHistory _ | SaveStatusChange _
  | PublishEvent _ _ => unit
  end.
#[local] Instance command_signature : Signature := {| call := command_call; answer := command_answer |}.

(** The calls of [Script.resolve_targets], among those of the use cases. *)
Fixpoint fleet {A} (p : @prog script_signature A) : @prog command_signature A :=
  match p with
  | Done r => Done r
  | Do c k => @Do command_signature A (Fleet c) (fun a => fleet (k a))
  end.
Definition decrypt (value : option pystr) : prog (option pystr) := fleet (@perform script_signature (Decrypt value)).

(** ** One command in one session ([ssh_executor.py]) *)

Definition build_ssh_connector (node : NodeConnectionDTO) (timeout : option Z) : prog connector :=
  let credentials := n_credentials node in
  password ← decrypt (cr_password credentials);
  ssh_key ← decrypt (cr_ssh_key credentials);
  passphrase ← decrypt (cr_passphrase credentials);
  let c := {| cn_host := ep_host (n_endpoint node); cn_port := ep_port (n_endpoint node);
              cn_username := cr_username credentials; cn_password := password; cn_ssh_key := ssh_key;
              cn_passphrase := passphrase; cn_timeout := timeout |} in
  perform (CreateSsh c);;
  mret c.

(** [async with connector]: what is opened is closed; an exception of the closing replaces
    that of the body. *)
Definition in_session {A} (c : connector) (body : prog A) : prog A :=
  perform (OpenSession c);;
  finally body (perform (CloseSession c)).

Definition execute_ssh (c : connector) (command : pystr) : prog SshExecutionResult :=
  started_at ← perform Now;
  '(stdout, stderr, exit_code) ← in_session c (perform (RunCommand c command) : prog (pystr * pystr * Z));
  finished_at ← perform Now;
  mret {| sx_stdout := stdout; sx_stderr := stderr; sx_exit_code := exit_code;
          sx_started_at := started_at; sx_finished_at := finished_at |}.

Section commands.
Context `{Unicode} `{PyFloat} `{ExnNames} (sha256_hex : bytes -> pystr).
(** Whether the optional collaborators are given. *)
Context (has_audit has_history has_status_history has_node_view : bool).

Definition history_entry (node_id : uuid) (fingerprint stdout stderr : pystr) (exit_code started_at finished_at : Z)
    (command_id batch_id : option uuid) : res CommandHistoryCreateDTO :=
  bounded_stdout ← bound_output stdout DEFAULT_MAX_PERSISTED_OUTPUT_BYTES;
  bounded_stderr ← bound_output stderr DEFAULT_MAX_PERSISTED_OUTPUT_BYTES;
  Ok {| hc_node_id := node_id; hc_command_fingerprint := fingerprint; hc_exit_code := exit_code;
        hc_stdout := bo_value bounded_stdout; hc_stderr := bo_value bounded_stderr;
        hc_stdout_bytes := bo_original_bytes bounded_stdout; hc_stderr_bytes := bo_original_bytes bounded_stderr;
        hc_truncated := bo_truncated bounded_stdout || bo_truncated bounded_stderr; hc_command_id := command_id;
        hc_batch_id := batch_id; hc_started_at := started_at; hc_finished_at := finished_at |}.
Definition save_history (node_id : uuid) (command : pystr) (result : SshExecutionResult) (command_id : option uuid)
    : prog unit :=
  fingerprint ← lift (command_fingerprint sha256_hex command);
  entry ← lift (history_entry node_id fingerprint (sx_stdout result) (sx_stderr result) (sx_exit_code result)
                  (sx_started_at result) (sx_finished_at result) command_id None);
  perform (SaveHistory entry).

Definition audit_if (required : bool) (action : pystr) (node_id : uuid) (details : jobject) : prog unit :=
  if has_audit then perform (Audit required action node_id details) else mret tt.

Definition node_or_raise (node_id : uuid) : prog NodeConnectionDTO :=
  node ← perform (GetConnection node_id);
  match node with
  | Some node => mret node
  | None => lift (raise NodeNotFoundError (#"Node " ++ uuid_str node_id ++ #" not found"))
  end.

Definition result_of (result : SshExecutionResult) : CommandResultDTO :=
  {| cr_stdout := sx_stdout result; cr_stderr := sx_stderr result; cr_exit_code := sx_exit_code result |}.

(** ** A command on a node ([NodeCommandService.execute_command]) *)

Definition execute_failed (node_id : uuid) (command : pystr) (exc : exn) : prog unit :=
  fingerprint ← lift (command_fingerprint sha256_hex command);
  audit_if false #"execute_failed" node_id
    [(#"command_fingerprint", JStr fingerprint); (#"error", JStr (exn_msg exc))].

Definition failure_message (node_id : uuid) (exc : exn) : pystr :=
  #"Failed to execute command on node " ++ uuid_str node_id ++ #": " ++ exn_msg exc.

Definition request_intent (node_id : uuid) (command : pystr) : prog unit :=
  if has_audit then
    fingerprint ← lift (command_fingerprint sha256_hex command);
    perform (Audit true #"execute.requested" node_id [(#"command_fingerprint", JStr fingerprint)])
  else mret tt.

Definition run_and_record (node_id : uuid) (c : connector) (command : pystr) : prog CommandResultDTO :=
  result ← execute_ssh c command;
  fingerprint ← lift (command_fingerprint sha256_hex command);
  audit_if false #"execute" node_id
    [(#"command_fingerprint", JStr fingerprint); (#"exit_code", JInt (sx_exit_code result))];;
  (if has_history then save_history node_id command result None else mret tt);;
  mret (result_of result).

Definition execute_command (node_id : uuid) (data : CommandRequestDTO) : prog CommandResultDTO :=
  let command := cq_command data in
  node ← node_or_raise node_id;
  c ← build_ssh_connector node (cq_timeout data);
  request_intent node_id command;;
  try_except (run_and_record node_id c command)
    (fun exc =>
       if isinstance (exn_type exc) ConnectionFailedError
       then Some (execute_failed node_id command exc;; lift (Raise exc))
       else on_exception (fun exc =>
         execute_failed node_id command exc;;
         lift (raise ConnectionFailedError (failure_message node_id exc))) exc).

(** ** Connectivity ([NodeCommandService.check_connectivity]) *)

(** The status a session with [echo ok] shows.  The credentials were decrypted when the
    connector was built. *)
Definition probe (c : connector) : prog pystr :=
  try_except (in_session c (perform (RunCommand c #"echo ok") : prog (pystr * pystr * Z));; mret #"active")
    (fun exc =>
       if isinstance (exn_type exc) CredentialDecryptionError then Some (mret #"error")
       else if isinstance (exn_type exc) Exception_ then Some (mret #"unreachable")
       else None).

Definition previous_status (node_id : uuid) : prog (option pystr) :=
  if has_node_view then
    try_except (view ← perform (GetNode node_id); mret (nv_status <$> (view : option NodeViewDTO)))
      (on_exception (fun _ => mret None))
  else mret None.

(** The change is stored, best effort, and then announced. *)
Definition record_status_change (node_id : uuid) (shown_id : pystr) (old_status : option pystr) (new_status : pystr)
    : prog unit :=
  saved ← try_except
    (perform (SaveStatusChange {| sc_node_id := node_id; sc_old_status := old_status; sc_new_status := new_status;
                                  sc_source := #"connectivity_check" |});; mret true)
    (on_exception (fun _ => mret false));
  if (saved : bool) then
    perform (PublishEvent #"node.status_changed"
      [(#"node_id", JStr shown_id); (#"old_status", if old_status is Some s then JStr s else JNull);
       (#"new_status", JStr new_status)])
  else mret tt.

Definition check_connectivity (node_id : uuid) : prog NodeViewDTO :=
  node ← node_or_raise node_id;
  c ← build_ssh_connector node None;
  new_status ← probe c;
  audit_if false #"check" node_id [(#"status", JStr new_status)];;
  old_status ← previous_status node_id;
  updated ← perform (UpdateNodeStatus node_id new_status);
  match (updated : option NodeViewDTO) with
  | None => lift (raise NodeNotFoundError (#"Node " ++ uuid_str node_id ++ #" not found"))
  | Some updated =>
      (if has_status_history && negb (bool_decide (old_status = Some new_status))
       then record_status_change node_id (uuid_str node_id) old_status new_status else mret tt);;
      mret updated
  end.

(** ** A stored command ([CommandExecutionService.execute_command]) *)

Definition announce (event : pystr) (command_id node_id : uuid) (last : pystr * json) : prog unit :=
  perform (PublishEvent event
    [(#"command_id", JStr (uuid_str command_id)); (#"node_id", JStr (uuid_str node_id)); last]).

Definition run_stored (command_id node_id : uuid) (c : connector) (rendered : pystr) : prog CommandResultDTO :=
  result ← execute_ssh c rendered;
  audit_if false #"execute" node_id
    [(#"command_id", JStr (uuid_str command_id)); (#"exit_code", JInt (sx_exit_code result))];;
  (if has_history then save_history node_id rendered result (Some command_id) else mret tt);;
  announce #"execution.completed" command_id node_id (#"exit_code", JInt (sx_exit_code result));;
  mret (result_of result).

Definition execute_stored_command (command_id : uuid) (data : CommandExecuteRequestDTO) : prog CommandResultDTO :=
  let node_id := xq_node_id data in
  command ← perform (GetCommand command_id);
  match (command : option CommandTemplateDTO) with
  | None => lift (raise CommandNotFoundError (#"Command " ++ uuid_str command_id ++ #" not found"))
  | Some command =>
      rendered ← lift (render_command (te_command command) (te_parameters command) (dict_of (xq_params data)));
      node ← node_or_raise node_id;
      c ← build_ssh_connector node (Some (default (te_timeout command) (xq_timeout data)));
      try_except (run_stored command_id node_id c rendered)
        (on_exception (fun exc =>
           audit_if false #"execute_failed" node_id
             [(#"command_id", JStr (uuid_str command_id)); (#"error", JStr (exn_msg exc))];;
           announce #"execution.failed" command_id node_id (#"error_type", JStr (exn_name (exn_type exc)));;
           lift (raise ConnectionFailedError (failure_message node_id exc))))
  end.

(** ** The same command on many nodes ([NodeBulkCommandService]) *)

Definition _error_result (node : NodeConnectionDTO) (exc : exn) : CommandExecutionDTO :=
  {| ce_node_id := n_id node; ce_node_name := n_name node; ce_stdout := []; ce_stderr := exn_msg exc; ce_exit_code := 1 |}.

(** Both handlers compute the fingerprint of the command for their log line. *)
Definition _execute_on_single_node (node : NodeConnectionDTO) (command : pystr) (timeout : option Z)
    : prog CommandExecutionDTO :=
  c ← build_ssh_connector node timeout;
  try_except
    (result ← execute_ssh c command;
     _ ← lift (command_fingerprint sha256_hex command);
     mret {| ce_node_id := n_id node; ce_node_name := n_name node; ce_stdout := sx_stdout result;
             ce_stderr := sx_stderr result; ce_exit_code := sx_exit_code result |})
    (on_exception (fun exc =>
       _ ← lift (command_fingerprint sha256_hex command);
       mret (_error_result node exc))).

Fixpoint request_all (fingerprint : pystr) (nodes : list NodeConnectionDTO) : prog unit :=
  match nodes with
  | [] => mret tt
  | node :: nodes =>
      perform (Audit true #"bulk_execute.requested" (n_id node) [(#"command_fingerprint", JStr fingerprint)]);;
      request_all fingerprint nodes
  end.

Definition save_single (fingerprint : pystr) (data : BulkCommandRequestDTO) (batch_id : uuid) (started_at finished_at : Z)
    (result : CommandExecutionDTO) : prog unit :=
  entry ← lift (history_entry (ce_node_id result) fingerprint (ce_stdout result) (ce_stderr result) (ce_exit_code result)
                  started_at finished_at (bq_command_id data) (Some batch_id));
  perform (SaveHistory entry).
Definition _save_history (sched : list nat) (data : BulkCommandRequestDTO) (batch_id : uuid) (started_at finished_at : Z)
    (results : list CommandExecutionDTO) : prog unit :=
  fingerprint ← lift (command_fingerprint sha256_hex (bq_command data));
  ignore (gather_first sched (save_single fingerprint data batch_id started_at finished_at <$> results)).

(** An audit record that cannot be written is skipped. *)
Fixpoint audit_results (command : pystr) (results : list CommandExecutionDTO) : prog unit :=
  match results with
  | [] => mret tt
  | result :: results =>
      let succeeded := (ce_exit_code result =? 0)%Z in
      fingerprint ← lift (command_fingerprint sha256_hex command);
      (if has_audit then
         try_except
           (perform (Audit false (if succeeded then #"bulk_execute" else #"bulk_execute_failed") (ce_node_id result)
              ([(#"command_fingerprint", JStr fingerprint); (#"exit_code", JInt (ce_exit_code result))]
               ++ if succeeded then [] else [(#"error", JStr (ce_stderr result))])))
           (on_class AuditWriteError (fun _ => mret tt))
       else mret tt);;
      audit_results command results
  end.

Definition count_succeeded (results : list CommandExecutionDTO) : Z :=
  Z.of_nat (length (List.filter (fun r => (ce_exit_code r =? 0)%Z) results)).

(** [sched] and [sched'] schedule the workers and the saving of the history. *)
Definition execute (sched sched' : list nat) (data : BulkCommandRequestDTO) : prog BulkCommandResultDTO :=
  let command := bq_command data in
  target_nodes ← fleet (resolve_targets (bq_node_ids data) (bq_tags data));
  match target_nodes with
  | [] => lift (raise NodeNotFoundError #"No nodes matched the given criteria")
  | _ =>
      batch_id ← perform Uuid4;
      started_at ← perform Now;
      (if has_audit then
         fingerprint ← lift (command_fingerprint sha256_hex command);
         request_all fingerprint target_nodes
       else mret tt);;
      results ← gather_first sched ((fun node => _execute_on_single_node node command (bq_timeout data)) <$> target_nodes);
      finished_at ← perform Now;
      (if has_history then _save_history sched' data batch_id started_at finished_at results else mret tt);;
      audit_results command results;;
      let total := Z.of_nat (length results) in
      let succeeded := count_succeeded results in
      mret {| br_command := command; br_results := results; br_total := total; br_succeeded := succeeded;
              br_failed := total - succeeded |}
  end.

Definition validate_one (node : NodeConnectionDTO) : prog BulkValidateCredentialsResultDTO :=
  try_except
    (c ← build_ssh_connector node None;
     in_session c (perform (RunCommand c #"echo ok") : prog (pystr * pystr * Z));;
     mret {| vc_node_id := n_id node; vc_node_name := n_name node; vc_status := #"success";
             vc_message := #"Credentials valid" |})
    (on_exception (fun exc =>
       mret {| vc_node_id := n_id node; vc_node_name := n_name node; vc_status := #"error";
               vc_message := sanitize_bulk_error exc |})).

Definition validate_credentials_bulk (sched : list nat) (node_ids : list uuid) (tags : list pystr)
    : prog (list BulkValidateCredentialsResultDTO) :=
  nodes ← fleet (resolve_targets node_ids tags);
  gather_first sched (validate_one <$> nodes).
End commands.
