(* ===== verification/CommandSpec.v ===== *)
(** * What the command services promise

    For all answers of the ports: what runs, where and after which intent, what is
    recorded, and how failures are reported, as exact histories; for a world that answers
    each call alike, what the bulk use cases return under any schedule. *)
From S2P Require Import Prelude PyStr Errors Json Bytes Effects Dto Output Template Script Commands.
#[local] Existing Instance command_signature.

(** ** Histories *)

Definition ev (c : call) (a : res (answer c)) : event := existT c a.

(** The credentials of a node were decrypted into a connector. *)
Definition connector_for (node : NodeConnectionDTO) (timeout : option Z) (c : connector) : Prop :=
  cn_host c = ep_host (n_endpoint node) /\ cn_port c = ep_port (n_endpoint node) /\
  cn_username c = cr_username (n_credentials node) /\ cn_timeout c = timeout.
Definition build_trace (node : NodeConnectionDTO) (c : connector) : history :=
  let credentials := n_credentials node in
  [ev (Fleet (Decrypt (cr_password credentials))) (Ok (cn_password c));
   ev (Fleet (Decrypt (cr_ssh_key credentials))) (Ok (cn_ssh_key c));
   ev (Fleet (Decrypt (cr_passphrase credentials))) (Ok (cn_passphrase c));
   ev (CreateSsh c) (Ok tt)].
Definition connect_trace (node_id : uuid) (node : NodeConnectionDTO) (c : connector) : history :=
  ev (GetConnection node_id) (Ok (Some node)) :: build_trace node c.
Definition ssh_trace (c : connector) (command : pystr) (result : SshExecutionResult) : history :=
  [ev Now (Ok (sx_started_at result)); ev (OpenSession c) (Ok tt);
   ev (RunCommand c command) (Ok (sx_stdout result, sx_stderr result, sx_exit_code result));
   ev (CloseSession c) (Ok tt); ev Now (Ok (sx_finished_at result))].

(** No session was asked for: no node was touched. *)
Definition touches (e : event) : bool := match called e with OpenSession _ | RunCommand _ _ => true | _ => false end.
Definition untouched (h : history) : Prop := existsb touches h = false.

(** Sessions that were opened, and those that were closed. *)
Definition opened (h : history) : list connector :=
  omap (fun e : event => let '(existT c a) := e in if is_ok a then match c with OpenSession c => Some c | _ => None end else None) h.
Definition closed (h : history) : list connector :=
  omap (fun e : event => match called e with CloseSession c => Some c | _ => None end) h.
Definition balanced (h : history) : Prop := closed h = opened h.

(** Exceptions of the cipher, and statuses that were asked to be stored. *)
Definition raises (e : event) : option exn := if projT2 e is Raise x then Some x else None.
Definition decrypt_failures (h : history) : list exn :=
  omap (fun e => match called e with Fleet (Decrypt _) => raises e | _ => None end) h.
Definition status_writes (h : history) : list (uuid * pystr) :=
  omap (fun e => match called e with UpdateNodeStatus id status => Some (id, status) | _ => None end) h.

Lemma balanced_app h k : balanced h -> balanced k -> balanced (h ++ k).
Proof. unfold balanced, closed, opened. rewrite !omap_app. by intros -> ->. Qed.
Lemma untouched_app h k : untouched h -> untouched k -> untouched (h ++ k).
Proof. unfold untouched. rewrite existsb_app. by intros -> ->. Qed.
#[local] Hint Resolve balanced_app untouched_app : core.

(** Symbolic execution. *)
Ltac cmd_step :=
  lazymatch goal with
  | |- wp (_ ≫= _) _ _ _ => apply wp_bind
  | |- wp (mbind _ _) _ _ _ => apply wp_bind
  | |- wp (try_except _ _) _ _ _ => apply wp_try
  | |- wp (perform _) _ _ _ => split; [|intros [?x|?e]]; cbn beta iota
  | |- wp (fleet (perform _)) _ _ _ => split; [|intros [?x|?e]]; cbn beta iota
  | |- wp (fleet (Done _)) _ _ _ => apply wp_lift; cbn beta iota
  | |- wp (Done _) _ _ _ => apply wp_lift; cbn beta iota
  | |- wp (mret _) _ _ _ => apply wp_lift; cbn beta iota
  | |- wp (lift (raise _ _)) _ _ _ => apply wp_lift; unfold raise; cbn beta iota
  | |- wp (lift (Raise _)) _ _ _ => apply wp_lift; cbn beta iota
  | |- wp (lift ?r) _ _ _ => apply wp_lift; let E := fresh "E" in destruct r eqn:E; cbn beta iota
  | |- match on_exception _ ?e with _ => _ end =>
      unfold on_exception; let E := fresh "E" in destruct (isinstance (exn_type e) Exception_) eqn:E; cbn beta iota
  | |- match on_class ?c _ ?e with _ => _ end =>
      unfold on_class; let E := fresh "E" in destruct (isinstance (exn_type e) c) eqn:E; cbn beta iota
  | |- wp (match ?x with _ => _ end) _ _ _ => let E := fresh "E" in destruct x eqn:E; cbn beta iota
  | |- match (if ?b then _ else _) with _ => _ end => let E := fresh "E" in destruct b eqn:E; cbn beta iota
  end.

Ltac find_raise := eexists; unfold ev; repeat first [apply list_elem_of_here | apply list_elem_of_further].

(** ** Rules *)

Section rules.
Context (G : history -> call -> Prop).

(** Calls that only look something up. *)
Definition lookup_call (c : call) : Prop :=
  match c with Fleet _ | GetConnection _ | GetCommand _ | CreateSsh _ | Now | Uuid4 | GetNode _ => True | _ => False end.
Context (HG : forall h c, lookup_call c -> G h c).

Lemma wp_build node timeout h Q :
  (forall c, connector_for node timeout c -> Q (h ++ build_trace node c) (Ok c)) ->
  (forall k e, Forall (fun e => lookup_call (called e)) k -> Forall (eq e) (decrypt_failures k) -> Q (h ++ k) (Raise e)) ->
  wp (build_ssh_connector node timeout) h G Q.
Proof.
  intros HQ HR. unfold build_ssh_connector, decrypt. repeat cmd_step; try by apply HG.
  all: repeat rewrite <- app_assoc; try (apply HR; by repeat constructor).
  destruct x2. match goal with |- Q _ (Ok ?c) => by apply (HQ c) end.
Qed.

Lemma wp_connect {A} node_id timeout (f : connector -> prog A) h Q :
  (forall node c, connector_for node timeout c -> wp (f c) (h ++ connect_trace node_id node c) G Q) ->
  (forall k e, Forall (fun e => lookup_call (called e)) k -> Forall (eq e) (decrypt_failures k) -> Q (h ++ k) (Raise e)) ->
  wp (node ← node_or_raise node_id; c ← build_ssh_connector node timeout; f c) h G Q.
Proof.
  intros HQ HR. unfold node_or_raise. repeat cmd_step; try by apply HG.
  all: try (apply HR; by repeat constructor).
  apply wp_build.
  - intros c Hc. rewrite <- app_assoc. by apply (HQ n).
  - intros k e Hk Hd. rewrite <- app_assoc. apply HR; [by constructor|done].
Qed.

(** A session that failed with [e]: one of its calls raised it. *)
Definition session_call (c : connector) (command : pystr) (x : call) : Prop :=
  match x with
  | Now => True
  | OpenSession c' | CloseSession c' => c' = c
  | RunCommand c' command' => c' = c /\ command' = command
  | _ => False
  end.
Definition session_failed (c : connector) (command : pystr) (e : exn) (k : history) : Prop :=
  balanced k /\ (exists x, ev x (Raise e) ∈ k) /\ Forall (fun e => session_call c command (called e)) k.

Lemma wp_in_session c command h Q :
  G h (OpenSession c) -> G (h ++ [ev (OpenSession c) (Ok tt)]) (RunCommand c command) ->
  (forall h', G h' (CloseSession c)) ->
  (forall out, Q (h ++ [ev (OpenSession c) (Ok tt); ev (RunCommand c command) (Ok out); ev (CloseSession c) (Ok tt)]) (Ok out)) ->
  (forall k e, session_failed c command e k -> Q (h ++ k) (Raise e)) ->
  wp (in_session c (perform (RunCommand c command))) h G Q.
Proof.
  intros Ho Hr Hc HQ HR. unfold in_session, finally, outcome_of. repeat cmd_step; try done; try apply Hc.
  all: repeat match goal with x : unit |- _ => destruct x | x : answer (OpenSession _) |- _ => destruct x | x : answer (CloseSession _) |- _ => destruct x end.
  all: repeat rewrite <- app_assoc; try done; try apply HQ.
  all: apply HR; split; [reflexivity|split; [find_raise|by repeat constructor]].
Qed.

Lemma wp_execute_ssh c command h Q :
  (forall t, G (h ++ [ev Now (Ok t)]) (OpenSession c)) ->
  (forall t, G (h ++ [ev Now (Ok t); ev (OpenSession c) (Ok tt)]) (RunCommand c command)) ->
  (forall h', G h' (CloseSession c)) ->
  (forall result, Q (h ++ ssh_trace c command result) (Ok result)) ->
  (forall k e, session_failed c command e k -> Q (h ++ k) (Raise e)) ->
  wp (execute_ssh c command) h G Q.
Proof.
  intros Ho Hr Hc HQ HR. unfold execute_ssh. cmd_step.
  assert (forall t k e, session_failed c command e k -> Q ((h ++ [ev Now (Ok t)]) ++ k) (Raise e)) as HR'.
  { intros t k e (Hb & (x & Hx) & Hf). rewrite <- app_assoc. apply HR. split; [done|].
    split; [exists x; by right|by constructor]. }
  repeat cmd_step; try by apply HG.
  - apply wp_in_session; [done|rewrite <- app_assoc; apply Hr|apply Hc| |apply HR'].
    intros [[out err] code]. repeat cmd_step; [by apply HG| |].
    + rewrite <- !app_assoc.
      apply (HQ {| sx_stdout := out; sx_stderr := err; sx_exit_code := code; sx_started_at := x; sx_finished_at := x0 |}).
    + rewrite <- app_assoc. apply HR'. split; [reflexivity|]. split; [find_raise|by repeat constructor].
  - apply HR. split; [reflexivity|]. split; [find_raise|by repeat constructor].
Qed.
End rules.

Lemma lookups_quiet k : Forall (fun e => lookup_call (called e)) k -> untouched k /\ balanced k.
Proof.
  induction 1 as [|[c a] k Hc _ [Hu Hb]]; [done|].
  assert (untouched [existT c a] /\ balanced [existT c a]) as [Hu' Hb'].
  { destruct c; cbn in Hc; try done; unfold balanced, opened; by destruct a. }
  split; [by apply (untouched_app [_])|by apply (balanced_app [_])].
Qed.

(** ** A command on a node *)

Section single.
Context `{Unicode} `{PyFloat} `{ExnNames} (sha256_hex : bytes -> pystr).
Context (has_audit has_history : bool).

(** The events that a collaborator, if it is given, adds. *)
Definition given (b : bool) (e : event) : history := if b then [e] else [].

(** The record of an execution: its output cut to the persisted size. *)
Definition entry_of (fingerprint : pystr) (node_id : uuid) (command_id : option uuid) (result : SshExecutionResult)
    (entry : CommandHistoryCreateDTO) : Prop :=
  history_entry node_id fingerprint (sx_stdout result) (sx_stderr result) (sx_exit_code result)
    (sx_started_at result) (sx_finished_at result) command_id None = Ok entry.

Definition intent_event (node_id : uuid) (fingerprint : pystr) : event :=
  ev (Audit true #"execute.requested" node_id [(#"command_fingerprint", JStr fingerprint)]) (Ok tt).
Definition executed_event (node_id : uuid) (fingerprint : pystr) (result : SshExecutionResult) : event :=
  ev (Audit false #"execute" node_id
        [(#"command_fingerprint", JStr fingerprint); (#"exit_code", JInt (sx_exit_code result))]) (Ok tt).

(** The command runs in a session of the node, opened after the intent was committed. *)
Definition single_guard (node_id : uuid) (data : CommandRequestDTO) (h : history) (c : call) : Prop :=
  match c with
  | RunCommand conn command =>
      exists node fingerprint t,
        command = cq_command data /\ connector_for node (cq_timeout data) conn /\
        (has_audit = true -> command_fingerprint sha256_hex command = Ok fingerprint) /\
        h = connect_trace node_id node conn ++ given has_audit (intent_event node_id fingerprint)
            ++ [ev Now (Ok t); ev (OpenSession conn) (Ok tt)]
  | UpdateNodeStatus _ _ | SaveStatusChange _ | PublishEvent _ _ => False
  | _ => True
  end.

Definition single_outcome (node_id : uuid) (data : CommandRequestDTO) (h : history) (r : res CommandResultDTO) : Prop :=
  let command := cq_command data in
  balanced h /\
  match r with
  | Ok answer =>
      exists node conn fingerprint result entry,
        connector_for node (cq_timeout data) conn /\ command_fingerprint sha256_hex command = Ok fingerprint /\
        (has_history = true -> entry_of fingerprint node_id None result entry) /\
        answer = result_of result /\
        h = connect_trace node_id node conn ++ given has_audit (intent_event node_id fingerprint)
            ++ ssh_trace conn command result ++ given has_audit (executed_event node_id fingerprint result)
            ++ given has_history (ev (SaveHistory entry) (Ok tt))
  | Raise e =>
      untouched h \/ isinstance (exn_type e) ConnectionFailedError = true \/ isinstance (exn_type e) Exception_ = false \/
      command_fingerprint sha256_hex command = Raise e \/
      exists details, ev (Audit false #"execute_failed" node_id details) (Raise e) ∈ h
  end.

Lemma wp_intent node_id command h G (Q : history -> res unit -> Prop) :
  (forall details, G h (Audit true #"execute.requested" node_id details)) ->
  (forall fingerprint, (has_audit = true -> command_fingerprint sha256_hex command = Ok fingerprint) ->
     Q (h ++ given has_audit (intent_event node_id fingerprint)) (Ok tt)) ->
  (forall k e, untouched k -> balanced k -> Q (h ++ k) (Raise e)) ->
  wp (request_intent sha256_hex has_audit node_id command) h G Q.
Proof.
  intros HG HQ HR. unfold request_intent, given in *. destruct has_audit.
  - repeat cmd_step; try done; try by apply HR.
    + destruct x. by apply HQ.
    + rewrite <- (app_nil_r h). by apply HR.
  - cmd_step. specialize (HQ []). rewrite app_nil_r in HQ. by apply HQ.
Qed.

Lemma wp_audit_if required action node_id details h G (Q : history -> res unit -> Prop) :
  G h (Audit required action node_id details) ->
  Q (h ++ given has_audit (ev (Audit required action node_id details) (Ok tt))) (Ok tt) ->
  (forall e, Q (h ++ [ev (Audit required action node_id details) (Raise e)]) (Raise e)) ->
  wp (audit_if has_audit required action node_id details) h G Q.
Proof.
  intros HG HQ HR. unfold audit_if, given in *. destruct has_audit; repeat cmd_step; try done.
  - by destruct x.
  - by rewrite app_nil_r in HQ.
Qed.

(** Reporting a failure. *)
Lemma wp_execute_failed node_id command exc exc' h G (Q : history -> res CommandResultDTO -> Prop) :
  (forall details, G h (Audit false #"execute_failed" node_id details)) ->
  (forall k, untouched k -> balanced k -> Q (h ++ k) (Raise exc')) ->
  (forall k e, balanced k -> command_fingerprint sha256_hex command = Raise e \/
     (exists details, ev (Audit false #"execute_failed" node_id details) (Raise e) ∈ k) -> Q (h ++ k) (Raise e)) ->
  wp (execute_failed sha256_hex has_audit node_id command exc;; lift (Raise exc')) h G Q.
Proof.
  intros HG HQ HR. unfold execute_failed, audit_if. repeat cmd_step; try done.
  - by apply HQ.
  - apply HR; [done|]. right. eexists. by apply list_elem_of_singleton.
  - rewrite <- (app_nil_r h). by apply HQ.
  - rewrite <- (app_nil_r h). apply HR; [done|]. by left.
Qed.

(** The records of an execution, and what follows them. *)
Lemma wp_record {A} node_id command result command_id details (p : prog A) h G Q :
  (forall h r a n d, G h (Audit r a n d)) -> (forall h d, G h (SaveHistory d)) ->
  (forall entry,
     (has_history = true -> exists fingerprint,
        command_fingerprint sha256_hex command = Ok fingerprint /\ entry_of fingerprint node_id command_id result entry) ->
     wp p (h ++ given has_audit (ev (Audit false #"execute" node_id details) (Ok tt))
             ++ given has_history (ev (SaveHistory entry) (Ok tt))) G Q) ->
  (forall k e, untouched k -> balanced k -> Q (h ++ k) (Raise e)) ->
  wp (audit_if has_audit false #"execute" node_id details;;
      (if has_history then save_history sha256_hex node_id command result command_id else mret tt);; p) h G Q.
Proof.
  intros HA HS HQ HR. cmd_step. apply wp_audit_if; [intros; apply HA| |intros; by apply HR].
  set (log := given has_audit _) in *.
  assert (forall k e, untouched k -> balanced k -> Q ((h ++ log) ++ k) (Raise e)) as HR'.
  { intros k e Hu Hk. rewrite <- app_assoc. apply HR; [apply untouched_app|apply balanced_app]; try done;
      subst log; by destruct has_audit. }
  cmd_step. unfold save_history. destruct has_history; repeat cmd_step; try done; try by apply HR'.
  - destruct x. rewrite <- app_assoc. apply HQ. eauto.
  - rewrite <- (app_nil_r (h ++ log)). by apply HR'.
  - rewrite <- (app_nil_r (h ++ log)). by apply HR'.
  - specialize (HQ {| hc_node_id := node_id; hc_command_fingerprint := []; hc_exit_code := 0; hc_stdout := []; hc_stderr := [];
      hc_stdout_bytes := 0; hc_stderr_bytes := 0; hc_truncated := false; hc_command_id := None; hc_batch_id := None;
      hc_started_at := 0; hc_finished_at := 0 |}). cbn [given] in HQ. rewrite app_nil_r in HQ. by apply HQ.
Qed.

(** A session, its records and the answer, or a failure of one of them. *)
Lemma wp_run_and_record node_id command c h G Q :
  (forall h c, lookup_call c -> G h c) -> (forall h r a n d, G h (Audit r a n d)) -> (forall h d, G h (SaveHistory d)) ->
  (forall h c, G h (CloseSession c)) -> (forall h c, G h (OpenSession c)) ->
  (forall t, G (h ++ [ev Now (Ok t); ev (OpenSession c) (Ok tt)]) (RunCommand c command)) ->
  (forall fingerprint result entry,
     command_fingerprint sha256_hex command = Ok fingerprint ->
     (has_history = true -> entry_of fingerprint node_id None result entry) ->
     Q (h ++ ssh_trace c command result ++ given has_audit (executed_event node_id fingerprint result)
        ++ given has_history (ev (SaveHistory entry) (Ok tt))) (Ok (result_of result))) ->
  (forall k e, balanced k -> Q (h ++ k) (Raise e)) ->
  wp (run_and_record sha256_hex has_audit has_history node_id c command) h G Q.
Proof.
  intros HG HA HS HC HO Hrun HQ HR. unfold run_and_record. cmd_step.
  apply wp_execute_ssh; [exact HG|intros; apply HO|exact Hrun|intros; apply HC| |].
  2: { intros k e (Hb & _). by apply HR. }
  intros result. assert (forall k e, balanced k -> Q ((h ++ ssh_trace c command result) ++ k) (Raise e)) as HR'.
  { intros k e Hk. rewrite <- app_assoc. by apply HR, balanced_app. }
  set (h' := h ++ ssh_trace c command result) in *.
  cmd_step. cmd_step. 2: { rewrite <- (app_nil_r h'). by apply HR'. }
  apply wp_record; try done; [|intros; by apply HR'].
  intros entry Hentry. unfold h'. rewrite <- app_assoc. apply (HQ a result entry); [done|].
  intros Hh. destruct (Hentry Hh) as (fp & Hfp & ?). congruence.
Qed.

Lemma wp_execute_command node_id data :
  wp (execute_command sha256_hex has_audit has_history node_id data) [] (single_guard node_id data) (single_outcome node_id data).
Proof.
  unfold execute_command. apply wp_connect; [by intros ? []| |].
  2: { intros k e Hk _. destruct (lookups_quiet k Hk). split; [done|]. by left. }
  intros node conn Hconn. set (h := [] ++ connect_trace node_id node conn).
  assert (untouched h /\ balanced h) as [Hu Hb] by by apply lookups_quiet; repeat constructor.
  apply wp_bind, wp_intent; [done| |]. 2: { intros k e ? ?. split; [by apply balanced_app|]. left. by apply untouched_app. }
  intros fingerprint Hf. set (intent := given has_audit (intent_event node_id fingerprint)).
  assert (balanced intent) as Hbi by by unfold intent; destruct has_audit.
  apply wp_try. apply wp_run_and_record; try done.
  - by intros ? [].
  - intros t. exists node, fingerprint, t. by split_and!.
  - intros fingerprint' result entry Hf' Hentry. split.
    + repeat apply balanced_app; try done; [unfold given; by destruct has_audit|unfold given; by destruct has_history].
    + exists node, conn, fingerprint', result, entry. split_and!; try done. rewrite <- app_assoc. unfold intent.
      destruct has_audit; [|done]. specialize (Hf eq_refl). rewrite Hf in Hf'. by injection Hf' as ->.
  - intros k e Hk. cbn beta iota.
    assert (balanced ((h ++ intent) ++ k)) as Hb' by by repeat apply balanced_app.
    assert (forall exc, (isinstance (exn_type exc) ConnectionFailedError = true -> 
      wp (execute_failed sha256_hex has_audit node_id (cq_command data) e;; lift (Raise exc)) ((h ++ intent) ++ k) 
        (single_guard node_id data) (single_outcome node_id data))) as Hreport.
    { intros exc Hexc. apply wp_execute_failed; [done|..].
      - intros k' _ Hk'. split; [by apply balanced_app|]. right. by left.
      - intros k' e' Hk' Hor. split; [by apply balanced_app|]. do 3 right.
        destruct Hor as [?|[details Hd]]; [by left|right]. exists details. apply elem_of_app. by right. }
    destruct (isinstance (exn_type e) ConnectionFailedError) eqn:Ec; [by apply Hreport|].
    cmd_step; [by apply Hreport|]. split; [done|]. right. right. by left.
Qed.
(** C19: whatever the ports answer, a command runs on a node only in a session opened with the
    node's decrypted credentials and the requested timeout, as it was given, once, and after the
    intent was committed; sessions are closed; on success the exact history is this: lookup,
    connector, intent, session, audit and the bounded record; and a use case that fails has
    touched no node, or reports a failed connection, or could not even log the failure. *)
Theorem node_command_outcome (o : oracle) (node_id : uuid) (data : CommandRequestDTO) :
  let '(r, h) := run o (execute_command sha256_hex has_audit has_history node_id data) [] in
  single_outcome node_id data h r /\ grows (single_guard node_id data) [] h.
Proof. apply wp_run, wp_execute_command. Qed.

(** ** A stored command *)

(** The template is rendered and the node found before anything runs. *)
Definition stored_guard (command_id : uuid) (data : CommandExecuteRequestDTO) (h : history) (c : call) : Prop :=
  match c with
  | RunCommand conn rendered =>
      exists command node t,
        render_command (te_command command) (te_parameters command) (dict_of (xq_params data)) = Ok rendered /\
        connector_for node (Some (default (te_timeout command) (xq_timeout data))) conn /\
        h = ev (GetCommand command_id) (Ok (Some command)) :: connect_trace (xq_node_id data) node conn
            ++ [ev Now (Ok t); ev (OpenSession conn) (Ok tt)]
  | UpdateNodeStatus _ _ | SaveStatusChange _ => False
  | _ => True
  end.

Definition completed_event (command_id node_id : uuid) (exit_code : Z) : event :=
  ev (PublishEvent #"execution.completed"
        [(#"command_id", JStr (uuid_str command_id)); (#"node_id", JStr (uuid_str node_id)); (#"exit_code", JInt exit_code)]) (Ok tt).

Definition stored_outcome (command_id : uuid) (data : CommandExecuteRequestDTO) (h : history) (r : res CommandResultDTO) : Prop :=
  let node_id := xq_node_id data in
  balanced h /\
  match r with
  | Ok answer =>
      exists command rendered node conn result entry,
        render_command (te_command command) (te_parameters command) (dict_of (xq_params data)) = Ok rendered /\
        (has_history = true -> exists fingerprint, command_fingerprint sha256_hex rendered = Ok fingerprint /\
           entry_of fingerprint node_id (Some command_id) result entry) /\
        answer = result_of result /\
        h = ev (GetCommand command_id) (Ok (Some command)) :: connect_trace node_id node conn
            ++ ssh_trace conn rendered result
            ++ given has_audit (ev (Audit false #"execute" node_id
                 [(#"command_id", JStr (uuid_str command_id)); (#"exit_code", JInt (sx_exit_code result))]) (Ok tt))
            ++ given has_history (ev (SaveHistory entry) (Ok tt))
            ++ [completed_event command_id node_id (sx_exit_code result)]
  | Raise e =>
      untouched h \/ isinstance (exn_type e) ConnectionFailedError = true \/ isinstance (exn_type e) Exception_ = false \/
      (exists details, ev (Audit false #"execute_failed" node_id details) (Raise e) ∈ h) \/
      (exists payload, ev (PublishEvent #"execution.failed" payload) (Raise e) ∈ h)
  end.

Lemma wp_run_stored command_id node_id rendered c h G Q :
  (forall h c, lookup_call c -> G h c) -> (forall h r a n d, G h (Audit r a n d)) -> (forall h d, G h (SaveHistory d)) ->
  (forall h c, G h (CloseSession c)) -> (forall h c, G h (OpenSession c)) -> (forall h e p, G h (PublishEvent e p)) ->
  (forall t, G (h ++ [ev Now (Ok t); ev (OpenSession c) (Ok tt)]) (RunCommand c rendered)) ->
  (forall result entry,
     (has_history = true -> exists fingerprint, command_fingerprint sha256_hex rendered = Ok fingerprint /\
        entry_of fingerprint node_id (Some command_id) result entry) ->
     Q (h ++ ssh_trace c rendered result
          ++ given has_audit (ev (Audit false #"execute" node_id
                 [(#"command_id", JStr (uuid_str command_id)); (#"exit_code", JInt (sx_exit_code result))]) (Ok tt))
          ++ given has_history (ev (SaveHistory entry) (Ok tt))
          ++ [completed_event command_id node_id (sx_exit_code result)]) (Ok (result_of result))) ->
  (forall k e, balanced k -> Q (h ++ k) (Raise e)) ->
  wp (run_stored sha256_hex has_audit has_history command_id node_id c rendered) h G Q.
Proof.
  intros HG HA HS HC HO HP Hrun HQ HR. unfold run_stored, announce. cmd_step.
  apply wp_execute_ssh; [exact HG|intros; apply HO|exact Hrun|intros; apply HC| |].
  2: { intros k e (Hb & _). by apply HR. }
  intros result. assert (forall k e, balanced k -> Q ((h ++ ssh_trace c rendered result) ++ k) (Raise e)) as HR'.
  { intros k e Hk. rewrite <- app_assoc. by apply HR, balanced_app. }
  apply wp_record; try done; [|intros; by apply HR'].
  intros entry Hentry. repeat cmd_step; [by apply HP| |].
  - destruct x. rewrite <- !app_assoc. by apply HQ.
  - rewrite <- app_assoc. apply HR'. repeat apply balanced_app; try done; unfold given; by case_match.
Qed.

Lemma wp_execute_stored_command command_id data :
  wp (execute_stored_command sha256_hex has_audit has_history command_id data) []
    (stored_guard command_id data) (stored_outcome command_id data).
Proof.
  unfold execute_stored_command. set (node_id := xq_node_id data).
  assert (forall k e, Forall (fun e => lookup_call (called e)) k -> stored_outcome command_id data k (Raise e)) as Hearly.
  { intros k e Hk. destruct (lookups_quiet k Hk). split; [done|]. by left. }
  do 2 cmd_step; [done| |apply Hearly; by repeat constructor].
  cmd_step. cmd_step; [|cmd_step; apply Hearly; by repeat constructor].
  cmd_step. cmd_step; [|apply Hearly; by repeat constructor].
  apply wp_connect; [by intros ? []| |].
  2: { intros k e Hk _. apply Hearly. by constructor. }
  intros node conn Hconn. set (h := _ ++ connect_trace node_id node conn).
  assert (balanced h) as Hb by by apply lookups_quiet; repeat constructor.
  apply wp_try, wp_run_stored; try done.
  - by intros ? [].
  - intros t. exists c, node, t. by split_and!.
  - intros result entry Hentry. split.
    + repeat apply balanced_app; try done; unfold given; by case_match.
    + exists c, a, node, conn, result, entry. by split_and!.
  - intros k e Hk. cmd_step; [|split; [by apply balanced_app|right; right; by left]].
    unfold audit_if, announce. destruct has_audit; repeat cmd_step; try done.
    all: split; [repeat apply balanced_app; done|].
    all: try (right; by left).
    all: do 3 right; (left + right); eexists; apply elem_of_app; right; by apply list_elem_of_singleton.
Qed.

(** Whatever the ports answer, a stored command runs as its template renders with the given
    parameters, on the requested node, with the requested timeout or its own; when it cannot be
    rendered or the node is not found, no node is touched; on success it is audited, recorded
    and announced, in this order; every session is closed. *)
Theorem stored_command_outcome (o : oracle) (command_id : uuid) (data : CommandExecuteRequestDTO) :
  let '(r, h) := run o (execute_stored_command sha256_hex has_audit has_history command_id data) [] in
  stored_outcome command_id data h r /\ grows (stored_guard command_id data) [] h.
Proof. apply wp_run, wp_execute_stored_command. Qed.
End single.

(** ** The connectivity check *)

Section check.
Context (has_audit has_status_history has_node_view : bool).

(** What the session shows: it succeeded, or one of its calls raised an ordinary exception. *)
Definition probed (conn : connector) (status : pystr) (k : history) : Prop :=
  (status = #"active" /\ exists out,
     k = [ev (OpenSession conn) (Ok tt); ev (RunCommand conn #"echo ok") (Ok out); ev (CloseSession conn) (Ok tt)]) \/
  (exists e, session_failed conn #"echo ok" e k /\ isinstance (exn_type e) Exception_ = true /\
     status = if isinstance (exn_type e) CredentialDecryptionError then #"error" else #"unreachable").

(** The status that is stored in the history, and announced once that is done. *)
Definition change_recorded (node_id : uuid) (old_status : option pystr) (status : pystr) (k : history) : Prop :=
  if has_status_history && negb (bool_decide (old_status = Some status)) then
    let change := {| sc_node_id := node_id; sc_old_status := old_status; sc_new_status := status;
                     sc_source := #"connectivity_check" |} in
    (exists payload, k = [ev (SaveStatusChange change) (Ok tt); ev (PublishEvent #"node.status_changed" payload) (Ok tt)]) \/
    (exists e, k = [ev (SaveStatusChange change) (Raise e)])
  else k = [].

Definition old_status_of (a : res (option NodeViewDTO)) : option pystr :=
  match a with Ok view => nv_status <$> view | Raise _ => None end.

Definition check_outcome (node_id : uuid) (h : history) (r : res NodeViewDTO) : Prop :=
  balanced h /\
  (forall e, e ∈ decrypt_failures h -> r = Raise e /\ untouched h /\ status_writes h = []) /\
  match r with
  | Ok view =>
      exists node conn status probe_k seen change_k,
        connector_for node None conn /\ probed conn status probe_k /\
        change_recorded node_id (if has_node_view then old_status_of seen else None) status change_k /\
        h = connect_trace node_id node conn ++ probe_k
            ++ given has_audit (ev (Audit false #"check" node_id [(#"status", JStr status)]) (Ok tt))
            ++ given has_node_view (ev (GetNode node_id) seen)
            ++ [ev (UpdateNodeStatus node_id status) (Ok (Some view))] ++ change_k
  | Raise e =>
      status_writes h = [] \/ isinstance (exn_type e) Exception_ = false \/
      (exists status, status_writes h = [(node_id, status)] /\
         (ev (UpdateNodeStatus node_id status) (Raise e) ∈ h \/
          exn_type e = NodeNotFoundError /\ ev (UpdateNodeStatus node_id status) (Ok None) ∈ h \/
          exists payload, ev (PublishEvent #"node.status_changed" payload) (Raise e) ∈ h))
  end.

Lemma session_no_writes conn command e k : session_failed conn command e k ->
  balanced k /\ decrypt_failures k = [] /\ status_writes k = [].
Proof.
  intros (Hb & _ & Hk). split; [done|]. clear Hb e. induction Hk as [|[c a] k Hc _ [IH1 IH2]]; [done|].
  unfold decrypt_failures, status_writes in *. cbn in Hc. destruct c; done || by cbn; rewrite ?IH1, ?IH2.
Qed.

(** The rule of the probe. *)
Lemma wp_probe conn h G Q :
  (forall h', G h' (OpenSession conn)) -> (forall h', G h' (RunCommand conn #"echo ok")) -> (forall h', G h' (CloseSession conn)) ->
  (forall status k, probed conn status k -> Q (h ++ k) (Ok status)) ->
  (forall e k, session_failed conn #"echo ok" e k -> isinstance (exn_type e) Exception_ = false -> Q (h ++ k) (Raise e)) ->
  wp (probe conn) h G Q.
Proof.
  intros HO HRun HC HQ HR. unfold probe. cmd_step. cmd_step. apply wp_in_session; try done.
  - intros out. cmd_step. apply HQ. left. split; [done|]. by exists out.
  - intros k e Hk. cmd_step.
    + cmd_step. apply HQ. right. exists e. split_and!; try done; [|by rewrite E].
      destruct e as [[] m]; try discriminate E; reflexivity.
    + cmd_step; [|by apply HR]. cmd_step. apply HQ. right. exists e. by rewrite E, E0.
Qed.

Lemma failures_app h k : decrypt_failures (h ++ k) = decrypt_failures h ++ decrypt_failures k.
Proof. apply omap_app. Qed.
Lemma writes_app h k : status_writes (h ++ k) = status_writes h ++ status_writes k.
Proof. apply omap_app. Qed.

(** Histories without such events. *)
Definition plain (h : history) : Prop := balanced h /\ decrypt_failures h = [] /\ status_writes h = [].
Lemma plain_app h k : plain h -> plain k -> plain (h ++ k).
Proof.
  intros (? & Hd & Hw) (? & Hd' & Hw'). split; [by apply balanced_app|]. by rewrite failures_app, writes_app, Hd, Hw, Hd', Hw'.
Qed.
Lemma plain_probed conn status k : probed conn status k -> plain k.
Proof. intros [(_ & out & ->)|(e & Hk & _)]; [done|by eapply session_no_writes]. Qed.

Lemma outcome_plain node_id h r : plain h ->
  match r with Ok _ => False | Raise e => True end -> check_outcome node_id h r.
Proof.
  intros (Hb & Hd & Hw) Hr. split; [done|]. split; [rewrite Hd; by intros e ?%elem_of_nil|].
  destruct r; [done|]. by left.
Qed.

Definition check_guard (h : history) (c : call) : Prop :=
  match c with RunCommand _ command => command = #"echo ok" | SaveHistory _ => False | _ => True end.

Lemma writes_here h k node_id status a : plain h -> decrypt_failures k = [] -> status_writes k = [] -> balanced k ->
  let h' := h ++ [ev (UpdateNodeStatus node_id status) a] ++ k in
  balanced h' /\ (forall e (r : res NodeViewDTO), e ∈ decrypt_failures h' -> r = Raise e /\ untouched h' /\ status_writes h' = []) /\
  status_writes h' = [(node_id, status)].
Proof.
  intros (Hb & Hd & Hw) Hdk Hwk Hbk h'. unfold h'. split_and!.
  - repeat apply balanced_app; try done. unfold balanced, opened. by destruct a.
  - intros e r. rewrite !failures_app, Hd, Hdk. by intros ?%elem_of_nil.
  - by rewrite !writes_app, Hw, Hwk.
Qed.

(** The change of status, after it was stored. *)
Lemma wp_record_change node_id shown old status h G Q :
  (forall c, (match c with SaveStatusChange _ | PublishEvent _ _ => True | _ => False end) -> forall h, G h c) ->
  (forall k, change_recorded node_id old status k -> Q (h ++ k) (Ok tt)) ->
  (forall k e, isinstance (exn_type e) Exception_ = false \/ (exists payload, ev (PublishEvent #"node.status_changed" payload) (Raise e) ∈ k) ->
     decrypt_failures k = [] -> status_writes k = [] -> balanced k -> Q (h ++ k) (Raise e)) ->
  wp (if has_status_history && negb (bool_decide (old = Some status))
      then record_status_change node_id shown old status else mret tt) h G Q.
Proof.
  intros HG HQ HR. unfold change_recorded in HQ. destruct (_ && _); [|cmd_step; rewrite <- (app_nil_r h); by apply HQ].
  unfold record_status_change. repeat cmd_step; try (by apply HG); repeat rewrite <- app_assoc.
  - destruct x, x0. apply HQ. left. by eexists.
  - apply HR; try done. right. eexists. by apply list_elem_of_further, list_elem_of_here.
  - apply HQ. right. by eexists.
  - apply HR; try done. by left.
Qed.

Lemma wp_update_status node_id status old h (Q : history -> res NodeViewDTO -> Prop) :
  plain h ->
  (forall view k, change_recorded node_id old status k ->
     Q (h ++ [ev (UpdateNodeStatus node_id status) (Ok (Some view))] ++ k) (Ok view)) ->
  (forall h' e, check_outcome node_id h' (Raise e) -> Q h' (Raise e)) ->
  wp (updated ← perform (UpdateNodeStatus node_id status);
      match (updated : option NodeViewDTO) with
      | None => lift (raise NodeNotFoundError (#"Node " ++ uuid_str node_id ++ #" not found"))
      | Some updated =>
          (if has_status_history && negb (bool_decide (old = Some status))
           then record_status_change node_id (uuid_str node_id) old status else mret tt);;
          mret updated
      end) h check_guard Q.
Proof.
  intros Hp HQ HR. cmd_step. cmd_step; [done| |].
  2: { apply HR. destruct (writes_here h [] node_id status (Raise e) Hp) as (Hb & Hd & Hw); [done..|].
       split; [done|]. split; [intros; by apply Hd|]. right. right. exists status. split; [done|]. left.
       apply elem_of_app. right. by apply list_elem_of_singleton. }
  cmd_step. cmd_step.
  - cmd_step. apply wp_record_change; [by intros [] ?| |].
    + intros k Hk. cmd_step. rewrite <- app_assoc. by apply HQ.
    + intros k e He Hdk Hwk Hbk. rewrite <- app_assoc. apply HR.
      destruct (writes_here h k node_id status (Ok (Some n)) Hp Hdk Hwk Hbk) as (Hb & Hd & Hw).
      split; [done|]. split; [intros; by apply Hd|]. right. destruct He as [He|[payload He]]; [by left|right].
      exists status. split; [done|]. right. right. exists payload. rewrite !elem_of_app. by right; right.
  - cmd_step. apply HR. destruct (writes_here h [] node_id status (Ok None) Hp) as (Hb & Hd & Hw); [done..|].
    split; [done|]. split; [intros; by apply Hd|]. right. right. exists status. split; [done|]. right. left.
    split; [done|]. apply elem_of_app. right. by apply list_elem_of_singleton.
Qed.

Lemma wp_previous_status node_id h G Q :
  G h (GetNode node_id) ->
  (forall seen, Q (h ++ given has_node_view (ev (GetNode node_id) seen)) (Ok (if has_node_view then old_status_of seen else None))) ->
  (forall e, isinstance (exn_type e) Exception_ = false -> Q (h ++ [ev (GetNode node_id) (Raise e)]) (Raise e)) ->
  wp (previous_status has_node_view node_id) h G Q.
Proof.
  intros HG HQ HR. unfold previous_status, given in *. destruct has_node_view.
  - repeat cmd_step; try done; first [apply (HQ (Ok _)) | apply (HQ (Raise _)) | by apply HR].
  - cmd_step. specialize (HQ (Ok None)). by rewrite app_nil_r in HQ.
Qed.

Lemma wp_check node_id :
  wp (check_connectivity has_audit has_status_history has_node_view node_id) [] check_guard (check_outcome node_id).
Proof.
  unfold check_connectivity. apply wp_connect; [by intros ? []| |].
  2: { intros k e Hk Hd. destruct (lookups_quiet k Hk) as [Hu Hb].
       assert (status_writes k = []) as Hw.
       { clear -Hk. induction Hk as [|[c a] k Hc _ IH]; [done|]. unfold status_writes in *. cbn in *. by destruct c. }
       split; [done|]. split; [|by left]. intros e' He'. by rewrite Forall_forall in Hd; rewrite (Hd e' He'). }
  intros node conn Hconn. cmd_step. set (h := [] ++ connect_trace node_id node conn). apply wp_probe; try done.
  2: { intros e k Hk _. apply outcome_plain; [|done]. apply plain_app; [done|by eapply session_no_writes]. }
  intros status k Hk. cmd_step.
  assert (plain (h ++ k)) as H1 by (apply plain_app; [done|by eapply plain_probed]).
  apply wp_audit_if; [done| |]. 2: { intros e. apply outcome_plain; [|done]. by apply plain_app. }
  set (log := given has_audit _). assert (plain ((h ++ k) ++ log)) as H2 by (apply plain_app; [done|by destruct has_audit]).
  cmd_step. apply wp_previous_status; [done| |]. 2: { intros e _. apply outcome_plain; [|done]. by apply plain_app. }
  intros seen. set (view := given has_node_view _).
  assert (plain (((h ++ k) ++ log) ++ view)) as H3 by (apply plain_app; [done|by unfold view; destruct has_node_view, seen]).
  apply wp_update_status; [done| |done].
  intros v k' Hk'. destruct (writes_here _ k' node_id status (Ok (Some v)) H3) as (Hb & Hd & Hw).
  1-3: unfold change_recorded in Hk'; destruct (_ && _); [destruct Hk' as [[? ->]|[? ->]]|subst k']; done.
  split; [done|]. split; [intros; by apply Hd|]. exists node, conn, status, k, seen, k'. split_and!; try done.
  rewrite <- !app_assoc. done.
Qed.

(** Whatever the ports answer, a check that returns ran the command echo ok in a closed
    session of the node, and stored the status it showed: active after a session without
    exceptions, error after a credential error, unreachable after any other; a change against
    the previous status is recorded, and announced only once it is recorded, and failing to
    record it fails nothing. But when a credential cannot be decrypted, the check raises that
    exception and no status is stored at all. *)
Theorem check_connectivity_outcome (o : oracle) (node_id : uuid) :
  let '(r, h) := run o (check_connectivity has_audit has_status_history has_node_view node_id) [] in
  check_outcome node_id h r /\ grows check_guard [] h.
Proof. apply wp_run, wp_check. Qed.
End check.

(** ** Many nodes *)

Section bulk.
Context `{Unicode} `{PyFloat} `{ExnNames} (sha256_hex : bytes -> pystr).
Context (has_audit has_history : bool).
(** A world that answers each call alike. *)
Context (f : forall c : call, res (answer c)).

Definition targets (node_ids : list uuid) (tags : list pystr) : res (list NodeConnectionDTO) :=
  eval f (fleet (resolve_targets node_ids tags)).

(** What a node contributes: the outcome of its session, as a result. *)
Definition delivered (command : pystr) (timeout : option Z) (node : NodeConnectionDTO) (result : CommandExecutionDTO) : Prop :=
  exists c, eval f (build_ssh_connector node timeout) = Ok c /\
    match eval f (execute_ssh c command) with
    | Ok x => result = {| ce_node_id := n_id node; ce_node_name := n_name node; ce_stdout := sx_stdout x;
                          ce_stderr := sx_stderr x; ce_exit_code := sx_exit_code x |}
    | Raise e => isinstance (exn_type e) Exception_ = true /\
        result = {| ce_node_id := n_id node; ce_node_name := n_name node; ce_stdout := []; ce_stderr := exn_msg e;
                    ce_exit_code := 1 |}
    end.

(** Where an exception of the whole batch comes from: a text that cannot be encoded, a port
    that is no session, or an exception that is not for [except Exception]. *)
Definition session_port (c : call) : bool :=
  match c with OpenSession _ | RunCommand _ _ | CloseSession _ => true | _ => false end.
Definition fatal (e : exn) : Prop :=
  (exists s, encode s = Raise e) \/
  (exists c, f c = Raise e /\ (session_port c = false \/ isinstance (exn_type e) Exception_ = false)).

Lemma res_bind_raise {A B} (m : res A) (g : A -> res B) e :
  m ≫= g = Raise e -> m = Raise e \/ exists a, m = Ok a /\ g a = Raise e.
Proof. destruct m as [a|e']; cbn; intros Hm; [right; by exists a|left; exact Hm || by injection Hm as ->]. Qed.

Lemma eval_bind_raise {A B} (p : prog A) (g : A -> prog B) e :
  eval f (p ≫= g) = Raise e -> eval f p = Raise e \/ exists a, eval f p = Ok a /\ eval f (g a) = Raise e.
Proof. rewrite eval_bind. apply res_bind_raise. Qed.
Lemma eval_bind_ok {A B} (p : prog A) (g : A -> prog B) b :
  eval f (p ≫= g) = Ok b -> exists a, eval f p = Ok a /\ eval f (g a) = Ok b.
Proof. rewrite eval_bind. apply bind_ok. Qed.

Lemma eval_after {A B} (p : prog A) (g : A -> prog B) a : eval f p = Ok a -> eval f (p ≫= g) = eval f (g a).
Proof. intros Hp. by rewrite eval_bind, Hp. Qed.
Lemma eval_stop {A B} (p : prog A) (g : A -> prog B) e : eval f p = Raise e -> eval f (p ≫= g) = Raise e.
Proof. intros Hp. by rewrite eval_bind, Hp. Qed.

Lemma fatal_port c e : eval f (perform c) = Raise e -> session_port c = false -> fatal e.
Proof. intros He Hs. right. exists c. split; [exact He|by left]. Qed.

Lemma fatal_decrypt value e : eval f (decrypt value) = Raise e -> fatal e.
Proof. intros He. by apply (fatal_port (Fleet (Decrypt value)) e). Qed.
Lemma fatal_fingerprint command e : command_fingerprint sha256_hex command = Raise e -> fatal e.
Proof. intros [He|(a & _ & He)]%res_bind_raise; [|done]. left. by exists command. Qed.
Lemma fatal_bound s e : bound_output s DEFAULT_MAX_PERSISTED_OUTPUT_BYTES = Raise e -> fatal e.
Proof.
  unfold bound_output. cbn [Z.ltb Z.compare DEFAULT_MAX_PERSISTED_OUTPUT_BYTES].
  intros [He|(a & _ & He)]%res_bind_raise; [left; by exists s|]. by destruct (_ <=? _)%Z.
Qed.
Lemma fatal_entry node_id fp out err code t1 t2 command_id batch_id e :
  history_entry node_id fp out err code t1 t2 command_id batch_id = Raise e -> fatal e.
Proof.
  intros [He|(a & _ & [He|(b & _ & He)]%res_bind_raise)]%res_bind_raise; [by eapply fatal_bound|by eapply fatal_bound|done].
Qed.

#[local] Hint Resolve fatal_port fatal_fingerprint fatal_entry : core.

(** Takes an exception apart along the binds. *)
Ltac origin := lazymatch goal with
  | |- eval f (_ ≫= _) = Raise _ -> _ =>
      let He := fresh "He" in intros [He|(?a & ?Ha & He)]%eval_bind_raise; revert He
  end.

Ltac eval_step E := lazymatch goal with
  | |- context [eval f (@mbind _ _ ?A ?B ?g ?p)] =>
      destruct (@eval _ A f p) as [?a|?e] eqn:E; [rewrite (@eval_after A B p g _ E)|rewrite (@eval_stop A B p g _ E); right]
  end.

Lemma fatal_targets node_ids tags e : targets node_ids tags = Raise e -> fatal e.
Proof.
  unfold targets, resolve_targets. destruct node_ids as [|i ids], tags as [|t tags]; cbn; [done|..].
  1,2: destruct (f _) as [?|?] eqn:E; cbn; [done|]; intros [= ->]; right; eexists; split; [exact E|by left].
  destruct (f _) as [?|?] eqn:E; cbn; [|intros [= ->]; right; eexists; split; [exact E|by left]].
  destruct (f (Fleet (GetConnectionsByTags _))) as [?|?] eqn:E'; cbn; [done|]. intros [= ->]. right. eexists.
  split; [exact E'|by left].
Qed.

Lemma fatal_build node timeout e : eval f (build_ssh_connector node timeout) = Raise e -> fatal e.
Proof.
  unfold build_ssh_connector. do 3 (origin; [apply fatal_decrypt|]). origin; [intros He; exact (fatal_port _ _ He eq_refl)|done].
Qed.

Lemma in_session_origin c command e :
  eval f (in_session c (perform (RunCommand c command))) = Raise e -> exists x, f x = Raise e.
Proof.
  unfold in_session, finally, outcome_of. origin; [by exists (OpenSession c)|]. origin.
  - rewrite eval_try, eval_bind. cbn. by destruct (f (RunCommand c command)).
  - intros He'. revert Ha0. rewrite eval_try, eval_bind. cbn. revert He'. origin; [by exists (CloseSession c)|].
    intros He Ho. destruct (f (RunCommand c command)) as [out|e'] eqn:E; cbn in Ho; injection Ho as <-; cbn in He; [done|].
    injection He as <-. by exists (RunCommand c command).
Qed.
Lemma session_origin c command e : eval f (execute_ssh c command) = Raise e -> exists x, f x = Raise e.
Proof.
  unfold execute_ssh. origin; [by exists Now|]. origin; [by apply in_session_origin|].
  destruct a0 as [[out err] code]. origin; [by exists Now|done].
Qed.
Lemma decrypt_origin value e : eval f (decrypt value) = Raise e -> exists x, f x = Raise e.
Proof. intros He. by exists (Fleet (Decrypt value)). Qed.
Lemma build_origin node timeout e : eval f (build_ssh_connector node timeout) = Raise e -> exists x, f x = Raise e.
Proof.
  unfold build_ssh_connector. do 3 (origin; [apply decrypt_origin|]). origin; [intros He; eexists (CreateSsh _); exact He|done].
Qed.

(** A worker: it delivers, or something fatal happens. *)
Lemma eval_worker command timeout node :
  match eval f (_execute_on_single_node sha256_hex node command timeout) with
  | Ok result => delivered command timeout node result
  | Raise e => fatal e
  end.
Proof.
  unfold _execute_on_single_node, delivered.
  destruct (eval f (build_ssh_connector node timeout)) as [c|e] eqn:Eb.
  2: { rewrite (eval_stop _ _ e Eb). by eapply fatal_build. }
  rewrite (eval_after _ _ c Eb), eval_try.
  destruct (command_fingerprint sha256_hex command) as [fp|e'] eqn:Ef.
  2: { assert (forall A (p : prog A), eval f (lift (Raise e') ≫= fun _ : pystr => p) = Raise e') as Hstop by done.
       destruct (eval f (execute_ssh c command)) as [x|e] eqn:Es.
       - rewrite (eval_after _ _ x Es), Hstop. unfold on_exception. destruct (isinstance _ _); [rewrite Hstop|]; by eapply fatal_fingerprint.
       - rewrite (eval_stop _ _ e Es). unfold on_exception. destruct (isinstance _ _) eqn:Ee; [rewrite Hstop; by eapply fatal_fingerprint|].
         apply session_origin in Es as [y Hy]. right. exists y. split; [done|by right]. }
  destruct (eval f (execute_ssh c command)) as [x|e] eqn:Es.
  - rewrite (eval_after _ _ x Es), (eval_after (lift (Ok fp)) _ fp eq_refl). cbn [eval mret prog_ret].
    exists c. split; [done|]. by rewrite Es.
  - rewrite (eval_stop _ _ e Es). unfold on_exception. destruct (isinstance (exn_type e) Exception_) eqn:Ee.
    + rewrite (eval_after (lift (Ok fp)) _ fp eq_refl). cbn [eval mret prog_ret]. exists c. split; [done|]. by rewrite Es.
    + apply session_origin in Es as [y Hy]. right. exists y. split; [done|by right].
Qed.

Lemma eval_workers command timeout sched nodes :
  match eval f (gather_first sched ((fun node => _execute_on_single_node sha256_hex node command timeout) <$> nodes)) with
  | Ok results => Forall2 (delivered command timeout) nodes results
  | Raise e => fatal e
  end.
Proof.
  apply eval_gather_spec. intros node _. apply eval_worker.
Qed.

Lemma fatal_request fingerprint nodes e : eval f (request_all fingerprint nodes) = Raise e -> fatal e.
Proof.
  induction nodes as [|node nodes IH]; cbn [request_all]; [done|]. origin; [intros He; exact (fatal_port _ _ He eq_refl)|exact IH].
Qed.

Lemma fatal_history sched data batch_id t1 t2 results e :
  eval f (_save_history sha256_hex sched data batch_id t1 t2 results) = Raise e -> fatal e.
Proof.
  unfold _save_history, ignore. origin; [apply fatal_fingerprint|]. origin; [|done]. intros He.
  pose proof (eval_gather_spec f sched (save_single a data batch_id t1 t2) (fun _ _ => True) fatal results) as Hg.
  rewrite He in Hg. apply Hg. intros result _. destruct (eval f (save_single _ _ _ _ _ _)) as [?|e'] eqn:Es; [done|]. revert Es.
  unfold save_single. origin; [apply fatal_entry|intros Hs; exact (fatal_port (SaveHistory a0) _ Hs eq_refl)].
Qed.

Lemma fatal_audit command results e : eval f (audit_results sha256_hex has_audit command results) = Raise e -> fatal e.
Proof.
  induction results as [|result results IH]; cbn [audit_results]; [done|]. origin; [apply fatal_fingerprint|].
  origin; [|exact IH]. destruct has_audit; [|done]. rewrite eval_try. unfold on_class.
  destruct (eval f (perform _)) as [?|e'] eqn:Ee; [done|]. destruct (isinstance _ _); [done|].
  intros [= ->]. by eapply fatal_port.
Qed.

(** In a world that answers each call alike, and under every schedule, a bulk command
    returns one result per matching node, in their order, which is the outcome of the node's own
    session, an exception of a session being a result with exit code one; the counts add up. It
    raises only if nothing matches, or for an exception that comes from no session: one of the
    cipher, of the tables or of the audit intent, for whichever node, takes the results of all
    the others with it. *)
Theorem bulk_command_outcome (sched sched' : list nat) (data : BulkCommandRequestDTO) :
  match eval f (execute sha256_hex has_audit has_history sched sched' data) with
  | Ok r =>
      exists nodes, targets (bq_node_ids data) (bq_tags data) = Ok nodes /\ nodes <> [] /\
        Forall2 (delivered (bq_command data) (bq_timeout data)) nodes (br_results r) /\
        br_command r = bq_command data /\ br_total r = Z.of_nat (length nodes) /\
        br_succeeded r = count_succeeded (br_results r) /\ (br_succeeded r + br_failed r = br_total r)%Z
  | Raise e =>
      (targets (bq_node_ids data) (bq_tags data) = Ok [] /\ exn_type e = NodeNotFoundError) \/ fatal e
  end.
Proof.
  unfold execute. destruct (targets (bq_node_ids data) (bq_tags data)) as [nodes|e] eqn:Et.
  2: { unfold targets in Et. rewrite (eval_stop _ _ e Et). right. by eapply fatal_targets. }
  pose proof Et as Et'. unfold targets in Et'. rewrite (eval_after _ _ nodes Et'). clear Et'.
  destruct nodes as [|node nodes]; [by left|]. set (all := node :: nodes).
  eval_step E1. 2: { exact (fatal_port Uuid4 _ E1 eq_refl). }
  eval_step E2. 2: { exact (fatal_port Now _ E2 eq_refl). }
  eval_step E3.
  2: { destruct has_audit; [|done]. revert E3. origin; [apply fatal_fingerprint|apply fatal_request]. }
  pose proof (eval_workers (bq_command data) (bq_timeout data) sched all) as Hw.
  eval_step E4. 2: { exact Hw. }
  eval_step E5. 2: { exact (fatal_port Now _ E5 eq_refl). }
  eval_step E6. 2: { destruct has_history; [|done]. by apply fatal_history in E6. }
  eval_step E7. 2: { by apply fatal_audit in E7. }
  cbn [eval mret prog_ret]. exists all. cbn [br_results br_command br_total br_succeeded br_failed].
  pose proof (Forall2_length _ _ _ Hw) as Hl. split_and!; done || lia.
Qed.

(** ** Credentials *)

Definition validated (node : NodeConnectionDTO) (result : BulkValidateCredentialsResultDTO) : Prop :=
  let session := c ← build_ssh_connector node None; in_session c (perform (RunCommand c #"echo ok") : prog (pystr * pystr * Z)) in
  vc_node_id result = n_id node /\ vc_node_name result = n_name node /\
  match eval f session with
  | Ok _ => vc_status result = #"success" /\ vc_message result = #"Credentials valid"
  | Raise e => isinstance (exn_type e) Exception_ = true /\ vc_status result = #"error" /\ vc_message result = sanitize_bulk_error e
  end.

Lemma eval_validate node :
  match eval f (validate_one node) with
  | Ok result => validated node result
  | Raise e => isinstance (exn_type e) Exception_ = false /\ exists c, f c = Raise e
  end.
Proof.
  unfold validate_one, validated. rewrite eval_try.
  assert (forall e, isinstance (exn_type e) Exception_ = true \/ (exists c, f c = Raise e) ->
    match match on_exception (fun exc => mret {| vc_node_id := n_id node; vc_node_name := n_name node; vc_status := #"error";
            vc_message := sanitize_bulk_error exc |}) e with Some q => eval f q | None => Raise e end with
    | Ok result => vc_node_id result = n_id node /\ vc_node_name result = n_name node /\
        isinstance (exn_type e) Exception_ = true /\ vc_status result = #"error" /\ vc_message result = sanitize_bulk_error e
    | Raise e => isinstance (exn_type e) Exception_ = false /\ exists c, f c = Raise e
    end) as Hcatch.
  { intros e He. unfold on_exception. destruct (isinstance _ _) eqn:Ee; [done|]. by destruct He. }
  destruct (eval f (build_ssh_connector node None)) as [c|e] eqn:Eb.
  - rewrite !(eval_after _ _ c Eb). cbn beta.
    destruct (eval f (in_session (A:=pystr * pystr * Z) c (@perform command_signature (RunCommand c #"echo ok")))) as [out|e] eqn:Es.
    + by rewrite (eval_after _ _ out Es).
    + rewrite (eval_stop _ _ e Es). apply Hcatch. right. by eapply in_session_origin.
  - rewrite !(eval_stop _ _ e Eb). apply Hcatch. right. by eapply build_origin.
Qed.

(** Validating credentials returns, under every schedule, one verdict per matching node, in
    their order: success after a session with the decrypted credentials, otherwise an error with
    the sanitized message of the exception, whether it came from the cipher or from the session;
    no ordinary exception of a node reaches the caller. *)
Theorem validate_credentials_outcome (sched : list nat) (node_ids : list uuid) (tags : list pystr) :
  match eval f (validate_credentials_bulk sched node_ids tags) with
  | Ok results => exists nodes, targets node_ids tags = Ok nodes /\ Forall2 validated nodes results
  | Raise e => targets node_ids tags = Raise e \/ isinstance (exn_type e) Exception_ = false /\ exists c, f c = Raise e
  end.
Proof.
  unfold validate_credentials_bulk, targets. rewrite eval_bind.
  destruct (eval f (fleet _)) as [nodes|e]; [|by left].
  pose proof (eval_gather_spec f sched validate_one validated
    (fun e => isinstance (exn_type e) Exception_ = false /\ exists c, f c = Raise e) nodes (fun node _ => eval_validate node)) as Hg.
  change (Ok nodes ≫= _) with (eval f (gather_first sched (validate_one <$> nodes))).
  destruct (eval f (gather_first _ _)) as [results|e]; [by exists nodes|by right].
Qed.
End bulk.

(** ** Intents of a bulk command *)

Section intents.
Context `{Unicode} `{PyFloat} `{ExnNames} (sha256_hex : bytes -> pystr).
Context (has_history : bool).

Definition intents (fingerprint : pystr) (nodes : list NodeConnectionDTO) : history :=
  (fun node => ev (Audit true #"bulk_execute.requested" (n_id node) [(#"command_fingerprint", JStr fingerprint)]) (Ok tt)) <$> nodes.

(** A command runs on one of the nodes whose intents have all been committed. *)
Definition bulk_guard (data : BulkCommandRequestDTO) (h : history) (c : call) : Prop :=
  match c with
  | RunCommand conn command =>
      command = bq_command data /\
      exists nodes node fingerprint before after,
        node ∈ nodes /\ connector_for node (bq_timeout data) conn /\
        command_fingerprint sha256_hex command = Ok fingerprint /\ h = before ++ intents fingerprint nodes ++ after
  | _ => True
  end.

Definition worker_call (data : BulkCommandRequestDTO) (nodes : list NodeConnectionDTO) (c : call) : Prop :=
  match c with
  | RunCommand conn command => command = bq_command data /\ exists node, node ∈ nodes /\ connector_for node (bq_timeout data) conn
  | _ => True
  end.

Lemma local_worker data nodes node : node ∈ nodes ->
  local_spec (worker_call data nodes) (fun _ => True) (_execute_on_single_node sha256_hex node (bq_command data) (bq_timeout data)).
Proof.
  intros Hin h. unfold _execute_on_single_node. cmd_step. apply wp_build; [by intros ? []| |done].
  intros c Hc. cmd_step. cmd_step. apply wp_execute_ssh; try done; [by intros ? []|intros t; split; [done|by exists node]| |].
  - intros result. repeat cmd_step; done.
  - intros k e _. repeat cmd_step; done.
Qed.

Lemma wp_request_all fingerprint nodes h (G : history -> call -> Prop) Q :
  (forall h r a n d, G h (Audit r a n d)) ->
  Q (h ++ intents fingerprint nodes) (Ok tt) -> (forall h' e, Q h' (Raise e)) ->
  wp (request_all fingerprint nodes) h G Q.
Proof.
  intros HG. revert h. induction nodes as [|node nodes IH]; intros h HQ HR; cbn [request_all].
  - cmd_step. by rewrite app_nil_r in HQ.
  - cmd_step. cmd_step; [apply HG| |apply HR]. cmd_step. apply IH; [|done]. destruct x. by rewrite <- app_assoc.
Qed.

(** No command runs while the nodes are looked up. *)
Lemma wp_fleet {A} (p : @prog script_signature A) h (G : history -> call -> Prop) Q :
  (forall h c, G h (Fleet c)) -> (forall k r, Q (h ++ k) r) -> wp (fleet p) h G Q.
Proof.
  intros HG. revert h. induction p as [r|c k IH]; intros h HQ; cbn.
  - specialize (HQ [] r). by rewrite app_nil_r in HQ.
  - split; [apply HG|]. intros a. apply IH. intros j r. rewrite <- app_assoc. apply HQ.
Qed.

(** After the intents, every command is allowed that some worker may ask for. *)
Lemma wp_after_intents {A} data nodes fingerprint before (p : prog A) h :
  command_fingerprint sha256_hex (bq_command data) = Ok fingerprint -> h = before ++ intents fingerprint nodes ->
  local_spec (worker_call data nodes) (fun _ => True) p -> wp p h (bulk_guard data) (fun _ _ => True).
Proof.
  intros Hf -> Hp. eapply wp_mono; [apply wp_conj; [apply Hp|apply wp_extends]| |done].
  intros h' c [Hc [after ->]]. destruct c; try done. destruct Hc as [-> (node & Hin & Hconn)]. split; [done|].
  exists nodes, node, fingerprint, before, after. by rewrite <- app_assoc.
Qed.

(** A tree without sessions. *)
Definition no_session (c : call) : Prop := if session_port c then False else True.
Lemma local_no_session {A} data nodes (p : prog A) : local_spec no_session (fun _ => True) p ->
  local_spec (worker_call data nodes) (fun _ => True) p.
Proof. intros Hp h. eapply wp_mono; [apply Hp|by intros ? []|done]. Qed.
Lemma local_seq {A B} (P : call -> Prop) (p : prog A) (g : A -> prog B) :
  local_spec P (fun _ => True) p -> (forall a, local_spec P (fun _ => True) (g a)) -> local_spec P (fun _ => True) (p ≫= g).
Proof. intros Hp Hg h. apply wp_bind. eapply wp_mono; [apply Hp|done|]. intros h' [a|e] _; [apply Hg|done]. Qed.

Lemma local_save sched data batch_id t1 t2 results :
  local_spec no_session (fun _ => True) (_save_history sha256_hex sched data batch_id t1 t2 results).
Proof.
  unfold _save_history, ignore. apply local_seq; [by intros h|]. intros fp. apply local_seq; [|by intros ? h].
  intros h. eapply wp_mono; [apply (local_gather_first sched no_session (fun _ _ => True))|done|done].
  intros r _. unfold save_single. apply local_seq; [by intros h'|]. intros entry h'. by split.
Qed.

Lemma local_audit command results : local_spec no_session (fun _ => True) (audit_results sha256_hex true command results).
Proof.
  induction results as [|r results IH]; cbn [audit_results]; [by intros h|]. apply local_seq; [by intros h|].
  intros fp. apply local_seq; [|done]. intros h. repeat cmd_step; done.
Qed.

Lemma wp_execute_fleet sched sched' data :
  wp (execute sha256_hex true has_history sched sched' data) [] (bulk_guard data) (fun _ _ => True).
Proof.
  unfold execute. cmd_step. apply wp_fleet; [done|]. intros k [nodes|e]; [|done].
  destruct nodes as [|node nodes]; [done|]. set (all := node :: nodes). cbn beta iota.
  cmd_step. cmd_step; [done| |done]. cmd_step. cmd_step. cmd_step; [done| |done]. cmd_step.
  cmd_step. cmd_step. cmd_step; [|done]. apply wp_request_all; [done| |done]. cbn beta iota.
  eapply wp_after_intents; [done|done|].
  apply local_seq.
  { intros h. eapply wp_mono; [apply (local_gather_first sched (worker_call data all) (fun _ _ => True))|done|done].
    intros n Hn. by apply local_worker. }
  intros results. apply local_no_session. apply local_seq; [intros h; by split|]. intros finished_at.
  apply local_seq; [destruct has_history; [apply local_save|by intros h]|]. intros _.
  apply local_seq; [apply local_audit|by intros ? h].
Qed.

(** Whatever the ports answer, and however the workers interleave, when audit is on a bulk
    command runs only the requested command, on a node among those that matched, and only after
    the intent for every one of these nodes was committed. *)
Theorem bulk_intents_before_commands (o : oracle) (sched sched' : list nat) (data : BulkCommandRequestDTO) :
  grows (bulk_guard data) [] (run o (execute sha256_hex true has_history sched sched' data) []).2.
Proof.
  pose proof (wp_run _ o _ _ _ (wp_execute_fleet sched sched' data)) as Hr.
  destruct (run o _ []) as [r h]. by destruct Hr.
Qed.
End intents.

(** ** Concrete runs *)

#[local] Existing Instance ascii_only.
#[local] Existing Instance literal_floats.

Definition test_node (id : uuid) : NodeConnectionDTO :=
  {| n_id := id; n_name := #"node"; n_endpoint := {| ep_host := #"host"; ep_port := 22; ep_connection_type := #"ssh";
       ep_docker_host := None; ep_has_docker := false |};
     n_credentials := {| cr_username := Some #"root"; cr_password := Some (str_Z (Z.of_N id)); cr_ssh_key := None;
       cr_passphrase := None |} |}.
(** All sessions succeed; the cipher cannot decrypt the password [bad]; the audit trail
    refuses the action [lost]. *)
Definition test_world (bad : option pystr) (lost : pystr) : forall c : call, res (answer c) := fun c =>
  match c return res (command_answer c) with
  | Fleet c =>
      match c return res (script_answer c) with
      | GetTemplate _ => Ok None
      | GetConnectionsByIds ids => Ok (test_node <$> ids)
      | GetConnectionsByTags _ => Ok []
      | Decrypt value =>
          if bool_decide (value <> None /\ value = bad) then raise CredentialDecryptionError #"Failed to decrypt" else Ok value
      | Connect _ _ _ _ | Disconnect => Ok tt
      | ExecuteCommand _ _ => Ok ([], [], 0%Z)
      end
  | GetConnection id => Ok (Some (test_node id))
  | GetCommand _ => Ok None
  | RunCommand _ _ => Ok (#"done", [], 0%Z)
  | Now => Ok 0%Z
  | Uuid4 => Ok 0%N
  | GetNode _ | UpdateNodeStatus _ _ => Ok None
  | Audit _ action _ _ => if str_eqb action lost then raise AuditWriteError #"Audit write failed" else Ok tt
  | CreateSsh _ | OpenSession _ | CloseSession _ | SaveHistory _ | SaveStatusChange _ | PublishEvent _ _ => Ok tt
  end.
Definition test_sha (_ : bytes) : pystr := #"00".

(** A command that ran with exit code zero is reported as one that could not be executed,
    because its audit record was refused afterwards. *)
Example late_audit_failure :
  let '(r, h) := run (fun _ => test_world None #"execute")
    (execute_command test_sha true true 7 {| cq_command := #"reboot"; cq_timeout := None |}) [] in
  (exists m, r = raise ConnectionFailedError m) /\
  exists c, ev (RunCommand c #"reboot") (Ok (#"done", [], 0%Z)) ∈ h.
Proof. vm_compute. split; [by eexists|]. eexists. unfold ev. repeat first [apply list_elem_of_here | apply list_elem_of_further]. Qed.

(** One node whose password cannot be decrypted loses the results of the other. *)
Example one_bad_password_loses_the_batch :
  let data := {| bq_command := #"uptime"; bq_node_ids := [1%N; 2%N]; bq_tags := []; bq_command_id := None; bq_timeout := None |} in
  eval (test_world (Some #"2") []) (execute test_sha true true [] [] data) = raise CredentialDecryptionError #"Failed to decrypt" /\
  exists r, eval (test_world None []) (execute test_sha true true [] [] data) = Ok r /\ br_succeeded r = 2%Z.
Proof. vm_compute. split; [reflexivity|]. eexists. split; reflexivity. Qed.
