(* ===== verification/Query.v ===== *)
(** * Queries

    What the repositories of [app/adapters/persistence/dao/] ask of the database: pages by
    offset, keyset pages, tag filters and text search with [ILIKE].  A query without
    [ORDER BY] sees its rows in an order that is the database's choice (class [Scans]). *)
From Stdlib Require Import Sorting.Sorted.
From stdpp Require Import sorting.
From S2P Require Import Prelude PyStr Errors.

(** ** Row order *)

(** The order in which the [n]-th unordered query of an operation returns rows. *)
Class Scans := {
  scan {A} : nat -> list A -> list A;
  scan_permutation {A} n (rows : list A) : scan n rows ≡ₚ rows }.

(** Rows come in the order of the table. *)
Definition heap_order : Scans := {| scan A _ rows := rows; scan_permutation A _ rows := Permutation_refl rows |}.

Definition DBAPIError : exn_class := LibraryError #"DBAPIError".
(** [.offset(skip).limit(limit)]. *)
Definition sql_page {A} (skip limit : Z) (rows : list A) : res (list A) :=
  if ((skip <? 0) || (limit <? 0))%Z then raise DBAPIError #"OFFSET and LIMIT must not be negative"
  else Ok (take (Z.to_nat limit) (drop (Z.to_nat skip) rows)).

(** [tags @> ARRAY[tag]] for each tag. *)
Definition has_tags (tags : list pystr) (row_tags : option (list pystr)) : bool :=
  forallb (fun tag => bool_decide (tag ∈ default [] row_tags)) tags.

(** ** [ILIKE] *)

(** [value.replace(c, new)] for a one-character [c]. *)
Definition replace_char (c : N) (new value : pystr) : pystr :=
  flat_map (fun d => if (d =? c)%N then new else [d]) value.
(** [dao/base.py]. *)
Definition escape_ilike (value : pystr) : pystr :=
  replace_char 95 #"\_" (replace_char 37 #"\%" (replace_char 92 #"\\" value)).

(** The characters with a meaning in a pattern. *)
Definition like_special (c : N) : bool := ((c =? 92) || (c =? 37) || (c =? 95))%N.
Inductive like_item := AnyRun | AnyOne | Exactly (c : N).
(** [%], [_] and the escape character, a backslash. *)
Fixpoint like_items (pattern : pystr) : list like_item :=
  match pattern with
  | [] => []
  | c :: p =>
      if (c =? 92)%N then match p with d :: p => Exactly d :: like_items p | [] => [] end
      else (if (c =? 37)%N then AnyRun else if (c =? 95)%N then AnyOne else Exactly c) :: like_items p
  end.
Fixpoint like_match (items : list like_item) (text : pystr) : bool :=
  match items with
  | [] => bool_decide (text = [])
  | AnyRun :: items =>
      (fix skip text := like_match items text || match text with [] => false | _ :: text => skip text end) text
  | AnyOne :: items => match text with [] => false | _ :: text => like_match items text end
  | Exactly c :: items => match text with [] => false | d :: text => (c =? d)%N && like_match items text end
  end.

(** Lower case in the locale of the database, character by character: a character with a
    meaning in patterns is its own lower case, and of no other. *)
Class Collation := {
  fold : N -> N;
  fold_special c : like_special (fold c) = like_special c;
  fold_same c : like_special c = true -> fold c = c }.
Section ilike.
Context `{Collation}.
Definition ilike (pattern text : pystr) : bool := like_match (like_items (fold <$> pattern)) (fold <$> text).

(** The search of the repositories: [name.ilike(f"%{escaped}%", escape="\\")] or the other column. *)
Definition search_matches (search : pystr) (columns : list (option pystr)) : bool :=
  let pattern := #"%" ++ escape_ilike search ++ #"%" in
  existsb (fun column => if column is Some text then ilike pattern text else false) columns.

Definition apply_filters {A} (row_tags : A -> option (list pystr)) (columns : A -> list (option pystr))
    (tags : option (list pystr)) (search : option pystr) (rows : list A) : list A :=
  List.filter (fun row => has_tags (default [] tags) (row_tags row) &&
                 match search with Some ((_ :: _) as s) => search_matches s (columns row) | _ => true end) rows.

Lemma escape_ilike_spec value :
  escape_ilike value = flat_map (fun c => if like_special c then [92%N; c] else [c]) value.
Proof.
  unfold escape_ilike, replace_char. induction value as [|c value IH]; [done|].
  cbn [flat_map]. rewrite <- IH, !flat_map_app. f_equal.
  unfold like_special. destruct (N.eqb_spec c 92) as [->|H1]; [done|]. cbn [orb flat_map].
  destruct (N.eqb_spec c 37) as [->|H2]; [done|]. cbn [orb flat_map app].
  destruct (N.eqb_spec c 95) as [->|H3]; [done|]. done.
Qed.

Lemma like_items_escaped value rest :
  like_items ((fold <$> escape_ilike value) ++ rest) = (Exactly ∘ fold <$> value) ++ like_items rest.
Proof.
  rewrite escape_ilike_spec. induction value as [|c value IH]; [done|]. cbn [flat_map].
  rewrite fmap_app, <- app_assoc. destruct (like_special c) eqn:Hc.
  - cbn [fmap list_fmap app]. rewrite (fold_same 92) by done. cbn. by rewrite IH.
  - pose proof Hc as Hf. rewrite <- fold_special in Hf. cbn [fmap list_fmap app].
    unfold like_special in Hf. apply orb_false_iff in Hf as [[H1 H2]%orb_false_iff H3].
    cbn [like_items]. rewrite H1, H2, H3. cbn. by rewrite IH.
Qed.

Lemma like_exactly value items text :
  like_match ((Exactly ∘ fold <$> value) ++ items) text = true <->
  exists rest, text = (fold <$> value) ++ rest /\ like_match items rest = true.
Proof.
  revert text. induction value as [|c value IH]; cbn; intros text; [by split; [eauto|intros (? & -> & ?)]|].
  destruct text as [|d text]; [split; [done|by intros (? & ? & ?)]|].
  rewrite andb_true_iff, N.eqb_eq, IH. split.
  - intros (<- & rest & -> & Hr). by exists rest.
  - intros (rest & [= -> ->] & Hr). eauto.
Qed.

Lemma like_any items text :
  like_match (AnyRun :: items) text = true <-> exists before rest, text = before ++ rest /\ like_match items rest = true.
Proof.
  cbn. induction text as [|c text IH].
  - rewrite orb_false_r. split; [by exists [], []|]. by intros (before & rest & [-> ->]%eq_sym%app_nil & Hr).
  - rewrite orb_true_iff, IH. split.
    + intros [Hr|(before & rest & -> & Hr)]; [by exists [], (c :: text)|by exists (c :: before), rest].
    + intros ([|d before] & rest & E & Hr); [left; by rewrite E|right]. injection E as -> ->. eauto.
Qed.

(** A search finds the rows of which a column contains the text literally, up to case: the
    wildcards of the user are ordinary characters. *)
Lemma search_literal search text :
  ilike (#"%" ++ escape_ilike search ++ #"%") text = contains (fold <$> text) (fold <$> search).
Proof.
  apply eq_true_iff_eq. rewrite contains_spec. unfold ilike. rewrite !fmap_app.
  change (fold <$> #"%") with [fold 37]. rewrite (fold_same 37) by done.
  change ([37%N] ++ ?r) with (37%N :: r). cbn [like_items]. rewrite like_items_escaped.
  change ((37 =? 92)%N) with false. change ((37 =? 37)%N) with true. cbv iota.
  change (like_items [37%N]) with [AnyRun]. rewrite like_any. split.
  - intros (before & rest & -> & Hr). apply like_exactly in Hr as (rest' & -> & _). eauto.
  - intros (before & after & ->). exists before, ((fold <$> search) ++ after). split; [done|].
    apply like_exactly. exists after. split; [done|]. apply like_any. exists after, []. by rewrite app_nil_r.
Qed.
End ilike.

(** The lower case of ASCII. *)
Definition ascii_fold (c : N) : N := if ascii_upper c then (c + 32)%N else c.
Lemma ascii_fold_range c : like_special (ascii_fold c) = like_special c /\ (like_special c = true -> ascii_fold c = c).
Proof.
  unfold ascii_fold, ascii_upper, in_range, like_special. destruct ((65 <=? c) && (c <=? 90))%N eqn:E; [|done].
  apply andb_true_iff in E as [H1%N.leb_le H2%N.leb_le]. split.
  - apply eq_true_iff_eq. rewrite !orb_true_iff, !N.eqb_eq. lia.
  - rewrite !orb_true_iff, !N.eqb_eq. lia.
Qed.
Definition ascii_collation : Collation :=
  {| fold := ascii_fold; fold_special c := proj1 (ascii_fold_range c); fold_same c := proj2 (ascii_fold_range c) |}.

(** ** Keyset pages

    [ORDER BY created_at DESC, id DESC]: a page starts after the key of the last row of the
    page before. *)
Section keyset.
Context {A : Type} (key : A -> Z * N).

Definition older (k k' : Z * N) : bool := ((k.1 <? k'.1)%Z || ((k.1 =? k'.1)%Z && (k.2 <? k'.2)%N)).
Definition newest_first (row row' : A) : Prop := older (key row) (key row') = false.
#[local] Instance newest_first_dec row row' : Decision (newest_first row row') := decide (_ = _).

Definition after_cursor (cursor : option (Z * N)) (row : A) : bool :=
  if cursor is Some c then older (key row) c else true.
(** One row more than the limit. *)
Definition get_list_cursor (cursor : option (Z * N)) (limit : Z) (rows : list A) : res (list A) :=
  sql_page 0 (limit + 1) (merge_sort newest_first (List.filter (after_cursor cursor) rows)).
(** The rows, the cursor of the next page, and whether there is one. *)
Definition list_cursor (cursor : option (Z * N)) (limit : Z) (rows : list A)
    : res (list A * option (Z * N) * bool) :=
  nodes ← get_list_cursor cursor limit rows;
  let has_more := (limit <? Z.of_nat (length nodes))%Z in
  let items := take (Z.to_nat limit) nodes in
  let next_cursor := if has_more then key <$> last items else None in
  Ok (items, next_cursor, has_more).

(** A client that follows the cursors, over the rows the table has at each request; whether
    it came to the end. *)
Fixpoint walk (limit : Z) (cursor : option (Z * N)) (tables : list (list A)) : res (list A * bool) :=
  match tables with
  | [] => Ok ([], false)
  | rows :: tables =>
      '(items, next, _) ← list_cursor cursor limit rows;
      match next with
      | None => Ok (items, true)
      | Some c => '(more, finished) ← walk limit (Some c) tables; Ok (items ++ more, finished)
      end
  end.

(** ** Order *)

Lemma older_irrefl k : older k k = false.
Proof. unfold older. by rewrite Z.ltb_irrefl, Z.eqb_refl, N.ltb_irrefl. Qed.
Lemma older_iff k k' : older k k' = true <-> (k.1 < k'.1)%Z \/ k.1 = k'.1 /\ (k.2 < k'.2)%N.
Proof. unfold older. by rewrite orb_true_iff, andb_true_iff, Z.ltb_lt, Z.eqb_eq, N.ltb_lt. Qed.
Lemma older_trans k1 k2 k3 : older k1 k2 = true -> older k2 k3 = true -> older k1 k3 = true.
Proof. rewrite !older_iff. lia. Qed.
Lemma older_total k k' : older k k' = false -> k = k' \/ older k' k = true.
Proof.
  intros Hk. destruct (older k' k) eqn:E; [by right|left].
  apply not_true_iff_false in Hk, E. rewrite older_iff in Hk, E. destruct k, k'; cbn in *. f_equal; lia.
Qed.

#[local] Instance newest_first_trans : Transitive newest_first.
Proof.
  intros a b c. unfold newest_first. intros Hab Hbc. destruct (older (key a) (key c)) eqn:E; [|done].
  apply not_true_iff_false in Hab, Hbc. rewrite older_iff in *. destruct (key a), (key b), (key c); cbn in *. lia.
Qed.
#[local] Instance newest_first_total : Total newest_first.
Proof.
  intros a b. unfold newest_first. destruct (older (key a) (key b)) eqn:E; [right|by left].
  destruct (older (key b) (key a)) eqn:E'; [|done]. rewrite older_iff in *. lia.
Qed.

(** Strictly from newer to older. *)
Definition descending (a b : A) : Prop := older (key b) (key a) = true.

(** The rows of a query with their order. *)
Definition matching (cursor : option (Z * N)) (rows : list A) : list A :=
  merge_sort newest_first (List.filter (after_cursor cursor) rows).

Lemma elem_of_matching cursor rows row : row ∈ matching cursor rows <-> row ∈ rows /\ after_cursor cursor row = true.
Proof.
  unfold matching. rewrite merge_sort_Permutation, !list_elem_of_In, filter_In. done.
Qed.

Lemma sorted_descending l : StronglySorted newest_first l -> NoDup (key <$> l) -> StronglySorted descending l.
Proof.
  induction 1 as [|a l _ IH Ha]; [constructor|]. cbn. intros [Hn Hl]%NoDup_cons. constructor; [by apply IH|].
  rewrite Forall_forall in Ha |- *. intros b Hb. destruct (older_total _ _ (Ha b Hb)) as [E|E]; [|done].
  destruct Hn. rewrite E. by apply list_elem_of_fmap_2.
Qed.

Lemma matching_descending cursor rows : NoDup (key <$> rows) -> StronglySorted descending (matching cursor rows).
Proof.
  intros Hn. apply sorted_descending; [apply StronglySorted_merge_sort; apply _|].
  unfold matching. rewrite merge_sort_Permutation. induction rows as [|a rows IH]; [done|].
  cbn in Hn |- *. apply NoDup_cons in Hn as [Ha Hn]. destruct (after_cursor cursor a); [|by apply IH].
  cbn. apply NoDup_cons. split; [|by apply IH]. intros (b & E & Hb)%list_elem_of_fmap.
  apply list_elem_of_In, filter_In in Hb as [Hb _]. apply Ha. rewrite E. by apply list_elem_of_fmap_2, list_elem_of_In.
Qed.

(** ** Pages *)

Lemma list_cursor_spec cursor limit rows : (0 < limit)%Z ->
  let all := matching cursor rows in
  list_cursor cursor limit rows =
    Ok (take (Z.to_nat limit) all,
        if (limit <? Z.of_nat (length all))%Z then key <$> last (take (Z.to_nat limit) all) else None,
        (limit <? Z.of_nat (length all))%Z).
Proof.
  intros Hl all. unfold list_cursor, get_list_cursor, sql_page.
  replace ((0 <? 0) || (limit + 1 <? 0))%Z with false by (symmetry; apply orb_false_iff; lia).
  change (merge_sort _ _) with all. cbn [mbind res_bind].
  rewrite drop_0, take_take, length_take. replace (Z.to_nat limit `min` Z.to_nat (limit + 1)) with (Z.to_nat limit) by lia.
  replace (limit <? Z.of_nat (Z.to_nat (limit + 1) `min` length all))%Z with (limit <? Z.of_nat (length all))%Z; [done|].
  apply eq_true_iff_eq. rewrite !Z.ltb_lt. lia.
Qed.

(** A page ends at its oldest row; the rows it leaves out are older. *)
Lemma page_cut all n b : StronglySorted descending all -> last (take n all) = Some b ->
  b ∈ all /\
  (forall x, x ∈ take n all -> key b = key x \/ descending x b) /\
  (forall x, x ∈ all -> x ∈ take n all \/ older (key x) (key b) = true).
Proof.
  intros Hs (items & E)%last_Some. pose proof (take_drop n all) as Hall. rewrite E in *.
  set (others := drop n all) in *. clearbody others. clear E. subst all. rewrite <- app_assoc in Hs. pose proof (StronglySorted_app_1_r _ _ _ Hs) as Hb. split_and!; [set_solver| |].
  - intros x [Hx| ->%list_elem_of_singleton]%elem_of_app; [right|by left].
    by eapply (StronglySorted_app_1_elem_of descending items ([b] ++ others)); [| |left].
  - intros x [Hx|Hx]%elem_of_app; [by left|right].
    by eapply (StronglySorted_app_1_elem_of descending [b] others); [|left|].
Qed.

(** What a client has after a walk over [tables] from [cursor]. *)
Definition walked (limit : Z) (cursor : option (Z * N)) (tables : list (list A)) (items : list A) (finished : bool) : Prop :=
  StronglySorted descending items /\
  (forall row, row ∈ items -> after_cursor cursor row = true /\ exists rows, rows ∈ tables /\ row ∈ rows) /\
  (finished = true -> forall row, after_cursor cursor row = true -> (forall rows, rows ∈ tables -> row ∈ rows) -> row ∈ items) /\
  (finished = false -> Z.of_nat (length items) = limit * Z.of_nat (length tables))%Z.

(** A last page. *)
Lemma walked_end limit cursor rows tables : NoDup (key <$> rows) ->
  walked limit cursor (rows :: tables) (matching cursor rows) true.
Proof.
  intros Hn. split_and!; [by apply matching_descending| |intros _|done].
  - intros x [Hxr Hxc]%elem_of_matching. split; [done|]. exists rows. split; [left|done].
  - intros x Hx Hxr. apply elem_of_matching. split; [apply Hxr; left|done].
Qed.

(** A full page, and the walk from its cursor. *)
Lemma walked_page limit cursor rows tables b more finished : (0 < limit)%Z -> NoDup (key <$> rows) ->
  (limit < Z.of_nat (length (matching cursor rows)))%Z ->
  last (take (Z.to_nat limit) (matching cursor rows)) = Some b ->
  walked limit (Some (key b)) tables more finished ->
  walked limit cursor (rows :: tables) (take (Z.to_nat limit) (matching cursor rows) ++ more) finished.
Proof.
  intros Hlim Hn Hlen Hb (Hs & Hin & Hall & Hcount).
  pose proof (matching_descending cursor rows Hn) as Hsa.
  destruct (page_cut _ _ _ Hsa Hb) as (Hbin & Hold & Hcut). apply elem_of_matching in Hbin as [_ Hbc].
  split_and!.
  - apply StronglySorted_app_2; [| |done].
    + intros x y Hx [Hy _]%Hin. unfold descending. destruct (Hold x Hx) as [<-|Hxb]; [done|by eapply older_trans].
    + rewrite <- (take_drop (Z.to_nat limit)) in Hsa. by eapply StronglySorted_app_1_l.
  - intros x [Hx|Hx]%elem_of_app.
    + apply elem_of_take in Hx as (i & Hx & _). apply list_elem_of_lookup_2, elem_of_matching in Hx as [Hxr Hxc].
      split; [done|]. exists rows. split; [left|done].
    + apply Hin in Hx as (Hx & rows' & Hr & Hxr). split; [|exists rows'; split; [by right|done]].
      destruct cursor as [c|]; [|done]. by eapply older_trans.
  - intros Hf x Hx Hxr. apply elem_of_app. destruct (Hcut x) as [Hxi|Hxo]; [|by left|right].
    + apply elem_of_matching. split; [apply Hxr; left|done].
    + apply Hall; [done..|]. intros rows' Hr. apply Hxr. by right.
  - intros Hf. apply Hcount in Hf. rewrite length_app, length_take. cbn [length]. lia.
Qed.

Lemma walk_spec limit cursor tables : (0 < limit)%Z -> Forall (fun rows => NoDup (key <$> rows)) tables ->
  exists items finished, walk limit cursor tables = Ok (items, finished) /\ walked limit cursor tables items finished.
Proof.
  intros Hlim Ht. revert cursor. induction Ht as [|rows tables Hn _ IH]; intros cursor.
  - exists [], false. split; [done|]. split_and!; [constructor|set_solver|done|cbn; lia].
  - cbn [walk]. rewrite list_cursor_spec by done. cbn [mbind res_bind].
    destruct (Z.ltb_spec limit (Z.of_nat (length (matching cursor rows)))) as [Hlen|Hlen].
    + destruct (last (take _ _)) as [b|] eqn:Hb.
      2: { apply last_None in Hb. apply (f_equal length) in Hb. rewrite length_take in Hb. cbn in Hb. lia. }
      cbn [fmap option_fmap option_map]. destruct (IH (Some (key b))) as (more & finished & -> & Hw).
      cbn [mbind res_bind]. eexists _, finished. split; [done|]. by eapply walked_page.
    + rewrite take_ge by lia. eexists _, true. split; [done|]. by apply walked_end.
Qed.
End keyset.
