(* ===== verification/Nodes.v ===== *)
(** * The node tables

    [app/adapters/persistence/dao/node.py], [dao/node_status_history.py] and the gateways
    over them: [node_management.py], [node_reader.py], [node_bulk_operator.py] and
    [node_status_history.py].  A method of a gateway is a function on the two tables; the
    constraints are those of [app/models/node.py] and [node_status_history.py].  Identifiers
    are drawn from a counter; what a column type refuses is a parameter. *)
From stdpp Require Import sorting.
From S2P Require Import Prelude PyStr Errors Effects Dto Commands Packs Query.

(** ** Rows *)

Record NodeModel := {
  nm_name : pystr; nm_host : pystr; nm_port : Z; nm_connection_type : pystr; nm_status : pystr;
  nm_username : option pystr; nm_password : option pystr; nm_ssh_key : option pystr; nm_passphrase : option pystr;
  nm_docker_host : option pystr; nm_has_docker : bool; nm_tags : option (list pystr);
  nm_description : option pystr; nm_created_at : Z; nm_updated_at : Z }.
Record NodeStatusHistoryModel := {
  sh_node_id : option uuid; sh_old_status : option pystr; sh_new_status : pystr; sh_source : pystr;
  sh_changed_at : Z }.
Record node_tables := {
  nt_nodes : list (uuid * NodeModel); nt_history : list (uuid * NodeStatusHistoryModel); nt_next : uuid }.
Definition set_nodes (s : node_tables) (x : list (uuid * NodeModel)) : node_tables :=
  {| nt_nodes := x; nt_history := nt_history s; nt_next := nt_next s |}.

(** ** Data ([dto/node_management.py], [dto/bulk_node_operation.py], [dto/node_status_history.py]) *)

(** [NodeUpdateValue], and the times the gateway adds. *)
Inductive update_value :=
| UStr (s : pystr) | UInt (z : Z) | UBool (b : bool) | UTags (tags : list pystr) | UTime (t : Z) | UNone.
Record NodeCreateDTO := {
  nc_name : pystr; nc_endpoint : NodeEndpoint; nc_credentials : NodeCredentials; nc_tags : list pystr }.
Record NodeListQueryDTO := { nl_offset : Z; nl_limit : Z; nl_tags : list pystr; nl_search : option pystr }.
Record NodeCursorQueryDTO := {
  nq_cursor : option (Z * uuid); nq_limit : Z; nq_tags : list pystr; nq_search : option pystr }.
Record NodePageDTO := { np_items : list NodeViewDTO; np_total : Z }.
Record NodeCursorPageDTO := {
  nk_items : list NodeViewDTO; nk_next_cursor : option (Z * uuid); nk_has_more : bool }.
Record BulkNodeOperationResultDTO := { bo_affected : Z; bo_node_ids : list uuid }.
Record BulkNodeCheckDetailDTO := {
  bd_node_id : pystr; bd_success : bool; bd_error : option pystr; bd_new_status : option pystr }.
Record BulkNodeCheckResultDTO := {
  bk_total : Z; bk_succeeded : Z; bk_failed : Z; bk_node_ids : list uuid; bk_details : list BulkNodeCheckDetailDTO }.
Record NodeStatusHistoryRecordDTO := { hr_id : uuid; hr_row : NodeStatusHistoryModel }.

Definition _to_view (kv : uuid * NodeModel) : NodeViewDTO :=
  let '(id, node) := kv in
  {| nv_id := id; nv_name := nm_name node;
     nv_endpoint := {| ep_host := nm_host node; ep_port := nm_port node; ep_connection_type := nm_connection_type node;
                       ep_docker_host := nm_docker_host node; ep_has_docker := nm_has_docker node |};
     nv_status := nm_status node; nv_username := nm_username node; nv_tags := default [] (nm_tags node);
     nv_created_at := nm_created_at node; nv_updated_at := nm_updated_at node |}.
Definition _to_connection_dto (kv : uuid * NodeModel) : NodeConnectionDTO :=
  let '(id, node) := kv in
  {| n_id := id; n_name := nm_name node;
     n_endpoint := {| ep_host := nm_host node; ep_port := nm_port node; ep_connection_type := nm_connection_type node;
                      ep_docker_host := nm_docker_host node; ep_has_docker := nm_has_docker node |};
     n_credentials := {| cr_username := nm_username node; cr_password := nm_password node;
                         cr_ssh_key := nm_ssh_key node; cr_passphrase := nm_passphrase node |} |}.

(** ** Constraints *)

Definition node_statuses : list pystr := [ #"active"; #"unreachable"; #"error"].
Definition status_sources : list pystr := [ #"connectivity_check"; #"manual_update"].

Section tables.
(** What the column types refuse: a text that is too long, an integer out of range. *)
Context (node_refused : NodeModel -> option exn).

(** The checks of the table on a row that is inserted or updated, beside the other rows. *)
Definition check_node (id : uuid) (row : NodeModel) (s : node_tables) : res unit :=
  match node_refused row with
  | Some e => Raise e
  | None =>
      if negb (bool_decide (nm_status row ∈ node_statuses))
      then raise IntegrityError #"CHECK constraint failed: chk_nodes_status"
      else if negb (str_eqb (nm_connection_type row) #"ssh")
      then raise IntegrityError #"CHECK constraint failed: chk_nodes_connection_type"
      else if existsb (fun kv => negb (kv.1 =? id)%N && str_eqb (nm_name kv.2) (nm_name row)) (nt_nodes s)
      then raise IntegrityError #"UNIQUE constraint failed: nodes.name"
      else Ok tt
  end.

(** A method that writes; one that raises is rolled back. *)
Definition tx (A : Type) : Type := node_tables -> res (A * node_tables).
Definition begin {A} (m : tx A) (s : node_tables) : res A * node_tables :=
  match m s with Ok (a, s') => (Ok a, s') | Raise e => (Raise e, s) end.

(** ** The repository *)

Definition get_by_id (id : uuid) (s : node_tables) : option NodeModel := dict_get (nt_nodes s) id.

(** [create(data)]: the columns that are not given take their defaults. *)
Definition create (name host : pystr) (port : Z) (connection_type : pystr) (credentials : NodeCredentials)
    (docker_host : option pystr) (has_docker : bool) (tags : list pystr) (created updated : Z)
    : tx (uuid * NodeModel) := fun s =>
  let id := nt_next s in
  let node := {| nm_name := name; nm_host := host; nm_port := port; nm_connection_type := connection_type;
                 nm_status := #"active"; nm_username := cr_username credentials;
                 nm_password := cr_password credentials; nm_ssh_key := cr_ssh_key credentials;
                 nm_passphrase := cr_passphrase credentials; nm_docker_host := docker_host;
                 nm_has_docker := has_docker; nm_tags := Some tags; nm_description := None;
                 nm_created_at := created; nm_updated_at := updated |} in
  check_node id node s;;
  Ok ((id, node), {| nt_nodes := nt_nodes s ++ [(id, node)]; nt_history := nt_history s; nt_next := (id + 1)%N |}).

(** [setattr(node, key, value)] and the column it is flushed to: a value of another type is
    refused, a key that is no column is an attribute of the object and nothing more. *)
Definition not_null : res NodeModel := raise IntegrityError #"NOT NULL constraint failed".
Definition bad_type : res NodeModel := raise DBAPIError #"invalid input for query argument".
Definition opt_str (value : update_value) : option (option pystr) :=
  match value with UStr s => Some (Some s) | UNone => Some None | _ => None end.

Definition setattr (key : pystr) (value : update_value) (m : NodeModel) : res NodeModel :=
  let text (set : pystr -> NodeModel) := match value with UStr s => Ok (set s) | UNone => not_null | _ => bad_type end in
  let optional (set : option pystr -> NodeModel) := match opt_str value with Some o => Ok (set o) | None => bad_type end in
  let time (set : Z -> NodeModel) := match value with UTime t => Ok (set t) | UNone => not_null | _ => bad_type end in
  let with_fields name host port connection_type status username password ssh_key passphrase docker_host has_docker
      tags description created updated :=
    {| nm_name := name; nm_host := host; nm_port := port; nm_connection_type := connection_type; nm_status := status;
       nm_username := username; nm_password := password; nm_ssh_key := ssh_key; nm_passphrase := passphrase;
       nm_docker_host := docker_host; nm_has_docker := has_docker; nm_tags := tags; nm_description := description;
       nm_created_at := created; nm_updated_at := updated |} in
  let '{| nm_name := n; nm_host := h; nm_port := p; nm_connection_type := c; nm_status := st; nm_username := u;
          nm_password := pw; nm_ssh_key := k; nm_passphrase := pp; nm_docker_host := dh; nm_has_docker := hd;
          nm_tags := t; nm_description := d; nm_created_at := cr; nm_updated_at := up |} := m in
  if str_eqb key #"name" then text (fun x => with_fields x h p c st u pw k pp dh hd t d cr up)
  else if str_eqb key #"host" then text (fun x => with_fields n x p c st u pw k pp dh hd t d cr up)
  else if str_eqb key #"port" then
    match value with UInt x => Ok (with_fields n h x c st u pw k pp dh hd t d cr up) | UNone => not_null | _ => bad_type end
  else if str_eqb key #"connection_type" then text (fun x => with_fields n h p x st u pw k pp dh hd t d cr up)
  else if str_eqb key #"status" then text (fun x => with_fields n h p c x u pw k pp dh hd t d cr up)
  else if str_eqb key #"username" then optional (fun x => with_fields n h p c st x pw k pp dh hd t d cr up)
  else if str_eqb key #"password" then optional (fun x => with_fields n h p c st u x k pp dh hd t d cr up)
  else if str_eqb key #"ssh_key" then optional (fun x => with_fields n h p c st u pw x pp dh hd t d cr up)
  else if str_eqb key #"passphrase" then optional (fun x => with_fields n h p c st u pw k x dh hd t d cr up)
  else if str_eqb key #"docker_host" then optional (fun x => with_fields n h p c st u pw k pp x hd t d cr up)
  else if str_eqb key #"has_docker" then
    match value with UBool x => Ok (with_fields n h p c st u pw k pp dh x t d cr up) | UNone => not_null | _ => bad_type end
  else if str_eqb key #"tags" then
    match value with
    | UTags x => Ok (with_fields n h p c st u pw k pp dh hd (Some x) d cr up)
    | UNone => Ok (with_fields n h p c st u pw k pp dh hd None d cr up)
    | _ => bad_type
    end
  else if str_eqb key #"description" then optional (fun x => with_fields n h p c st u pw k pp dh hd t x cr up)
  else if str_eqb key #"created_at" then time (fun x => with_fields n h p c st u pw k pp dh hd t d x up)
  else if str_eqb key #"updated_at" then time (fun x => with_fields n h p c st u pw k pp dh hd t d cr x)
  else if str_eqb key #"id" then bad_type
  else Ok m.

Fixpoint set_all (changes : list (pystr * update_value)) (m : NodeModel) : res NodeModel :=
  match changes with
  | [] => Ok m
  | (key, value) :: changes => m ← setattr key value m; set_all changes m
  end.

(** [update(id, data)]. *)
Definition update (id : uuid) (data : list (pystr * update_value)) : tx (option (uuid * NodeModel)) := fun s =>
  match get_by_id id s with
  | None => Ok (None, s)
  | Some node =>
      node ← set_all data node;
      check_node id node s;;
      Ok (Some (id, node), set_nodes s (dict_set (nt_nodes s) id node))
  end.

(** [session.delete(node)]: the records of its history lose their node. *)
Definition forget_node (id : uuid) (row : NodeStatusHistoryModel) : NodeStatusHistoryModel :=
  if bool_decide (sh_node_id row = Some id) then
    {| sh_node_id := None; sh_old_status := sh_old_status row; sh_new_status := sh_new_status row;
       sh_source := sh_source row; sh_changed_at := sh_changed_at row |}
  else row.
Definition delete_row (id : uuid) (s : node_tables) : node_tables :=
  {| nt_nodes := dict_pop (nt_nodes s) id; nt_history := prod_map (fun x => x) (forget_node id) <$> nt_history s;
     nt_next := nt_next s |}.
Definition delete (id : uuid) : tx bool := fun s =>
  match get_by_id id s with None => Ok (false, s) | Some _ => Ok (true, delete_row id s) end.

(** ** Queries *)

Context `{Scans} `{Collation}.

Definition get_all (skip limit : Z) (s : node_tables) : res (list (uuid * NodeModel)) :=
  sql_page skip limit (scan 0 (nt_nodes s)).
Definition node_count (s : node_tables) : Z := Z.of_nat (length (nt_nodes s)).
Definition node_columns (kv : uuid * NodeModel) : list (option pystr) := [Some (nm_name kv.2); Some (nm_host kv.2)].
Definition _apply_filters (tags : option (list pystr)) (search : option pystr) (rows : list (uuid * NodeModel))
    : list (uuid * NodeModel) :=
  apply_filters (fun kv => nm_tags kv.2) node_columns tags search rows.
Definition get_filtered (tags : option (list pystr)) (search : option pystr) (skip limit : Z) (s : node_tables)
    : res (list (uuid * NodeModel)) :=
  sql_page skip limit (scan 0 (_apply_filters tags search (nt_nodes s))).
Definition count_filtered (tags : option (list pystr)) (search : option pystr) (s : node_tables) : Z :=
  Z.of_nat (length (_apply_filters tags search (nt_nodes s))).
(** The limit has a default of 100 that no caller changes. *)
Definition get_by_tags (tags : list pystr) (s : node_tables) : res (list (uuid * NodeModel)) :=
  sql_page 0 100 (scan 0 (List.filter (fun kv => has_tags tags (nm_tags kv.2)) (nt_nodes s))).
Definition get_by_ids (ids : list uuid) (s : node_tables) : list (uuid * NodeModel) :=
  match ids with
  | [] => []
  | _ => scan 0 (List.filter (fun kv => bool_decide (kv.1 ∈ ids)) (nt_nodes s))
  end.
Definition node_key (kv : uuid * NodeModel) : Z * N := (nm_created_at kv.2, kv.1).

(** [sorted] on strings compares code points. *)
Fixpoint str_leb (s t : pystr) : bool :=
  match s, t with
  | [], _ => true
  | _, [] => false
  | c :: s, d :: t => ((c <? d) || ((c =? d) && str_leb s t))%N
  end.
Definition str_le (s t : pystr) : Prop := str_leb s t = true.
#[local] Instance str_le_dec s t : Decision (str_le s t) := decide (_ = _).
Definition get_all_tags (s : node_tables) : list pystr :=
  merge_sort str_le
    (List.filter (fun tag => negb (str_eqb tag [])) (remove_dups (flat_map (fun kv => default [] (nm_tags kv.2)) (nt_nodes s)))).

(** ** The node reader ([node_reader.py]) *)

Definition get_connection (id : uuid) (s : node_tables) : option NodeConnectionDTO :=
  (fun node => _to_connection_dto (id, node)) <$> get_by_id id s.
Definition get_connections_by_ids (ids : list uuid) (s : node_tables) : list NodeConnectionDTO :=
  _to_connection_dto <$> get_by_ids ids s.
Definition get_connections_by_tags (tags : list pystr) (s : node_tables) : res (list NodeConnectionDTO) :=
  nodes ← get_by_tags tags s; Ok (fmap (M:=list) _to_connection_dto nodes).
Definition get_connections_by_type (connection_type : pystr) (s : node_tables) : list NodeConnectionDTO :=
  _to_connection_dto <$> scan 0 (List.filter (fun kv => str_eqb (nm_connection_type kv.2) connection_type) (nt_nodes s)).

(** ** The management gateway ([node_management.py]) *)

Definition get_node (id : uuid) (s : node_tables) : option NodeViewDTO :=
  (fun node => _to_view (id, node)) <$> get_by_id id s.
Definition tags_or_none (tags : list pystr) : option (list pystr) := match tags with [] => None | _ => Some tags end.
Definition list_nodes (query : NodeListQueryDTO) (s : node_tables) : res NodePageDTO :=
  let tags := tags_or_none (nl_tags query) in
  let searching := match nl_search query with Some (_ :: _) => true | _ => false end in
  if bool_decide (tags <> None) || searching then
    nodes ← get_filtered tags (nl_search query) (nl_offset query) (nl_limit query) s;
    Ok {| np_items := _to_view <$> nodes; np_total := count_filtered tags (nl_search query) s |}
  else
    nodes ← get_all (nl_offset query) (nl_limit query) s;
    Ok {| np_items := _to_view <$> nodes; np_total := node_count s |}.
Definition list_nodes_cursor (query : NodeCursorQueryDTO) (s : node_tables) : res NodeCursorPageDTO :=
  '(items, next_cursor, has_more) ←
    list_cursor node_key (nq_cursor query) (nq_limit query)
      (_apply_filters (tags_or_none (nq_tags query)) (nq_search query) (nt_nodes s));
  Ok {| nk_items := _to_view <$> items; nk_next_cursor := next_cursor; nk_has_more := has_more |}.
Definition list_tags (s : node_tables) : list pystr := get_all_tags s.

(** Every refusal by a constraint is reported as a taken name. *)
Definition create_node (data : NodeCreateDTO) (created updated : Z) (s : node_tables) : res NodeViewDTO * node_tables :=
  let endpoint := nc_endpoint data in
  match begin (create (nc_name data) (ep_host endpoint) (ep_port endpoint) (ep_connection_type endpoint)
                 (nc_credentials data) (ep_docker_host endpoint) (ep_has_docker endpoint) (nc_tags data) created updated) s with
  | (Ok node, s) => (Ok (_to_view node), s)
  | (Raise e, s) =>
      if isinstance (exn_type e) IntegrityError
      then (raise NodeNameConflictError (#"Node name '" ++ nc_name data ++ #"' already exists"), s)
      else (Raise e, s)
  end.
Definition viewed (m : tx (option (uuid * NodeModel))) : tx (option NodeViewDTO) := fun s =>
  match m s with Ok (node, s) => Ok (_to_view <$> node, s) | Raise e => Raise e end.
Definition update_node (id : uuid) (changes : list (pystr * update_value)) (now : Z) (s : node_tables)
    : res (option NodeViewDTO) * node_tables :=
  begin (viewed (update id (dict_set (dict_of changes) #"updated_at" (UTime now)))) s.
Definition delete_node (id : uuid) (s : node_tables) : res bool * node_tables := begin (delete id) s.
Definition update_node_status (id : uuid) (status : pystr) (now : Z) (s : node_tables)
    : res (option NodeViewDTO) * node_tables :=
  begin (viewed (update id [(#"status", UStr status); (#"updated_at", UTime now)])) s.

(** ** The bulk operator ([node_bulk_operator.py]) *)

(** The rows of a [WHERE id IN (...)], an empty list matching none. *)
Definition rows_in (ids : list uuid) (s : node_tables) : list (uuid * NodeModel) :=
  scan 0 (List.filter (fun kv => bool_decide (kv.1 ∈ ids)) (nt_nodes s)).
Definition bulk_delete (node_ids : list uuid) : tx BulkNodeOperationResultDTO := fun s =>
  let existing_ids := (rows_in node_ids s).*1 in
  Ok ({| bo_affected := Z.of_nat (length existing_ids); bo_node_ids := existing_ids |},
      fold_left (fun s id => delete_row id s) existing_ids s).

Definition with_tags (tags : list pystr) (updated : Z) (m : NodeModel) : NodeModel :=
  {| nm_name := nm_name m; nm_host := nm_host m; nm_port := nm_port m; nm_connection_type := nm_connection_type m;
     nm_status := nm_status m; nm_username := nm_username m; nm_password := nm_password m; nm_ssh_key := nm_ssh_key m;
     nm_passphrase := nm_passphrase m; nm_docker_host := nm_docker_host m; nm_has_docker := nm_has_docker m;
     nm_tags := Some tags; nm_description := nm_description m; nm_created_at := nm_created_at m; nm_updated_at := updated |}.
(** The loops over the tags of a request: what a node has afterwards, and whether it changed. *)
Fixpoint add_tags (tags existing : list pystr) (changed : bool) : list pystr * bool :=
  match tags with
  | [] => (existing, changed)
  | tag :: tags =>
      if bool_decide (tag ∈ existing) then add_tags tags existing changed
      else add_tags tags (existing ++ [tag]) true
  end.
Definition remove_tags (tags existing : list pystr) : list pystr * bool :=
  let new_tags := List.filter (fun t => negb (bool_decide (t ∈ tags))) existing in
  (new_tags, negb (length new_tags =? length existing)).
(** The nodes that change are flushed with the time of the flush. *)
Fixpoint edit_tags (edit : list pystr -> list pystr * bool) (now : Z) (nodes : list (uuid * NodeModel)) : tx (list uuid) := fun s =>
  match nodes with
  | [] => Ok ([], s)
  | (id, node) :: nodes =>
      let '(tags, changed) := edit (default [] (nm_tags node)) in
      if changed then
        let node' := with_tags tags now node in
        check_node id node' s;;
        '(affected_ids, s) ← edit_tags edit now nodes (set_nodes s (dict_set (nt_nodes s) id node'));
        Ok (id :: affected_ids, s)
      else edit_tags edit now nodes s
  end.
Definition bulk_edit (edit : list pystr -> list pystr * bool) (now : Z) (node_ids : list uuid) : tx BulkNodeOperationResultDTO := fun s =>
  '(affected_ids, s) ← edit_tags edit now (rows_in node_ids s) s;
  Ok ({| bo_affected := Z.of_nat (length affected_ids); bo_node_ids := affected_ids |}, s).
Definition bulk_add_tags (node_ids : list uuid) (tags : list pystr) (now : Z) : tx BulkNodeOperationResultDTO :=
  bulk_edit (fun existing => add_tags tags existing false) now node_ids.
Definition bulk_remove_tags (node_ids : list uuid) (tags : list pystr) (now : Z) : tx BulkNodeOperationResultDTO :=
  bulk_edit (remove_tags tags) now node_ids.

(** [bulk_check]: the texts are turned into identifiers by the driver. *)
Fixpoint driver_uuids (to_uuid : pystr -> option uuid) (node_ids : list pystr) : res (list uuid) :=
  match node_ids with
  | [] => Ok []
  | text :: node_ids =>
      match to_uuid text with
      | Some id => ids ← driver_uuids to_uuid node_ids; Ok (id :: ids)
      | None => raise DBAPIError #"invalid input for query argument"
      end
  end.
Definition bulk_check (to_uuid : pystr -> option uuid) (node_ids : list pystr) (s : node_tables) : res BulkNodeCheckResultDTO :=
  match node_ids with
  | [] => Ok {| bk_total := 0; bk_succeeded := 0; bk_failed := 0; bk_node_ids := []; bk_details := [] |}
  | _ =>
      ids ← driver_uuids to_uuid node_ids;
      let existing_ids := (rows_in ids s).*1 in
      let total := Z.of_nat (length node_ids) in
      let succeeded := Z.of_nat (length existing_ids) in
      Ok {| bk_total := total; bk_succeeded := succeeded; bk_failed := total - succeeded; bk_node_ids := existing_ids;
            bk_details := [] |}
  end.

(** ** Status history ([node_status_history.py]) *)

Definition save_status_change (data : NodeStatusChangeDTO) (now : Z) : tx unit := fun s =>
  let row := {| sh_node_id := Some (sc_node_id data); sh_old_status := sc_old_status data;
                sh_new_status := sc_new_status data; sh_source := sc_source data; sh_changed_at := now |} in
  if negb (match sh_old_status row with None => true | Some old => bool_decide (old ∈ node_statuses) end &&
           bool_decide (sh_new_status row ∈ node_statuses) && bool_decide (sh_source row ∈ status_sources))
  then raise IntegrityError #"CHECK constraint failed: node_status_history"
  else match get_by_id (sc_node_id data) s with
       | None => raise IntegrityError #"FOREIGN KEY constraint failed: node_status_history.node_id"
       | Some _ => Ok (tt, {| nt_nodes := nt_nodes s; nt_history := nt_history s ++ [(nt_next s, row)];
                              nt_next := (nt_next s + 1)%N |})
       end.
Definition later_first (a b : uuid * NodeStatusHistoryModel) : Prop := (sh_changed_at b.2 <= sh_changed_at a.2)%Z.
#[local] Instance later_first_dec a b : Decision (later_first a b) := decide (_ <= _)%Z.
Definition list_by_node (node_id : uuid) (offset limit : Z) (s : node_tables)
    : res (list NodeStatusHistoryRecordDTO * Z) :=
  let records := List.filter (fun kv => bool_decide (sh_node_id kv.2 = Some node_id)) (nt_history s) in
  page ← sql_page offset limit (merge_sort later_first (scan 0 records));
  Ok (fmap (M:=list) (fun kv => {| hr_id := kv.1; hr_row := kv.2 |}) page, Z.of_nat (length records)).
End tables.
