(* ===== verification/NodeInv.v ===== *)
(** * What the node tables promise

    The invariant of the tables over every history of operations, what the edits of tags
    do, and what a client sees that follows the cursors of the listing while the table
    changes. *)
From Stdlib Require Import Sorting.Sorted.
From stdpp Require Import sorting.
From S2P Require Import Prelude PyStr Errors Effects Dto Commands Packs Query Nodes.

(** ** The invariant *)

Record row_ok (id next : uuid) (row : NodeModel) : Prop := {
  ok_status : nm_status row ∈ node_statuses;
  ok_type : nm_connection_type row = #"ssh";
  ok_id : (id < next)%N }.
Record record_ok (row : NodeStatusHistoryModel) : Prop := {
  ok_old : forall old, sh_old_status row = Some old -> old ∈ node_statuses;
  ok_new : sh_new_status row ∈ node_statuses;
  ok_source : sh_source row ∈ status_sources }.
Record tables_ok (s : node_tables) : Prop := {
  ok_ids : NoDup (nt_nodes s).*1;
  ok_names : forall i j a b, get_by_id i s = Some a -> get_by_id j s = Some b -> nm_name a = nm_name b -> i = j;
  ok_rows : forall i a, get_by_id i s = Some a -> row_ok i (nt_next s) a;
  ok_history : forall k h, (k, h) ∈ nt_history s ->
    record_ok h /\ forall id, sh_node_id h = Some id -> is_Some (get_by_id id s) }.

Section preservation.
Context (node_refused : NodeModel -> option exn) `{Scans}.
Implicit Types (s : node_tables) (id : uuid).

Lemma check_node_ok id row s : check_node node_refused id row s = Ok tt ->
  node_refused row = None /\ nm_status row ∈ node_statuses /\ nm_connection_type row = #"ssh" /\
  forall j b, get_by_id j s = Some b -> j <> id -> nm_name b <> nm_name row.
Proof.
  unfold check_node. destruct (node_refused row); [done|]. case_bool_decide as Hs; [|done]. cbn [negb].
  destruct (str_eqb _ _) eqn:Ht; [|done]. cbn [negb]. apply str_eqb_eq in Ht.
  destruct (existsb _ _) eqn:He; [done|]. intros _. split_and!; [done..|].
  intros j b Hj Hne Hn. apply not_true_iff_false in He. apply He, existsb_exists. exists (j, b).
  split; [by apply list_elem_of_In, dict_get_elem|]. cbn. rewrite andb_true_iff, negb_true_iff, N.eqb_neq.
  split; [done|by apply str_eqb_eq].
Qed.

Lemma ok_bound s id : tables_ok s -> is_Some (get_by_id id s) -> (id < nt_next s)%N.
Proof. intros Hs [a Ha]. by eapply ok_id, ok_rows. Qed.

Lemma row_ok_mono id n n' row : row_ok id n row -> (n <= n')%N -> row_ok id n' row.
Proof. intros [? ? ?] ?. split; [done..|lia]. Qed.

(** An inserted row. *)
Lemma ok_insert s row : tables_ok s -> check_node node_refused (nt_next s) row s = Ok tt ->
  tables_ok {| nt_nodes := nt_nodes s ++ [(nt_next s, row)]; nt_history := nt_history s; nt_next := (nt_next s + 1)%N |}.
Proof.
  intros Hs (_ & Hst & Hty & Hn)%check_node_ok. destruct Hs as [Hids Hnames Hrows Hhist].
  assert (Hnew : get_by_id (nt_next s) s = None).
  { destruct (get_by_id (nt_next s) s) as [a|] eqn:Ha; [|done]. apply Hrows in Ha as [_ _ Ha]. lia. }
  assert (Hget : forall i, get_by_id i {| nt_nodes := nt_nodes s ++ [(nt_next s, row)]; nt_history := nt_history s;
      nt_next := (nt_next s + 1)%N |} = if decide (i = nt_next s) then Some row else get_by_id i s).
  { intros i. by apply dict_get_snoc. }
  split; cbn [nt_nodes nt_history nt_next].
  - rewrite fmap_app. apply NoDup_app. split_and!; [done| |apply NoDup_singleton].
    intros x Hx ->%list_elem_of_singleton. apply dict_get_key in Hx as [a Ha]. cbn in Ha. unfold get_by_id in Hnew. congruence.
  - intros i j a b. rewrite !Hget. repeat case_decide; intros; simplify_eq; try done.
    + by destruct (Hn j b).
    + by destruct (Hn i a).
    + by eapply Hnames.
  - intros i a. rewrite Hget. case_decide; intros; simplify_eq; [split; [done..|lia]|].
    eapply row_ok_mono; [by apply Hrows|lia].
  - intros k h Hh. destruct (Hhist k h Hh) as [Hr Hid]. split; [done|].
    intros id Hi. rewrite Hget. case_decide; [done|by apply Hid].
Qed.

(** A changed row. *)
Lemma ok_set s id row : tables_ok s -> is_Some (get_by_id id s) -> check_node node_refused id row s = Ok tt ->
  tables_ok (set_nodes s (dict_set (nt_nodes s) id row)).
Proof.
  intros Hs Hid (_ & Hst & Hty & Hn)%check_node_ok. pose proof (ok_bound _ _ Hs Hid) as Hb.
  assert (Hget : forall i, get_by_id i (set_nodes s (dict_set (nt_nodes s) id row)) =
                   if decide (i = id) then Some row else get_by_id i s).
  { intros i. apply dict_get_set. }
  destruct Hs as [Hids Hnames Hrows Hhist]. split.
  - by apply dict_set_NoDup.
  - intros i j a b. rewrite !Hget. repeat case_decide; intros; simplify_eq; try done.
    + by destruct (Hn j b).
    + by destruct (Hn i a).
    + by eapply Hnames.
  - intros i a. rewrite Hget. case_decide; intros; simplify_eq; [by split|by apply Hrows].
  - intros k h Hh. destruct (Hhist k h Hh) as [Hr Hi]. split; [done|].
    intros j Hj. rewrite Hget. case_decide; [done|by apply Hi].
Qed.

Lemma get_delete_row id s i : get_by_id i (delete_row id s) = if decide (i = id) then None else get_by_id i s.
Proof. apply dict_get_pop. Qed.
(** A deleted row. *)
Lemma ok_delete s id : tables_ok s -> tables_ok (delete_row id s).
Proof.
  intros [Hids Hnames Hrows Hhist]. split.
  - by apply filter_keys.
  - intros i j a b. rewrite !get_delete_row. repeat case_decide; try done. apply Hnames.
  - intros i a. rewrite get_delete_row. case_decide; [done|apply Hrows].
  - intros k h (kv & E & Hh)%list_elem_of_fmap. destruct kv as [k' h']. injection E as -> ->.
    destruct (Hhist _ _ Hh) as [[? ? ?] Hid]. unfold forget_node.
    case_bool_decide as Hc; [by split; [split|]|]. split; [by split|].
    intros i Hi. rewrite get_delete_row, decide_False; [by apply Hid|congruence].
Qed.

(** A record of the history. *)
Lemma ok_save s data now s' : tables_ok s -> save_status_change data now s = Ok (tt, s') -> tables_ok s'.
Proof.
  unfold save_status_change. intros Hs. destruct (negb _) eqn:Hc; [done|].
  apply negb_false_iff in Hc. apply andb_true_iff in Hc as [Hc Hsource]. apply andb_true_iff in Hc as [Hold Hnew].
  destruct (get_by_id _ s) as [a|] eqn:Ha; [|done]. intros [= <-]. destruct Hs as [Hids Hnames Hrows Hhist].
  split; [done|done|intros i b Hb; eapply row_ok_mono; [by apply Hrows|cbn; lia]|].
  cbn [nt_history]. intros k h [Hh|[= -> ->]%list_elem_of_singleton]%elem_of_app; [by apply (Hhist k h)|].
  cbn in Hold, Hnew, Hsource. to_prop. split; [|cbn; intros id [= <-]; by exists a].
  split; [|done..]. cbn. intros old E. rewrite E in Hold. by to_prop.
Qed.

(** ** Edits of tags *)

Definition edited (edit : list pystr -> list pystr * bool) (kv : uuid * NodeModel) : bool := (edit (default [] (nm_tags kv.2))).2.
Definition edit_row (edit : list pystr -> list pystr * bool) (now : Z) (a : NodeModel) : NodeModel :=
  with_tags (edit (default [] (nm_tags a))).1 now a.

Lemma edit_tags_spec edit now nodes s ids s' : NoDup nodes.*1 ->
  (forall i a, (i, a) ∈ nodes -> get_by_id i s = Some a) -> edit_tags node_refused edit now nodes s = Ok (ids, s') ->
  ids = (List.filter (edited edit) nodes).*1 /\ (tables_ok s -> tables_ok s') /\
  nt_history s' = nt_history s /\ nt_next s' = nt_next s /\
  forall i, get_by_id i s' = (if bool_decide (i ∈ ids) then edit_row edit now else (fun a => a)) <$> get_by_id i s.
Proof.
  revert s ids. induction nodes as [|[id node] nodes IH]; cbn [edit_tags]; intros s ids Hn Hin.
  { intros [= <- <-]. split_and!; try done. intros i. by destruct (get_by_id i s). }
  cbn in Hn. apply NoDup_cons in Hn as [Hid Hn].
  assert (Hat : get_by_id id s = Some node) by (apply Hin; left).
  cbn [List.filter]. unfold edited at 1. cbn [snd].
  destruct (edit (default [] (nm_tags node))) as [tags changed] eqn:Ee. cbn [snd].
  destruct changed.
  - intros ([] & Hcheck & Hrest)%bind_ok. apply bind_ok in Hrest as ([ids' s''] & Htail & [= <- <-]).
    set (s1 := set_nodes s (dict_set (nt_nodes s) id (with_tags tags now node))) in *.
    assert (Hget : forall i, get_by_id i s1 = if decide (i = id) then Some (with_tags tags now node) else get_by_id i s).
    { intros i. apply dict_get_set. }
    apply IH in Htail as (-> & Hok & -> & -> & Hat'); [|done|].
    2: { intros i a Hi. rewrite Hget, decide_False; [apply Hin; by right|]. intros ->. apply Hid.
         by apply (list_elem_of_fmap_2 fst nodes (id, a)). }
    split_and!; try done.
    + intros Hs. apply Hok, ok_set; [done|by exists node|done].
    + intros i. rewrite Hat', Hget. cbn [fmap list_fmap fst]. case_decide as E.
      * subst i. rewrite Hat. rewrite (bool_decide_eq_true_2 (id ∈ id :: _)) by left.
        rewrite bool_decide_eq_false_2; [cbn; unfold edit_row; by rewrite Ee|].
        intros (kv & E & Hk)%list_elem_of_fmap. apply Hid. rewrite E. apply list_elem_of_fmap_2.
        apply list_elem_of_In, filter_In in Hk as [Hk _]. by apply list_elem_of_In.
      * f_equal. repeat case_bool_decide; set_solver.
  - intros Htail. apply IH in Htail as (-> & Hok & -> & -> & Hat'); [by split_and!|done|].
    intros i a Hi. apply Hin. by right.
Qed.

Lemma rows_in_spec ids s : tables_ok s ->
  NoDup (rows_in ids s).*1 /\ (forall i a, (i, a) ∈ rows_in ids s <-> get_by_id i s = Some a /\ i ∈ ids).
Proof.
  intros Hs. unfold rows_in. split; [rewrite scan_permutation; apply filter_keys, Hs|].
  intros i a. rewrite scan_permutation, list_elem_of_In, filter_In, <- list_elem_of_In, bool_decide_eq_true. cbn.
  split; (intros [Hi ?]; split; [|done]); [by apply dict_get_NoDup; [apply Hs|]|by apply dict_get_elem].
Qed.

Lemma edited_ids edit ids s : tables_ok s -> forall i,
  i ∈ (List.filter (edited edit) (rows_in ids s)).*1 <->
  i ∈ ids /\ exists a, get_by_id i s = Some a /\ edited edit (i, a) = true.
Proof.
  intros Hs i. destruct (rows_in_spec ids s Hs) as [_ Hin]. split.
  - intros ([j a] & -> & [Hj He]%list_elem_of_In%filter_In)%list_elem_of_fmap.
    apply list_elem_of_In, Hin in Hj as [? ?]. eauto.
  - intros (Hi & a & Ha & He). apply (list_elem_of_fmap_2 fst _ (i, a)), list_elem_of_In, filter_In.
    split; [by apply list_elem_of_In, Hin|done].
Qed.

(** What a bulk edit does: it reports, once each, the requested nodes that change, and
    changes their tags and nothing else. *)
Lemma bulk_edit_spec edit now ids s r s' : tables_ok s -> bulk_edit node_refused edit now ids s = Ok (r, s') ->
  tables_ok s' /\ NoDup (bo_node_ids r) /\ bo_affected r = Z.of_nat (length (bo_node_ids r)) /\
  (forall i, i ∈ bo_node_ids r <-> i ∈ ids /\ exists a, get_by_id i s = Some a /\ edited edit (i, a) = true) /\
  forall i, get_by_id i s' = (if bool_decide (i ∈ bo_node_ids r) then edit_row edit now else (fun a => a)) <$> get_by_id i s.
Proof.
  intros Hs ([affected s1] & He & [= <- <-])%bind_ok. cbn [bo_node_ids bo_affected].
  destruct (rows_in_spec ids s Hs) as [Hn Hin].
  apply edit_tags_spec in He as (-> & Hok & _ & _ & Hat); [|done|intros i a Hi; by apply Hin].
  split_and!; [by apply Hok|by apply filter_keys|done|by apply edited_ids|done].
Qed.

Lemma add_tags_spec tags existing changed :
  existing `prefix_of` (add_tags tags existing changed).1 /\
  (forall t, t ∈ (add_tags tags existing changed).1 <-> t ∈ existing \/ t ∈ tags) /\
  ((add_tags tags existing changed).2 = true <-> changed = true \/ exists t, t ∈ tags /\ t ∉ existing) /\
  ((add_tags tags existing changed).2 = false -> (add_tags tags existing changed).1 = existing).
Proof.
  revert existing changed. induction tags as [|tag tags IH]; cbn [add_tags]; intros existing changed.
  { split_and!; [done|set_solver|set_solver|done]. }
  case_bool_decide as Ht.
  - destruct (IH existing changed) as (Hp & Hin & Hc & Hs). split_and!; [done|set_solver|rewrite Hc; set_solver|done].
  - destruct (IH (existing ++ [tag]) true) as (Hp & Hin & Hc & Hs). split_and!.
    + etrans; [by eexists|done].
    + set_solver.
    + rewrite Hc. split; [intros _; right; exists tag; set_solver|by left].
    + intros Hf. apply not_true_iff_false in Hf. destruct Hf. apply Hc. by left.
Qed.

Lemma remove_tags_spec tags existing :
  (forall t, t ∈ (remove_tags tags existing).1 <-> t ∈ existing /\ t ∉ tags) /\
  ((remove_tags tags existing).2 = true <-> exists t, t ∈ tags /\ t ∈ existing) /\
  ((remove_tags tags existing).2 = false -> (remove_tags tags existing).1 = existing).
Proof.
  unfold remove_tags. cbn [fst snd]. set (f := fun t => negb (bool_decide (t ∈ tags))).
  assert (Hf : forall t, f t = true <-> t ∉ tags) by (intros t; unfold f; rewrite negb_true_iff; apply bool_decide_eq_false).
  assert (Hlen : length (List.filter f existing) = length existing <-> forall t, t ∈ existing -> f t = true).
  { split; [|intros Hall; by rewrite filter_all].
    intros Hl t Ht. apply (filter_length_forallb f) in Hl. rewrite forallb_forall in Hl. by apply Hl, list_elem_of_In. }
  split_and!.
  - intros t. rewrite list_elem_of_In, filter_In, <- list_elem_of_In, Hf. done.
  - rewrite negb_true_iff, Nat.eqb_neq, Hlen. split.
    + intros Hno. destruct (decide (Exists (fun t => t ∈ tags) existing)) as [He|He].
      * apply Exists_exists in He as (t & ? & ?). eauto.
      * destruct Hno. intros t Ht. apply Hf. intros Hin. apply He, Exists_exists. eauto.
    + intros (t & Ht & He) Hall. by apply Hall, Hf in He.
  - intros Hn. apply negb_false_iff, Nat.eqb_eq in Hn. apply filter_all. by apply Hlen.
Qed.

(** ** Histories *)

(** The writes of the gateways, and the rows an import of a configuration creates. *)
Inductive node_op :=
| CreateNode (data : NodeCreateDTO) (created updated : Z)
| UpdateNode (id : uuid) (changes : list (pystr * update_value)) (now : Z)
| UpdateStatus (id : uuid) (status : pystr) (now : Z)
| DeleteNode (id : uuid)
| BulkDelete (ids : list uuid)
| BulkAddTags (ids : list uuid) (tags : list pystr) (now : Z)
| BulkRemoveTags (ids : list uuid) (tags : list pystr) (now : Z)
| RecordStatus (data : NodeStatusChangeDTO) (now : Z).

Definition run_node_op (op : node_op) (s : node_tables) : node_tables :=
  match op with
  | CreateNode data created updated => (create_node node_refused data created updated s).2
  | UpdateNode id changes now => (update_node node_refused id changes now s).2
  | UpdateStatus id status now => (update_node_status node_refused id status now s).2
  | DeleteNode id => (delete_node id s).2
  | BulkDelete ids => (begin (bulk_delete ids) s).2
  | BulkAddTags ids tags now => (begin (bulk_add_tags node_refused ids tags now) s).2
  | BulkRemoveTags ids tags now => (begin (bulk_remove_tags node_refused ids tags now) s).2
  | RecordStatus data now => (begin (save_status_change data now) s).2
  end.
Definition no_nodes : node_tables := {| nt_nodes := []; nt_history := []; nt_next := 0 |}.
Definition node_history (ops : list node_op) : node_tables := fold_left (fun s op => run_node_op op s) ops no_nodes.

Lemma ok_begin {A} (m : tx A) s : tables_ok s -> (forall a s', m s = Ok (a, s') -> tables_ok s') -> tables_ok (begin m s).2.
Proof. intros Hs Hm. unfold begin. destruct (m s) as [[a s']|e]; [by eapply Hm|done]. Qed.

Lemma ok_create name host port ty creds dh hd tags created updated s r s' : tables_ok s ->
  create node_refused name host port ty creds dh hd tags created updated s = Ok (r, s') -> tables_ok s'.
Proof. intros Hs ([] & Hc & [= <- <-])%bind_ok. by apply ok_insert. Qed.

Lemma ok_update id data s r s' : tables_ok s -> update node_refused id data s = Ok (r, s') -> tables_ok s'.
Proof.
  unfold update. intros Hs. destruct (get_by_id id s) as [a|] eqn:Ha; [|by intros [= <- <-]].
  intros (node & _ & Hrest)%bind_ok. apply bind_ok in Hrest as ([] & Hc & [= <- <-]).
  apply ok_set; [done|by exists a|done].
Qed.

Lemma ok_viewed m s r s' : (forall r s', m s = Ok (r, s') -> tables_ok s') -> viewed m s = Ok (r, s') -> tables_ok s'.
Proof. unfold viewed. intros Hm. destruct (m s) as [[a s1]|e]; [|done]. intros [= <- <-]. by eapply Hm. Qed.

Lemma ok_run_node_op op s : tables_ok s -> tables_ok (run_node_op op s).
Proof.
  intros Hs. destruct op; cbn [run_node_op].
  - unfold create_node. pose proof (ok_begin (create node_refused (nc_name data) (ep_host (nc_endpoint data))
      (ep_port (nc_endpoint data)) (ep_connection_type (nc_endpoint data)) (nc_credentials data)
      (ep_docker_host (nc_endpoint data)) (ep_has_docker (nc_endpoint data)) (nc_tags data) created updated) s Hs) as Hb.
    destruct (begin _ s) as [[a|e] s']; cbn in Hb |- *; [|case_match]; apply Hb; intros ? ?; by apply ok_create.
  - apply ok_begin; [done|]. intros a s'. apply ok_viewed. intros r s1. by apply ok_update.
  - apply ok_begin; [done|]. intros a s'. apply ok_viewed. intros r s1. by apply ok_update.
  - apply ok_begin; [done|]. unfold delete. intros a s'. case_match; intros [= <- <-]; [by apply ok_delete|done].
  - apply ok_begin; [done|]. unfold bulk_delete. intros a s' [= <- <-].
    generalize (rows_in ids s).*1. intros l. revert s Hs. induction l as [|id l IH]; cbn; intros s Hs; [done|].
    by apply IH, ok_delete.
  - apply ok_begin; [done|]. intros a s' Hb. by eapply bulk_edit_spec in Hb as (? & _).
  - apply ok_begin; [done|]. intros a s' Hb. by eapply bulk_edit_spec in Hb as (? & _).
  - apply ok_begin; [done|]. intros [] s'. by apply ok_save.
Qed.

Lemma ok_node_history ops : tables_ok (node_history ops).
Proof.
  assert (H0 : tables_ok no_nodes). { split; try done; cbn; [apply NoDup_nil_2|]. intros k h Hh. by apply not_elem_of_nil in Hh. }
  unfold node_history. revert H0. generalize no_nodes. induction ops as [|op ops IH]; cbn; intros s Hs; [done|].
  by apply IH, ok_run_node_op.
Qed.
End preservation.

(** Names, as a list. *)
Lemma ok_names_distinct s : tables_ok s -> NoDup (nm_name <$> (nt_nodes s).*2).
Proof.
  intros [Hids Hnames _ _]. apply NoDup_fmap_2_strong.
  - intros a b (i & Ha)%elem_snd (j & Hb)%elem_snd Hn.
    apply dict_get_NoDup in Ha, Hb; [|done..]. pose proof (Hnames i j a b Ha Hb Hn) as ->. unfold get_by_id in *. congruence.
  - assert (Hd : forall i j a, (i, a) ∈ nt_nodes s -> (j, a) ∈ nt_nodes s -> i = j).
    { intros i j a Ha Hb. apply dict_get_NoDup in Ha, Hb; [|done..]. by eapply Hnames. }
    revert Hids Hd. clear. induction (nt_nodes s) as [|[k v] d IH]; [constructor|]. cbn. intros [Hk Hn]%NoDup_cons Hd.
    apply NoDup_cons. split.
    + intros (k' & Hk')%elem_snd. pose proof (Hd k k' v) as E. rewrite E in Hk; [|by left|by right]. by apply Hk, (elem_fst _ k' v).
    + apply IH; [done|]. intros i j a Ha Hb. apply (Hd i j a); by right.
Qed.

(** ** Theorems *)

Section theorems.
Context (node_refused : NodeModel -> option exn) `{Scans} `{Collation}.
#[local] Abbreviation node_history := (node_history node_refused).

(** After any history of creating, updating, checking, deleting and tagging nodes, one by
    one or in bulk, identifiers and names are unique, every status and connection type is one of
    the allowed ones, and every record of the status history is well-formed and belongs to an
    existing node or, once that is deleted, to none. *)
Theorem node_tables_consistent (ops : list node_op) :
  let s := node_history ops in
  NoDup (nt_nodes s).*1 /\ NoDup (nm_name <$> (nt_nodes s).*2) /\
  (forall id node, get_by_id id s = Some node ->
     nm_status node ∈ node_statuses /\ nm_connection_type node = #"ssh") /\
  (forall k record, (k, record) ∈ nt_history s ->
     record_ok record /\ forall id, sh_node_id record = Some id -> is_Some (get_by_id id s)).
Proof.
  intros s. pose proof (ok_node_history node_refused ops) as Hs. fold s in Hs. pose proof (ok_names_distinct s Hs) as Hnd.
  destruct Hs as [Hids Hnames Hrows Hhist].
  split_and!; [done|done|by intros id node Hn; split; apply (Hrows id)|done].
Qed.

(** ** Tags *)

Definition tags_of (node : NodeModel) : list pystr := default [] (nm_tags node).

(** The outcome of a bulk edit at time [now] that takes the tags of a requested node from
    [old] to some [new] with [Q old new]. *)
Definition edits_tags (ids : list uuid) (now : Z) (Q : list pystr -> list pystr -> Prop) (s : node_tables)
    (outcome : res (BulkNodeOperationResultDTO * node_tables)) : Prop :=
  match outcome with
  | Ok (r, s') =>
      bo_affected r = Z.of_nat (length (bo_node_ids r)) /\ NoDup (bo_node_ids r) /\
      (forall id, id ∈ bo_node_ids r -> id ∈ ids /\ is_Some (get_by_id id s)) /\
      (forall id, get_by_id id s = None -> get_by_id id s' = None) /\
      forall id node, get_by_id id s = Some node -> exists new,
        (if bool_decide (id ∈ ids) then Q (tags_of node) new else new = tags_of node) /\
        (id ∈ bo_node_ids r <-> new <> tags_of node) /\
        get_by_id id s' = Some (if bool_decide (id ∈ bo_node_ids r) then with_tags new now node else node)
  | Raise e => exists row, node_refused row = Some e
  end.

Lemma check_same_name id a row s : tables_ok s -> get_by_id id s = Some a -> nm_name row = nm_name a ->
  nm_status row = nm_status a -> nm_connection_type row = nm_connection_type a ->
  match check_node node_refused id row s with Ok _ => True | Raise e => node_refused row = Some e end.
Proof.
  intros Hs Ha Hn Hst Hty. unfold check_node. destruct (node_refused row); [done|].
  destruct (ok_rows _ Hs _ _ Ha) as [Hs1 Ht1 _]. rewrite Hst, Hty, bool_decide_eq_true_2 by done.
  rewrite (proj2 (str_eqb_eq _ _) Ht1). cbn [negb].
  destruct (existsb _ _) eqn:E; [|done]. apply existsb_exists in E as ([j b] & Hj & Hc). exfalso.
  cbn in Hc. apply andb_true_iff in Hc as [Hne Heq%str_eqb_eq]. apply negb_true_iff, N.eqb_neq in Hne. apply Hne.
  apply list_elem_of_In, dict_get_NoDup in Hj; [|apply Hs]. apply (ok_names _ Hs j id b a Hj Ha). congruence.
Qed.

Lemma edit_tags_raise edit now nodes s e : tables_ok s -> NoDup nodes.*1 ->
  (forall i a, (i, a) ∈ nodes -> get_by_id i s = Some a) ->
  edit_tags node_refused edit now nodes s = Raise e -> exists row, node_refused row = Some e.
Proof.
  revert s. induction nodes as [|[id node] nodes IH]; cbn [edit_tags]; intros s Hs Hn Hin; [done|].
  cbn in Hn. apply NoDup_cons in Hn as [Hid Hn]. destruct (edit _) as [tags changed].
  destruct changed; [|apply IH; [done..|]; intros i a Hi; apply Hin; by right].
  pose proof (check_same_name id node (with_tags tags now node) s Hs (Hin _ _ (list_elem_of_here _ _)) eq_refl eq_refl eq_refl) as Hc.
  destruct (check_node _ _ _ _) as [[]|e'] eqn:Ec; cbn [mbind res_bind]; [|intros [= <-]; by eexists].
  destruct (edit_tags _ _ _ _ _) as [[ids s']|e'] eqn:Et; [done|]. cbn. intros [= <-].
  eapply IH; [|done| |exact Et].
  - apply (ok_set node_refused); [done|by exists node; apply Hin; left|done].
  - intros i a Hi. unfold get_by_id, set_nodes. cbn. rewrite dict_get_set, decide_False; [apply Hin; by right|].
    intros ->. by apply Hid, (list_elem_of_fmap_2 fst nodes (id, a)).
Qed.

Lemma bulk_edit_outcome edit Q now ids s : tables_ok s ->
  (forall old, Q old (edit old).1) -> (forall old, (edit old).2 = true <-> (edit old).1 <> old) ->
  edits_tags ids now Q s (bulk_edit node_refused edit now ids s).
Proof.
  intros Hs HQ Hedit. destruct (bulk_edit _ _ _ _ _) as [[r s']|e] eqn:E.
  - pose proof E as (_ & Hn & Ha & Hin & Hat)%bulk_edit_spec; [|done]. split_and!; [done|done| | |].
    + intros id (Hi & a & Hg & _)%Hin. split; [done|by exists a].
    + intros id Hg. by rewrite Hat, Hg.
    + intros id a Hg. exists (if bool_decide (id ∈ ids) then (edit (tags_of a)).1 else tags_of a). split; [case_bool_decide; [apply HQ|done]|].
      assert (Hi : id ∈ bo_node_ids r <-> (if bool_decide (id ∈ ids) then (edit (tags_of a)).1 else tags_of a) <> tags_of a).
      { rewrite Hin, Hg. case_bool_decide as Hid; [|split; [by intros [? _]|done]]. rewrite <- Hedit. unfold edited. cbn.
        split; [by intros (_ & b & [= <-] & Hb)|]. intros Hb. split; [done|by exists a]. }
      split; [done|]. rewrite Hat, Hg. cbn. f_equal. destruct (decide (id ∈ bo_node_ids r)) as [Hb|Hb].
      * rewrite !bool_decide_eq_true_2; [done|by apply Hin in Hb as [? _]|done].
      * by rewrite !(bool_decide_eq_false_2 (id ∈ bo_node_ids r)).
  - unfold bulk_edit in E. destruct (edit_tags _ _ _ _ _) as [[]|e'] eqn:Et; [done|]. cbn in E. injection E as <-.
    destruct (rows_in_spec ids s Hs) as [Hn Hi]. eapply edit_tags_raise; [done|exact Hn| |exact Et]. intros i a Hia. by apply Hi.
Qed.

(** A bulk edit of tags adds the missing tags behind those a node has, or removes those
    it has, on every requested node that exists, and touches nothing else; it reports, once
    each, exactly the nodes whose tags changed; and it raises, changing nothing, only when a
    column refuses a row. *)
Theorem bulk_tags_outcome (ops : list node_op) (ids : list uuid) (tags : list pystr) (now : Z) :
  let s := node_history ops in
  edits_tags ids now (fun old new => old `prefix_of` new /\ forall t, t ∈ new <-> t ∈ old \/ t ∈ tags) s
    (bulk_add_tags node_refused ids tags now s) /\
  edits_tags ids now (fun old new => forall t, t ∈ new <-> t ∈ old /\ t ∉ tags) s
    (bulk_remove_tags node_refused ids tags now s).
Proof.
  intros s. pose proof (ok_node_history node_refused ops) as Hs. split; apply bulk_edit_outcome; try done.
  - intros old. by destruct (add_tags_spec tags old false) as (? & ? & _).
  - intros old. destruct (add_tags_spec tags old false) as (_ & Hin & Hc & Hf). split.
    + intros [?|(t & Ht & Hn)]%Hc; [done|]. intros E. apply Hn. rewrite <- E. apply Hin. by right.
    + intros Hne. destruct (add_tags tags old false).2 eqn:E; [done|by destruct Hne; apply Hf].
  - intros old. apply remove_tags_spec.
  - intros old. destruct (remove_tags_spec tags old) as (Hin & Hc & Hf). split.
    + intros (t & Ht & Hn)%Hc E. rewrite <- E in Hn. by apply Hin in Hn as [_ ?].
    + intros Hne. destruct (remove_tags tags old).2 eqn:E; [done|by destruct Hne; apply Hf].
Qed.

(** ** Listing *)

(** What the filters of the listing mean. *)
Definition node_matches (tags : list pystr) (search : option pystr) (node : NodeModel) : bool :=
  forallb (fun tag => bool_decide (tag ∈ tags_of node)) tags &&
  match search with
  | Some text => contains (fold <$> nm_name node) (fold <$> text) || contains (fold <$> nm_host node) (fold <$> text)
  | None => true
  end.

Lemma contains_nil t : contains t [] = true.
Proof. by destruct t. Qed.

Lemma filter_ext_list {A} (f g : A -> bool) l : (forall a, f a = g a) -> List.filter f l = List.filter g l.
Proof. intros Hfg. induction l as [|a l IH]; cbn; [done|]. by rewrite Hfg, IH. Qed.

Lemma default_tags (tags : list pystr) : default [] (tags_or_none tags) = tags.
Proof. by destruct tags. Qed.

Lemma apply_filters_spec tags search rows :
  _apply_filters (tags_or_none tags) search rows = List.filter (fun kv => node_matches tags search kv.2) rows.
Proof.
  apply filter_ext_list. intros [id node]. unfold node_matches, has_tags. cbn [snd]. rewrite default_tags. f_equal.
  unfold search_matches, node_columns. destruct search as [[|c search]|]; cbn [existsb snd]; [by rewrite !contains_nil| |done].
  by rewrite !search_literal, orb_false_r.
Qed.

(** A page of the listing by offset is the slice that was asked for of the rows that
    have all the tags and contain the searched text literally, up to case, in name or host,
    with their number; it raises only for a negative offset or limit. *)
Theorem node_listing_outcome (query : NodeListQueryDTO) (s : node_tables) :
  let rows := List.filter (fun kv => node_matches (nl_tags query) (nl_search query) kv.2) (nt_nodes s) in
  match list_nodes query s with
  | Ok page =>
      np_total page = Z.of_nat (length rows) /\
      np_items page = _to_view <$> take (Z.to_nat (nl_limit query)) (drop (Z.to_nat (nl_offset query)) (scan 0 rows))
  | Raise e => (nl_offset query < 0 \/ nl_limit query < 0)%Z
  end.
Proof.
  cbv zeta. unfold list_nodes, get_filtered, count_filtered, get_all, node_count. rewrite !apply_filters_spec.
  set (rows := List.filter _ (nt_nodes s)).
  assert (Hall : nl_tags query = [] -> match nl_search query with Some (_ :: _) => False | _ => True end -> nt_nodes s = rows).
  { intros Ht Hs. symmetry. apply filter_all. intros [id node] _. unfold node_matches. rewrite Ht. cbn.
    destruct (nl_search query) as [[|]|]; [by rewrite !contains_nil|done|done]. }
  unfold sql_page, raise. destruct (bool_decide _ || _) eqn:E.
  - destruct ((nl_offset query <? 0) || (nl_limit query <? 0))%Z eqn:Hneg; cbn [mbind res_bind]; [|done].
    apply orb_true_iff in Hneg. lia.
  - apply orb_false_iff in E as [Ht Hs]. apply bool_decide_eq_false in Ht.
    rewrite <- Hall; [|by destruct (nl_tags query); [|destruct Ht]|by destruct (nl_search query) as [[|]|]].
    destruct ((nl_offset query <? 0) || (nl_limit query <? 0))%Z eqn:Hneg; cbn [mbind res_bind]; [|done].
    apply orb_true_iff in Hneg. lia.
Qed.

(** A client that follows the cursors of the listing; the table is another one at each request. *)
Fixpoint walk_nodes (limit : Z) (tags : list pystr) (search : option pystr) (cursor : option (Z * uuid))
    (versions : list node_tables) : res (list NodeViewDTO * bool) :=
  match versions with
  | [] => Ok ([], false)
  | s :: versions =>
      page ← list_nodes_cursor {| nq_cursor := cursor; nq_limit := limit; nq_tags := tags; nq_search := search |} s;
      match nk_next_cursor page with
      | None => Ok (nk_items page, true)
      | Some c => '(more, finished) ← walk_nodes limit tags search (Some c) versions; Ok (nk_items page ++ more, finished)
      end
  end.

Definition matching_rows (tags : list pystr) (search : option pystr) (s : node_tables) : list (uuid * NodeModel) :=
  List.filter (fun kv => node_matches tags search kv.2) (nt_nodes s).

Lemma walk_nodes_eq limit tags search cursor versions :
  walk_nodes limit tags search cursor versions =
    match walk node_key limit cursor (matching_rows tags search <$> versions) with
    | Ok (items, finished) => Ok (_to_view <$> items, finished)
    | Raise e => Raise e
    end.
Proof.
  revert cursor. induction versions as [|s versions IH]; intros cursor; [done|]. cbn [walk_nodes walk fmap list_fmap].
  unfold list_nodes_cursor. cbn [nq_cursor nq_limit nq_tags nq_search]. rewrite apply_filters_spec.
  change (List.filter _ (nt_nodes s)) with (matching_rows tags search s).
  destruct (list_cursor _ _ _ _) as [[[items next] more]|e]; [|done]. cbn [mbind res_bind nk_next_cursor nk_items].
  destruct next as [c|]; [|done]. rewrite IH. destruct (walk _ _ _ _) as [[rest fin]|e]; [|done].
  cbn. by rewrite fmap_app.
Qed.

Definition view_key (view : NodeViewDTO) : Z * uuid := (nv_created_at view, nv_id view).
Lemma view_key_view kv : view_key (_to_view kv) = node_key kv.
Proof. by destruct kv. Qed.

Lemma matching_rows_keys tags search s : tables_ok s -> NoDup (node_key <$> matching_rows tags search s).
Proof.
  intros Hs. apply (NoDup_fmap_1 snd). rewrite <- list_fmap_compose.
  change (snd ∘ node_key) with (fst (A:=uuid) (B:=NodeModel)). apply filter_keys, Hs.
Qed.

(** C9: while nodes are created, changed and deleted between the requests, a client that follows
    the cursors gets the nodes from newer to older, none twice, each as it was at some request;
    when it comes to the end, it has every node that was in the table and matched the filters,
    unchanged, at all requests; and it comes to the end: as long as it does not, every page is
    full. *)
Theorem node_pages_complete (histories : list (list node_op)) (limit : Z) (tags : list pystr) (search : option pystr) :
  (0 < limit)%Z ->
  let versions := node_history <$> histories in
  exists items finished, walk_nodes limit tags search None versions = Ok (items, finished) /\
    StronglySorted (fun newer later => older (view_key later) (view_key newer) = true) items /\
    (forall view, view ∈ items -> exists s kv, s ∈ versions /\ kv ∈ matching_rows tags search s /\ view = _to_view kv) /\
    (finished = true -> forall kv, (forall s, s ∈ versions -> kv ∈ matching_rows tags search s) -> _to_view kv ∈ items) /\
    (finished = false -> Z.of_nat (length items) = limit * Z.of_nat (length versions))%Z.
Proof.
  intros Hl versions. rewrite walk_nodes_eq.
  destruct (walk_spec node_key limit None (matching_rows tags search <$> versions)) as (items & finished & -> & Hw); [done| |].
  { apply Forall_fmap, Forall_fmap, Forall_forall. intros ops _. apply matching_rows_keys, ok_node_history. }
  destruct Hw as (Hs & Hin & Hall & Hlen). exists (_to_view <$> items), finished.
  split_and!; [done| | | |].
  - clear -Hs. induction Hs as [|a l _ IH Ha]; [constructor|]. cbn. constructor; [done|].
    apply Forall_fmap. eapply Forall_impl; [exact Ha|]. cbn. intros b Hb. by rewrite !view_key_view.
  - intros view (kv & -> & Hkv)%list_elem_of_fmap. apply Hin in Hkv as (_ & rows & Hr & Hkv).
    apply list_elem_of_fmap in Hr as (s & -> & Hr). eauto 6.
  - intros Hf kv Hkv. apply list_elem_of_fmap_2, (Hall Hf); [done|].
    intros rows (s & -> & Hs')%list_elem_of_fmap. by apply Hkv.
  - intros Hf. rewrite !length_fmap in *. by apply Hlen.
Qed.
End theorems.

(** ** Concrete runs *)

Definition no_node_refused (_ : NodeModel) : option exn := None.
Definition sample_node (name : pystr) (tags : list pystr) : NodeCreateDTO :=
  {| nc_name := name; nc_endpoint := {| ep_host := name ++ #".example"; ep_port := 22; ep_connection_type := #"ssh";
       ep_docker_host := None; ep_has_docker := false |};
     nc_credentials := {| cr_username := None; cr_password := None; cr_ssh_key := None; cr_passphrase := None |};
     nc_tags := tags |}.
Definition three_nodes : list node_op :=
  [CreateNode (sample_node #"a" [ #"x"]) 10 10; CreateNode (sample_node #"b_1" [ #"x"; #"y"]) 20 20;
   CreateNode (sample_node #"a" []) 25 25; CreateNode (sample_node #"c" []) 20 20].

Lemma node_pages_complete_witness :
  (0 < 1)%Z /\ exists items finished,
    @walk_nodes ascii_collation 1 [] None None (@node_history no_node_refused heap_order <$> [three_nodes; three_nodes])
      = Ok (items, finished) /\ nv_name <$> items = [ #"c"; #"b_1"] /\ finished = false.
Proof.
  split; [lia|].
  destruct (@node_pages_complete no_node_refused heap_order ascii_collation [three_nodes; three_nodes] 1 [] None ltac:(lia))
    as (items & finished & Hw & _).
  exists items, finished. split; [exact Hw|]. vm_compute in Hw. injection Hw as <- <-. by vm_compute.
Defined.

(** The name that was taken is refused; a search for an underscore finds it literally. *)
Example taken_name_and_literal_search :
  let s := @node_history no_node_refused heap_order three_nodes in
  length (nt_nodes s) = 3 /\
  @list_nodes heap_order ascii_collation {| nl_offset := 0; nl_limit := 10; nl_tags := []; nl_search := Some #"B_" |} s
    = Ok {| np_items := _to_view <$> List.filter (fun kv => str_eqb (nm_name kv.2) #"b_1") (nt_nodes s); np_total := 1 |}.
Proof. by vm_compute. Qed.

(** Targets by tags are cut at the hundredth node. *)
Lemma targets_by_tags_are_cut `{Scans} tags s nodes : get_connections_by_tags tags s = Ok nodes -> length nodes <= 100.
Proof.
  unfold get_connections_by_tags, get_by_tags, sql_page. cbn [orb Z.ltb Z.compare mbind res_bind]. intros [= <-].
  rewrite length_fmap, length_take. lia.
Qed.
