(* ===== verification/NodeService.v ===== *)
(** * Node management

    [app/application/services/node_management_service.py] and
    [node_bulk_operation_service.py]: the life of nodes with their encrypted credentials,
    host keys, tags and statuses, one by one and in bulk.  The gateways of [Nodes] stand
    behind the calls. *)
From S2P Require Import Prelude PyStr Errors Json Bytes Effects Dto Output Template Script Commands Query Nodes.
#[local] Existing Instance command_signature.

(** ** [uuid.UUID(text)] *)

Section uuid_text.
Context `{Unicode}.
Open Scope N_scope.

(** [s.replace(p, "")] for a non-empty [p]. *)
Fixpoint delete_all (fuel : nat) (p s : pystr) : pystr :=
  match fuel, s with
  | S fuel, c :: t => if startswith s p then delete_all fuel p (drop (length p) s) else c :: delete_all fuel p t
  | _, _ => s
  end.
Definition without_text (p s : pystr) : pystr := delete_all (length s) p s.

Definition hex_digit_value (c : N) : option N :=
  match decimal_value c with
  | Some d => Some d
  | None => if in_range 97 102 c then Some (c - 87) else if in_range 65 70 c then Some (c - 55) else None
  end.
Fixpoint hex_digits (after : bool) (s : pystr) : option (list N) :=
  match s with
  | [] => if after then Some [] else None
  | c :: s =>
      if (c =? 95) && after then hex_digits false s
      else match hex_digit_value c with
           | Some d => (fun ds => d :: ds) <$> hex_digits true s
           | None => None
           end
  end.
(** [int(s, 16)]: blanks around, a sign, a prefix [0x] that an underscore may follow. *)
Definition py_int16 (s : pystr) : option Z :=
  let s := strip s in
  let '(neg, body) := match s with
                      | c :: t => if c =? 45 then (true, t) else if c =? 43 then (false, t) else (false, s)
                      | [] => (false, [])
                      end in
  let '(after, digits) := match body with
                          | z :: x :: t => if (z =? 48) && ((x =? 120) || (x =? 88))
                                           then (match t with u :: _ => u =? 95 | [] => false end, t) else (false, body)
                          | _ => (false, body)
                          end in
  ds ← hex_digits after digits;
  let n := Z.of_N (fold_left (fun n d => 16 * n + d) ds 0) in
  Some (if neg then - n else n)%Z.
(** [None] is [ValueError]. *)
Definition uuid_of_text (text : pystr) : option uuid :=
  let hex := without_text #"uuid:" (without_text #"urn:" text) in
  let hex := replace_char 45 [] (strip_by (one_of #"{}") hex) in
  if N.of_nat (length hex) =? 32 then
    n ← py_int16 hex;
    if (0 <=? n)%Z && (n <? 2 ^ 128)%Z then Some (Z.to_N n) else None
  else None.
End uuid_text.

(** ** Ports *)

Inductive management_call :=
| Remote (c : command_call)               (* the sessions, the cipher, the reader, statuses and their history *)
| EnsureHost (host : pystr) (port : Z)
| Encrypt (value : pystr)
| ListNodes (query : NodeListQueryDTO)
| ListNodesCursor (query : NodeCursorQueryDTO)
| ListTags
| WriterCreate (data : NodeCreateDTO)
| WriterUpdate (node_id : uuid) (changes : list (pystr * update_value))
| WriterDelete (node_id : uuid)
| OperatorDelete (node_ids : list uuid)
| OperatorAddTags (node_ids : list uuid) (tags : list pystr)
| OperatorRemoveTags (node_ids : list uuid) (tags : list pystr)
| OperatorCheck (node_ids : list pystr)
| AuditNode (required : bool) (action : pystr) (node_id : option uuid) (details : option jobject).
Definition management_answer (c : management_call) : Type :=
  match c with
  | Remote c => command_answer c
  | Encrypt _ => pystr
  | ListNodes _ => NodePageDTO
  | ListNodesCursor _ => NodeCursorPageDTO
  | ListTags => list pystr
  | WriterCreate _ => NodeViewDTO
  | WriterUpdate _ _ => option NodeViewDTO
  | WriterDelete _ => bool
  | OperatorDelete _ | OperatorAddTags _ _ | OperatorRemoveTags _ _ => BulkNodeOperationResultDTO
  | OperatorCheck _ => BulkNodeCheckResultDTO
  | EnsureHost _ _ | AuditNode _ _ _ _ => unit
  end.
#[local] Instance management_signature : Signature := {| call := management_call; answer := management_answer |}.

Fixpoint remote {A} (p : @prog command_signature A) : @prog management_signature A :=
  match p with
  | Done r => Done r
  | Do c k => @Do management_signature A (Remote c) (fun a => remote (k a))
  end.

Section service.
Context `{Unicode} `{PyFloat}.
(** Whether the optional collaborators are given. *)
Context (has_audit has_known_hosts has_status_history : bool).

Definition log_if (required : bool) (action : pystr) (node_id : option uuid) (details : option jobject) : prog unit :=
  if has_audit then perform (AuditNode required action node_id details) else mret tt.
Definition _log_required (action : pystr) (node_id : uuid) (details : option jobject) : prog unit :=
  log_if true action (Some node_id) details.
Definition read_node (node_id : uuid) : prog (option NodeViewDTO) := remote (@perform command_signature (GetNode node_id)).
Definition node_not_found (node_id : uuid) : exn := Exn NodeNotFoundError (#"Node " ++ uuid_str node_id ++ #" not found").

(** ** Reading *)

Definition get_node (node_id : uuid) : prog NodeViewDTO :=
  node ← read_node node_id;
  match node with Some node => mret node | None => lift (Raise (node_not_found node_id)) end.
Definition get_all_nodes (page size : Z) (tags : option (list pystr)) (search : option pystr) : prog (list NodeViewDTO * Z) :=
  result ← perform (ListNodes {| nl_offset := (page - 1) * size; nl_limit := size; nl_tags := default [] tags; nl_search := search |});
  mret (np_items result, np_total result).
Definition get_nodes_cursor (cursor : option (Z * uuid)) (limit : Z) (tags : option (list pystr)) (search : option pystr)
    : prog (list NodeViewDTO * option (Z * uuid) * bool) :=
  result ← perform (ListNodesCursor {| nq_cursor := cursor; nq_limit := limit; nq_tags := default [] tags; nq_search := search |});
  mret (nk_items result, nk_next_cursor result, nk_has_more result).
Definition get_nodes_by_tags (tags : list pystr) (skip limit : Z) : prog (list NodeViewDTO * Z) :=
  result ← perform (ListNodes {| nl_offset := skip; nl_limit := limit; nl_tags := tags; nl_search := None |});
  mret (np_items result, np_total result).
Definition get_all_tags : prog (list pystr) := perform ListTags.

(** ** Creating and updating *)

Definition _encrypt_value (value : update_value) : prog update_value :=
  match value with UStr ((_ :: _) as s) => c ← perform (Encrypt s); mret (UStr c) | _ => mret value end.
Definition encrypt_credential (value : option pystr) : prog (option pystr) :=
  match value with Some ((_ :: _) as s) => c ← perform (Encrypt s); mret (Some c) | _ => mret value end.

Definition ensure_host (host : pystr) (port : Z) : prog unit :=
  try_except (perform (EnsureHost host port)) (on_exception (fun _ => mret tt)).

Definition create_node (data : NodeCreateDTO) : prog NodeViewDTO :=
  let credentials := nc_credentials data in
  (if has_known_hosts then ensure_host (ep_host (nc_endpoint data)) (ep_port (nc_endpoint data)) else mret tt);;
  password ← encrypt_credential (cr_password credentials);
  ssh_key ← encrypt_credential (cr_ssh_key credentials);
  passphrase ← encrypt_credential (cr_passphrase credentials);
  let secured := {| nc_name := nc_name data; nc_endpoint := nc_endpoint data;
                    nc_credentials := {| cr_username := cr_username credentials; cr_password := password;
                                         cr_ssh_key := ssh_key; cr_passphrase := passphrase |};
                    nc_tags := nc_tags data |} in
  node ← perform (WriterCreate secured);
  _log_required #"create" (nv_id (node : NodeViewDTO)) (Some [(#"name", JStr (nc_name data))]);;
  mret node.

Definition sensitive_fields : list pystr := [ #"password"; #"ssh_key"; #"passphrase"].
Fixpoint encrypt_changes (changes : list (pystr * update_value)) : prog (list (pystr * update_value)) :=
  match changes with
  | [] => mret []
  | (field, value) :: changes =>
      value ← (if bool_decide (field ∈ sensitive_fields) then _encrypt_value value else mret value);
      rest ← encrypt_changes changes;
      mret ((field, value) :: rest)
  end.

Definition is_none (value : update_value) : bool := match value with UNone => true | _ => false end.
Definition change_of (changes : list (pystr * update_value)) (field : pystr) : update_value :=
  default UNone (dict_get changes field).
(** The address after the update, when the update gives a part of it. *)
Definition update_target (node_id : uuid) (changes : list (pystr * update_value)) : prog (option (pystr * Z)) :=
  let host := change_of changes #"host" in
  let port := change_of changes #"port" in
  if negb (is_none host) || negb (is_none port) then
    current ← read_node node_id;
    let target_host := match host with UStr s => Some s | _ => (fun node => ep_host (nv_endpoint node)) <$> current end in
    let raw_port := match port with
                    | UInt z => Some z
                    | UBool b => Some (Z.b2z b)
                    | _ => (fun node => ep_port (nv_endpoint node)) <$> current
                    end in
    mret (match target_host, raw_port with Some h, Some p => Some (h, p) | _, _ => None end)
  else mret None.

(** [str(value)]; a time is none of the values of an update. *)
Definition py_str (value : update_value) : pystr :=
  match value with
  | UStr s => s
  | UInt z | UTime z => str_Z z
  | UBool b => if b then #"True" else #"False"
  | UTags [tag] => #"(" ++ py_repr tag ++ #",)"
  | UTags tags => #"(" ++ join #", " (py_repr <$> tags) ++ #")"
  | UNone => #"None"
  end.
Definition json_value (value : update_value) : json :=
  match value with
  | UStr s => JStr s
  | UInt z | UTime z => JInt z
  | UBool b => JBool b
  | UTags tags => JArr (JStr <$> tags)
  | UNone => JNull
  end.

Definition without_docker_host (changes : list (pystr * update_value)) : list (pystr * update_value) :=
  match change_of changes #"has_docker" with
  | UBool false => if dict_mem changes #"docker_host" then changes else dict_set changes #"docker_host" UNone
  | _ => changes
  end.
Definition status_before (node_id : uuid) (new_status : option pystr) : prog (option pystr) :=
  match new_status with
  | None => mret None
  | Some _ =>
      try_except (current ← read_node node_id; mret (nv_status <$> (current : option NodeViewDTO))) (on_exception (fun _ => mret None))
  end.
Definition record_manual_change (node_id : uuid) (old_status new_status : option pystr) : prog unit :=
  match new_status with
  | Some new_status =>
      if has_status_history && negb (bool_decide (old_status = Some new_status)) then
        try_except
          (remote (@perform command_signature (SaveStatusChange
             {| sc_node_id := node_id; sc_old_status := old_status; sc_new_status := new_status;
                sc_source := #"manual_update" |})))
          (on_exception (fun _ => mret tt))
      else mret tt
  | None => mret tt
  end.

(** From the intent on. *)
Definition write_update (node_id : uuid) (old_status : option pystr) (secured : list (pystr * update_value)) : prog NodeViewDTO :=
  _log_required #"update" node_id (Some (prod_map id json_value <$> secured));;
  node ← perform (WriterUpdate node_id secured);
  match (node : option NodeViewDTO) with
  | None => lift (Raise (node_not_found node_id))
  | Some node => record_manual_change node_id old_status (py_str <$> dict_get secured #"status");; mret node
  end.
Definition seal_and_write (node_id : uuid) (changes : list (pystr * update_value)) : prog NodeViewDTO :=
  secured ← encrypt_changes (without_docker_host changes);
  old_status ← status_before node_id (py_str <$> dict_get secured #"status");
  write_update node_id old_status secured.
Definition update_node (node_id : uuid) (data : list (pystr * update_value)) : prog NodeViewDTO :=
  let changes := dict_of data in
  target ← (if has_known_hosts then update_target node_id changes else mret None);
  (match target with Some (host, port) => ensure_host host port | None => mret tt end);;
  seal_and_write node_id changes.

Definition delete_node (node_id : uuid) : prog bool :=
  get_node node_id;;
  _log_required #"delete" node_id None;;
  perform (WriterDelete node_id);;
  mret true.

(** ** Tags *)

(** [tags.remove(tag)]. *)
Fixpoint remove_first (tag : pystr) (tags : list pystr) : list pystr :=
  match tags with [] => [] | t :: tags => if str_eqb t tag then tags else t :: remove_first tag tags end.
Definition write_tags (node_id : uuid) (tags : list pystr) : prog NodeViewDTO :=
  updated ← perform (WriterUpdate node_id [(#"tags", UTags tags)]);
  match (updated : option NodeViewDTO) with
  | Some updated => mret updated
  | None => lift (Raise (node_not_found node_id))
  end.
Definition add_tag (node_id : uuid) (tag : pystr) : prog NodeViewDTO :=
  node ← get_node node_id;
  if bool_decide (tag ∈ nv_tags node) then mret node
  else
    _log_required #"add_tag" node_id (Some [(#"tag", JStr tag)]);;
    write_tags node_id (nv_tags node ++ [tag]).
Definition remove_tag (node_id : uuid) (tag : pystr) : prog NodeViewDTO :=
  node ← get_node node_id;
  if bool_decide (tag ∈ nv_tags node) then
    _log_required #"remove_tag" node_id (Some [(#"tag", JStr tag)]);;
    write_tags node_id (remove_first tag (nv_tags node))
  else mret node.
End service.

(** ** Bulk operations ([NodeBulkOperationService]) *)

Section bulk.
Context `{Unicode} `{PyFloat}.
Context (has_audit has_ssh has_status_writer has_status_history has_node_view : bool).

Definition audit_bulk (action : pystr) (details : jobject) : prog unit :=
  log_if has_audit false action None (Some details).

Definition bulk_delete (node_ids : list uuid) : prog BulkNodeOperationResultDTO :=
  result ← perform (OperatorDelete node_ids);
  audit_bulk #"bulk_nodes.delete"
    [(#"affected", JInt (bo_affected result)); (#"requested", JInt (Z.of_nat (length node_ids)))];;
  mret result.
Definition bulk_add_tags (node_ids : list uuid) (tags : list pystr) : prog BulkNodeOperationResultDTO :=
  result ← perform (OperatorAddTags node_ids tags);
  audit_bulk #"bulk_nodes.add_tags" [(#"affected", JInt (bo_affected result)); (#"tags", JArr (JStr <$> tags))];;
  mret result.
Definition bulk_remove_tags (node_ids : list uuid) (tags : list pystr) : prog BulkNodeOperationResultDTO :=
  result ← perform (OperatorRemoveTags node_ids tags);
  audit_bulk #"bulk_nodes.remove_tags" [(#"affected", JInt (bo_affected result)); (#"tags", JArr (JStr <$> tags))];;
  mret result.

(** The session of a check: the status it shows, and its error. *)
Definition check_session (c : connector) : @prog command_signature (pystr * option pystr) :=
  try_except (in_session c (@perform command_signature (RunCommand c #"echo ok"));; mret (#"active", None))
    (fun exc =>
       if isinstance (exn_type exc) CredentialDecryptionError then Some (mret (#"error", Some (exn_msg exc)))
       else if isinstance (exn_type exc) Exception_ then Some (mret (#"unreachable", Some (exn_msg exc)))
       else None).
(** The status is stored; a failure fails the check. *)
Definition store_status (node_id : uuid) (new_status : pystr) (error : option pystr) : @prog command_signature (bool * option pystr) :=
  if has_status_writer then
    try_except
      (updated ← @perform command_signature (UpdateNodeStatus node_id new_status);
       mret (match (updated : option NodeViewDTO) with
             | Some _ => (true, error)
             | None => (false, Some #"Node not found on status update")
             end))
      (on_exception (fun exc => mret (false, Some (#"Status update failed: " ++ exn_msg exc))))
  else mret (true, error).

Definition check_result : Type := pystr * bool * option pystr * option pystr.
Definition check_node (text : pystr) (node_id : uuid) (node : NodeConnectionDTO) : @prog command_signature check_result :=
  c ← build_ssh_connector node None;
  '(new_status, error) ← check_session c;
  old_status ← previous_status has_node_view node_id;
  '(status_ok, error') ← store_status node_id new_status error;
  (if has_status_history && status_ok && negb (bool_decide (old_status = Some new_status))
   then record_status_change node_id text old_status new_status else mret tt);;
  mret (text, status_ok && bool_decide (error = None), error', Some new_status).
Definition _check_one (text : pystr) : prog check_result :=
  match uuid_of_text text with
  | None => mret (text, false, Some #"Invalid node id", None)
  | Some node_id =>
      node ← remote (@perform command_signature (GetConnection node_id));
      match (node : option NodeConnectionDTO) with
      | None => mret (text, false, Some #"Node not found", None)
      | Some node => remote (check_node text node_id node)
      end
  end.

Definition detail_of (result : check_result) : BulkNodeCheckDetailDTO :=
  let '(text, ok, error, status) := result in
  {| bd_node_id := text; bd_success := ok; bd_error := error; bd_new_status := status |}.
Definition collect_checks (node_ids : list pystr) (results : list check_result) : BulkNodeCheckResultDTO :=
  let details := detail_of <$> results in
  let ok := List.filter bd_success details in
  {| bk_total := Z.of_nat (length node_ids); bk_succeeded := Z.of_nat (length ok);
     bk_failed := Z.of_nat (length (List.filter (fun d => negb (bd_success d)) details));
     bk_node_ids := omap (fun d => uuid_of_text (bd_node_id d)) ok; bk_details := details |}.
Definition audit_check (mode : pystr) (result : BulkNodeCheckResultDTO) : prog unit :=
  audit_bulk #"bulk_nodes.check"
    [(#"total", JInt (bk_total result)); (#"succeeded", JInt (bk_succeeded result));
     (#"failed", JInt (bk_failed result)); (#"mode", JStr mode)].
(** Without the collaborators of a session, the check in the table is not audited. *)
Definition bulk_check (sched : list nat) (node_ids : list pystr) (mode : pystr) : prog BulkNodeCheckResultDTO :=
  if str_eqb mode #"db" then
    result ← perform (OperatorCheck node_ids);
    audit_check mode result;;
    mret result
  else if negb has_ssh then perform (OperatorCheck node_ids)
  else
    results ← gather_first sched (_check_one <$> node_ids);
    let result := collect_checks node_ids results in
    audit_check mode result;;
    mret result.
End bulk.
