(* ===== verification/NodeServiceSpec.v ===== *)
(** * What node management promises

    Creating and updating: credentials leave the service only encrypted, updates after their
    intent.  Tags over the tables of [Nodes], also when two requests interleave.  The bulk
    connectivity check: one verdict per requested node. *)
From S2P Require Import Prelude PyStr Errors Json Bytes Effects Dto Output Template Script Commands CommandSpec Query Nodes NodeInv NodeService Stateful.
#[local] Existing Instance command_signature.
#[local] Existing Instance management_signature.

Definition mev (c : call) (a : res (answer c)) : event := existT c a.

Definition provided (b : bool) (e : event) : history := if b then [e] else [].

(** Symbolic execution. *)
Ltac node_step :=
  lazymatch goal with
  | |- wp (remote (perform _)) _ _ _ => split; [|intros [?x|?e]]; cbn beta iota
  | |- wp (read_node _) _ _ _ => split; [|intros [?x|?e]]; cbn beta iota
  | |- wp (remote (Done _)) _ _ _ => apply wp_lift; cbn beta iota
  | |- _ => cmd_step
  end.

(** ** Creating and updating *)

Section single.
Context `{Unicode} `{PyFloat} (has_audit has_known_hosts has_status_history : bool).

(** Nothing was written to the table of nodes. *)
Definition writes (e : event) : bool :=
  let '(existT c a) := e in
  match c as c return res (management_answer c) -> bool with
  | WriterCreate _ => fun a => is_ok a
  | WriterUpdate _ _ => fun a => if a is Ok (Some _) then true else false
  | WriterDelete _ => fun a => if a is Ok true then true else false
  | _ => fun _ => false
  end a.
Definition unwritten (h : history) : Prop := existsb writes h = false.
Lemma unwritten_app h k : unwritten h -> unwritten k -> unwritten (h ++ k).
Proof. unfold unwritten. rewrite existsb_app. by intros -> ->. Qed.
Hint Resolve unwritten_app : core.

(** [stored] is what the cipher answered for [plain]; an empty or missing value stays as it is. *)
Definition sealed (h : history) (plain stored : option pystr) : Prop :=
  match plain with
  | Some ((_ :: _) as s) => exists c, stored = Some c /\ mev (Encrypt s) (Ok c) ∈ h
  | _ => stored = plain
  end.
Definition sealed_node (h : history) (data stored : NodeCreateDTO) : Prop :=
  nc_name stored = nc_name data /\ nc_endpoint stored = nc_endpoint data /\ nc_tags stored = nc_tags data /\
  cr_username (nc_credentials stored) = cr_username (nc_credentials data) /\
  sealed h (cr_password (nc_credentials data)) (cr_password (nc_credentials stored)) /\
  sealed h (cr_ssh_key (nc_credentials data)) (cr_ssh_key (nc_credentials stored)) /\
  sealed h (cr_passphrase (nc_credentials data)) (cr_passphrase (nc_credentials stored)).

Definition create_guard (data : NodeCreateDTO) (h : history) (c : call) : Prop :=
  match c with
  | WriterCreate stored => sealed_node h data stored
  | AuditNode required action node_id details =>
      required = true /\ action = #"create" /\ details = Some [(#"name", JStr (nc_name data))] /\
      exists stored node, mev (WriterCreate stored) (Ok node) ∈ h /\ node_id = Some (nv_id node)
  | EnsureHost host port => has_known_hosts = true /\ host = ep_host (nc_endpoint data) /\ port = ep_port (nc_endpoint data)
  | Encrypt value => Some value ∈ [cr_password (nc_credentials data); cr_ssh_key (nc_credentials data); cr_passphrase (nc_credentials data)]
  | _ => False
  end.
(** A node that fails to be created was not written, or only its audit entry failed. *)
Definition create_outcome (h : history) (r : res NodeViewDTO) : Prop :=
  match r with
  | Ok node => (exists stored, mev (WriterCreate stored) (Ok node) ∈ h) /\
      (has_audit = true -> exists details, mev (AuditNode true #"create" (Some (nv_id node)) details) (Ok tt) ∈ h)
  | Raise e =>
      unwritten h \/
      (exists node_id details, mev (AuditNode true #"create" node_id details) (Raise e) ∈ h)
  end.

Lemma wp_ensure_host host port h G (Q : history -> res unit -> Prop) :
  G h (EnsureHost host port) ->
  (forall a, Q (h ++ [mev (EnsureHost host port) a]) (Ok tt)) ->
  (forall e, Q (h ++ [mev (EnsureHost host port) (Raise e)]) (Raise e)) ->
  wp (ensure_host host port) h G Q.
Proof. intros HG HQ HR. unfold ensure_host. repeat node_step; try done. destruct x. apply HQ. Qed.

Lemma sealed_mono h k plain stored : sealed h plain stored -> sealed (h ++ k) plain stored.
Proof. destruct plain as [[|c s]|]; cbn; [done| |done]. intros (x & -> & Hx). exists x. split; [done|]. by apply elem_of_app; left. Qed.

Lemma wp_encrypt_credential value h G (Q : history -> res (option pystr) -> Prop) :
  (forall c s, value = Some (c :: s) -> G h (Encrypt (c :: s))) ->
  (forall k stored, unwritten k -> sealed (h ++ k) value stored -> Q (h ++ k) (Ok stored)) ->
  (forall k e, unwritten k -> Q (h ++ k) (Raise e)) ->
  wp (encrypt_credential value) h G Q.
Proof.
  intros HG HQ HR. unfold encrypt_credential.
  destruct value as [[|c s]|]; try (node_step; specialize (HQ []); rewrite app_nil_r in HQ; by apply HQ).
  repeat node_step; [by eapply HG| |by apply HR]. apply HQ; [done|].
  exists x. split; [done|]. apply elem_of_app. right. by left.
Qed.

Lemma wp_log_required action node_id details (h : history) (G : history -> call -> Prop) (Q : history -> res unit -> Prop) :
  (has_audit = true -> G h (AuditNode true action (Some node_id) details)) ->
  Q (h ++ provided has_audit (mev (AuditNode true action (Some node_id) details) (Ok tt))) (Ok tt) ->
  (forall e, has_audit = true -> Q (h ++ [mev (AuditNode true action (Some node_id) details) (Raise e)]) (Raise e)) ->
  wp (_log_required has_audit action node_id details) h G Q.
Proof.
  intros HG HQ HR. unfold _log_required, log_if, provided in *. destruct has_audit.
  - repeat node_step; [by apply HG| |by apply HR]. by destruct x.
  - node_step. by rewrite app_nil_r in HQ.
Qed.

Lemma wp_create_node data : wp (create_node has_audit has_known_hosts data) [] (create_guard data) create_outcome.
Proof.
  unfold create_node. apply wp_bind.
  assert (forall h, unwritten h -> wp
    (password ← encrypt_credential (cr_password (nc_credentials data));
     ssh_key ← encrypt_credential (cr_ssh_key (nc_credentials data));
     passphrase ← encrypt_credential (cr_passphrase (nc_credentials data));
     node ← perform (WriterCreate {| nc_name := nc_name data; nc_endpoint := nc_endpoint data;
       nc_credentials := {| cr_username := cr_username (nc_credentials data); cr_password := password;
                            cr_ssh_key := ssh_key; cr_passphrase := passphrase |}; nc_tags := nc_tags data |});
     _log_required has_audit #"create" (nv_id (node : NodeViewDTO)) (Some [(#"name", JStr (nc_name data))]);;
     mret node) h (create_guard data) create_outcome) as Hrest.
  { intros h Hh. apply wp_bind, wp_encrypt_credential; [intros c s E; unfold create_guard; rewrite E; left| |by left; apply unwritten_app].
    intros k password Hk Hp. apply wp_bind, wp_encrypt_credential; [intros c s E; unfold create_guard; rewrite E; right; left| |by left; repeat apply unwritten_app].
    intros k' ssh_key Hk' Hs. apply wp_bind, wp_encrypt_credential; [intros c s E; unfold create_guard; rewrite E; do 2 right; left| |by left; repeat apply unwritten_app].
    intros k'' passphrase Hk'' Hx. node_step. split.
    - split_and!; try done; cbn; [by do 2 apply sealed_mono|by apply sealed_mono].
    - intros [node|e]; [|left; by repeat apply unwritten_app].
      apply wp_bind, wp_log_required.
      + intros _. split_and!; try done. eexists _, node. split; [|done]. apply elem_of_app. right. by left.
      + node_step. split; [eexists; apply elem_of_app; left; apply elem_of_app; right; by left|].
        intros ->. eexists. apply elem_of_app. right. by left.
      + intros e _. right. eexists _, _. apply elem_of_app. right. by left. }
  destruct has_known_hosts eqn:Ek; [|node_step; by apply Hrest].
  apply wp_ensure_host; [done|intros a; by apply Hrest|intros e; by left].
Qed.

(** *** Updates *)

Definition sealed_value (h : history) (plain stored : update_value) : Prop :=
  match plain with
  | UStr ((_ :: _) as s) => exists c, stored = UStr c /\ mev (Encrypt s) (Ok c) ∈ h
  | _ => stored = plain
  end.
(** The changes that were asked for, the sensitive ones encrypted. *)
Definition credential_fields : list pystr := [ #"password"; #"ssh_key"; #"passphrase"].
Definition sealed_changes (h : history) : list (pystr * update_value) -> list (pystr * update_value) -> Prop :=
  Forall2 (fun plain stored => stored.1 = plain.1 /\
    if bool_decide (plain.1 ∈ credential_fields) then sealed_value h plain.2 stored.2 else stored.2 = plain.2).
Definition update_details (stored : list (pystr * update_value)) : option jobject := Some (prod_map id json_value <$> stored).

Definition update_guard (node_id : uuid) (data : list (pystr * update_value)) (h : history) (c : call) : Prop :=
  match c with
  | WriterUpdate id stored =>
      id = node_id /\ sealed_changes h (without_docker_host (dict_of data)) stored /\
      (has_audit = true -> mev (AuditNode true #"update" (Some node_id) (update_details stored)) (Ok tt) ∈ h)
  | AuditNode required action id details =>
      required = true /\ action = #"update" /\ id = Some node_id /\
      exists stored, details = update_details stored /\ sealed_changes h (without_docker_host (dict_of data)) stored
  | Remote (SaveStatusChange change) =>
      sc_node_id change = node_id /\ sc_source change = #"manual_update" /\
      sc_old_status change <> Some (sc_new_status change) /\
      exists stored view value, mev (WriterUpdate node_id stored) (Ok (Some view)) ∈ h /\
        dict_get stored #"status" = Some value /\ sc_new_status change = py_str value
  | Remote (GetNode id) => id = node_id
  | EnsureHost _ _ => has_known_hosts = true
  | Encrypt value => exists field, (field, UStr value) ∈ without_docker_host (dict_of data) /\ field ∈ credential_fields
  | _ => False
  end.
Definition update_outcome (node_id : uuid) (h : history) (r : res NodeViewDTO) : Prop :=
  match r with
  | Ok node => exists stored, mev (WriterUpdate node_id stored) (Ok (Some node)) ∈ h
  | Raise e => unwritten h \/ isinstance (exn_type e) Exception_ = false
  end.

Lemma sealed_value_mono h k plain stored : sealed_value h plain stored -> sealed_value (h ++ k) plain stored.
Proof. destruct plain as [[|c s]| | | | |]; cbn; try done. intros (x & -> & Hx). exists x. split; [done|]. by apply elem_of_app; left. Qed.
Lemma sealed_changes_mono h k plain stored : sealed_changes h plain stored -> sealed_changes (h ++ k) plain stored.
Proof.
  intros Hs. eapply Forall2_impl; [exact Hs|]. cbn. intros [f v] [f' v'] [-> Hv]. split; [done|].
  cbn in *. case_bool_decide; [by apply sealed_value_mono|done].
Qed.

Lemma wp_encrypt_changes changes h G (Q : history -> res (list (pystr * update_value)) -> Prop) :
  (forall h field value, (field, UStr value) ∈ changes -> field ∈ credential_fields -> G h (Encrypt value)) ->
  (forall k stored, unwritten k -> sealed_changes (h ++ k) changes stored -> Q (h ++ k) (Ok stored)) ->
  (forall k e, unwritten k -> Q (h ++ k) (Raise e)) ->
  wp (encrypt_changes changes) h G Q.
Proof.
  revert h Q. induction changes as [|[field value] changes IH]; intros h Q HG HQ HR; cbn [encrypt_changes].
  2: change sensitive_fields with credential_fields.
  { node_step. specialize (HQ []). rewrite app_nil_r in HQ. apply HQ; [done|constructor]. }
  assert (forall k v, unwritten k ->
    (if bool_decide (field ∈ credential_fields) then sealed_value (h ++ k) value v else v = value) ->
    wp (rest ← encrypt_changes changes; mret ((field, v) :: rest)) (h ++ k) G Q) as Hrest.
  { intros k v Hk Hv. apply wp_bind, IH.
    - intros h' f w Hin. apply HG. by right.
    - intros k' stored Hk' Hs. node_step. rewrite <- app_assoc. apply HQ; [by apply unwritten_app|]. rewrite app_assoc.
      constructor; [split; [done|]; cbn; case_bool_decide; [by apply sealed_value_mono|done]|done].
    - intros k' e Hk'. rewrite <- app_assoc. by apply HR, unwritten_app. }
  assert (forall v, (if bool_decide (field ∈ credential_fields) then sealed_value h value v else v = value) ->
    wp (rest ← encrypt_changes changes; mret ((field, v) :: rest)) h G Q) as Hrest0.
  { intros v Hv. specialize (Hrest [] v). rewrite app_nil_r in Hrest. by apply Hrest. }
  apply wp_bind. case_bool_decide as Hf; [|node_step; by apply Hrest0].
  unfold _encrypt_value. destruct value as [[|c s]| | | | |]; try (node_step; by apply Hrest0).
  node_step. split; [apply (HG h field); [by left|done]|]. intros [x|e]; [|by apply HR]. node_step. apply Hrest; [done|]. exists x. split; [done|]. apply elem_of_app. right. by left.
Qed.

Lemma wp_try_read {A} node_id (f : option NodeViewDTO -> A) (other : A) (h : history) (G : history -> call -> Prop) (Q : history -> res A -> Prop) :
  G h (Remote (GetNode node_id)) ->
  (forall k r, unwritten k -> (forall e, r = Raise e -> isinstance (exn_type e) Exception_ = false) -> Q (h ++ k) r) ->
  wp (try_except (current ← read_node node_id; mret (f current)) (on_exception (fun _ => mret other))) h G Q.
Proof.
  intros HG HQ. repeat node_step; [done|by apply HQ|by apply HQ|]. apply HQ; [done|]. by intros ? [= <-].
Qed.

Lemma wp_record_node_change node_id old_status (new_status : option pystr) (h : history) (G : history -> call -> Prop) (Q : history -> res unit -> Prop) :
  (forall new, new_status = Some new -> old_status <> Some new ->
     G h (Remote (SaveStatusChange {| sc_node_id := node_id; sc_old_status := old_status; sc_new_status := new;
                                      sc_source := #"manual_update" |}))) ->
  (forall k r, (forall e, r = Raise e -> isinstance (exn_type e) Exception_ = false) -> Q (h ++ k) r) ->
  wp (record_manual_change has_status_history node_id old_status new_status) h G Q.
Proof.
  intros HG HQ. unfold record_manual_change.
  assert (Q h (Ok tt)) as Hskip by by rewrite <- (app_nil_r h); apply HQ.
  destruct new_status as [new|]; [|by node_step].
  destruct (has_status_history && _) eqn:E; [|by node_step].
  apply andb_true_iff in E as [_ Hne]. apply negb_true_iff, bool_decide_eq_false in Hne.
  repeat node_step; [by apply HG|by apply HQ|by apply HQ|]. apply HQ. by intros ? [= <-].
Qed.

Lemma wp_update_target node_id changes (h : history) (G : history -> call -> Prop) (Q : history -> res (option (pystr * Z)) -> Prop) :
  G h (Remote (GetNode node_id)) -> (forall k r, unwritten k -> Q (h ++ k) r) -> wp (update_target node_id changes) h G Q.
Proof.
  intros HG HQ. unfold update_target. destruct (negb _ || negb _).
  - repeat node_step; [done|by apply HQ|by apply HQ].
  - node_step. rewrite <- (app_nil_r h). by apply HQ.
Qed.

Lemma wp_write_update node_id data old_status secured (h : history) :
  unwritten h -> sealed_changes h (without_docker_host (dict_of data)) secured ->
  wp (write_update has_audit has_status_history node_id old_status secured) h (update_guard node_id data) (update_outcome node_id).
Proof.
  intros Hh Hs. unfold write_update. apply wp_bind, wp_log_required.
  - intros _. split_and!; try done. by exists secured.
  - node_step. split.
    + split_and!; [done|by apply sealed_changes_mono|]. intros ->. apply elem_of_app. right. by left.
    + assert (unwritten (h ++ provided has_audit (mev (AuditNode true #"update" (Some node_id)
        (Some (prod_map id json_value <$> secured))) (Ok tt)))) as Hu.
      { apply unwritten_app; [done|]. unfold provided. by destruct has_audit. }
      intros [[node|]|e]; [|node_step; left; by apply unwritten_app|left; by apply unwritten_app].
      apply wp_bind, wp_record_node_change.
      * intros new Hnew Hne. apply fmap_Some in Hnew as (value & Hg & ->). split_and!; try done.
        eexists _, node, value. split; [|done]. apply elem_of_app. right. by left.
      * intros k [[]|e] Hr; [|right; by apply Hr]. node_step. eexists. apply elem_of_app. left. apply elem_of_app. right. by left.
  - intros e _. left. by apply unwritten_app.
Qed.

Lemma wp_seal_and_write node_id data (h : history) : unwritten h ->
  wp (seal_and_write has_audit has_status_history node_id (dict_of data)) h (update_guard node_id data) (update_outcome node_id).
Proof.
  intros Hh. unfold seal_and_write. apply wp_bind, wp_encrypt_changes.
  { intros h' field value Hin Hf. by exists field. }
  2: { intros k e Hk. left. by apply unwritten_app. }
  intros k secured Hk Hs. apply wp_bind. unfold status_before. destruct (py_str <$> _) as [new|].
  - apply wp_try_read; [done|]. intros k' [old_status|e] Hk' Hr; [|right; by apply Hr].
    apply wp_write_update; [by repeat apply unwritten_app|by apply sealed_changes_mono].
  - node_step. apply wp_write_update; [by apply unwritten_app|done].
Qed.

Lemma wp_update_node node_id data :
  wp (update_node has_audit has_known_hosts has_status_history node_id data) [] (update_guard node_id data) (update_outcome node_id).
Proof.
  unfold update_node. apply wp_bind. destruct has_known_hosts eqn:Ek; [|repeat node_step; by apply wp_seal_and_write].
  apply wp_update_target; [done|]. intros k [[[host port]|]|e] Hk; [|node_step; node_step; by apply wp_seal_and_write|by left].
  apply wp_bind, wp_ensure_host; [done|intros a; apply wp_seal_and_write; by apply unwritten_app|intros e; left; by apply unwritten_app].
Qed.

(** C10: whatever the ports answer, creating a node writes its row once its passwords, keys and
    passphrases that are not empty have been replaced by what the cipher answered for them, and
    logs nothing of them; updating one does the same with the changes, logs the changes it will
    write before it writes them, and records a change of status only after it was written and
    only against a different status; a creation that fails has written nothing, or could not be
    logged, and an update that fails with an ordinary exception has changed nothing. *)
Theorem node_writes_are_sealed (o : oracle) (data : NodeCreateDTO) (node_id : uuid) (changes : list (pystr * update_value)) :
  (let '(r, h) := run o (create_node has_audit has_known_hosts data) [] in
   create_outcome h r /\ grows (create_guard data) [] h) /\
  (let '(r, h) := run o (update_node has_audit has_known_hosts has_status_history node_id changes) [] in
   update_outcome node_id h r /\ grows (update_guard node_id changes) [] h).
Proof. split; [apply wp_run, wp_create_node|apply wp_run, wp_update_node]. Qed.
End single.

(** ** Tags over the tables *)

Section tags.
Context `{Unicode} `{PyFloat} `{Scans} `{Collation} (node_refused : NodeModel -> option exn).
(** The rest of the world, and the time of a write. *)
Context (outside : forall c : call, res (answer c)) (now : Z).

(** The gateways of [Nodes] behind the ports. *)
Definition serve (c : call) : node_tables -> res (answer c) * node_tables :=
  match c as c return res (management_answer c) -> node_tables -> res (management_answer c) * node_tables with
  | Remote (GetNode id) => fun _ s => (Ok (Nodes.get_node id s), s)
  | Remote (GetConnection id) => fun _ s => (Ok (get_connection id s), s)
  | Remote (UpdateNodeStatus id status) => fun _ s => Nodes.update_node_status node_refused id status now s
  | Remote (SaveStatusChange change) => fun _ s => begin (save_status_change change now) s
  | ListNodes query => fun _ s => (list_nodes query s, s)
  | ListNodesCursor query => fun _ s => (list_nodes_cursor query s, s)
  | ListTags => fun _ s => (Ok (list_tags s), s)
  | WriterCreate data => fun _ s => Nodes.create_node node_refused data now now s
  | WriterUpdate id changes => fun _ s => Nodes.update_node node_refused id changes now s
  | WriterDelete id => fun _ s => Nodes.delete_node id s
  | OperatorDelete ids => fun _ s => begin (Nodes.bulk_delete ids) s
  | OperatorAddTags ids tags => fun _ s => begin (Nodes.bulk_add_tags node_refused ids tags now) s
  | OperatorRemoveTags ids tags => fun _ s => begin (Nodes.bulk_remove_tags node_refused ids tags now) s
  | _ => fun other s => (other, s)
  end (outside c).

(** A request that edits the tags of a node with [edit]: it stores the new list and nothing
    else, or it fails and stores nothing. *)
Definition edits_one (node_id : uuid) (edit : list pystr -> list pystr) (s : node_tables) (r : res NodeViewDTO) (s' : node_tables) : Prop :=
  match get_by_id node_id s with
  | None => r = Raise (node_not_found node_id) /\ s' = s
  | Some node =>
      (exists node', r = Ok (_to_view (node_id, node')) /\ get_by_id node_id s' = Some node' /\
         tags_of node' = edit (tags_of node) /\
         (node' = node \/ node' = with_tags (edit (tags_of node)) now node) /\
         forall id, id <> node_id -> get_by_id id s' = get_by_id id s) \/
      (exists e, r = Raise e /\ s' = s)
  end.

Lemma write_tags_spec node_id tags s node : tables_ok s -> get_by_id node_id s = Some node ->
  let '(r, s') := run_state serve (write_tags node_id tags) s in
  (r = Ok (_to_view (node_id, with_tags tags now node)) /\ s' = set_nodes s (dict_set (nt_nodes s) node_id (with_tags tags now node))) \/
  (exists e, r = Raise e /\ s' = s).
Proof.
  intros Hs Hg. unfold write_tags. cbn [run_state perform mbind prog_bind pbind serve].
  unfold Nodes.update_node, begin, viewed, update. cbn [run_state].
  rewrite Hg. change (dict_set (dict_of [(#"tags", UTags tags)]) #"updated_at" (UTime now))
    with [(#"tags", UTags tags); (#"updated_at", UTime now)].
  assert (set_all [(#"tags", UTags tags); (#"updated_at", UTime now)] node = Ok (with_tags tags now node)) as ->.
  { destruct node. reflexivity. }
  cbn [mbind res_bind]. destruct (Nodes.check_node _ _ _ _) as [[]|e]; cbn; [by left|right; by exists e].
Qed.

Lemma run_get_node node_id s : run_state serve (get_node node_id) s =
  (match get_by_id node_id s with Some node => Ok (_to_view (node_id, node)) | None => Raise (node_not_found node_id) end, s).
Proof. unfold get_node. cbn. unfold Nodes.get_node. by destruct (get_by_id node_id s). Qed.

Lemma run_log has_audit action node_id details s :
  run_state serve (_log_required has_audit action node_id details) s =
    (if has_audit then outside (AuditNode true action (Some node_id) details) else Ok tt, s).
Proof. by destruct has_audit. Qed.

Lemma run_edit has_audit node_id (edit : list pystr -> list pystr) (applies : list pystr -> bool) action details s :
  tables_ok s -> (forall tags, applies tags = false -> edit tags = tags) ->
  let '(r, s') := run_state serve
    (node ← get_node node_id;
     if applies (nv_tags node) then
       _log_required has_audit action node_id details;;
       write_tags node_id (edit (nv_tags node))
     else mret node) s in
  edits_one node_id edit s r s'.
Proof.
  intros Hs Hedit. rewrite run_state_bind, run_get_node. unfold edits_one.
  destruct (get_by_id node_id s) as [node|] eqn:Hg; [|done]. change (nv_tags (_to_view (node_id, node))) with (tags_of node).
  destruct (applies (tags_of node)) eqn:Ha.
  - rewrite run_state_bind, run_log. destruct (if has_audit then _ else _) as [[]|e]; [|right; by exists e].
    pose proof (write_tags_spec node_id (edit (tags_of node)) s node Hs Hg) as Hw.
    destruct (run_state _ _ _) as [r s']. destruct Hw as [[-> ->]|Hw]; [left|by right].
    eexists. split; [done|]. unfold get_by_id, set_nodes. cbn [nt_nodes]. split_and!; [apply dict_get_set_eq|done|by right|].
    intros id Hne. by apply dict_get_set_ne.
  - left. exists node. rewrite (Hedit _ Ha). by split_and!; try left.
Qed.

(** Over every reachable state of the tables, adding a tag appends it to the tags of the
    node unless it is there, removing one drops its first occurrence, and both leave all other
    nodes alone; a missing node is reported, and a request that fails changes nothing. *)
Theorem tag_requests_outcome (has_audit : bool) (ops : list node_op) (node_id : uuid) (tag : pystr) :
  let s := node_history node_refused ops in
  (let '(r, s') := run_state serve (add_tag has_audit node_id tag) s in
   edits_one node_id (fun tags => if bool_decide (tag ∈ tags) then tags else tags ++ [tag]) s r s') /\
  (let '(r, s') := run_state serve (remove_tag has_audit node_id tag) s in
   edits_one node_id (remove_first tag) s r s').
Proof.
  intros s. pose proof (ok_node_history node_refused ops) as Hs. fold s in Hs. split.
  - pose proof (run_edit has_audit node_id (fun tags => if bool_decide (tag ∈ tags) then tags else tags ++ [tag])
      (fun tags => negb (bool_decide (tag ∈ tags))) #"add_tag" (Some [(#"tag", JStr tag)]) s Hs) as Hr.
    assert (run_state serve (add_tag has_audit node_id tag) s = run_state serve
      (node ← get_node node_id;
       if negb (bool_decide (tag ∈ nv_tags node)) then
         _log_required has_audit #"add_tag" node_id (Some [(#"tag", JStr tag)]);;
         write_tags node_id (if bool_decide (tag ∈ nv_tags node) then nv_tags node else nv_tags node ++ [tag])
       else mret node) s) as ->.
    { unfold add_tag. rewrite !run_state_bind, run_get_node. destruct (get_by_id node_id s); [|done]. by case_bool_decide. }
    apply Hr. intros tags Ht. by apply negb_false_iff in Ht as ->.
  - pose proof (run_edit has_audit node_id (remove_first tag) (fun tags => bool_decide (tag ∈ tags)) #"remove_tag"
      (Some [(#"tag", JStr tag)]) s Hs) as Hr. apply Hr. clear.
    intros tags Ht. apply bool_decide_eq_false in Ht. induction tags as [|t tags IH]; [done|]. cbn.
    destruct (str_eqb t tag) eqn:E; [apply str_eqb_eq in E as ->; destruct Ht; left|]. f_equal. apply IH. set_solver.
Qed.
End tags.

(** Two requests that add a tag to the same node, the second one reading the node before the
    first one has written: the first tag is lost, although both succeed. *)
Example concurrent_tags_are_lost :
  let _ := ascii_only in
  let s := @node_history no_node_refused heap_order [CreateNode (sample_node #"a" [ #"x"]) 10 10] in
  let requests := interleave [0; 1; 0; 1] [add_tag false 0%N #"y"; add_tag false 0%N #"z"] in
  let '(r, s') := run_state (@serve heap_order ascii_collation no_node_refused (fun _ => raise DBAPIError #"") 20) requests s in
  (exists v v', r = Ok [Ok v; Ok v']) /\ tags_of <$> get_by_id 0%N s' = Some [ #"x"; #"z"].
Proof. cbv zeta. split; [eexists _, _; by vm_compute|by vm_compute]. Qed.

(** ** The bulk check *)

Section check.
Context `{Unicode} `{PyFloat} (has_audit has_status_writer has_status_history has_node_view : bool).
(** A world that answers each call alike. *)
Context (f : forall c : call, res (answer c)).
Definition on_node (c : command_call) : res (command_answer c) := f (Remote c).

#[local] Abbreviation evn := (@eval command_signature _ on_node).

Lemma eval_remote {A} (p : @prog command_signature A) : eval f (remote p) = evn p.
Proof. induction p as [r|c k IH]; [done|]. cbn. apply IH. Qed.

(** The status and the error a session shows. *)
Definition shown (c : connector) (status : pystr) (error : option pystr) : Prop :=
  match evn (in_session c (@perform command_signature (RunCommand c #"echo ok"))) with
  | Ok _ => status = #"active" /\ error = None
  | Raise e => isinstance (exn_type e) Exception_ = true /\ error = Some (exn_msg e) /\
      status = if isinstance (exn_type e) CredentialDecryptionError then #"error" else #"unreachable"
  end.
(** The verdict once the status has been stored, or not. *)
Definition verdict (text : pystr) (node_id : uuid) (status : pystr) (error : option pystr) (d : BulkNodeCheckDetailDTO) : Prop :=
  bd_node_id d = text /\ bd_new_status d = Some status /\
  match (if has_status_writer then Some (on_node (UpdateNodeStatus node_id status)) else None) with
  | None | Some (Ok (Some _)) => bd_success d = bool_decide (error = None) /\ bd_error d = error
  | Some (Ok None) => bd_success d = false /\ bd_error d = Some #"Node not found on status update"
  | Some (Raise e) => isinstance (exn_type e) Exception_ = true /\
      bd_success d = false /\ bd_error d = Some (#"Status update failed: " ++ exn_msg e)
  end.
Definition checked (text : pystr) (d : BulkNodeCheckDetailDTO) : Prop :=
  match uuid_of_text text with
  | None => d = {| bd_node_id := text; bd_success := false; bd_error := Some #"Invalid node id"; bd_new_status := None |}
  | Some node_id =>
      match on_node (GetConnection node_id) with
      | Ok None => d = {| bd_node_id := text; bd_success := false; bd_error := Some #"Node not found"; bd_new_status := None |}
      | Ok (Some node) => exists c status error,
          evn (build_ssh_connector node None) = Ok c /\ shown c status error /\ verdict text node_id status error d
      | Raise _ => False
      end
  end.

(** An exception of the batch comes from a call outside every [try], such as the cipher's,
    or is not for [except Exception]. *)
Definition uncaught (c : call) : bool :=
  match c with
  | Remote (GetConnection _) | Remote (Fleet _) | Remote (CreateSsh _) | Remote (PublishEvent _ _) | AuditNode _ _ _ _ => true
  | _ => false
  end.
Definition loses_batch (e : exn) : Prop :=
  exists c, f c = Raise e /\ (uncaught c = true \/ isinstance (exn_type e) Exception_ = false).

Lemma loses_decrypt value e : evn (decrypt value) = Raise e -> loses_batch e.
Proof. intros He. exists (Remote (Fleet (Decrypt value))). split; [exact He|by left]. Qed.
Lemma loses_build node timeout e : evn (build_ssh_connector node timeout) = Raise e -> loses_batch e.
Proof.
  unfold build_ssh_connector. rewrite eval_bind. intros [He|(a & _ & He)]%res_bind_raise; [by eapply loses_decrypt|].
  rewrite eval_bind in He. apply res_bind_raise in He as [He|(a' & _ & He)]; [by eapply loses_decrypt|].
  rewrite eval_bind in He. apply res_bind_raise in He as [He|(a'' & _ & He)]; [by eapply loses_decrypt|].
  rewrite eval_bind in He. apply res_bind_raise in He as [He|(b & _ & He)]; [|done].
  eexists (Remote (CreateSsh _)). split; [exact He|by left].
Qed.

Lemma eval_check_session c :
  match evn (check_session c) with
  | Ok (status, error) => shown c status error
  | Raise e => loses_batch e
  end.
Proof.
  unfold check_session, shown. rewrite eval_try, eval_bind.
  destruct (evn (in_session c _)) as [out|e] eqn:E; [done|]. cbn [mbind res_bind].
  destruct (isinstance (exn_type e) CredentialDecryptionError) eqn:Ec.
  { split_and!; [|done..]. revert Ec. clear. destruct (exn_type e); vm_compute; done. }
  destruct (isinstance (exn_type e) Exception_) eqn:Ee; [done|].
  apply in_session_origin in E as [x Hx]. exists (Remote x). split; [exact Hx|by right].
Qed.

Lemma eval_previous_status node_id e : evn (previous_status has_node_view node_id) = Raise e -> loses_batch e.
Proof.
  unfold previous_status. destruct has_node_view; [|done]. rewrite eval_try, eval_bind. cbn.
  destruct (on_node (GetNode node_id)) as [?|e'] eqn:E; cbn; [done|]. unfold on_exception.
  destruct (isinstance (exn_type e') Exception_) eqn:Ee; cbn; [done|]. intros [= <-].
  exists (Remote (GetNode node_id)). split; [exact E|by right].
Qed.

Lemma eval_record_change node_id text old new e : evn (record_status_change node_id text old new) = Raise e -> loses_batch e.
Proof.
  unfold record_status_change. rewrite eval_bind, eval_try, eval_bind. cbn [eval perform].
  set (change := SaveStatusChange _). destruct (on_node change) as [?|e'] eqn:E; cbn [mbind res_bind].
  - cbn. intros He. eexists (Remote (PublishEvent _ _)). split; [exact He|by left].
  - unfold on_exception. destruct (isinstance (exn_type e') Exception_) eqn:Ee; cbn; [done|]. intros [= <-].
    exists (Remote change). split; [exact E|by right].
Qed.

Lemma eval_store_status node_id status error :
  match evn (store_status has_status_writer node_id status error) with
  | Ok (ok, error') => forall text, verdict text node_id status error
      {| bd_node_id := text; bd_success := ok && bool_decide (error = None); bd_error := error'; bd_new_status := Some status |}
  | Raise e => loses_batch e
  end.
Proof.
  unfold store_status, verdict. destruct has_status_writer; [|done]. rewrite eval_try, eval_bind. cbn [eval perform].
  destruct (on_node (UpdateNodeStatus node_id status)) as [[view|]|e] eqn:E; cbn [mbind res_bind]; [done|done|].
  unfold on_exception. destruct (isinstance (exn_type e) Exception_) eqn:Ee; [done|].
  exists (Remote (UpdateNodeStatus node_id status)). split; [exact E|by right].
Qed.

Lemma eval_check_node text node_id node :
  match evn (check_node has_status_writer has_status_history has_node_view text node_id node) with
  | Ok result => exists c status error, evn (build_ssh_connector node None) = Ok c /\ shown c status error /\
      verdict text node_id status error (detail_of result)
  | Raise e => loses_batch e
  end.
Proof.
  unfold check_node. rewrite eval_bind.
  destruct (evn (build_ssh_connector node None)) as [c|e] eqn:Eb; [|by eapply loses_build]. cbn [mbind res_bind].
  rewrite eval_bind. pose proof (eval_check_session c) as Hs.
  destruct (evn (check_session c)) as [[status error]|e]; [|exact Hs]. cbn [mbind res_bind].
  rewrite eval_bind. destruct (evn (previous_status _ _)) as [old|e] eqn:Eo; [|by eapply eval_previous_status]. cbn [mbind res_bind].
  rewrite eval_bind. pose proof (eval_store_status node_id status error) as Hw.
  destruct (evn (store_status _ _ _ _)) as [[ok error']|e]; [|exact Hw]. cbn [mbind res_bind].
  rewrite eval_bind. destruct (@eval command_signature unit on_node _) as [[]|e] eqn:Er.
  - cbn. exists c, status, error. split_and!; [done|done|apply Hw].
  - cbn. destruct (has_status_history && _ && _); [by eapply eval_record_change|done].
Qed.

Lemma eval_check_one text :
  match eval f (_check_one has_status_writer has_status_history has_node_view text) with
  | Ok result => checked text (detail_of result)
  | Raise e => loses_batch e
  end.
Proof.
  unfold _check_one, checked. destruct (uuid_of_text text) as [node_id|]; [|done].
  rewrite eval_bind, eval_remote. cbn [eval perform].
  destruct (on_node (GetConnection node_id)) as [[node|]|e] eqn:Eg; cbn [mbind res_bind]; [|done|].
  - rewrite eval_remote. apply eval_check_node.
  - exists (Remote (GetConnection node_id)). split; [exact Eg|by left].
Qed.

Lemma count_split (l : list BulkNodeCheckDetailDTO) :
  length (List.filter bd_success l) + length (List.filter (fun d => negb (bd_success d)) l) = length l.
Proof. apply filter_length. Qed.

(** In a world that answers each call alike, and under every schedule, the bulk check over
    sessions returns one detail per requested text, in their order, duplicates included: a text
    that is no identifier and a missing node fail; otherwise the session shows active, error or
    unreachable, and the node passes when it is active and the status could be stored; the
    counts add up and the identifiers are those of the nodes that passed. It raises only for an
    exception that no [try] catches: that of the cipher for one node, for instance, loses the
    verdicts of all. *)
Theorem bulk_check_outcome (sched : list nat) (node_ids : list pystr) :
  match eval f (bulk_check has_audit true has_status_writer has_status_history has_node_view sched node_ids #"ssh") with
  | Ok r =>
      Forall2 checked node_ids (bk_details r) /\ bk_total r = Z.of_nat (length node_ids) /\
      bk_succeeded r = Z.of_nat (length (List.filter bd_success (bk_details r))) /\
      (bk_succeeded r + bk_failed r = bk_total r)%Z /\
      bk_node_ids r = omap (fun d => uuid_of_text (bd_node_id d)) (List.filter bd_success (bk_details r))
  | Raise e => loses_batch e
  end.
Proof.
  unfold bulk_check. change (str_eqb #"ssh" #"db") with false. cbn [negb]. rewrite eval_bind.
  pose proof (eval_gather_spec f sched (_check_one has_status_writer has_status_history has_node_view)
    (fun text result => checked text (detail_of result)) loses_batch node_ids (fun text _ => eval_check_one text)) as Hg.
  destruct (eval f (gather_first _ _)) as [results|e]; [|exact Hg]. cbn [mbind res_bind]. rewrite eval_bind.
  destruct (eval f (audit_check _ _ _)) as [[]|e] eqn:Ea; cbn [mbind res_bind].
  - cbn. assert (Forall2 checked node_ids (detail_of <$> results)) as Hd by by apply Forall2_fmap_r.
    split_and!; try done. pose proof (Forall2_length _ _ _ Hd) as Hl. pose proof (count_split (detail_of <$> results)). lia.
  - unfold audit_check, audit_bulk, log_if in Ea. destruct has_audit; [|done].
    eexists (AuditNode _ _ _ _). split; [exact Ea|by left].
Qed.
End check.
