(* ===== verification/Config.v ===== *)
(** * Configuration import and export

    [app/adapters/persistence/config.py] and [app/application/services/config_service.py]:
    a snapshot of nodes, commands and scripts, read in pages; its import within one
    transaction, which skips what exists; and the preview of an import. *)
From S2P Require Import Prelude PyStr Errors Json Effects Dto Commands Packs Query Nodes.

(** ** Data ([dto/config.py]) *)

Definition CONFIG_FORMAT_VERSION : pystr := #"1.0".
Record NodeConfigDTO := {
  cfn_name : pystr; cfn_endpoint : NodeEndpoint; cfn_credentials : NodeCredentials; cfn_tags : list pystr }.
(** Descriptions, parameters, steps and tags are the values of JSON columns. *)
Record CommandConfigDTO := {
  cfc_name : pystr; cfc_command : pystr; cfc_description : json; cfc_parameters : list json; cfc_tags : list json }.
Record ScriptConfigDTO := {
  cfs_name : pystr; cfs_description : json; cfs_steps : list json; cfs_tags : list json }.
Record ConfigTransferDTO := {
  ct_nodes : list NodeConfigDTO; ct_commands : list CommandConfigDTO; ct_scripts : list ScriptConfigDTO;
  ct_format_version : option pystr; ct_application_version : option pystr; ct_exported_at : option Z }.
Record ConfigImportResultDTO := {
  ci_nodes_created : Z; ci_commands_created : Z; ci_scripts_created : Z; ci_errors : list pystr }.
Record DryRunPreviewDTO := {
  dr_would_create_nodes : list NodeConfigDTO; dr_would_create_commands : list CommandConfigDTO;
  dr_would_create_scripts : list ScriptConfigDTO; dr_duplicates : list pystr; dr_errors : list pystr }.

(** The tables a configuration is made of: those of [Nodes] and of [Packs]. *)
Record config_db := { cf_nodes : node_tables; cf_library : store }.

(** ** Reading in pages *)

(** [_load_all]: the [n]-th query asks for the rows behind those that were read.  [None]: out
    of fuel. *)
Fixpoint load_all_go {A} (fuel : nat) (batch_size : Z) (query : nat -> Z -> Z -> res (list A)) (n : nat) (items : list A)
    : option (res (list A)) :=
  match fuel with
  | O => None
  | S fuel =>
      match query n (Z.of_nat (length items)) batch_size with
      | Raise e => Some (Raise e)
      | Ok batch =>
          if (Z.of_nat (length batch) <? batch_size)%Z then Some (Ok (items ++ batch))
          else load_all_go fuel batch_size query (S n) (items ++ batch)
      end
  end.
(** One query more than there are rows is enough ([load_all_total]). *)
Definition _load_all `{Scans} {A} (batch_size : Z) (rows : list A) : res (list A) :=
  default (Ok []) (load_all_go (S (length rows)) batch_size (fun n skip limit => sql_page skip limit (scan n rows)) 0 []).

Section gateway.
Context `{Scans} `{Unicode} `{PyFloat}.
Context (batch_size : Z).
Context (node_refused : NodeModel -> option exn) (command_refused : command_row -> option exn)
        (script_refused : script_row -> option exn).

(** ** Export *)

Definition node_config (kv : uuid * NodeModel) : NodeConfigDTO :=
  let node := kv.2 in
  {| cfn_name := nm_name node;
     cfn_endpoint := {| ep_host := nm_host node; ep_port := nm_port node; ep_connection_type := nm_connection_type node;
                        ep_docker_host := nm_docker_host node; ep_has_docker := nm_has_docker node |};
     cfn_credentials := {| cr_username := nm_username node; cr_password := None; cr_ssh_key := None; cr_passphrase := None |};
     cfn_tags := default [] (nm_tags node) |}.
(** [tuple(command.parameters or ())]. *)
Definition command_config (kv : uuid * command_row) : res CommandConfigDTO :=
  let command := kv.2 in
  parameters ← py_list (or_else (cm_parameters command) (JArr []));
  Ok {| cfc_name := cm_name command; cfc_command := cm_command command; cfc_description := cm_description command;
        cfc_parameters := parameters; cfc_tags := cm_tags command |}.
Definition script_config (kv : uuid * script_row) : ScriptConfigDTO :=
  let script := kv.2 in
  {| cfs_name := sc_name script; cfs_description := sc_description script; cfs_steps := sc_steps script;
     cfs_tags := sc_tags script |}.
Fixpoint command_configs (rows : list (uuid * command_row)) : res (list CommandConfigDTO) :=
  match rows with
  | [] => Ok []
  | row :: rows => command ← command_config row; rest ← command_configs rows; Ok (command :: rest)
  end.

Definition export_config (db : config_db) : res ConfigTransferDTO :=
  nodes ← _load_all batch_size (nt_nodes (cf_nodes db));
  commands ← _load_all batch_size (st_commands (cf_library db));
  scripts ← _load_all batch_size (st_scripts (cf_library db));
  command_dtos ← command_configs commands;
  Ok {| ct_nodes := map node_config nodes; ct_commands := command_dtos; ct_scripts := map script_config scripts;
        ct_format_version := None; ct_application_version := None; ct_exported_at := None |}.

(** ** Import *)

(** The loop over the items of one kind, with what is known to exist, the number of rows
    created and the messages. *)
Fixpoint import_items {D W} (name : D -> pystr) (what : pystr) (create : D -> W -> res W)
    (items : list D) (existing : list pystr) (created : Z) (errors : list pystr) (s : W) : res (Z * list pystr * W) :=
  match items with
  | [] => Ok (created, errors, s)
  | item :: items =>
      if bool_decide (name item ∈ existing) then
        import_items name what create items existing created
          (errors ++ [what ++ #" '" ++ name item ++ #"' already exists, skipped"]) s
      else
        s ← create item s;
        import_items name what create items (name item :: existing) (created + 1) errors s
  end.

Definition import_node (now : Z) (node : NodeConfigDTO) (s : node_tables) : res node_tables :=
  let endpoint := cfn_endpoint node in
  let credentials := {| cr_username := cr_username (cfn_credentials node); cr_password := None; cr_ssh_key := None;
                        cr_passphrase := None |} in
  '(_, s) ← Nodes.create node_refused (cfn_name node) (ep_host endpoint) (ep_port endpoint) (ep_connection_type endpoint)
              credentials (ep_docker_host endpoint) (ep_has_docker endpoint) (cfn_tags node) now now s;
  Ok s.
Definition DEFAULT_TIMEOUT : Z := 30.
Definition import_command (command : CommandConfigDTO) (s : store) : res store :=
  let id := st_next s in
  insert_command command_refused id
    {| cm_name := cfc_name command; cm_description := cfc_description command; cm_command := cfc_command command;
       cm_parameters := JArr (cfc_parameters command); cm_tags := cfc_tags command; cm_timeout := DEFAULT_TIMEOUT;
       cm_template_pack_id := None |} (set_next s (id + 1)%N).
Definition import_script (script : ScriptConfigDTO) (s : store) : res store :=
  let id := st_next s in
  insert_script script_refused id
    {| sc_name := cfs_name script; sc_description := cfs_description script; sc_steps := cfs_steps script;
       sc_tags := cfs_tags script; sc_timeout := DEFAULT_TIMEOUT; sc_template_pack_id := None |} (set_next s (id + 1)%N).

(** The names in a table; it is read only when the payload has items of its kind. *)
Definition existing_names {D A} (items : list D) (name : A -> pystr) (rows : list (uuid * A)) : res (list pystr) :=
  match items with
  | [] => Ok []
  | _ => rows ← _load_all batch_size rows; Ok (map (fun kv => name kv.2) rows)
  end.

Definition import_in_session (now : Z) (data : ConfigTransferDTO) (db : config_db) : res (ConfigImportResultDTO * config_db) :=
  node_names ← existing_names (ct_nodes data) nm_name (nt_nodes (cf_nodes db));
  command_names ← existing_names (ct_commands data) cm_name (st_commands (cf_library db));
  script_names ← existing_names (ct_scripts data) sc_name (st_scripts (cf_library db));
  '(nodes_created, errors, nodes) ←
    import_items cfn_name #"Node" (import_node now) (ct_nodes data) node_names 0 [] (cf_nodes db);
  '(commands_created, errors, library) ←
    import_items cfc_name #"Command" import_command (ct_commands data) command_names 0 errors (cf_library db);
  '(scripts_created, errors, library) ←
    import_items cfs_name #"Script" import_script (ct_scripts data) script_names 0 errors library;
  Ok ({| ci_nodes_created := nodes_created; ci_commands_created := commands_created;
         ci_scripts_created := scripts_created; ci_errors := errors |},
      {| cf_nodes := nodes; cf_library := library |}).
Definition import_config (now : Z) (data : ConfigTransferDTO) (db : config_db) : res ConfigImportResultDTO * config_db :=
  match import_in_session now data db with
  | Ok (result, db') => (Ok result, db')
  | Raise e => (Raise e, db)
  end.

(** ** Preview *)

Fixpoint preview_items {D} (name : D -> pystr) (what : pystr) (items : list D) (existing : list pystr) (duplicates : list pystr)
    : list D * list pystr :=
  match items with
  | [] => ([], duplicates)
  | item :: items =>
      if bool_decide (name item ∈ existing) then
        preview_items name what items existing (duplicates ++ [what ++ #" '" ++ name item ++ #"' already exists"])
      else let '(would_create, duplicates) := preview_items name what items existing duplicates in
           (item :: would_create, duplicates)
  end.
Definition preview_import (data : ConfigTransferDTO) (db : config_db) : res DryRunPreviewDTO :=
  node_names ← existing_names (ct_nodes data) nm_name (nt_nodes (cf_nodes db));
  command_names ← existing_names (ct_commands data) cm_name (st_commands (cf_library db));
  script_names ← existing_names (ct_scripts data) sc_name (st_scripts (cf_library db));
  let '(nodes, duplicates) := preview_items cfn_name #"Node" (ct_nodes data) node_names [] in
  let '(commands, duplicates) := preview_items cfc_name #"Command" (ct_commands data) command_names duplicates in
  let '(scripts, duplicates) := preview_items cfs_name #"Script" (ct_scripts data) script_names duplicates in
  Ok {| dr_would_create_nodes := nodes; dr_would_create_commands := commands; dr_would_create_scripts := scripts;
        dr_duplicates := duplicates; dr_errors := [] |}.

(** ** The service ([config_service.py]) *)

Definition export_all (application_version : pystr) (now : Z) (db : config_db) : res ConfigTransferDTO :=
  snapshot ← export_config db;
  Ok {| ct_nodes := ct_nodes snapshot; ct_commands := ct_commands snapshot; ct_scripts := ct_scripts snapshot;
        ct_format_version := Some CONFIG_FORMAT_VERSION; ct_application_version := Some application_version;
        ct_exported_at := Some now |}.
(** [version.split(".", maxsplit=1)[0]]. *)
Definition major (version : pystr) : pystr := match split_once 46 version with m :: _ => m | [] => [] end.
Definition check_format (data : ConfigTransferDTO) : res unit :=
  match ct_format_version data with
  | Some received =>
      if str_eqb (major received) (major CONFIG_FORMAT_VERSION) then Ok tt
      else raise UnsupportedConfigFormatError
             (#"Unsupported configuration format " ++ received ++ #"; supported major is " ++ major CONFIG_FORMAT_VERSION)
  | None => Ok tt
  end.
Definition service_import (now : Z) (dry_run : bool) (data : ConfigTransferDTO) (db : config_db)
    : res (DryRunPreviewDTO + ConfigImportResultDTO) * config_db :=
  match check_format data with
  | Raise e => (Raise e, db)
  | Ok _ =>
      if dry_run then (match preview_import data db with Ok p => Ok (inl p) | Raise e => Raise e end, db)
      else match import_config now data db with
           | (Ok r, db) => (Ok (inr r), db)
           | (Raise e, db) => (Raise e, db)
           end
  end.
End gateway.
