(* ===== verification/ConfigSpec.v ===== *)
(** * What configuration transfer promises

    Reading in pages ends and, over a stable order, is complete; an import creates exactly
    the items that are new, or nothing; the preview announces it; and an export imported
    into empty tables exports the same again. *)
From S2P Require Import Prelude PyStr Errors Json Effects Dto Commands Packs PackSpec PackInv Query Nodes NodeInv Config.

(** ** Reading in pages *)

(** A table that is read whole: its unordered queries see the rows in one order, or one query
    returns them all. *)
Definition readable `{Scans} {A} (batch : Z) (rows : list A) : Prop :=
  (forall n, scan n rows = scan 0 rows) \/ (Z.of_nat (length rows) <= batch)%Z.

Lemma load_all_go_spec `{Scans} {A} (rows : list A) batch fuel n items : (0 < batch)%Z ->
  length items <= length rows -> length rows < fuel + length items ->
  exists l, load_all_go fuel batch (fun n skip limit => sql_page skip limit (scan n rows)) n items = Some (Ok l) /\
    length l = length rows /\
    ((forall n, scan n rows = scan 0 rows) -> items `prefix_of` scan 0 rows -> l = scan 0 rows).
Proof.
  intros Hb. revert n items. induction fuel as [|fuel IH]; intros n items Hle Hfuel; [lia|]. cbn [load_all_go].
  unfold sql_page at 1. replace ((Z.of_nat (length items) <? 0) || (batch <? 0))%Z with false by (symmetry; apply orb_false_iff; lia).
  rewrite Nat2Z.id. set (page := take (Z.to_nat batch) (drop (length items) (scan n rows))).
  assert (Hlen : length (scan n rows) = length rows) by by rewrite (scan_permutation n rows).
  assert (Hpage : length page = Z.to_nat batch `min` (length rows - length items)).
  { unfold page. by rewrite length_take, length_drop, Hlen. }
  assert (Hprefix : (forall n, scan n rows = scan 0 rows) -> items `prefix_of` scan 0 rows -> (items ++ page) `prefix_of` scan 0 rows).
  { intros Hst [rest Hr]. unfold page. rewrite Hst, Hr, drop_app_length.
    exists (drop (Z.to_nat batch) rest). by rewrite <- app_assoc, take_drop. }
  destruct (Z.ltb_spec (Z.of_nat (length page)) batch) as [Hlt|Hge].
  - eexists. split; [done|]. rewrite length_app. split; [lia|]. intros Hst Hp.
    destruct (Hprefix Hst Hp) as [rest Hr]. pose proof (f_equal length Hr) as Hl.
    rewrite Hst in Hlen. rewrite !length_app, Hlen in Hl. destruct rest; [|cbn in Hl; lia]. by rewrite Hr, app_nil_r.
  - destruct (IH (S n) (items ++ page)) as (l & Hl & Hll & Hst); [rewrite length_app; lia..|].
    exists l. split; [done|]. split; [done|]. intros Hs Hp. by apply Hst, Hprefix.
Qed.

(** The loop ends, with as many rows as there are, whatever order each query sees; over a
    stable order, with the rows in that order. *)
Lemma load_all_total `{Scans} {A} batch (rows : list A) : (0 < batch)%Z ->
  exists l, _load_all batch rows = Ok l /\ length l = length rows.
Proof.
  intros Hb. unfold _load_all. destruct (load_all_go_spec rows batch (S (length rows)) 0 []) as (l & -> & Hl & _); [done|cbn; lia..|].
  by exists l.
Qed.
Lemma load_all_readable `{Scans} {A} batch (rows : list A) : (0 < batch)%Z -> readable batch rows ->
  _load_all batch rows = Ok (scan 0 rows).
Proof.
  intros Hb [Hst|Hle]; unfold _load_all.
  - destruct (load_all_go_spec rows batch (S (length rows)) 0 []) as (l & -> & _ & Hs); [done|cbn; lia..|].
    cbn. f_equal. apply Hs; [done|apply prefix_nil].
  - assert (forall n, length (scan n rows) = length rows) as Hlen by (intros n; by rewrite (scan_permutation n rows)).
    cbn [load_all_go]. unfold sql_page at 1. replace ((Z.of_nat (length []) <? 0) || (batch <? 0))%Z with false by (symmetry; apply orb_false_iff; split; [done|apply Z.ltb_ge; lia]).
    cbn [length app]. change (drop (Z.to_nat (Z.of_nat 0)) (scan 0 rows)) with (scan 0 rows). rewrite take_ge by (rewrite Hlen; lia). rewrite Hlen.
    destruct (Z.ltb_spec (Z.of_nat (length rows)) batch); [done|].
    destruct (length rows) as [|m] eqn:El; [lia|]. cbn [load_all_go]. unfold sql_page.
    replace ((Z.of_nat (length (scan 0 rows)) <? 0) || (batch <? 0))%Z with false by (symmetry; apply orb_false_iff; split; apply Z.ltb_ge; lia).
    rewrite Nat2Z.id, drop_ge by (rewrite !Hlen; lia). rewrite take_nil. cbn [length Z.of_nat].
    destruct (Z.ltb_spec (Z.of_nat 0) batch); [by rewrite app_nil_r|lia].
Qed.

(** Without [ORDER BY], two pages may show one row twice and another one never. *)
Definition alternating : Scans.
Proof.
  refine {| scan A n rows := if Nat.even n then rows else rev rows |}.
  intros A n rows. destruct (Nat.even n); [done|by rewrite <- Permutation_rev].
Defined.
Example unordered_pages_repeat_rows : @_load_all alternating N 2 [1; 2; 3; 4]%N = Ok [1; 2; 2; 1]%N.
Proof. by vm_compute. Qed.

(** ** The loops of import and preview *)

Section loops.
Context {D : Type} (name : D -> pystr) (what : pystr).

(** The items that are new, also among those before them, and the others. *)
Fixpoint fresh (existing : list pystr) (items : list D) : list D :=
  match items with
  | [] => []
  | item :: items =>
      if bool_decide (name item ∈ existing) then fresh existing items else item :: fresh (name item :: existing) items
  end.
Fixpoint known (existing : list pystr) (items : list D) : list D :=
  match items with
  | [] => []
  | item :: items =>
      if bool_decide (name item ∈ existing) then item :: known existing items else known (name item :: existing) items
  end.
Definition exists_message (item : D) : pystr := what ++ #" '" ++ name item ++ #"' already exists".
Definition skipped_message (item : D) : pystr := what ++ #" '" ++ name item ++ #"' already exists, skipped".

Fixpoint create_all {W} (create : D -> W -> res W) (items : list D) (s : W) : res W :=
  match items with [] => Ok s | item :: items => s ← create item s; create_all create items s end.

Lemma import_items_eq {W} (create : D -> W -> res W) items existing created errors s :
  import_items name what create items existing created errors s =
    match create_all create (fresh existing items) s with
    | Ok s' => Ok ((created + Z.of_nat (length (fresh existing items)))%Z,
                   errors ++ map skipped_message (known existing items), s')
    | Raise e => Raise e
    end.
Proof.
  revert existing created errors s. induction items as [|item items IH]; intros existing created errors s; cbn [import_items fresh known].
  { cbn. by rewrite Z.add_0_r, app_nil_r. }
  case_bool_decide.
  - rewrite IH. cbn [map]. unfold skipped_message at 1. by rewrite <- app_assoc.
  - cbn [create_all]. destruct (create item s) as [s1|e]; [|done]. cbn [mbind res_bind]. rewrite IH.
    destruct (create_all _ _ _); [|done]. cbn [length].
    by replace (created + Z.of_nat (S (length (fresh (name item :: existing) items))))%Z
      with (created + 1 + Z.of_nat (length (fresh (name item :: existing) items)))%Z by lia.
Qed.

Lemma preview_items_eq items existing duplicates :
  preview_items name what items existing duplicates =
    (List.filter (fun item => negb (bool_decide (name item ∈ existing))) items,
     duplicates ++ map exists_message (List.filter (fun item => bool_decide (name item ∈ existing)) items)).
Proof.
  revert duplicates. induction items as [|item items IH]; intros duplicates; cbn; [by rewrite app_nil_r|].
  case_bool_decide; cbn; rewrite IH; [by rewrite <- app_assoc|done].
Qed.

Lemma fresh_spec existing items :
  NoDup (name <$> fresh existing items) /\
  (forall item, item ∈ fresh existing items -> (name item ∉ existing) /\ item ∈ items).
Proof.
  revert existing. induction items as [|item items IH]; intros existing; cbn [fresh]; [split; [constructor|set_solver]|].
  case_bool_decide as Hi.
  - destruct (IH existing) as [Hn Hf]. split; [done|]. intros x [? ?]%Hf. split; [done|by right].
  - destruct (IH (name item :: existing)) as [Hn Hf]. split.
    + cbn. apply NoDup_cons. split; [|done]. intros (x & E & Hx)%list_elem_of_fmap. apply Hf in Hx as [Hx _]. apply Hx. rewrite E. left.
    + intros x [->|Hx]%elem_of_cons; [split; [done|left]|]. apply Hf in Hx as [Hx Hin]. split; [|by right]. intros ?. apply Hx. by right.
Qed.

(** Among items with distinct names, the new ones are those whose name is not taken. *)
Lemma fresh_distinct existing items : NoDup (name <$> items) ->
  fresh existing items = List.filter (fun item => negb (bool_decide (name item ∈ existing))) items /\
  known existing items = List.filter (fun item => bool_decide (name item ∈ existing)) items.
Proof.
  revert existing. induction items as [|item items IH]; intros existing Hn; [done|]. cbn in Hn. apply NoDup_cons in Hn as [Hi Hn].
  cbn [fresh known List.filter]. case_bool_decide; cbn [negb]; destruct (IH existing Hn) as [Ef Ek]; [by rewrite Ef, Ek|].
  destruct (IH (name item :: existing) Hn) as [-> ->].
  assert (forall x, x ∈ items -> bool_decide (name x ∈ name item :: existing) = bool_decide (name x ∈ existing)) as E.
  { intros x Hx. apply bool_decide_ext. split; [|by right]. intros [E|?]%elem_of_cons; [|done]. destruct Hi. rewrite <- E. by apply list_elem_of_fmap_2. }
  clear -E. split; [f_equal|]; (induction items as [|x items IH]; [done|]; cbn; rewrite (E x) by left;
    rewrite IH by (intros y Hy; apply E; by right); done).
Qed.

Lemma fresh_all items : NoDup (name <$> items) -> fresh [] items = items /\ known [] items = [].
Proof.
  intros Hn. destruct (fresh_distinct [] items Hn) as [-> ->]. split; [apply filter_all|apply filter_none]; intros x _.
  - apply negb_true_iff, bool_decide_eq_false, not_elem_of_nil.
  - apply bool_decide_eq_false, not_elem_of_nil.
Qed.
End loops.

(** ** Creating the rows of one kind *)

Section creating.
Context {D W R C : Type} (name : D -> pystr) (create : D -> W -> res W).
Context (rows_of : W -> list (uuid * R)) (row_name : R -> pystr) (config : uuid * R -> C) (shown : D -> C).
Context (inv : W -> Prop) (frame : W -> W -> Prop) (refused : D -> exn -> Prop).
Context (frame_refl : forall s, frame s s) (frame_trans : forall s1 s2 s3, frame s1 s2 -> frame s2 s3 -> frame s1 s3).

Definition names_of (s : W) : list pystr := map (fun kv => row_name kv.2) (rows_of s).
Context (create_ok : forall item s, inv s -> (name item ∉ names_of s) ->
  match create item s with
  | Ok s' => inv s' /\ frame s s' /\ exists row, rows_of s' = rows_of s ++ [row] /\ config row = shown item /\ row_name row.2 = name item
  | Raise e => refused item e
  end).

Lemma create_all_spec items s : inv s -> NoDup (name <$> items) -> (forall item, item ∈ items -> name item ∉ names_of s) ->
  match create_all create items s with
  | Ok s' => inv s' /\ frame s s' /\ exists rows, rows_of s' = rows_of s ++ rows /\ map config rows = map shown items
  | Raise e => exists item, item ∈ items /\ refused item e
  end.
Proof.
  revert s. induction items as [|item items IH]; intros s Hs Hn Hnew; cbn [create_all].
  { split_and!; [done|done|]. exists []. by rewrite app_nil_r. }
  cbn in Hn. apply NoDup_cons in Hn as [Hi Hn].
  pose proof (create_ok item s Hs (Hnew item (list_elem_of_here _ _))) as Hc.
  destruct (create item s) as [s1|e]; [|exists item; split; [left|done]]. cbn [mbind res_bind].
  destruct Hc as (Hs1 & Hf & row & Hrows & Hcfg & Hname).
  specialize (IH s1 Hs1 Hn). destruct (create_all create items s1) as [s2|e].
  - destruct IH as (Hs2 & Hf2 & rows & Hrows2 & Hcfgs).
    { intros x Hx. unfold names_of. rewrite Hrows, map_app, elem_of_app. cbn. rewrite Hname.
      intros [Hin|Hin%list_elem_of_singleton]; [by eapply Hnew; [right|]|]. apply Hi. rewrite <- Hin. by apply list_elem_of_fmap_2. }
    split_and!; [done|by eapply frame_trans|]. exists (row :: rows). split; [by rewrite Hrows2, Hrows, <- app_assoc|].
    cbn. by rewrite Hcfg, Hcfgs.
  - destruct IH as (x & Hx & Hr); [|exists x; split; [by right|done]].
    intros x Hx. unfold names_of. rewrite Hrows, map_app, elem_of_app. cbn. rewrite Hname.
    intros [Hin|Hin%list_elem_of_singleton]; [by eapply Hnew; [right|]|]. apply Hi. rewrite <- Hin. by apply list_elem_of_fmap_2.
Qed.
End creating.

Section spec.
Context `{Scans} `{Unicode} `{PyFloat} (batch_size : Z).
Context (node_refused : NodeModel -> option exn) (command_refused : command_row -> option exn)
        (script_refused : script_row -> option exn).

(** What a configuration shows of a node: its credentials are left out, except the user name. *)
Definition without_secrets (node : NodeConfigDTO) : NodeConfigDTO :=
  {| cfn_name := cfn_name node; cfn_endpoint := cfn_endpoint node;
     cfn_credentials := {| cr_username := cr_username (cfn_credentials node); cr_password := None; cr_ssh_key := None;
                           cr_passphrase := None |};
     cfn_tags := cfn_tags node |}.
(** A row that the tables refuse for its values. *)
Definition node_is_refused (node : NodeConfigDTO) (e : exn) : Prop :=
  (exists row, node_refused row = Some e /\ node_config (0%N, row) = without_secrets node)
  \/ ep_connection_type (cfn_endpoint node) <> #"ssh".

Lemma import_node_ok now node s : tables_ok s -> (cfn_name node ∉ names_of nt_nodes nm_name s) ->
  match import_node node_refused now node s with
  | Ok s' => tables_ok s' /\ nt_history s' = nt_history s /\
      exists row, nt_nodes s' = nt_nodes s ++ [row] /\ node_config row = without_secrets node /\ nm_name row.2 = cfn_name node
  | Raise e => node_is_refused node e
  end.
Proof.
  intros Hs Hn. unfold import_node, Nodes.create. set (row := {| nm_name := _ |}).
  destruct (check_node node_refused (nt_next s) row s) as [[]|e] eqn:Ec; cbn [mbind res_bind].
  - split_and!; [by apply (ok_insert node_refused)|done|]. eexists. split; [done|]. split; [|done].
    unfold node_config, without_secrets. cbn. by destruct (cfn_endpoint node).
  - revert Ec. unfold check_node. destruct (node_refused row) as [e'|] eqn:Er; [intros [= <-]; left; exists row; split; [done|]; unfold node_config, without_secrets; cbn; by destruct (cfn_endpoint node)|].
    change (nm_status row) with (#"active"). change (bool_decide (#"active" ∈ node_statuses)) with true. cbn [negb].
    destruct (str_eqb (nm_connection_type row) #"ssh") eqn:Et; cbn [negb].
    + destruct (existsb _ _) eqn:Ee; [|done]. intros _. destruct Hn. apply existsb_exists in Ee as ([j b] & Hj & Hb).
      cbn in Hb. apply andb_true_iff in Hb as [_ Hb%str_eqb_eq]. unfold names_of. rewrite <- Hb.
      apply list_elem_of_In in Hj. by apply (list_elem_of_fmap_2 (fun kv => nm_name kv.2) _ (j, b)).
    + intros _. right. intros E. cbn in Et. rewrite E in Et. by vm_compute in Et.
Qed.

(** The library apart from its commands, or its scripts. *)
Definition same_but_commands (s s' : store) : Prop :=
  st_packs s' = st_packs s /\ st_scripts s' = st_scripts s /\ st_links s' = st_links s /\ st_assets s' = st_assets s.
Definition same_but_scripts (s s' : store) : Prop :=
  st_packs s' = st_packs s /\ st_commands s' = st_commands s /\ st_links s' = st_links s /\ st_assets s' = st_assets s.

Definition command_is_refused (command : CommandConfigDTO) (e : exn) : Prop :=
  exists row, command_refused row = Some e /\ command_config (0%N, row) = Ok command.
Definition script_is_refused (script : ScriptConfigDTO) (e : exn) : Prop :=
  exists row, script_refused row = Some e /\ script_config (0%N, row) = script.

Lemma import_command_ok command s : store_inv s -> (cfc_name command ∉ names_of st_commands cm_name s) ->
  match import_command command_refused command s with
  | Ok s' => store_inv s' /\ same_but_commands s s' /\
      exists row, st_commands s' = st_commands s ++ [row] /\ command_config row = Ok command /\ cm_name row.2 = cfc_name command
  | Raise e => command_is_refused command e
  end.
Proof.
  intros Hs Hn. unfold import_command. set (row := {| cm_name := _ |}).
  pose proof (inv_add_command command_refused s row Hs) as Hi. change (user_command row) with row in Hi. unfold transaction in Hi.
  destruct (insert_command _ _ _ _) as [s'|e] eqn:E; cbn [mbind res_bind snd] in Hi.
  - apply insert_command_ok in E as (-> & _). split_and!; [done|by repeat split|]. eexists. split; [done|]. split; [|done].
    unfold command_config. cbn. by destruct command as [? ? ? [|] ?].
  - revert E. unfold insert_command. destruct (existsb _ _) eqn:Ee.
    { intros _. destruct Hn. apply existsb_exists in Ee as ([j b] & Hj & Hb%str_eqb_eq). unfold names_of. cbn in Hb. rewrite <- Hb.
      apply list_elem_of_In in Hj. by apply (list_elem_of_fmap_2 (fun kv => cm_name kv.2) _ (j, b)). }
    change (timeout_ok (cm_timeout row)) with true. cbn [negb].
    destruct (command_refused row) as [e'|] eqn:Er; [|done]. intros [= <-]. exists row. split; [done|].
    unfold command_config. cbn. by destruct command as [? ? ? [|] ?].
Qed.

Lemma import_script_ok script s : store_inv s -> (cfs_name script ∉ names_of st_scripts sc_name s) ->
  match import_script script_refused script s with
  | Ok s' => store_inv s' /\ same_but_scripts s s' /\
      exists row, st_scripts s' = st_scripts s ++ [row] /\ script_config row = script /\ sc_name row.2 = cfs_name script
  | Raise e => script_is_refused script e
  end.
Proof.
  intros Hs Hn. unfold import_script. set (row := {| sc_name := _ |}).
  pose proof (inv_add_script script_refused s row Hs) as Hi. change (user_script row) with row in Hi. unfold transaction in Hi.
  destruct (insert_script _ _ _ _) as [s'|e] eqn:E; cbn [mbind res_bind snd] in Hi.
  - apply insert_script_ok in E as (-> & _). split_and!; [done|by repeat split|]. eexists. split; [done|]. split; [|done].
    by destruct script.
  - revert E. unfold insert_script. destruct (existsb _ _) eqn:Ee.
    { intros _. destruct Hn. apply existsb_exists in Ee as ([j b] & Hj & Hb%str_eqb_eq). unfold names_of. cbn in Hb. rewrite <- Hb.
      apply list_elem_of_In in Hj. by apply (list_elem_of_fmap_2 (fun kv => sc_name kv.2) _ (j, b)). }
    change (timeout_ok (sc_timeout row)) with true. cbn [negb].
    destruct (script_refused row) as [e'|] eqn:Er; [|done]. intros [= <-]. exists row. split; [done|]. by destruct script.
Qed.

Definition config_ok (db : config_db) : Prop := tables_ok (cf_nodes db) /\ store_inv (cf_library db).

Lemma fresh_ext {D} (name : D -> pystr) existing existing' items : (forall x, x ∈ existing <-> x ∈ existing') ->
  fresh name existing items = fresh name existing' items /\ known name existing items = known name existing' items.
Proof.
  revert existing existing'. induction items as [|item items IH]; intros existing existing' He; cbn [fresh known]; [done|].
  rewrite (bool_decide_ext _ _ (He (name item))). case_bool_decide.
  - by destruct (IH existing existing' He) as [-> ->].
  - destruct (IH (name item :: existing) (name item :: existing')) as [-> ->]; [|done]. intros x. by rewrite !elem_of_cons, He.
Qed.

Context (Hbatch : (0 < batch_size)%Z).
Definition config_readable (db : config_db) : Prop :=
  readable batch_size (nt_nodes (cf_nodes db)) /\ readable batch_size (st_commands (cf_library db))
  /\ readable batch_size (st_scripts (cf_library db)).

(** The names of a table, as far as they matter for the items. *)
Lemma existing_names_spec {D A W} (name : D -> pystr) (row_name : A -> pystr) (rows_of : W -> list (uuid * A)) items s :
  readable batch_size (rows_of s) ->
  exists names, existing_names batch_size items row_name (rows_of s) = Ok names /\
    fresh name names items = fresh name (names_of rows_of row_name s) items /\
    known name names items = known name (names_of rows_of row_name s) items.
Proof.
  intros Hr. destruct items as [|item items]; [by exists []|]. unfold existing_names. rewrite load_all_readable by done. cbn [mbind res_bind].
  eexists. split; [done|]. apply fresh_ext. intros x. unfold names_of. by rewrite scan_permutation.
Qed.

Definition new_nodes (data : ConfigTransferDTO) (db : config_db) : list NodeConfigDTO :=
  fresh cfn_name (names_of nt_nodes nm_name (cf_nodes db)) (ct_nodes data).
Definition new_commands (data : ConfigTransferDTO) (db : config_db) : list CommandConfigDTO :=
  fresh cfc_name (names_of st_commands cm_name (cf_library db)) (ct_commands data).
Definition new_scripts (data : ConfigTransferDTO) (db : config_db) : list ScriptConfigDTO :=
  fresh cfs_name (names_of st_scripts sc_name (cf_library db)) (ct_scripts data).
Definition skipped_messages (data : ConfigTransferDTO) (db : config_db) : list pystr :=
  map (skipped_message cfn_name #"Node") (known cfn_name (names_of nt_nodes nm_name (cf_nodes db)) (ct_nodes data)) ++
  map (skipped_message cfc_name #"Command") (known cfc_name (names_of st_commands cm_name (cf_library db)) (ct_commands data)) ++
  map (skipped_message cfs_name #"Script") (known cfs_name (names_of st_scripts sc_name (cf_library db)) (ct_scripts data)).

(** What an import that succeeds has done. *)
Definition imported (data : ConfigTransferDTO) (db : config_db) (r : ConfigImportResultDTO) (db' : config_db) : Prop :=
  ci_nodes_created r = Z.of_nat (length (new_nodes data db)) /\
  ci_commands_created r = Z.of_nat (length (new_commands data db)) /\
  ci_scripts_created r = Z.of_nat (length (new_scripts data db)) /\
  ci_errors r = skipped_messages data db /\
  config_ok db' /\ nt_history (cf_nodes db') = nt_history (cf_nodes db) /\
  st_packs (cf_library db') = st_packs (cf_library db) /\ st_links (cf_library db') = st_links (cf_library db) /\
  st_assets (cf_library db') = st_assets (cf_library db) /\
  (exists rows, nt_nodes (cf_nodes db') = nt_nodes (cf_nodes db) ++ rows /\
     map node_config rows = map without_secrets (new_nodes data db)) /\
  (exists rows, st_commands (cf_library db') = st_commands (cf_library db) ++ rows /\
     map command_config rows = map Ok (new_commands data db)) /\
  (exists rows, st_scripts (cf_library db') = st_scripts (cf_library db) ++ rows /\
     map script_config rows = new_scripts data db).
(** Why an import fails. *)
Definition import_refused (data : ConfigTransferDTO) (db : config_db) (e : exn) : Prop :=
  (exists node, node ∈ new_nodes data db /\ node_is_refused node e) \/
  (exists command, command ∈ new_commands data db /\ command_is_refused command e) \/
  (exists script, script ∈ new_scripts data db /\ script_is_refused script e).

Lemma create_nodes now data db : config_ok db ->
  match create_all (import_node node_refused now) (new_nodes data db) (cf_nodes db) with
  | Ok s' => tables_ok s' /\ nt_history s' = nt_history (cf_nodes db) /\
      exists rows, nt_nodes s' = nt_nodes (cf_nodes db) ++ rows /\ map node_config rows = map without_secrets (new_nodes data db)
  | Raise e => exists node, node ∈ new_nodes data db /\ node_is_refused node e
  end.
Proof.
  intros [Hn _]. destruct (fresh_spec cfn_name (names_of nt_nodes nm_name (cf_nodes db)) (ct_nodes data)) as [Hnd Hnew].
  eapply (create_all_spec cfn_name (import_node node_refused now) nt_nodes nm_name node_config without_secrets tables_ok
    (fun s s' => nt_history s' = nt_history s) node_is_refused); [done|by intros ? ? ? ->| |done|done|by intros ? [? _]%Hnew].
  intros item s Hs Hi. apply import_node_ok; done.
Qed.
Lemma create_commands data db (s : store) : config_ok db -> s = cf_library db ->
  match create_all (import_command command_refused) (new_commands data db) s with
  | Ok s' => store_inv s' /\ same_but_commands s s' /\
      exists rows, st_commands s' = st_commands s ++ rows /\ map command_config rows = map Ok (new_commands data db)
  | Raise e => exists command, command ∈ new_commands data db /\ command_is_refused command e
  end.
Proof.
  intros [_ Hl] ->. destruct (fresh_spec cfc_name (names_of st_commands cm_name (cf_library db)) (ct_commands data)) as [Hnd Hnew].
  pose proof (create_all_spec cfc_name (import_command command_refused) st_commands cm_name command_config Ok store_inv
    same_but_commands command_is_refused) as Hc.
  specialize (Hc ltac:(by repeat split) ltac:(unfold same_but_commands; intuition congruence) import_command_ok
    (new_commands data db) (cf_library db) Hl Hnd ltac:(by intros ? [? _]%Hnew)).
  exact Hc.
Qed.
Lemma create_scripts data db (s : store) : store_inv s -> st_scripts s = st_scripts (cf_library db) ->
  match create_all (import_script script_refused) (new_scripts data db) s with
  | Ok s' => store_inv s' /\ same_but_scripts s s' /\
      exists rows, st_scripts s' = st_scripts s ++ rows /\ map script_config rows = map id (new_scripts data db)
  | Raise e => exists script, script ∈ new_scripts data db /\ script_is_refused script e
  end.
Proof.
  intros Hl Es. destruct (fresh_spec cfs_name (names_of st_scripts sc_name (cf_library db)) (ct_scripts data)) as [Hnd Hnew].
  pose proof (create_all_spec cfs_name (import_script script_refused) st_scripts sc_name script_config id store_inv
    same_but_scripts script_is_refused) as Hc.
  specialize (Hc ltac:(by repeat split) ltac:(unfold same_but_scripts; intuition congruence) import_script_ok
    (new_scripts data db) s Hl Hnd).
  apply Hc. intros x [Hx _]%Hnew; unfold names_of in *; by rewrite Es.
Qed.

Lemma import_config_spec now data db : config_ok db -> config_readable db ->
  match import_config batch_size node_refused command_refused script_refused now data db with
  | (Ok r, db') => imported data db r db'
  | (Raise e, db') => db' = db /\ import_refused data db e
  end.
Proof.
  intros Hdb (Rn & Rc & Rs). unfold import_config, import_in_session.
  destruct (existing_names_spec cfn_name nm_name nt_nodes (ct_nodes data) (cf_nodes db) Rn) as (ns & -> & En & Kn).
  destruct (existing_names_spec cfc_name cm_name st_commands (ct_commands data) (cf_library db) Rc) as (cs & -> & Ec & Kc).
  destruct (existing_names_spec cfs_name sc_name st_scripts (ct_scripts data) (cf_library db) Rs) as (ss & -> & Es & Ks).
  cbn [mbind res_bind]. rewrite import_items_eq, En, Kn. fold (new_nodes data db).
  pose proof (create_nodes now data db Hdb) as Hn. destruct (create_all _ (new_nodes data db) _) as [nodes|e]; [|by split; [|left]].
  destruct Hn as (Hn & Hh & Hnr). cbn [mbind res_bind]. rewrite import_items_eq, Ec, Kc. fold (new_commands data db).
  pose proof (create_commands data db _ Hdb eq_refl) as Hc.
  destruct (create_all _ (new_commands data db) _) as [library|e]; [|by split; [|right; left]].
  destruct Hc as (Hc & (Hp & Hsc & Hl & Ha) & Hcr). cbn [mbind res_bind]. rewrite import_items_eq, Es, Ks. fold (new_scripts data db).
  pose proof (create_scripts data db library Hc Hsc) as Hs.
  destruct (create_all _ (new_scripts data db) _) as [library'|e]; [|by split; [|do 2 right]].
  destruct Hs as (Hs & (Hp' & Hcs & Hl' & Ha') & rows & Hsr & Hcfg). cbn [mbind res_bind].
  rewrite map_id in Hcfg. unfold imported. cbn [ci_nodes_created ci_commands_created ci_scripts_created ci_errors cf_nodes cf_library].
  split_and!; try done; try congruence; [by rewrite <- !app_assoc| |].
  - destruct Hcr as (crows & Hcr & Hcc). exists crows. by rewrite Hcs, Hcr.
  - exists rows. by rewrite Hsr, Hsc.
Qed.
End spec.

(** ** Theorems *)

Section theorems.
Context `{Scans} `{Unicode} `{PyFloat}.
Context (node_refused : NodeModel -> option exn) (command_refused : command_row -> option exn)
        (script_refused : script_row -> option exn).

(** An import appends one row for each item whose name is neither in its table nor among
    the items before it, in order and with the content of the item, without any secret; counts
    them; names every other item in a message; and leaves all existing rows, the history, the
    packs and their links as they were; or it fails, only because a table refuses the values of
    a row, and then it has changed nothing. *)
Theorem import_config_outcome (batch_size now : Z) (data : ConfigTransferDTO) (db : config_db) :
  (0 < batch_size)%Z -> config_ok db -> config_readable batch_size db ->
  match import_config batch_size node_refused command_refused script_refused now data db with
  | (Ok r, db') => imported data db r db'
  | (Raise e, db') => db' = db /\ import_refused node_refused command_refused script_refused data db e
  end.
Proof. intros Hb Hdb Hr. by apply import_config_spec. Qed.

(** For a payload without repeated names, the preview announces what the import does: the
    items it would create are those that are created, kind by kind, and it names the others in
    the same order. *)
Theorem preview_matches_import (batch_size now : Z) (data : ConfigTransferDTO) (db db' : config_db) (r : ConfigImportResultDTO) :
  NoDup (cfn_name <$> ct_nodes data) -> NoDup (cfc_name <$> ct_commands data) -> NoDup (cfs_name <$> ct_scripts data) ->
  import_config batch_size node_refused command_refused script_refused now data db = (Ok r, db') ->
  exists p, preview_import batch_size data db = Ok p /\
    ci_nodes_created r = Z.of_nat (length (dr_would_create_nodes p)) /\
    ci_commands_created r = Z.of_nat (length (dr_would_create_commands p)) /\
    ci_scripts_created r = Z.of_nat (length (dr_would_create_scripts p)) /\
    ci_errors r = map (fun message => message ++ #", skipped") (dr_duplicates p) /\ dr_errors p = [].
Proof.
  intros Hn Hc Hs. unfold import_config, import_in_session, preview_import.
  destruct (existing_names _ (ct_nodes data) _ _) as [ns|]; [|done].
  destruct (existing_names _ (ct_commands data) _ _) as [cs|]; [|done].
  destruct (existing_names _ (ct_scripts data) _ _) as [ss|]; [|done]. cbn [mbind res_bind].
  rewrite !preview_items_eq, import_items_eq.
  destruct (fresh_distinct cfn_name ns _ Hn) as [-> ->]. destruct (create_all _ _ _) as [nodes|]; [|done]. cbn [mbind res_bind].
  rewrite import_items_eq. destruct (fresh_distinct cfc_name cs _ Hc) as [-> ->].
  destruct (create_all _ _ _) as [library|]; [|done]. cbn [mbind res_bind].
  rewrite import_items_eq. destruct (fresh_distinct cfs_name ss _ Hs) as [-> ->].
  destruct (create_all _ _ _) as [library'|]; [|done]. cbn [mbind res_bind]. intros [= <- <-].
  eexists. split; [done|]. cbn. split_and!; [done..| |done].
  rewrite !map_app, !map_map. f_equal; [f_equal|];
    (apply map_ext; intros item; unfold skipped_message, exists_message; by rewrite <- !app_assoc).
Qed.

(** ** Export and import *)

Definition no_library : store :=
  {| st_packs := []; st_commands := []; st_scripts := []; st_links := []; st_assets := []; st_next := 0 |}.
Definition empty_db : config_db := {| cf_nodes := no_nodes; cf_library := no_library |}.
Lemma empty_db_ok : config_ok empty_db.
Proof. split; [apply (ok_node_history node_refused [])|apply (@inv_history _ _ any_value command_refused script_refused [])]. Qed.

(** A table refuses the values of a row that was to hold an item of the configuration. *)
Definition values_refused (data : ConfigTransferDTO) (e : exn) : Prop :=
  (exists node row, node ∈ ct_nodes data /\ node_refused row = Some e /\ node_config (0%N, row) = without_secrets node)
  \/ (exists command row, command ∈ ct_commands data /\ command_refused row = Some e /\ command_config (0%N, row) = Ok command)
  \/ (exists script row, script ∈ ct_scripts data /\ script_refused row = Some e /\ script_config (0%N, row) = script).

Lemma command_configs_ok rows l : command_configs rows = Ok l <-> map command_config rows = map Ok l.
Proof.
  revert l. induction rows as [|row rows IH]; intros [|c l]; cbn [command_configs map]; try done.
  - split; [intros (? & _ & (? & _ & [=])%bind_ok)%bind_ok|done].
  - destruct (command_config row) as [c'|e]; cbn [mbind res_bind]; [|done].
    specialize (IH l). destruct (command_configs rows) as [l'|e]; cbn [mbind res_bind].
    + split; [intros [= -> ->]; f_equal; by apply IH|]. intros [= -> Hl]. apply IH in Hl. by injection Hl as ->.
    + split; [done|]. intros [= _ Hl]. by apply IH in Hl.
Qed.

Lemma command_configs_scan rows l : map command_config rows = map Ok l ->
  exists l', command_configs (scan 0 rows) = Ok l' /\ l' ≡ₚ l.
Proof.
  intros Hl. assert (map Ok l ≡ₚ map command_config (scan 0 rows)) as Hp by by rewrite scan_permutation, Hl.
  apply Permutation_sym, Permutation_map_inv in Hp as (l' & Hp & Hl'). exists l'. split; [by apply command_configs_ok|by symmetry].
Qed.

Lemma command_config_name row c : command_config row = Ok c -> cfc_name c = cm_name row.2.
Proof. by intros (? & _ & [= <-])%bind_ok. Qed.

Lemma command_names rows l : map command_config rows = map Ok l -> cfc_name <$> l = map (fun kv => cm_name kv.2) rows.
Proof.
  revert l. induction rows as [|row rows IH]; intros [|c l]; cbn; try done. intros [= Hc Hl].
  f_equal; [by apply command_config_name|by apply IH].
Qed.

Lemma fresh_all_ok {D} (name : D -> pystr) items : NoDup (name <$> items) -> fresh name [] items = items /\ known name [] items = [].
Proof. apply fresh_all. Qed.

Lemma map_fmap {A B} (g : A -> B) l : map g l = g <$> l.
Proof. done. Qed.
Lemma snd_names {A} (g : A -> pystr) (rows : list (uuid * A)) : map (fun kv => g kv.2) rows = g <$> rows.*2.
Proof. by rewrite <- list_fmap_compose. Qed.

Lemma node_config_shown kv : without_secrets (node_config kv) = node_config kv.
Proof. done. Qed.

(** What was exported from well-formed tables is only refused for values of its rows. *)
Lemma exported_refusal db snapshot e : config_ok db ->
  ct_nodes snapshot = map node_config (scan 0 (nt_nodes (cf_nodes db))) ->
  import_refused node_refused command_refused script_refused snapshot empty_db e ->
  values_refused snapshot e.
Proof.
  intros [Hn _] Hnodes [(node & Hin & [(row & Hr & Hc)|Ht])|[(command & Hin & row & Hr & Hc)|(script & Hin & row & Hr & Hc)]].
  - left. exists node, row. split; [|done]. by apply fresh_spec in Hin as [_ Hin].
  - exfalso. unfold new_nodes in Hin. apply fresh_spec in Hin as [_ Hin]. rewrite Hnodes in Hin.
    apply list_elem_of_fmap in Hin as ([id a] & -> & Ha). rewrite scan_permutation in Ha.
    apply Ht. cbn. apply (ok_rows _ Hn id a), dict_get_NoDup; [apply Hn|done].
  - right; left. exists command, row. split; [|done]. by apply fresh_spec in Hin as [_ Hin].
  - right; right. exists script, row. split; [|done]. by apply fresh_spec in Hin as [_ Hin].
Qed.

(** Every table fits in one page. *)
Definition one_page (batch_size : Z) (db : config_db) : Prop :=
  (node_count (cf_nodes db) <= batch_size)%Z /\ (Z.of_nat (length (st_commands (cf_library db))) <= batch_size)%Z
  /\ (Z.of_nat (length (st_scripts (cf_library db))) <= batch_size)%Z.
Lemma one_page_readable batch_size db : one_page batch_size db -> config_readable batch_size db.
Proof. intros (? & ? & ?). by split_and!; right. Qed.

Lemma export_config_ok batch_size db snapshot : (0 < batch_size)%Z -> one_page batch_size db -> export_config batch_size db = Ok snapshot ->
  ct_nodes snapshot = map node_config (scan 0 (nt_nodes (cf_nodes db))) /\
  map command_config (scan 0 (st_commands (cf_library db))) = map Ok (ct_commands snapshot) /\
  ct_scripts snapshot = map script_config (scan 0 (st_scripts (cf_library db))).
Proof.
  intros Hb (? & ? & ?). unfold export_config. rewrite !load_all_readable by (done || by right). cbn [mbind res_bind].
  intros (commands & Hc & [= <-])%bind_ok. cbn. split_and!; [done|by apply command_configs_ok|done].
Qed.

(** C11: a configuration exported from well-formed tables, none larger than one page of the
    gateway (1000 rows unless set otherwise), is imported into empty tables completely and
    without a message, and exporting those gives the same configuration again, up to the order
    in which the database returns rows - or a table refuses the values of a row that was to hold
    one of its items: then nothing is imported. Whatever order an unordered query returns rows
    in; larger tables are read in pages without an order, which may repeat rows. *)
Theorem export_import_round_trip (batch_size now : Z) (db : config_db) (snapshot : ConfigTransferDTO) :
  (0 < batch_size)%Z -> config_ok db -> one_page batch_size db ->
  export_config batch_size db = Ok snapshot ->
  match import_config batch_size node_refused command_refused script_refused now snapshot empty_db with
  | (Ok r, db') =>
      ci_errors r = [] /\ ci_nodes_created r = node_count (cf_nodes db) /\
      exists snapshot', export_config batch_size db' = Ok snapshot' /\
        ct_nodes snapshot' ≡ₚ ct_nodes snapshot /\ ct_commands snapshot' ≡ₚ ct_commands snapshot /\
        ct_scripts snapshot' ≡ₚ ct_scripts snapshot
  | (Raise e, db') => db' = empty_db /\ values_refused snapshot e
  end.
Proof.
  intros Hb Hdb Hp Hx. pose proof Hx as (Hnodes & Hcmds & Hscripts)%export_config_ok; [|done..].
  pose proof (import_config_spec batch_size node_refused command_refused script_refused Hb now snapshot empty_db empty_db_ok) as Hi.
  specialize (Hi ltac:(by apply one_page_readable; unfold one_page, node_count; cbn [empty_db cf_nodes cf_library no_nodes no_library nt_nodes st_commands st_scripts length]; change (Z.of_nat 0) with 0%Z; split_and!; lia)).
  destruct (import_config _ _ _ _ _ _ _) as [[r|e] db'].
  2: { destruct Hi as [-> Hi]. split; [done|by apply (exported_refusal db)]. }
  destruct Hdb as [Hn Hl].
  assert (NoDup (cfn_name <$> ct_nodes snapshot)) as Hnn.
  { rewrite Hnodes, <- list_fmap_compose, scan_permutation. change (cfn_name ∘ node_config) with (fun kv : uuid * NodeModel => nm_name kv.2).
    rewrite <- map_fmap, snd_names. by apply ok_names_distinct. }
  assert (NoDup (cfc_name <$> ct_commands snapshot)) as Hcn.
  { rewrite (command_names _ _ Hcmds). rewrite map_fmap, scan_permutation, <- map_fmap, snd_names. apply Hl. }
  assert (NoDup (cfs_name <$> ct_scripts snapshot)) as Hsn.
  { rewrite Hscripts, <- list_fmap_compose, scan_permutation. change (cfs_name ∘ script_config) with (fun kv : uuid * script_row => sc_name kv.2).
    rewrite <- map_fmap, snd_names. apply Hl. }
  destruct (fresh_all_ok cfn_name _ Hnn) as [Fn Kn]. destruct (fresh_all_ok cfc_name _ Hcn) as [Fc Kc].
  destruct (fresh_all_ok cfs_name _ Hsn) as [Fs Ks].
  destruct Hi as (Ci & _ & _ & Em & _ & _ & _ & _ & _ & (nrows & En & Mn) & (crows & Ec & Mc) & (srows & Es & Ms)).
  unfold skipped_messages in Em. unfold new_nodes in Ci, Mn. unfold new_commands in Mc. unfold new_scripts in Ms.
  unfold names_of in *. cbn [empty_db cf_nodes cf_library no_nodes no_library nt_nodes st_commands st_scripts map app] in *.
  rewrite Kn, Kc, Ks in Em. rewrite Fn in Ci, Mn. rewrite Fc in Mc. rewrite Fs in Ms.
  destruct (command_configs_scan crows _ Mc) as (cs & Hcs & Pcs).
  pose proof (f_equal length Hcmds) as Lc. pose proof (f_equal length Mc) as Lc'. pose proof (f_equal length Mn) as Ln.
  pose proof (f_equal length Ms) as Ls. rewrite Hnodes in Ln. rewrite Hscripts in Ls.
  rewrite !length_map in Lc, Lc', Ln, Ls. rewrite (Permutation_length (scan_permutation 0 _)) in Lc.
  rewrite length_map, (Permutation_length (scan_permutation 0 _)) in Ln. rewrite (Permutation_length (scan_permutation 0 _)) in Ls.
  assert (one_page batch_size db') as (? & ? & ?).
  { unfold one_page, node_count in *. rewrite En, Ec, Es. destruct Hp as (? & ? & ?). split_and!; lia. }
  split; [done|]. split.
  { rewrite Ci, Hnodes, length_map. unfold node_count. by rewrite (scan_permutation 0 (nt_nodes (cf_nodes db))). }
  eexists. split.
  { unfold export_config. rewrite !load_all_readable by (done || by right). cbn [mbind res_bind]. rewrite Ec, Hcs. done. }
  cbn [ct_nodes ct_commands ct_scripts]. rewrite En, Es. split_and!; [|done|].
  - rewrite map_fmap, scan_permutation, <- map_fmap, Mn, Hnodes, map_map. by rewrite (map_ext _ _ node_config_shown).
  - by rewrite map_fmap, scan_permutation, <- map_fmap, Ms.
Qed.
End theorems.

(** ** Concrete runs *)

#[local] Existing Instance ascii_only.
#[local] Existing Instance literal_floats.
#[local] Existing Instance heap_order.

Definition config_of (names : list pystr) : ConfigTransferDTO :=
  {| ct_nodes := map (fun name => {| cfn_name := name; cfn_endpoint := nc_endpoint (sample_node name []);
                                     cfn_credentials := nc_credentials (sample_node name []); cfn_tags := [] |}) names;
     ct_commands := map (fun name => {| cfc_name := name; cfc_command := #"uptime"; cfc_description := JNull;
                                        cfc_parameters := []; cfc_tags := [] |}) names;
     ct_scripts := []; ct_format_version := None; ct_application_version := None; ct_exported_at := None |}.
Definition import_sample (data : ConfigTransferDTO) (db : config_db) : res ConfigImportResultDTO * config_db :=
  import_config 2 no_node_refused no_refusal no_refusal 7 data db.
Definition sample_db : config_db := (import_sample (config_of [ #"a"; #"b"; #"c"]) empty_db).2.

Lemma heap_readable batch db : config_readable batch db.
Proof. by split_and!; left. Qed.
Lemma sample_db_ok : config_ok sample_db.
Proof.
  pose proof (import_config_spec 2 no_node_refused no_refusal no_refusal eq_refl 7 (config_of [ #"a"; #"b"; #"c"]) empty_db
    (empty_db_ok no_node_refused no_refusal no_refusal) (heap_readable _ _)) as Hi.
  unfold sample_db, import_sample. destruct (import_config _ _ _ _ _ _ _) as [[r|e] db'].
  - by destruct Hi as (_ & _ & _ & _ & ? & _).
  - destruct Hi as [-> _]. apply (empty_db_ok no_node_refused no_refusal no_refusal).
Qed.

Lemma import_config_outcome_witness :
  exists r db', import_sample (config_of [ #"c"; #"d"; #"d"]) sample_db = (Ok r, db') /\
    imported (config_of [ #"c"; #"d"; #"d"]) sample_db r db' /\ ci_nodes_created r = 1%Z.
Proof.
  pose proof (import_config_outcome no_node_refused no_refusal no_refusal 2 7 (config_of [ #"c"; #"d"; #"d"]) sample_db
    eq_refl sample_db_ok (heap_readable _ _)) as Hi.
  change (import_config 2 no_node_refused no_refusal no_refusal 7 (config_of [ #"c"; #"d"; #"d"]) sample_db)
    with (import_sample (config_of [ #"c"; #"d"; #"d"]) sample_db) in Hi.
  destruct (import_sample _ _) as [[r|e] db'] eqn:E.
  - exists r, db'. split; [done|]. split; [done|]. vm_compute in E. by injection E as <- _.
  - vm_compute in E. discriminate E.
Defined.

Lemma preview_matches_import_witness :
  exists p, preview_import 2 (config_of [ #"c"; #"d"]) sample_db = Ok p /\ length (dr_would_create_nodes p) = 1 /\
    dr_duplicates p = [ #"Node 'c' already exists"; #"Command 'c' already exists"].
Proof.
  destruct (preview_matches_import no_node_refused no_refusal no_refusal 2 7 (config_of [ #"c"; #"d"]) sample_db
    (import_sample (config_of [ #"c"; #"d"]) sample_db).2
    {| ci_nodes_created := 1; ci_commands_created := 1; ci_scripts_created := 0;
       ci_errors := [ #"Node 'c' already exists, skipped"; #"Command 'c' already exists, skipped"] |})
    as (p & Hp & _); [by apply (bool_decide_unpack _); vm_compute..|by vm_compute|].
  exists p. split; [exact Hp|]. vm_compute in Hp. injection Hp as <-. split; by vm_compute.
Defined.

Lemma export_import_round_trip_witness :
  exists snapshot, export_config 3 sample_db = Ok snapshot /\ length (ct_nodes snapshot) = 3 /\
    exists r db', import_config 3 no_node_refused no_refusal no_refusal 7 snapshot empty_db = (Ok r, db') /\ ci_errors r = [].
Proof.
  destruct (export_config 3 sample_db) as [snapshot|e] eqn:E; [|vm_compute in E; discriminate E].
  exists snapshot. split; [done|]. split; [vm_compute in E; by injection E as <-|].
  pose proof (export_import_round_trip no_node_refused no_refusal no_refusal 3 7 sample_db snapshot eq_refl sample_db_ok) as Hx.
  specialize (Hx ltac:(split_and!; by vm_compute) E).
  destruct (import_config _ _ _ _ _ _ _) as [[r|e] db'] eqn:Ei.
  - exists r, db'. split; [done|]. by destruct Hx.
  - exfalso. vm_compute in E. injection E as <-. vm_compute in Ei. discriminate Ei.
Defined.

(** A name repeated in the payload: the preview announces two nodes, the import creates one. *)
Example preview_counts_repeated_names :
  let data := config_of [ #"d"; #"d"] in
  (exists p, preview_import 2 data sample_db = Ok p /\ length (dr_would_create_nodes p) = 2) /\
  (exists r db', import_sample data sample_db = (Ok r, db') /\ ci_nodes_created r = 1%Z).
Proof. split; [eexists; split; by vm_compute|eexists _, _; split; by vm_compute]. Qed.

(** Parameters that are no list, as a pack may install them, make every export fail. *)
Example parameters_that_are_no_list :
  let row := {| cm_name := #"c"; cm_description := JNull; cm_command := #"ls"; cm_parameters := JInt 5; cm_tags := [];
                cm_timeout := 60; cm_template_pack_id := None |} in
  exists e, export_config 2 {| cf_nodes := no_nodes; cf_library := set_commands no_library [(0%N, row)] |} = Raise e /\
    exn_type e = TypeError.
Proof. eexists. split; by vm_compute. Qed.
