(* ===== verification/Ssh.v ===== *)
(** * The SSH adapter

    [app/adapters/runtime/ssh.py]: the connector behind every remote command.  Its fields
    are shared by the operations that run on it, so they are read and written by calls;
    everything else it asks of the file system, of AsyncSSH and of the event loop is a call
    with an arbitrary answer.  The event queue of a streamed command, which four tasks work
    on, is the step relation of the second part. *)
From S2P Require Import Prelude PyStr Shlex Errors Json Bytes Effects Output Script.

Definition _ALLOWED_SIGNALS : list pystr := [ #"SIGINT"; #"SIGTERM"; #"SIGHUP"].
Definition _STREAM_QUEUE_SIZE : nat := 128.
Definition _PROCESS_TERMINATION_TIMEOUT : Z := 5.
Definition _MAX_CAPTURED_OUTPUT_BYTES : Z := 1048576.
Definition _OUTPUT_TRUNCATED_MARKER : pystr := 10%N :: #"...[remote output truncated]".

(** ** Bounded capture *)

Section decode.
Open Scope N_scope.

(** [bytes.decode("utf-8", errors="replace")]: each maximal part of an ill-formed sequence
    becomes one U+FFFD. *)
Definition lead3 (b0 b1 : N) : bool :=
  (b0 =? 224) && in_range 160 191 b1 || in_range 225 236 b0 && cont b1
  || (b0 =? 237) && in_range 128 159 b1 || in_range 238 239 b0 && cont b1.
Definition lead4 (b0 b1 : N) : bool :=
  (b0 =? 240) && in_range 144 191 b1 || in_range 241 243 b0 && cont b1
  || (b0 =? 244) && in_range 128 143 b1.

Fixpoint decode_replace (bs : bytes) : pystr :=
  match bs with
  | [] => []
  | b0 :: t0 =>
      if b0 <? 128 then b0 :: decode_replace t0
      else match t0 with
        | [] => [65533]
        | b1 :: t1 =>
            if two b0 b1 then (b0 - 192) * 64 + (b1 - 128) :: decode_replace t1
            else if lead3 b0 b1 then
              match t1 with
              | [] => [65533]
              | b2 :: t2 =>
                  if cont b2 then (b0 - 224) * 4096 + (b1 - 128) * 64 + (b2 - 128) :: decode_replace t2
                  else 65533 :: decode_replace t1
              end
            else if lead4 b0 b1 then
              match t1 with
              | [] => [65533]
              | b2 :: t2 =>
                  if cont b2 then
                    match t2 with
                    | [] => [65533]
                    | b3 :: t3 =>
                        if cont b3
                        then (b0 - 240) * 262144 + (b1 - 128) * 4096 + (b2 - 128) * 64 + (b3 - 128)
                             :: decode_replace t3
                        else 65533 :: decode_replace t2
                    end
                  else 65533 :: decode_replace t1
              end
            else 65533 :: decode_replace t0
        end
  end.
End decode.

(** The loop of [_read_bounded_stream] over the chunks of a stream. *)
Fixpoint capture (max_bytes : Z) (captured : bytes) (truncated : bool) (stream : list pystr) : res (bytes * bool) :=
  match stream with
  | [] => Ok (captured, truncated)
  | chunk :: stream =>
      encoded ← encode chunk;
      let remaining := (max_bytes - Z.of_nat (length captured))%Z in
      let captured := if (0 <? remaining)%Z then captured ++ take (Z.to_nat remaining) encoded else captured in
      let truncated := if (remaining <? Z.of_nat (length encoded))%Z then true else truncated in
      capture max_bytes captured truncated stream
  end.
Definition _read_bounded_stream (stream : list pystr) (max_bytes : Z) : res pystr :=
  '(captured, truncated) ← (capture max_bytes [] false stream : res (bytes * bool));
  let value := decode_replace captured in
  Ok (if truncated : bool then value ++ _OUTPUT_TRUNCATED_MARKER else value).

(** ** The connector *)

Definition connection : Type := N.
Definition process : Type := N.

(** What [__init__] fixes. *)
Record ssh_config := {
  sc_host : pystr; sc_port : Z; sc_username : option pystr; sc_password : option pystr;
  sc_ssh_key : option pystr; sc_passphrase : option pystr; sc_timeout : Z;
  sc_known_hosts : option pystr; sc_strict_host_key_checking : bool }.
(** The fields the operations change. *)
Record ssh_fields := {
  _connection : option connection; _active_process : option process;
  _active_process_group_file : option pystr; _temp_key_path : option pystr }.
Definition new_fields : ssh_fields := Build_ssh_fields None None None None.

Definition set_connection (c : option connection) (s : ssh_fields) : ssh_fields :=
  Build_ssh_fields c (_active_process s) (_active_process_group_file s) (_temp_key_path s).
Definition set_process (p : option process) (s : ssh_fields) : ssh_fields :=
  Build_ssh_fields (_connection s) p (_active_process_group_file s) (_temp_key_path s).
Definition set_group_file (f : option pystr) (s : ssh_fields) : ssh_fields :=
  Build_ssh_fields (_connection s) (_active_process s) f (_temp_key_path s).
Definition set_temp_key (f : option pystr) (s : ssh_fields) : ssh_fields :=
  Build_ssh_fields (_connection s) (_active_process s) (_active_process_group_file s) f.

(** The keyword arguments of [asyncssh.connect]. *)
Inductive client_key := KeyObject (key : N) | KeyFile (path : pystr).
Record connect_options := {
  co_port : Z; co_username : option pystr; co_connect_timeout : Z; co_known_hosts : option pystr;
  co_client_keys : option client_key; co_passphrase : option pystr; co_password : option pystr }.

Inductive stream_name := Stdout | Stderr.

Inductive ssh_call :=
| Load                                                        (* [self], read *)
| Store (self : ssh_fields)                                   (* [self], written *)
| IsFile (path : pystr)
| ImportPrivateKey (ssh_key : pystr) (passphrase : option pystr)
| NamedTemporaryFile (prefix suffix : pystr)
| WriteFile (path text : pystr)
| Chmod (path : pystr) (mode : Z)
| Connect (host : pystr) (options : connect_options)
| Close (c : connection)
| WaitClosed (c : connection)
| Unlink (path : pystr)
| CreateProcess (c : connection) (command : pystr)
| Drain (p : process) (stream : stream_name)                  (* the chunks of a stream, to its end *)
| WaitProcess (p : process)
| ExitStatus (p : process)
| CloseProcess (p : process)                                  (* [process.__aexit__] *)
| DeadlinePassed                                              (* of the enclosing [asyncio.timeout] *)
| Run (c : connection) (command : pystr)                      (* [connection.run(command, check=False)] *)
| Gettempdir
| Uuid4Hex
| WaitExitTask (timeout : Z)                                  (* [asyncio.wait_for(exit_task, timeout)] *)
| ExitTaskDone
| CancelTask (stream : option stream_name).                   (* [task.cancel()] and its end *)
Definition ssh_answer (c : ssh_call) : Type :=
  match c with
  | Load => ssh_fields
  | IsFile _ | DeadlinePassed | ExitTaskDone => bool
  | ImportPrivateKey _ _ => N
  | NamedTemporaryFile _ _ | Gettempdir | Uuid4Hex => pystr
  | Connect _ _ => connection
  | CreateProcess _ _ => process
  | Drain _ _ => list pystr
  | ExitStatus _ => option Z
  | Store _ | WriteFile _ _ | Chmod _ _ | Close _ | WaitClosed _ | Unlink _ | WaitProcess _ | CloseProcess _
  | Run _ _ | WaitExitTask _ | CancelTask _ => unit
  end.
#[export] Instance ssh_signature : Signature := {| call := ssh_call; answer := ssh_answer |}.

(** [self.field = value]. *)
Definition update (f : ssh_fields -> ssh_fields) : prog unit :=
  self ← perform Load; perform (Store (f self)).

(** A string that is neither [None] nor empty. *)
Definition given_text (s : option pystr) : option pystr :=
  match s with Some (c :: s) => Some (c :: s) | _ => None end.

(** [async with asyncio.timeout(...)]: the cancellation by which the deadline ends the body
    becomes a [TimeoutError]. *)
Definition within_timeout {A} (p : prog A) : prog A :=
  try_except p (fun e =>
    if isinstance (exn_type e) CancelledError
    then Some (passed ← perform DeadlinePassed; lift (if passed : bool then raise TimeoutError [] else Raise e))
    else None).

(** [async with asyncio.TaskGroup()]: any failure of the tasks or of the body is raised in a
    group; a cancellation alone is passed on. *)
Definition ExceptionGroup : exn_class := LibraryError #"ExceptionGroup".
Definition group_failures (es : list (option exn)) : list exn :=
  List.filter (fun e => negb (isinstance (exn_type e) CancelledError)) (omap id es).
Definition failure {A} (r : res A) : option exn := match r with Ok _ => None | Raise e => Some e end.

Section connector.
Context (sha256_hex : bytes -> pystr).
(** The classes derived from [asyncssh.Error]. *)
Context (asyncssh_error : exn_class -> bool).

Definition host_verification_usable (config : ssh_config) : prog bool :=
  match given_text (sc_known_hosts config) with
  | Some path => perform (IsFile path)
  | None => mret false
  end.

(** The key object; when the key cannot be imported, a file that AsyncSSH is to read. *)
Definition import_key (config : ssh_config) (key : pystr) : prog client_key :=
  try_except
    (k ← perform (ImportPrivateKey key (given_text (sc_passphrase config))); mret (KeyObject k))
    (on_exception (fun _ =>
       path ← perform (NamedTemporaryFile #"nn_ssh_" #".pem");
       perform (WriteFile path key);;
       update (set_temp_key (Some path));;
       try_except (perform (Chmod path 384)) (on_class OSError (fun _ => mret tt));;
       mret (KeyFile path))).

Definition connect_kwargs (config : ssh_config) : prog connect_options :=
  let options key passphrase password :=
    {| co_port := sc_port config; co_username := sc_username config; co_connect_timeout := sc_timeout config;
       co_known_hosts := sc_known_hosts config; co_client_keys := key; co_passphrase := passphrase;
       co_password := password |} in
  match given_text (sc_ssh_key config), given_text (sc_password config) with
  | Some key, _ =>
      client_key ← import_key config key;
      mret (options (Some client_key)
              (match client_key with KeyFile _ => given_text (sc_passphrase config) | KeyObject _ => None end) None)
  | None, Some password => mret (options None None (Some password))
  | None, None => mret (options None None None)
  end.

Definition connect (config : ssh_config) : prog unit :=
  usable ← (if sc_strict_host_key_checking config then host_verification_usable config else mret true);
  if usable : bool then
    options ← connect_kwargs config;
    try_except
      (connection ← perform (Connect (sc_host config) options);
       update (set_connection (Some connection)))
      (fun exc => if asyncssh_error (exn_type exc)
                  then Some (lift (raise ConnectionFailedError #"SSH connection failed")) else None)
  else lift (raise ConnectionFailedError #"SSH host verification is unavailable").

Definition disconnect : prog unit :=
  self ← perform Load;
  match _connection self with
  | Some connection =>
      perform (Close connection);;
      perform (WaitClosed connection);;
      update (set_connection None)
  | None => mret tt
  end;;
  self ← perform Load;
  match _temp_key_path self with
  | Some path =>
      try_except (perform (Unlink path)) (on_class OSError (fun _ => mret tt));;
      update (set_temp_key None)
  | None => mret tt
  end.

(** [async with connector]: [__aexit__] runs when [__aenter__] succeeded. *)
Definition session {A} (config : ssh_config) (body : prog A) : prog A :=
  connect config;;
  finally body disconnect.

(** ** Commands that are awaited *)

Definition _exit_status (p : process) : prog Z :=
  status ← perform (ExitStatus p); mret (default 255%Z status).

(** The two readers and the wait of [execute_command]. *)
Definition read_stream (p : process) (stream : stream_name) : prog pystr :=
  chunks ← perform (Drain p stream);
  lift (_read_bounded_stream chunks _MAX_CAPTURED_OUTPUT_BYTES).
Definition read_process (p : process) : prog (pystr * pystr) :=
  waited ← outcome_of (perform (WaitProcess p));
  stdout ← outcome_of (read_stream p Stdout);
  stderr ← outcome_of (read_stream p Stderr);
  match group_failures [failure waited; failure stdout; failure stderr] with
  | [] => lift (_ ← waited; stdout ← stdout; stderr ← stderr; Ok (stdout, stderr))
  | _ => lift (raise ExceptionGroup #"unhandled errors in a TaskGroup")
  end.

Definition run_process (connection : connection) (command : pystr) : prog (pystr * pystr * Z) :=
  process ← perform (CreateProcess connection command);
  finally
    ('(stdout, stderr) ← (read_process process : prog (pystr * pystr));
     exit_code ← _exit_status process;
     mret (stdout, stderr, exit_code))
    (perform (CloseProcess process)).

Definition execute_command (command : pystr) : prog (pystr * pystr * Z) :=
  self ← perform Load;
  match _connection self with
  | None => lift (raise RuntimeError #"Not connected")
  | Some connection =>
      _ ← lift (command_fingerprint sha256_hex command);
      try_except (within_timeout (run_process connection command))
        (fun exc => if asyncssh_error (exn_type exc) || isinstance (exn_type exc) TimeoutError
                    then Some (lift (raise ConnectionFailedError #"SSH command failed")) else None)
  end.

(** ** Signals *)

Definition removeprefix (s p : pystr) : pystr := if startswith s p then drop (length p) s else s.

Definition kill_command (signal group_file : pystr) : pystr :=
  #"kill -" ++ signal ++ #" -$(cat " ++ quote group_file ++ #")".

Definition _signal_active_process_group (signal : pystr) : prog unit :=
  self ← perform Load;
  match _connection self, given_text (_active_process_group_file self) with
  | Some connection, Some group_file => perform (Run connection (kill_command signal group_file))
  | _, _ => lift (raise RuntimeError #"No active process")
  end.

Definition send_signal (signal : pystr) : prog unit :=
  if bool_decide (signal ∈ _ALLOWED_SIGNALS) then
    self ← perform Load;
    match _active_process self with
    | Some _ => _signal_active_process_group (removeprefix signal #"SIG")
    | None => lift (raise RuntimeError #"No active process")
    end
  else lift (raise ValueError #"Signal is not allowed").

Definition abort_active_process : prog unit :=
  self ← perform Load;
  match _active_process self with Some _ => _signal_active_process_group #"KILL" | None => mret tt end.

(** ** Commands that are streamed: before and after the events *)

Definition grouped_command (group_file command : pystr) : pystr :=
  #"printf '%s' " ++ [34; 36; 36; 34]%N ++ #" > " ++ quote group_file ++ #"; " ++ command.
Definition remote_command (group_file command : pystr) : pystr :=
  #"setsid sh -c " ++ quote (grouped_command group_file command)
  ++ #"; status=$?; exit " ++ 34%N :: #"$status" ++ [34%N].

Definition open_stream (command : pystr) : prog (process * pystr) :=
  self ← perform Load;
  match _connection self with
  | None => lift (raise RuntimeError #"Not connected")
  | Some connection =>
      tempdir ← perform Gettempdir;
      hex ← perform Uuid4Hex;
      let group_file := tempdir ++ #"/node-nexus-stream-" ++ hex ++ #".pid" in
      process ← within_timeout (perform (CreateProcess connection (remote_command group_file command)));
      update (set_process (Some process));;
      update (set_group_file (Some group_file));;
      mret (process, group_file)
  end.

(** The [finally] of the generator; [out_done] and [err_done]: the pumps that have ended. *)
Definition close_stream (process : process) (group_file : pystr) (out_done err_done : bool) : prog unit :=
  (if out_done then mret tt else perform (CancelTask (Some Stdout)));;
  (if err_done then mret tt else perform (CancelTask (Some Stderr)));;
  finally
    (status ← perform (ExitStatus process);
     match status with None => _signal_active_process_group #"TERM" | Some _ => mret tt end;;
     try_except (perform (WaitExitTask _PROCESS_TERMINATION_TIMEOUT) : prog unit)
       (on_class TimeoutError (fun _ =>
          _signal_active_process_group #"KILL";;
          perform (WaitProcess process))))
    (done ← perform ExitTaskDone;
     (if done : bool then mret tt else perform (CancelTask None));;
     update (set_process None);;
     self ← perform Load;
     match _connection self with
     | Some connection => perform (Run connection (#"rm -f " ++ quote group_file))
     | None => lift (raise AttributeError #"'NoneType' object has no attribute 'run'")
     end;;
     update (set_group_file None)).
End connector.

(** [SSHConnectorFactory.create_ssh]. *)
Definition create_ssh (known_hosts_path : pystr) (strict_host_key_checking : bool) (host : pystr) (port : Z)
    (username password ssh_key passphrase : option pystr) (timeout : option Z) : ssh_config :=
  {| sc_host := host; sc_port := port; sc_username := username; sc_password := password; sc_ssh_key := ssh_key;
     sc_passphrase := passphrase; sc_timeout := default 30%Z timeout;
     sc_known_hosts := if strict_host_key_checking then Some known_hosts_path else None;
     sc_strict_host_key_checking := strict_host_key_checking |}.

(** ** The events of a streamed command

    Two pumps move the chunks of the streams into a bounded queue, a third task adds the exit
    event once the process has ended, and the consumer takes events until the exit event. *)
Inductive stream_event := EChunk (stream : stream_name) (data : pystr) | EExit (exit_code : Z).

Record stream_state := {
  sm_out : list pystr; sm_err : list pystr;       (* chunks the pumps have not read yet *)
  sm_waiting : bool;                              (* the exit event is still to come *)
  sm_queue : list stream_event;
  sm_yielded : list stream_event }.

Definition start_stream (out err : list pystr) : stream_state := Build_stream_state out err true [] [].
Definition is_exit (e : stream_event) : bool := match e with EExit _ => true | EChunk _ _ => false end.
Definition finished (s : stream_state) : bool := existsb is_exit (sm_yielded s).
Definition has_room (s : stream_state) : bool := (length (sm_queue s) <? _STREAM_QUEUE_SIZE)%nat.
Definition exit_event (status : option Z) : stream_event := EExit (default 255%Z status).

Inductive stream_step (status : option Z) : stream_state -> stream_state -> Prop :=
| pump_out c out err w q y :
    finished (Build_stream_state (c :: out) err w q y) = false ->
    has_room (Build_stream_state (c :: out) err w q y) = true ->
    stream_step status (Build_stream_state (c :: out) err w q y) (Build_stream_state out err w (q ++ [EChunk Stdout c]) y)
| pump_err c out err w q y :
    finished (Build_stream_state out (c :: err) w q y) = false ->
    has_room (Build_stream_state out (c :: err) w q y) = true ->
    stream_step status (Build_stream_state out (c :: err) w q y) (Build_stream_state out err w (q ++ [EChunk Stderr c]) y)
| wait_for_exit out err q y :
    finished (Build_stream_state out err true q y) = false ->
    has_room (Build_stream_state out err true q y) = true ->
    stream_step status (Build_stream_state out err true q y) (Build_stream_state out err false (q ++ [exit_event status]) y)
| take_event out err w e q y :
    finished (Build_stream_state out err w (e :: q) y) = false ->
    stream_step status (Build_stream_state out err w (e :: q) y) (Build_stream_state out err w q (y ++ [e])).
