(* ===== verification/SshSpec.v ===== *)
(** * What the SSH adapter promises

    The text kept of a stream; the resources a session leaves behind, in every execution; the
    outcome of a command; the events of a streamed command, in every interleaving of the
    tasks that produce them. *)
From S2P Require Import Prelude PyStr Shlex Errors Json Bytes Effects Output Script Stateful Ssh.

(** ** Bounded capture *)

Section capture.
Open Scope N_scope.

Lemma lead3_false b0 b1 : b0 < 224 \/ 239 < b0 -> lead3 b0 b1 = false.
Proof.
  intros Hb. unfold lead3. rewrite (in_range_false 225 236), (in_range_false 238 239) by lia.
  by rewrite !(proj2 (N.eqb_neq _ _)) by lia.
Qed.

Lemma three_lead b0 b1 b2 : three b0 b1 b2 = true -> lead3 b0 b1 = true /\ cont b2 = true.
Proof. unfold three, lead3. by rewrite andb_true_iff. Qed.
Lemma four_lead b0 b1 b2 b3 : four b0 b1 b2 b3 = true -> lead4 b0 b1 = true /\ cont b2 = true /\ cont b3 = true.
Proof. unfold four, lead4. rewrite !andb_true_iff. tauto. Qed.

(** A whole character is read; one that is cut leaves one replacement character. *)
Lemma replace_char c r : scalar c = true -> decode_replace (utf8_char c ++ r) = c :: decode_replace r.
Proof.
  intros Hc. destruct (utf8_char_cases c Hc)
    as [[Hlt ->]|[(b0&b1&->&H0&H1&Ht&<-)|[(b0&b1&b2&->&H0&H1&H2&Ht&<-)|(b0&b1&b2&b3&->&H0&H1&H2&H3&Ht&<-)]]];
    cbn [app decode_replace].
  - by rewrite (proj2 (N.ltb_lt _ _) Hlt).
  - by rewrite high_byte, Ht.
  - apply three_lead in Ht as [-> ->]. by rewrite high_byte, two_false by lia.
  - apply four_lead in Ht as (-> & -> & ->). by rewrite high_byte, two_false, lead3_false by lia.
Qed.

Lemma replace_cut c n :
  scalar c = true -> (0 < n < length (utf8_char c))%nat -> decode_replace (take n (utf8_char c)) = [65533].
Proof.
  intros Hc Hn. destruct (utf8_char_cases c Hc)
    as [[Hlt Hu]|[(b0&b1&Hu&H0&H1&_)|[(b0&b1&b2&Hu&H0&H1&H2&Ht&_)|(b0&b1&b2&b3&Hu&H0&H1&H2&H3&Ht&_)]]];
    rewrite Hu in *; cbn [length] in Hn.
  all: destruct n as [|[|[|[|n]]]]; try lia; cbn [take decode_replace].
  all: rewrite ?high_byte by lia; try done.
  - apply three_lead in Ht as [-> _]. by rewrite two_false by lia.
  - apply four_lead in Ht as (-> & _ & _). by rewrite two_false, lead3_false by lia.
  - apply four_lead in Ht as (-> & -> & _). by rewrite two_false, lead3_false by lia.
Qed.

(** Whether the limit of [n] bytes falls inside a character of [s]. *)
Fixpoint cut_inside (n : nat) (s : pystr) : bool :=
  match s with
  | [] => false
  | c :: s => if (length (utf8_char c) <=? n)%nat then cut_inside (n - length (utf8_char c)) s else (0 <? n)%nat
  end.

Lemma replace_cut_text n s :
  forallb scalar s = true ->
  decode_replace (take n (flat_map utf8_char s)) = take (fit n s) s ++ (if cut_inside n s then [65533] else []).
Proof.
  revert n. induction s as [|c s IH]; intros n Hs; [by destruct n|].
  cbn [forallb] in Hs. apply andb_true_iff in Hs as [Hc Hs]. cbn [flat_map fit cut_inside].
  destruct (Nat.leb_spec (length (utf8_char c)) n) as [Hn|Hn].
  - rewrite take_app_ge by lia. rewrite replace_char by done. cbn [take app]. by rewrite IH.
  - rewrite take_app_le by lia. destruct (Nat.ltb_spec 0 n) as [H0|H0].
    + by rewrite replace_cut.
    + by replace n with 0%nat by lia.
Qed.

Lemma fit_all n s : (length (flat_map utf8_char s) <= n)%nat -> fit n s = length s /\ cut_inside n s = false.
Proof.
  revert n. induction s as [|c s IH]; intros n; [done|]. cbn [flat_map fit cut_inside length]. rewrite length_app.
  intros Hn. destruct (Nat.leb_spec (length (utf8_char c)) n); [|lia].
  destruct (IH (n - length (utf8_char c))%nat) as [-> ->]; [lia|done].
Qed.
End capture.

(** What is kept of a text: the characters that fit, a replacement character where the limit
    splits one, and the marker. *)
Definition kept_text (s : pystr) (max_bytes : Z) : pystr :=
  if (utf8_length s <=? max_bytes)%Z then s
  else let n := Z.to_nat max_bytes in
       take (fit n s) s ++ (if cut_inside n s then [65533%N] else []) ++ _OUTPUT_TRUNCATED_MARKER.

Lemma capture_spec max_bytes before stream :
  (0 <= max_bytes)%Z ->
  capture max_bytes (take (Z.to_nat max_bytes) before) (max_bytes <? Z.of_nat (length before))%Z stream
  = if existsb is_surrogate (concat stream)
    then raise UnicodeEncodeError #"'utf-8' codec can't encode character: surrogates not allowed"
    else Ok (take (Z.to_nat max_bytes) (before ++ flat_map utf8_char (concat stream)),
             (max_bytes <? Z.of_nat (length (before ++ flat_map utf8_char (concat stream))))%Z).
Proof.
  intros Hmax. revert before. induction stream as [|chunk stream IH]; intros before.
  { cbn. by rewrite app_nil_r. }
  cbn [capture concat]. unfold encode. rewrite existsb_app.
  destruct (existsb is_surrogate chunk); [done|]. cbn [orb mbind res_bind].
  set (enc := flat_map utf8_char chunk). rewrite length_take.
  assert (flat_map utf8_char (chunk ++ concat stream) = enc ++ flat_map utf8_char (concat stream)) as ->.
  { apply flat_map_app. }
  rewrite app_assoc, <- (IH (before ++ enc)). rewrite length_app. f_equal.
  - destruct (Z.ltb_spec 0 (max_bytes - Z.of_nat (Z.to_nat max_bytes `min` length before))).
    + rewrite (take_ge before) by lia. rewrite take_app_ge by lia. do 2 f_equal. lia.
    + by rewrite take_app_le by lia.
  - destruct (Z.ltb_spec (max_bytes - Z.of_nat (Z.to_nat max_bytes `min` length before)) (Z.of_nat (length enc))).
    + symmetry. apply Z.ltb_lt. lia.
    + destruct (Z.ltb_spec max_bytes (Z.of_nat (length before))),
        (Z.ltb_spec max_bytes (Z.of_nat (length before + length enc))); lia || done.
Qed.

(** What is captured of a stream depends only on the text it carries, not on the chunks it
    arrives in: the whole text, or, when that has more bytes than the limit, the longest prefix
    of whole characters within the limit and a marker (with one replacement character where the
    limit splits a character). The only error is a text that has no encoding. *)
Theorem captured_output_is_bounded (stream : list pystr) (max_bytes : Z) :
  (0 <= max_bytes)%Z -> is_str (concat stream) = true ->
  _read_bounded_stream stream max_bytes
  = (if existsb is_surrogate (concat stream)
     then raise UnicodeEncodeError #"'utf-8' codec can't encode character: surrogates not allowed"
     else Ok (kept_text (concat stream) max_bytes))
  /\ (utf8_length (kept_text (concat stream) max_bytes) <= max_bytes + 3 + utf8_length _OUTPUT_TRUNCATED_MARKER)%Z.
Proof.
  intros Hmax Hstr. split.
  - unfold _read_bounded_stream. pose proof (capture_spec max_bytes [] stream Hmax) as Hc.
    rewrite take_nil in Hc. destruct (Z.ltb_spec max_bytes (Z.of_nat (length (@nil N)))) as [Hn|_]; [cbn in Hn; lia|].
    rewrite Hc. destruct (existsb is_surrogate (concat stream)) eqn:Hs; [done|]. cbn [mbind res_bind app].
    unfold kept_text, utf8_length. rewrite replace_cut_text by by apply scalar_str.
    destruct (Z.ltb_spec max_bytes (Z.of_nat (length (flat_map utf8_char (concat stream))))) as [Hlt|Hle].
    + rewrite (proj2 (Z.leb_gt _ _)) by lia. by rewrite <- app_assoc.
    + rewrite (proj2 (Z.leb_le _ _)) by lia.
      destruct (fit_all (Z.to_nat max_bytes) (concat stream)) as [-> ->]; [lia|].
      by rewrite app_nil_r, firstn_all.
  - unfold kept_text. destruct (Z.leb_spec (utf8_length (concat stream)) max_bytes) as [Hle|_].
    + unfold utf8_length at 2. lia.
    + unfold utf8_length. rewrite !flat_map_app, !length_app.
      pose proof (fit_bytes (Z.to_nat max_bytes) (concat stream)).
      assert (length (flat_map utf8_char (if cut_inside (Z.to_nat max_bytes) (concat stream) then [65533%N] else [])) <= 3)%nat
        by (case_match; cbn; lia). lia.
Qed.

(** Three bytes hold the first character of two bytes, and half of the next. *)
Lemma captured_output_is_bounded_witness :
  _read_bounded_stream [[233]; [233; 8364]]%N 3 = Ok ([233; 65533]%N ++ _OUTPUT_TRUNCATED_MARKER)
  /\ _read_bounded_stream [[233; 233]; []; [8364]]%N 3 = Ok ([233; 65533]%N ++ _OUTPUT_TRUNCATED_MARKER).
Proof.
  split; [exact (proj1 (captured_output_is_bounded [[233]; [233; 8364]]%N 3 ltac:(lia) eq_refl))|].
  exact (proj1 (captured_output_is_bounded [[233; 233]; []; [8364]]%N 3 ltac:(lia) eq_refl)).
Defined.

(** ** The world of a connector *)

Record ssh_world := {
  w_self : ssh_fields;
  w_open : list connection;       (* connections that nobody has closed *)
  w_procs : list process;         (* processes whose channel nobody has closed *)
  w_files : list pystr;           (* key files on disk *)
  w_ran : list pystr;             (* commands given to the remote side *)
  w_faults : list ssh_call }.     (* calls that give something back, and failed *)

Definition with_self (self : ssh_fields) (w : ssh_world) : ssh_world :=
  Build_ssh_world self (w_open w) (w_procs w) (w_files w) (w_ran w) (w_faults w).
Definition with_open (f : list connection -> list connection) (w : ssh_world) : ssh_world :=
  Build_ssh_world (w_self w) (f (w_open w)) (w_procs w) (w_files w) (w_ran w) (w_faults w).
Definition with_procs (f : list process -> list process) (w : ssh_world) : ssh_world :=
  Build_ssh_world (w_self w) (w_open w) (f (w_procs w)) (w_files w) (w_ran w) (w_faults w).
Definition with_files (f : list pystr -> list pystr) (w : ssh_world) : ssh_world :=
  Build_ssh_world (w_self w) (w_open w) (w_procs w) (f (w_files w)) (w_ran w) (w_faults w).
Definition with_run (command : pystr) (w : ssh_world) : ssh_world :=
  Build_ssh_world (w_self w) (w_open w) (w_procs w) (w_files w) (w_ran w ++ [command]) (w_faults w).
Definition with_fault (c : ssh_call) (w : ssh_world) : ssh_world :=
  Build_ssh_world (w_self w) (w_open w) (w_procs w) (w_files w) (w_ran w) (w_faults w ++ [c]).

(** Without one of its elements. *)
Definition drop_one {A} `{EqDecision A} (x : A) (l : list A) : list A := List.filter (fun y => bool_decide (y <> x)) l.
Arguments drop_one : simpl never.
#[export] Instance connection_eq_dec : EqDecision connection := N.eq_dec.
#[export] Instance process_eq_dec : EqDecision process := N.eq_dec.

Definition after (c : ssh_call) : res (ssh_answer c) -> ssh_world -> ssh_world :=
  match c with
  | Store self => fun _ => with_self self
  | NamedTemporaryFile _ _ => fun a w => match a with Ok path => with_files (cons path) w | Raise _ => w end
  | Connect _ _ => fun a w => match a with Ok c => with_open (cons c) w | Raise _ => w end
  | Close c => fun a w => match a with Ok _ => with_open (drop_one c) w | Raise _ => with_fault (Close c) w end
  | WaitClosed c => fun a w => match a with Ok _ => w | Raise _ => with_fault (WaitClosed c) w end
  | Unlink path => fun a w => match a with Ok _ => with_files (drop_one path) w | Raise _ => with_fault (Unlink path) w end
  | CreateProcess _ command => fun a w =>
      with_run command (match a with Ok p => with_procs (cons p) w | Raise _ => w end)
  | CloseProcess p => fun _ => with_procs (drop_one p)
  | Run _ command => fun _ => with_run command
  | _ => fun _ w => w
  end.

(** What may be answered: the fields are as stored; names of new resources are new; ending a
    task that is over succeeds. Any other call may fail, or answer anything; a cancellation is
    the failure of the call that waits. *)
Definition possible (c : ssh_call) : res (ssh_answer c) -> ssh_world -> Prop :=
  match c with
  | Load => fun a w => a = Ok (w_self w)
  | Store _ | CancelTask _ => fun a _ => a = Ok tt
  | ExitTaskDone => fun a _ => exists done, a = Ok done
  | NamedTemporaryFile _ _ => fun a w => forall path, a = Ok path -> path ∉ w_files w
  | Connect _ _ => fun a w => forall c, a = Ok c -> c ∉ w_open w
  | CreateProcess _ _ => fun a w => forall p, a = Ok p -> p ∉ w_procs w
  | _ => fun _ _ => True
  end.
Definition ssh_handles : handler (W:=ssh_world) := fun c w a w' => possible c a w /\ w' = after c a w.

Lemma swp_ssh c w (Q : res (ssh_answer c) -> ssh_world -> Prop) :
  (forall a, possible c a w -> Q a (after c a w)) -> swp ssh_handles (perform c) w Q.
Proof. intros HQ a w' [Ha ->]. by apply HQ. Qed.

Lemma swp_update f w (Q : res unit -> ssh_world -> Prop) :
  Q (Ok tt) (with_self (f (w_self w)) w) -> swp ssh_handles (update f) w Q.
Proof. intros HQ. apply swp_bind, swp_ssh. intros a ->. apply swp_ssh. by intros a ->. Qed.

Lemma drop_one_new {A} `{EqDecision A} (x : A) l : x ∉ l -> drop_one x (x :: l) = l.
Proof.
  intros Hx. unfold drop_one. cbn [List.filter]. rewrite bool_decide_eq_false_2 by tauto. apply filter_all. intros y Hy.
  apply bool_decide_eq_true. by intros ->.
Qed.

Lemma world_eta w : Build_ssh_world (w_self w) (w_open w) (w_procs w) (w_files w) (w_ran w) (w_faults w) = w.
Proof. by destruct w. Qed.
Lemma fields_eta s : Build_ssh_fields (_connection s) (_active_process s) (_active_process_group_file s) (_temp_key_path s) = s.
Proof. by destruct s. Qed.

(** One step of a call tree against these answers. *)
Ltac ssh_step :=
  lazymatch goal with
  | |- swp _ (update _) _ _ => apply swp_update
  | |- swp _ (finally _ _) _ _ => apply swp_finally
  | |- swp _ (outcome_of _) _ _ => apply swp_outcome
  | |- swp _ (perform _) _ _ =>
      apply swp_ssh; let a := fresh "a" in let Ha := fresh "Ha" in intros a Ha; cbn [possible] in Ha;
      try (subst a); try (lazymatch type of Ha with ex _ => destruct Ha as [? ->] end)
  | |- swp _ (match ?x with _ => _ end) _ _ => destruct x eqn:?
  | |- match ?x with _ => _ end => destruct x eqn:?
  | |- _ => swp_step
  end; cbn [after].

(** ** Sessions *)

Section sessions.
Context (sha256_hex : bytes -> pystr) (asyncssh_error : exn_class -> bool).

(** A command: its process is closed again, and at most it ran. *)
Lemma swp_run_process c command w :
  swp ssh_handles (run_process c command) w (fun r w' => w' = with_run command w).
Proof.
  unfold run_process. ssh_step. ssh_step. destruct a as [p|e]; [|done]. specialize (Ha p eq_refl).
  ssh_step. eapply (swp_mono _ _ _ (fun _ w' => w' = with_run command (with_procs (cons p) w))).
  - unfold read_process, read_stream, _exit_status. repeat ssh_step; done.
  - intros r w' ->. ssh_step. pose proof (drop_one_new (p : process) (w_procs w) Ha) as Hd.
    unfold with_run, with_procs. cbn. rewrite Hd. by destruct a.
Qed.

Lemma swp_within_timeout {A} (p : prog A) w Q :
  swp ssh_handles p w (fun r w' => match r with Ok a => Q (Ok a) w' | Raise _ => forall e, Q (Raise e) w' end) ->
  swp ssh_handles (within_timeout p) w Q.
Proof.
  intros Hp. apply swp_try. eapply swp_mono; [exact Hp|]. intros [a|e] w' HQ; [done|]. cbn beta iota.
  destruct (isinstance (exn_type e) CancelledError); cbn beta iota; [|done]. ssh_step. ssh_step.
  destruct a as [passed|e']; [|done]. ssh_step. destruct passed; apply HQ.
Qed.

Lemma swp_execute_command command w :
  swp ssh_handles (execute_command sha256_hex asyncssh_error command) w (fun r w' =>
    w' = with_run command w \/ (w' = w /\ exists e, r = Raise e)).
Proof.
  unfold execute_command. ssh_step. ssh_step. ssh_step; [|ssh_step; by eauto].
  ssh_step. ssh_step. ssh_step; [|by eauto]. ssh_step. apply swp_within_timeout.
  eapply swp_mono; [apply swp_run_process|]. intros [result|e] w' ->; [by left|]. intros e'.
  destruct (_ || _); [|by left]. ssh_step. by left.
Qed.

(** Connecting: what is opened, and the key file that may be written. *)
Definition connected (config : ssh_config) (w : ssh_world) (r : res unit) (w' : ssh_world) : Prop :=
  exists file : option pystr,
    (file = None \/ is_Some (given_text (sc_ssh_key config)))
    /\ (forall path, file = Some path -> path ∉ w_files w)
    /\ w_procs w' = w_procs w /\ w_ran w' = w_ran w /\ w_faults w' = w_faults w
    /\ w_files w' = option_list file ++ w_files w
    /\ match r with
       | Ok _ => exists c, (c ∉ w_open w) /\ w_open w' = c :: w_open w
                   /\ w_self w' = set_connection (Some c) (match file with Some path => set_temp_key (Some path) (w_self w) | None => w_self w end)
       | Raise _ => w_open w' = w_open w
       end.

(** The key in memory or in a file. *)
Lemma swp_import_key config key w :
  swp ssh_handles (import_key config key) w (fun r w' =>
    exists file : option pystr, (forall path, file = Some path -> path ∉ w_files w)
      /\ w_open w' = w_open w /\ w_procs w' = w_procs w /\ w_ran w' = w_ran w /\ w_faults w' = w_faults w
      /\ w_files w' = option_list file ++ w_files w
      /\ (forall k, r = Ok k ->
            w_self w' = if file is Some path then set_temp_key (Some path) (w_self w) else w_self w)).
Proof.
  unfold import_key. ssh_step. ssh_step. ssh_step. destruct a as [k|e]; [ssh_step; by exists None|].
  unfold on_exception. destruct (isinstance (exn_type e) Exception_); [|by exists None].
  ssh_step. ssh_step. destruct a as [path|e']; [|by exists None]. specialize (Ha0 path eq_refl).
  assert (forall p, Some path = Some p -> p ∉ w_files w) as Hnew by by intros p [= <-].
  ssh_step. ssh_step. destruct a; [|by exists (Some path)].
  ssh_step. ssh_step. ssh_step. ssh_step. ssh_step. destruct a0 as [[]|e'']; [ssh_step; by exists (Some path)|].
  unfold on_class. destruct (isinstance (exn_type e'') OSError); [|by exists (Some path)].
  ssh_step. ssh_step. by exists (Some path).
Qed.

Lemma swp_connect_kwargs config w :
  swp ssh_handles (connect_kwargs config) w (fun r w' =>
    exists file : option pystr, (file = None \/ is_Some (given_text (sc_ssh_key config)))
      /\ (forall path, file = Some path -> path ∉ w_files w)
      /\ w_open w' = w_open w /\ w_procs w' = w_procs w /\ w_ran w' = w_ran w /\ w_faults w' = w_faults w
      /\ w_files w' = option_list file ++ w_files w
      /\ (forall k, r = Ok k ->
            w_self w' = if file is Some path then set_temp_key (Some path) (w_self w) else w_self w)).
Proof.
  unfold connect_kwargs. destruct (given_text (sc_ssh_key config)) as [key|].
  - ssh_step. eapply swp_mono; [apply swp_import_key|]. intros r w' (file & Hnew & Ho & Hp & Hr & Hfl & Hf & Hs).
    destruct r as [k|e]; [ssh_step|]; exists file; split_and!; try done; try (by right; eauto).
    intros k' _. by apply (Hs k).
  - destruct (given_text (sc_password config)); ssh_step; exists None; split_and!; try done; by left.
Qed.

Lemma swp_connect config w :
  swp ssh_handles (connect asyncssh_error config) w (connected config w).
Proof.
  assert (forall e, connected config w (Raise e) w) as Hnone by (by exists None; split_and!; try done; left).
  unfold connect. ssh_step. eapply (swp_mono _ _ _ (fun _ w' => w' = w)).
  { unfold host_verification_usable. repeat ssh_step; done. }
  intros [usable|e] ? ->; [|apply Hnone]. destruct usable; [|ssh_step; apply Hnone].
  ssh_step. eapply swp_mono; [apply swp_connect_kwargs|].
  intros r w1 (file & Hkey & Hnew & Ho & Hp & Hr & Hfl & Hf & Hs). destruct r as [options|e]; [|by exists file].
  ssh_step. ssh_step. ssh_step. destruct a as [c|e].
  - ssh_step. exists file. split_and!; try done. exists c. rewrite Ho in Ha. split_and!; [by apply Ha|by cbn; rewrite Ho|].
    cbn. by rewrite (Hs options).
  - destruct (asyncssh_error (exn_type e)); [ssh_step|]; by exists file.
Qed.

(** What is left of a connection and a key file after the clean-up, by the call of it that
    failed, if any: what comes after a call that raises is not done, but an OSError of the
    deletion is ignored. *)
Definition given_back (c : connection) (file : option pystr) (faults : list ssh_call) (w w' : ssh_world) : Prop :=
  match faults with
  | [] => w_open w' = drop_one c (w_open w) /\ w_files w' = (if file is Some path then drop_one path (w_files w) else w_files w)
  | [Close c'] => c' = c /\ w_open w' = w_open w /\ w_files w' = w_files w
  | [WaitClosed c'] => c' = c /\ w_open w' = drop_one c (w_open w) /\ w_files w' = w_files w
  | [Unlink path] => file = Some path /\ w_open w' = drop_one c (w_open w) /\ w_files w' = w_files w
  | _ => False
  end.
Lemma swp_disconnect c (file : option pystr) w :
  _connection (w_self w) = Some c -> _temp_key_path (w_self w) = file -> w_faults w = [] ->
  swp ssh_handles disconnect w (fun r w' =>
    w_procs w' = w_procs w /\ w_ran w' = w_ran w /\ given_back c file (w_faults w') w w'
    /\ (w_faults w' = [] -> r = Ok tt)).
Proof.
  intros Hc Hf Hz. unfold disconnect. ssh_step. ssh_step. rewrite Hc. repeat (first [progress unfold on_class; destruct (isinstance _ _)|ssh_step]); subst.
  all: cbn in *; simplify_eq; rewrite ?Hz, ?Heqo; unfold given_back; cbn; split_and!; done.
Qed.

(** What a session over an open connection leaves, in the same cases: [file] is the key file it
    wrote, if any. *)
Definition left_behind (file : option pystr) (w w' : ssh_world) : Prop :=
  match w_faults w' with
  | [] => w_open w' = w_open w /\ w_files w' = w_files w
  | [Close c] => w_open w' = c :: w_open w /\ w_files w' = option_list file ++ w_files w
  | [WaitClosed _] => w_open w' = w_open w /\ w_files w' = option_list file ++ w_files w
  | [Unlink path] => w_open w' = w_open w /\ w_files w' = path :: w_files w /\ file = Some path
  | _ => False
  end.
(** What connecting leaves when it fails. *)
Definition never_open (file : option pystr) (w w' : ssh_world) : Prop :=
  w_faults w' = [] /\ w_open w' = w_open w /\ w_files w' = option_list file ++ w_files w /\ w_ran w' = w_ran w.

(** C24: in every execution of a session that runs one command the process is closed again, the
    command is started at most once, and is started if the session succeeds. What stays open
    depends on the call of the clean-up that failed: when none did, the connection is closed and
    the key file deleted; when close raised, both stay; when the wait for the close raised or
    was cancelled, the connection is closed but the key file stays; when the deletion failed,
    the key file stays. A key file is only ever written for a configured key; and when
    connecting itself failed, no connection is open and no command ran, but a key file that was
    written stays. *)
Theorem session_releases_resources (config : ssh_config) (command : pystr) (w w' : ssh_world) (r : res (pystr * pystr * Z)) :
  w_self w = new_fields -> w_faults w = [] ->
  exec ssh_handles (session asyncssh_error config (execute_command sha256_hex asyncssh_error command)) w r w' ->
  w_procs w' = w_procs w
  /\ (w_ran w' = w_ran w ++ [command] \/ (w_ran w' = w_ran w /\ exists e, r = Raise e))
  /\ exists file : option pystr,
       (file = None \/ is_Some (given_text (sc_ssh_key config))) /\ (forall path, file = Some path -> path ∉ w_files w)
       /\ (left_behind file w w' \/ (never_open file w w' /\ exists e, r = Raise e)).
Proof.
  intros Hself Hz Hx. pattern r, w'. eapply swp_exec; [|exact Hx]. unfold session. ssh_step.
  eapply swp_mono; [apply swp_connect|]. intros r1 w1 (file & Hkey & Hnew & Hp & Hr & Hfl & Hf & Hrest).
  destruct r1 as [[]|e].
  2:{ split; [done|]. split; [right; by eauto|]. exists file. split_and!; [done..|]. right.
      split; [|by exists e]. unfold never_open. by rewrite Hfl, Hz. }
  destruct Hrest as (c & Hc & Ho & Hs). rewrite Hself in Hs. ssh_step.
  eapply swp_mono; [apply swp_execute_command|]. intros r2 w2 Hw2.
  assert (w_self w2 = w_self w1 /\ w_open w2 = w_open w1 /\ w_procs w2 = w_procs w1 /\ w_files w2 = w_files w1
          /\ w_faults w2 = [] /\ (w_ran w2 = w_ran w ++ [command] \/ (w_ran w2 = w_ran w /\ exists e, r2 = Raise e)))
    as (Hs2 & Ho2 & Hp2 & Hf2 & Hz2 & Hr2).
  { rewrite <- Hr, <- Hz, <- Hfl. destruct Hw2 as [->|(-> & ?)]; by split_and!; try done; (by left) || (right; eauto). }
  eapply swp_mono; [apply (swp_disconnect c file); [rewrite Hs2, Hs; by destruct file..|done]|].
  intros rd w3 (Hp3 & Hr3 & Hg & _).
  assert (left_behind file w w3) as Hleft.
  { unfold left_behind, given_back in *. rewrite Hf2, Hf, Ho2, Ho, drop_one_new in Hg by done.
    destruct (w_faults w3) as [|f [|]]; [|destruct f; try done|destruct f; done].
    - destruct Hg as [? Hg]. split; [done|]. rewrite Hg. destruct file as [path|]; [|done]. apply drop_one_new. by apply Hnew.
    - by destruct Hg as (-> & ? & ?).
    - by destruct Hg as (_ & ? & ?).
    - by destruct Hg as (-> & ? & ?). }
  assert (exists file : option pystr, (file = None \/ is_Some (given_text (sc_ssh_key config)))
       /\ (forall path, file = Some path -> path ∉ w_files w) /\ left_behind file w w3) as (f & ? & ? & ?) by by exists file.
  rewrite Hp3, Hr3, Hp2, Hp. destruct rd as [[]|e].
  - split; [done|]. split; [done|]. exists f. split_and!; try done. by left.
  - split; [done|]. split; [destruct Hr2 as [?|[? _]]; [by left|right; by eauto]|]. exists f. split_and!; try done. by left.
Qed.
End sessions.

(** *** Concrete executions *)

Section simulation.
Context (env : forall c : ssh_call, res (ssh_answer c)).

(** [env]'s answers, where the answer is not determined. *)
Definition reply (c : ssh_call) (w : ssh_world) : res (ssh_answer c) :=
  match c as c return res (ssh_answer c) with
  | Load => Ok (w_self w)
  | Store _ | CancelTask _ => Ok tt
  | ExitTaskDone => Ok true
  | c => env c
  end.
Definition fresh_answer (c : ssh_call) : res (ssh_answer c) -> ssh_world -> bool :=
  match c with
  | NamedTemporaryFile _ _ => fun a w => match a with Ok path => bool_decide (path ∉ w_files w) | Raise _ => true end
  | Connect _ _ => fun a w => match a with Ok c => bool_decide (c ∉ w_open w) | Raise _ => true end
  | CreateProcess _ _ => fun a w => match a with Ok p => bool_decide (p ∉ w_procs w) | Raise _ => true end
  | _ => fun _ _ => true
  end.
Fixpoint run_ssh {A} (p : prog A) (w : ssh_world) : option (res A * ssh_world) :=
  match p with
  | Done r => Some (r, w)
  | Do c k => if fresh_answer c (reply c w) w then run_ssh (k (reply c w)) (after c (reply c w) w) else None
  end.

Lemma reply_possible c w : fresh_answer c (reply c w) w = true -> possible c (reply c w) w.
Proof.
  destruct c; cbn [possible reply fresh_answer]; try done; try by eauto.
  all: intros Hb x Hx; rewrite Hx in Hb; by apply bool_decide_eq_true in Hb.
Qed.
Lemma run_ssh_exec {A} (p : prog A) w r w' : run_ssh p w = Some (r, w') -> exec ssh_handles p w r w'.
Proof.
  revert w. induction p as [r0|c k IH]; cbn [run_ssh]; intros w; [intros [= -> ->]; constructor|].
  destruct (fresh_answer c (reply c w) w) eqn:Ef; [|done]. intros Hr.
  econstructor; [split; [by apply reply_possible|reflexivity]|]. by apply IH.
Qed.
End simulation.

(** A host that can be connected to iff [up], and a key that AsyncSSH cannot import. *)
Definition test_env (up : bool) (c : ssh_call) : res (ssh_answer c) :=
  match c as c return res (ssh_answer c) with
  | IsFile _ => Ok true
  | ImportPrivateKey _ _ => raise (LibraryError #"KeyImportError") #"Invalid private key"
  | NamedTemporaryFile prefix suffix => Ok (#"/tmp/" ++ prefix ++ #"abc" ++ suffix)
  | Connect _ _ => if up then Ok 1%N else raise (LibraryError #"ConnectionLost") #"Connection lost"
  | CreateProcess _ _ => Ok 1%N
  | Drain _ Stdout => Ok [ #"hello"; #" world"]
  | Drain _ Stderr => Ok []
  | ExitStatus _ => Ok None
  | ExitTaskDone | DeadlinePassed => Ok true
  | Gettempdir => Ok #"/tmp"
  | Uuid4Hex => Ok #"00"
  | Load => Ok new_fields
  | Store _ | WriteFile _ _ | Chmod _ _ | Close _ | WaitClosed _ | Unlink _ | WaitProcess _ | CloseProcess _
  | Run _ _ | WaitExitTask _ | CancelTask _ => Ok tt
  end.
Definition test_asyncssh_error (c : exn_class) : bool := bool_decide (c = LibraryError #"ConnectionLost").
Definition test_config : ssh_config :=
  create_ssh #"/known_hosts" true #"db" 22 (Some #"root") None (Some #"KEY") None None.
Definition idle_world : ssh_world := Build_ssh_world new_fields [] [] [] [] [].
Definition test_session : prog (pystr * pystr * Z) :=
  session test_asyncssh_error test_config (execute_command (fun _ => []) test_asyncssh_error #"uptime").

(** The session of a key that is in no format AsyncSSH imports leaves nothing; but when the
    host does not answer, the private key stays in a file. *)
Lemma session_releases_resources_witness :
  (exec ssh_handles test_session idle_world (Ok (#"hello world", [], 255%Z)) (with_run #"uptime" idle_world)
   /\ w_files (with_run #"uptime" idle_world) = [])
  /\ exec ssh_handles test_session idle_world (raise ConnectionFailedError #"SSH connection failed")
       (Build_ssh_world (set_temp_key (Some #"/tmp/nn_ssh_abc.pem") new_fields) [] [] [ #"/tmp/nn_ssh_abc.pem"] [] []).
Proof.
  assert (exec ssh_handles test_session idle_world (Ok (#"hello world", [], 255%Z)) (with_run #"uptime" idle_world)) as Hx
    by (apply (run_ssh_exec (test_env true)); vm_compute; reflexivity).
  split; [split; [exact Hx|]|apply (run_ssh_exec (test_env false)); vm_compute; reflexivity].
  destruct (session_releases_resources (fun _ => []) test_asyncssh_error test_config #"uptime" idle_world _ _ eq_refl eq_refl Hx)
    as (_ & _ & file & _ & _ & [[_ Hf]|(_ & e & Hr)]); [exact Hf|discriminate Hr].
Defined.

(** The clean-up is cancelled while it waits for the connection to close: the private key stays
    in its file. *)
Definition cancelled_env (c : ssh_call) : res (ssh_answer c) :=
  match c as c return res (ssh_answer c) with
  | WaitClosed _ => raise CancelledError []
  | c => test_env true c
  end.
Example cancelled_close_keeps_key :
  exists w', exec ssh_handles test_session idle_world (raise CancelledError []) w'
    /\ w_open w' = [] /\ w_files w' = [ #"/tmp/nn_ssh_abc.pem"] /\ w_faults w' = [WaitClosed 1%N].
Proof. eexists. split; [apply (run_ssh_exec cancelled_env); vm_compute; reflexivity|done]. Qed.

(** ** The outcome of a command

    Where each call is always answered alike, and the process can be started and closed. *)

Section outcome.
Context (sha256_hex : bytes -> pystr) (asyncssh_error : exn_class -> bool).
Context (f : forall c : @call ssh_signature, res (@answer ssh_signature c)) (p : process).

(** What a reader makes of its stream. *)
Definition reading (stream : stream_name) : res pystr :=
  chunks ← (f (Drain p stream) : res (list pystr)); _read_bounded_stream chunks _MAX_CAPTURED_OUTPUT_BYTES.

Lemma eval_reading stream : eval f (read_stream p stream) = reading stream.
Proof. unfold read_stream. by rewrite eval_bind. Qed.

Lemma eval_read_process :
  eval f (read_process p)
  = match group_failures [failure (f (WaitProcess p)); failure (reading Stdout); failure (reading Stderr)] with
    | [] => _ ← (f (WaitProcess p) : res unit); stdout ← reading Stdout; stderr ← reading Stderr; Ok (stdout, stderr)
    | _ => raise ExceptionGroup #"unhandled errors in a TaskGroup"
    end.
Proof.
  unfold read_process. rewrite eval_bind, eval_outcome. cbn [mbind res_bind].
  rewrite eval_bind, eval_outcome, eval_reading. cbn [mbind res_bind].
  rewrite eval_bind, eval_outcome, eval_reading. cbn [mbind res_bind eval perform].
  by destruct (group_failures _).
Qed.

Lemma eval_execute_command self c command :
  f Load = Ok self -> _connection self = Some c -> existsb is_surrogate command = false ->
  eval f (execute_command sha256_hex asyncssh_error command)
  = eval f (try_except (within_timeout (run_process c command))
        (fun exc => if asyncssh_error (exn_type exc) || isinstance (exn_type exc) TimeoutError
                    then Some (lift (raise ConnectionFailedError #"SSH command failed")) else None)).
Proof.
  intros Hl Hc Hs. unfold execute_command. rewrite eval_bind. change (@eval ssh_signature ssh_fields f (@perform ssh_signature Load)) with (f Load). rewrite Hl. cbn [mbind res_bind].
  rewrite Hc, eval_bind. unfold command_fingerprint, encode. by rewrite Hs.
Qed.
End outcome.

(** The exception reached the group: any but a cancellation. *)
Definition breaks {A} (r : res A) : bool :=
  match r with Raise e => negb (isinstance (exn_type e) CancelledError) | Ok _ => false end.

Lemma group_failures_cons {A} (r : res A) es :
  group_failures (failure r :: es) = (if breaks r then option_list (failure r) else []) ++ group_failures es.
Proof. destruct r as [a|e]; [done|]. unfold group_failures, breaks. cbn. by destruct (isinstance (exn_type e) CancelledError). Qed.

(** Over an open connection, a command whose process starts gives what its streams carry,
    each bounded, and the exit status, 255 when there is none; when starting fails with an
    AsyncSSH error or a timeout, the outcome is a connection error; but when the connection
    breaks while the output is read or the exit awaited, the outcome is an ExceptionGroup, which
    no handler of AsyncSSH errors catches. *)
Theorem remote_command_outcome (sha256_hex : bytes -> pystr) (asyncssh_error : exn_class -> bool)
    (f : forall c : @call ssh_signature, res (@answer ssh_signature c)) (self : ssh_fields) (c : connection) (command : pystr) :
  f Load = Ok self -> _connection self = Some c -> existsb is_surrogate command = false ->
  asyncssh_error ExceptionGroup = false ->
  match f (CreateProcess c command) with
  | Raise e =>
      asyncssh_error (exn_type e) = true \/ isinstance (exn_type e) TimeoutError = true ->
      isinstance (exn_type e) CancelledError = false ->
      eval f (execute_command sha256_hex asyncssh_error command) = raise ConnectionFailedError #"SSH command failed"
  | Ok p =>
      f (CloseProcess p) = Ok tt ->
      (forall stdout stderr status, f (WaitProcess p) = Ok tt ->
         reading f p Stdout = Ok stdout -> reading f p Stderr = Ok stderr -> f (ExitStatus p) = Ok status ->
         eval f (execute_command sha256_hex asyncssh_error command) = Ok (stdout, stderr, default 255%Z status))
      /\ (breaks (f (WaitProcess p)) || breaks (reading f p Stdout) || breaks (reading f p Stderr) = true ->
         eval f (execute_command sha256_hex asyncssh_error command)
         = raise ExceptionGroup #"unhandled errors in a TaskGroup")
  end.
Proof.
  intros Hl Hc Hs Hg. rewrite (eval_execute_command _ _ _ self c) by done.
  unfold within_timeout, run_process. rewrite !eval_try, eval_bind.
  change (eval f (@perform ssh_signature (CreateProcess c command))) with (f (CreateProcess c command)).
  destruct (f (CreateProcess c command)) as [p|e]; cbn [mbind res_bind].
  - intros Hclose. rewrite eval_finally. change (eval f (@perform ssh_signature (CloseProcess p))) with (f (CloseProcess p)). rewrite Hclose.
    cbn [mbind res_bind]. rewrite eval_bind, eval_read_process. split.
    + intros stdout stderr status Hw Ho He Hst. rewrite Hw, Ho, He. cbn [failure].
      change (group_failures [None; None; None]) with (@nil exn). cbn [mbind res_bind].
      rewrite eval_bind. unfold _exit_status. rewrite eval_bind.
      change (eval f (@perform ssh_signature (ExitStatus p))) with (f (ExitStatus p)). by rewrite Hst.
    + intros Hb. rewrite !group_failures_cons.
      assert (exists e es, (if breaks (f (WaitProcess p)) then option_list (failure (f (WaitProcess p))) else [])
        ++ (if breaks (reading f p Stdout) then option_list (failure (reading f p Stdout)) else [])
        ++ (if breaks (reading f p Stderr) then option_list (failure (reading f p Stderr)) else [])
        ++ group_failures [] = e :: es) as (e & es & ->).
      { unfold breaks in *. destruct (f (WaitProcess p)), (reading f p Stdout), (reading f p Stderr);
          cbn [failure option_list] in *; repeat case_match; try discriminate; cbn; eauto. }
      unfold raise. cbn [mbind res_bind exn_type]. change (isinstance ExceptionGroup CancelledError) with false. cbn beta iota. cbn [exn_type]. rewrite Hg. reflexivity.
  - intros He Hn. rewrite Hn. destruct He as [->| ->]; [done|]. by rewrite orb_true_r.
Qed.

(** A connection that breaks while standard output is read. *)
Definition broken_env (c : @call ssh_signature) : res (@answer ssh_signature c) :=
  match c as c return res (ssh_answer c) with
  | Load => Ok (set_connection (Some 1%N) new_fields)
  | Drain _ Stdout => raise (LibraryError #"ConnectionLost") #"Connection lost"
  | c => test_env true c
  end.
Lemma remote_command_outcome_witness :
  eval broken_env (execute_command (fun _ => []) test_asyncssh_error #"uptime")
  = raise ExceptionGroup #"unhandled errors in a TaskGroup".
Proof.
  exact (proj2 (remote_command_outcome (fun _ => []) test_asyncssh_error broken_env _ 1%N #"uptime" eq_refl eq_refl eq_refl eq_refl eq_refl) eq_refl).
Defined.

(** ** Streamed events, in every interleaving *)

Definition chunk_of (stream : stream_name) (e : stream_event) : option pystr :=
  match e, stream with
  | EChunk Stdout data, Stdout | EChunk Stderr data, Stderr => Some data
  | _, _ => None
  end.
Definition chunks (stream : stream_name) (events : list stream_event) : list pystr := omap (chunk_of stream) events.

Section events.
Context (status : option Z) (out err : list pystr).

(** What holds of the queue at every moment. *)
Record stream_inv (s : stream_state) : Prop := {
  si_out : chunks Stdout (sm_yielded s ++ sm_queue s) ++ sm_out s = out;
  si_err : chunks Stderr (sm_yielded s ++ sm_queue s) ++ sm_err s = err;
  si_room : length (sm_queue s) <= _STREAM_QUEUE_SIZE;
  si_exit : List.filter is_exit (sm_yielded s ++ sm_queue s) = if sm_waiting s then [] else [exit_event status];
  si_last : finished s = true -> exists before, sm_yielded s = before ++ [exit_event status] /\ List.filter is_exit before = [] }.

Lemma chunks_app stream l k : chunks stream (l ++ k) = chunks stream l ++ chunks stream k.
Proof. apply omap_app. Qed.

Lemma no_exit l : existsb is_exit l = false <-> List.filter is_exit l = [].
Proof. induction l as [|[?|?] l IH]; cbn; [done|exact IH|done]. Qed.

Lemma room_snoc s e : has_room s = true -> length (sm_queue s ++ [e]) <= _STREAM_QUEUE_SIZE.
Proof. unfold has_room. rewrite length_app. cbn [length]. intros H%Nat.ltb_lt. lia. Qed.

Lemma exit_filter e l : (if is_exit e then e :: l else l) = (if is_exit e then [e] else []) ++ l.
Proof. by destruct (is_exit e). Qed.

Lemma stream_inv_step s s' : stream_inv s -> stream_step status s s' -> stream_inv s'.
Proof.
  intros [Ho He Hr Hx Hl] Hs. destruct Hs as [c o r w q y Hf Hroom|c o r w q y Hf Hroom|o r q y Hf Hroom|o r w e q y Hf];
    cbn [sm_out sm_err sm_waiting sm_queue sm_yielded] in *.
  1-3: split; cbn [sm_out sm_err sm_waiting sm_queue sm_yielded];
      [| |by apply (room_snoc _ _ Hroom)| |intros Hf'; exfalso; unfold finished in *; cbn in *; congruence];
      rewrite ?app_assoc, ?chunks_app, ?List.filter_app, <- ?app_assoc in *; cbn; rewrite ?app_nil_r, ?Hx; done || by rewrite app_assoc, Hx.
  assert (y ++ e :: q = (y ++ [e]) ++ q) as Eq by (by rewrite <- app_assoc).
  split; cbn [sm_out sm_err sm_waiting sm_queue sm_yielded]; rewrite <- ?Eq; try done.
  - cbn in Hr. lia.
  - unfold finished in *. cbn in *. rewrite existsb_app, Hf. cbn. rewrite orb_false_r. intros Hexit.
    exists y. apply no_exit in Hf. split; [|done]. f_equal. rewrite List.filter_app, Hf in Hx. cbn in Hx. rewrite Hexit in Hx.
    destruct w; [done|]. injection Hx as -> _. done.
Qed.

Lemma stream_inv_start : stream_inv (start_stream out err).
Proof. split; cbn; [done..|lia|done|done]. Qed.

Lemma stream_inv_reach s : rtc (stream_step status) (start_stream out err) s -> stream_inv s.
Proof.
  intros H. remember (start_stream out err) as s0 eqn:E. assert (stream_inv s0) as H0 by (rewrite E; apply stream_inv_start).
  clear E. induction H as [|s1 s2 s3 Hs _ IH]; [done|]. apply IH. by eapply stream_inv_step.
Qed.

(** Every step moves a chunk on: chunks that are read count two, queued events one. *)
Definition potential (s : stream_state) : nat :=
  2 * (length (sm_out s) + length (sm_err s) + (if sm_waiting s then 1 else 0)) + length (sm_queue s).
Lemma potential_step s s' : stream_step status s s' -> S (potential s') = potential s.
Proof. intros []; unfold potential; cbn; rewrite ?length_app; cbn; lia. Qed.

Lemma stream_progress s : stream_inv s -> finished s = false -> exists s', stream_step status s s'.
Proof.
  destruct s as [o r w q y]. intros Hi Hf. destruct q as [|e q]; [|eexists; by apply take_event].
  destruct w; [eexists; by apply wait_for_exit|]. destruct Hi as [_ _ _ Hx _]. cbn in Hx. rewrite app_nil_r in Hx.
  unfold finished in Hf. cbn in Hf. apply no_exit in Hf. by rewrite Hf in Hx.
Qed.

(** C25: the consumer of a streamed command sees, whatever the interleaving of the pumps, the
    exit watcher and itself: the chunks of each stream in their order, without gaps or
    repetitions, from the first on; at most one exit event, with the exit status (255 when there
    is none), and nothing after it. The queue never holds more than 128 events; until the exit
    event is delivered some task can move, and it is delivered after a bounded number of moves. *)
Theorem streamed_events_ordered (n : nat) (s : stream_state) :
  nsteps (stream_step status) n (start_stream out err) s ->
  chunks Stdout (sm_yielded s) `prefix_of` out /\ chunks Stderr (sm_yielded s) `prefix_of` err
  /\ length (sm_queue s) <= _STREAM_QUEUE_SIZE
  /\ (finished s = true -> exists before, sm_yielded s = before ++ [exit_event status] /\ List.filter is_exit before = [])
  /\ (finished s = false -> exists s', stream_step status s s')
  /\ n <= 2 * (length out + length err + 1).
Proof.
  intros Hn. assert (stream_inv s) as Hi by by apply stream_inv_reach, rtc_nsteps; eauto.
  pose proof Hi as [Ho He Hr _ Hl]. rewrite chunks_app, <- app_assoc in Ho, He. split_and!.
  - rewrite <- Ho. by apply prefix_app_r.
  - rewrite <- He. by apply prefix_app_r.
  - done.
  - done.
  - by apply stream_progress.
  - clear -Hn. assert (n + potential s = potential (start_stream out err)) as Hp.
    { induction Hn as [|n s1 s2 s3 Hs _ IH]; [done|]. apply potential_step in Hs. lia. }
    unfold potential in Hp at 2. cbn in Hp. lia.
Qed.
End events.

(** The exit event may overtake output that no pump has read yet: it is never delivered. *)
Lemma exit_overtakes_output :
  nsteps (stream_step (Some 0%Z)) 2 (start_stream [ #"done"] []) (Build_stream_state [ #"done"] [] false [] [EExit 0]).
Proof. econstructor; [by apply wait_for_exit|]. econstructor; [by apply take_event|]. constructor. Qed.

Lemma streamed_events_ordered_witness :
  nsteps (stream_step None) 4 (start_stream [ #"a"] []) (Build_stream_state [] [] false [] [EChunk Stdout #"a"; EExit 255])
  /\ finished (Build_stream_state [] [] false [] [EChunk Stdout #"a"; EExit 255]) = true
  /\ 4 <= 2 * (1 + 0 + 1).
Proof.
  assert (nsteps (stream_step None) 4 (start_stream [ #"a"] []) (Build_stream_state [] [] false [] [EChunk Stdout #"a"; EExit 255])) as Hn.
  { econstructor; [by apply pump_out|]. econstructor; [by apply wait_for_exit|].
    econstructor; [by apply take_event|]. econstructor; [by apply take_event|]. constructor. }
  split; [exact Hn|]. split; [reflexivity|].
  destruct (streamed_events_ordered None [ #"a"] [] 4 _ Hn) as (_ & _ & _ & _ & _ & H). exact H.
Defined.

(** ** Signals and the end of a streamed command *)

Section signals.
Context (w : ssh_world) (c : connection) (group_file : pystr).
Hypothesis (Hc : _connection (w_self w) = Some c) (Hg : _active_process_group_file (w_self w) = Some group_file)
  (Hne : group_file <> []).

Lemma swp_signal signal w1 (Q : res unit -> ssh_world -> Prop) :
  w_self w1 = w_self w -> (forall r, Q r (with_run (kill_command signal group_file) w1)) ->
  swp ssh_handles (_signal_active_process_group signal) w1 Q.
Proof.
  intros Hs HQ. unfold _signal_active_process_group. ssh_step. ssh_step. rewrite Hs, Hc, Hg. unfold given_text.
  destruct group_file as [|x l] eqn:E; [done|]. ssh_step. rewrite <- E in *. apply HQ.
Qed.

(** [w] after the commands [run]. *)
Definition ran_more (run : list pystr) (w' : ssh_world) : Prop :=
  w_self w' = w_self w /\ w_ran w' = w_ran w ++ run.

Lemma ran_more_snoc run command w' : ran_more run w' -> ran_more (run ++ [command]) (with_run command w').
Proof. intros [Hs Hr]. split; [done|]. cbn. by rewrite Hr, app_assoc. Qed.

(** The signals sent, and nothing else. *)
Definition signalled (w1 : ssh_world) : Prop :=
  exists signals, signals `sublist_of` [ #"TERM"; #"KILL"] /\ ran_more ((fun s => kill_command s group_file) <$> signals) w1.

Lemma swp_await_exit (p : process) w1 first :
  first `sublist_of` [ #"TERM"] -> ran_more ((fun s => kill_command s group_file) <$> first) w1 ->
  swp ssh_handles
    (try_except (perform (WaitExitTask _PROCESS_TERMINATION_TIMEOUT) : prog unit)
       (on_class TimeoutError (fun _ => _signal_active_process_group #"KILL";; perform (WaitProcess p)))) w1
    (fun _ => signalled).
Proof.
  intros Hsub Hr. assert (signalled w1) as H1 by (exists first; split; [by apply (sublist_inserts_r [ #"KILL"] first [ #"TERM"])|done]).
  ssh_step. ssh_step. destruct a as [[]|e]; [done|]. unfold on_class.
  destruct (isinstance (exn_type e) TimeoutError); [|done]. ssh_step. apply swp_signal; [by destruct Hr|]. intros rs.
  assert (signalled (with_run (kill_command #"KILL" group_file) w1)) as Hk.
  { exists (first ++ [ #"KILL"]). split; [by apply (sublist_app _ [ #"TERM"] _ [ #"KILL"])|].
    rewrite fmap_app. by apply ran_more_snoc. }
  destruct rs; [ssh_step|]; done.
Qed.

Lemma swp_cancel_pump (done : bool) stream w1 :
  swp ssh_handles (if done then mret tt else perform (CancelTask stream)) w1 (fun r w2 => r = Ok tt /\ w2 = w1).
Proof. destruct done; ssh_step; done. Qed.

(** When a consumer leaves a streamed command, for whatever reason and whatever fails while
    it leaves: the process group of the command gets at most a TERM and then at most a KILL;
    then the file of the group is removed by exactly one more command, nothing else is run, and
    the connector is free for the next command. *)
Theorem streamed_command_cleanup (p : process) (out_done err_done : bool) (r : res unit) (w' : ssh_world) :
  exec ssh_handles (close_stream p group_file out_done err_done) w r w' ->
  _active_process (w_self w') = None /\ _connection (w_self w') = Some c
  /\ (exists signals, signals `sublist_of` [ #"TERM"; #"KILL"]
        /\ w_ran w' = w_ran w ++ ((fun s => kill_command s group_file) <$> signals) ++ [ #"rm -f " ++ quote group_file])
  /\ (r = Ok tt -> _active_process_group_file (w_self w') = None).
Proof.
  intros Hx. pattern r, w'. eapply swp_exec; [|exact Hx]. unfold close_stream.
  assert (ran_more [] w) as Hw by (split; [done|by rewrite app_nil_r]).
  ssh_step. eapply swp_mono; [apply swp_cancel_pump|]. intros ? ? [-> ->].
  ssh_step. eapply swp_mono; [apply swp_cancel_pump|]. intros ? ? [-> ->]. ssh_step.
  eapply (swp_mono _ _ _ (fun _ => signalled)).
  - ssh_step. ssh_step. destruct a as [status|e]; [|exists []; split; [apply sublist_nil_l|done]].
    ssh_step. destruct status as [code|]; [ssh_step; by apply (swp_await_exit p w []), Hw; apply sublist_nil_l|].
    apply swp_signal; [done|]. intros rs. pose proof (ran_more_snoc [] (kill_command #"TERM" group_file) w Hw) as H1.
    destruct rs; [by apply (swp_await_exit p _ [ #"TERM"])|]. exists [ #"TERM"]. split; [|done].
    by apply (sublist_inserts_r [ #"KILL"] [ #"TERM"] [ #"TERM"]).
  - intros r0 w1 (signals & Hsub & Hs & Hr).
    eapply (swp_mono _ _ _ (fun r w2 => _active_process (w_self w2) = None /\ _connection (w_self w2) = Some c
      /\ w_ran w2 = w_ran w1 ++ [ #"rm -f " ++ quote group_file] /\ (r = Ok tt -> _active_process_group_file (w_self w2) = None))).
    + ssh_step. ssh_step. ssh_step. eapply swp_mono; [apply swp_cancel_pump|].
      intros ? ? [-> ->]. repeat (ssh_step || cbn); rewrite ?Hs in *; cbn in *; simplify_eq; done.
    + intros rc w2 (Ha & Hc2 & Hr2 & Hgf). assert (w_ran w2 = w_ran w ++ ((fun s => kill_command s group_file) <$> signals) ++ [ #"rm -f " ++ quote group_file]) as Hran
        by (by rewrite Hr2, Hr, <- app_assoc).
      destruct rc as [[]|e]; split_and!; try done; by eauto.
Qed.
End signals.

Definition streaming_world : ssh_world :=
  Build_ssh_world (Build_ssh_fields (Some 1%N) (Some 1%N) (Some #"/tmp/g.pid") None) [1%N] [1%N] [] [] [].

(** A process that has not exited, and ends when it is told to. *)
Lemma streamed_command_cleanup_witness :
  let w' := with_run #"rm -f /tmp/g.pid" (with_run #"kill -TERM -$(cat /tmp/g.pid)" streaming_world) in
  exec ssh_handles (close_stream 1%N #"/tmp/g.pid" true false) streaming_world (Ok tt)
    (with_self (Build_ssh_fields (Some 1%N) None None None) w')
  /\ _active_process (w_self (with_self (Build_ssh_fields (Some 1%N) None None None) w')) = None.
Proof.
  intros w'. assert (exec ssh_handles (close_stream 1%N #"/tmp/g.pid" true false) streaming_world (Ok tt)
    (with_self (Build_ssh_fields (Some 1%N) None None None) w')) as Hx
    by (apply (run_ssh_exec (test_env true)); vm_compute; reflexivity).
  split; [exact Hx|].
  exact (proj1 (streamed_command_cleanup streaming_world 1%N #"/tmp/g.pid" eq_refl eq_refl ltac:(discriminate) 1%N true false (Ok tt) _ Hx)).
Defined.

(** A request for a signal runs one [kill] with the signal's short name, or is refused and runs
    nothing: a [ValueError] for a name that is not one of the three, a [RuntimeError] when no
    command is streamed. *)
Theorem signal_requests_outcome (w w' : ssh_world) (signal : pystr) (r : res unit) :
  exec ssh_handles (send_signal signal) w r w' ->
  if bool_decide (signal ∈ _ALLOWED_SIGNALS) then
    match _active_process (w_self w), _connection (w_self w), given_text (_active_process_group_file (w_self w)) with
    | Some _, Some _, Some group_file =>
        w' = with_run (kill_command (drop 3 signal) group_file) w /\ drop 3 signal ∈ [ #"INT"; #"TERM"; #"HUP"]
    | _, _, _ => r = raise RuntimeError #"No active process" /\ w' = w
    end
  else r = raise ValueError #"Signal is not allowed" /\ w' = w.
Proof.
  intros Hx. pattern r, w'. eapply swp_exec; [|exact Hx]. unfold send_signal.
  destruct (bool_decide (signal ∈ _ALLOWED_SIGNALS)) eqn:E; [|ssh_step; done].
  apply bool_decide_eq_true in E. ssh_step. ssh_step.
  assert (removeprefix signal #"SIG" = drop 3 signal /\ drop 3 signal ∈ [ #"INT"; #"TERM"; #"HUP"]) as [-> Hin].
  { unfold _ALLOWED_SIGNALS in E. repeat (apply elem_of_cons in E as [->|E]; [split; [reflexivity|set_solver]|]).
    by apply elem_of_nil in E. }
  destruct (_active_process (w_self w)); [|ssh_step; done]. unfold _signal_active_process_group. ssh_step. ssh_step.
  destruct (_connection (w_self w)); [|ssh_step; done].
  destruct (given_text _); [|ssh_step; done]. by ssh_step.
Qed.

(** Whatever the command and the directory of the group file, the remote shell starts one new
    session, of a shell that gets the whole grouped command as one word. *)
Lemma stream_command_words (group_file command : pystr) :
  sh_lex (#"setsid sh -c " ++ quote (grouped_command group_file command))
  = Some (W <$> [ #"setsid"; #"sh"; #"-c"; grouped_command group_file command]).
Proof.
  apply lexes_done. apply (lexes_lit #"setsid sh -c " _ [W #"setsid"; W #"sh"; W #"-c"] [W (grouped_command group_file command)]);
    [by vm_compute|]. apply lexes_word, piece_quote.
Qed.
