(* ===== verification/KnownHosts.v ===== *)
(** * Known hosts

    [app/adapters/runtime/known_hosts.py]: the manager of the [known_hosts] file, which asks
    [ssh-keygen] and [ssh-keyscan], and [app/application/services/node_host_key_service.py].
    The file system, the programs and the [asyncio.Lock] are calls. *)
From S2P Require Import Prelude PyStr Errors Json Bytes Effects Dto Output Commands.

Inductive kh_call :=
| Mkdir                                        (* of the parent directory *)
| Exists | IsFile                              (* the file *)
| Touch | Chmod
| ReadText | Append (data : pystr)
| Which (program : pystr)
| KeygenFind (key : pystr)                     (* [ssh-keygen -F]: the exit status *)
| KeygenRemove (key : pystr)                   (* [ssh-keygen -R] *)
| StartKeyscan (host : pystr) (port : Z)
| Communicate (host : pystr) (port : Z)        (* the exit status and the two outputs *)
| KillKeyscan
| WriteTemp (text : pystr)
| KeygenList (path : pystr)                    (* [ssh-keygen -l]: the exit status and the error output *)
| UnlinkTemp (path : pystr)
| Acquire | Release                            (* [self._lock] *)
| GetNodeView (node_id : uuid).
Definition kh_answer (c : kh_call) : Type :=
  match c with
  | Exists | IsFile | Which _ => bool
  | ReadText | WriteTemp _ => pystr
  | KeygenFind _ | KeygenRemove _ => Z
  | Communicate _ _ => Z * bytes * bytes
  | KeygenList _ => Z * bytes
  | GetNodeView _ => option NodeViewDTO
  | Mkdir | Touch | Chmod | Append _ | StartKeyscan _ _ | KillKeyscan | UnlinkTemp _ | Acquire | Release => unit
  end.
#[export] Instance kh_signature : Signature := {| call := kh_call; answer := kh_answer |}.

Definition fetch_error {A} (msg : pystr) : prog A := lift (raise HostKeyFetchError msg).

Section manager.
Context `{Unicode}.
(** [exc.errno]. *)
Context (errno : exn -> option Z).
(** [settings.SSH_KNOWN_HOSTS_PATH] and [SSH_KNOWN_HOSTS_AUTO_ADD]. *)
Context (path : pystr) (_auto_add : bool).

Definition ensure_directory : prog unit :=
  try_except (perform Mkdir)
    (on_class OSError (fun exc => fetch_error (#"Cannot create known_hosts directory: " ++ exn_msg exc)));;
  exists_ ← perform Exists;
  if exists_ : bool then try_except (perform Chmod) (on_class OSError (fun _ => mret tt))
  else try_except (perform Touch;; perform Chmod)
         (on_class OSError (fun exc => fetch_error (#"Cannot create known_hosts file: " ++ exn_msg exc))).

Definition _host_key (host : pystr) (port : Z) : pystr :=
  if (port =? 22)%Z then host else #"[" ++ host ++ #"]:" ++ str_Z port.

(** [None]: there is no [ssh-keygen], or it could not be asked. *)
Definition keygen_find (key : pystr) : prog (option bool) :=
  available ← perform (Which #"ssh-keygen");
  if available : bool then
    try_except (returncode ← perform (KeygenFind key); mret (Some (returncode =? 0)%Z))
      (on_class OSError (fun _ => mret None))
  else mret None.

Definition _is_present (host : pystr) (port : Z) : prog bool :=
  is_file ← perform IsFile;
  if is_file : bool then
    found ← keygen_find (_host_key host port);
    match found with
    | Some present => mret present
    | None =>
        try_except (text ← perform ReadText; mret (contains text (_host_key host port)))
          (on_class OSError (fun _ => mret false))
    end
  else mret false.

Definition at_host (host : pystr) (port : Z) : pystr := host ++ #":" ++ str_Z port.

(** The text [ssh-keyscan] answers. *)
Definition scan (host : pystr) (port : Z) : prog pystr :=
  perform (StartKeyscan host port);;
  '(returncode, stdout, stderr) ← (try_except (perform (Communicate host port))
    (on_class TimeoutError (fun _ =>
       perform KillKeyscan;;
       fetch_error (#"ssh-keyscan timeout for " ++ at_host host port))) : prog (Z * bytes * bytes));
  if negb (returncode =? 0)%Z || match stdout with [] => true | _ => false end then
    let raw := strip (decode_ignore stderr) in
    let msg := match raw with [] => #"no host keys received" | _ => raw end in
    fetch_error (#"Cannot fetch host key for " ++ at_host host port ++ #": " ++ take 200 msg)
  else mret (decode_ignore stdout).

Definition key_lines (text : pystr) : list pystr :=
  List.filter (fun ln => match strip ln with [] => false | _ => negb (startswith ln #"#") end) (splitlines text).

(** [ssh-keygen -l] on a temporary copy. *)
Definition validate_keys (host : pystr) (port : Z) (text : pystr) : prog unit :=
  tmp_path ← perform (WriteTemp text);
  finally
    ('(returncode, verr) ← (perform (KeygenList tmp_path) : prog (Z * bytes));
     if negb (returncode =? 0)%Z then
       let vmsg := strip (decode_ignore verr) in
       let msg := match vmsg with [] => #"invalid host key" | _ => vmsg end in
       fetch_error (#"Fetched host key invalid for " ++ at_host host port ++ #": " ++ take 200 msg)
     else mret tt)
    (perform (UnlinkTemp tmp_path)).

Definition with_newline (text : pystr) : pystr := if endswith text [10%N] then text else text ++ [10%N].
Definition append_keys (text : pystr) : prog unit :=
  try_except (perform (Append (with_newline text));; perform Chmod)
    (on_class OSError (fun exc =>
       if contains (exn_msg exc) #"Read-only" || bool_decide (errno exc = Some 30%Z)
       then fetch_error (#"known_hosts is read-only (" ++ path ++ #"); mount it writable or use emptyDir for auto-add")
       else fetch_error (#"Cannot write known_hosts: " ++ exn_msg exc))).

Definition fetch_locked (host : pystr) (port : Z) : prog bool :=
  text ← scan host port;
  match key_lines text with
  | [] => fetch_error (#"No host keys received for " ++ at_host host port)
  | _ =>
      available ← perform (Which #"ssh-keygen");
      (if available : bool then validate_keys host port text else mret tt);;
      append_keys text;;
      mret true
  end.

Definition _fetch_and_append (host : pystr) (port : Z) (force : bool) : prog bool :=
  available ← perform (Which #"ssh-keyscan");
  if available : bool then
    perform Acquire;;
    finally
      (present ← (if force then mret false else _is_present host port);
       if present : bool then mret false
       else try_except (fetch_locked host port)
              (on_class OSError (fun exc =>
                 fetch_error (#"ssh-keyscan failed for " ++ at_host host port ++ #": " ++ exn_msg exc))))
      (perform Release)
  else fetch_error #"ssh-keyscan is not available in the runtime image".

Definition ensure_host (host : pystr) (port : Z) : prog bool :=
  if _auto_add then
    ensure_directory;;
    present ← _is_present host port;
    if present : bool then mret false else _fetch_and_append host port false
  else mret false.

Definition remove_old (key : pystr) : prog unit :=
  available ← perform (Which #"ssh-keygen");
  is_file ← (if available : bool then perform IsFile else mret false);
  if is_file : bool
  then try_except (perform (KeygenRemove key);; mret tt) (on_class OSError (fun _ => mret tt))
  else mret tt.

Definition refresh_host (host : pystr) (port : Z) : prog bool :=
  ensure_directory;;
  remove_old (_host_key host port);;
  _fetch_and_append host port true.

(** ** [NodeHostKeyService] *)

Definition refresh_host_key (node_id : uuid) : prog NodeViewDTO :=
  node ← perform (GetNodeView node_id);
  match node with
  | None => lift (raise NodeNotFoundError (#"Node " ++ uuid_str node_id ++ #" not found"))
  | Some node =>
      let host := ep_host (nv_endpoint node) in
      let port := ep_port (nv_endpoint node) in
      try_except (ignore (refresh_host host port)) (fun exc =>
        if isinstance (exn_type exc) HostKeyFetchError then None
        else on_exception (fun exc =>
               fetch_error (#"Failed to refresh host key for " ++ at_host host port ++ #": " ++ exn_msg exc)) exc);;
      mret node
  end.
End manager.
