(* ===== verification/Threads.v ===== *)
(** * Tasks that share a state and a lock

    Any number of call trees run one call at a time, in any order; some of them wait for one
    [asyncio.Lock].  [ewp] is a rely-guarantee logic for one of them: [env held] is what the
    others may do to the state while this task holds the lock or does not; [ewp_sound]: tasks
    that are each verified alone satisfy their specifications in every interleaving. *)
From S2P Require Import Prelude PyStr Errors Effects Stateful.

Section threads.
Context `{Signature} {W : Type} (handles : handler (W:=W)).
(** The calls that take and give back the lock. *)
Context (takes gives : call -> bool).

Definition threads A : Type := W * option nat * list (prog A).

(** One call of one task; a task that asks for the lock waits until nobody holds it. *)
Inductive task_step {A} : threads A -> threads A -> Prop :=
| task_call i c k a w w' l ps :
    ps !! i = Some (Do c k) -> takes c = false -> gives c = false -> handles c w a w' ->
    task_step (w, l, ps) (w', l, <[i := k a]> ps)
| task_take i c k a w w' ps :
    ps !! i = Some (Do c k) -> takes c = true -> handles c w a w' ->
    task_step (w, None, ps) (w', Some i, <[i := k a]> ps)
| task_give i c k a w w' ps :
    ps !! i = Some (Do c k) -> takes c = false -> gives c = true -> handles c w a w' ->
    task_step (w, Some i, ps) (w', None, <[i := k a]> ps).

(** The run of a schedule, the names of the tasks in the order of their calls. *)
Context (reply : forall c : call, W -> res (answer c)) (after : call -> W -> W).
Definition task_run {A} (i : nat) (s : threads A) : option (threads A) :=
  let '(w, l, ps) := s in
  match ps !! i with
  | Some (Do c k) =>
      let next l' := Some (after c w, l', <[i := k (reply c w)]> ps) in
      if takes c then (if l is None then next (Some i) else None)
      else if gives c then (if bool_decide (l = Some i) then next None else None)
      else next l
  | _ => None
  end.
Fixpoint run_schedule {A} (sched : list nat) (s : threads A) : option (threads A) :=
  match sched with
  | [] => Some s
  | i :: sched => match task_run i s with Some s' => run_schedule sched s' | None => None end
  end.
Lemma run_schedule_steps {A} sched (s s' : threads A) :
  (forall c w, handles c w (reply c w) (after c w)) -> run_schedule sched s = Some s' -> rtc task_step s s'.
Proof.
  intros Hr. revert s. induction sched as [|i sched IH]; cbn; intros s; [by intros [= ->]; constructor|].
  destruct (task_run i s) as [s1|] eqn:E; [|done]. intros H1. econstructor; [|by apply IH].
  destruct s as [[w l] ps]. unfold task_run in E. destruct (ps !! i) as [[|c k]|] eqn:Hi; [done| |done].
  destruct (takes c) eqn:Ht; [destruct l; [done|]; injection E as <-; by eapply task_take|].
  destruct (gives c) eqn:Hg; [|injection E as <-; by eapply task_call].
  case_bool_decide as Hl; [|done]. injection E as <-. subst l. by eapply task_give.
Qed.

Context (env : bool -> W -> W -> Prop) `{!PreOrder (env true), !PreOrder (env false)}.
#[local] Instance env_preorder held : PreOrder (env held).
Proof. by destruct held. Qed.

Fixpoint ewp {A} (p : prog A) (held : bool) (w : W) (Q : res A -> bool -> W -> Prop) : Prop :=
  match p with
  | Done r => forall w1, env held w w1 -> Q r held w1
  | Do c k => forall w1 a w2, env held w w1 -> handles c w1 a w2 ->
      env false w1 w2
      /\ (takes c = true -> held = false) /\ (takes c = false -> gives c = true -> held = true)
      /\ (held = false -> takes c = false -> env true w1 w2)
      /\ ewp (k a) (if takes c then true else if gives c then false else held) w2 Q
  end.

Lemma ewp_env {A} (p : prog A) held w w' Q : ewp p held w Q -> env held w w' -> ewp p held w' Q.
Proof.
  intros Hp He. destruct p as [r|c k]; cbn in *.
  - intros w1 H1. apply Hp. by transitivity w'.
  - intros w1 a w2 H1. apply Hp. by transitivity w'.
Qed.

Lemma ewp_mono {A} (p : prog A) held w (Q Q' : res A -> bool -> W -> Prop) :
  ewp p held w Q -> (forall r h w', Q r h w' -> Q' r h w') -> ewp p held w Q'.
Proof.
  intros Hp HQ. revert held w Hp. induction p as [r|c k IH]; cbn; intros held w Hp; [auto|].
  intros w1 a w2 H1 H2. destruct (Hp w1 a w2 H1 H2) as (?&?&?&?&Hk). split_and!; auto.
Qed.

Lemma ewp_bind {A B} (p : prog A) (f : A -> prog B) held w Q :
  ewp p held w (fun r h w' => match r with Ok a => ewp (f a) h w' Q | Raise e => Q (Raise e) h w' end) ->
  ewp (p ≫= f) held w Q.
Proof.
  unfold mbind, prog_bind. revert held w. induction p as [[a|e]|c k IH]; cbn; intros held w Hp.
  - apply Hp. reflexivity.
  - exact Hp.
  - intros w1 a w2 H1 H2. destruct (Hp w1 a w2 H1 H2) as (?&?&?&?&Hk). split_and!; auto.
Qed.

Lemma ewp_try {A} (p : prog A) h held w Q :
  ewp p held w (fun r hd w' =>
    match r with
    | Ok a => Q (Ok a) hd w'
    | Raise e => match h e with Some q => ewp q hd w' Q | None => Q (Raise e) hd w' end
    end) ->
  ewp (try_except p h) held w Q.
Proof.
  revert held w. induction p as [[a|e]|c k IH]; cbn; intros held w Hp.
  - exact Hp.
  - destruct (h e) as [q|]; [|exact Hp]. apply Hp. reflexivity.
  - intros w1 a w2 H1 H2. destruct (Hp w1 a w2 H1 H2) as (?&?&?&?&Hk). split_and!; auto.
Qed.

Lemma ewp_stable {A} (p : prog A) held w Q :
  ewp p held w Q -> ewp p held w (fun r h w' => forall w1, env h w' w1 -> Q r h w1).
Proof.
  revert held w. induction p as [r|c k IH]; cbn; intros held w Hp.
  - intros w1 H1 w2 H2. apply Hp. by transitivity w1.
  - intros w1 a w2 H1 H2. destruct (Hp w1 a w2 H1 H2) as (?&?&?&?&Hk). split_and!; auto.
Qed.

Lemma ewp_outcome {A} (p : prog A) held w (Q : res (res A) -> bool -> W -> Prop) :
  ewp p held w (fun r h w' => Q (Ok r) h w') -> ewp (outcome_of p) held w Q.
Proof. intros Hp%ewp_stable. apply ewp_try, ewp_bind. eapply ewp_mono; [exact Hp|].
  intros [a|e] h w' HQ; cbn; [exact HQ|]. exact HQ. Qed.

Lemma ewp_finally {A} (p : prog A) cleanup held w Q :
  ewp p held w (fun r h1 w1 => ewp cleanup h1 w1 (fun rc h2 w2 =>
    match rc with Ok _ => Q r h2 w2 | Raise e => Q (Raise e) h2 w2 end)) ->
  ewp (finally p cleanup) held w Q.
Proof.
  intros Hp. apply ewp_bind, ewp_outcome. eapply ewp_mono; [exact Hp|]. cbn beta iota. intros r h1 w1 Hc%ewp_stable.
  apply ewp_bind. eapply ewp_mono; [exact Hc|]. intros [[]|e] h2 w2 HQ; [exact HQ|]. apply HQ. reflexivity.
Qed.

Lemma ewp_lift {A} (r : res A) held w (Q : res A -> bool -> W -> Prop) :
  (forall w1, env held w w1 -> Q r held w1) -> ewp (lift r) held w Q.
Proof. done. Qed.

Lemma ewp_perform c held w Q :
  (forall w1 a w2, env held w w1 -> handles c w1 a w2 ->
     env false w1 w2 /\ (held = false -> env true w1 w2)
     /\ (forall w3, env held w2 w3 -> Q a held w3)) ->
  takes c = false -> gives c = false -> ewp (perform c) held w Q.
Proof.
  intros Hc Ht Hg. cbn. rewrite Ht, Hg. intros w1 a w2 H1 H2. destruct (Hc w1 a w2 H1 H2) as (?&?&?).
  split_and!; auto; discriminate.
Qed.

(** Taking the lock and giving it back. *)
Lemma ewp_take c w Q :
  takes c = true ->
  (forall w1 a w2, env false w w1 -> handles c w1 a w2 ->
     env false w1 w2 /\ forall w3, env true w2 w3 -> Q a true w3) ->
  ewp (perform c) false w Q.
Proof.
  intros Ht Hc. cbn. rewrite Ht. intros w1 a w2 H1 H2. destruct (Hc w1 a w2 H1 H2). by split_and!.
Qed.
Lemma ewp_give c w Q :
  takes c = false -> gives c = true ->
  (forall w1 a w2, env true w w1 -> handles c w1 a w2 ->
     env false w1 w2 /\ forall w3, env false w2 w3 -> Q a false w3) ->
  ewp (perform c) true w Q.
Proof.
  intros Ht Hg Hc. cbn. rewrite Ht, Hg. intros w1 a w2 H1 H2. destruct (Hc w1 a w2 H1 H2). by split_and!.
Qed.

(** Every task is verified, and only the holder of the lock as holding it. *)
Definition verified {A} (Q : nat -> res A -> bool -> W -> Prop) (s : threads A) : Prop :=
  let '(w, l, ps) := s in forall i p, ps !! i = Some p -> ewp p (bool_decide (l = Some i)) w (Q i).

Lemma lookup_update {A} (ps : list (prog A)) i j p q :
  <[i := q]> ps !! j = Some p -> (i = j /\ p = q) \/ (i <> j /\ ps !! j = Some p).
Proof.
  destruct (decide (i = j)) as [->|Hne].
  - destruct (decide (j < length ps)) as [Hlt|Hge].
    + rewrite list_lookup_insert_eq by done. intros [= ->]. by left.
    + rewrite list_insert_ge by lia. intros Hj%lookup_lt_Some. lia.
  - rewrite list_lookup_insert_ne by done. by right.
Qed.

Lemma verified_step {A} (Q : nat -> res A -> bool -> W -> Prop) s s' :
  verified Q s -> task_step s s' -> verified Q s'.
Proof.
  intros Hv Hs. destruct Hs as [i c k a w w' l ps Hi Ht Hg Ha|i c k a w w' ps Hi Ht Ha|i c k a w w' ps Hi Ht Hg Ha];
    cbn in Hv |- *; pose proof (Hv i _ Hi) as Hp; cbn in Hp;
    destruct (Hp w a w' ltac:(reflexivity) Ha) as (He & Htake & Hgive & Ht' & Hk);
    intros j p [[<- ->]|[Hne Hj]]%lookup_update.
  - by rewrite Ht, Hg in Hk.
  - pose proof (Hv j p Hj) as Hq. eapply ewp_env; [exact Hq|].
    case_bool_decide as Hlj; [|exact He]. apply Ht'; [|done]. apply bool_decide_eq_false. congruence.
  - rewrite Ht in Hk. by rewrite bool_decide_eq_true_2.
  - pose proof (Hv j p Hj) as Hq. rewrite bool_decide_eq_false_2 in Hq by done.
    rewrite bool_decide_eq_false_2 by congruence. by eapply ewp_env.
  - rewrite Ht, Hg in Hk. by rewrite bool_decide_eq_false_2.
  - pose proof (Hv j p Hj) as Hq. rewrite bool_decide_eq_false_2 in Hq by congruence.
    rewrite bool_decide_eq_false_2 by done. by eapply ewp_env.
Qed.

(** Tasks verified alone are right together. *)
Lemma ewp_sound {A} (Q : nat -> res A -> bool -> W -> Prop) w (ps : list (prog A)) w' l ps' :
  (forall i p, ps !! i = Some p -> ewp p false w (Q i)) ->
  rtc task_step (w, None, ps) (w', l, ps') ->
  forall i r, ps' !! i = Some (Done r) -> Q i r (bool_decide (l = Some i)) w'.
Proof.
  intros Hps Hr. assert (verified Q (w', l, ps')) as Hv.
  { assert (verified Q (w, None, ps)) as Hstart by exact Hps. clear Hps. revert Hr Hstart.
    generalize (w, @None nat, ps). generalize (w', l, ps'). intros s' s Hr.
    induction Hr as [|s1 s2 s3 Hs _ IH]; [done|]. intros Hv1. apply IH. by eapply verified_step. }
  intros i r Hi. apply (Hv i _ Hi). reflexivity.
Qed.

(** What every call of every task preserves. *)
Lemma verified_invariant {A} (Q : nat -> res A -> bool -> W -> Prop) w (ps : list (prog A)) w' l ps' :
  (forall i p, ps !! i = Some p -> ewp p false w (Q i)) ->
  rtc task_step (w, None, ps) (w', l, ps') -> env false w w'.
Proof.
  intros Hps Hr. assert (forall s s', rtc task_step s s' -> verified Q s -> env false s.1.1 s'.1.1) as Hall.
  { intros s s' Hx. induction Hx as [|s1 s2 s3 Hs _ IH]; intros Hv; [reflexivity|].
    transitivity s2.1.1; [|apply IH; by eapply verified_step].
    destruct Hs as [i c k a v v' l0 qs Hi Ht Hg Ha|i c k a v v' qs Hi Ht Ha|i c k a v v' qs Hi Ht Hg Ha];
      cbn; pose proof (Hv i _ Hi) as Hp; cbn in Hp; exact (proj1 (Hp v a v' ltac:(reflexivity) Ha)). }
  exact (Hall _ _ Hr Hps).
Qed.
End threads.

(** ** [gather] over a state

    What every call of every worker preserves, of the state and of what the workers have left
    to do, holds of the state and the results at the end. *)
Lemma exec_inv `{Signature} {W A : Type} (handles : handler (W:=W)) (p : prog A) w r w' :
  exec handles p w r w' ->
  match p with
  | Done r0 => r0 = r /\ w = w'
  | Do c k => exists a w1, handles c w a w1 /\ exec handles (k a) w1 r w'
  end.
Proof. destruct 1 as [r w|c k w a w1 r w2 Ha Hk]; [done|]. by exists a, w1. Qed.

Lemma exec_bind_inv `{Signature} {W A B : Type} (handles : handler (W:=W)) (p : prog A) (f : A -> prog B) w r w' :
  exec handles (p ≫= f) w r w' ->
  exists rp w1, exec handles p w rp w1
    /\ match rp with Ok a => exec handles (f a) w1 r w' | Raise e => r = Raise e /\ w1 = w' end.
Proof.
  unfold mbind, prog_bind. revert w. induction p as [[a|e]|c k IHp]; cbn; intros w Hx.
  - exists (Ok a), w. split; [constructor|done].
  - apply exec_inv in Hx as [<- <-]. exists (Raise e), w. split; [constructor|done].
  - apply exec_inv in Hx as (a & w1 & Ha & Hk). destruct (IHp a w1 Hk) as (rp & w2 & Hp & Hr).
    exists rp, w2. split; [by econstructor|done].
Qed.

Section gathered.
Context `{Signature} {W A : Type} (handles : handler (W:=W)) (I : W -> list (prog A) -> Prop).
Hypothesis (I_step : forall w ps i c k a w',
  I w ps -> ps !! i = Some (Do c k) -> handles c w a w' -> I w' (<[i := k a]> ps)).

Lemma exec_finish_all (done : list (res A)) ps f w (r : res (list (res A))) w' :
  I w ((Done <$> done) ++ ps) ->
  (forall rs w1, I w1 (Done <$> (done ++ rs)) -> exec handles (f rs) w1 r w' -> exists l, r = Ok l /\ I w' (Done <$> l)) ->
  exec handles (finish_all ps f) w r w' -> exists l, r = Ok l /\ I w' (Done <$> l).
Proof.
  revert done f w. induction ps as [|p ps IH]; intros done f w HI Hf Hx; cbn [finish_all] in Hx.
  - apply (Hf [] w); [|exact Hx]. by rewrite !app_nil_r in *.
  - revert w HI Hx. induction p as [r1|c k IHp]; intros w HI Hx.
    + apply (IH (done ++ [r1]) (fun rs => f (r1 :: rs)) w); [by rewrite fmap_app, <- app_assoc| |exact Hx].
      intros rs w1 HI1. rewrite <- app_assoc in HI1. by apply Hf.
    + apply exec_inv in Hx as (a & w1 & Ha & Hk).
      apply (IHp a w1); [|exact Hk].
      pose proof (I_step w _ (length done) c k a w1 HI) as Hs. rewrite lookup_app_r in Hs by by rewrite length_fmap.
      rewrite length_fmap, Nat.sub_diag in Hs. specialize (Hs eq_refl Ha).
      rewrite insert_app_r_alt in Hs by by rewrite length_fmap.
      rewrite length_fmap, Nat.sub_diag in Hs. exact Hs.
Qed.

Lemma exec_interleave sched ps w (r : res (list (res A))) w' :
  I w ps -> exec handles (interleave sched ps) w r w' -> exists l, r = Ok l /\ I w' (Done <$> l).
Proof.
  revert ps w. induction sched as [|i sched IH]; intros ps w HI Hx; cbn [interleave] in Hx.
  - apply (exec_finish_all [] ps (fun rs => Done (Ok rs)) w r w' HI); [|exact Hx].
    intros rs w1 HI1 [<- <-]%exec_inv. by exists rs.
  - destruct (ps !! i) as [p|] eqn:Hi; [|by eapply IH]. destruct p as [r1|c k]; cbn [step] in Hx.
    + apply (IH ps w HI). by rewrite list_insert_id in Hx.
    + apply exec_inv in Hx as (a & w1 & Ha & Hk). eapply IH; [|exact Hk]. by eapply I_step.
Qed.

(** The results, when no worker raises. *)
Lemma exec_gather sched ps w (r : res (list A)) w' :
  I w ps -> exec handles (gather sched ps) w r w' ->
  exists l, r = first_error l /\ I w' (Done <$> l).
Proof.
  intros HI Hx. change (gather sched ps) with (interleave sched ps ≫= fun rs => Done (first_error rs)) in Hx.
  apply exec_bind_inv in Hx as (rp & w1 & Hp & Hr). destruct (exec_interleave _ _ _ _ _ HI Hp) as (l & -> & Hl).
  apply exec_inv in Hr as [<- <-]. by exists l.
Qed.
End gathered.
