(* ===== verification/KnownHostsSpec.v ===== *)
(** * What the manager of known hosts promises

    The file after one operation, whatever fails; and after any number of concurrent requests
    for the same host. *)
From S2P Require Import Prelude PyStr Errors Json Bytes Effects Dto Output Commands Stateful Threads KnownHosts.

(** ** The file and the programs that read it *)

Record kh_world := {
  kf_text : option pystr;       (* the file, if it exists *)
  kf_added : list pystr;        (* what was appended so far *)
  kf_scans : list pystr }.      (* what [ssh-keyscan] answered, when it succeeded *)
Definition text_of (w : kh_world) : pystr := default [] (kf_text w).
Definition same_file (w w' : kh_world) : Prop := text_of w' = text_of w /\ kf_added w' = kf_added w.

(** Only input and output may fail, with an [OSError] (a [TimeoutError] is one). *)
Definition io_only {A} (a : res A) : Prop := forall e, a = Raise e -> isinstance (exn_type e) OSError = true.

Section programs.
(** [ssh-keygen -R]: the text without the entries of a key. *)
Context (without_key : pystr -> pystr -> pystr).

Definition kh_effect (c : kh_call) : kh_world -> res (kh_answer c) -> kh_world -> Prop :=
  match c with
  | Exists | IsFile => fun w a w' => a = Ok (bool_decide (is_Some (kf_text w))) /\ w' = w
  | Which _ => fun w a w' => (exists available, a = Ok available) /\ w' = w
  | Acquire | Release => fun w a w' => a = Ok tt /\ w' = w
  | Touch => fun w _ w' => w' = w \/ (kf_text w = None /\ w' = Build_kh_world (Some []) (kf_added w) (kf_scans w))
  | Append data => fun w a w' =>
      match a with
      | Ok _ => w' = Build_kh_world (Some (text_of w ++ data)) (kf_added w ++ [data]) (kf_scans w)
      | Raise _ => w' = w \/ exists n, w' = Build_kh_world (Some (text_of w ++ take n data)) (kf_added w) (kf_scans w)
      end
  | KeygenRemove key => fun w _ w' =>
      w' = w \/ w' = Build_kh_world (Some (without_key key (text_of w))) (kf_added w) (kf_scans w)
  | Communicate _ _ => fun w a w' =>
      w' = match a with
           | Ok (0%Z, stdout, _) => Build_kh_world (kf_text w) (kf_added w) (kf_scans w ++ [decode_ignore stdout])
           | _ => w
           end
  | _ => fun w _ w' => w' = w
  end.
Definition kh_handles : handler (W:=kh_world) := fun c w a w' => io_only a /\ kh_effect c w a w'.

Lemma swp_kh c w (Q : res (kh_answer c) -> kh_world -> Prop) :
  (forall a w', io_only a -> kh_effect c w a w' -> Q a w') -> swp kh_handles (perform c) w Q.
Proof. intros HQ a w' [Hio Hw]. by apply HQ. Qed.

Ltac kh_step :=
  lazymatch goal with
  | |- swp _ (finally _ _) _ _ => apply swp_finally
  | |- swp _ (outcome_of _) _ _ => apply swp_outcome
  | |- swp _ (perform _) _ _ =>
      let a := fresh "a" in let w := fresh "w" in let Hio := fresh "Hio" in let Hw := fresh "Hw" in
      apply swp_kh; intros a w Hio Hw; cbn [kh_effect] in Hw;
      try (lazymatch type of Hw with
           | (exists _, _) /\ _ => destruct Hw as [[? ->] ->]
           | _ = Ok _ /\ _ => destruct Hw as [-> ->]
           end)
  | |- swp _ (if ?x then _ else _) _ _ => destruct x eqn:?
  | |- swp _ (fetch_error _) _ _ => unfold fetch_error; apply swp_lift
  | |- _ => swp_step
  end.

Ltac caught :=
  unfold on_class; lazymatch goal with
  | Hio : io_only (Raise ?e) |- context [isinstance (exn_type ?e) OSError] => rewrite (Hio e eq_refl)
  end.

(** The exception is one of input or output. *)
Ltac io_fault :=
  lazymatch goal with
  | Hio : io_only (Raise ?e) |- isinstance (exn_type ?e) OSError = true => exact (Hio e eq_refl)
  end.

Section manager.
Context `{Unicode} (errno : exn -> option Z) (path : pystr).

Definition fetch_failed (e : exn) : Prop := exn_type e = HostKeyFetchError.
(** What the body of the outer [try] raises. *)
Definition fetch_or_io (e : exn) : Prop := fetch_failed e \/ isinstance (exn_type e) OSError = true.
Definition only {A} (P : exn -> Prop) (r : res A) : Prop := match r with Ok _ => True | Raise e => P e end.

(** The file as before; scans are only added. *)
Definition quiet (w w' : kh_world) : Prop := same_file w w' /\ kf_scans w ⊆ kf_scans w'.
#[local] Instance quiet_preorder : PreOrder quiet.
Proof.
  split; [by split|]. intros w1 w2 w3 [[Ht1 Ha1] Hs1] [[Ht2 Ha2] Hs2].
  split; [split; congruence|by transitivity (kf_scans w2)].
Qed.

Lemma swp_ensure_directory w :
  swp kh_handles ensure_directory w (fun r w' => quiet w w' /\ only fetch_failed r).
Proof.
  unfold ensure_directory. kh_step. kh_step. kh_step. subst. destruct a as [[]|e].
  2:{ caught. by kh_step. }
  kh_step. kh_step. kh_step.
  - kh_step. kh_step. subst. destruct a as [[]|e]; [done|]. caught. by kh_step.
  - kh_step. kh_step. kh_step. assert (quiet w w0) as Hq.
    { destruct Hw as [->|[Hn ->]]; [done|]. repeat split; try done. unfold text_of. by rewrite Hn. }
    destruct a as [[]|e]; [|caught; by kh_step].
    kh_step. subst. destruct a as [[]|e]; [done|]. caught. by kh_step.
Qed.

Lemma swp_keygen_find key w : swp kh_handles (keygen_find key) w (fun r w' => w' = w /\ exists found, r = Ok found).
Proof.
  unfold keygen_find. kh_step. kh_step. kh_step; [|kh_step; by eauto]. kh_step. kh_step. kh_step. subst.
  destruct a as [rc|e]; [kh_step; by eauto|]. caught. kh_step. by eauto.
Qed.

Lemma swp_is_present host port w :
  swp kh_handles (_is_present host port) w (fun r w' => w' = w /\ exists present, r = Ok present).
Proof.
  unfold _is_present. kh_step. kh_step. kh_step; [|kh_step; by eauto]. kh_step.
  eapply swp_mono; [apply swp_keygen_find|]. intros ? ? [-> [[present|] ->]]; [kh_step; by eauto|].
  kh_step. kh_step. kh_step. subst. destruct a as [text|e]; [kh_step; by eauto|].
  caught. kh_step. by eauto.
Qed.

(** What was scanned is what is returned. *)
Lemma swp_scan host port w :
  swp kh_handles (scan host port) w (fun r w' =>
    quiet w w' /\ match r with Ok text => text ∈ kf_scans w' | Raise e => fetch_or_io e end).
Proof.
  unfold scan. kh_step. kh_step. subst. destruct a as [[]|e]; [|split; [done|right; io_fault]].
  kh_step. kh_step. kh_step. destruct a as [[[rc stdout] stderr]|e].
  - cbn beta iota. destruct (negb (rc =? 0)%Z || _) eqn:E.
    + kh_step. subst. split; [|by left]. destruct rc; try done. split; [done|]. cbn. set_solver.
    + apply orb_false_iff in E as [E _]. apply negb_false_iff, Z.eqb_eq in E as ->. kh_step. subst.
      split; [split; [done|cbn; set_solver]|cbn; set_solver].
  - subst. unfold on_class. destruct (isinstance (exn_type e) TimeoutError); [|split; [done|right; io_fault]].
    kh_step. kh_step. subst. destruct a as [[]|e']; [kh_step; split; [done|by left]|split; [done|right; io_fault]].
Qed.

Lemma swp_validate_keys host port text w :
  swp kh_handles (validate_keys host port text) w (fun r w' => w' = w /\ only fetch_or_io r).
Proof.
  unfold validate_keys. kh_step. kh_step. subst. destruct a as [tmp|e]; [|split; [done|right; io_fault]].
  kh_step. eapply (swp_mono _ _ _ (fun r w' => w' = w /\ only fetch_or_io r)).
  - kh_step. kh_step. subst. destruct a as [[rc verr]|e]; [|split; [done|right; io_fault]].
    kh_step; kh_step; split; try done. by left.
  - intros r w' [-> Hr]. kh_step. subst. destruct a as [[]|e]; [done|]. split; [done|right; io_fault].
Qed.

(** The outcome of a request: nothing, or the keys that were scanned at the end of the file; a
    failure may leave a part of them. *)
Definition appended (base : pystr) (r : res bool) (w' : kh_world) : Prop :=
  match r with
  | Ok false => text_of w' = base
  | Ok true => exists text, text ∈ kf_scans w' /\ key_lines text <> [] /\ text_of w' = base ++ with_newline text
  | Raise e => fetch_failed e /\ exists text n, text_of w' = base ++ take n (with_newline text)
  end.

(** After the attempt to append [text] to the file of [w]. *)
Definition after_append (text : pystr) (w : kh_world) (r : res unit) (w' : kh_world) : Prop :=
  kf_scans w' = kf_scans w
  /\ match r with
     | Ok _ => text_of w' = text_of w ++ with_newline text
     | Raise e => fetch_failed e /\ exists n, text_of w' = text_of w ++ take n (with_newline text)
     end.

Lemma swp_append_failed text w w1 e n :
  isinstance (exn_type e) OSError = true -> kf_scans w1 = kf_scans w ->
  text_of w1 = text_of w ++ take n (with_newline text) ->
  match on_class OSError (fun exc =>
       if contains (exn_msg exc) #"Read-only" || bool_decide (errno exc = Some 30%Z)
       then fetch_error (#"known_hosts is read-only (" ++ path ++ #"); mount it writable or use emptyDir for auto-add")
       else fetch_error (#"Cannot write known_hosts: " ++ exn_msg exc)) e with
  | Some q => swp kh_handles q w1 (after_append text w)
  | None => after_append text w (Raise e) w1
  end.
Proof. intros He Hs Hn. unfold on_class. rewrite He. destruct (_ || _); kh_step; (split; [done|]); split; eauto; done. Qed.

Lemma swp_append_keys text w : swp kh_handles (append_keys errno path text) w (after_append text w).
Proof.
  unfold append_keys. kh_step. kh_step. kh_step. destruct a as [[]|e].
  - kh_step. subst. destruct a as [[]|e]; [done|].
    apply (swp_append_failed _ _ _ _ (length (with_newline text))); [io_fault|done|by rewrite firstn_all].
  - assert (exists n, kf_scans w0 = kf_scans w /\ text_of w0 = text_of w ++ take n (with_newline text)) as (n & Hs & Hn).
    { destruct Hw as [->|[n ->]]; [exists 0; by rewrite take_0, app_nil_r|by exists n]. }
    apply (swp_append_failed _ _ _ _ n); [io_fault|done|done].
Qed.

Lemma swp_fetch_and_append host port force w :
  swp kh_handles (_fetch_and_append errno path host port force) w (appended (text_of w)).
Proof.
  assert (forall w2 e, text_of w2 = text_of w -> fetch_failed e -> appended (text_of w) (Raise e) w2) as Hnone
    by (intros w2 e Hw2 He; split; [done|]; exists [], 0; by rewrite take_0, app_nil_r).
  unfold _fetch_and_append. kh_step. kh_step. kh_step; [|kh_step; by apply Hnone]. kh_step. kh_step.
  kh_step. eapply (swp_mono _ _ _ (appended (text_of w))); [|intros r w' Hr; kh_step; exact Hr].
  kh_step. eapply (swp_mono _ _ _ (fun r w' => w' = w /\ exists present, r = Ok present)).
  { destruct force; [kh_step; by eauto|apply swp_is_present]. }
  intros ? ? [-> [present ->]]. kh_step; [by kh_step|]. kh_step. unfold fetch_locked. kh_step.
  eapply swp_mono; [apply swp_scan|]. intros r1 w1 [[[Ht Ha] Hs] Hr1].
  assert (forall w2 e, text_of w2 = text_of w -> fetch_or_io e ->
    match on_class OSError (fun exc => fetch_error (A:=bool) (#"ssh-keyscan failed for " ++ at_host host port ++ #": " ++ exn_msg exc)) e with
    | Some q => swp kh_handles q w2 (appended (text_of w))
    | None => appended (text_of w) (Raise e) w2
    end) as Hfail.
  { intros w2 e Hw2 He. unfold on_class. destruct (isinstance (exn_type e) OSError) eqn:Eo; [kh_step; by apply Hnone|].
    apply Hnone; [done|]. destruct He as [?|?]; [done|congruence]. }
  destruct r1 as [text|e]; [|by apply Hfail].
  destruct (key_lines text) eqn:Ek; [kh_step; by apply Hnone|].
  kh_step. kh_step. kh_step. eapply (swp_mono _ _ _ (fun r w' => w' = w1 /\ only fetch_or_io r)).
  { kh_step; [apply swp_validate_keys|by kh_step]. }
  intros r2 ? [-> Hr2]. destruct r2 as [[]|e]; [|by apply Hfail]. kh_step.
  eapply swp_mono; [apply swp_append_keys|]. intros r3 w3 [Hs3 Hr3]. rewrite Ht in Hr3. destruct r3 as [[]|e].
  - kh_step. exists text. split_and!; [by rewrite Hs3|by rewrite Ek|done].
  - destruct Hr3 as [He [n Hn]]. unfold on_class. rewrite He. change (isinstance HostKeyFetchError OSError) with false.
    split; [done|]. by exists text, n.
Qed.

(** In every execution, whatever fails: a request that an entry exists answers false and
    leaves the file as it was, or answers true and has added, at the end, the keys one scan
    answered; it fails only with [HostKeyFetchError], and then at most a beginning of those
    keys was added. *)
Theorem ensure_host_outcome (auto_add : bool) (host : pystr) (port : Z) (w w' : kh_world) (r : res bool) :
  exec kh_handles (ensure_host errno path auto_add host port) w r w' -> appended (text_of w) r w'.
Proof.
  intros Hx. pattern r, w'. eapply swp_exec; [|exact Hx]. unfold ensure_host. destruct auto_add; [|by kh_step].
  kh_step. eapply swp_mono; [apply swp_ensure_directory|]. intros r1 w1 [[[Ht Ha] Hs] Hr1]. rewrite <- Ht.
  destruct r1 as [[]|e]; [|split; [done|]; exists [], 0; by rewrite take_0, app_nil_r].
  kh_step. eapply swp_mono; [apply swp_is_present|]. intros ? ? [-> [present ->]].
  kh_step; [by kh_step|]. apply swp_fetch_and_append.
Qed.

Lemma swp_remove_old key w :
  swp kh_handles (remove_old key) w (fun r w' =>
    r = Ok tt /\ (text_of w' = text_of w \/ text_of w' = without_key key (text_of w))).
Proof.
  unfold remove_old. kh_step. kh_step. kh_step. eapply (swp_mono _ _ _ (fun r w' => w' = w /\ exists b, r = Ok b)).
  { kh_step; [kh_step|kh_step]; by eauto. }
  intros ? ? [-> [b ->]]. kh_step; [|kh_step; by eauto]. kh_step. kh_step. kh_step.
  assert (text_of w0 = text_of w \/ text_of w0 = without_key key (text_of w)) as Ht by (destruct Hw as [->| ->]; by eauto).
  destruct a as [rc|e]; [by kh_step|]. caught. by kh_step.
Qed.

(** Refreshing adds the keys of one scan, or fails with [HostKeyFetchError]; but the old entries
    may be gone by then. *)
Theorem refresh_host_outcome (host : pystr) (port : Z) (w w' : kh_world) (r : res bool) :
  exec kh_handles (refresh_host errno path host port) w r w' ->
  exists base, (base = text_of w \/ base = without_key (_host_key host port) (text_of w)) /\ appended base r w'.
Proof.
  intros Hx. pattern r, w'. eapply swp_exec; [|exact Hx]. unfold refresh_host. kh_step.
  eapply swp_mono; [apply swp_ensure_directory|]. intros r1 w1 [[[Ht Ha] Hs] Hr1]. rewrite <- Ht.
  destruct r1 as [[]|e]; [|exists (text_of w1); split; [by left|split; [done|]; exists [], 0; by rewrite take_0, app_nil_r]].
  kh_step. eapply swp_mono; [apply swp_remove_old|]. intros ? w2 [-> Hbase]. cbn beta iota.
  eapply swp_mono; [apply swp_fetch_and_append|]. intros r3 w3 Hr3. by exists (text_of w2).
Qed.

(** The service answers the node whose entry it refreshed; once the node is read, its only error
    is [HostKeyFetchError]. *)
Theorem refresh_host_key_outcome (node_id : uuid) (w w' : kh_world) (r : res NodeViewDTO) :
  exec kh_handles (refresh_host_key errno path node_id) w r w' ->
  match r with
  | Ok node =>
      let key := _host_key (ep_host (nv_endpoint node)) (ep_port (nv_endpoint node)) in
      exists base added, (base = text_of w \/ base = without_key key (text_of w)) /\ appended base (Ok added) w'
  | Raise e => exn_type e = NodeNotFoundError \/ fetch_or_io e
  end.
Proof.
  intros Hx. pattern r, w'. eapply swp_exec; [|exact Hx]. unfold refresh_host_key. kh_step. kh_step. subst.
  destruct a as [[node|]|e]; [|kh_step; by left|right; right; io_fault].
  kh_step. kh_step. unfold ignore. kh_step. apply exec_swp. intros r1 w1 (base & Hbase & Hr1)%refresh_host_outcome.
  destruct r1 as [added|e].
  - kh_step. kh_step. by exists base, added.
  - destruct Hr1 as [He _]. unfold fetch_failed in He. rewrite He. change (isinstance HostKeyFetchError HostKeyFetchError) with true.
    right. by left.
Qed.
End manager.
End programs.

(** *** Concrete runs *)

(** A host with the three programs, whose keys can be scanned iff [up]. *)
Definition test_kh (up : bool) (c : kh_call) : res (kh_answer c) :=
  match c as c return res (kh_answer c) with
  | Exists | IsFile | Which _ => Ok true
  | ReadText => Ok #"10.0.0.11 ssh-ed25519 AAAA"
  | WriteTemp _ => Ok #"/tmp/t"
  | KeygenFind _ => Ok 1%Z
  | KeygenRemove _ => Ok 0%Z
  | Communicate _ _ => Ok (if up then (0%Z, #"10.0.0.1 ssh-ed25519 BBBB", []) else (1%Z, [], #"no route"))
  | KeygenList _ => Ok (0%Z, [])
  | GetNodeView _ => Ok None
  | Mkdir | Touch | Chmod | Append _ | StartKeyscan _ _ | KillKeyscan | UnlinkTemp _ | Acquire | Release => Ok tt
  end.
Definition test_kh_after (without_key : pystr -> pystr -> pystr) (c : kh_call) (a : res (kh_answer c)) (w : kh_world) : kh_world :=
  match c as c return res (kh_answer c) -> kh_world with
  | Append data => fun _ => Build_kh_world (Some (text_of w ++ data)) (kf_added w ++ [data]) (kf_scans w)
  | KeygenRemove key => fun _ => Build_kh_world (Some (without_key key (text_of w))) (kf_added w) (kf_scans w)
  | Communicate _ _ => fun a =>
      match a with
      | Ok (0%Z, stdout, _) => Build_kh_world (kf_text w) (kf_added w) (kf_scans w ++ [decode_ignore stdout])
      | _ => w
      end
  | _ => fun _ => w
  end a.
Fixpoint run_kh (without_key : pystr -> pystr -> pystr) (up : bool) {A} (p : prog A) (w : kh_world) : res A * kh_world :=
  match p with
  | Done r => (r, w)
  | Do c k => run_kh without_key up (k (test_kh up c)) (test_kh_after without_key c (test_kh up c) w)
  end.

Lemma run_kh_exec without_key up {A} (p : prog A) w r w' :
  is_Some (kf_text w) -> run_kh without_key up p w = (r, w') -> exec (kh_handles without_key) p w r w'.
Proof.
  revert w. induction p as [r0|c k IH]; cbn [run_kh]; intros w Hw; [intros [= -> ->]; constructor|].
  intros Hr. eapply exec_do; [|apply IH, Hr].
  - split; [intros e; destruct c, up; discriminate|].
    destruct c; cbn [kh_effect test_kh test_kh_after]; try rewrite bool_decide_true by done; try done; try (by left); try (by right); eauto.
  - destruct Hw as [t Ht]. destruct c; cbn [test_kh_after]; try (by eexists). destruct (test_kh up _) as [[[[] ?] ?]|]; cbn; by eexists.
Qed.

Definition old_file : kh_world := Build_kh_world (Some #"10.0.0.11 ssh-ed25519 AAAA") [] [].
Lemma ensure_host_outcome_witness :
  exec (kh_handles (fun _ t => t)) (@ensure_host ascii_only (fun _ => None) #"/k" true #"10.0.0.1" 22) old_file (Ok true)
    (Build_kh_world (Some (#"10.0.0.11 ssh-ed25519 AAAA" ++ #"10.0.0.1 ssh-ed25519 BBBB" ++ [10%N]))
       [ #"10.0.0.1 ssh-ed25519 BBBB" ++ [10%N]] [ #"10.0.0.1 ssh-ed25519 BBBB"])
  /\ (exists text, text ∈ [ #"10.0.0.1 ssh-ed25519 BBBB"] /\ @key_lines ascii_only text <> []).
Proof.
  assert (exec (kh_handles (fun _ t => t)) (@ensure_host ascii_only (fun _ => None) #"/k" true #"10.0.0.1" 22) old_file (Ok true)
    (Build_kh_world (Some (#"10.0.0.11 ssh-ed25519 AAAA" ++ #"10.0.0.1 ssh-ed25519 BBBB" ++ [10%N]))
       [ #"10.0.0.1 ssh-ed25519 BBBB" ++ [10%N]] [ #"10.0.0.1 ssh-ed25519 BBBB"])) as Hx.
  { apply (run_kh_exec _ true); [by eexists|]. vm_compute. reflexivity. }
  split; [exact Hx|]. destruct (@ensure_host_outcome (fun _ t => t) ascii_only (fun _ => None) #"/k" true #"10.0.0.1" 22 _ _ _ Hx) as (text & Hin & Hne & _).
  by exists text.
Defined.

(** Where [ssh-keygen] is missing, an entry of 10.0.0.11 counts as one of 10.0.0.1. *)
Lemma substring_counts_as_present :
  eval (fun c => match c as c return res (kh_answer c) with Which _ => Ok false | c => test_kh true c end)
    (_is_present #"10.0.0.1" 22) = Ok true.
Proof. reflexivity. Qed.

(** A refresh of a host that does not answer removes its entries all the same. *)
Lemma failed_refresh_removes_entries :
  exec (kh_handles (fun _ _ => [])) (@refresh_host ascii_only (fun _ => None) #"/k" #"10.0.0.11" 22) old_file
    (raise HostKeyFetchError #"Cannot fetch host key for 10.0.0.11:22: no route") (Build_kh_world (Some []) [] []).
Proof. apply (run_kh_exec _ false); [by eexists|]. vm_compute. reflexivity. Qed.

(** ** Concurrent requests *)

Section concurrent.
Context `{Unicode} (errno : exn -> option Z) (path : pystr) (without_key : pystr -> pystr -> pystr).
Context (host : pystr) (port : Z).
(** Whether [ssh-keygen -F] finds an entry of the host in a text; there is none in an empty one. *)
Context (known : pystr -> bool).
Hypothesis (known_empty : known [] = false).

(** The three programs are there and do their work: [ssh-keygen -F] sees the file; what
    [ssh-keyscan] answers is, once it is in the file, found; and an append that fails has
    written nothing. *)
Definition kh_trusted : handler (W:=kh_world) := fun c w a w' =>
  kh_handles without_key c w a w'
  /\ match c as c return res (kh_answer c) -> Prop with
     | Which _ => fun a => a = Ok true
     | KeygenFind _ => fun a => exists rc, a = Ok rc /\ (rc = 0%Z <-> known (text_of w) = true)
     | Communicate _ _ => fun a => forall stdout stderr, a = Ok (0%Z, stdout, stderr) ->
         forall text, known (text ++ with_newline (decode_ignore stdout)) = true
     | Append _ => fun a => forall e, a = Raise e -> w' = w
     | _ => fun _ => True
     end a.

Definition takes_lock (c : kh_call) : bool := match c with Acquire => true | _ => false end.
Definition gives_lock (c : kh_call) : bool := match c with Release => true | _ => false end.

(** Added at most once, and then the host is known. *)
Definition once (w : kh_world) : Prop :=
  kf_added w = [] \/ (length (kf_added w) = 1 /\ known (text_of w) = true).
Definition others (held : bool) (w w' : kh_world) : Prop :=
  if held then same_file w w'
  else (once w -> once w') /\ (known (text_of w) = true -> known (text_of w') = true).

#[local] Instance others_preorder held : PreOrder (others held).
Proof.
  unfold others. destruct held; split; try by split.
  - intros w1 w2 w3 [Ht1 Ha1] [Ht2 Ha2]. split; congruence.
  - intros w1 w2 w3 [H1 H2] [H3 H4]. split; auto.
Qed.

Lemma same_others held w w' : same_file w w' -> others held w w'.
Proof. intros [Ht Ha]. unfold others. destruct held; [done|]. unfold once. by rewrite Ht, Ha. Qed.

(** A call that does not change the file. *)
Definition is_quiet (c : kh_call) : bool :=
  match c with Append _ | KeygenRemove _ | Acquire | Release => false | _ => true end.
Lemma quiet_same c w a w' : is_quiet c = true -> kh_trusted c w a w' -> same_file w w'.
Proof.
  intros Hq [[_ He] _]. destruct c; cbn in Hq, He; try done; try (by subst); 
    try (lazymatch type of He with _ /\ _ => by destruct He as [? He]; subst end).
  - destruct He as [->|[Hn ->]]; [done|]. split; [|done]. unfold text_of. by rewrite Hn.
  - destruct a as [[[[] ?] ?]|]; by subst.
Qed.

#[local] Abbreviation kewp := (ewp kh_trusted takes_lock gives_lock others).
#[local] Abbreviation kbind := (ewp_bind kh_trusted takes_lock gives_lock others).
#[local] Abbreviation ktry := (ewp_try kh_trusted takes_lock gives_lock others).
#[local] Abbreviation kperform := (ewp_perform kh_trusted takes_lock gives_lock others).
#[local] Abbreviation kfinally := (ewp_finally kh_trusted takes_lock gives_lock others).
#[local] Abbreviation ktake := (ewp_take kh_trusted takes_lock gives_lock others).
#[local] Abbreviation kgive := (ewp_give kh_trusted takes_lock gives_lock others).
#[local] Abbreviation kmono := (ewp_mono kh_trusted takes_lock gives_lock others).

Lemma ewp_quiet c held w (Q : res (kh_answer c) -> bool -> kh_world -> Prop) :
  is_quiet c = true ->
  (forall w1 a w2 w3, others held w w1 -> kh_trusted c w1 a w2 -> others held w w3 ->
     others held w2 w3 -> Q a held w3) ->
  kewp (perform c) held w Q.
Proof.
  intros Hq HQ. apply kperform; [|by destruct c|by destruct c]. intros w1 a w2 H1 H2.
  pose proof (quiet_same c w1 a w2 Hq H2) as Hs. split; [by apply same_others|]. split; [intros _; by apply same_others|].
  intros w3 H3. eapply HQ; try done. transitivity w1; [done|]. transitivity w2; [by apply same_others|done].
Qed.

(** Programs of such calls only leave everything as they found it. *)
Lemma ewp_quiet_program {A} (p : prog A) held w :
  wp p [] (fun _ c => is_quiet c = true) (fun _ _ => True) ->
  kewp p held w (fun _ h w' => h = held /\ others held w w').
Proof.
  generalize (@nil event). intros h Hp. revert h held w Hp. induction p as [r|c k IH]; intros h held w Hp; cbn in *; [done|].
  destruct Hp as [Hq Hk]. intros w1 a w2 H1 H2. pose proof (quiet_same c w1 a w2 Hq H2) as Hs.
  assert (takes_lock c = false /\ gives_lock c = false) as [-> ->] by by destruct c.
  split; [exact (same_others false _ _ Hs)|]. do 2 (split; [done|]). split; [intros _ _; exact (same_others true _ _ Hs)|].
  eapply kmono; [apply (IH a _ held w2 (Hk a))|]. intros r h' w' [-> H3]. split; [done|].
  transitivity w1; [done|]. transitivity w2; [by apply same_others|done].
Qed.

Ltac kh_walk := repeat first
  [ apply wp_bind | apply wp_try | apply wp_lift | lazymatch goal with |- wp (perform ?c) _ _ _ => cbn [wp perform]; split; [reflexivity|intros [|]] end
  | progress cbn beta iota | progress unfold finally, outcome_of, on_class, fetch_error, mret, prog_ret
  | split; [reflexivity|intros [|]] | case_match; simplify_eq | done ].

Lemma ewp_is_present held w :
  kewp (_is_present host port) held w (fun r h w' => h = held /\ others held w w' /\ exists present, r = Ok present
    /\ (present = true -> known (text_of w') = true) /\ (present = false -> held = true -> known (text_of w') = false)).
Proof.
  assert (forall w1 w2 : kh_world, others held w1 w2 -> known (text_of w1) = true -> known (text_of w2) = true) as Hkeep.
  { intros w1 w2. unfold others. destruct held; [by intros [-> _]|tauto]. }
  unfold _is_present. apply kbind, ewp_quiet; [done|]. intros w1 a w2 w3 H1 [[_ [-> ->]] _] H3 H23. cbn beta iota.
  case_bool_decide as Hfile.
  - apply kbind. unfold keygen_find. apply kbind, ewp_quiet; [done|].
    intros w4 a w5 w6 H4 [_ ->] H6 _. cbn beta iota. apply ktry, kbind, ewp_quiet; [done|].
    intros w7 a w8 w9 H7 [[_ Hw] (rc & -> & Hrc)] H9 H89. cbn [kh_effect] in Hw. subst w8. intros w10 H10. intros w11 H11.
    assert (others held w w11) as Hall by (trans w3; [done|]; trans w6; [done|]; trans w9; [done|]; by trans w10).
    split; [done|]. split; [done|]. eexists. split; [done|].
    destruct (Z.eqb_spec rc 0) as [->|Hne]; split; try done; intros _.
    + apply (Hkeep w9); [by trans w10|]. apply (Hkeep w7); [done|]. by apply Hrc.
    + intros ->. destruct H89 as [Ht1 _], H10 as [Ht2 _], H11 as [Ht3 _]. rewrite Ht3, Ht2, Ht1.
      apply not_true_iff_false. intros Hk. by apply Hne, Hrc.
  - intros w4 H4. split; [done|]. split; [by trans w3|]. eexists. split; [done|]. split; [done|]. intros _ ->.
    destruct H4 as [Ht4 _], H23 as [Ht3 _]. rewrite Ht4, Ht3. unfold text_of.
    destruct (kf_text w1); [|done]. exfalso. by apply Hfile.
Qed.

Lemma ewp_scan held w :
  kewp (scan host port) held w (fun r h w' => h = held /\ others held w w'
    /\ forall text, r = Ok text -> forall before, known (before ++ with_newline text) = true).
Proof.
  unfold scan. apply kbind, ewp_quiet; [done|]. intros w1 a w2 w3 _ _ H3 _. destruct a as [[]|e]; [|done].
  apply kbind, ktry, ewp_quiet; [done|]. intros w4 a w5 w6 _ [_ Ht] H6 _.
  assert (others held w w6) as H36 by by trans w3. destruct a as [[[rc stdout] stderr]|e].
  - destruct (negb (rc =? 0)%Z || _) eqn:E; cbn.
    + intros w7 H7. split_and!; [done|by trans w6|done].
    + apply orb_false_iff in E as [E _]. apply negb_false_iff, Z.eqb_eq in E as ->.
      intros w7 H7. split_and!; [done|by trans w6|]. intros text [= <-]. by eapply Ht.
  - unfold on_class. destruct (isinstance (exn_type e) TimeoutError); [|done].
    apply kbind, ewp_quiet; [done|]. intros w7 a w8 w9 _ _ H9 _.
    destruct a as [[]|e']; [|split_and!; [done|by trans w6|done]]. intros w10 H10. cbn.
    split_and!; [done|trans w6; [done|]; by trans w9|done].
Qed.

(** Under the lock, a host that is not known yet is added. *)
Lemma ewp_append_keys text w :
  (forall before, known (before ++ with_newline text) = true) -> known (text_of w) = false ->
  kewp (append_keys errno path text) true w (fun r h w' => h = true
    /\ (r = Ok tt -> known (text_of w') = true)).
Proof.
  intros Htext Hw. unfold append_keys. apply ktry, kbind, kperform; [|done|done]. intros w1 a w2 [Ht1 Ha1] [[_ He] Hfault]. cbn [kh_effect] in He.
  assert (others false w1 w2) as Hothers.
  { destruct a as [[]|e]; [|by rewrite (Hfault e)]. subst w2. split; [|by intros _; apply Htext].
    intros [Hn|[_ Hk]]; [right; cbn; by rewrite Hn; split; [|apply Htext]|rewrite Ht1 in Hk; congruence]. }
  split; [exact Hothers|]. split; [done|]. intros w3 [Ht3 _].
  assert (forall e, kewp (if contains (exn_msg e) #"Read-only" || bool_decide (errno e = Some 30%Z)
     then fetch_error (A:=unit) (#"known_hosts is read-only (" ++ path ++ #"); mount it writable or use emptyDir for auto-add")
     else fetch_error (#"Cannot write known_hosts: " ++ exn_msg e)) true w3
     (fun r h w' => h = true /\ (r = Ok tt -> known (text_of w') = true))) as Hfail.
  { intros e. by destruct (_ || _). }
  destruct a as [[]|e].
  - subst w2. apply kperform; [|done|done]. intros w4 a w5 [Ht4 _] Hchmod.
    pose proof (quiet_same _ _ _ _ (eq_refl : is_quiet Chmod = true) Hchmod) as Hs.
    split; [by apply (same_others false)|]. split; [done|]. intros w6 [Ht6 _]. destruct Hs as [Ht5 _].
    destruct a as [[]|e].
    + split; [done|]. intros _. rewrite Ht6, Ht5, Ht4, Ht3. apply Htext.
    + unfold on_class. destruct (isinstance (exn_type e) OSError); [|done].
      destruct (_ || _); done.
  - unfold on_class. destruct (isinstance (exn_type e) OSError); [|done]. apply Hfail.
Qed.

Lemma quiet_validate_keys text :
  wp (validate_keys host port text) [] (fun _ c => is_quiet c = true) (fun _ _ => True).
Proof. unfold validate_keys. kh_walk. Qed.
Lemma quiet_ensure_directory : wp ensure_directory [] (fun _ c => is_quiet c = true) (fun _ _ => True).
Proof. unfold ensure_directory. kh_walk. Qed.

Lemma ewp_fetch_and_append w :
  kewp (_fetch_and_append errno path host port false) false w (fun r h w' => h = false
    /\ forall added, r = Ok added -> known (text_of w') = true).
Proof.
  unfold _fetch_and_append. apply kbind, ewp_quiet; [done|]. intros w1 a w2 w3 _ [_ ->] _ _. cbn beta iota.
  apply kbind, ktake; [done|]. intros w4 a w5 _ [[_ [-> ->]] _]. split; [reflexivity|]. intros w6 _. cbn beta iota.
  apply kfinally. eapply (kmono _ _ _ (fun r h w' => h = true /\ forall added, r = Ok added -> known (text_of w') = true)).
  2:{ intros r h w7 [-> Hr]. apply kgive; [done|done|]. intros w8 a w9 [Ht8 _] [[_ [-> ->]] _]. split; [reflexivity|].
      intros w10 [_ H10]. split; [done|]. intros added Ha. apply H10. rewrite Ht8. by eapply Hr. }
  apply kbind. cbn beta iota. eapply kmono; [apply ewp_is_present|].
  intros ? ? w7 (-> & _ & present & -> & Hyes & Hno). cbn beta iota. destruct present.
  { intros w8 [Ht8 _]. split; [done|]. intros added _. rewrite Ht8. by apply Hyes. }
  specialize (Hno eq_refl eq_refl). apply ktry. unfold fetch_locked. apply kbind. eapply kmono; [apply ewp_scan|].
  intros r ? w8 (-> & [Ht8 _] & Hscan). destruct r as [text|e].
  2:{ unfold on_class. by destruct (isinstance (exn_type e) OSError). }
  destruct (key_lines text); [done|]. apply kbind, ewp_quiet; [done|]. intros w9 a w10 w11 _ [_ ->] [Ht11 _] _. cbn beta iota.
  apply kbind. eapply kmono; [apply (ewp_quiet_program (validate_keys host port text)), quiet_validate_keys|].
  intros r ? w12 [-> [Ht12 _]]. destruct r as [[]|e]; [|unfold on_class; by destruct (isinstance (exn_type e) OSError)].
  apply kbind. eapply kmono; [apply ewp_append_keys|].
  - by apply Hscan.
  - by rewrite Ht12, Ht11, Ht8.
  - intros r ? w13 [-> Hr]. destruct r as [[]|e]; [|unfold on_class; by destruct (isinstance (exn_type e) OSError)].
    intros w14 [Ht14 _]. split; [done|]. intros added _. rewrite Ht14. by apply Hr.
Qed.

Lemma ewp_ensure_host w :
  kewp (ensure_host errno path true host port) false w (fun r h w' => h = false
    /\ forall added, r = Ok added -> known (text_of w') = true).
Proof.
  unfold ensure_host. apply kbind. eapply kmono; [apply ewp_quiet_program, quiet_ensure_directory|].
  intros r ? w1 [-> _]. destruct r as [[]|e]; [|done]. apply kbind. eapply kmono; [apply ewp_is_present|].
  intros ? ? w2 (-> & _ & present & -> & Hyes & _). cbn beta iota. destruct present; [|apply ewp_fetch_and_append].
  intros w3 [_ H3]. split; [done|]. intros added _. apply H3. by apply Hyes.
Qed.

(** Any number of concurrent requests for the same host, in every interleaving of their
    calls, add its keys at most once, and each request that has returned leaves a file in which
    the host is found. *)
Theorem concurrent_hosts_added_once (n : nat) (w w' : kh_world) (l : option nat) (ps : list (prog bool)) :
  kf_added w = [] ->
  rtc (task_step kh_trusted takes_lock gives_lock)
    (w, None, replicate n (ensure_host errno path true host port)) (w', l, ps) ->
  length (kf_added w') <= 1 /\ forall i added, ps !! i = Some (Done (Ok added)) -> known (text_of w') = true.
Proof.
  intros Hw Hr.
  assert (forall i p, replicate n (ensure_host errno path true host port) !! i = Some p ->
    kewp p false w (fun r h w' => h = false /\ forall added, r = Ok added -> known (text_of w') = true)) as Hall.
  { intros i p [-> _]%lookup_replicate. apply ewp_ensure_host. }
  split.
  - destruct (verified_invariant kh_trusted takes_lock gives_lock others (fun _ => _) w _ w' l ps Hall Hr) as [Honce _].
    destruct Honce as [->|[-> _]]; [by left|cbn; lia|done].
  - intros i added Hi.
    destruct (ewp_sound kh_trusted takes_lock gives_lock others (fun _ => _) w _ w' l ps Hall Hr i _ Hi) as [_ Hk].
    by eapply Hk.
Qed.
End concurrent.

(** Two requests that both find the host missing before one of them takes the lock. *)
Definition test_key : pystr := #"10.0.0.1".
Definition test_reply (c : kh_call) (w : kh_world) : res (kh_answer c) :=
  match c as c return res (kh_answer c) with
  | Exists | IsFile => Ok (bool_decide (is_Some (kf_text w)))
  | KeygenFind _ => Ok (if contains (text_of w) test_key then 0%Z else 1%Z)
  | c => test_kh true c
  end.
Definition test_after (c : kh_call) (w : kh_world) : kh_world := test_kh_after (fun _ t => t) c (test_reply c w) w.
Definition test_schedule : list nat :=
  replicate 7 0 ++ replicate 6 1 ++ replicate 10 0 ++ replicate 5 1.

Lemma test_replies_trusted c w :
  kh_trusted (fun _ t => t) (fun text => contains text test_key) c w (test_reply c w) (test_after c w).
Proof.
  unfold test_after. split; [split|].
  - intros e. by destruct c.
  - destruct c; cbn; try done; try (by left); try (by right); try (by split; eauto).
  - destruct c; cbn; try done.
    + exists (if contains (text_of w) test_key then 0%Z else 1%Z). split; [done|]. by destruct (contains _ _).
    + intros stdout stderr [= <- <-] text. apply contains_spec. exists text, (#" ssh-ed25519 BBBB" ++ [10%N]). by vm_compute (with_newline _).
Qed.

Lemma concurrent_hosts_added_once_witness :
  exists w', rtc (task_step (kh_trusted (fun _ t => t) (fun text => contains text test_key)) takes_lock gives_lock)
      (Build_kh_world None [] [], None, replicate 2 (@ensure_host ascii_only (fun _ => None) #"/k" true test_key 22))
      (w', None, [Done (Ok true); Done (Ok false)])
    /\ length (kf_added w') <= 1.
Proof.
  eexists. assert (rtc (task_step (kh_trusted (fun _ t => t) (fun text => contains text test_key)) takes_lock gives_lock)
      (Build_kh_world None [] [], None, replicate 2 (@ensure_host ascii_only (fun _ => None) #"/k" true test_key 22))
      (Build_kh_world (Some (#"10.0.0.1 ssh-ed25519 BBBB" ++ [10%N])) [ #"10.0.0.1 ssh-ed25519 BBBB" ++ [10%N]] [ #"10.0.0.1 ssh-ed25519 BBBB"],
       None, [Done (Ok true); Done (Ok false)])) as Hr.
  { eapply (@run_schedule_steps kh_signature kh_world _ _ _ test_reply test_after bool test_schedule); [apply test_replies_trusted|vm_compute; reflexivity]. }
  split; [exact Hr|].
  exact (proj1 (@concurrent_hosts_added_once ascii_only (fun _ => None) #"/k" (fun _ t => t) test_key 22 (fun text => contains text test_key) eq_refl 2 (Build_kh_world None [] []) _ _ _ eq_refl Hr)).
Defined.
