(* ===== verification/Users.v ===== *)
(** * Users, refresh tokens and API keys

    The tables of [app/models/user.py], [refresh_token.py] and [api_key.py] with the gateways
    over them: [app/adapters/persistence/user.py] (on [dao/user.py] and
    [dao/refresh_token.py]) and [api_key.py]; and
    [app/application/services/user_service.py].  As in [Nodes], a method of a gateway is a
    function on the tables, and what a column type refuses is a parameter. *)
From stdpp Require Import sorting.
From S2P Require Import Prelude PyStr Errors Json Effects Dto Auth Packs Query.

(** ** Rows *)

Record UserModel := {
  um_email : pystr; um_hashed_password : pystr; um_is_active : bool; um_is_superuser : bool;
  um_created_at : Z; um_updated_at : Z }.
Record RefreshTokenModel := { rt_user_id : uuid; rt_token_hash : pystr; rt_expires_at : Z; rt_created_at : Z }.
Record APIKeyModel := {
  km_name : pystr; km_key_hash : pystr; km_key_prefix : pystr; km_is_active : bool; km_scope : pystr;
  km_created_at : Z; km_last_used_at : option Z; km_expires_at : option Z }.
Record account_tables := {
  at_users : list (uuid * UserModel); at_tokens : list (uuid * RefreshTokenModel);
  at_keys : list (uuid * APIKeyModel); at_next : uuid }.
Definition set_users (s : account_tables) (x : list (uuid * UserModel)) : account_tables :=
  {| at_users := x; at_tokens := at_tokens s; at_keys := at_keys s; at_next := at_next s |}.
Definition set_tokens (s : account_tables) (x : list (uuid * RefreshTokenModel)) : account_tables :=
  {| at_users := at_users s; at_tokens := x; at_keys := at_keys s; at_next := at_next s |}.
Definition set_keys (s : account_tables) (x : list (uuid * APIKeyModel)) : account_tables :=
  {| at_users := at_users s; at_tokens := at_tokens s; at_keys := x; at_next := at_next s |}.
Definition empty_accounts : account_tables := {| at_users := []; at_tokens := []; at_keys := []; at_next := 1 |}.

(** ** Data ([dto/user.py]) *)

Record UserCreateDTO := { uc_email : pystr; uc_password : pystr; uc_is_superuser : bool }.
Record UserUpdateDTO := {
  uu_email : option pystr; uu_password : option pystr; uu_is_active : option bool; uu_is_superuser : option bool }.
Record UserPageDTO := { ug_items : list UserViewDTO; ug_total : Z }.

Definition user_view (kv : uuid * UserModel) : UserViewDTO :=
  let '(id, user) := kv in
  {| us_id := id; us_email := um_email user; us_is_active := um_is_active user;
     us_is_superuser := um_is_superuser user; us_created_at := um_created_at user |}.
Definition _to_auth (kv : uuid * APIKeyModel) : APIKeyAuthDTO :=
  let '(id, model) := kv in
  {| ka_id := id; ka_key_prefix := km_key_prefix model; ka_is_active := km_is_active model; ka_scope := km_scope model;
     ka_expires_at := km_expires_at model; ka_last_used_at := km_last_used_at model |}.
Definition key_view (kv : uuid * APIKeyModel) : APIKeyViewDTO :=
  let '(id, model) := kv in
  {| kv_id := id; kv_name := km_name model; kv_key_prefix := km_key_prefix model; kv_is_active := km_is_active model;
     kv_scope := km_scope model; kv_created_at := km_created_at model; kv_last_used_at := km_last_used_at model;
     kv_expires_at := km_expires_at model |}.

Section tables.
Context (user_refused : UserModel -> option exn) (token_refused : RefreshTokenModel -> option exn)
  (key_refused : APIKeyModel -> option exn).
(** [password_hasher.hash(password)]. *)
Context (hash_password : pystr -> res pystr).

Definition tx (A : Type) : Type := account_tables -> res (A * account_tables).
(** [sessionmaker.begin()]: a transaction that raises is rolled back. *)
Definition begin {A} (m : tx A) (s : account_tables) : res A * account_tables :=
  match m s with Ok (a, s') => (Ok a, s') | Raise e => (Raise e, s) end.

(** ** The repository of users ([dao/user.py]) *)

Definition get_by_id (id : uuid) (s : account_tables) : option UserModel := dict_get (at_users s) id.
Definition get_by_email (email : pystr) (s : account_tables) : option (uuid * UserModel) :=
  List.find (fun kv => str_eqb (um_email kv.2) email) (at_users s).
Definition earlier (a b : uuid * UserModel) : Prop :=
  (um_created_at a.2 < um_created_at b.2)%Z \/ (um_created_at a.2 = um_created_at b.2 /\ (a.1 <= b.1)%N).
#[local] Instance earlier_dec a b : Decision (earlier a b).
Proof. unfold earlier. apply _. Defined.
Definition get_all (offset limit : Z) (s : account_tables) : res (list (uuid * UserModel)) :=
  sql_page offset limit (merge_sort earlier (at_users s)).
Definition user_count (s : account_tables) : Z := Z.of_nat (length (at_users s)).

(** The checks of the table on a row, beside the other rows. *)
Definition check_user (id : uuid) (row : UserModel) (s : account_tables) : res unit :=
  match user_refused row with
  | Some e => Raise e
  | None =>
      if existsb (fun kv => negb (kv.1 =? id)%N && str_eqb (um_email kv.2) (um_email row)) (at_users s)
      then raise IntegrityError #"UNIQUE constraint failed: users.email" else Ok tt
  end.
Definition create (email hashed_password : pystr) (is_superuser : bool) (now : Z) : tx (uuid * UserModel) := fun s =>
  let id := at_next s in
  let user := {| um_email := email; um_hashed_password := hashed_password; um_is_active := true;
                 um_is_superuser := is_superuser; um_created_at := now; um_updated_at := now |} in
  check_user id user s;;
  Ok ((id, user), {| at_users := at_users s ++ [(id, user)]; at_tokens := at_tokens s; at_keys := at_keys s;
                     at_next := (id + 1)%N |}).
(** The refresh tokens of a user are deleted with the user. *)
Definition delete_row (id : uuid) (s : account_tables) : account_tables :=
  {| at_users := dict_pop (at_users s) id;
     at_tokens := List.filter (fun kv => negb (rt_user_id kv.2 =? id)%N) (at_tokens s);
     at_keys := at_keys s; at_next := at_next s |}.
Definition delete (id : uuid) : tx bool := fun s =>
  match get_by_id id s with None => Ok (false, s) | Some _ => Ok (true, delete_row id s) end.
Definition update (id : uuid) (data : UserModel -> UserModel) : tx (option (uuid * UserModel)) := fun s =>
  match get_by_id id s with
  | None => Ok (None, s)
  | Some user =>
      let user := data user in
      check_user id user s;;
      Ok (Some (id, user), set_users s (dict_set (at_users s) id user))
  end.

(** ** The gateway of users ([persistence/user.py]) *)

Definition get_user (id : uuid) (s : account_tables) : option UserViewDTO :=
  (fun user => user_view (id, user)) <$> get_by_id id s.
Definition view_by_email (email : pystr) (s : account_tables) : option UserViewDTO := user_view <$> get_by_email email s.
Definition list_users (offset limit : Z) (s : account_tables) : res (list UserViewDTO) :=
  users ← get_all offset limit s; Ok (fmap (M:=list) user_view users).
Definition get_user_id_by_email (email : pystr) (s : account_tables) : option uuid := fst <$> get_by_email email s.
Definition get_hashed_password (email : pystr) (s : account_tables) : option pystr :=
  (fun kv => um_hashed_password kv.2) <$> get_by_email email s.
Definition is_user_active (id : uuid) (s : account_tables) : bool :=
  match get_by_id id s with Some user => um_is_active user | None => false end.
Definition is_superuser (id : uuid) (s : account_tables) : bool :=
  match get_by_id id s with Some user => um_is_superuser user | None => false end.
Definition create_user (data : UserCreateDTO) (now : Z) : tx UserViewDTO := fun s =>
  hashed ← hash_password (uc_password data);
  '(user, s) ← create (uc_email data) hashed (uc_is_superuser data) now s;
  Ok (user_view user, s).
(** The payload of an update: the columns that are given, and [updated_at] when one of them changes. *)
Definition payload (data : UserUpdateDTO) (hashed : option pystr) (now : Z) (user : UserModel) : UserModel :=
  let email := default (um_email user) (uu_email data) in
  let password := default (um_hashed_password user) hashed in
  let active := default (um_is_active user) (uu_is_active data) in
  let superuser := default (um_is_superuser user) (uu_is_superuser data) in
  let unchanged := str_eqb email (um_email user) && str_eqb password (um_hashed_password user)
    && Bool.eqb active (um_is_active user) && Bool.eqb superuser (um_is_superuser user) in
  {| um_email := email; um_hashed_password := password; um_is_active := active; um_is_superuser := superuser;
     um_created_at := um_created_at user; um_updated_at := if unchanged then um_updated_at user else now |}.

Definition no_changes (data : UserUpdateDTO) : bool :=
  match uu_email data, uu_password data, uu_is_active data, uu_is_superuser data with
  | None, None, None, None => true | _, _, _, _ => false
  end.
Definition update_user (id : uuid) (data : UserUpdateDTO) (now : Z) : tx (option UserViewDTO) := fun s =>
  match get_by_id id s with
  | None => Ok (None, s)
  | Some user =>
      hashed ← match uu_password data with Some p => h ← hash_password p; Ok (Some h) | None => Ok None end;
      if no_changes data then Ok (Some (user_view (id, user)), s)
      else
        '(updated, s) ← update id (payload data hashed now) s;
        Ok (user_view <$> (updated : option (uuid * UserModel)), s)
  end.
Definition has_users (s : account_tables) : bool := (0 <? user_count s)%Z.

(** ** Refresh tokens ([dao/refresh_token.py]) *)

Definition live_token (token_hash : pystr) (now : Z) (kv : uuid * RefreshTokenModel) : bool :=
  str_eqb (rt_token_hash kv.2) token_hash && (now <? rt_expires_at kv.2)%Z.
Definition get_user_id_by_hash (token_hash : pystr) (now : Z) (s : account_tables) : option uuid :=
  (fun kv => rt_user_id kv.2) <$> List.find (live_token token_hash now) (at_tokens s).
Definition check_token (row : RefreshTokenModel) (s : account_tables) : res unit :=
  match token_refused row with
  | Some e => Raise e
  | None =>
      if existsb (fun kv => str_eqb (rt_token_hash kv.2) (rt_token_hash row)) (at_tokens s)
      then raise IntegrityError #"UNIQUE constraint failed: refresh_tokens.token_hash"
      else match get_by_id (rt_user_id row) s with
           | None => raise IntegrityError #"FOREIGN KEY constraint failed: refresh_tokens.user_id"
           | Some _ => Ok tt
           end
  end.
Definition create_token (user_id : uuid) (token_hash : pystr) (expires_at now : Z) : tx unit := fun s =>
  let row := {| rt_user_id := user_id; rt_token_hash := token_hash; rt_expires_at := expires_at; rt_created_at := now |} in
  check_token row s;;
  Ok (tt, {| at_users := at_users s; at_tokens := at_tokens s ++ [(at_next s, row)]; at_keys := at_keys s;
             at_next := (at_next s + 1)%N |}).
(** The [DELETE ... RETURNING] of a rotation. *)
Definition consumable (token_hash : pystr) (user_id : uuid) (now : Z) (kv : uuid * RefreshTokenModel) : bool :=
  live_token token_hash now kv && (rt_user_id kv.2 =? user_id)%N.
Definition rotate (old_token_hash : pystr) (user_id : uuid) (new_token_hash : pystr) (expires_at now : Z) : tx bool := fun s =>
  match List.filter (consumable old_token_hash user_id now) (at_tokens s) with
  | [] => Ok (false, s)
  | _ =>
      let s := set_tokens s (List.filter (fun kv => negb (consumable old_token_hash user_id now kv)) (at_tokens s)) in
      '(_, s) ← create_token user_id new_token_hash expires_at now s;
      Ok (true, s)
  end.
(** The deletions, and how many rows each removed. *)
Definition remove_tokens (f : uuid * RefreshTokenModel -> bool) : tx Z := fun s =>
  Ok (count f (at_tokens s), set_tokens s (List.filter (fun kv => negb (f kv)) (at_tokens s))).
Definition delete_token (token_hash : pystr) : tx bool := fun s =>
  '(n, s) ← remove_tokens (fun kv => str_eqb (rt_token_hash kv.2) token_hash) s; Ok ((0 <? n)%Z, s).
Definition delete_by_user (user_id : uuid) : tx Z := remove_tokens (fun kv => (rt_user_id kv.2 =? user_id)%N).
Definition delete_expired_by_user (user_id : uuid) (now : Z) : tx Z :=
  remove_tokens (fun kv => (rt_user_id kv.2 =? user_id)%N && (rt_expires_at kv.2 <=? now)%Z).

(** ** API keys ([persistence/api_key.py]) *)

Definition get_auth_by_hash (key_hash : pystr) (s : account_tables) : option APIKeyAuthDTO :=
  _to_auth <$> List.find (fun kv => str_eqb (km_key_hash kv.2) key_hash) (at_keys s).
Definition get_api_key (id : uuid) (s : account_tables) : option APIKeyViewDTO :=
  (fun model => key_view (id, model)) <$> dict_get (at_keys s) id.
Definition newest (a b : uuid * APIKeyModel) : Prop := (km_created_at b.2 <= km_created_at a.2)%Z.
#[local] Instance newest_dec a b : Decision (newest a b) := decide (_ <= _)%Z.
Definition list_api_keys `{Scans} (offset limit : Z) (s : account_tables) : res APIKeyPageDTO :=
  rows ← sql_page offset limit (merge_sort newest (scan 0 (at_keys s)));
  Ok {| kg_items := fmap (M:=list) key_view rows; kg_total := Z.of_nat (length (at_keys s)) |}.

Definition key_scopes : list pystr := [ #"read-only"; #"read-write"].
Definition check_key (id : uuid) (row : APIKeyModel) (s : account_tables) : res unit :=
  match key_refused row with
  | Some e => Raise e
  | None =>
      if negb (bool_decide (km_scope row ∈ key_scopes))
      then raise IntegrityError #"CHECK constraint failed: chk_api_keys_scope"
      else if existsb (fun kv => negb (kv.1 =? id)%N && str_eqb (km_key_hash kv.2) (km_key_hash row)) (at_keys s)
      then raise IntegrityError #"UNIQUE constraint failed: api_keys.key_hash" else Ok tt
  end.
Definition create_api_key (data : APIKeyPersistenceDTO) (now : Z) : tx APIKeyViewDTO := fun s =>
  let id := at_next s in
  let model := {| km_name := kp_name data; km_key_hash := kp_key_hash data; km_key_prefix := kp_key_prefix data;
                  km_is_active := true; km_scope := kp_scope data; km_created_at := now; km_last_used_at := None;
                  km_expires_at := None |} in
  check_key id model s;;
  Ok (key_view (id, model), {| at_users := at_users s; at_tokens := at_tokens s; at_keys := at_keys s ++ [(id, model)];
                               at_next := (id + 1)%N |}).

(** [setattr(model, field, value)] and the column it is flushed to. *)
Definition not_null : res APIKeyModel := raise IntegrityError #"NOT NULL constraint failed".
Definition bad_type : res APIKeyModel := raise DBAPIError #"invalid input for query argument".
Definition set_key (field : pystr) (value : key_value) (m : APIKeyModel) : res APIKeyModel :=
  let '{| km_name := n; km_key_hash := h; km_key_prefix := p; km_is_active := a; km_scope := s; km_created_at := c;
          km_last_used_at := l; km_expires_at := x |} := m in
  let text (set : pystr -> APIKeyModel) := match value with KStr v => Ok (set v) | KNone => not_null | _ => bad_type end in
  let time (set : option Z -> APIKeyModel) :=
    match value with KTime v => Ok (set (Some v)) | KNone => Ok (set None) | _ => bad_type end in
  if str_eqb field #"name" then text (fun v => Build_APIKeyModel v h p a s c l x)
  else if str_eqb field #"is_active" then
    match value with KBool v => Ok (Build_APIKeyModel n h p v s c l x) | KNone => not_null | _ => bad_type end
  else if str_eqb field #"scope" then text (fun v => Build_APIKeyModel n h p a v c l x)
  else if str_eqb field #"expires_at" then time (fun v => Build_APIKeyModel n h p a s c l v)
  else if str_eqb field #"key_hash" then text (fun v => Build_APIKeyModel n v p a s c l x)
  else if str_eqb field #"key_prefix" then text (fun v => Build_APIKeyModel n h v a s c l x)
  else if str_eqb field #"created_at" then
    match value with KTime v => Ok (Build_APIKeyModel n h p a s v l x) | KNone => not_null | _ => bad_type end
  else if str_eqb field #"last_used_at" then time (fun v => Build_APIKeyModel n h p a s c v x)
  else if str_eqb field #"id" then bad_type
  else Ok m.
Fixpoint set_key_fields (changes : list (pystr * key_value)) (m : APIKeyModel) : res APIKeyModel :=
  match changes with
  | [] => Ok m
  | (field, value) :: changes => m ← set_key field value m; set_key_fields changes m
  end.
Definition update_api_key (id : uuid) (data : APIKeyUpdateDTO) : tx (option APIKeyViewDTO) := fun s =>
  match dict_get (at_keys s) id with
  | None => Ok (None, s)
  | Some model =>
      model ← set_key_fields (ku_changes data) model;
      check_key id model s;;
      Ok (Some (key_view (id, model)), set_keys s (dict_set (at_keys s) id model))
  end.
Definition deactivated (m : APIKeyModel) : APIKeyModel :=
  {| km_name := km_name m; km_key_hash := km_key_hash m; km_key_prefix := km_key_prefix m; km_is_active := false;
     km_scope := km_scope m; km_created_at := km_created_at m; km_last_used_at := km_last_used_at m;
     km_expires_at := km_expires_at m |}.
Definition touched (used_at : Z) (m : APIKeyModel) : APIKeyModel :=
  {| km_name := km_name m; km_key_hash := km_key_hash m; km_key_prefix := km_key_prefix m;
     km_is_active := km_is_active m; km_scope := km_scope m; km_created_at := km_created_at m;
     km_last_used_at := Some used_at; km_expires_at := km_expires_at m |}.
Definition revoke_api_key (id : uuid) : tx bool := fun s =>
  match dict_get (at_keys s) id with
  | None => Ok (false, s)
  | Some model => Ok (true, set_keys s (dict_set (at_keys s) id (deactivated model)))
  end.
Definition touch_last_used (id : uuid) (used_at : Z) : tx unit := fun s =>
  Ok (tt, match dict_get (at_keys s) id with
          | None => s
          | Some model => set_keys s (dict_set (at_keys s) id (touched used_at model))
          end).
End tables.

(** ** The user service ([user_service.py]) *)

Inductive user_call :=
| GetByEmail (email : pystr)
| ListUsers (offset limit : Z)
| CountUsers
| ReadUser (id : uuid)
| CreateUser (data : UserCreateDTO)
| UpdateUser (id : uuid) (data : UserUpdateDTO)
| DeleteUser (id : uuid).
Definition user_answer (c : user_call) : Type :=
  match c with
  | GetByEmail _ | ReadUser _ | UpdateUser _ _ => option UserViewDTO
  | ListUsers _ _ => list UserViewDTO
  | CountUsers => Z
  | CreateUser _ => UserViewDTO
  | DeleteUser _ => bool
  end.
#[export] Instance user_signature : Signature := {| call := user_call; answer := user_answer |}.

Module UserService.
Definition forbidden {A} (what : pystr) : prog A :=
  lift (raise InsufficientPermissionsError (#"Only superusers can " ++ what)).
Definition not_found {A} (user_id : uuid) : prog A :=
  lift (raise UserNotFoundError (#"User " ++ uuid_str user_id ++ #" not found")).
Definition taken {A} (email : pystr) : prog A :=
  lift (raise UserAlreadyExistsError (#"User with email '" ++ email ++ #"' already exists")).

Definition create_user (email password : pystr) (superuser caller_is_superuser : bool) : prog UserViewDTO :=
  if negb caller_is_superuser then forbidden #"create users"
  else
    existing ← perform (GetByEmail email);
    match existing with
    | Some _ => taken email
    | None => perform (CreateUser {| uc_email := email; uc_password := password; uc_is_superuser := superuser |})
    end.

Definition list_users (offset limit : Z) (caller_is_superuser : bool) : prog UserPageDTO :=
  if negb caller_is_superuser then forbidden #"list users"
  else
    users ← perform (ListUsers offset limit);
    total ← perform CountUsers;
    mret {| ug_items := users; ug_total := total |}.

Definition get_user (user_id : uuid) (caller_is_superuser : bool) : prog UserViewDTO :=
  if negb caller_is_superuser then forbidden #"get users"
  else
    user ← perform (ReadUser user_id);
    match user with None => not_found user_id | Some user => mret user end.

Definition patch_user (user_id : uuid) (data : UserUpdateDTO) (caller_is_superuser : bool) : prog UserViewDTO :=
  if negb caller_is_superuser then forbidden #"update users"
  else
    conflict ← match uu_email data with
               | Some email =>
                   existing ← perform (GetByEmail email);
                   mret (match existing with
                         | Some existing => if negb (us_id existing =? user_id)%N then Some email else None
                         | None => None
                         end)
               | None => mret None
               end;
    match conflict with
    | Some email => taken email
    | None =>
        updated ← perform (UpdateUser user_id data);
        match updated with None => not_found user_id | Some updated => mret updated end
    end.

Definition delete_user (user_id : uuid) (caller_is_superuser : bool) : prog bool :=
  if negb caller_is_superuser then forbidden #"delete users"
  else
    user ← perform (ReadUser user_id);
    match user with
    | None => not_found user_id
    | Some _ => perform (DeleteUser user_id)
    end.
End UserService.
