(* ===== verification/Tables.v ===== *)
(** * Tables with a unique column

    A table is a dictionary by primary key; its keys are drawn from a counter, and one column
    holds no value twice.  Inserting, changing and filtering rows keeps this, and a row is found
    by its value in the column.  [UsersSpec] and [LibrarySpec] use it. *)
From S2P Require Import Prelude PyStr Errors Dto.

(** ** A table with a unique column *)

Section table.
Context {V : Type} (column : V -> pystr).
Implicit Types (d : list (uuid * V)).

Record table_ok (next : uuid) (d : list (uuid * V)) : Prop := {
  tb_ids : NoDup d.*1;
  tb_bound : forall i a, dict_get d i = Some a -> (i < next)%N;
  tb_unique : forall i j a b, dict_get d i = Some a -> dict_get d j = Some b -> column a = column b -> i = j }.

Lemma table_nil next : table_ok next [].
Proof. split; [constructor|done|done]. Qed.

Lemma table_mono n n' d : table_ok n d -> (n <= n')%N -> table_ok n' d.
Proof. intros [Hi Hb Hu] Hle. split; [done| |done]. intros i a Ha. apply Hb in Ha. lia. Qed.

Lemma table_new n d : table_ok n d -> dict_get d n = None.
Proof. intros [_ Hb _]. destruct (dict_get d n) as [a|] eqn:E; [|done]. apply Hb in E. lia. Qed.

(** No other row has this value in the column. *)
Definition free (k : uuid) (x : pystr) d : Prop := forall j b, dict_get d j = Some b -> j <> k -> column b <> x.
Lemma free_spec k x d :
  existsb (fun kv => negb (kv.1 =? k)%N && str_eqb (column kv.2) x) d = false -> free k x d.
Proof.
  intros He j b Hj Hne Hc. apply not_true_iff_false in He. apply He, existsb_exists. exists (j, b).
  split; [by apply list_elem_of_In, dict_get_elem|]. cbn. rewrite andb_true_iff, negb_true_iff, N.eqb_neq, str_eqb_eq. done.
Qed.

Lemma table_add n d row : table_ok n d -> free n (column row) d -> table_ok (n + 1) (d ++ [(n, row)]).
Proof.
  intros Ht Hf. pose proof (table_new n d Ht) as Hnew. destruct Ht as [Hi Hb Hu].
  split.
  - rewrite fmap_app. apply NoDup_app. split_and!; [done| |apply NoDup_singleton].
    intros x Hx ->%list_elem_of_singleton. apply dict_get_key in Hx as [a Ha]. cbn in Ha. congruence.
  - intros i a. rewrite dict_get_snoc by done. case_decide; [intros; subst; lia|]. intros Ha%Hb. lia.
  - intros i j a b. rewrite !dict_get_snoc by done. repeat case_decide; intros; simplify_eq; try done.
    + by destruct (Hf j b).
    + by destruct (Hf i a).
    + by eapply Hu.
Qed.

Lemma table_set n d k row : table_ok n d -> is_Some (dict_get d k) -> free k (column row) d -> table_ok n (dict_set d k row).
Proof.
  intros [Hi Hb Hu] [a0 Hk] Hf. split; [by apply dict_set_NoDup| |].
  - intros i a. rewrite dict_get_set. case_decide; [intros; subst; by eapply Hb|apply Hb].
  - intros i j a b. rewrite !dict_get_set. repeat case_decide; intros; simplify_eq; try done.
    + by destruct (Hf j b).
    + by destruct (Hf i a).
    + by eapply Hu.
Qed.

(** A row that keeps its value in the column. *)
Lemma table_keep n d k row row' : table_ok n d -> dict_get d k = Some row -> column row' = column row ->
  table_ok n (dict_set d k row').
Proof.
  intros Ht Hk Hc. apply table_set; [done|by exists row|]. intros j b Hj Hne E. apply Hne.
  eapply (tb_unique n d Ht j k b row Hj Hk). congruence.
Qed.

Lemma table_filter n d g : table_ok n d -> table_ok n (List.filter g d).
Proof.
  intros [Hi Hb Hu].
  assert (forall i a, dict_get (List.filter g d) i = Some a -> dict_get d i = Some a) as Hsub.
  { intros i a [Ha _]%dict_get_elem%elem_filter. by apply dict_get_NoDup. }
  split; [by apply filter_keys|eauto|eauto].
Qed.

(** Looking a row up by the column. *)
Lemma find_column n d x i a : table_ok n d ->
  List.find (fun kv => str_eqb (column kv.2) x) d = Some (i, a) <-> dict_get d i = Some a /\ column a = x.
Proof.
  intros Ht. split.
  - intros [Hin Hc]%List.find_some. apply str_eqb_eq in Hc. split; [|done].
    apply dict_get_NoDup; [apply Ht|by apply list_elem_of_In].
  - intros [Ha Hc]. destruct (List.find _ d) as [[j b]|] eqn:E.
    + apply List.find_some in E as [Hin Hb]. apply str_eqb_eq in Hb. cbn in Hb.
      assert (dict_get d j = Some b) as Hj by (apply dict_get_NoDup; [apply Ht|by apply list_elem_of_In]).
      assert (j = i) as -> by (eapply (tb_unique n d Ht); [done..|congruence]). congruence.
    + pose proof (List.find_none _ _ E (i, a)) as Hn. cbn in Hn. rewrite (proj2 (str_eqb_eq _ _) Hc) in Hn.
      discriminate Hn. by apply list_elem_of_In, dict_get_elem.
Qed.
End table.
