(* ===== verification/UsersSpec.v ===== *)
(** * What the account tables promise

    The invariant of the three tables over every history of operations; that a refresh token
    is exchanged at most once; what the services of [Auth] and the user service do over the
    tables. *)
From stdpp Require Import sorting.
From S2P Require Import Prelude PyStr Errors Json Effects Dto Auth Packs Query Stateful Tables Users.

(** ** The invariant *)

Record accounts_ok (s : account_tables) : Prop := {
  ac_users : table_ok um_email (at_next s) (at_users s);
  ac_tokens : table_ok rt_token_hash (at_next s) (at_tokens s);
  ac_keys : table_ok km_key_hash (at_next s) (at_keys s);
  ac_owner : forall i t, dict_get (at_tokens s) i = Some t -> is_Some (dict_get (at_users s) (rt_user_id t));
  ac_scope : forall i k, dict_get (at_keys s) i = Some k -> km_scope k ∈ key_scopes }.

Section preservation.
Context (user_refused : UserModel -> option exn) (token_refused : RefreshTokenModel -> option exn)
  (key_refused : APIKeyModel -> option exn) (hash_password : pystr -> res pystr).

Lemma ok_empty : accounts_ok empty_accounts.
Proof. split; try apply table_nil; done. Qed.

Lemma check_user_free id row s : check_user user_refused id row s = Ok tt -> free um_email id (um_email row) (at_users s).
Proof.
  unfold check_user. destruct (user_refused row); [done|]. destruct (existsb _ _) eqn:E; [done|]. intros _. by apply free_spec.
Qed.
Lemma check_key_free id row s : check_key key_refused id row s = Ok tt ->
  km_scope row ∈ key_scopes /\ free km_key_hash id (km_key_hash row) (at_keys s).
Proof.
  unfold check_key. destruct (key_refused row); [done|]. case_bool_decide; [|done]. cbn [negb].
  destruct (existsb _ _) eqn:E; [done|]. intros _. split; [done|by apply free_spec].
Qed.
Lemma check_token_free row s : check_token token_refused row s = Ok tt ->
  (forall j b, dict_get (at_tokens s) j = Some b -> rt_token_hash b <> rt_token_hash row) /\ is_Some (dict_get (at_users s) (rt_user_id row)).
Proof.
  unfold check_token. destruct (token_refused row); [done|]. destruct (existsb _ _) eqn:E; [done|].
  destruct (get_by_id _ s) as [u|] eqn:Eu; [|done]. intros _. split; [|by exists u]. intros j b Hj Hc.
  apply not_true_iff_false in E. apply E, existsb_exists. exists (j, b). split; [by apply list_elem_of_In, dict_get_elem|by apply str_eqb_eq].
Qed.

Lemma accounts_create email hashed superuser now s r s' :
  accounts_ok s -> create user_refused email hashed superuser now s = Ok (r, s') -> accounts_ok s'.
Proof.
  intros [Hu Ht Hk Ho Hs] ([] & Hc%check_user_free & [= <- <-])%bind_ok. split; cbn [at_users at_tokens at_keys at_next].
  - by apply (table_add um_email (at_next s) (at_users s)).
  - eapply table_mono; [done|lia].
  - eapply table_mono; [done|lia].
  - intros i t Hi. rewrite dict_get_snoc by (by eapply table_new). case_decide; [done|by eapply Ho].
  - done.
Qed.

Lemma accounts_update id data s r s' : accounts_ok s -> update user_refused id data s = Ok (r, s') -> accounts_ok s'.
Proof.
  intros Hok. unfold update. destruct (get_by_id id s) as [u|] eqn:Eu; [|by intros [= _ <-]].
  intros ([] & Hc%check_user_free & [= _ <-])%bind_ok. destruct Hok as [Hu Ht Hk Ho Hs]. split; try done.
  - apply table_set; [done|by exists u|done].
  - intros i t Hi. cbn. rewrite dict_get_set. case_decide; [done|by eapply Ho].
Qed.

Lemma accounts_delete id s : accounts_ok s -> accounts_ok (delete_row id s).
Proof.
  intros [Hu Ht Hk Ho Hs]. split; try done.
  - by apply table_filter.
  - by apply table_filter.
  - intros i t [Hi Hn]%dict_get_elem%elem_filter. cbn in Hi, Hn |- *. to_prop. rewrite dict_get_pop, decide_False by congruence.
    eapply Ho. apply dict_get_NoDup; [apply Ht|done].
Qed.

Lemma ok_tokens s f : accounts_ok s -> accounts_ok (set_tokens s (List.filter f (at_tokens s))).
Proof.
  intros [Hu Ht Hk Ho Hs]. split; try done.
  - by apply table_filter.
  - intros i t [Hi _]%dict_get_elem%elem_filter. eapply Ho. apply dict_get_NoDup; [apply Ht|done].
Qed.

Lemma ok_create_token user_id token_hash expires now s r s' :
  accounts_ok s -> create_token token_refused user_id token_hash expires now s = Ok (r, s') -> accounts_ok s'.
Proof.
  intros [Hu Ht Hk Ho Hs] ([] & [Hf Hown]%check_token_free & [= _ <-])%bind_ok. split; cbn [at_users at_tokens at_keys at_next]; try done.
  - eapply table_mono; [done|lia].
  - apply table_add; [done|]. intros j b Hj _. by apply Hf in Hj.
  - eapply table_mono; [done|lia].
  - intros i t. rewrite dict_get_snoc by (by eapply table_new). case_decide; [by intros [= <-]|apply Ho].
Qed.

Lemma ok_rotate old user_id new expires now s r s' :
  accounts_ok s -> rotate token_refused old user_id new expires now s = Ok (r, s') -> accounts_ok s'.
Proof.
  intros Hok. unfold rotate. destruct (List.filter _ _); [by intros [= _ <-]|].
  intros ([? s1] & Hc & [= _ <-])%bind_ok. eapply ok_create_token; [|exact Hc]. by apply ok_tokens.
Qed.

Lemma ok_create_key data now s r s' : accounts_ok s -> create_api_key key_refused data now s = Ok (r, s') -> accounts_ok s'.
Proof.
  intros [Hu Ht Hk Ho Hs] ([] & [Hscope Hf]%check_key_free & [= _ <-])%bind_ok. split; cbn [at_users at_tokens at_keys at_next]; try done.
  - eapply table_mono; [done|lia].
  - eapply table_mono; [done|lia].
  - by apply (table_add km_key_hash).
  - intros i k. rewrite dict_get_snoc by (by eapply table_new). case_decide; [by intros [= <-]|apply Hs].
Qed.

Lemma ok_set_key s id k k' :
  accounts_ok s -> dict_get (at_keys s) id = Some k -> km_scope k' ∈ key_scopes -> free km_key_hash id (km_key_hash k') (at_keys s) ->
  accounts_ok (set_keys s (dict_set (at_keys s) id k')).
Proof.
  intros [Hu Ht Hk Ho Hs] Hid Hscope Hf. split; try done.
  - apply table_set; [done|by exists k|done].
  - intros i k2. cbn. rewrite dict_get_set. case_decide; [by intros [= <-]|apply Hs].
Qed.
Lemma key_still_free s id k : accounts_ok s -> dict_get (at_keys s) id = Some k -> free km_key_hash id (km_key_hash k) (at_keys s).
Proof. intros Hok Hk j b Hj Hne E. apply Hne. by eapply (tb_unique _ _ _ (ac_keys s Hok)). Qed.

(** ** Histories *)

Inductive account_op :=
| DoCreateUser (data : UserCreateDTO) (now : Z)
| DoUpdateUser (id : uuid) (data : UserUpdateDTO) (now : Z)
| DoDeleteUser (id : uuid)
| DoCreateToken (user_id : uuid) (token_hash : pystr) (expires_at now : Z)
| DoRotate (old_hash : pystr) (user_id : uuid) (new_hash : pystr) (expires_at now : Z)
| DoDeleteToken (token_hash : pystr)
| DoDeleteByUser (user_id : uuid)
| DoDeleteExpired (user_id : uuid) (now : Z)
| DoCreateKey (data : APIKeyPersistenceDTO) (now : Z)
| DoUpdateKey (id : uuid) (data : APIKeyUpdateDTO)
| DoRevokeKey (id : uuid)
| DoTouchKey (id : uuid) (used_at : Z).
Definition run_account_op (s : account_tables) (op : account_op) : account_tables :=
  match op with
  | DoCreateUser data now => (begin (create_user user_refused hash_password data now) s).2
  | DoUpdateUser id data now => (begin (update_user user_refused hash_password id data now) s).2
  | DoDeleteUser id => (begin (delete id) s).2
  | DoCreateToken user_id token_hash expires_at now => (begin (create_token token_refused user_id token_hash expires_at now) s).2
  | DoRotate old user_id new expires_at now => (begin (rotate token_refused old user_id new expires_at now) s).2
  | DoDeleteToken token_hash => (begin (delete_token token_hash) s).2
  | DoDeleteByUser user_id => (begin (delete_by_user user_id) s).2
  | DoDeleteExpired user_id now => (begin (delete_expired_by_user user_id now) s).2
  | DoCreateKey data now => (begin (create_api_key key_refused data now) s).2
  | DoUpdateKey id data => (begin (update_api_key key_refused id data) s).2
  | DoRevokeKey id => (begin (revoke_api_key id) s).2
  | DoTouchKey id used_at => (begin (touch_last_used id used_at) s).2
  end.
Definition account_history (ops : list account_op) : account_tables := fold_left run_account_op ops empty_accounts.

Lemma accounts_begin {A} (m : tx A) s : accounts_ok s -> (forall a s', m s = Ok (a, s') -> accounts_ok s') -> accounts_ok (begin m s).2.
Proof. intros Hs Hm. unfold begin. destruct (m s) as [[a s']|e]; [by eapply Hm|done]. Qed.

Lemma ok_run_op s op : accounts_ok s -> accounts_ok (run_account_op s op).
Proof.
  intros Hok. destruct op; cbn [run_account_op]; apply accounts_begin; try done; intros a s'.
  - intros (h & _ & ([u s1] & Hc & [= _ <-])%bind_ok)%bind_ok. by eapply accounts_create.
  - unfold update_user. destruct (get_by_id id s) as [u|]; [|by intros [= _ <-]].
    intros (h & _ & Hr)%bind_ok. destruct (no_changes data); [by injection Hr as _ <-|].
    apply bind_ok in Hr as ([u' s1] & Hu & [= _ <-]). by eapply accounts_update.
  - unfold delete. destruct (get_by_id id s); intros [= _ <-]; [by apply accounts_delete|done].
  - by apply ok_create_token.
  - by apply ok_rotate.
  - intros [= _ <-]. by apply ok_tokens.
  - intros [= _ <-]. by apply ok_tokens.
  - intros [= _ <-]. by apply ok_tokens.
  - by apply ok_create_key.
  - unfold update_api_key. destruct (dict_get (at_keys s) id) as [k|] eqn:Ek; [|by intros [= _ <-]].
    intros (k' & _ & ([] & [Hs Hf]%check_key_free & [= _ <-])%bind_ok)%bind_ok. by eapply ok_set_key.
  - unfold revoke_api_key. destruct (dict_get (at_keys s) id) as [k|] eqn:Ek; intros [= _ <-]; [|done].
    eapply ok_set_key; [done|done|by apply (ac_scope s Hok id k)|by apply (key_still_free s id k)].
  - unfold touch_last_used. intros [= _ <-]. destruct (dict_get (at_keys s) id) as [k|] eqn:Ek; [|done].
    eapply ok_set_key; [done|done|by apply (ac_scope s Hok id k)|by apply (key_still_free s id k)].
Qed.

Lemma ok_history ops s : accounts_ok s -> accounts_ok (fold_left run_account_op ops s).
Proof. revert s. induction ops as [|op ops IH]; cbn; intros s Hok; [done|]. by apply IH, ok_run_op. Qed.

(** After any history of operations on users, sessions and API keys: e-mail addresses,
    token hashes and key hashes are unique; every refresh token belongs to an existing user; and
    every key has one of the two scopes. *)
Theorem account_tables_consistent (ops : list account_op) :
  let s := account_history ops in
  (forall i j a b, dict_get (at_users s) i = Some a -> dict_get (at_users s) j = Some b -> um_email a = um_email b -> i = j)
  /\ (forall i j a b, dict_get (at_tokens s) i = Some a -> dict_get (at_tokens s) j = Some b ->
        rt_token_hash a = rt_token_hash b -> i = j)
  /\ (forall i j a b, dict_get (at_keys s) i = Some a -> dict_get (at_keys s) j = Some b ->
        km_key_hash a = km_key_hash b -> i = j)
  /\ (forall i t, dict_get (at_tokens s) i = Some t -> is_Some (dict_get (at_users s) (rt_user_id t)))
  /\ (forall i k, dict_get (at_keys s) i = Some k -> km_scope k ∈ key_scopes).
Proof.
  intros s. destruct (ok_history ops empty_accounts ok_empty) as [Hu Ht Hk Ho Hs].
  split_and!; [apply (tb_unique _ _ _ Hu)|apply (tb_unique _ _ _ Ht)|apply (tb_unique _ _ _ Hk)|exact Ho|exact Hs].
Qed.

(** ** A refresh token is exchanged once *)

(** The operation stores a token with this hash. *)
Definition issues (token_hash : pystr) (op : account_op) : bool :=
  match op with
  | DoCreateToken _ h _ _ | DoRotate _ _ h _ _ => str_eqb h token_hash
  | _ => false
  end.
Definition absent (token_hash : pystr) (s : account_tables) : Prop :=
  forall i t, (i, t) ∈ at_tokens s -> rt_token_hash t <> token_hash.

Lemma absent_filter h f s : absent h s -> absent h (set_tokens s (List.filter f (at_tokens s))).
Proof. intros Ha i t [Hi _]%elem_filter. by eapply Ha. Qed.

Lemma absent_create_token h user_id new expires now s r s' :
  new <> h -> absent h s -> create_token token_refused user_id new expires now s = Ok (r, s') -> absent h s'.
Proof.
  intros Hne Ha ([] & _ & [= _ <-])%bind_ok. intros i t. cbn. rewrite elem_of_app, list_elem_of_singleton.
  intros [Hi|[= -> ->]]; [by eapply Ha|done].
Qed.

Lemma absent_rotate h old user_id new expires now s r s' :
  new <> h -> absent h s -> rotate token_refused old user_id new expires now s = Ok (r, s') -> absent h s'.
Proof.
  intros Hne Ha. unfold rotate. destruct (List.filter _ _); [by intros [= _ <-]|].
  intros ([? s1] & Hc & [= _ <-])%bind_ok. eapply absent_create_token; [done| |exact Hc]. by apply absent_filter.
Qed.

Lemma absent_op h s op : issues h op = false -> absent h s -> absent h (run_account_op s op).
Proof.
  assert (forall A (m : tx A), absent h s -> (forall a s', m s = Ok (a, s') -> absent h s') -> absent h (begin m s).2) as Hbegin.
  { intros A m Ha Hm. unfold begin. destruct (m s) as [[a s']|e]; [by eapply Hm|done]. }
  assert (forall s', absent h s -> at_tokens s' = at_tokens s -> absent h s') as Hsame.
  { intros s' Ha Et i t. rewrite Et. apply Ha. }
  intros Hi Ha. destruct op; cbn [run_account_op issues] in *; apply Hbegin; try done; intros a s'.
  - intros (x & _ & ([u s1] & ([] & _ & [= _ <-])%bind_ok & [= _ <-])%bind_ok)%bind_ok. by apply Hsame.
  - unfold update_user. destruct (get_by_id id s) as [u|]; [|by intros [= _ <-]].
    intros (x & _ & Hr)%bind_ok. destruct (no_changes data); [by injection Hr as _ <-|].
    apply bind_ok in Hr as ([u' s1] & Hu & [= _ <-]). unfold update in Hu.
    destruct (get_by_id id s); [|by injection Hu as _ <-]. apply bind_ok in Hu as ([] & _ & [= _ <-]). by apply Hsame.
  - unfold delete. destruct (get_by_id id s); intros [= _ <-]; [|done]. by apply (absent_filter h _ s).
  - apply absent_create_token; [|done]. intros ->. by rewrite (proj2 (str_eqb_eq h h)) in Hi.
  - apply absent_rotate; [|done]. intros ->. by rewrite (proj2 (str_eqb_eq h h)) in Hi.
  - intros [= _ <-]. by apply absent_filter.
  - intros [= _ <-]. by apply absent_filter.
  - intros [= _ <-]. by apply absent_filter.
  - intros ([] & _ & [= _ <-])%bind_ok. by apply Hsame.
  - unfold update_api_key. destruct (dict_get (at_keys s) id); [|by intros [= _ <-]].
    intros (k' & _ & ([] & _ & [= _ <-])%bind_ok)%bind_ok. by apply Hsame.
  - unfold revoke_api_key. destruct (dict_get (at_keys s) id); intros [= _ <-]; by apply Hsame.
  - unfold touch_last_used. intros [= _ <-]. destruct (dict_get (at_keys s) id); by apply Hsame.
Qed.

(** The rotation that answers true has removed the token it was given. *)
Lemma rotate_consumes old user_id new expires now s s' :
  accounts_ok s -> new <> old -> rotate token_refused old user_id new expires now s = Ok (true, s') -> absent old s'.
Proof.
  intros Hok Hne. unfold rotate. destruct (List.filter (consumable old user_id now) (at_tokens s)) as [|[j u] l] eqn:E; [done|].
  intros ([? s1] & Hc & [= <-])%bind_ok. eapply absent_create_token; [done| |exact Hc].
  assert ((j, u) ∈ List.filter (consumable old user_id now) (at_tokens s)) as Hj by (rewrite E; by left).
  apply elem_filter in Hj as [Hj Hcons]. pose proof Hcons as Hlive. unfold consumable, live_token in Hlive. cbn in Hlive. to_prop.
  intros i t [Hi Hno]%elem_filter Hh. apply negb_true_iff in Hno.
  assert (i = j) as ->.
  { eapply (tb_unique _ _ _ (ac_tokens s Hok)); [by apply dict_get_NoDup; [apply Hok|]..|].
    match goal with H : str_eqb _ _ = true |- _ => apply str_eqb_eq in H end. congruence. }
  assert (t = u) as ->; [|congruence].
  assert (dict_get (at_tokens s) j = Some t) as Hget1 by (apply dict_get_NoDup; [apply Hok|done]).
  assert (dict_get (at_tokens s) j = Some u) as Hget2 by (apply dict_get_NoDup; [apply Hok|done]). congruence.
Qed.

Lemma absent_dead h s user_id new expires now :
  absent h s -> get_user_id_by_hash h now s = None /\ rotate token_refused h user_id new expires now s = Ok (false, s).
Proof.
  intros Ha.
  assert (forall kv, kv ∈ at_tokens s -> live_token h now kv = false) as Hno.
  { intros [i t] Hi. unfold live_token. cbn. destruct (str_eqb (rt_token_hash t) h) eqn:E; [|done].
    apply str_eqb_eq in E. by apply Ha in Hi. }
  split.
  - unfold get_user_id_by_hash. destruct (List.find _ _) as [kv|] eqn:E; [|done].
    apply List.find_some in E as [Hin%list_elem_of_In Hl]. by rewrite Hno in Hl.
  - unfold rotate. rewrite (filter_none (consumable h user_id now)); [done|]. intros kv Hin. unfold consumable. by rewrite Hno.
Qed.

(** Once a refresh token has been exchanged for a new pair, it is never accepted again, by
    whatever later request and after whatever other operations, as long as no token with the
    same hash is issued. *)
Theorem refresh_token_exchanged_once (before after : list account_op) (s' : account_tables)
    (old new : pystr) (user_id : uuid) (expires_at now : Z) :
  begin (rotate token_refused old user_id new expires_at now) (account_history before) = (Ok true, s') ->
  new <> old -> forallb (fun op => negb (issues old op)) after = true ->
  forall user_id' new' expires_at' now',
    get_user_id_by_hash old now' (fold_left run_account_op after s') = None
    /\ (begin (rotate token_refused old user_id' new' expires_at' now') (fold_left run_account_op after s')).1 = Ok false.
Proof.
  intros Hr Hne Hafter user_id' new' expires_at' now'.
  assert (absent old s') as Ha.
  { unfold begin in Hr. destruct (rotate _ _ _ _ _ _ _) as [[b s1]|e] eqn:E; [|done]. injection Hr as -> ->.
    eapply rotate_consumes; [|done|exact E]. apply (ok_history before empty_accounts ok_empty). }
  assert (absent old (fold_left run_account_op after s')) as Ha2.
  { clear Hr. revert s' Ha Hafter. induction after as [|op ops IH]; cbn; intros s' Ha; [done|].
    intros [Hop%negb_true_iff Hops]%andb_true_iff. apply IH; [by apply absent_op|done]. }
  destruct (absent_dead _ _ user_id' new' expires_at' now' Ha2) as [-> Hf]. split; [done|]. unfold begin. by rewrite Hf.
Qed.
End preservation.

Definition test_ops : list account_op :=
  [DoCreateUser {| uc_email := #"a@b.c"; uc_password := #"p"; uc_is_superuser := false |} 0;
   DoCreateToken 1 #"h1" 100 0].
Definition nobody {A} (_ : A) : option exn := None.
Lemma refresh_token_exchanged_once_witness :
  let s' := (begin (rotate nobody #"h1" 1 #"h2" 100 10) (account_history nobody nobody nobody (fun p => Ok p) test_ops)).2 in
  begin (rotate nobody #"h1" 1 #"h2" 100 10) (account_history nobody nobody nobody (fun p => Ok p) test_ops) = (Ok true, s')
  /\ get_user_id_by_hash #"h2" 20 s' = Some 1%N
  /\ get_user_id_by_hash #"h1" 20 (fold_left (run_account_op nobody nobody nobody (fun p => Ok p)) [DoCreateToken 1 #"h3" 100 15] s') = None.
Proof.
  intros s'. assert (begin (rotate nobody #"h1" 1 #"h2" 100 10) (account_history nobody nobody nobody (fun p => Ok p) test_ops) = (Ok true, s')) as Hr
    by (vm_compute; reflexivity).
  split; [exact Hr|]. split; [vm_compute; reflexivity|].
  exact (proj1 (refresh_token_exchanged_once nobody nobody nobody (fun p => Ok p) test_ops [DoCreateToken 1 #"h3" 100 15] s'
    #"h1" #"h2" 1 100 10 Hr ltac:(discriminate) eq_refl 1%N #"h4" 200 20)).
Defined.

(** ** The services over the tables

    The calls of [Auth], served by the gateways; the password hasher, the token library, the
    hashes and the source of random text are parameters. *)
Section services.
Context `{Unicode} `{PyFloat} `{AuthHost} `{Scans}.
Context (user_refused : UserModel -> option exn) (token_refused : RefreshTokenModel -> option exn)
  (key_refused : APIKeyModel -> option exn) (hash_password : pystr -> res pystr).
Context (verify : pystr -> pystr -> res bool) (hash_key : pystr -> res pystr) (random_text : N -> Z -> pystr).
Context (decode_token : pystr -> pystr -> res jobject) (access_token : N -> pystr -> pystr -> bool -> pystr)
  (refresh_token : N -> pystr -> pystr) (hash_token : pystr -> pystr).

(** The clock, and the number of texts and tokens drawn so far. *)
Record account_world := { aw_tables : account_tables; aw_now : Z; aw_drawn : N }.
Definition with_tables (s : account_tables) (w : account_world) : account_world :=
  {| aw_tables := s; aw_now := aw_now w; aw_drawn := aw_drawn w |}.
Definition drawn (w : account_world) : account_world :=
  {| aw_tables := aw_tables w; aw_now := aw_now w; aw_drawn := (aw_drawn w + 1)%N |}.
Definition commit {A} (m : tx A) (w : account_world) : res A * account_world :=
  let '(r, s) := begin m (aw_tables w) in (r, with_tables s w).

#[local] Existing Instance auth_signature.
Definition serve (c : auth_call) (w : account_world) : res (auth_answer c) * account_world :=
  let s := aw_tables w in
  let now := aw_now w in
  match c as c return res (auth_answer c) * account_world with
  | Now => (Ok now, w)
  | HashKey plain_key => (hash_key plain_key, w)
  | TokenUrlsafe nbytes => (Ok (random_text (aw_drawn w) nbytes), drawn w)
  | GetAuthByHash key_hash => (Ok (get_auth_by_hash key_hash s), w)
  | TouchLastUsed key_id used_at => commit (touch_last_used key_id used_at) w
  | GetApiKey key_id => (Ok (get_api_key key_id s), w)
  | ListApiKeys offset limit => (list_api_keys offset limit s, w)
  | CreateApiKey data => commit (create_api_key key_refused data now) w
  | UpdateApiKey key_id data => commit (update_api_key key_refused key_id data) w
  | RevokeApiKey key_id => commit (revoke_api_key key_id) w
  | DecodeToken token expected_type => (decode_token token expected_type, w)
  | EncodeAccessToken user_id email superuser => (Ok (access_token (aw_drawn w) user_id email superuser), drawn w)
  | EncodeRefreshToken user_id => (Ok (refresh_token (aw_drawn w) user_id), drawn w)
  | HashToken token => (Ok (hash_token token), w)
  | GetUserIdByEmail email => (Ok (get_user_id_by_email email s), w)
  | GetHashedPassword email => (Ok (get_hashed_password email s), w)
  | VerifyPassword password hashed => (verify password hashed, w)
  | IsUserActive user_id => (Ok (is_user_active user_id s), w)
  | IsSuperuser user_id => (Ok (is_superuser user_id s), w)
  | GetUser user_id => (Ok (get_user user_id s), w)
  | DeleteExpiredByUser user_id =>
      let '(r, w) := commit (delete_expired_by_user user_id now) w in (_ ← r; Ok tt, w)
  | CreateRefresh user_id token_hash expires_at => commit (create_token token_refused user_id token_hash expires_at now) w
  | GetRefreshByHash token_hash => (Ok (get_user_id_by_hash token_hash now s), w)
  | RotateRefresh old user_id token_hash expires_at => commit (rotate token_refused old user_id token_hash expires_at now) w
  | DeleteRefresh token_hash =>
      let '(r, w) := commit (delete_token token_hash) w in (_ ← r; Ok tt, w)
  end.

(** *** Sessions *)

(** No stored token has the hash of one that is still to be drawn, and tokens drawn at different
    times have different hashes: their claims hold a random identifier. *)
Definition unissued (w : account_world) : Prop :=
  forall n uid, (aw_drawn w <= n)%N -> absent (hash_token (refresh_token n uid)) (aw_tables w).
Hypothesis (distinct_hashes : forall n m uid uid', hash_token (refresh_token n uid) = hash_token (refresh_token m uid') -> n = m).

Abbreviation run := (run_state serve).

Lemma find_snoc_live h now (l : list (uuid * RefreshTokenModel)) x :
  (forall kv, kv ∈ l -> rt_token_hash kv.2 <> h) -> live_token h now x = true -> List.find (live_token h now) (l ++ [x]) = Some x.
Proof.
  intros Ha Hx. induction l as [|y l IH]; cbn; [by rewrite Hx|].
  destruct (live_token h now y) eqn:E; [|apply IH; intros kv Hkv; apply Ha; by right].
  unfold live_token in E. to_prop. destruct (Ha y); [by left|by apply str_eqb_eq].
Qed.

(** The token just created is the only one of its hash, and live until it expires. *)
Lemma created_token_live user_id h expires now s s' :
  absent h s -> create_token token_refused user_id h expires now s = Ok (tt, s') ->
  at_users s' = at_users s /\ forall later, (later < expires)%Z -> get_user_id_by_hash h later s' = Some user_id.
Proof.
  intros Ha ([] & _ & [= <-])%bind_ok. split; [done|]. intros later Hl. unfold get_user_id_by_hash. cbn [at_tokens].
  rewrite (find_snoc_live h later _ (at_next s, _)); [done|by intros [i t]; apply Ha|]. unfold live_token. cbn.
  rewrite (proj2 (str_eqb_eq h h) eq_refl). by apply Z.ltb_lt.
Qed.

(** Serving the next call. *)
Ltac serve_step := unfold mbind, prog_bind; cbn [pbind perform run_state serve]; unfold mret, prog_ret, lift.
Ltac serve_steps := repeat progress serve_step.

(** The request that exchanges a live token, served from these tables. *)
Lemma run_refresh h w user_id u :
  get_user_id_by_hash h (aw_now w) (aw_tables w) = Some user_id -> get_by_id user_id (aw_tables w) = Some u ->
  um_is_active u = true ->
  run (refresh_access_token h) w =
    let access := access_token (aw_drawn w) (uuid_str user_id) (um_email u) (um_is_superuser u) in
    let new := refresh_token (aw_drawn w + 1) (uuid_str user_id) in
    let '(r, s) := begin (rotate token_refused h user_id (hash_token new)
      (aw_now w + refresh_token_expire_days * microsecond_day)%Z (aw_now w)) (aw_tables w) in
    (match r with
     | Ok true => Ok (bearer_tokens access new)
     | Ok false => raise TokenExpiredError #"Invalid or expired refresh token"
     | Raise e => Raise e
     end,
     {| aw_tables := s; aw_now := aw_now w; aw_drawn := (aw_drawn w + 2)%N |}).
Proof.
  intros Hh Hu Hact. unfold refresh_access_token. serve_step. rewrite Hh. serve_step. unfold is_user_active. rewrite Hu, Hact.
  cbn [negb]. serve_step. unfold get_user. rewrite Hu. cbn [fmap option_fmap option_map user_view us_email us_is_superuser].
  serve_step. cbn [drawn aw_drawn aw_now]. serve_step. unfold commit. cbn [aw_tables drawn]. destruct (begin _ _) as [r s].
  unfold with_tables, drawn. cbn [aw_drawn aw_now]. replace (aw_drawn w + 1 + 1)%N with (aw_drawn w + 2)%N by lia.
  by destruct r as [[]|].
Qed.

Lemma run_refresh_dead h w :
  get_user_id_by_hash h (aw_now w) (aw_tables w) = None ->
  run (refresh_access_token h) w = (raise TokenExpiredError #"Invalid or expired refresh token", w).
Proof. intros Hh. unfold refresh_access_token. serve_step. by rewrite Hh. Qed.

(** What a login that succeeded has done. *)
Lemma run_login email password w t w1 :
  run (login email password) w = (Ok t, w1) ->
  exists user_id u, get_by_email email (aw_tables w) = Some (user_id, u)
    /\ verify password (um_hashed_password u) = Ok true /\ is_user_active user_id (aw_tables w) = true
    /\ tk_refresh_token t = refresh_token (aw_drawn w + 1) (uuid_str user_id)
    /\ aw_now w1 = aw_now w /\ aw_drawn w1 = (aw_drawn w + 2)%N
    /\ exists s, (begin (delete_expired_by_user user_id (aw_now w)) (aw_tables w)).2 = s
       /\ create_token token_refused user_id (hash_token (tk_refresh_token t))
            (aw_now w + refresh_token_expire_days * microsecond_day)%Z (aw_now w) s = Ok (tt, aw_tables w1).
Proof.
  unfold login. serve_step. unfold get_user_id_by_email. destruct (get_by_email email (aw_tables w)) as [[user_id u]|] eqn:Eu; [|done].
  cbn [fmap option_fmap option_map fst]. serve_step. unfold get_hashed_password. rewrite Eu. cbn [fmap option_fmap option_map snd].
  serve_step. destruct (verify password (um_hashed_password u)) as [[]|] eqn:Ev; [|done..]. cbn [negb]. serve_step.
  destruct (is_user_active user_id (aw_tables w)) eqn:Ea; [|done]. cbn [negb]. serve_step. unfold commit.
  destruct (begin (delete_expired_by_user _ _) _) as [[n|] s] eqn:Ed; [|done].
  serve_step. cbn [res_bind]. serve_step. unfold commit, begin, with_tables, drawn. cbn [aw_tables aw_now aw_drawn].
  lazymatch goal with |- context [create_token token_refused user_id ?h ?x ?now ?tb] =>
    destruct (create_token token_refused user_id h x now tb) as [[[] s1]|] eqn:Ec end; [|done]. intros [= <- <-].
  exists user_id, u. split_and!; try done; [cbn [drawn aw_drawn with_tables]; lia|]. exists s. split; [exact (f_equal snd Ed)|exact Ec].
Qed.

Lemma absent_expired h user_id now s : absent h s -> absent h (begin (delete_expired_by_user user_id now) s).2.
Proof. apply (absent_filter h _ s). Qed.
Lemma ok_expired user_id now s : accounts_ok s -> accounts_ok (begin (delete_expired_by_user user_id now) s).2.
Proof. apply (ok_tokens s). Qed.

Lemma live_owner h now s uid : get_user_id_by_hash h now s = Some uid ->
  exists kv, kv ∈ at_tokens s /\ live_token h now kv = true /\ rt_user_id kv.2 = uid.
Proof.
  unfold get_user_id_by_hash. destruct (List.find _ _) as [kv|] eqn:E; [|done]. intros [= <-].
  apply List.find_some in E as [Hin%list_elem_of_In Hl]. by exists kv.
Qed.
Lemma live_hash h now kv : live_token h now kv = true -> rt_token_hash kv.2 = h.
Proof. unfold live_token. intros Hl. to_prop. by apply str_eqb_eq. Qed.

Lemma create_token_total user_id h expires now s :
  (forall row, token_refused row = None) -> absent h s -> is_Some (get_by_id user_id s) ->
  exists s', create_token token_refused user_id h expires now s = Ok (tt, s').
Proof.
  intros Hall Ha [u Hu]. unfold create_token, check_token. rewrite Hall. cbn [rt_token_hash rt_user_id].
  destruct (existsb _ _) eqn:E; [|rewrite Hu; cbn; by eexists].
  apply existsb_exists in E as ([i t] & Hin%list_elem_of_In & Hh%str_eqb_eq). by apply Ha in Hin.
Qed.

(** The exchange of a live token of an active user. *)
Lemma refresh_live h w uid u :
  (forall row, token_refused row = None) -> (0 < refresh_token_expire_days)%Z -> accounts_ok (aw_tables w) -> unissued w ->
  get_user_id_by_hash h (aw_now w) (aw_tables w) = Some uid -> get_by_id uid (aw_tables w) = Some u -> um_is_active u = true ->
  exists t w', run (refresh_access_token h) w = (Ok t, w') /\ hash_token (tk_refresh_token t) <> h
    /\ accounts_ok (aw_tables w') /\ unissued w' /\ absent h (aw_tables w') /\ at_users (aw_tables w') = at_users (aw_tables w)
    /\ aw_now w' = aw_now w
    /\ get_user_id_by_hash (hash_token (tk_refresh_token t)) (aw_now w) (aw_tables w') = Some uid.
Proof.
  intros Hall Hdays Hok Hun Hh Hu Hact. rewrite (run_refresh h w uid u) by done. cbv zeta.
  set (new := hash_token (refresh_token (aw_drawn w + 1) (uuid_str uid))). set (expires := (aw_now w + _)%Z).
  assert (absent new (aw_tables w)) as Hnew by (apply Hun; lia).
  pose proof (live_owner _ _ _ _ Hh) as ([i t] & Hin & Hlive & Howner).
  assert (new <> h) as Hne by (intros E; apply live_hash in Hlive; apply Hnew in Hin; by rewrite E in Hin).
  assert ((i, t) ∈ List.filter (consumable h uid (aw_now w)) (at_tokens (aw_tables w))) as Hf.
  { apply elem_filter. split; [done|]. unfold consumable. rewrite Hlive. by apply N.eqb_eq. }
  destruct (create_token_total uid new expires (aw_now w)
    (set_tokens (aw_tables w) (List.filter (fun kv => negb (consumable h uid (aw_now w) kv)) (at_tokens (aw_tables w)))))
    as [s' Hs']; [done|by apply absent_filter|by exists u|].
  assert (rotate token_refused h uid new expires (aw_now w) (aw_tables w) = Ok (true, s')) as Hr.
  { unfold rotate. destruct (List.filter (consumable _ _ _) _); [by apply elem_of_nil in Hf|]. by rewrite Hs'. }
  unfold begin. rewrite Hr. do 2 eexists. split; [reflexivity|]. cbn [tk_refresh_token bearer_tokens aw_tables aw_now].
  fold new. split; [done|]. split; [by eapply ok_rotate|]. split; [|split; [by eapply rotate_consumes|]].
  - intros n uid' Hn. cbn [aw_drawn] in Hn. cbn [aw_tables]. eapply absent_rotate; [|apply Hun; lia|exact Hr].
    intros E%distinct_hashes. lia.
  - edestruct (created_token_live uid new expires (aw_now w)) as [-> Hl]; [|exact Hs'|]; [by apply absent_filter|].
    split; [done|]. split; [done|]. apply Hl. unfold expires, microsecond_day. lia.
Qed.

(** The same state at a later time. *)
Definition at_time (now : Z) (w : account_world) : account_world :=
  {| aw_tables := aw_tables w; aw_now := now; aw_drawn := aw_drawn w |}.
Definition expired_refresh {A} : res A := raise TokenExpiredError #"Invalid or expired refresh token".


Lemma created_token_expired uid h expires now s s' later :
  absent h s -> create_token token_refused uid h expires now s = Ok (tt, s') -> (expires <= later)%Z ->
  get_user_id_by_hash h later s' = None.
Proof.
  intros Ha ([] & _ & [= <-])%bind_ok Hx. unfold get_user_id_by_hash. cbn [at_tokens].
  destruct (List.find _ _) as [[i t]|] eqn:E; [exfalso|done]. apply List.find_some in E as [Hin%list_elem_of_In Hl].
  apply elem_of_app in Hin as [Hin|[= -> ->]%list_elem_of_singleton]; [by apply live_hash in Hl; apply Ha in Hin|].
  unfold live_token in Hl. cbn in Hl. to_prop. lia.
Qed.

Lemma absent_none h now s : absent h s -> get_user_id_by_hash h now s = None.
Proof. intros Ha. by apply (absent_dead token_refused h s 0 [] 0 now). Qed.
Lemma absent_deleted h s : absent h (set_tokens s (List.filter (fun kv => negb (str_eqb (rt_token_hash kv.2) h)) (at_tokens s))).
Proof.
  intros i t [_ Hne]%elem_filter Hh. cbn in Hne. by rewrite (proj2 (str_eqb_eq _ _) Hh) in Hne.
Qed.

(** Deleting a user takes the sessions along. *)
Lemma deleted_absent h uid now s s' :
  accounts_ok s -> get_user_id_by_hash h now s = Some uid -> begin (delete uid) s = (Ok true, s') -> absent h s'.
Proof.
  intros Hok Hl Hd. assert (s' = delete_row uid s) as ->.
  { unfold begin, delete in Hd. destruct (get_by_id uid s); [by injection Hd as <-|done]. }
  destruct (live_owner _ _ _ _ Hl) as ([j u] & Hin & Hh%live_hash & Howner). intros i t [Hi Hne]%elem_filter Ht.
  assert (i = j) as ->.
  { eapply (tb_unique _ _ _ (ac_tokens s Hok)); [by apply dict_get_NoDup; [apply Hok|]..|]. cbn in Hh. congruence. }
  assert (dict_get (at_tokens s) j = Some t) as Ht1 by (by apply dict_get_NoDup; [apply Hok|]).
  assert (dict_get (at_tokens s) j = Some u) as Hu1 by (by apply dict_get_NoDup; [apply Hok|]).
  assert (t = u) as -> by congruence. cbn in Hne, Howner. rewrite Howner, N.eqb_refl in Hne. done.
Qed.

(** Deactivating a user keeps the sessions. *)
Lemma deactivated_user uid data now s v s' u :
  get_by_id uid s = Some u -> uu_is_active data = Some false ->
  begin (update_user user_refused hash_password uid data now) s = (Ok v, s') ->
  at_tokens s' = at_tokens s /\ is_user_active uid s' = false.
Proof.
  intros Hu Hd. unfold begin, update_user. rewrite Hu.
  destruct (match uu_password data with Some _ => _ | None => _ end) as [hashed|]; [|done]. cbn [mbind res_bind].
  replace (no_changes data) with false by (unfold no_changes; rewrite Hd; by destruct (uu_email data), (uu_password data)).
  unfold update. rewrite Hu. destruct (check_user _ _ _ _) as [[]|]; [|done]. cbn. intros [= _ <-]. split; [done|].
  unfold is_user_active, get_by_id. cbn [at_users set_users]. rewrite dict_get_set, decide_True by done.
  cbn. by rewrite Hd.
Qed.

(** C26: the life of a session over the tables: the refresh token that a login returned can be
    exchanged until it expires; the exchange returns a different one, which can be exchanged in
    turn, while the first is from then on refused as expired. It is also refused after it
    expired, after a logout, and after the user is deleted; and a user deactivated meanwhile is
    refused as inactive. *)
Theorem session_life_cycle (email password : pystr) (w w1 : account_world) (t : tokens) (later : Z) :
  accounts_ok (aw_tables w) -> unissued w -> (forall row, token_refused row = None) ->
  run (login email password) w = (Ok t, w1) ->
  let h := hash_token (tk_refresh_token t) in
  let expires := (aw_now w + refresh_token_expire_days * microsecond_day)%Z in
  exists user_id, get_user_id_by_email email (aw_tables w) = Some user_id
  /\ ((aw_now w <= later < expires)%Z ->
      (exists t2 w2, run (refresh_access_token h) (at_time later w1) = (Ok t2, w2)
         /\ hash_token (tk_refresh_token t2) <> h
         /\ (run (refresh_access_token h) w2).1 = expired_refresh
         /\ exists t3 w3, run (refresh_access_token (hash_token (tk_refresh_token t2))) w2 = (Ok t3, w3))
      /\ (forall data v s, uu_is_active data = Some false ->
            begin (update_user user_refused hash_password user_id data later) (aw_tables w1) = (Ok v, s) ->
            (run (refresh_access_token h) (with_tables s (at_time later w1))).1
              = raise InvalidCredentialsError #"User is inactive")
      /\ (forall s, begin (delete user_id) (aw_tables w1) = (Ok true, s) ->
            (run (refresh_access_token h) (with_tables s (at_time later w1))).1 = expired_refresh))
  /\ ((expires <= later)%Z -> (run (refresh_access_token h) (at_time later w1)).1 = expired_refresh)
  /\ (run (logout h) (at_time later w1)).1 = Ok tt
  /\ (run (refresh_access_token h) (run (logout h) (at_time later w1)).2).1 = expired_refresh.
Proof.
  intros Hok Hun Hall Hlogin h expires. destruct (run_login _ _ _ _ _ Hlogin) as (uid & u & Hu & _ & Hact & Ht & Hnow & Hdrawn & s0 & Hs0 & Hc).
  exists uid. split; [unfold get_user_id_by_email; by rewrite Hu|]. fold h expires in Hc.
  assert (accounts_ok s0) as Hok0 by (rewrite <- Hs0; by apply ok_expired).
  assert (absent h s0) as Ha0 by (rewrite <- Hs0; apply absent_expired; unfold h; rewrite Ht; apply Hun; lia).
  assert (accounts_ok (aw_tables w1)) as Hok1 by (by eapply ok_create_token).
  assert (unissued w1) as Hun1.
  { intros n uid' Hn. rewrite Hdrawn in Hn.
    assert (absent (hash_token (refresh_token n uid')) s0) as Ha by (rewrite <- Hs0; apply absent_expired, Hun; lia).
    eapply absent_create_token; [|exact Ha|exact Hc].
    unfold h. rewrite Ht. intros E%distinct_hashes. lia. }
  destruct (created_token_live _ _ _ _ _ _ Ha0 Hc) as [Husers Hlive]. rewrite <- Hs0 in Husers. cbn in Husers.
  unfold is_user_active in Hact. destruct (get_by_id uid (aw_tables w)) as [u'|] eqn:Eu; [|done].
  assert (get_by_id uid (aw_tables w1) = Some u') as Eu1 by (unfold get_by_id; by rewrite Husers).
  split; [intros [Hle Hlt]; split; [|split]|split; [|split]].
  - destruct (refresh_live h (at_time later w1) uid u') as (t2 & w2 & -> & Hne & Hok2 & Hun2 & Ha2 & Hus & Hn2 & Hl2);
      [done|unfold expires, microsecond_day in Hlt; lia|done|done|by apply Hlive|done..|].
    exists t2, w2. split_and!; [done..| |].
    + rewrite run_refresh_dead; [done|]. by apply absent_none.
    + edestruct (refresh_live (hash_token (tk_refresh_token t2)) w2 uid u') as (t3 & w3 & E & _); last by exists t3, w3.
      all: try done. all: [> unfold expires, microsecond_day in Hlt; lia|by rewrite Hn2|].
      unfold get_by_id. by rewrite Hus.
  - intros data v s Hd Hup. unfold refresh_access_token. serve_step. cbn [with_tables at_time aw_tables aw_now].
    destruct (deactivated_user uid data later (aw_tables w1) v s u' Eu1 Hd Hup) as [Etok Einact].
    unfold get_user_id_by_hash. rewrite Etok. fold (get_user_id_by_hash h later (aw_tables w1)). rewrite Hlive by done.
    serve_step. cbn [with_tables at_time aw_tables]. by rewrite Einact.
  - intros s Hd. rewrite run_refresh_dead; [done|]. apply absent_none. cbn [with_tables aw_tables].
    by eapply deleted_absent; [exact Hok1|apply Hlive|exact Hd].
  - intros Hx. rewrite run_refresh_dead; [done|]. cbn [at_time aw_tables aw_now]. by eapply created_token_expired.
  - by unfold logout.
  - unfold logout. cbn [perform run_state serve]. rewrite run_refresh_dead; [done|].
    apply absent_none. cbn. apply absent_deleted.
Qed.

(** *** API keys *)

Lemma find_key h id k s : accounts_ok s -> dict_get (at_keys s) id = Some k -> km_key_hash k = h ->
  get_auth_by_hash h s = Some (_to_auth (id, k)).
Proof.
  intros Hok Hk Hh. unfold get_auth_by_hash.
  by rewrite (proj2 (find_column km_key_hash (at_next s) (at_keys s) h id k (ac_keys s Hok)) (conj Hk Hh)).
Qed.

(** The answer to a request that presents a stored key. *)
Definition key_verdict (id : uuid) (k : APIKeyModel) (now : Z) : res AuthenticatedPrincipal :=
  if negb (km_is_active k) then raise APIKeyRevokedError #"API key has been revoked"
  else if match km_expires_at k with Some t => (t <? now)%Z | None => false end
  then raise APIKeyExpiredError #"API key has expired"
  else Ok {| ap_key_id := id; ap_key_prefix := km_key_prefix k; ap_scope := km_scope k; ap_key_type := #"managed" |}.

Lemma run_authenticate plain h id k w :
  accounts_ok (aw_tables w) -> hash_key plain = Ok h -> dict_get (at_keys (aw_tables w)) id = Some k -> km_key_hash k = h ->
  (run (authenticate plain) w).1 = key_verdict id k (aw_now w).
Proof.
  intros Hok Hhash Hk Hh. unfold authenticate, key_verdict. serve_step. rewrite Hhash. serve_step. rewrite (find_key h id k) by done.
  cbn [_to_auth ka_is_active ka_expires_at ka_last_used_at]. destruct (km_is_active k); [|done]. cbn [negb]. serve_step.
  destruct (match km_expires_at k with Some _ => _ | None => _ end); [done|].
  destruct (match km_last_used_at k with Some _ => _ | None => _ end); [|done]. serve_step. unfold commit, begin, touch_last_used.
  by cbn.
Qed.

Lemma run_create_key data w r w1 :
  accounts_ok (aw_tables w) -> run (Auth.create_api_key data) w = (Ok r, w1) ->
  exists h, hash_key (kr_plain_key r) = Ok h /\ accounts_ok (aw_tables w1)
    /\ dict_get (at_keys (aw_tables w1)) (kr_id r)
       = Some {| km_name := kc_name data; km_key_hash := h; km_key_prefix := kr_key_prefix r; km_is_active := true;
                 km_scope := kc_scope data; km_created_at := aw_now w; km_last_used_at := None; km_expires_at := None |}.
Proof.
  intros Hok. unfold Auth.create_api_key, generate_api_key. serve_step.
  match goal with |- context [hash_key ?k] => destruct (hash_key k) as [h|e] eqn:Eh end; [|done].
  serve_step. unfold commit, begin.
  match goal with |- context [create_api_key key_refused ?d ?now ?tb] =>
    destruct (create_api_key key_refused d now tb) as [[v s]|e] eqn:Ec end; [|done].
  intros [= <- <-]. exists h. cbn [kr_plain_key kr_id kr_key_prefix with_tables aw_tables]. split; [done|].
  split; [by eapply ok_create_key; [exact Hok|exact Ec]|].
  apply bind_ok in Ec as ([] & _ & [= <- <-]). cbn [at_keys kv_id key_view].
  rewrite dict_get_snoc, decide_True by (done || apply (table_new km_key_hash), Hok). done.
Qed.

Lemma set_key_expires expires k :
  set_key_fields [(#"expires_at", KTime expires)] k
  = Ok {| km_name := km_name k; km_key_hash := km_key_hash k; km_key_prefix := km_key_prefix k; km_is_active := km_is_active k;
          km_scope := km_scope k; km_created_at := km_created_at k; km_last_used_at := km_last_used_at k;
          km_expires_at := Some expires |}.
Proof. by destruct k. Qed.

(** C8: over tables whose identifiers and hashes are unique, in the state that the creation of
    an API key leaves: the key authenticates, whatever the time, with its identifier, its prefix
    and the scope it was created with. After it is revoked, which succeeds, it is refused as
    revoked; after it is given an expiry instead, it is refused as expired at any later time,
    and authenticates as before until then. *)
Theorem api_key_life_cycle (data : APIKeyCreateDTO) (w w1 : account_world) (r : APIKeyCreateResultDTO) (later : Z) :
  accounts_ok (aw_tables w) -> run (Auth.create_api_key data) w = (Ok r, w1) ->
  let principal := {| ap_key_id := kr_id r; ap_key_prefix := kr_key_prefix r; ap_scope := kc_scope data;
                      ap_key_type := #"managed" |} in
  (run (authenticate (kr_plain_key r)) (at_time later w1)).1 = Ok principal
  /\ (run (Auth.revoke_api_key (kr_id r)) w1).1 = Ok tt
  /\ (run (authenticate (kr_plain_key r)) (at_time later (run (Auth.revoke_api_key (kr_id r)) w1).2)).1
     = raise APIKeyRevokedError #"API key has been revoked"
  /\ forall expires v w2,
       run (Auth.update_api_key (kr_id r) {| ku_changes := [(#"expires_at", KTime expires)] |}) w1 = (Ok v, w2) ->
       (run (authenticate (kr_plain_key r)) (at_time later w2)).1
       = if (expires <? later)%Z then raise APIKeyExpiredError #"API key has expired" else Ok principal.
Proof.
  intros Hok Hcreate principal. destruct (run_create_key _ _ _ _ Hok Hcreate) as (h & Hh & Hok1 & Hk).
  split; [by rewrite (run_authenticate _ h (kr_id r) _ (at_time later w1) Hok1 Hh Hk)|].
  assert (run (Auth.revoke_api_key (kr_id r)) w1 = (Ok tt, with_tables (begin (revoke_api_key (kr_id r)) (aw_tables w1)).2 w1)) as ->.
  { unfold Auth.revoke_api_key. serve_step. unfold commit, begin, revoke_api_key. by rewrite Hk. }
  split; [done|]. unfold begin, revoke_api_key at 1. rewrite Hk. cbn [snd]. split.
  - etrans; [eapply run_authenticate; [|exact Hh| |]|]; cbn [with_tables at_time aw_tables].
    + eapply ok_set_key; [done|exact Hk|by apply (ac_scope _ Hok1 _ _ Hk)|by apply (key_still_free _ _ _ Hok1 Hk)].
    + cbn [at_keys set_keys]. by rewrite dict_get_set, decide_True.
    + done.
    + done.
  - intros expires v w2. unfold Auth.update_api_key. serve_step. unfold commit, begin, update_api_key. rewrite Hk.
    cbn [ku_changes]. rewrite set_key_expires. cbn [mbind res_bind].
    match goal with |- context [check_key key_refused ?i ?k ?tb] =>
      destruct (check_key key_refused i k tb) as [[]|] eqn:Ec end; [|done]. cbn. intros [= _ <-]. apply check_key_free in Ec as [Hs Hf].
    etrans; [eapply run_authenticate; [by eapply ok_set_key; [exact Hok1|exact Hk|exact Hs|exact Hf]|exact Hh| |]|].
    + cbn [at_time with_tables aw_tables at_keys set_keys]. by rewrite dict_get_set, decide_True.
    + done.
    + unfold key_verdict. cbn. by destruct (expires <? later)%Z.
Qed.
End services.

(** A small instance: the hash of a text is the text, and a token is its serial number. *)
#[local] Instance test_host : AuthHost := {| MASTER_API_KEY := []; refresh_token_expire_days := 7; parse_uuid _ := None |}.
#[local] Instance test_scan : Scans := heap_order.
Definition test_serve : forall c : auth_call, account_world -> res (auth_answer c) * account_world :=
  serve nobody nobody (fun p h => Ok (str_eqb p h)) (fun k => Ok k) (fun n _ => repeat n 48) (fun _ _ => Ok [])
    (fun n _ _ _ => [n]) (fun n _ => [n]) id.
Definition test_world : account_world :=
  {| aw_tables := account_history nobody nobody nobody (fun p => Ok p)
       [DoCreateUser {| uc_email := #"a@b.c"; uc_password := #"p"; uc_is_superuser := false |} 0];
     aw_now := 100; aw_drawn := 65 |}.
Definition logged_in : account_world := (@run_state Auth.auth_signature _ test_serve _ (login #"a@b.c" #"p") test_world).2.

Lemma session_life_cycle_witness :
  @run_state Auth.auth_signature _ test_serve _ (login #"a@b.c" #"p") test_world = (Ok (bearer_tokens #"A" #"B"), logged_in)
  /\ (@run_state Auth.auth_signature _ test_serve _ (refresh_access_token #"B")
        (@run_state Auth.auth_signature _ test_serve _ (logout #"B") (at_time 200 logged_in)).2).1 = expired_refresh.
Proof.
  assert (@run_state Auth.auth_signature _ test_serve _ (login #"a@b.c" #"p") test_world
          = (Ok (bearer_tokens #"A" #"B"), logged_in)) as Hl by (vm_compute; reflexivity).
  split; [exact Hl|].
  destruct (session_life_cycle nobody nobody nobody (fun p => Ok p) (fun p h => Ok (str_eqb p h)) (fun k => Ok k)
    (fun n _ => repeat n 48) (fun _ _ => Ok []) (fun n _ _ _ => [n]) (fun n _ => [n]) id) with
    (email := #"a@b.c") (password := #"p") (w := test_world) (w1 := logged_in) (t := bearer_tokens #"A" #"B") (later := 200%Z)
    as (uid & _ & _ & _ & _ & Hout).
  - intros n m _ _ E. injection E as E. exact E.
  - apply ok_history, ok_empty.
  - intros n uid _ i t Hi. by apply elem_of_nil in Hi.
  - reflexivity.
  - exact Hl.
  - exact Hout.
Defined.

Definition test_key : APIKeyCreateDTO := {| kc_name := #"ci"; kc_scope := #"read-only" |}.
Definition with_key : account_world := (@run_state Auth.auth_signature _ test_serve _ (Auth.create_api_key test_key) test_world).2.
Definition made_key : APIKeyCreateResultDTO :=
  {| kr_id := 2; kr_name := #"ci"; kr_plain_key := #"nnk_" ++ repeat 65%N 48; kr_key_prefix := #"nnk_AAAA"; kr_created_at := 100 |}.
Lemma api_key_life_cycle_witness :
  @run_state Auth.auth_signature _ test_serve _ (Auth.create_api_key test_key) test_world = (Ok made_key, with_key)
  /\ (@run_state Auth.auth_signature _ test_serve _ (authenticate (kr_plain_key made_key)) (at_time 500 with_key)).1
     = Ok {| ap_key_id := 2; ap_key_prefix := #"nnk_AAAA"; ap_scope := #"read-only"; ap_key_type := #"managed" |}.
Proof.
  assert (@run_state Auth.auth_signature _ test_serve _ (Auth.create_api_key test_key) test_world = (Ok made_key, with_key)) as Hc
    by (vm_compute; reflexivity).
  split; [exact Hc|].
  exact (proj1 (api_key_life_cycle nobody nobody (fun p h => Ok (str_eqb p h)) (fun k => Ok k)
    (fun n _ => repeat n 48) (fun _ _ => Ok []) (fun n _ _ _ => [n]) (fun n _ => [n]) id
    test_key test_world with_key made_key 500 (ok_history _ _ _ _ _ _ ok_empty) Hc)).
Defined.
