(* ===== verification/Library.v ===== *)
(** * The library of stored commands and scripts

    [app/adapters/persistence/command_management.py] and [script_gateway.py] with
    [dao/command.py] and [dao/script.py]; [command_management_service.py] and
    [script_management_service.py]; the handlers of [app/api/v2/commands_handlers/crud.py] and
    [listing.py], and of [scripts_handlers/].  The two halves are the same program over two
    kinds of rows: the class [Entity] holds what differs between them. *)
From stdpp Require Import sorting.
From S2P Require Import Prelude PyStr Errors Json Effects Dto Template Packs Query Codec Pagination.

(** ** Data ([dto/command_management.py], [dto/script_management.py]) *)

Record CommandParameterDTO := {
  pd_name : pystr; pd_type : pystr; pd_required : bool; pd_default : json; pd_description : option pystr }.
Record ScriptStepDTO := {
  sp_label : pystr; sp_type : pystr; sp_command : option pystr; sp_command_id : option uuid;
  sp_params : list (pystr * json); sp_on_failure : pystr }.
Record CommandCreateDTO := {
  cc_name : pystr; cc_command : pystr; cc_description : option pystr;
  cc_parameters : list CommandParameterDTO; cc_tags : list pystr; cc_timeout : Z }.
Record ScriptCreateDTO := {
  sx_name : pystr; sx_steps : list ScriptStepDTO; sx_description : option pystr; sx_tags : list pystr; sx_timeout : Z }.
Record CommandViewDTO := {
  cv_id : uuid; cv_name : pystr; cv_description : option pystr; cv_command : pystr;
  cv_parameters : list CommandParameterDTO; cv_tags : list pystr; cv_timeout : Z; cv_created_at : Z; cv_updated_at : Z }.
Record ScriptViewDTO := {
  sv_id : uuid; sv_name : pystr; sv_description : option pystr; sv_steps : list ScriptStepDTO;
  sv_tags : list pystr; sv_timeout : Z; sv_created_at : Z; sv_updated_at : Z }.
(** The values of a partial update. *)
Inductive library_value :=
| VText (s : pystr) | VInt (z : Z) | VTags (tags : list pystr) | VParameters (parameters : list CommandParameterDTO)
| VSteps (steps : list ScriptStepDTO) | VNone.
Record ListQueryDTO := { lq_offset : Z; lq_limit : Z; lq_tags : list pystr; lq_search : option pystr }.

(** ** Rows ([models/command.py], [models/script.py]) *)

Record CommandModel := {
  cw_name : pystr; cw_description : option pystr; cw_command : pystr; cw_parameters : json;
  cw_tags : option (list pystr); cw_template_pack_id : option uuid; cw_timeout : Z; cw_created_at : Z; cw_updated_at : Z }.
Record ScriptModel := {
  sw_name : pystr; sw_description : option pystr; sw_steps : json; sw_tags : option (list pystr);
  sw_template_pack_id : option uuid; sw_timeout : Z; sw_created_at : Z; sw_updated_at : Z }.

(** ** Stored JSON *)

Fixpoint map_res {A B} (f : A -> res B) (l : list A) : res (list B) :=
  match l with [] => Ok [] | a :: l => b ← f a; l ← map_res f l; Ok (b :: l) end.
Definition opt_json (s : option pystr) : json := match s with Some s => JStr s | None => JNull end.
Definition value_error {A} (msg : pystr) : res A := raise ValueError msg.
Definition no_get {A} : res A := raise AttributeError #"object has no attribute 'get'".

Definition parameter_types : list pystr := [ #"string"; #"integer"; #"boolean"].
Definition parameter_from_json (parameter : json) : res CommandParameterDTO :=
  match parameter with
  | JStr name => Ok {| pd_name := name; pd_type := #"string"; pd_required := true; pd_default := JNull; pd_description := None |}
  | JObj d =>
      name ← match dict_get d #"name" with
             | Some (JStr name) => Ok name
             | _ => value_error #"Stored command parameter name must be a string"
             end;
      type ← match default (JStr #"string") (dict_get d #"type") with
             | JStr t => if bool_decide (t ∈ parameter_types) then Ok t
                         else value_error #"Stored command parameter type is invalid"
             | _ => value_error #"Stored command parameter type is invalid"
             end;
      required ← match default (JBool true) (dict_get d #"required") with
                 | JBool b => Ok b
                 | _ => value_error #"Stored command parameter required flag must be boolean"
                 end;
      description ← match default JNull (dict_get d #"description") with
                    | JNull => Ok None
                    | JStr s => Ok (Some s)
                    | _ => value_error #"Stored command parameter description must be a string"
                    end;
      Ok {| pd_name := name; pd_type := type; pd_required := required;
            pd_default := default JNull (dict_get d #"default"); pd_description := description |}
  | _ => no_get
  end.
Definition _parameter_to_dict (parameter : CommandParameterDTO) : jobject :=
  [(#"name", JStr (pd_name parameter)); (#"type", JStr (pd_type parameter)); (#"required", JBool (pd_required parameter));
   (#"default", pd_default parameter); (#"description", opt_json (pd_description parameter))].

Definition must_be (key : pystr) (what : pystr) : pystr := #"Stored field '" ++ key ++ #"' must be " ++ what.
Definition _required_str (data : jobject) (key : pystr) (default_ : option pystr) : res pystr :=
  match default (opt_json default_) (dict_get data key) with
  | JStr s => Ok s
  | _ => value_error (must_be key #"a string")
  end.
Definition _optional_str (data : jobject) (key : pystr) : res (option pystr) :=
  match dict_get data key with
  | None | Some JNull => Ok None
  | Some (JStr s) => Ok (Some s)
  | Some _ => value_error (must_be key #"a string or null")
  end.

Section codec.
Context `{Unicode} `{PyFloat}.
(** [uuid.UUID(text)] ([None]: [ValueError]). *)
Context (parse_uuid : pystr -> option uuid).

Definition step_types : list pystr := [ #"inline"; #"command"].
Definition failure_policies : list pystr := [ #"stop"; #"continue"].
Definition _step_from_dict (step : json) : res ScriptStepDTO :=
  match step with
  | JObj step =>
      label ← _required_str step #"label" None;
      step_type ← _required_str step #"type" None;
      if negb (bool_decide (step_type ∈ step_types)) then value_error #"Stored script step type is invalid"
      else
        command ← _optional_str step #"command";
        command_id_value ← _optional_str step #"command_id";
        match default (JObj []) (dict_get step #"params") with
        | JObj params =>
            failure_policy ← _required_str step #"on_failure" (Some #"stop");
            if negb (bool_decide (failure_policy ∈ failure_policies))
            then value_error #"Stored script failure policy is invalid"
            else
              command_id ← match command_id_value with
                           | Some ((_ :: _) as text) =>
                               match parse_uuid text with
                               | Some id => Ok (Some id)
                               | None => value_error #"badly formed hexadecimal UUID string"
                               end
                           | _ => Ok None
                           end;
              Ok {| sp_label := label; sp_type := step_type; sp_command := command; sp_command_id := command_id;
                    sp_params := params; sp_on_failure := failure_policy |}
        | _ => value_error #"Stored script step params must be an object"
        end
  | _ => no_get
  end.
Definition _step_to_dict (step : ScriptStepDTO) : jobject :=
  [(#"label", JStr (sp_label step)); (#"type", JStr (sp_type step)); (#"command", opt_json (sp_command step));
   (#"command_id", opt_json (uuid_str <$> sp_command_id step)); (#"params", JObj (dict_of (sp_params step)));
   (#"on_failure", JStr (sp_on_failure step))].

(** [command.parameters or ()], decoded one by one; the steps of a script are never absent. *)
Definition stored_parameters (parameters : json) : res (list CommandParameterDTO) :=
  if json_truthy parameters then xs ← py_list parameters; map_res parameter_from_json xs else Ok [].
Definition stored_steps (steps : json) : res (list ScriptStepDTO) := xs ← py_list steps; map_res _step_from_dict xs.

Definition command_view (kv : uuid * CommandModel) : res CommandViewDTO :=
  let '(id, command) := kv in
  parameters ← stored_parameters (cw_parameters command);
  Ok {| cv_id := id; cv_name := cw_name command; cv_description := cw_description command; cv_command := cw_command command;
        cv_parameters := parameters; cv_tags := default [] (cw_tags command); cv_timeout := cw_timeout command;
        cv_created_at := cw_created_at command; cv_updated_at := cw_updated_at command |}.
Definition script_view (kv : uuid * ScriptModel) : res ScriptViewDTO :=
  let '(id, script) := kv in
  steps ← stored_steps (sw_steps script);
  Ok {| sv_id := id; sv_name := sw_name script; sv_description := sw_description script; sv_steps := steps;
        sv_tags := default [] (sw_tags script); sv_timeout := sw_timeout script;
        sv_created_at := sw_created_at script; sv_updated_at := sw_updated_at script |}.

(** [get_template] and [get_definition]: what the execution of a command or script reads. *)
Definition command_template (kv : uuid * CommandModel) : res (uuid * pystr * list CommandParameterDTO * Z) :=
  parameters ← stored_parameters (cw_parameters kv.2);
  Ok (kv.1, cw_command kv.2, parameters, cw_timeout kv.2).
Definition script_definition (kv : uuid * ScriptModel) : res (uuid * list json * Z) :=
  steps ← (if json_truthy (sw_steps kv.2) then py_list (sw_steps kv.2) else Ok []);
  Ok (kv.1, steps, sw_timeout kv.2).
End codec.

(** ** Columns *)

Inductive column := CText (s : pystr) | CInt (z : Z) | CTags (tags : list pystr) | CJson (v : json) | CNone | COther.

Definition not_null {A} : res A := raise IntegrityError #"NOT NULL constraint failed".
Definition bad_type {A} : res A := raise DBAPIError #"invalid input for query argument".
Definition text_column {A} (c : column) (set : pystr -> A) : res A :=
  match c with CText s => Ok (set s) | CNone => not_null | _ => bad_type end.
Definition optional_text {A} (c : column) (set : option pystr -> A) : res A :=
  match c with CText s => Ok (set (Some s)) | CNone => Ok (set None) | _ => bad_type end.
Definition int_column {A} (c : column) (set : Z -> A) : res A :=
  match c with CInt z => Ok (set z) | CNone => not_null | _ => bad_type end.
Definition tags_column {A} (c : column) (set : option (list pystr) -> A) : res A :=
  match c with CTags t => Ok (set (Some t)) | CNone => Ok (set None) | _ => bad_type end.
(** A JSON column takes whatever can be written as JSON; [None] becomes its [null]. *)
Definition json_column {A} (c : column) (set : json -> A) : res A :=
  match c with
  | CJson v => Ok (set v) | CText s => Ok (set (JStr s)) | CInt z => Ok (set (JInt z))
  | CTags t => Ok (set (JArr (JStr <$> t))) | CNone => Ok (set JNull) | COther => bad_type
  end.

(** The value that is assigned: tuples of tags, parameters and steps are turned into lists. *)
Definition as_tags (value : library_value) : option column :=
  match value with
  | VTags tags => Some (CTags tags)
  | VParameters [] | VSteps [] => Some (CTags [])
  | VParameters _ | VSteps _ => Some COther
  | _ => None
  end.
Definition as_is (value : library_value) : column :=
  match value with VText s => CText s | VInt z => CInt z | VNone => CNone | _ => COther end.

Definition prepare_command (field : pystr) (value : library_value) : res column :=
  if str_eqb field #"parameters" then
    match value with
    | VParameters ps => Ok (CJson (JArr (JObj ∘ _parameter_to_dict <$> ps)))
    | VTags [] | VSteps [] => Ok (CJson (JArr []))
    | VTags _ | VSteps _ => raise AttributeError #"object has no attribute 'name'"
    | _ => Ok (as_is value)
    end
  else if str_eqb field #"tags" then Ok (default (as_is value) (as_tags value))
  else Ok (as_is value).
Definition set_command (field : pystr) (c : column) (m : CommandModel) : res CommandModel :=
  let '{| cw_name := n; cw_description := d; cw_command := co; cw_parameters := p; cw_tags := t;
          cw_template_pack_id := tp; cw_timeout := ti; cw_created_at := cr; cw_updated_at := u |} := m in
  if str_eqb field #"name" then text_column c (fun x => Build_CommandModel x d co p t tp ti cr u)
  else if str_eqb field #"description" then optional_text c (fun x => Build_CommandModel n x co p t tp ti cr u)
  else if str_eqb field #"command" then text_column c (fun x => Build_CommandModel n d x p t tp ti cr u)
  else if str_eqb field #"parameters" then json_column c (fun x => Build_CommandModel n d co x t tp ti cr u)
  else if str_eqb field #"tags" then tags_column c (fun x => Build_CommandModel n d co p x tp ti cr u)
  else if str_eqb field #"timeout" then int_column c (fun x => Build_CommandModel n d co p t tp x cr u)
  else Ok m.

Definition prepare_script (field : pystr) (value : library_value) : res column :=
  if str_eqb field #"steps" then
    match value with
    | VSteps steps => Ok (CJson (JArr (JObj ∘ _step_to_dict <$> steps)))
    | VTags [] | VParameters [] => Ok (CJson (JArr []))
    | VTags _ | VParameters _ => raise TypeError #"Script update contains an invalid step"
    | _ => Ok (as_is value)
    end
  else if str_eqb field #"tags" then Ok (default (as_is value) (as_tags value))
  else Ok (as_is value).
Definition set_script (field : pystr) (c : column) (m : ScriptModel) : res ScriptModel :=
  let '{| sw_name := n; sw_description := d; sw_steps := st; sw_tags := t; sw_template_pack_id := tp; sw_timeout := ti;
          sw_created_at := cr; sw_updated_at := u |} := m in
  if str_eqb field #"name" then text_column c (fun x => Build_ScriptModel x d st t tp ti cr u)
  else if str_eqb field #"description" then optional_text c (fun x => Build_ScriptModel n x st t tp ti cr u)
  else if str_eqb field #"steps" then json_column c (fun x => Build_ScriptModel n d x t tp ti cr u)
  else if str_eqb field #"tags" then tags_column c (fun x => Build_ScriptModel n d st x tp ti cr u)
  else if str_eqb field #"timeout" then int_column c (fun x => Build_ScriptModel n d st t tp x cr u)
  else Ok m.

Definition new_command (data : CommandCreateDTO) (now : Z) : CommandModel :=
  {| cw_name := cc_name data; cw_description := cc_description data; cw_command := cc_command data;
     cw_parameters := JArr (JObj ∘ _parameter_to_dict <$> cc_parameters data); cw_tags := Some (cc_tags data);
     cw_template_pack_id := None; cw_timeout := cc_timeout data; cw_created_at := now; cw_updated_at := now |}.
Definition new_script (data : ScriptCreateDTO) (now : Z) : ScriptModel :=
  {| sw_name := sx_name data; sw_description := sx_description data;
     sw_steps := JArr (JObj ∘ _step_to_dict <$> sx_steps data); sw_tags := Some (sx_tags data);
     sw_template_pack_id := None; sw_timeout := sx_timeout data; sw_created_at := now; sw_updated_at := now |}.
Definition command_at (now : Z) (m : CommandModel) : CommandModel :=
  {| cw_name := cw_name m; cw_description := cw_description m; cw_command := cw_command m; cw_parameters := cw_parameters m;
     cw_tags := cw_tags m; cw_template_pack_id := cw_template_pack_id m; cw_timeout := cw_timeout m;
     cw_created_at := cw_created_at m; cw_updated_at := now |}.
Definition script_at (now : Z) (m : ScriptModel) : ScriptModel :=
  {| sw_name := sw_name m; sw_description := sw_description m; sw_steps := sw_steps m; sw_tags := sw_tags m;
     sw_template_pack_id := sw_template_pack_id m; sw_timeout := sw_timeout m; sw_created_at := sw_created_at m;
     sw_updated_at := now |}.

(** The copies that the services make of a view. *)
Definition clone_of_command (name : pystr) (original : CommandViewDTO) : CommandCreateDTO :=
  {| cc_name := name; cc_command := cv_command original; cc_description := cv_description original;
     cc_parameters := cv_parameters original; cc_tags := cv_tags original; cc_timeout := cv_timeout original |}.
Definition clone_of_script (name : pystr) (original : ScriptViewDTO) : ScriptCreateDTO :=
  {| sx_name := name; sx_steps := sv_steps original; sx_description := sv_description original;
     sx_tags := sv_tags original; sx_timeout := sv_timeout original |}.

(** ** What differs between commands and scripts *)

Class Entity (Row View Create : Type) := {
  kind : pystr;
  title : pystr;
  not_found_class : exn_class;
  row_name : Row -> pystr;
  row_description : Row -> option pystr;
  row_tags : Row -> option (list pystr);
  row_timeout : Row -> Z;
  to_view : uuid * Row -> res View;
  view_id : View -> uuid;
  view_name : View -> pystr;
  create_name : Create -> pystr;
  new_row : Create -> Z -> Row;
  clone_of : pystr -> View -> Create;
  prepare : pystr -> library_value -> res column;
  set_column : pystr -> column -> Row -> res Row;
  row_at : Z -> Row -> Row }.

Section entities.
Context `{Unicode} `{PyFloat} (parse_uuid : pystr -> option uuid).
Definition command_entity : Entity CommandModel CommandViewDTO CommandCreateDTO := {|
  kind := #"command"; title := #"Command"; not_found_class := CommandNotFoundError;
  row_name := cw_name; row_description := cw_description; row_tags := cw_tags; row_timeout := cw_timeout;
  to_view := command_view; view_id := cv_id; view_name := cv_name; create_name := cc_name; new_row := new_command;
  clone_of := clone_of_command; prepare := prepare_command; set_column := set_command; row_at := command_at |}.
Definition script_entity : Entity ScriptModel ScriptViewDTO ScriptCreateDTO := {|
  kind := #"script"; title := #"Script"; not_found_class := ScriptNotFoundError;
  row_name := sw_name; row_description := sw_description; row_tags := sw_tags; row_timeout := sw_timeout;
  to_view := script_view parse_uuid; view_id := sv_id; view_name := sv_name; create_name := sx_name; new_row := new_script;
  clone_of := clone_of_script; prepare := prepare_script; set_column := set_script; row_at := script_at |}.
End entities.

(** ** The gateways *)

Record table (Row : Type) := { tb_rows : list (uuid * Row); tb_next : uuid }.
Arguments tb_rows {Row} _.
Arguments tb_next {Row} _.
Definition empty_table {Row} : table Row := {| tb_rows := []; tb_next := 1 |}.
Definition set_rows {Row} (t : table Row) (rows : list (uuid * Row)) : table Row := {| tb_rows := rows; tb_next := tb_next t |}.
Record PageDTO (View : Type) := { pg_items : list View; pg_total : Z }.
Arguments pg_items {View} _.
Arguments pg_total {View} _.

Section gateway.
Context {Row View Create : Type} `{Entity Row View Create}.
(** What a column type refuses; and whether the session finds a row changed, which is when
    [updated_at] is set. *)
Context (refused : Row -> option exn) (changed : Row -> Row -> bool).

Definition tx (A : Type) : Type := table Row -> res (A * table Row).
Definition begin {A} (m : tx A) (t : table Row) : res A * table Row :=
  match m t with Ok (a, t') => (Ok a, t') | Raise e => (Raise e, t) end.

Definition check_row (id : uuid) (row : Row) (t : table Row) : res unit :=
  match refused row with
  | Some e => Raise e
  | None =>
      if negb ((1 <=? row_timeout row) && (row_timeout row <=? 3600))%Z
      then raise IntegrityError (#"CHECK constraint failed: ck_" ++ kind ++ #"s_timeout")
      else if existsb (fun kv => negb (kv.1 =? id)%N && str_eqb (row_name kv.2) (row_name row)) (tb_rows t)
      then raise IntegrityError (#"UNIQUE constraint failed: " ++ kind ++ #"s.name") else Ok tt
  end.

Definition get (id : uuid) (t : table Row) : res (option View) :=
  match dict_get (tb_rows t) id with
  | None => Ok None
  | Some row => view ← to_view (id, row); Ok (Some view)
  end.

Definition filtered `{Collation} (tags : list pystr) (search : option pystr) (rows : list (uuid * Row)) : list (uuid * Row) :=
  apply_filters (fun kv => row_tags kv.2) (fun kv => [Some (row_name kv.2); row_description kv.2]) (Some tags) search rows.
Definition list_page `{Scans} `{Collation} (query : ListQueryDTO) (t : table Row) : res (PageDTO View) :=
  rows ← sql_page (lq_offset query) (lq_limit query) (filtered (lq_tags query) (lq_search query) (scan 0 (tb_rows t)));
  items ← map_res to_view rows;
  Ok {| pg_items := items; pg_total := Z.of_nat (length (filtered (lq_tags query) (lq_search query) (tb_rows t))) |}.
Definition list_tags (t : table Row) : list pystr :=
  sorted_names (List.filter (fun tag => negb (str_eqb tag [])) (remove_dups (flat_map (fun kv => default [] (row_tags kv.2)) (tb_rows t)))).

Definition create (data : Create) (now : Z) : tx View := fun t =>
  let id := tb_next t in
  let row := new_row data now in
  check_row id row t;;
  view ← to_view (id, row);
  Ok (view, {| tb_rows := tb_rows t ++ [(id, row)]; tb_next := (id + 1)%N |}).

Fixpoint set_columns (columns : list (pystr * column)) (row : Row) : res Row :=
  match columns with
  | [] => Ok row
  | (field, c) :: columns => row ← set_column field c row; set_columns columns row
  end.
Definition prepared (changes : list (pystr * library_value)) : res (list (pystr * column)) :=
  map_res (fun kv => c ← prepare kv.1 kv.2; Ok (kv.1, c)) (dict_of changes).
(** The row an update writes. *)
Definition flushed (id : uuid) (columns : list (pystr * column)) (row : Row) (now : Z) (t : table Row) : res Row :=
  row' ← set_columns columns row;
  let row' := if changed row row' then row_at now row' else row' in
  check_row id row' t;;
  Ok row'.
Definition update (id : uuid) (changes : list (pystr * library_value)) (now : Z) : tx (option View) := fun t =>
  columns ← prepared changes;
  match dict_get (tb_rows t) id with
  | None => Ok (None, t)
  | Some row =>
      row' ← flushed id columns row now t;
      view ← to_view (id, row');
      Ok (Some view, set_rows t (dict_set (tb_rows t) id row'))
  end.
Definition delete (id : uuid) : tx bool := fun t =>
  match dict_get (tb_rows t) id with
  | None => Ok (false, t)
  | Some _ => Ok (true, set_rows t (dict_pop (tb_rows t) id))
  end.
End gateway.

(** ** The services *)

Inductive manage_call (Create : Type) :=
| Get (id : uuid)
| ListPage (query : ListQueryDTO)
| ListTags
| CreateOne (data : Create)
| UpdateOne (id : uuid) (changes : list (pystr * library_value))
| DeleteOne (id : uuid)
| Log (action : pystr) (details : jobject).
Arguments Get {Create} _.
Arguments ListPage {Create} _.
Arguments ListTags {Create}.
Arguments CreateOne {Create} _.
Arguments UpdateOne {Create} _ _.
Arguments DeleteOne {Create} _.
Arguments Log {Create} _ _.
Definition manage_answer (View : Type) {Create : Type} (c : manage_call Create) : Type :=
  match c with
  | Get _ | UpdateOne _ _ => option View
  | ListPage _ => PageDTO View
  | ListTags => list pystr
  | CreateOne _ => View
  | DeleteOne _ => bool
  | Log _ _ => unit
  end.

Section services.
Context {Row View Create : Type} `{Entity Row View Create}.
#[local] Instance manage_signature : Signature := {| call := manage_call Create; answer := manage_answer View |}.
(** [self._audit] is given. *)
Context (with_audit : bool).

Definition log_action (action : pystr) (details : jobject) : prog unit :=
  if with_audit then perform (Log action details) else mret tt.
Definition not_found {A} (id : uuid) : prog A :=
  lift (raise not_found_class (title ++ #" " ++ uuid_str id ++ #" not found")).

Definition get_one (id : uuid) : prog View :=
  view ← perform (Get id);
  match view with None => not_found id | Some view => mret view end.
Definition get_all (page size : Z) (tags : list pystr) (search : option pystr) : prog (list View * Z) :=
  result ← perform (ListPage {| lq_offset := (page - 1) * size; lq_limit := size; lq_tags := tags; lq_search := search |});
  mret (pg_items result, pg_total result).
Definition get_all_tags : prog (list pystr) := perform ListTags.
Definition create_one (data : Create) : prog View :=
  view ← perform (CreateOne data);
  log_action #"create" [(#"entity", JStr kind); (#"name", JStr (create_name data))];;
  mret view.
Definition update_one (id : uuid) (changes : list (pystr * library_value)) : prog View :=
  view ← perform (UpdateOne id changes);
  match view with
  | None => not_found id
  | Some view =>
      log_action #"update" [(#"entity", JStr kind); (#"id", JStr (uuid_str id))];;
      mret view
  end.
Definition delete_one (id : uuid) : prog bool :=
  view ← perform (Get id);
  match view with
  | None => not_found id
  | Some _ =>
      log_action #"delete" [(#"entity", JStr kind); (#"id", JStr (uuid_str id))];;
      _ ← perform (DeleteOne id);
      mret true
  end.
Definition clone_one (id : uuid) (new_name : option pystr) : prog View :=
  original ← perform (Get id);
  match original with
  | None => not_found id
  | Some original =>
      let clone_name := match new_name with Some (c :: name) => c :: name | _ => view_name original ++ #"-copy" end in
      cloned ← perform (CreateOne (clone_of clone_name original));
      log_action #"clone" [(#"entity", JStr kind); (#"source", JStr (uuid_str id))];;
      mret cloned
  end.
End services.

(** ** Request and response schemas ([schemas/command.py], [schemas/script.py]) *)

Definition ValidationError : exn_class := LibraryError #"ValidationError".
Definition control_char (c : N) : bool := (c <? 32)%N || (c =? 127)%N.
(** [SafeName] with its bounds. *)
Definition safe_name (bound : nat) (s : pystr) : bool :=
  negb (existsb control_char s) && (1 <=? length s)%nat && (length s <=? bound)%nat.
Definition at_most (bound : nat) (s : option pystr) : bool :=
  match s with Some s => (length s <=? bound)%nat | None => true end.

Record CommandResponse := {
  cq_id : uuid; cq_name : pystr; cq_description : option pystr; cq_command : pystr;
  cq_parameters : list CommandParameterDTO; cq_tags : list pystr; cq_timeout : Z; cq_created_at : Z; cq_updated_at : Z }.
(** A step as the API takes it: it may name the command instead. *)
Record ScriptStep := {
  sq_label : pystr; sq_type : pystr; sq_command : option pystr; sq_command_id : option uuid;
  sq_command_name : option pystr; sq_params : jobject; sq_on_failure : pystr }.
Record ScriptResponse := {
  so_id : uuid; so_name : pystr; so_description : option pystr; so_steps : list ScriptStep;
  so_tags : list pystr; so_timeout : Z; so_created_at : Z; so_updated_at : Z }.

(** The validators of [CommandParameter] and [ScriptStep], which run whenever one is built. *)
Definition valid_parameter (p : CommandParameterDTO) : bool :=
  safe_name 100 (pd_name p) && bool_decide (pd_type p ∈ parameter_types) && at_most 500 (pd_description p).
Definition present (s : option pystr) : bool := match s with Some (_ :: _) => true | _ => false end.
Definition check_command_ref (s : ScriptStep) : bool :=
  negb (str_eqb (sq_type s) #"command" && negb (bool_decide (is_Some (sq_command_id s))) && negb (present (sq_command_name s)))
  && negb (bool_decide (is_Some (sq_command_id s)) && present (sq_command_name s)).
Definition valid_step (s : ScriptStep) : bool :=
  safe_name 255 (sq_label s) && bool_decide (sq_type s ∈ step_types) && at_most 4096 (sq_command s)
  && match sq_command_name s with Some n => negb (existsb control_char n) && (length n <=? 255)%nat | None => true end
  && bool_decide (sq_on_failure s ∈ failure_policies) && check_command_ref s.

Definition validated {A} (ok : A -> bool) (a : A) : res A :=
  if ok a then Ok a else raise ValidationError #"validation error".

(** [_shared.py]. *)
Definition command_response (command : CommandViewDTO) : res CommandResponse :=
  parameters ← map_res (validated valid_parameter) (cv_parameters command);
  Ok {| cq_id := cv_id command; cq_name := cv_name command; cq_description := cv_description command;
        cq_command := cv_command command; cq_parameters := parameters; cq_tags := cv_tags command;
        cq_timeout := cv_timeout command; cq_created_at := cv_created_at command; cq_updated_at := cv_updated_at command |}.
Definition step_response (s : ScriptStepDTO) : res ScriptStep :=
  validated valid_step
    {| sq_label := sp_label s; sq_type := sp_type s; sq_command := sp_command s; sq_command_id := sp_command_id s;
       sq_command_name := None; sq_params := dict_of (sp_params s); sq_on_failure := sp_on_failure s |}.
Definition script_response (script : ScriptViewDTO) : res ScriptResponse :=
  steps ← map_res step_response (sv_steps script);
  Ok {| so_id := sv_id script; so_name := sv_name script; so_description := sv_description script; so_steps := steps;
        so_tags := sv_tags script; so_timeout := sv_timeout script; so_created_at := sv_created_at script;
        so_updated_at := sv_updated_at script |}.
(** [_step_dto]: the name of the command is not kept. *)
Definition _step_dto (step : ScriptStep) : ScriptStepDTO :=
  {| sp_label := sq_label step; sp_type := sq_type step; sp_command := sq_command step;
     sp_command_id := sq_command_id step; sp_params := sq_params step; sp_on_failure := sq_on_failure step |}.

(** ** The handlers *)

Record BulkItemResult := { br_id : option uuid; br_name : option pystr; br_status : pystr; br_error : pystr }.
Record BulkResult := {
  bu_total : Z; bu_succeeded : Z; bu_failed : Z; bu_results : list BulkItemResult }.

Section handlers.
Context {Row View Create : Type} `{Entity Row View Create}.
Context `{Unicode} `{PyFloatInt}.
#[local] Instance handler_signature : Signature := manage_signature (View:=View) (Create:=Create).
Context (with_audit : bool).
(** The response model of one view. *)
Context {Response : Type} (respond : View -> res Response).

(** [BulkResponder.result]: the status is 207 when some items succeeded and some failed. *)
Definition build_bulk_result (usual_status : Z) (results : list BulkItemResult) : Z * BulkResult :=
  let succeeded := count (fun r => str_eqb (br_status r) #"success") results in
  let failed := (Z.of_nat (length results) - succeeded)%Z in
  (if (0 <? failed)%Z && (0 <? succeeded)%Z then 207%Z else usual_status,
   {| bu_total := Z.of_nat (length results); bu_succeeded := succeeded; bu_failed := failed; bu_results := results |}).

Definition _create_one (data : Create) : prog BulkItemResult :=
  try_except
    (created ← create_one with_audit data;
     mret {| br_id := Some (view_id created); br_name := Some (view_name created); br_status := #"success"; br_error := [] |})
    (on_exception (fun exc =>
       mret {| br_id := None; br_name := Some (create_name data); br_status := #"error"; br_error := sanitize_bulk_error exc |})).
Definition bulk_create (sched : list nat) (items : list Create) : prog (Z * BulkResult) :=
  results ← gather sched (_create_one <$> items);
  mret (build_bulk_result 201 results).

Definition item_result (id : uuid) (p : prog unit) : prog BulkItemResult :=
  try_except
    (p;; mret {| br_id := Some id; br_name := None; br_status := #"success"; br_error := [] |})
    (on_exception (fun exc =>
       mret {| br_id := Some id; br_name := None; br_status := #"error"; br_error := sanitize_bulk_error exc |})).
Definition _update_one (item : uuid * list (pystr * library_value)) : prog BulkItemResult :=
  item_result item.1 (ignore (update_one with_audit item.1 item.2)).
Definition bulk_update (sched : list nat) (updates : list (uuid * list (pystr * library_value))) : prog (Z * BulkResult) :=
  results ← gather sched (_update_one <$> updates);
  mret (build_bulk_result 200 results).
Definition _delete_one (id : uuid) : prog BulkItemResult := item_result id (ignore (delete_one with_audit id)).
Definition bulk_delete (sched : list nat) (ids : list uuid) : prog (Z * BulkResult) :=
  results ← gather sched (_delete_one <$> ids);
  mret (build_bulk_result 200 results).

Definition get_handler (id : uuid) : prog Response := view ← get_one id; lift (respond view).
Definition update_handler (id : uuid) (changes : list (pystr * library_value)) : prog Response :=
  view ← update_one with_audit id changes; lift (respond view).
Definition delete_handler (id : uuid) : prog unit := ignore (delete_one with_audit id).
Definition clone_handler (id : uuid) (new_name : option pystr) : prog Response :=
  view ← clone_one with_audit id new_name; lift (respond view).
Definition list_handler (tag search cursor : option pystr) (limit : Z) : prog (CursorPage Response) :=
  let tags := match tag with Some (c :: t) => [c :: t] | _ => [] end in
  offset ← lift (parse_cursor_offset cursor);
  let '(page, fetch_size, remainder) := pagination_params offset limit in
  '(views, total) ← (get_all page fetch_size tags search : prog (list View * Z));
  let views := if (remainder =? 0)%Z then views else py_slice remainder (remainder + limit) views in
  items ← lift (map_res respond views);
  make_page offset limit total items.
End handlers.

(** ** The two halves *)

Module CommandGateway.
Section gateway.
Context `{Unicode} `{PyFloat} (parse_uuid : pystr -> option uuid).
Definition get_command := @get CommandModel CommandViewDTO CommandCreateDTO command_entity.
Definition list_commands := @list_page CommandModel CommandViewDTO CommandCreateDTO command_entity.
Definition list_tags := @Library.list_tags CommandModel CommandViewDTO CommandCreateDTO command_entity.
Definition create_command := @create CommandModel CommandViewDTO CommandCreateDTO command_entity.
Definition update_command := @update CommandModel CommandViewDTO CommandCreateDTO command_entity.
Definition delete_command := @delete CommandModel.
End gateway.
End CommandGateway.
Module ScriptGateway.
Section gateway.
Context `{Unicode} `{PyFloat} (parse_uuid : pystr -> option uuid).
Definition get_script := @get ScriptModel ScriptViewDTO ScriptCreateDTO (script_entity parse_uuid).
Definition list_scripts := @list_page ScriptModel ScriptViewDTO ScriptCreateDTO (script_entity parse_uuid).
Definition list_tags := @Library.list_tags ScriptModel ScriptViewDTO ScriptCreateDTO (script_entity parse_uuid).
Definition create_script := @create ScriptModel ScriptViewDTO ScriptCreateDTO (script_entity parse_uuid).
Definition update_script := @update ScriptModel ScriptViewDTO ScriptCreateDTO (script_entity parse_uuid).
Definition delete_script := @delete ScriptModel.
End gateway.
End ScriptGateway.
Module CommandService.
Section service.
Context `{Unicode} `{PyFloat} `{PyFloatInt} (parse_uuid : pystr -> option uuid) (with_audit : bool).
Definition get_command := @get_one CommandModel CommandViewDTO CommandCreateDTO command_entity.
Definition get_all_commands := @get_all CommandViewDTO CommandCreateDTO.
Definition get_all_tags := @Library.get_all_tags CommandViewDTO CommandCreateDTO.
Definition create_command := @create_one CommandModel CommandViewDTO CommandCreateDTO command_entity with_audit.
Definition update_command := @update_one CommandModel CommandViewDTO CommandCreateDTO command_entity with_audit.
Definition delete_command := @delete_one CommandModel CommandViewDTO CommandCreateDTO command_entity with_audit.
Definition clone_command := @clone_one CommandModel CommandViewDTO CommandCreateDTO command_entity with_audit.
(** The handlers. *)
Definition bulk_create := @Library.bulk_create CommandModel CommandViewDTO CommandCreateDTO command_entity with_audit.
Definition bulk_update := @Library.bulk_update CommandModel CommandViewDTO CommandCreateDTO command_entity with_audit.
Definition bulk_delete := @Library.bulk_delete CommandModel CommandViewDTO CommandCreateDTO command_entity with_audit.
Definition get_handler := @Library.get_handler CommandModel CommandViewDTO CommandCreateDTO command_entity CommandResponse command_response.
Definition update_handler := @Library.update_handler CommandModel CommandViewDTO CommandCreateDTO command_entity with_audit CommandResponse command_response.
Definition delete_handler := @Library.delete_handler CommandModel CommandViewDTO CommandCreateDTO command_entity with_audit.
Definition clone_handler := @Library.clone_handler CommandModel CommandViewDTO CommandCreateDTO command_entity with_audit CommandResponse command_response.
Definition list_handler := @Library.list_handler CommandViewDTO CommandCreateDTO _ _ CommandResponse command_response.
End service.
End CommandService.
Module ScriptService.
Section service.
Context `{Unicode} `{PyFloat} `{PyFloatInt} (parse_uuid : pystr -> option uuid) (with_audit : bool).
Definition get_script := @get_one ScriptModel ScriptViewDTO ScriptCreateDTO (script_entity parse_uuid).
Definition get_all_scripts := @get_all ScriptViewDTO ScriptCreateDTO.
Definition get_all_tags := @Library.get_all_tags ScriptViewDTO ScriptCreateDTO.
Definition create_script := @create_one ScriptModel ScriptViewDTO ScriptCreateDTO (script_entity parse_uuid) with_audit.
Definition update_script := @update_one ScriptModel ScriptViewDTO ScriptCreateDTO (script_entity parse_uuid) with_audit.
Definition delete_script := @delete_one ScriptModel ScriptViewDTO ScriptCreateDTO (script_entity parse_uuid) with_audit.
Definition clone_script := @clone_one ScriptModel ScriptViewDTO ScriptCreateDTO (script_entity parse_uuid) with_audit.
(** The handlers. *)
Definition bulk_create := @Library.bulk_create ScriptModel ScriptViewDTO ScriptCreateDTO (script_entity parse_uuid) with_audit.
Definition bulk_update := @Library.bulk_update ScriptModel ScriptViewDTO ScriptCreateDTO (script_entity parse_uuid) with_audit.
Definition bulk_delete := @Library.bulk_delete ScriptModel ScriptViewDTO ScriptCreateDTO (script_entity parse_uuid) with_audit.
Definition get_handler := @Library.get_handler ScriptModel ScriptViewDTO ScriptCreateDTO (script_entity parse_uuid) ScriptResponse script_response.
Definition update_handler := @Library.update_handler ScriptModel ScriptViewDTO ScriptCreateDTO (script_entity parse_uuid) with_audit ScriptResponse script_response.
Definition delete_handler := @Library.delete_handler ScriptModel ScriptViewDTO ScriptCreateDTO (script_entity parse_uuid) with_audit.
Definition clone_handler := @Library.clone_handler ScriptModel ScriptViewDTO ScriptCreateDTO (script_entity parse_uuid) with_audit ScriptResponse script_response.
Definition list_handler := @Library.list_handler ScriptViewDTO ScriptCreateDTO _ _ ScriptResponse script_response.
End service.
End ScriptService.
