(* ===== verification/LibrarySpec.v ===== *)
(** * What the library of commands and scripts promises

    What is stored is read back ([EntityLaws], proved for commands and for scripts); the
    invariant of a table over all histories; clones; bulk requests whose items run
    concurrently; and the steps the API accepts but cannot show again. *)
From S2P Require Import Prelude PyStr Errors Json Effects Dto Template Packs Query Codec Pagination Script Stateful Threads Tables Library.

(** ** Decoding *)

Lemma map_res_ok {A B} (f : A -> res B) l l' : map_res f l = Ok l' <-> Forall2 (fun a b => f a = Ok b) l l'.
Proof.
  revert l'. induction l as [|a l IH]; cbn; intros l'.
  - split; [by intros [= <-]|by inversion 1].
  - split.
    + intros (b & Hb & (l2 & Hl & [= <-])%bind_ok)%bind_ok. constructor; [done|by apply IH].
    + inversion 1 as [|? b ? l2 Hb Hl]; subst. rewrite Hb. cbn. by rewrite (proj2 (IH l2) Hl).
Qed.
Lemma map_res_fmap {A B C} (g : A -> B) (f : B -> res C) l : map_res f (g <$> l) = map_res (f ∘ g) l.
Proof. induction l as [|a l IH]; [done|]. cbn. by rewrite IH. Qed.
Lemma map_res_id {A} (f : A -> res A) l : Forall (fun a => f a = Ok a) l -> map_res f l = Ok l.
Proof. intros Hf. apply map_res_ok. apply Forall_Forall2_diag. exact Hf. Qed.

Lemma parameter_fields p :
  dict_get (_parameter_to_dict p) #"name" = Some (JStr (pd_name p))
  /\ dict_get (_parameter_to_dict p) #"type" = Some (JStr (pd_type p))
  /\ dict_get (_parameter_to_dict p) #"required" = Some (JBool (pd_required p))
  /\ dict_get (_parameter_to_dict p) #"description" = Some (opt_json (pd_description p))
  /\ dict_get (_parameter_to_dict p) #"default" = Some (pd_default p).
Proof. done. Qed.
(** A parameter is read back as it was written, if its type is one of the three. *)
Lemma parameter_read p :
  parameter_from_json (JObj (_parameter_to_dict p))
  = if bool_decide (pd_type p ∈ parameter_types) then Ok p else value_error #"Stored command parameter type is invalid".
Proof.
  destruct (parameter_fields p) as (H1 & H2 & H3 & H4 & H5). unfold parameter_from_json. rewrite H1, H2, H3, H4, H5.
  cbn -[bool_decide parameter_types]. case_bool_decide; [|done]. destruct p as [n t r d [de|]]; done.
Qed.

Section steps.
Context (parse_uuid : pystr -> option uuid).
Lemma step_fields s :
  dict_get (_step_to_dict s) #"label" = Some (JStr (sp_label s))
  /\ dict_get (_step_to_dict s) #"type" = Some (JStr (sp_type s))
  /\ dict_get (_step_to_dict s) #"command" = Some (opt_json (sp_command s))
  /\ dict_get (_step_to_dict s) #"command_id" = Some (opt_json (uuid_str <$> sp_command_id s))
  /\ dict_get (_step_to_dict s) #"params" = Some (JObj (dict_of (sp_params s)))
  /\ dict_get (_step_to_dict s) #"on_failure" = Some (JStr (sp_on_failure s)).
Proof. done. Qed.

Definition step_ok (s : ScriptStepDTO) : bool :=
  bool_decide (sp_type s ∈ step_types) && bool_decide (sp_on_failure s ∈ failure_policies)
  && match sp_command_id s with Some id => bool_decide (parse_uuid (uuid_str id) = Some id) | None => true end.
Definition plain_params (s : ScriptStepDTO) : ScriptStepDTO :=
  {| sp_label := sp_label s; sp_type := sp_type s; sp_command := sp_command s; sp_command_id := sp_command_id s;
     sp_params := dict_of (sp_params s); sp_on_failure := sp_on_failure s |}.

Lemma required_str_get d key dflt s : dict_get d key = Some (JStr s) -> _required_str d key dflt = Ok s.
Proof. intros Hd. unfold _required_str. by rewrite Hd. Qed.
Lemma optional_str_get d key s : dict_get d key = Some (opt_json s) -> _optional_str d key = Ok s.
Proof. intros Hd. unfold _optional_str. rewrite Hd. by destruct s. Qed.

Lemma step_read s : (forall id, sp_command_id s = Some id -> parse_uuid (uuid_str id) = Some id) ->
  sp_type s ∈ step_types -> sp_on_failure s ∈ failure_policies ->
  _step_from_dict parse_uuid (JObj (_step_to_dict s)) = Ok (plain_params s).
Proof.
  intros Hid Ht Hf. destruct (step_fields s) as (H1 & H2 & H3 & H4 & H5 & H6). unfold _step_from_dict.
  rewrite (required_str_get _ _ _ _ H1), (required_str_get _ _ _ _ H2). cbn [mbind res_bind].
  rewrite bool_decide_eq_true_2 by done. cbn [negb]. rewrite (optional_str_get _ _ _ H3), (optional_str_get _ _ _ H4).
  cbn [mbind res_bind]. rewrite H5. cbn [default]. rewrite (required_str_get _ _ _ _ H6). cbn [mbind res_bind].
  rewrite bool_decide_eq_true_2 by done. cbn [negb]. unfold plain_params.
  destruct (sp_command_id s) as [id|]; [|done]. cbn [fmap option_fmap option_map].
  rewrite (Hid id) by done. by destruct (uuid_str id) eqn:E.
Qed.
End steps.

(** Decoding fails with ordinary exceptions. *)
Definition ordinary {A} (r : res A) : Prop := match r with Ok _ => True | Raise e => isinstance (exn_type e) Exception_ = true end.
Lemma decodes_bind {A B} (m : res A) (f : A -> res B) : ordinary m -> (forall a, ordinary (f a)) -> ordinary (m ≫= f).
Proof. intros Hm Hf. destruct m as [a|e]; [apply Hf|exact Hm]. Qed.
Lemma decodes_map {A B} (f : A -> res B) l : (forall a, ordinary (f a)) -> ordinary (map_res f l).
Proof. intros Hf. induction l as [|a l IH]; cbn; [done|]. apply decodes_bind; [done|]. intros b. by apply decodes_bind. Qed.
Lemma decodes_list v : ordinary (py_list v).
Proof. by destruct v. Qed.
Ltac decodes_tac := repeat first [done | apply decodes_bind; [|intros ?] | apply decodes_map; intros ? | apply decodes_list
  | match goal with |- ordinary (match ?x with _ => _ end) => destruct x end].
Lemma decodes_parameter p : ordinary (parameter_from_json p).
Proof. unfold parameter_from_json, value_error, no_get. decodes_tac. Qed.
Lemma decodes_step parse_uuid s : ordinary (_step_from_dict parse_uuid s).
Proof. unfold _step_from_dict, _required_str, _optional_str, value_error, no_get. decodes_tac. Qed.

(** ** The laws of the two kinds *)

(** [proper]: the identifiers in a creation can be printed and read back.  A creation that can be
    stored is read back as it was: it would be stored alike again. *)
Class EntityLaws {Row View Create : Type} (E : Entity Row View Create) (proper : Create -> Prop) : Prop := {
  law_view id row v : to_view (id, row) = Ok v -> view_id v = id /\ view_name v = row_name row;
  law_new data now : row_name (new_row data now) = create_name data;
  law_read_back id data now v : proper data -> to_view (id, new_row data now) = Ok v ->
    forall now', new_row (clone_of (create_name data) v) now' = new_row data now';
  law_clone name v : create_name (clone_of name v) = name;
  law_clone_proper id row v name : to_view (id, row) = Ok v -> proper (clone_of name v);
  law_raise row e : to_view row = Raise e -> isinstance (exn_type e) Exception_ = true;
  law_at now row : row_name (row_at now row) = row_name row /\ row_timeout (row_at now row) = row_timeout row }.

Lemma py_list_arr xs : py_list (JArr xs) = Ok xs.
Proof. done. Qed.

Section instances.
Context `{Unicode} `{PyFloat} (parse_uuid : pystr -> option uuid).
(** An identifier that was read can be printed and read again. *)
Context (parse_printed : forall s id, parse_uuid s = Some id -> parse_uuid (uuid_str id) = Some id).

Lemma stored_parameters_read ps v :
  stored_parameters (JArr (JObj ∘ _parameter_to_dict <$> ps)) = Ok v -> v = ps.
Proof.
  destruct ps as [|p ps]; [by intros [= <-]|]. unfold stored_parameters.
  change (json_truthy _) with true. cbv iota. rewrite py_list_arr. cbn [mbind res_bind].
  rewrite list_fmap_compose, !map_res_fmap. intros Hv%map_res_ok. revert v Hv. generalize (p :: ps). clear p ps.
  intros l v Hv. induction Hv as [|q q' l v Hq _ IH]; [done|]. f_equal; [|exact IH].
  cbn [compose] in Hq. rewrite parameter_read in Hq. case_bool_decide; [by injection Hq|done].
Qed.

#[export] Instance command_laws : EntityLaws command_entity (fun _ => True).
Proof.
  split; try done; cbn.
  - intros id row v (ps & _ & [= <-])%bind_ok. done.
  - intros id data now v _ (ps & Hps & [= <-])%bind_ok now'. cbn in Hps.
    apply stored_parameters_read in Hps as ->. by destruct data.
  - intros row e He. assert (ordinary (command_view row)) as Ho by (unfold command_view, stored_parameters; decodes_tac; apply decodes_parameter).
    by rewrite He in Ho.
Qed.

Definition proper_step (s : ScriptStepDTO) : Prop := forall id, sp_command_id s = Some id -> parse_uuid (uuid_str id) = Some id.
Definition proper_script (data : ScriptCreateDTO) : Prop := Forall proper_step (sx_steps data).

Lemma step_read_inv s v : proper_step s -> _step_from_dict parse_uuid (JObj (_step_to_dict s)) = Ok v -> v = plain_params s.
Proof.
  intros Hs Hv. destruct (decide (sp_type s ∈ step_types)) as [Ht|Ht].
  - destruct (decide (sp_on_failure s ∈ failure_policies)) as [Hf|Hf].
    + rewrite step_read in Hv by done. by injection Hv.
    + destruct (step_fields s) as (H1 & H2 & H3 & H4 & H5 & H6). unfold _step_from_dict in Hv.
      rewrite (required_str_get _ _ _ _ H1), (required_str_get _ _ _ _ H2) in Hv. cbn [mbind res_bind] in Hv.
      rewrite bool_decide_eq_true_2 in Hv by done. cbn [negb] in Hv.
      rewrite (optional_str_get _ _ _ H3), (optional_str_get _ _ _ H4) in Hv. cbn [mbind res_bind] in Hv.
      rewrite H5 in Hv. cbn [default] in Hv. rewrite (required_str_get _ _ _ _ H6) in Hv. cbn [mbind res_bind] in Hv.
      by rewrite bool_decide_eq_false_2 in Hv by done.
  - destruct (step_fields s) as (H1 & H2 & _). unfold _step_from_dict in Hv.
    rewrite (required_str_get _ _ _ _ H1), (required_str_get _ _ _ _ H2) in Hv. cbn [mbind res_bind] in Hv.
    by rewrite bool_decide_eq_false_2 in Hv by done.
Qed.

Lemma step_id_read j v : _step_from_dict parse_uuid j = Ok v -> proper_step v.
Proof.
  unfold _step_from_dict. destruct j as [| | | | | |d]; try done.
  intros (l & _ & (t & _ & Hv)%bind_ok)%bind_ok. destruct (negb _); [done|].
  apply bind_ok in Hv as (c & _ & (idv & _ & Hv)%bind_ok). destruct (default _ _) as [| | | | | |params]; try done.
  apply bind_ok in Hv as (pol & _ & Hv). destruct (negb _); [done|].
  apply bind_ok in Hv as (cid & Hcid & [= <-]). intros id. cbn. intros ->. destruct idv as [[|c0 s]|]; try done.
  destruct (parse_uuid (c0 :: s)) as [i|] eqn:Ei; [|done]. injection Hcid as ->. by eapply parse_printed.
Qed.

Lemma plain_params_dict s : _step_to_dict (plain_params s) = _step_to_dict s.
Proof. unfold _step_to_dict, plain_params. cbn [sp_label sp_type sp_command sp_command_id sp_params sp_on_failure].
  by rewrite (dict_of_id (dict_of (sp_params s))) by apply dict_of_NoDup. Qed.

Lemma stored_steps_read steps v : Forall proper_step steps ->
  stored_steps parse_uuid (JArr (JObj ∘ _step_to_dict <$> steps)) = Ok v -> v = plain_params <$> steps.
Proof.
  intros Hp. unfold stored_steps. rewrite py_list_arr. cbn [mbind res_bind]. rewrite list_fmap_compose, !map_res_fmap.
  intros Hv%map_res_ok. revert Hp. induction Hv as [|s s' l v Hs _ IH]; [done|]. intros [Hps Hl]%Forall_cons.
  cbn [fmap list_fmap]. f_equal; [by apply step_read_inv|by apply IH].
Qed.

#[export] Instance script_laws : EntityLaws (script_entity parse_uuid) proper_script.
Proof.
  split; try done; cbn.
  - intros id row v (ss & _ & [= <-])%bind_ok. done.
  - intros id data now v Hp (ss & Hss & [= <-])%bind_ok now'. cbn in Hss.
    apply stored_steps_read in Hss as ->; [|exact Hp]. destruct data as [n st d tg ti]. unfold new_script. cbn. f_equal. f_equal.
    rewrite <- list_fmap_compose. apply list_fmap_ext. intros i s _. cbn. by rewrite plain_params_dict.
  - intros id row v name (ss & Hss & [= <-])%bind_ok. unfold proper_script. cbn.
    apply bind_ok in Hss as (xs & _ & Hv%map_res_ok). induction Hv as [|j s l ss Hs _ IH]; [constructor|].
    constructor; [by eapply step_id_read|exact IH].
  - intros row e He. assert (ordinary (script_view parse_uuid row)) as Ho by (unfold script_view, stored_steps; decodes_tac; apply decodes_step).
    by rewrite He in Ho.
Qed.
End instances.

(** ** The tables *)

Section tables.
Context {Row View Create : Type} `{E : Entity Row View Create} (proper : Create -> Prop) `{!EntityLaws E proper}.
Context (refused : Row -> option exn) (changed : Row -> Row -> bool).
Implicit Types (t : table Row).

(** Names are unique, timeouts in range, and every row can be shown. *)
Record library_ok t : Prop := {
  lb_table : table_ok row_name (tb_next t) (tb_rows t);
  lb_timeout : forall id row, dict_get (tb_rows t) id = Some row -> (1 <= row_timeout row <= 3600)%Z;
  lb_readable : forall id row, dict_get (tb_rows t) id = Some row -> exists v, to_view (id, row) = Ok v }.

Lemma library_empty : library_ok empty_table.
Proof. split; [apply table_nil|done|done]. Qed.

Lemma check_row_ok id row t : check_row refused id row t = Ok tt ->
  (1 <= row_timeout row <= 3600)%Z /\ free row_name id (row_name row) (tb_rows t).
Proof.
  unfold check_row. destruct (refused row); [done|]. destruct (negb _) eqn:Et; [done|].
  destruct (existsb _ _) eqn:Ex; [done|]. intros _. apply negb_false_iff in Et. to_prop. split; [lia|by apply free_spec].
Qed.

Lemma create_ok data now t v t' : begin (create refused data now) t = (Ok v, t') ->
  let id := tb_next t in
  check_row refused id (new_row data now) t = Ok tt /\ to_view (id, new_row data now) = Ok v
  /\ t' = {| tb_rows := tb_rows t ++ [(id, new_row data now)]; tb_next := (id + 1)%N |}.
Proof.
  unfold begin. destruct (create refused data now t) as [[v1 t1]|] eqn:Ec; [|done]. intros [= -> ->].
  unfold create in Ec. apply bind_ok in Ec as ([] & Hc & (v1 & Hv & [= <- <-])%bind_ok). done.
Qed.
Lemma create_failed data now t e t' : begin (create refused data now) t = (Raise e, t') -> t' = t.
Proof. unfold begin. destruct (create _ _ _ _) as [[? ?]|]; [done|]. by intros [= _ <-]. Qed.

Lemma insert_library id row t v :
  library_ok t -> id = tb_next t -> check_row refused id row t = Ok tt -> to_view (id, row) = Ok v ->
  library_ok {| tb_rows := tb_rows t ++ [(id, row)]; tb_next := (id + 1)%N |}.
Proof.
  intros [Ht Hti Hr] -> [Htm Hf]%check_row_ok Hv. split; cbn.
  - by apply table_add.
  - intros i m. rewrite dict_get_snoc by (by eapply table_new). case_decide; [by intros [= <-]|apply Hti].
  - intros i m. rewrite dict_get_snoc by (by eapply table_new). case_decide; [intros [= <-]; subst; by exists v|apply Hr].
Qed.
Lemma replace_library id row0 row t v :
  library_ok t -> dict_get (tb_rows t) id = Some row0 -> check_row refused id row t = Ok tt -> to_view (id, row) = Ok v ->
  library_ok (set_rows t (dict_set (tb_rows t) id row)).
Proof.
  intros [Ht Hti Hr] Hid [Htm Hf]%check_row_ok Hv. split; cbn.
  - apply table_set; [done|by exists row0|done].
  - intros i m. rewrite dict_get_set. case_decide; [by intros [= <-]|apply Hti].
  - intros i m. rewrite dict_get_set. case_decide; [intros [= <-]; subst; by exists v|apply Hr].
Qed.
Lemma remove_library id t : library_ok t -> library_ok (set_rows t (dict_pop (tb_rows t) id)).
Proof.
  intros [Ht Hti Hr]. split; cbn.
  - by apply (table_filter row_name).
  - intros i m. rewrite dict_get_pop. case_decide; [done|apply Hti].
  - intros i m. rewrite dict_get_pop. case_decide; [done|apply Hr].
Qed.

(** *** Histories

    The operations of the gateway; and [DoInstall]: a row that a template pack or an import
    adds, which passes the checks of the table. *)
Inductive library_op :=
| DoCreate (data : Create) (now : Z)
| DoUpdate (id : uuid) (changes : list (pystr * library_value)) (now : Z)
| DoDelete (id : uuid)
| DoInstall (row : Row).
Definition install (row : Row) : tx unit := fun t =>
  check_row refused (tb_next t) row t;;
  Ok (tt, {| tb_rows := tb_rows t ++ [(tb_next t, row)]; tb_next := (tb_next t + 1)%N |}).
Definition run_op (t : table Row) (op : library_op) : table Row :=
  match op with
  | DoCreate data now => (begin (create refused data now) t).2
  | DoUpdate id changes now => (begin (update refused changed id changes now) t).2
  | DoDelete id => (begin (delete id) t).2
  | DoInstall row => (begin (install row) t).2
  end.
(** The rows other writers add can be shown, whatever identifier they get. *)
Definition shown_op (op : library_op) : Prop :=
  match op with DoInstall row => forall id, exists v, to_view (id, row) = Ok v | _ => True end.

Lemma update_library id changes now t v t' : library_ok t ->
  begin (update refused changed id changes now) t = (v, t') -> library_ok t'.
Proof.
  intros Hok. unfold begin. destruct (update _ _ _ _ _ _) as [[v1 t1]|] eqn:Eu; intros [= _ <-]; [|done].
  unfold update in Eu. apply bind_ok in Eu as (columns & _ & Eu). destruct (dict_get (tb_rows t) id) as [row|] eqn:Er.
  - apply bind_ok in Eu as (row' & Hf & (v2 & Hv & [= _ <-])%bind_ok). unfold flushed in Hf.
    apply bind_ok in Hf as (row2 & _ & ([] & Hc & [= <-])%bind_ok). by eapply replace_library.
  - by injection Eu as _ <-.
Qed.

Lemma run_op_ok t op : shown_op op -> library_ok t -> library_ok (run_op t op).
Proof.
  intros Hs Hok. destruct op as [data now|id changes now|id|row]; cbn [run_op].
  - destruct (begin (create refused data now) t) as [[v|e] t'] eqn:Ec; cbn.
    + destruct (create_ok _ _ _ _ _ Ec) as (Hc & Hv & ->). by eapply insert_library.
    + by rewrite (create_failed _ _ _ _ _ Ec).
  - destruct (begin (update _ _ _ _ _) t) as [v t'] eqn:Eu. by eapply update_library.
  - unfold begin, delete. destruct (dict_get (tb_rows t) id); [by apply remove_library|done].
  - unfold begin, install. destruct (check_row refused (tb_next t) row t) as [[]|] eqn:Ec; [|done]. cbn.
    destruct (Hs (tb_next t)) as [v Hv]. by eapply insert_library.
Qed.

Lemma library_history ops t : Forall shown_op ops -> library_ok t -> library_ok (fold_left run_op ops t).
Proof. intros Hops. revert t. induction Hops as [|op ops Hop _ IH]; cbn; intros t Hok; [done|]. by apply IH, run_op_ok. Qed.

(** ** The services over a table *)

Context `{Scans} `{Collation}.
#[local] Instance library_signature : Signature := manage_signature (View:=View) (Create:=Create).

Record library_world := { lw_table : table Row; lw_log : list (pystr * jobject); lw_now : Z }.
Definition with_table (t : table Row) (w : library_world) : library_world :=
  {| lw_table := t; lw_log := lw_log w; lw_now := lw_now w |}.
Definition commit {A} (m : tx A) (w : library_world) : res A * library_world :=
  let '(r, t) := begin m (lw_table w) in (r, with_table t w).
Definition serve (c : manage_call Create) (w : library_world) : res (manage_answer View c) * library_world :=
  match c as c return res (manage_answer View c) * library_world with
  | Get id => (get id (lw_table w), w)
  | ListPage query => (list_page query (lw_table w), w)
  | ListTags => (Ok (list_tags (lw_table w)), w)
  | CreateOne data => commit (create refused data (lw_now w)) w
  | UpdateOne id changes => commit (update refused changed id changes (lw_now w)) w
  | DeleteOne id => commit (delete id) w
  | Log action details =>
      (Ok tt, {| lw_table := lw_table w; lw_log := lw_log w ++ [(action, details)]; lw_now := lw_now w |})
  end.
(** Any call may fail with an ordinary exception instead, leaving everything as it was. *)
Definition failing (c : manage_call Create) (e : exn) : Prop := isinstance (exn_type e) Exception_ = true.
Abbreviation executes := (exec (with_faults serve failing)).

Definition clone_name (new_name : option pystr) (original : pystr) : pystr :=
  match new_name with Some (c :: name) => c :: name | _ => original ++ #"-copy" end.
Definition logged (entry : pystr * jobject) (with_audit : bool) (w w' : library_world) : Prop :=
  lw_log w' = lw_log w ++ (if with_audit then [entry] else []).

Lemma swp_log (with_audit : bool) action details w (Q : res unit -> library_world -> Prop) :
  Q (Ok tt) {| lw_table := lw_table w; lw_log := lw_log w ++ (if with_audit then [(action, details)] else []); lw_now := lw_now w |} ->
  (with_audit = true -> forall e, failing (Log action details) e -> Q (Raise e) w) ->
  swp (with_faults serve failing) (log_action with_audit action details) w Q.
Proof.
  intros HQ Hf. unfold log_action. destruct with_audit; [by apply swp_call; [|by apply Hf]|].
  apply swp_lift. by rewrite app_nil_r in HQ; destruct w.
Qed.

Lemma serve_create data w :
  (exists e, serve (CreateOne data) w = (Raise e, w))
  \/ exists v, let id := tb_next (lw_table w) in
       serve (CreateOne data) w
       = (Ok v, with_table {| tb_rows := tb_rows (lw_table w) ++ [(id, new_row data (lw_now w))]; tb_next := (id + 1)%N |} w)
       /\ check_row refused id (new_row data (lw_now w)) (lw_table w) = Ok tt
       /\ to_view (id, new_row data (lw_now w)) = Ok v.
Proof.
  cbn [serve]. unfold commit. destruct (begin (create _ _ _) _) as [[v|e] t'] eqn:Ec.
  - right. exists v. destruct (create_ok _ _ _ _ _ Ec) as (Hc & Hv & ->). done.
  - left. exists e. rewrite (create_failed _ _ _ _ _ Ec). by destruct w.
Qed.

(** The table has one more row, which is what the original says under the new name. *)
Definition cloned (id : uuid) (new_name : option pystr) (now : Z) (t t' : table Row) (v : View) : Prop :=
  exists row original, dict_get (tb_rows t) id = Some row /\ to_view (id, row) = Ok original
  /\ view_name v = clone_name new_name (row_name row)
  /\ (forall now', new_row (clone_of (view_name v) v) now' = new_row (clone_of (view_name v) original) now')
  /\ tb_rows t' = tb_rows t ++ [(view_id v, new_row (clone_of (view_name v) original) now)]
  /\ (view_id v ∉ (tb_rows t).*1) /\ get (view_id v) t' = Ok (Some v).

(** What is created is read back, and would be stored alike again. *)
Theorem creation_read_back data now t v t' :
  proper data -> library_ok t -> begin (create refused data now) t = (Ok v, t') ->
  get (view_id v) t' = Ok (Some v) /\ view_name v = create_name data
  /\ forall now', new_row (clone_of (view_name v) v) now' = new_row data now'.
Proof.
  intros Hp Hok Hc. destruct (create_ok _ _ _ _ _ Hc) as (_ & Hv & ->). destruct (law_view _ _ _ Hv) as [Hid Hname].
  rewrite law_new in Hname. split_and!; [|done|rewrite Hname; by eapply law_read_back].
  unfold get. cbn [tb_rows]. rewrite Hid, dict_get_snoc by (apply (table_new row_name), lb_table, Hok).
  rewrite decide_True by done. by rewrite Hv.
Qed.

Lemma create_clone id new_name now t row original v :
  library_ok t -> dict_get (tb_rows t) id = Some row -> to_view (id, row) = Ok original ->
  let data := clone_of (clone_name new_name (row_name row)) original in
  to_view (tb_next t, new_row data now) = Ok v ->
  cloned id new_name now t {| tb_rows := tb_rows t ++ [(tb_next t, new_row data now)]; tb_next := (tb_next t + 1)%N |} v.
Proof.
  intros Hok Hrow Ho data Hv. exists row, original. destruct (law_view _ _ _ Hv) as [Hid Hname].
  unfold data in Hname. rewrite law_new, law_clone in Hname. rewrite Hname, Hid. fold data. split_and!; try done.
  - pose proof (law_read_back _ _ _ _ (law_clone_proper _ _ _ (clone_name new_name (row_name row)) Ho) Hv) as Hback.
    by rewrite law_clone in Hback.
  - intros Hin%dict_get_key. rewrite (table_new row_name _ _ (lb_table _ Hok)) in Hin. by destruct Hin.
  - unfold get. cbn [tb_rows]. rewrite dict_get_snoc by (apply (table_new row_name), lb_table, Hok).
    rewrite decide_True by done. by rewrite Hv.
Qed.

(** Cloning a stored command or script, whatever fails: it has no effect and raises - as
    not found if there is no such row and the table could be asked -, or it has added one row,
    under the given name or that of the original with "-copy", that stores what the original
    says, and left every other row as it was; then it returns the new row unless writing its
    audit entry failed. *)
Theorem clone_outcome (with_audit : bool) (id : uuid) (new_name : option pystr) (w w' : library_world) (r : res View) :
  library_ok (lw_table w) -> executes (clone_one with_audit id new_name) w r w' ->
  (w' = w /\ exists e, r = Raise e
     /\ (dict_get (tb_rows (lw_table w)) id = None -> e = Exn not_found_class (title ++ #" " ++ uuid_str id ++ #" not found")
                                                     \/ failing (Get id) e))
  \/ exists v, cloned id new_name (lw_now w) (lw_table w) (lw_table w') v
       /\ ((r = Ok v /\ logged (#"clone", [(#"entity", JStr kind); (#"source", JStr (uuid_str id))]) with_audit w w')
           \/ (with_audit = true /\ lw_log w' = lw_log w /\ exists e, r = Raise e)).
Proof.
  intros Hok Hx. pattern r, w'. eapply swp_exec; [|exact Hx]. unfold clone_one.
  apply swp_bind, swp_call; [|intros e He; left; split; [done|]; exists e; by auto].
  cbn [serve fst snd]. unfold get at 1. destruct (dict_get (tb_rows (lw_table w)) id) as [row|] eqn:Er.
  2: { left. split; [done|]. eexists. split; [done|]. by left. }
  destruct (lb_readable _ Hok _ _ Er) as [original Ho]. rewrite Ho. cbn [mbind res_bind].
  destruct (law_view _ _ _ Ho) as [_ Hname]. rewrite Hname. fold (clone_name new_name (row_name row)).
  apply swp_bind, swp_call; [|intros e He; left; split; [done|]; by exists e].
  destruct (serve_create (clone_of (clone_name new_name (row_name row)) original) w) as [[e ->]|(v & -> & Hc & Hv)];
    cbn [fst snd]; [left; split; [done|]; by exists e|].
  pose proof (create_clone id new_name (lw_now w) _ row original v Hok Er Ho Hv) as Hcl.
  apply swp_bind, swp_log.
  - apply swp_lift. right. exists v. split; [exact Hcl|]. left. split; [done|]. unfold logged. by destruct with_audit.
  - intros Ha e He. right. exists v. split; [exact Hcl|]. right. split_and!; [done..|]. by exists e.
Qed.

(** ** Bulk creation *)

Section bulk.
Context (with_audit : bool) (items : list Create) (w0 : library_world).
(** What a column type refuses is reported by an ordinary exception. *)
Context (refused_ordinary : forall row e, refused row = Some e -> isinstance (exn_type e) Exception_ = true).

Definition success_of (v : View) : BulkItemResult :=
  {| br_id := Some (view_id v); br_name := Some (view_name v); br_status := #"success"; br_error := [] |}.
Definition error_of (data : Create) (e : exn) : BulkItemResult :=
  {| br_id := None; br_name := Some (create_name data); br_status := #"error"; br_error := sanitize_bulk_error e |}.
Definition created_row (data : Create) (id : uuid) (new : list (uuid * Row)) : Prop := (id, new_row data (lw_now w0)) ∈ new.
(** Its audit entry. *)
Definition creation_entry (data : Create) : pystr * jobject := (#"create", [(#"entity", JStr kind); (#"name", JStr (create_name data))]).
(** The worker of an item waits for its audit entry to be written. *)
Definition logging (data : Create) (v : View) (p : prog BulkItemResult) : Prop :=
  match p with
  | Do c k => forall a w w', with_faults serve failing c w a w' ->
      lw_table w' = lw_table w /\ lw_now w' = lw_now w
      /\ ((k a = Done (Ok (success_of v)) /\ lw_log w' = lw_log w ++ [creation_entry data])
          \/ (lw_log w' = lw_log w /\ exists e, isinstance (exn_type e) Exception_ = true /\ k a = Done (Ok (error_of data e))))
  | Done _ => False
  end.

(** Where the worker of an item is, the row it has written and the entry. *)
Inductive at_phase (new : list (uuid * Row)) (data : Create) : prog BulkItemResult -> option uuid -> option (pystr * jobject) -> Prop :=
| phase_start : at_phase new data (_create_one with_audit data) None None
| phase_failed e : isinstance (exn_type e) Exception_ = true -> at_phase new data (Done (Ok (error_of data e))) None None
| phase_logging p v : with_audit = true -> logging data v p -> created_row data (view_id v) new -> view_name v = create_name data ->
    at_phase new data p (Some (view_id v)) None
| phase_done v : created_row data (view_id v) new -> view_name v = create_name data ->
    at_phase new data (Done (Ok (success_of v))) (Some (view_id v)) (if with_audit then Some (creation_entry data) else None)
| phase_unlogged id e : with_audit = true -> isinstance (exn_type e) Exception_ = true -> created_row data id new ->
    at_phase new data (Done (Ok (error_of data e))) (Some id) None.

Lemma at_phase_grow new x data p o l : at_phase new data p o l -> at_phase (new ++ [x]) data p o l.
Proof.
  assert (forall id, created_row data id new -> created_row data id (new ++ [x])) as Hgrow.
  { intros id. unfold created_row. rewrite elem_of_app. by left. }
  destruct 1; [by constructor..|apply phase_logging; auto|apply phase_done; auto|apply phase_unlogged; auto].
Qed.

Record bulk_inv (w : library_world) (ps : list (prog BulkItemResult)) (new : list (uuid * Row)) (written : list (option uuid))
    (entries : list (pystr * jobject)) (audited : list (option (pystr * jobject))) : Prop := {
  bi_ok : library_ok (lw_table w);
  bi_now : lw_now w = lw_now w0;
  bi_rows : tb_rows (lw_table w) = tb_rows (lw_table w0) ++ new;
  bi_ids : new.*1 ≡ₚ omap id written;
  bi_items : length written = length items;
  bi_log : lw_log w = lw_log w0 ++ entries;
  bi_entries : entries ≡ₚ omap id audited;
  bi_audited : length audited = length items;
  bi_phase : forall i data, items !! i = Some data ->
    exists p o l, ps !! i = Some p /\ written !! i = Some o /\ audited !! i = Some l /\ at_phase new data p o l }.

Lemma serve_ordinary c w : forall e, (serve c w).1 = Raise e -> (exists data, c = CreateOne data) -> isinstance (exn_type e) Exception_ = true.
Proof.
  intros e He [data ->]. cbn in He. unfold commit, begin in He. destruct (create refused data (lw_now w) (lw_table w)) as [[v t]|e'] eqn:Ec; [done|].
  cbn in He. injection He as ->. unfold create in Ec. destruct (check_row _ _ _ _) as [[]|e''] eqn:Ek; cbn in Ec.
  - destruct (to_view _) as [v|e''] eqn:Ev; [done|]. injection Ec as ->. by eapply law_raise.
  - injection Ec as ->. unfold check_row in Ek. destruct (refused _) as [e''|] eqn:Er; [injection Ek as ->; by eapply refused_ordinary|].
    destruct (negb _); [by injection Ek as <-|]. destruct (existsb _ _); [by injection Ek as <-|done].
Qed.

(** What one call of a worker does: nothing that is kept, or its audit entry, or its row. *)
Definition moved (w w' : library_world) (new : list (uuid * Row)) (data : Create) (o : option uuid) (l : option (pystr * jobject))
    (p' : prog BulkItemResult) : Prop :=
  (lw_table w' = lw_table w /\ lw_log w' = lw_log w /\ at_phase new data p' o l)
  \/ (lw_table w' = lw_table w /\ l = None /\ lw_log w' = lw_log w ++ [creation_entry data] /\ at_phase new data p' o (Some (creation_entry data)))
  \/ (o = None /\ let id := tb_next (lw_table w) in let row := (id, new_row data (lw_now w)) in
      lw_table w' = {| tb_rows := tb_rows (lw_table w) ++ [row]; tb_next := (id + 1)%N |} /\ lw_log w' = lw_log w
      /\ library_ok (lw_table w') /\ at_phase (new ++ [row]) data p' (Some id) l).

Lemma phase_step w new data p o l : library_ok (lw_table w) -> lw_now w = lw_now w0 -> at_phase new data p o l ->
  match p with
  | Do c k => forall a w', with_faults serve failing c w a w' -> lw_now w' = lw_now w /\ moved w w' new data o l (k a)
  | Done _ => True
  end.
Proof.
  intros Hok Hnow Hp. destruct Hp as [|e _|p v Ha Hl Hc Hn|v Hc Hn|id e Ha _ Hc]; try done.
  - cbn. intros a w' [Es|(-> & e & -> & He)].
    + destruct (serve_create data w) as [[e Ee]|(v & Ee & Hck & Hv)].
      * change (serve (CreateOne data) w) with (serve (CreateOne data) w) in Es. rewrite Ee in Es. injection Es as -> ->.
        split; [done|]. left. split; [done|]. split; [done|]. cbn.
        pose proof (serve_ordinary (CreateOne data) w e) as Ho. rewrite Ee in Ho. specialize (Ho eq_refl (ex_intro _ data eq_refl)).
        unfold on_exception. rewrite Ho. by apply phase_failed.
      * rewrite Ee in Es. injection Es as -> ->. split; [done|]. right. right. split; [done|]. cbn zeta. cbn [with_table lw_table lw_log].
        destruct (law_view _ _ _ Hv) as [Hid Hname]. rewrite law_new in Hname.
        split; [done|]. split; [done|]. split; [by eapply insert_library|]. rewrite <- Hid.
        assert (created_row data (view_id v) (new ++ [(view_id v, new_row data (lw_now w))])) as Hc.
        { unfold created_row. rewrite <- Hnow. apply elem_of_app. right. by apply list_elem_of_singleton. }
        cbn. unfold log_action. destruct with_audit eqn:Ea; cbn.
        2: { pose proof (phase_done (new ++ [(view_id v, new_row data (lw_now w))]) data v Hc Hname) as Hd. by rewrite Ea in Hd. }
        apply phase_logging; [done| |done|done]. intros a1 w1 w1' [El|(-> & e & -> & He)].
        -- injection El as -> ->. split_and!; [done..|]. left. by split.
        -- split_and!; [done..|]. right. split; [done|]. exists e. split; [done|]. cbn. unfold on_exception. unfold failing in He. by rewrite He.
    + split; [done|]. left. split; [done|]. split; [done|]. cbn. unfold on_exception. unfold failing in He. rewrite He. by apply phase_failed.
  - destruct p as [|c k]; [done|]. intros a w' Hs. destruct (Hl a w w' Hs) as (Ht & Hw & Hk). split; [done|].
    destruct Hk as [[-> Hlog]|(Hlog & e & He & ->)].
    + right. left. split_and!; [done..|]. pose proof (phase_done new data v Hc Hn) as Hd. by rewrite Ha in Hd.
    + left. split_and!; [done..|]. by apply phase_unlogged.
Qed.

Lemma omap_insert {A} (l : list (option A)) i id : l !! i = Some None -> omap Datatypes.id (<[i := Some id]> l) ≡ₚ id :: omap Datatypes.id l.
Proof.
  revert i. induction l as [|o l IH]; intros [|i]; cbn; [done..| |].
  - by intros [= ->].
  - intros Hi. specialize (IH i Hi). destruct o as [j|]; cbn; [|exact IH]. rewrite IH. apply Permutation_swap.
Qed.

Lemma bulk_step w ps new written entries audited i c k a w' :
  bulk_inv w ps new written entries audited -> length ps = length items -> ps !! i = Some (Do c k) -> with_faults serve failing c w a w' ->
  exists new' written' entries' audited', bulk_inv w' (<[i := k a]> ps) new' written' entries' audited'.
Proof.
  intros [Hok Hnow Hrows Hids Hlen Hlog Hent Haud Hph] Hps Hi Ha.
  destruct (lookup_lt_is_Some_2 items i) as [data Hdata]; [rewrite <- Hps; by eapply lookup_lt_Some|].
  destruct (Hph i data Hdata) as (p & o & l & Hp & Ho & Hl & Hat). rewrite Hi in Hp. injection Hp as <-.
  assert (i < length ps) as Hlt by (by eapply lookup_lt_Some).
  destruct (phase_step w new data _ o l Hok Hnow Hat a w' Ha) as [Hnow' [(Ht & Hlog' & Hat')|[(Ht & -> & Hlog' & Hat')|[-> (Ht & Hlog' & Hok' & Hat')]]]].
  - exists new, written, entries, audited. split; [by rewrite Ht|by rewrite Hnow'|by rewrite Ht|done|done|by rewrite Hlog'|done|done|].
    intros j dj Hj. destruct (decide (i = j)) as [<-|Hne].
    + exists (k a), o, l. rewrite list_lookup_insert_eq by done. split_and!; [done..|]. by simplify_eq.
    + rewrite list_lookup_insert_ne by done. by apply Hph.
  - exists new, written, (entries ++ [creation_entry data]), (<[i := Some (creation_entry data)]> audited).
    split; [by rewrite Ht|by rewrite Hnow'|by rewrite Ht|done|done|by rewrite Hlog', Hlog, <- app_assoc| |by rewrite length_insert|].
    + rewrite (omap_insert _ _ _ Hl), Hent. symmetry. apply Permutation_cons_append.
    + intros j dj Hj. destruct (decide (i = j)) as [<-|Hne].
      * simplify_eq. do 3 eexists. rewrite !list_lookup_insert_eq by (try rewrite Haud, <- Hps; done). by split_and!.
      * rewrite !list_lookup_insert_ne by done. by apply Hph.
  - eexists (new ++ [(tb_next (lw_table w), new_row data (lw_now w))]), (<[i := Some (tb_next (lw_table w))]> written), entries, audited.
    split; [done|by rewrite Hnow'|by rewrite Ht, Hrows, <- app_assoc| |by rewrite length_insert|by rewrite Hlog'|done|done|].
    + rewrite fmap_app, (omap_insert _ _ _ Ho), Hids. cbn. symmetry. apply Permutation_cons_append.
    + intros j dj Hj. destruct (decide (i = j)) as [<-|Hne].
      * simplify_eq. do 3 eexists. rewrite !list_lookup_insert_eq by (try rewrite Hlen, <- Hps; done). split_and!; done.
      * rewrite !list_lookup_insert_ne by done. destruct (Hph j dj Hj) as (p & o & l' & Hp & Hoj & Hlj & Hatj).
        exists p, o, l'. split_and!; [done..|]. by apply at_phase_grow.
Qed.

Lemma omap_none {A B} (l : list A) : omap Datatypes.id (replicate (length l) (None : option B)) = [].
Proof. by induction l. Qed.
Lemma bulk_start : library_ok (lw_table w0) ->
  bulk_inv w0 (_create_one with_audit <$> items) [] (replicate (length items) None) [] (replicate (length items) None).
Proof.
  intros Hok. split; [done|done|by rewrite app_nil_r|by rewrite omap_none|by rewrite length_replicate|by rewrite app_nil_r
    |by rewrite omap_none|by rewrite length_replicate|].
  intros i data Hi. exists (_create_one with_audit data), None, None. rewrite list_lookup_fmap, Hi.
  split_and!; [done| | |apply phase_start]; apply lookup_replicate_2; by eapply lookup_lt_Some.
Qed.

(** The outcome of the item [data]: the result it got, the row that was written for it and the
    audit entry. *)
Definition item_outcome (new : list (uuid * Row)) (data : Create) (result : BulkItemResult) (row : option uuid)
    (entry : option (pystr * jobject)) : Prop :=
  match row, entry with
  | Some id, Some entry =>
      created_row data id new /\ with_audit = true /\ entry = creation_entry data
      /\ result = {| br_id := Some id; br_name := Some (create_name data); br_status := #"success"; br_error := [] |}
  | Some id, None =>
      created_row data id new
      /\ if with_audit
         then exists e, isinstance (exn_type e) Exception_ = true /\ result = error_of data e
         else result = {| br_id := Some id; br_name := Some (create_name data); br_status := #"success"; br_error := [] |}
  | None, None => exists e, isinstance (exn_type e) Exception_ = true /\ result = error_of data e
  | None, Some _ => False
  end.

Lemma phase_outcome new data r o l : at_phase new data (Done r) o l -> exists result, r = Ok result /\ item_outcome new data result o l.
Proof.
  inversion 1 as [Hs|e He Hr|p v Ha Hl Hc Hn Hp|v Hc Hn Hr|id e Ha He Hc Hr]; subst; try done.
  - eexists. split; [done|]. by exists e.
  - exists (success_of v). split; [done|]. unfold item_outcome, success_of. rewrite Hn. by destruct with_audit.
  - eexists. split; [done|]. unfold item_outcome. rewrite Ha. split; [done|]. by exists e.
Qed.

Lemma phases_outcome (l : list (res BulkItemResult)) new (written : list (option uuid)) (audited : list (option (pystr * jobject))) :
  length l = length items ->
  (forall i data, items !! i = Some data ->
     exists p o en, (Done <$> l) !! i = Some p /\ written !! i = Some o /\ audited !! i = Some en /\ at_phase new data p o en) ->
  exists results, l = Ok <$> results /\ forall i data, items !! i = Some data -> exists result row entry,
    results !! i = Some result /\ written !! i = Some row /\ audited !! i = Some entry /\ item_outcome new data result row entry.
Proof.
  intros Hlen Hph.
  assert (Forall (fun r => exists result, r = Ok result) l) as Hok.
  { apply Forall_lookup. intros i r Hi. destruct (lookup_lt_is_Some_2 items i) as [data Hdata]; [rewrite <- Hlen; by eapply lookup_lt_Some|].
    destruct (Hph i data Hdata) as (p & o & en & Hp & _ & _ & Hat). rewrite list_lookup_fmap, Hi in Hp. injection Hp as <-.
    apply phase_outcome in Hat as (result & -> & _). by exists result. }
  assert (exists results, l = Ok <$> results) as [results ->].
  { clear Hph Hlen. induction Hok as [|r l [a ->] _ [results ->]]; [by exists []|by exists (a :: results)]. }
  exists results. split; [done|]. intros i data Hdata. destruct (Hph i data Hdata) as (p & o & en & Hp & Ho & He & Hat).
  rewrite !list_lookup_fmap in Hp. destruct (results !! i) as [result|] eqn:Er; [|done]. injection Hp as <-.
  apply phase_outcome in Hat as (result' & [= ->] & Hout). by exists result', o, en.
Qed.
Lemma first_error_ok {A} (l : list A) : first_error (Ok <$> l) = Ok l.
Proof. induction l as [|a l IH]; [done|]. cbn. by rewrite IH. Qed.

(** C27: a bulk creation of commands or scripts, in every interleaving of its items and whatever
    fails: it answers one result per item, in the order of the request; the table has got, at
    its end, one row for each of some of the items, with the content of the item, under fresh
    and distinct identifiers, and names are still unique; and the log has got one audit entry
    for each of some of them. An item whose row is written is reported as created, under the
    identifier of its row, with its audit entry in the log if audit is on; the exception is an
    item whose audit entry is not in the log although audit is on: it is reported as failed, and
    its row stays. An item without a row is reported as failed, with no entry. *)
Theorem bulk_create_outcome (sched : list nat) (w' : library_world) (r : res (Z * BulkResult)) :
  library_ok (lw_table w0) -> executes (bulk_create with_audit sched items) w0 r w' ->
  exists results new (written : list (option uuid)) entries (audited : list (option (pystr * jobject))),
    r = Ok (build_bulk_result 201 results) /\ length results = length items /\ library_ok (lw_table w')
    /\ tb_rows (lw_table w') = tb_rows (lw_table w0) ++ new
    /\ new.*1 ≡ₚ omap Datatypes.id written /\ NoDup (tb_rows (lw_table w')).*1
    /\ lw_log w' = lw_log w0 ++ entries /\ entries ≡ₚ omap Datatypes.id audited
    /\ forall i data, items !! i = Some data -> exists result row entry,
         results !! i = Some result /\ written !! i = Some row /\ audited !! i = Some entry
         /\ item_outcome new data result row entry.
Proof.
  intros Hok (rp & w1 & Hp & Hr)%exec_bind_inv.
  set (I := fun (w : library_world) (ps : list (prog BulkItemResult)) => length ps = length items
    /\ exists new written entries audited, bulk_inv w ps new written entries audited).
  assert (I w0 (_create_one with_audit <$> items)) as Hstart.
  { split; [by rewrite length_fmap|]. eexists _, _, _, _. by apply bulk_start. }
  apply (@exec_gather library_signature library_world BulkItemResult (@with_faults library_signature library_world serve failing) I)
    in Hp as (l & -> & Hlen & new & written & entries & audited & Hinv); [|clear -Hstart EntityLaws0 refused_ordinary|exact Hstart].
  2: { intros w ps i c k a w2 (Hlen & new & written & entries & audited & Hinv) Hi Ha. split; [by rewrite length_insert|]. by eapply bulk_step. }
  rewrite length_fmap in Hlen. destruct (phases_outcome l new written audited Hlen (bi_phase _ _ _ _ _ _ Hinv)) as (results & -> & Hres).
  rewrite first_error_ok in Hr. apply exec_inv in Hr as [<- <-].
  exists results, new, written, entries, audited. split; [done|]. split; [by rewrite length_fmap in Hlen|].
  split_and!; [apply Hinv|apply Hinv|apply Hinv|apply (tb_ids _ _ _ (lb_table _ (bi_ok _ _ _ _ _ _ Hinv)))|apply Hinv|apply Hinv|exact Hres].
Qed.
End bulk.
End tables.

(** ** Steps that name their command *)

Section named.
Context `{Unicode} `{PyFloat} (parse_uuid : pystr -> option uuid).

Lemma map_res_raise {A B} (f : A -> res B) e l a : (forall b e', f b = Raise e' -> e' = e) -> a ∈ l -> f a = Raise e -> map_res f l = Raise e.
Proof.
  intros Hall Ha Hf. induction l as [|b l IH]; [by apply elem_of_nil in Ha|]. cbn.
  destruct (f b) as [c|e'] eqn:Eb; [|by rewrite (Hall _ _ Eb)]. cbn.
  apply elem_of_cons in Ha as [->|Ha]; [congruence|]. by rewrite (IH Ha).
Qed.

(** A step that refers to its command by name passes the validation of a request, but the
    name is not stored: a script created with such a step cannot be shown any more - every
    response with it, alone or in a list, fails with a validation error -, and when it runs, the
    step fails because it has no command. *)
Theorem named_step_is_lost (step : ScriptStep) (data : ScriptCreateDTO) :
  valid_step step = true -> sq_type step = #"command" -> sq_command_id step = None ->
  _step_dto step ∈ sx_steps data -> Forall (proper_step parse_uuid) (sx_steps data) ->
  (forall id now view, script_view parse_uuid (id, new_script data now) = Ok view ->
     script_response view = raise ValidationError #"validation error")
  /\ forall params, Script._resolve_step parse_uuid (_step_to_dict (_step_dto step)) params
     = mret {| Script.rs_label := JStr (sq_label step); Script.rs_command := []; Script.rs_on_failure := JStr (sq_on_failure step);
               Script.rs_resolution_error := Some #"Command step has no command_id" |}.
Proof.
  intros _ Ht Hid Hin Hp. split.
  - intros id now view (ss & Hss & [= <-])%bind_ok. cbn in Hss. apply (stored_steps_read parse_uuid) in Hss as ->; [|exact Hp].
    unfold script_response. cbn [sv_steps]. rewrite (map_res_raise step_response (Exn ValidationError #"validation error") _ (plain_params (_step_dto step))).
    + done.
    + intros b e'. unfold step_response, validated. destruct (valid_step _); [done|]. by intros [= <-].
    + by apply list_elem_of_fmap_2.
    + unfold step_response, validated. replace (valid_step _) with false; [done|]. symmetry. unfold valid_step, check_command_ref.
      cbn [plain_params _step_dto sp_type sp_command_id sq_type sq_command_id sq_command_name present]. rewrite Ht, Hid.
      change (str_eqb #"command" #"command") with true. cbn [negb andb]. by rewrite !andb_false_r.
  - intros params. unfold Script._resolve_step. destruct (step_fields (_step_dto step)) as (H1 & H2 & _ & H4 & _ & H6).
    rewrite H1, H2, H6. cbn [default _step_dto sp_label sp_type sp_on_failure]. rewrite Ht.
    change (str_eqb #"command" #"inline") with false. change (str_eqb #"command" #"command") with true. cbv iota.
    unfold Script.render_stored, Script.truthy_field. rewrite H4. cbn [_step_dto sp_command_id]. rewrite Hid. done.
Qed.
End named.

(** ** Instances *)

#[local] Instance test_unicode : Unicode := ascii_only.
#[local] Instance test_floats : PyFloat := literal_floats.
#[local] Instance test_commands : Entity CommandModel CommandViewDTO CommandCreateDTO := command_entity.
#[local] Instance test_scan : Scans := heap_order.
#[local] Instance test_collation : Collation := ascii_collation.
#[local] Instance test_signature : Signature := manage_signature (View:=CommandViewDTO) (Create:=CommandCreateDTO).
Definition test_create (name : pystr) : CommandCreateDTO :=
  {| cc_name := name; cc_command := #"df {path}"; cc_description := None;
     cc_parameters := [{| pd_name := #"path"; pd_type := #"string"; pd_required := true; pd_default := JNull; pd_description := None |}];
     cc_tags := [ #"disk"]; cc_timeout := 30 |}.
Definition test_serve : forall c : manage_call CommandCreateDTO,
    library_world -> res (manage_answer CommandViewDTO c) * library_world :=
  serve (fun _ => None) (fun _ _ => true).
Definition test_table : table CommandModel :=
  fold_left (run_op (fun _ => None) (fun _ _ => true)) [DoCreate (test_create #"df") 5] empty_table.
Definition test_world : library_world := {| lw_table := test_table; lw_log := []; lw_now := 10 |}.

Lemma test_ok : library_ok test_table.
Proof. apply (library_history (fun _ => None) (fun _ _ => true)); [by repeat constructor|apply library_empty]. Qed.

Definition clone_run : res CommandViewDTO * library_world := run_state test_serve (clone_one true 1 None) test_world.
Lemma clone_outcome_witness :
  exists v, clone_run.1 = Ok v /\ cv_name v = #"df-copy"
    /\ cloned 1 None 10 test_table (lw_table clone_run.2) v /\ length (lw_log clone_run.2) = 1.
Proof.
  destruct (clone_outcome (fun _ => True) (fun _ => None) (fun _ _ => true) true 1 None test_world clone_run.2 clone_run.1 test_ok)
    as [(_ & e & He & _)|(v & Hcl & [(Hr & Hl)|(_ & _ & e & He)])].
  - apply run_state_exec. vm_compute. reflexivity.
  - vm_compute in He. discriminate He.
  - exists v. split; [exact Hr|]. split; [|split; [exact Hcl|unfold logged in Hl; rewrite Hl; reflexivity]].
    change (cv_name v) with (match (Ok v : res CommandViewDTO) with Ok u => cv_name u | Raise _ => [] end). rewrite <- Hr.
    vm_compute. reflexivity.
  - vm_compute in He. discriminate He.
Defined.

(** Two items with one name, started together: the first to be written wins. *)
Definition bulk_run : res (Z * BulkResult) * library_world :=
  run_state test_serve (bulk_create true [1; 0; 0; 1] [test_create #"up"; test_create #"up"]) test_world.
Lemma bulk_create_outcome_witness :
  (exists results, bulk_run.1 = Ok (207%Z, {| bu_total := 2; bu_succeeded := 1; bu_failed := 1; bu_results := results |})
     /\ (br_status <$> results) = [ #"error"; #"success"])
  /\ length (tb_rows (lw_table bulk_run.2)) = 2 /\ library_ok (lw_table bulk_run.2).
Proof.
  split; [eexists; split; vm_compute; reflexivity|]. split; [vm_compute; reflexivity|].
  destruct (bulk_create_outcome (fun _ => True) (fun _ => None) (fun _ _ => true) true [test_create #"up"; test_create #"up"] test_world
    (fun _ _ H => ltac:(discriminate H)) [1; 0; 0; 1] bulk_run.2 bulk_run.1 test_ok) as (_ & _ & _ & _ & _ & _ & _ & Hok & _).
  - apply run_state_exec. vm_compute. reflexivity.
  - exact Hok.
Defined.

Definition named_step : ScriptStep :=
  {| sq_label := #"restart"; sq_type := #"command"; sq_command := None; sq_command_id := None;
     sq_command_name := Some #"restart-nginx"; sq_params := []; sq_on_failure := #"stop" |}.
Definition named_script : ScriptCreateDTO :=
  {| sx_name := #"deploy"; sx_steps := [_step_dto named_step]; sx_description := None; sx_tags := []; sx_timeout := 60 |}.
Lemma named_step_is_lost_witness :
  valid_step named_step = true
  /\ exists view, script_view (fun _ => None) (7%N, new_script named_script 0) = Ok view
    /\ script_response view = raise ValidationError #"validation error".
Proof.
  split; [vm_compute; reflexivity|]. eexists. split; [vm_compute; reflexivity|].
  refine (proj1 (named_step_is_lost (fun _ => None) named_step named_script _ _ _ _ _) 7%N 0%Z _ _).
  - vm_compute. reflexivity.
  - reflexivity.
  - reflexivity.
  - left.
  - repeat constructor. intros id Hid. discriminate Hid.
  - vm_compute. reflexivity.
Defined.
