(* ===== verification/WebSocket.v ===== *)
(** * Commands over a WebSocket

    [app/api/v2/websocket.py] and [app/application/services/streaming_command_service.py]: the
    handler of one socket, which takes the client's messages, and the task that forwards the
    events of the running command.  Both are call trees; the step relation of the last part
    runs them together, with any answers of the client, the node and the key service. *)
From S2P Require Import Prelude PyStr Errors Json Bytes Effects Dto Codec Auth Ssh.

(** ** Messages ([app/schemas/websocket.py]) *)

Definition WebSocketDisconnect : exn_class := LibraryError #"WebSocketDisconnect".
Definition ValidationError : exn_class := LibraryError #"ValidationError".
Definition _MAX_WS_MESSAGE_SIZE : nat := N.to_nat 16384.

(** An optional field that has one legal value, its default. *)
Definition literal_or_default (data : jobject) (field value : pystr) : bool :=
  match dict_get data field with None => true | Some (JStr s) => str_eqb s value | Some _ => false end.

(** The command of a [WebSocketCommandMessage], the signal of a [WebSocketSignalMessage]. *)
Definition WebSocketCommandMessage (data : jobject) : res pystr :=
  match dict_get data #"command" with
  | Some (JStr command) =>
      if literal_or_default data #"version" #"1" && literal_or_default data #"type" #"command"
         && negb (existsb is_surrogate command)
         && (1 <=? N.of_nat (length command))%N && (N.of_nat (length command) <=? 4096)%N
      then Ok command else raise ValidationError #"validation error"
  | _ => raise ValidationError #"validation error"
  end.
Definition WebSocketSignalMessage (data : jobject) : res pystr :=
  match dict_get data #"type", dict_get data #"signal" with
  | Some (JStr type), Some (JStr signal) =>
      if literal_or_default data #"version" #"1" && str_eqb type #"signal"
         && bool_decide (signal ∈ [ #"SIGINT"; #"SIGTERM"; #"SIGHUP"])
      then Ok signal else raise ValidationError #"validation error"
  | _, _ => raise ValidationError #"validation error"
  end.

(** ** Calls *)

(** [RemoteStreamEventDTO]. *)
Record RemoteStreamEventDTO := { re_type : pystr; re_data : option pystr; re_exit_code : option Z }.
(** The arguments of [create_ssh]. *)
Record ssh_target := {
  tg_host : pystr; tg_port : Z; tg_username : option pystr; tg_password : option pystr;
  tg_ssh_key : option pystr; tg_passphrase : option pystr }.

Inductive ws_call :=
| Accept
| Close (code : Z) (reason : pystr)
| SendJson (payload : jobject)
| ReceiveJson
| Authenticate (token : pystr)
| GetConnection (node_id : uuid)
| Decrypt (value : option pystr)
| Connect (target : ssh_target)
| Disconnect
| SendSignal (signal : pystr)
| AbortActiveProcess
| ActiveTask                    (* the variable [active_task]: unset, or whether it is done *)
| StartTask (command : pystr)   (* [create_task], and [sleep(0)], which lets it begin *)
| CancelTask
| GatherTask
| NextEvent                     (* of the running command; [None] at the end *)
| CloseEvents
| Idle.                         (* never answered: where a bounded loop stops *)
Definition ws_answer (c : ws_call) : Type :=
  match c with
  | ReceiveJson => json
  | Authenticate _ => AuthenticatedPrincipal
  | GetConnection _ => option NodeConnectionDTO
  | Decrypt _ => option pystr
  | ActiveTask => option bool
  | NextEvent => option RemoteStreamEventDTO
  | _ => unit
  end.
#[export] Instance ws_signature : Signature := {| call := ws_call; answer := ws_answer |}.

Definition versioned (type : pystr) (rest : jobject) : jobject := (#"version", JStr #"1") :: (#"type", JStr type) :: rest.
Definition error_frame (message : pystr) : jobject := versioned #"error" [(#"message", JStr message)].
Definition send_error (message : pystr) : prog unit := perform (SendJson (error_frame message)).

(** ** The events of a command *)

Definition event_payload (event : RemoteStreamEventDTO) : jobject :=
  versioned (re_type event)
    (match re_data event with Some data => [(#"data", JStr data)] | None => [] end
     ++ match re_exit_code event with Some code => [(#"exit_code", JInt code)] | None => [] end).

(** [async for], bounded. *)
Fixpoint forward_events (fuel : nat) : prog unit :=
  match fuel with
  | O => perform Idle
  | S fuel =>
      event ← perform NextEvent;
      match event with
      | None => mret tt
      | Some event => perform (SendJson (event_payload event));; forward_events fuel
      end
  end.
Definition _send_command_events (fuel : nat) : prog unit :=
  finally
    (try_except (forward_events fuel)
       (fun exc =>
          if isinstance (exn_type exc) ConnectionFailedError then Some (send_error #"Remote execution failed")
          else on_exception (fun _ => send_error #"Internal error") exc))
    (perform CloseEvents).

(** ** The handler *)

Section handler.
Context `{Unicode} `{PyFloat} `{AuthHost}.

Definition _validate_ws_token (token : option pystr) : prog bool :=
  match token with
  | Some ((_ :: _) as token) =>
      master ← lift (is_master token);
      if (master : bool) then mret true
      else
        try_except
          (principal ← perform (Authenticate token);
           if str_eqb (ap_scope principal) #"read-write" then mret true
           else perform (Close 4003 #"Insufficient scope");; mret false)
          (on_exception (fun _ => perform (Close 4003 #"Invalid API key");; mret false))
  | _ => perform (Close 4001 #"Missing token");; mret false
  end.

(** [StreamingCommandService.connect], around the body. *)
Definition in_connection {A} (node_id : uuid) (body : prog A) : prog A :=
  node ← perform (GetConnection node_id);
  match node with
  | None => lift (raise NodeNotFoundError (#"Node " ++ uuid_str node_id ++ #" not found"))
  | Some node =>
      password ← perform (Decrypt (cr_password (n_credentials node)));
      ssh_key ← perform (Decrypt (cr_ssh_key (n_credentials node)));
      passphrase ← perform (Decrypt (cr_passphrase (n_credentials node)));
      perform (Connect {| tg_host := ep_host (n_endpoint node); tg_port := ep_port (n_endpoint node);
                          tg_username := cr_username (n_credentials node); tg_password := password;
                          tg_ssh_key := ssh_key; tg_passphrase := passphrase |});;
      finally body (perform Disconnect)
  end.

(** The next message, unless it is no JSON. *)
Definition receive_data : prog (option json) :=
  try_except (data ← perform ReceiveJson; mret (Some data))
    (fun exc =>
       if isinstance (exn_type exc) WebSocketDisconnect then
         Some (active ← perform ActiveTask;
               (match active with Some false => perform AbortActiveProcess | _ => mret tt end);;
               lift (Raise exc))
       else if isinstance (exn_type exc) JSONDecodeError || isinstance (exn_type exc) ValueError then
         Some (send_error #"Invalid JSON";; mret None)
       else None).

Definition handle_signal (data : jobject) : prog unit :=
  accepted ← try_except
    (signal ← lift (WebSocketSignalMessage data);
     perform (SendSignal signal);;
     mret (Some signal))
    (fun exc =>
       if isinstance (exn_type exc) ValidationError || isinstance (exn_type exc) ValueError
          || isinstance (exn_type exc) RuntimeError
       then Some (send_error #"Signal rejected";; mret None) else None);
  match accepted with
  | None => mret tt
  | Some signal => perform (SendJson (versioned #"signal_ack" [(#"signal", JStr signal)]))
  end.

Definition handle_command (data : jobject) : prog unit :=
  match WebSocketCommandMessage data with
  | Raise _ => send_error #"Invalid command message"
  | Ok command =>
      active ← perform ActiveTask;
      match active with
      | Some false => send_error #"A command is already running"
      | _ => perform (StartTask command)
      end
  end.

(** One turn of [while True]: whether there is a next one. *)
Definition serve_message : prog bool :=
  data ← receive_data;
  match data with
  | None => mret true
  | Some data =>
      if (_MAX_WS_MESSAGE_SIZE <? length (json_dumps data))%nat
      then perform (Close 1009 #"Message too large");; mret false
      else match data with
           | JObj data =>
               (if match dict_get data #"type" with Some (JStr type) => str_eqb type #"signal" | _ => false end
                then handle_signal data else handle_command data);;
               mret true
           | _ => lift (raise AttributeError #"object has no attribute 'get'")
           end
  end.
Fixpoint message_loop (fuel : nat) : prog unit :=
  match fuel with
  | O => perform Idle
  | S fuel => continue ← serve_message; if (continue : bool) then message_loop fuel else mret tt
  end.

(** The [finally] around the connection. *)
Definition stop_task : prog unit :=
  active ← perform ActiveTask;
  match active with
  | None => mret tt
  | Some done =>
      (if (done : bool) then mret tt
       else try_except (perform AbortActiveProcess : prog unit)
              (fun exc => if isinstance (exn_type exc) OSError || isinstance (exn_type exc) RuntimeError
                          then Some (mret tt) else None));;
      perform CancelTask;;
      perform GatherTask
  end.

Definition streaming (fuel : nat) (node_id : uuid) : prog unit :=
  finally
    (try_except (in_connection node_id (message_loop fuel))
       (fun exc =>
          if isinstance (exn_type exc) NodeNotFoundError then
            Some (perform (SendJson [(#"type", JStr #"error"); (#"message", JStr (#"Node " ++ uuid_str node_id ++ #" not found"))]);;
                  perform (Close 4004 #"Node not found"))
          else if isinstance (exn_type exc) ConnectionFailedError then Some (send_error #"Remote connection failed")
          else None))
    stop_task.

Definition exec_stream (fuel : nat) (node_id : uuid) (token : option pystr) : prog unit :=
  perform Accept;;
  valid ← _validate_ws_token token;
  if (valid : bool) then
    try_except (streaming fuel node_id)
      (fun exc =>
         if isinstance (exn_type exc) WebSocketDisconnect then Some (mret tt)
         else on_exception (fun _ =>
                try_except (perform (Close 1011 #"Internal error") : prog unit)
                  (fun close_exc => if isinstance (exn_type close_exc) RuntimeError then Some (mret tt) else None)) exc)
  else mret tt.
End handler.

(** ** The handler and its task together *)

Inductive actor := Handler | Task (n : nat).
#[export] Instance actor_eq_dec : EqDecision actor.
Proof. solve_decision. Defined.
Definition trace : Type := list (actor * event).
(** What one of them has called, in order. *)
Definition seen (who : actor) (t : trace) : history := snd <$> List.filter (fun e => bool_decide (e.1 = who)) t.

(** The tasks started so far; only the last one can be running. *)
Record session := {
  sn_handler : prog unit;
  sn_task : option (prog unit);
  sn_started : nat;
  sn_trace : trace }.
Definition start (p : prog unit) : session := {| sn_handler := p; sn_task := None; sn_started := 0; sn_trace := [] |}.
Definition is_done {A} (p : prog A) : bool := if p is Done _ then true else false.

(** What the handler asks of its task is answered by its state. *)
Definition about_task (c : ws_call) : bool :=
  match c with ActiveTask | StartTask _ | CancelTask | GatherTask | Idle => true | _ => false end.
(** [Task.cancel]: the call that the task waits for raises [CancelledError]. *)
Definition cancelled : exn := Exn CancelledError [].
Definition cancel (n : nat) (p : prog unit) (t : trace) : prog unit * trace :=
  match p with
  | Done r => (Done r, t)
  | Do c k => (k (Raise cancelled), t ++ [(Task n, existT c (Raise cancelled))])
  end.

Section sessions.
Context (fuel : nat).

Inductive session_step : session -> session -> Prop :=
| handler_call c k a task n t :
    about_task c = false ->
    session_step {| sn_handler := Do c k; sn_task := task; sn_started := n; sn_trace := t |}
                 {| sn_handler := k a; sn_task := task; sn_started := n; sn_trace := t ++ [(Handler, existT c a)] |}
| handler_asks k task n t :
    session_step {| sn_handler := Do ActiveTask k; sn_task := task; sn_started := n; sn_trace := t |}
                 {| sn_handler := k (Ok (is_done <$> task)); sn_task := task; sn_started := n;
                    sn_trace := t ++ [(Handler, existT ActiveTask (Ok (is_done <$> task)))] |}
| handler_starts command k task n t :
    session_step {| sn_handler := Do (StartTask command) k; sn_task := task; sn_started := n; sn_trace := t |}
                 {| sn_handler := k (Ok tt); sn_task := Some (_send_command_events fuel); sn_started := S n;
                    sn_trace := t ++ [(Handler, existT (StartTask command) (Ok tt))] |}
| handler_cancels k p n t :
    session_step {| sn_handler := Do CancelTask k; sn_task := Some p; sn_started := n; sn_trace := t |}
                 {| sn_handler := k (Ok tt); sn_task := Some (cancel n p (t ++ [(Handler, existT CancelTask (Ok tt))])).1;
                    sn_started := n; sn_trace := (cancel n p (t ++ [(Handler, existT CancelTask (Ok tt))])).2 |}
| handler_gathers k r n t :
    session_step {| sn_handler := Do GatherTask k; sn_task := Some (Done r); sn_started := n; sn_trace := t |}
                 {| sn_handler := k (Ok tt); sn_task := Some (Done r); sn_started := n;
                    sn_trace := t ++ [(Handler, existT GatherTask (Ok tt))] |}
| task_call h c k a n t :
    about_task c = false ->
    session_step {| sn_handler := h; sn_task := Some (Do c k); sn_started := n; sn_trace := t |}
                 {| sn_handler := h; sn_task := Some (k a); sn_started := n; sn_trace := t ++ [(Task n, existT c a)] |}.

(** A schedule, run against given answers. *)
Context (answers : actor -> history -> forall c : ws_call, res (ws_answer c)).
Definition session_run (who : bool) (s : session) : option session :=
  let '{| sn_handler := h; sn_task := task; sn_started := n; sn_trace := t |} := s in
  if who then
    match task with
    | Some (Do c k) =>
        if about_task c then None
        else let a := answers (Task n) (seen (Task n) t) c in
             Some {| sn_handler := h; sn_task := Some (k a); sn_started := n; sn_trace := t ++ [(Task n, existT c a)] |}
    | _ => None
    end
  else
    match h with
    | Done _ => None
    | Do c k =>
        match c return ((res (ws_answer c) -> prog unit) -> option session) with
        | Idle => fun _ => None
        | ActiveTask => fun k =>
            Some {| sn_handler := k (Ok (is_done <$> task)); sn_task := task; sn_started := n;
                    sn_trace := t ++ [(Handler, existT ActiveTask (Ok (is_done <$> task)))] |}
        | StartTask command => fun k =>
            Some {| sn_handler := k (Ok tt); sn_task := Some (_send_command_events fuel); sn_started := S n;
                    sn_trace := t ++ [(Handler, existT (StartTask command) (Ok tt))] |}
        | CancelTask => fun k =>
            match task with
            | Some p =>
                let c := cancel n p (t ++ [(Handler, existT CancelTask (Ok tt))]) in
                Some {| sn_handler := k (Ok tt); sn_task := Some c.1; sn_started := n; sn_trace := c.2 |}
            | None => None
            end
        | GatherTask => fun k =>
            match task with
            | Some (Done r) =>
                Some {| sn_handler := k (Ok tt); sn_task := Some (Done r); sn_started := n;
                        sn_trace := t ++ [(Handler, existT GatherTask (Ok tt))] |}
            | _ => None
            end
        | c => fun k =>
            let a := answers Handler (seen Handler t) c in
            Some {| sn_handler := k a; sn_task := task; sn_started := n; sn_trace := t ++ [(Handler, existT c a)] |}
        end k
    end.
Fixpoint run_session (sched : list bool) (s : session) : option session :=
  match sched with
  | [] => Some s
  | who :: sched => match session_run who s with Some s' => run_session sched s' | None => None end
  end.
End sessions.
