(* ===== verification/WebSocketSpec.v ===== *)
(** * What a WebSocket session promises

    Access is checked before anything else happens; one command runs at a time; what is opened
    is closed; frames follow the events.  Each participant is verified alone, whatever its calls
    answer ([wp]), and the results carry over to the sessions in which both run ([sound]). *)
From S2P Require Import Prelude PyStr Errors Json Bytes Effects Dto Codec Auth Ssh WebSocket.

(** ** What a history says *)

Definition ev (c : ws_call) (a : res (ws_answer c)) : event := existT c a.

(** The connection is open: [Connect] returned, and [Disconnect] was not yet called. *)
Definition connected_after (b : bool) (e : event) : bool :=
  let '(existT c a) := e in
  match c with Connect _ => is_ok a || b | Disconnect => false | _ => b end.
Definition connected (h : history) : bool := fold_left connected_after h false.

(** No command is known to run: none was started since the last one was seen to be done, or
    was waited for. *)
Definition idle_after (b : bool) (e : event) : bool :=
  let '(existT c a) := e in
  match c return res (ws_answer c) -> bool with
  | StartTask _ => fun a => negb (is_ok a) && b
  | GatherTask => fun a => is_ok a || b
  | ActiveTask => fun a => match a with Ok (Some false) | Raise _ => b | Ok _ => true end
  | _ => fun _ => b
  end a.
Definition idle (h : history) : bool := fold_left idle_after h true.

(** The client left while a command was running. *)
Definition client_left (h : history) : Prop :=
  exists h0 e, h = h0 ++ [ev ReceiveJson (Raise e); ev ActiveTask (Ok (Some false))]
               /\ isinstance (exn_type e) WebSocketDisconnect = true.
Definition aborts (h : history) : bool :=
  existsb (fun e => match called e with AbortActiveProcess => true | _ => false end) h.

(** The last abort failed with an error that the clean-up does not expect. *)
Definition abort_failed (h : history) : Prop :=
  exists h1 e h2, h = h1 ++ ev AbortActiveProcess (Raise e) :: h2
    /\ isinstance (exn_type e) OSError = false /\ isinstance (exn_type e) RuntimeError = false
    /\ connected h1 = false.
(** There is a task. *)
Definition saw_task (e : event) : bool :=
  let '(existT c a) := e in
  match c return res (ws_answer c) -> bool with
  | ActiveTask => fun a => match a with Ok (Some _) => true | _ => false end
  | _ => fun _ => false
  end a.
Definition has_task (h : history) : Prop := existsb saw_task h = true.
Definition just_cancelled (h : history) : Prop := exists h0, h = h0 ++ [ev CancelTask (Ok tt)].
(** A question about the task raised: never in a session. *)
Definition odd (h : history) : bool :=
  existsb (fun e => about_task (called e) && negb (is_ok (projT2 e))) h.

Lemma has_task_snoc h e : has_task h -> has_task (h ++ [e]).
Proof. unfold has_task. rewrite existsb_app. by intros ->. Qed.
Lemma has_task_here h e : saw_task e = true -> has_task (h ++ [e]).
Proof. unfold has_task. rewrite existsb_app. cbn. intros ->. by rewrite orb_true_r. Qed.
Lemma has_task_inv h e : has_task (h ++ [e]) -> has_task h \/ saw_task e = true.
Proof. unfold has_task. rewrite existsb_app. cbn. rewrite orb_false_r. apply orb_true_iff. Qed.
Lemma connected_next h e : connected (h ++ [e]) = connected_after (connected h) e.
Proof. unfold connected. by rewrite fold_left_app. Qed.
Lemma idle_snoc h e : idle (h ++ [e]) = idle_after (idle h) e.
Proof. unfold idle. by rewrite fold_left_app. Qed.
Lemma aborts_snoc h e :
  aborts (h ++ [e]) = aborts h || match called e with AbortActiveProcess => true | _ => false end.
Proof. unfold aborts. rewrite existsb_app. cbn. by rewrite orb_false_r. Qed.
Lemma odd_snoc h e : odd (h ++ [e]) = odd h || about_task (called e) && negb (is_ok (projT2 e)).
Proof. unfold odd. rewrite existsb_app. cbn. by rewrite orb_false_r. Qed.
(** The answer that a command is running. *)
Definition says_running (e : event) : bool :=
  let '(existT c a) := e in
  match c return res (ws_answer c) -> bool with
  | ActiveTask => fun a => match a with Ok (Some false) => true | _ => false end
  | _ => fun _ => false
  end a.
Lemma client_left_snoc h e : says_running e = false -> ~ client_left (h ++ [e]).
Proof.
  intros He (h0 & e0 & E & _). change [ev ReceiveJson (Raise e0); ev ActiveTask (Ok (Some false))]
    with ([ev ReceiveJson (Raise e0)] ++ [ev ActiveTask (Ok (Some false))]) in E. rewrite app_assoc in E.
  by apply app_inj_tail in E as [_ ->].
Qed.
Lemma abort_failed_snoc h e : abort_failed h -> abort_failed (h ++ [e]).
Proof.
  intros (h1 & x & h2 & -> & Hx). exists h1, x, (h2 ++ [e]). split; [by rewrite <- app_assoc|done].
Qed.

Section access.
Context `{AuthHost}.

(** The token gives access: it is the master key, or that of an accepted key that may write. *)
Definition granted (token : option pystr) (h : history) : Prop :=
  exists key, token = Some key /\ key <> []
    /\ (is_master key = Ok true
        \/ exists p, ev (Authenticate key) (Ok p) ∈ h /\ ap_scope p = #"read-write").
Definition refused (h : history) : Prop :=
  exists h0 code reason, h = h0 ++ [ev (Close code reason) (Ok tt)] /\ (code = 4001 \/ code = 4003)%Z.

Lemma granted_snoc token h e : granted token h -> granted token (h ++ [e]).
Proof.
  intros (key & Hk & Hne & [Hm|(p & Hp & Hs)]); exists key; split_and!; try done; [by left|].
  right. exists p. split; [|done]. apply elem_of_app. by left.
Qed.

(** When each call of the handler is made. *)
Definition handler_rule (token : option pystr) (h : history) (c : ws_call) : Prop :=
  match c with
  | Accept | Close _ _ => True
  | Authenticate key => token = Some key
  | Connect _ => granted token h /\ connected h = false
  | StartTask _ => granted token h /\ connected h = true /\ idle h = true
  | SendSignal _ => granted token h /\ connected h = true
  | CancelTask => granted token h /\ has_task h
  | GatherTask => granted token h /\ has_task h /\ just_cancelled h
  | AbortActiveProcess => granted token h /\ (connected h = true -> client_left h)
  | Disconnect => granted token h /\ connected h = true
      /\ ((exists h0 a, h = h0 ++ [ev AbortActiveProcess a] /\ client_left h0) \/ aborts h = false /\ ~ client_left h)
  | _ => granted token h
  end.
(** How it ends. *)
Definition handler_end (token : option pystr) (h : history) (r : res unit) : Prop :=
  connected h = false /\ (idle h = true \/ abort_failed h \/ odd h = true)
  /\ (granted token h \/ refused h \/ exists e, r = Raise e).
End access.

(** What the task does for events that are received and sent. *)
Definition forwarded (events : list RemoteStreamEventDTO) : history :=
  flat_map (fun e => [ev NextEvent (Ok (Some e)); ev (SendJson (event_payload e)) (Ok tt)]) events.
(** How forwarding may fail. *)
Inductive failed_with (e : exn) : history -> Prop :=
| failed_to_receive : failed_with e [ev NextEvent (Raise e)]
| failed_to_send event : failed_with e [ev NextEvent (Ok (Some event)); ev (SendJson (event_payload event)) (Raise e)]
| interrupted : failed_with e [ev Idle (Raise e)].
Definition failure_message (e : exn) : pystr :=
  if isinstance (exn_type e) ConnectionFailedError then #"Remote execution failed" else #"Internal error".

(** When each call of the task is made: an event is sent right after it arrived, one error after
    a failure, and nothing after the stream is closed. *)
Definition task_rule (h : history) (c : ws_call) : Prop :=
  match c with
  | NextEvent | Idle => exists events, h = forwarded events
  | SendJson p => exists events,
      (exists e, h = forwarded events ++ [ev NextEvent (Ok (Some e))] /\ p = event_payload e)
      \/ (exists e failure, h = forwarded events ++ failure /\ failed_with e failure
          /\ isinstance (exn_type e) Exception_ = true /\ p = error_frame (failure_message e))
  | CloseEvents => True
  | _ => False
  end.
Definition task_end (h : history) (r : res unit) : Prop := exists h0 a, h = h0 ++ [ev CloseEvents a].

(** ** The participants alone *)

Ltac ws_snoc := rewrite ?connected_next, ?idle_snoc, ?aborts_snoc, ?odd_snoc in *; cbn [connected_after idle_after called projT1 projT2 about_task is_ok] in *.
Ltac ws_step :=
  lazymatch goal with
  | |- wp (_ ≫= _) _ _ _ => apply wp_bind
  | |- wp (mbind _ _) _ _ _ => apply wp_bind
  | |- wp (try_except _ _) _ _ _ => apply wp_try
  | |- wp (finally _ _) _ _ _ => apply wp_finally
  | |- wp (perform _) _ _ _ => split; [|intros [?x|?e]; apply wp_lift]; cbn beta iota
  | |- wp (Done _) _ _ _ => apply wp_lift; cbn beta iota
  | |- wp (mret _) _ _ _ => apply wp_lift; cbn beta iota
  | |- wp (lift ?r) _ _ _ => apply wp_lift; cbn beta iota
  | |- match on_exception _ ?e with _ => _ end =>
      unfold on_exception; let E := fresh "E" in destruct (isinstance (exn_type e) Exception_) eqn:E; cbn beta iota
  | |- wp (match ?x with _ => _ end) _ _ _ => let E := fresh "E" in destruct x eqn:E; cbn beta iota
  | |- match (if ?b then _ else _) with _ => _ end => let E := fresh "E" in destruct b eqn:E; cbn beta iota
  end.

Section task.
Lemma forwarded_snoc events e :
  forwarded (events ++ [e]) = (forwarded events ++ [ev NextEvent (Ok (Some e))]) ++ [ev (SendJson (event_payload e)) (Ok tt)].
Proof. unfold forwarded. by rewrite flat_map_app, <- app_assoc. Qed.

Lemma wp_forward fuel events :
  wp (forward_events fuel) (forwarded events) task_rule (fun h r =>
    match r with
    | Ok _ => True
    | Raise e => exists events failure, h = forwarded events ++ failure /\ failed_with e failure
    end).
Proof.
  revert events. induction fuel as [|fuel IH]; intros events; cbn [forward_events].
  - ws_step; [by exists events|done|]. eexists events, _. split; [done|constructor].
  - ws_step. ws_step; [by exists events| |eexists events, _; split; [done|constructor]].
    destruct x as [event|]; [|done]. ws_step. ws_step.
    + exists events. left. by exists event.
    + destruct x. change (wp (forward_events fuel) ((forwarded events ++ [ev NextEvent (Ok (Some event))])
        ++ [ev (SendJson (event_payload event)) (Ok tt)]) task_rule (fun h r =>
          match r with Ok _ => True | Raise e => exists events failure, h = forwarded events ++ failure /\ failed_with e failure end)).
      rewrite <- forwarded_snoc. apply IH.
    + exists events, [ev NextEvent (Ok (Some event)); ev (SendJson (event_payload event)) (Raise e)].
      split; [by rewrite <- app_assoc|constructor].
Qed.

Lemma wp_task fuel : wp (_send_command_events fuel) [] task_rule task_end.
Proof.
  unfold _send_command_events. ws_step.
  assert (forall h r, wp (perform CloseEvents) h task_rule
    (fun h2 rc => match rc with Ok _ => task_end h2 r | Raise e => task_end h2 (Raise e) end)) as Hclose.
  { intros h r. split; [done|]. intros [x|e]; [by exists h, (Ok x)|by exists h, (Raise e)]. }
  ws_step. eapply wp_mono; [apply (wp_forward fuel [])|done|]. intros h [x|e] Hr; cbn beta iota; [apply Hclose|].
  destruct Hr as (events & failure & -> & Hf).
  assert (isinstance (exn_type e) Exception_ = true -> wp (send_error (failure_message e)) (forwarded events ++ failure) task_rule
    (fun h' r => wp (perform CloseEvents) h' task_rule
       (fun h2 rc => match rc with Ok _ => task_end h2 r | Raise e => task_end h2 (Raise e) end))) as Herr.
  { intros He. split; [|intros [y|e1]; apply Hclose]. exists events. right. by exists e, failure. }
  unfold failure_message in Herr. destruct (isinstance (exn_type e) ConnectionFailedError) eqn:Ec; cbn beta iota.
  - apply Herr. clear -Ec. revert Ec. each_class (exn_type e).
  - ws_step; [by apply Herr|apply Hclose].
Qed.
End task.

Section handler.
Context `{Unicode} `{PyFloat} `{AuthHost} (token : option pystr).

(** The connection is open, and nothing has gone wrong. *)
Definition serving (h : history) : Prop := granted token h /\ connected h = true /\ aborts h = false.
Definition leaving (h : history) : Prop := granted token h /\ connected h = true
  /\ ((exists h0 a, h = h0 ++ [ev AbortActiveProcess a] /\ client_left h0) \/ aborts h = false /\ ~ client_left h).
Definition served {A} (h : history) (r : res A) : Prop :=
  match r with Ok _ => serving h /\ ~ client_left h | Raise _ => leaving h end.

Lemma serving_snoc h e :
  match called e with Disconnect | AbortActiveProcess => false | _ => true end = true -> serving h -> serving (h ++ [e]).
Proof.
  intros He (Hg & Hc & Ha). split_and!; [by apply granted_snoc| |].
  - rewrite connected_next, Hc. destruct e as [[] a]; cbn in *; try done. by destruct (is_ok a).
  - rewrite aborts_snoc, Ha. by destruct e as [[] a].
Qed.
Lemma serving_leaves h : serving h -> ~ client_left h -> leaving h.
Proof. intros (Hg & Hc & Ha) Hl. split_and!; auto. Qed.

Ltac serve_leaf :=
  unfold served; cbn beta iota;
  repeat match goal with
  | |- serving (_ ++ [_]) => apply serving_snoc; [done|]
  | |- ~ client_left (_ ++ [_]) => apply client_left_snoc; done
  | |- leaving _ => apply serving_leaves
  | |- _ /\ _ => split
  end; try done.

Lemma wp_receive h :
  serving h -> wp receive_data h (handler_rule token) (fun h' r =>
    match r with Ok _ => serving h' /\ ~ client_left h' | Raise _ => leaving h' end).
Proof.
  intros Hs. unfold receive_data. ws_step. ws_step. ws_step; [by destruct Hs| |].
  - ws_step. serve_leaf.
  - destruct (isinstance (exn_type e) WebSocketDisconnect) eqn:Ed; cbn beta iota.
    + assert (serving (h ++ [ev ReceiveJson (Raise e)])) as Hs1 by serve_leaf.
      ws_step. ws_step; [by destruct Hs1| |serve_leaf].
      assert (serving ((h ++ [ev ReceiveJson (Raise e)]) ++ [ev ActiveTask (Ok x)])) as Hs2 by serve_leaf.
      ws_step. destruct x as [[]|]; [ws_step; ws_step; serve_leaf| |ws_step; ws_step; serve_leaf].
      assert (client_left ((h ++ [ev ReceiveJson (Raise e)]) ++ [ev ActiveTask (Ok (Some false))])) as Hl.
      { exists h, e. by rewrite <- app_assoc. }
      assert (forall a, leaving (((h ++ [ev ReceiveJson (Raise e)]) ++ [ev ActiveTask (Ok (Some false))]) ++ [ev AbortActiveProcess a])) as Hlv.
      { intros a. destruct Hs2 as (Hg & Hc & _). split_and!; [by apply granted_snoc|rewrite connected_next; exact Hc|].
        left. by eexists _, a. }
      ws_step; [by destruct Hs2|ws_step; apply Hlv|apply Hlv].
    + destruct (_ || _); cbn beta iota; [|serve_leaf]. ws_step. unfold send_error.
      ws_step; [apply granted_snoc, Hs|ws_step; serve_leaf|serve_leaf].
Qed.

Lemma serving_granted h : serving h -> granted token h.
Proof. by intros (? & _). Qed.
Hint Resolve serving_granted : core.

(** A frame that is sent while serving. *)
Lemma wp_send h payload :
  serving h -> wp (perform (SendJson payload)) h (handler_rule token) served.
Proof. intros Hs. ws_step; [cbn; auto| |]; serve_leaf. Qed.

Lemma wp_signal h data :
  serving h -> ~ client_left h -> wp (handle_signal data) h (handler_rule token) served.
Proof.
  intros Hs Hl. unfold handle_signal. ws_step. ws_step. ws_step. ws_step.
  assert (forall h' e, serving h' -> ~ client_left h' ->
    match (if isinstance (exn_type e) ValidationError || isinstance (exn_type e) ValueError || isinstance (exn_type e) RuntimeError
           then Some (send_error #"Signal rejected" ≫= fun _ => mret (@None pystr)) else None) with
    | Some q => wp q h' (handler_rule token) (fun h r =>
        match r with
        | Ok a => wp (match a with None => mret tt | Some signal => perform (SendJson (versioned #"signal_ack" [(#"signal", JStr signal)])) end)
                    h (handler_rule token) served
        | Raise e => served h (Raise e : res unit)
        end)
    | None => served h' (Raise e : res unit)
    end) as Hrej.
  { intros h' e Hs' Hl'. destruct (_ || _); [|serve_leaf]. apply wp_bind. eapply wp_mono; [by apply wp_send|done|].
    intros h1 [x|e1] Hr; [|exact Hr]. cbn beta iota. repeat ws_step. exact Hr. }
  destruct (WebSocketSignalMessage data) as [signal|e]; [|by apply Hrej].
  ws_step. ws_step; [by destruct Hs as (?&?&?)| |].
  - repeat ws_step; [cbn; apply granted_snoc; auto|serve_leaf..].
  - apply Hrej; serve_leaf.
Qed.

Lemma wp_command h data :
  serving h -> ~ client_left h -> wp (handle_command data) h (handler_rule token) served.
Proof.
  intros Hs Hl. unfold handle_command. destruct (WebSocketCommandMessage data) as [command|e]; [|by apply wp_send].
  ws_step. ws_step; [cbn; auto| |serve_leaf].
  assert (serving (h ++ [ev ActiveTask (Ok x)])) as Hs1 by serve_leaf.
  destruct x as [[]|]; [| by apply wp_send |].
  all: ws_step; [|serve_leaf..].
  all: destruct Hs1 as (? & ? & ?); split_and!; try done; by rewrite idle_snoc.
Qed.

Lemma wp_serve h : serving h -> wp serve_message h (handler_rule token) served.
Proof.
  intros Hs. unfold serve_message. ws_step. eapply wp_mono; [by apply wp_receive|done|].
  intros h1 [[data|]|e] Hr; cbn beta iota; [|by ws_step|exact Hr]. destruct Hr as [Hs1 Hl1].
  destruct (_ <? _)%nat.
  - ws_step. ws_step; [done|ws_step; serve_leaf|serve_leaf].
  - assert (wp (lift (raise AttributeError #"object has no attribute 'get'") : prog bool) h1 (handler_rule token) served) as Hno.
    { apply wp_lift. by apply serving_leaves. }
    destruct data as [| | | | | |data]; try exact Hno. ws_step.
    eapply (wp_mono _ _ _ _ served); [|done|]; [case_match; [case_match|..]; auto using wp_signal, wp_command|].
    intros h2 [[]|e] Hr; [|exact Hr]. by ws_step.
Qed.

Lemma wp_loop fuel h : serving h -> ~ client_left h -> wp (message_loop fuel) h (handler_rule token) served.
Proof.
  revert h. induction fuel as [|fuel IH]; intros h Hs Hl; cbn [message_loop].
  - ws_step; [cbn; auto|serve_leaf..].
  - ws_step. eapply wp_mono; [by apply wp_serve|done|]. intros h1 [[]|e] Hr; cbn beta iota; [|by ws_step|exact Hr].
    by apply IH; destruct Hr.
Qed.

(** Before and after the connection. *)
Definition apart (h : history) : Prop := granted token h /\ connected h = false.
Lemma apart_snoc h e : match called e with Connect _ => false | _ => true end = true -> apart h -> apart (h ++ [e]).
Proof.
  intros He [Hg Hc]. split; [by apply granted_snoc|]. rewrite connected_next, Hc. by destruct e as [[] a].
Qed.
Ltac apart_leaf := repeat (apply apart_snoc; [done|]); try done.

Lemma leaving_disconnects h a : leaving h -> apart (h ++ [ev Disconnect a]).
Proof. intros (Hg & _). split; [by apply granted_snoc|]. by rewrite connected_next. Qed.

Lemma wp_decrypt value h (Q : history -> res (option pystr) -> Prop) :
  apart h -> aborts h = false -> (forall h' x, apart h' -> aborts h' = false -> Q h' (Ok x)) ->
  (forall h' e, apart h' -> Q h' (Raise e)) -> wp (perform (Decrypt value)) h (handler_rule token) Q.
Proof.
  intros Ha Hb Hq He. ws_step; [apply Ha|apply Hq|apply He]; [apart_leaf| |apart_leaf]. by rewrite aborts_snoc, Hb.
Qed.

Lemma wp_connection fuel node_id h :
  apart h -> aborts h = false -> wp (in_connection node_id (message_loop fuel)) h (handler_rule token) (fun h' _ => apart h').
Proof.
  intros Ha Hb. unfold in_connection. ws_step. ws_step; [apply Ha| |apart_leaf].
  destruct x as [node|]; [|ws_step; apart_leaf].
  assert (apart (h ++ [ev (GetConnection node_id) (Ok (Some node))])) as Ha0 by apart_leaf.
  ws_step. apply wp_decrypt; [done|by rewrite aborts_snoc, Hb| |done]. intros h1 password Ha1 Hb1. cbn beta iota.
  ws_step. apply wp_decrypt; [done..| |done]. intros h2 ssh_key Ha2 Hb2. cbn beta iota.
  ws_step. apply wp_decrypt; [done..| |done]. intros h3 passphrase Ha3 Hb3. cbn beta iota.
  ws_step. ws_step; [exact Ha3| |].
  - ws_step. eapply wp_mono; [apply wp_loop| done |].
    + destruct Ha3 as [Hg _]. split_and!; [by apply granted_snoc|by rewrite connected_next|by rewrite aborts_snoc, Hb3].
    + by apply client_left_snoc.
    + intros h' r Hr. assert (leaving h') as Hlv by (destruct r; [by apply serving_leaves; apply Hr|exact Hr]).
      ws_step; [exact Hlv|by apply leaving_disconnects..].
  - destruct Ha3 as [Hg Hc]. split; [by apply granted_snoc|]. by rewrite connected_next.
Qed.

Lemma wp_stop h : apart h -> wp stop_task h (handler_rule token) (fun h' _ =>
  apart h' /\ (idle h' = true \/ abort_failed h' \/ odd h' = true)).
Proof.
  intros Ha. unfold stop_task.
  assert (forall h', apart h' -> has_task h' -> wp (perform CancelTask ≫= fun _ => perform GatherTask) h' (handler_rule token)
    (fun h2 _ => apart h2 /\ (idle h2 = true \/ abort_failed h2 \/ odd h2 = true))) as Hend.
  { intros h' Ha' Ht. ws_step. ws_step; [split; [apply Ha'|done]| |].
    - destruct x. ws_step; [split_and!; [apply granted_snoc, Ha'|by apply has_task_snoc|by exists h']| |]; (split; [apart_leaf|]).
      + left. by rewrite idle_snoc.
      + right; right. rewrite odd_snoc. by rewrite orb_true_r.
    - split; [apart_leaf|]. right; right. rewrite odd_snoc. by rewrite orb_true_r. }
  ws_step. ws_step; [apply Ha| |].
  - destruct x as [[]|].
    + ws_step. ws_step. apply Hend; [apart_leaf|]. by apply has_task_here.
    + assert (has_task (h ++ [ev ActiveTask (Ok (Some false))])) as Ht.
      { by apply has_task_here. }
      ws_step. ws_step. ws_step; [| |].
      * split; [by apply granted_snoc, Ha|]. intros Hc. exfalso. rewrite connected_next in Hc.
        destruct Ha as [_ Ha]. by rewrite Ha in Hc.
      * apply Hend; [apart_leaf|by apply has_task_snoc].
      * destruct (isinstance (exn_type e) OSError || isinstance (exn_type e) RuntimeError) eqn:Ee; cbn beta iota.
        -- ws_step. apply Hend; [apart_leaf|by apply has_task_snoc].
        -- split; [apart_leaf|]. right; left. apply orb_false_iff in Ee as [E1 E2].
           eexists _, e, []. split_and!; [done|done|done|]. rewrite connected_next. apply Ha.
    + ws_step. split; [apart_leaf|]. left. by rewrite idle_snoc.
  - split; [apart_leaf|]. right; right. by rewrite odd_snoc, orb_true_r.
Qed.

Lemma wp_streaming fuel node_id h :
  apart h -> aborts h = false -> wp (streaming fuel node_id) h (handler_rule token) (fun h' _ =>
    apart h' /\ (idle h' = true \/ abort_failed h' \/ odd h' = true)).
Proof.
  intros Ha Hb. unfold streaming. ws_step.
  assert (forall h', apart h' -> wp stop_task h' (handler_rule token) (fun h2 rc =>
    match rc with Ok _ | Raise _ => apart h2 /\ (idle h2 = true \/ abort_failed h2 \/ odd h2 = true) end)) as Hstop.
  { intros h' Ha'. eapply wp_mono; [by apply wp_stop|done|]. by intros h2 [x|e]. }
  ws_step. eapply wp_mono; [by apply wp_connection|done|]. intros h1 [[]|e] Ha1; cbn beta iota; [by apply Hstop|].
  destruct (isinstance (exn_type e) NodeNotFoundError); cbn beta iota.
  - ws_step. ws_step; [apply Ha1| |apply Hstop; apart_leaf]. ws_step; [done|apply Hstop; apart_leaf..].
  - destruct (isinstance (exn_type e) ConnectionFailedError); cbn beta iota; [|by apply Hstop].
    unfold send_error. ws_step; [apply Ha1|apply Hstop; apart_leaf..].
Qed.

(** Before access is given. *)
Definition calm (h : history) : Prop := connected h = false /\ aborts h = false /\ idle h = true.
Definition checked (h : history) (r : res bool) : Prop :=
  calm h /\ match r with Ok true => granted token h | Ok false => refused h | Raise _ => True end.
Lemma calm_snoc h e :
  match called e with Connect _ | AbortActiveProcess | StartTask _ => false | _ => true end = true -> calm h -> calm (h ++ [e]).
Proof.
  intros He (Hc & Hb & Hi). unfold calm. rewrite connected_next, aborts_snoc, idle_snoc, Hc, Hb, Hi.
  destruct e as [[] a]; try done. - by destruct a as [[[]|]|]. - by destruct a.
Qed.

Lemma wp_refuse h code reason :
  (code = 4001 \/ code = 4003)%Z -> calm h ->
  wp (perform (Close code reason) ≫= fun _ => mret false) h (handler_rule token) checked.
Proof.
  intros Hcode Hh. ws_step. ws_step; [done|ws_step|]; (split; [by apply calm_snoc|]); [|done].
  destruct x. by eexists _, code, reason.
Qed.

Lemma wp_validate h : calm h -> wp (_validate_ws_token token) h (handler_rule token) checked.
Proof.
  intros Hh. unfold _validate_ws_token.
  assert (forall h', calm h' ->
    wp (perform (Close 4001 #"Missing token") ≫= fun _ => mret false) h' (handler_rule token) checked) as Hmissing.
  { intros h' Hh'. apply wp_refuse; [by left|done]. }
  assert (forall h' e, calm h' ->
    match on_exception (fun _ => perform (Close 4003 #"Invalid API key") ≫= fun _ => mret false) e with
    | Some q => wp q h' (handler_rule token) checked
    | None => checked h' (Raise e)
    end) as Hinvalid.
  { intros h' e Hh'. unfold on_exception. destruct (isinstance _ _); [|done]. apply wp_refuse; [by right|done]. }
  destruct token as [[|c key]|] eqn:Et; [by apply Hmissing| |by apply Hmissing]. rewrite <- Et in *.
  ws_step. ws_step. destruct (is_master (c :: key)) as [[]|e] eqn:Em; cbn beta iota; [| |done].
  - ws_step. split; [done|]. exists (c :: key). split_and!; [done..|by left].
  - ws_step. ws_step. ws_step; [done| |by apply Hinvalid, calm_snoc].
    destruct (str_eqb (ap_scope x) #"read-write") eqn:Es.
    + ws_step. split; [by apply calm_snoc|]. exists (c :: key). split_and!; [done..|]. right. exists x.
      split; [apply elem_of_app; right; by left|by apply str_eqb_eq].
    + eapply wp_mono; [apply wp_refuse; [by right|by apply calm_snoc]|done|]. intros h' [b|e] Hr; [exact Hr|].
      apply Hinvalid. by destruct Hr.
Qed.

(** The handler: every call when it may be made, and a proper end. *)
Lemma wp_handler fuel node_id : wp (exec_stream fuel node_id token) [] (handler_rule token) (handler_end token).
Proof.
  unfold exec_stream. ws_step.
  assert (forall h r, calm h -> refused h \/ granted token h \/ (exists e, r = Raise e) -> handler_end token h r) as Hend.
  { intros h r (Hc & _ & Hi) Hr. split_and!; [done|by left|]. destruct Hr as [?|[?|?]]; auto. }
  ws_step; [done| |by apply Hend; [|right; right; eexists]].
  ws_step. eapply wp_mono; [by apply wp_validate|done|]. intros h [[]|e] [Hh Hr]; cbn beta iota;
    [|ws_step; apply Hend; [done|by left]|by apply Hend; [|right; right; eexists]].
  assert (forall h' (r : res unit), apart h' /\ (idle h' = true \/ abort_failed h' \/ odd h' = true) -> handler_end token h' r) as Hdone.
  { intros h' r [[Hg Hc] Hi]. split_and!; auto. }
  ws_step. eapply wp_mono; [apply wp_streaming; [split; [exact Hr|apply Hh]|apply Hh]|done|].
  intros h1 [[]|e] H1'; cbn beta iota; [by apply Hdone|].
  destruct (isinstance (exn_type e) WebSocketDisconnect); cbn beta iota; [ws_step; by apply Hdone|].
  assert (forall r, apart (h1 ++ [ev (Close 1011 #"Internal error") r])
    /\ (idle (h1 ++ [ev (Close 1011 #"Internal error") r]) = true \/ abort_failed (h1 ++ [ev (Close 1011 #"Internal error") r])
        \/ odd (h1 ++ [ev (Close 1011 #"Internal error") r]) = true)) as Hclose.
  { intros r. destruct H1' as [Ha Hi]. split; [apart_leaf|]. rewrite idle_snoc, odd_snoc. cbn. rewrite orb_false_r.
    destruct Hi as [?|[?|?]]; auto using abort_failed_snoc. }
  ws_step; [|by apply Hdone]. ws_step. ws_step; [done|apply Hdone, Hclose|].
  destruct (isinstance _ RuntimeError); cbn beta iota; [ws_step|]; apply Hdone, Hclose.
Qed.
End handler.

(** ** A task that is cancelled ends

    Wherever it is cancelled, its next call is the closing of the stream, and then it is done. *)
Fixpoint fragile {A} (p : prog A) : Prop :=
  match p with
  | Done _ => True
  | Do c k => k (Raise cancelled) = Done (Raise cancelled) /\ forall a, fragile (k a)
  end.
Definition closing (p : prog unit) : Prop :=
  match p with Done _ => True | Do c k => c = CloseEvents /\ forall a, is_done (k a) = true end.
Fixpoint stoppable (p : prog unit) : Prop :=
  match p with Done _ => True | Do c k => closing (k (Raise cancelled)) /\ forall a, stoppable (k a) end.

Lemma fragile_bind {A B} (p : prog A) (f : A -> prog B) : fragile p -> (forall a, fragile (f a)) -> fragile (p ≫= f).
Proof.
  unfold mbind, prog_bind. intros Hp Hf. induction p as [[a|e]|c k IH]; cbn in *; [by apply Hf|done|].
  destruct Hp as [Hc Hk]. split; [by rewrite Hc|]. intros a. by apply IH.
Qed.
Lemma fragile_try {A} (p : prog A) h :
  fragile p -> h cancelled = None -> (forall e q, h e = Some q -> fragile q) -> fragile (try_except p h).
Proof.
  intros Hp Hc Hh. induction p as [[a|e]|c k IH]; cbn in *; [done| |].
  - destruct (h e) as [q|] eqn:E; [by eapply Hh|done].
  - destruct Hp as [Hcc Hk]. split; [rewrite Hcc; cbn; by rewrite Hc|]. intros a. by apply IH.
Qed.
Lemma fragile_forward fuel : fragile (forward_events fuel).
Proof.
  induction fuel as [|fuel IH]; cbn [forward_events]; [by split|]. apply fragile_bind; [by split|].
  intros [event|]; [|done]. apply fragile_bind; [by split|]. intros _. exact IH.
Qed.

Lemma stoppable_finally (p : prog unit) : fragile p -> stoppable (finally p (perform CloseEvents)).
Proof.
  unfold finally, outcome_of. unfold mbind, prog_bind. induction p as [[a|e]|c k IH]; cbn.
  1, 2: intros _; split; [done|]; by intros [b|e'].
  intros [Hc Hk]. split; [|intros a; by apply IH]. rewrite Hc. cbn. split; [done|]. by intros [b|e'].
Qed.
Lemma task_stoppable fuel : stoppable (_send_command_events fuel).
Proof.
  apply stoppable_finally, fragile_try; [apply fragile_forward|done|]. intros e q.
  destruct (isinstance _ ConnectionFailedError); [intros [= <-]; by split|].
  unfold on_exception. destruct (isinstance _ Exception_); [intros [= <-]; by split|done].
Qed.

(** ** The participants together *)

Lemma seen_snoc who t a e : seen who (t ++ [(a, e)]) = if bool_decide (a = who) then seen who t ++ [e] else seen who t.
Proof.
  unfold seen. rewrite List.filter_app, fmap_app. cbn. case_bool_decide; cbn; [done|]. by rewrite app_nil_r.
Qed.
Lemma seen_own who t e : seen who (t ++ [(who, e)]) = seen who t ++ [e].
Proof. by rewrite seen_snoc, bool_decide_eq_true_2. Qed.
Lemma seen_other who t a e : a <> who -> seen who (t ++ [(a, e)]) = seen who t.
Proof. intros Hne. by rewrite seen_snoc, bool_decide_eq_false_2. Qed.

Section together.
Context `{Unicode} `{PyFloat} `{AuthHost} (fuel : nat) (node_id : uuid) (token : option pystr).

(** What has to hold of the trace when somebody makes a call. *)
Definition may_call (t : trace) (who : actor) (c : ws_call) : Prop :=
  match who with
  | Handler => handler_rule token (seen Handler t) c
  | Task n => task_rule (seen (Task n) t) c /\ granted token (seen Handler t)
  end.
Definition lawful (t : trace) : Prop := forall t1 who e t2, t = t1 ++ (who, e) :: t2 -> may_call t1 who (called e).

Lemma lawful_snoc t who e : lawful t -> may_call t who (called e) -> lawful (t ++ [(who, e)]).
Proof.
  intros Ht He t1 who' e' t2 E. destruct t2 as [|x t2 _] using rev_ind.
  - by apply app_inj_tail in E as [-> [= -> ->]].
  - change ((who', e') :: t2 ++ [x]) with (((who', e') :: t2) ++ [x]) in E. rewrite app_assoc in E.
    apply app_inj_tail in E as [E _]. by apply (Ht t1 who' e' t2).
Qed.

Record session_ok (s : session) : Prop := {
  so_handler : wp (sn_handler s) (seen Handler (sn_trace s)) (handler_rule token) (handler_end token);
  so_task : forall p, sn_task s = Some p ->
    wp p (seen (Task (sn_started s)) (sn_trace s)) task_rule task_end /\ granted token (seen Handler (sn_trace s));
  so_later : forall m, (sn_started s < m)%nat -> seen (Task m) (sn_trace s) = [];
  so_lawful : lawful (sn_trace s);
  so_idle : idle (seen Handler (sn_trace s)) = true -> forall p, sn_task s = Some p -> is_done p = true;
  so_odd : odd (seen Handler (sn_trace s)) = false }.

Lemma session_starts : session_ok (start (exec_stream fuel node_id token)).
Proof.
  split; cbn; try done; [apply wp_handler|]. intros t1 who e t2 E. by destruct t1.
Qed.

Ltac fields := cbn [sn_handler sn_task sn_started sn_trace] in *.
(** The handler makes a call that leaves the task alone. *)
Lemma handler_calls c k a task n t :
  session_ok {| sn_handler := Do c k; sn_task := task; sn_started := n; sn_trace := t |} ->
  (about_task c = true -> is_ok a = true) ->
  (idle (seen Handler t ++ [ev c a]) = true -> forall p, task = Some p -> is_done p = true) ->
  session_ok {| sn_handler := k a; sn_task := task; sn_started := n; sn_trace := t ++ [(Handler, ev c a)] |}.
Proof.
  intros [Hh Ht Hl Hw Hi Ho] Ha Hi'. fields. destruct Hh as [Hc Hk]. split; fields.
  - rewrite seen_own. apply Hk.
  - intros p Hp. rewrite seen_own, seen_other by done. destruct (Ht p Hp) as [Hp1 Hg]. split; [done|by apply granted_snoc].
  - intros m Hm. rewrite seen_other by done. by apply Hl.
  - by apply lawful_snoc.
  - by rewrite seen_own.
  - rewrite seen_own, odd_snoc, Ho. cbn. destruct (about_task c); [by rewrite Ha|done].
Qed.

(** The task makes a call. *)
Lemma task_calls h c k a n t :
  session_ok {| sn_handler := h; sn_task := Some (Do c k); sn_started := n; sn_trace := t |} ->
  session_ok {| sn_handler := h; sn_task := Some (k a); sn_started := n; sn_trace := t ++ [(Task n, ev c a)] |}.
Proof.
  intros [Hh Ht Hl Hw Hi Ho]. fields. destruct (Ht _ eq_refl) as [[Hc Hk] Hg]. split; fields; rewrite ?seen_other by done.
  - done.
  - intros p [= <-]. rewrite seen_own, seen_other by done. split; [apply Hk|done].
  - intros m Hm. rewrite seen_other by (intros [= ->]; lia). by apply Hl.
  - by apply lawful_snoc.
  - intros Hidle p [= <-]. by specialize (Hi Hidle _ eq_refl).
  - done.
Qed.

Lemma session_ok_step s s' : session_ok s -> session_step fuel s s' -> session_ok s'.
Proof.
  intros Hok Hs. destruct Hs as [c k a task n t Hc|k task n t|command k task n t|k p n t|k r n t|h c k a n t Hc].
  - apply handler_calls; [done|by rewrite Hc|]. rewrite idle_snoc. intros Hi. apply (so_idle _ Hok). fields.
    by destruct c.
  - apply handler_calls; [done..|]. rewrite idle_snoc. intros Hi p ->. cbn in Hi.
    destruct (is_done p) eqn:Ep; [done|]. cbn in Hi. by rewrite <- Ep, (so_idle _ Hok Hi p).
  - destruct Hok as [Hh Ht Hl Hw Hi Ho]. fields. destruct Hh as [Hc Hk]. split; fields.
    + rewrite seen_own. apply Hk.
    + intros p [= <-]. rewrite seen_own, seen_other, Hl by (done || lia). split; [apply wp_task|].
      apply granted_snoc, Hc.
    + intros m Hm. rewrite seen_other by done. apply Hl. lia.
    + by apply lawful_snoc.
    + by rewrite seen_own, idle_snoc.
    + by rewrite seen_own, odd_snoc, Ho.
  - assert (session_ok {| sn_handler := k (Ok tt); sn_task := Some p; sn_started := n;
      sn_trace := t ++ [(Handler, ev CancelTask (Ok tt))] |}) as Hok'.
    { apply (handler_calls CancelTask); [done..|]. rewrite idle_snoc. apply (so_idle _ Hok). }
    destruct p as [r|c kp]; [exact Hok'|]. exact (task_calls _ c kp (Raise cancelled) _ _ Hok').
  - apply (handler_calls GatherTask); [done..|]. by intros _ p [= <-].
  - by apply task_calls.
Qed.

Lemma sound s : rtc (session_step fuel) (start (exec_stream fuel node_id token)) s -> session_ok s.
Proof.
  intros Hr. pose proof session_starts as Hs. revert Hr Hs. generalize (start (exec_stream fuel node_id token)).
  intros s0 Hr. induction Hr as [|s1 s2 s3 H12 _ IH]; [done|]. intros Hs1. apply IH. by eapply session_ok_step.
Qed.

(** The task exists once it was seen, and is closing once it was cancelled. *)
Definition alive (s : session) : Prop :=
  (has_task (seen Handler (sn_trace s)) -> is_Some (sn_task s))
  /\ forall p, sn_task s = Some p -> stoppable p /\ (just_cancelled (seen Handler (sn_trace s)) -> closing p).

Lemma closing_stoppable p : closing p -> stoppable p.
Proof.
  destruct p as [r|c k]; [done|]. intros [_ Hk]. split; [specialize (Hk (Raise cancelled))|intros a; specialize (Hk a)];
    by destruct (k _).
Qed.
Lemma just_cancelled_inv h c a : just_cancelled (h ++ [ev c a]) -> c = CancelTask.
Proof. intros [h0 E]. apply app_inj_tail in E as [_ E]. exact (f_equal (@called ws_signature) E). Qed.

Lemma alive_step s s' : alive s -> session_step fuel s s' -> alive s'.
Proof.
  intros [Hh Ht] Hs. destruct Hs as [c k a task n t Hc|k task n t|command k task n t|k p n t|k r n t|h c k a n t Hc];
    unfold alive; fields; rewrite ?seen_own; rewrite ?seen_other by done.
  - split; [intros [H2|H2]%has_task_inv; [by apply Hh|by destruct c]|]. intros p Hp. split; [by apply Ht|].
    intros ->%just_cancelled_inv. done.
  - split; [intros [H2|H2]%has_task_inv; [by apply Hh|by destruct task]|]. intros p Hp. split; [by apply Ht|].
    by intros ?%just_cancelled_inv.
  - split; [done|]. intros p [= <-]. split; [apply task_stoppable|]. by intros ?%just_cancelled_inv.
  - split; [done|]. intros q [= <-]. destruct (Ht p eq_refl) as [Hp _]. destruct p as [r|c kp]; [done|].
    destruct Hp as [Hc _]. split; [by apply closing_stoppable|done].
  - split; [done|]. intros p [= <-]. by split.
  - split; [done|]. intros p [= <-]. destruct (Ht _ eq_refl) as [[_ Hk] Hcl]. split; [apply Hk|].
    intros Hj. destruct (Hcl Hj) as [_ Hd]. specialize (Hd a). by destruct (k a).
Qed.

(** The handler has ended, or its next call can be answered and it goes on with the answer. When
    it waits for its task, the task is done, or closes its stream next and is done then, whatever
    is answered; [Idle] is the bound on the loop of messages. *)
Definition goes_on (s : session) : Prop :=
  match sn_handler s with
  | Done _ => True
  | Do c k =>
      match c return ((res (ws_answer c) -> prog unit) -> Prop) with
      | Idle => fun _ => True
      | GatherTask => fun k =>
          exists p, sn_task s = Some p
            /\ match p with
               | Done _ => exists s', session_step fuel s s' /\ sn_handler s' = k (Ok tt)
               | Do c kp => c = CloseEvents /\ forall a, is_done (kp a) = true
               end
      | _ => fun k => exists s' a, session_step fuel s s' /\ sn_handler s' = k a
      end k
  end.


(** C28: whatever the client, the node and the key service do, and in every interleaving: the
    handler and its tasks look up the node, decrypt credentials, connect, read messages, send
    frames or run commands only after access was given, by the master key or by a key that
    authenticated with the read-write scope; and a handler that ends without an exception and
    without having given access has closed the socket with code 4001 or 4003. *)
Theorem stream_requires_write_access s :
  rtc (session_step fuel) (start (exec_stream fuel node_id token)) s ->
  (forall t1 who e t2, sn_trace s = t1 ++ (who, e) :: t2 ->
     match called e with Accept | Close _ _ => True | Authenticate key => token = Some key | _ => granted token (seen Handler t1) end)
  /\ (forall x, sn_handler s = Done (Ok x) -> granted token (seen Handler (sn_trace s)) \/ refused (seen Handler (sn_trace s))).
Proof.
  intros Hs%sound. split.
  - intros t1 who e t2 E. pose proof (so_lawful _ Hs _ _ _ _ E) as Hc. unfold may_call in Hc.
    destruct who as [|n]; [|destruct Hc as [Hc Hg]; by destruct (called e)].
    destruct (called e); cbn in Hc; try done; try (by destruct Hc).
  - intros x Ex. pose proof (so_handler _ Hs) as Hh. rewrite Ex in Hh. destruct Hh as (_ & _ & [?|[?|[e [=]]]]); auto.
Qed.

(** C29: one command runs at a time, and nothing is left behind: when a command is started, the
    connection is open and no earlier command is running; when the handler has ended, however it
    did, the connection was closed, and no command is running - unless the last abort, after the
    connection was closed, failed with an error that is neither an OSError nor a RuntimeError -;
    and a command whose task has ended has closed its stream of events last. *)
Theorem stream_session_cleanup s :
  rtc (session_step fuel) (start (exec_stream fuel node_id token)) s ->
  (forall command k, sn_handler s = Do (StartTask command) k ->
     connected (seen Handler (sn_trace s)) = true /\ forall p, sn_task s = Some p -> is_done p = true)
  /\ (forall r, sn_handler s = Done r -> connected (seen Handler (sn_trace s)) = false
        /\ ((forall p, sn_task s = Some p -> is_done p = true) \/ abort_failed (seen Handler (sn_trace s))))
  /\ (forall r, sn_task s = Some (Done r) -> exists h a, seen (Task (sn_started s)) (sn_trace s) = h ++ [ev CloseEvents a]).
Proof.
  intros Hs%sound. pose proof (so_handler _ Hs) as Hh. pose proof (so_idle _ Hs) as Hi. split_and!.
  - intros command k E. rewrite E in Hh. destruct Hh as [(_ & Hc & Hidle) _]. split; [done|]. by apply Hi.
  - intros r E. rewrite E in Hh. destruct Hh as (Hc & Hend & _). split; [done|].
    destruct Hend as [Hend|[Hend|Hodd]]; [left; by apply Hi|by right|]. by rewrite (so_odd _ Hs) in Hodd.
  - intros r E. by destruct (so_task _ Hs _ E) as [Hend _].
Qed.

(** The frames of a command follow its events: at every call of the task of a command, what
    it did before is to send, for each event it received, the frame of the event, in order and
    successfully; it then sends the frame of the event it received last, or, after it failed to
    receive or to send one, once, an error frame, which names no detail of the error. *)
Theorem stream_frames_follow_events s n p a t1 t2 :
  rtc (session_step fuel) (start (exec_stream fuel node_id token)) s ->
  sn_trace s = t1 ++ (Task n, ev (SendJson p) a) :: t2 ->
  exists events,
    (exists e, seen (Task n) t1 = forwarded events ++ [ev NextEvent (Ok (Some e))] /\ p = event_payload e)
    \/ (exists e failure, seen (Task n) t1 = forwarded events ++ failure /\ failed_with e failure
        /\ isinstance (exn_type e) Exception_ = true /\ p = error_frame (failure_message e)).
Proof. intros Hs%sound E. by destruct (so_lawful _ Hs _ _ _ _ E) as [Hc _]. Qed.

(** The remote process is killed only if the client has left: whenever the handler closes
    the connection, it has aborted the process just before if it saw the client leave while a
    command was running, and in no other case was any process aborted - not when a message is
    too large or is no object, nor when a frame cannot be sent, although a command may be
    running; and once the connection is closed, an abort runs nothing on the node. *)
Theorem abort_only_when_client_left s t1 a t2 :
  rtc (session_step fuel) (start (exec_stream fuel node_id token)) s ->
  sn_trace s = t1 ++ (Handler, ev Disconnect a) :: t2 ->
  ((exists h b, seen Handler t1 = h ++ [ev AbortActiveProcess b] /\ client_left h)
   \/ aborts (seen Handler t1) = false /\ ~ client_left (seen Handler t1))
  /\ forall (connector : ssh_fields) (o : @oracle ssh_signature) (h : @history ssh_signature),
       _connection connector = None -> (forall h', o h' Ssh.Load = Ok connector) ->
       exists r k, @run ssh_signature unit o abort_active_process h = (r, h ++ k) /\ Forall (eq Ssh.Load) (calls k).
Proof.
  intros Hs%sound E. split; [by destruct (so_lawful _ Hs _ _ _ _ E) as (_ & _ & Hc)|].
  intros connector o h Hn Ho. unfold abort_active_process. rewrite run_bind. cbn [run perform]. rewrite Ho.
  destruct (_active_process connector).
  - unfold _signal_active_process_group. rewrite run_bind. cbn [run perform]. rewrite Ho, Hn.
    eexists _, [existT Ssh.Load (Ok connector); existT Ssh.Load (Ok connector)]. cbn [run lift]. rewrite <- app_assoc.
    split; [done|]. by repeat constructor.
  - eexists _, [existT Ssh.Load (Ok connector)]. split; [done|]. by repeat constructor.
Qed.
End together.

(** ** A session

    A command is running when the client sends a message that is too large. *)
Lemma session_run_step fuel answers who s s' : session_run fuel answers who s = Some s' -> session_step fuel s s'.
Proof.
  destruct s as [h task n t]. unfold session_run. destruct who.
  - destruct task as [[r|c k]|]; [done| |done]. destruct (about_task c) eqn:Ea; [done|]. intros [= <-]. by apply task_call.
  - destruct h as [r|c k]; [done|].
    destruct c; try (intros [= <-]; by apply (handler_call fuel _ k)); try done.
    + intros [= <-]. apply handler_asks.
    + intros [= <-]. apply handler_starts.
    + destruct task as [p|]; [|done]. intros [= <-]. apply handler_cancels.
    + destruct task as [[r|c k1]|]; [|done..]. intros [= <-]. apply handler_gathers.
Qed.
Lemma run_session_steps fuel answers sched s s' : run_session fuel answers sched s = Some s' -> rtc (session_step fuel) s s'.
Proof.
  revert s. induction sched as [|who sched IH]; cbn; intros s; [by intros [= ->]; constructor|].
  destruct (session_run _ _ _ s) as [s1|] eqn:E; [|done]. intros H1. econstructor; [by eapply session_run_step|by apply IH].
Qed.

Definition demo_host : AuthHost := {| MASTER_API_KEY := []; refresh_token_expire_days := 7; parse_uuid := fun _ => None |}.
Definition demo_node : NodeConnectionDTO := {|
  n_id := 7; n_name := #"web"; n_endpoint := {| ep_host := #"10.0.0.1"; ep_port := 22; ep_connection_type := #"ssh";
                                               ep_docker_host := None; ep_has_docker := false |};
  n_credentials := {| cr_username := Some #"root"; cr_password := None; cr_ssh_key := None; cr_passphrase := None |} |}.
Definition demo_event : RemoteStreamEventDTO := {| re_type := #"stdout"; re_data := Some #"x"; re_exit_code := None |}.
Definition demo_answers (who : actor) (h : history) (c : ws_call) : res (ws_answer c) :=
  match c return res (ws_answer c) with
  | ReceiveJson => Ok (if connected h && existsb (fun e => match called e with StartTask _ => true | _ => false end) h
                       then JStr (repeat 97%N (N.to_nat 16400)) else JObj [(#"command", JStr #"top")])
  | Authenticate _ => Ok {| ap_key_id := 1; ap_key_prefix := #"nnk_0000"; ap_scope := #"read-write"; ap_key_type := #"managed" |}
  | GetConnection _ => Ok (Some demo_node)
  | Decrypt v => Ok v
  | ActiveTask => Ok None
  | NextEvent => Ok (Some demo_event)
  | AbortActiveProcess => raise RuntimeError #"No active process"
  | _ => Ok tt
  end.
Definition demo_schedule : list bool :=
  repeat false 10 ++ [true; true; true] ++ repeat false 6 ++ [true; false].
Definition demo_start : session :=
  start (@exec_stream literal_floats demo_host 5 7 (Some #"nnk_0000secret")).
Definition demo_session : session := default demo_start (run_session 5 demo_answers demo_schedule demo_start).

Lemma demo_reached : rtc (session_step 5) demo_start demo_session.
Proof.
  apply (run_session_steps 5 demo_answers demo_schedule). unfold demo_session.
  destruct (run_session _ _ _ _) as [s|] eqn:E; [done|]. by vm_compute in E.
Qed.
Lemma demo_ended : sn_handler demo_session = Done (Ok tt).
Proof. by vm_compute. Qed.

Lemma stream_requires_write_access_witness :
  sn_handler demo_session = Done (Ok tt)
  /\ (granted (H:=demo_host) (Some #"nnk_0000secret") (seen Handler (sn_trace demo_session)) \/ refused (seen Handler (sn_trace demo_session))).
Proof.
  split; [exact demo_ended|].
  apply (proj2 (@stream_requires_write_access literal_floats demo_host 5 7 (Some #"nnk_0000secret") demo_session demo_reached) tt demo_ended).
Defined.

Lemma stream_session_cleanup_witness :
  connected (seen Handler (sn_trace demo_session)) = false
  /\ ((forall p, sn_task demo_session = Some p -> is_done p = true) \/ abort_failed (seen Handler (sn_trace demo_session))).
Proof.
  apply (proj1 (proj2 (@stream_session_cleanup literal_floats demo_host 5 7 (Some #"nnk_0000secret") demo_session demo_reached)) _ demo_ended).
Defined.

(** The demonstration, stopped when the handler waits for the task it has cancelled. *)
Definition waiting_session : session :=
  default demo_start (run_session 5 demo_answers (take 19 demo_schedule) demo_start).

(** The connection is closed while the command runs, and nothing was aborted. *)
Lemma demo_disconnects :
  sn_trace demo_session = take 15 (sn_trace demo_session) ++ (Handler, ev Disconnect (Ok tt)) :: drop 16 (sn_trace demo_session).
Proof. by vm_compute. Qed.
Lemma abort_only_when_client_left_witness :
  (exists h b, seen Handler (take 15 (sn_trace demo_session)) = h ++ [ev AbortActiveProcess b] /\ client_left h)
  \/ aborts (seen Handler (take 15 (sn_trace demo_session))) = false /\ ~ client_left (seen Handler (take 15 (sn_trace demo_session))).
Proof.
  exact (proj1 (@abort_only_when_client_left literal_floats demo_host 5 7 (Some #"nnk_0000secret") demo_session _ _ _ demo_reached demo_disconnects)).
Defined.

(** A command of the longest legal length closes the socket if its characters are escaped. *)
Example long_command_is_too_large :
  let command := repeat 1046%N (N.to_nat 4096) in
  WebSocketCommandMessage [(#"command", JStr command)] = Ok command
  /\ (_MAX_WS_MESSAGE_SIZE <? length (@json_dumps literal_floats (JObj [(#"command", JStr command)])))%nat = true.
Proof. by vm_compute. Qed.
