(* ===== verification/Security.v ===== *)
(** * Credentials and tokens

    The security adapters of [app/adapters/security/]: the cipher of stored credentials with
    its key rotation, the claims of access and refresh tokens, and the hashes of keys and
    tokens.  HKDF, AES-GCM, HMAC, SHA-256, bcrypt and the encoding of signed tokens are
    libraries: parameters, with the laws the theorems need as hypotheses. *)
From S2P Require Import Prelude PyStr Errors Json Bytes Codec Assets Output Dto Pagination.

(** [app/core/config.py], the settings read here. *)
Record settings := {
  SECRET_KEY : pystr; ENCRYPTION_SALT : pystr; ENCRYPTION_SALT_PREV : option pystr; SECRET_KEY_PREV : option pystr;
  ACCESS_TOKEN_EXPIRE_MINUTES : Z; REFRESH_TOKEN_EXPIRE_DAYS : Z }.

(** The libraries; [aead_open] fails on a wrong tag. *)
Class Crypto := {
  hkdf_sha256 : bytes -> bytes -> bytes;                (* secret, salt *)
  aead_seal : bytes -> bytes -> bytes -> bytes;         (* key, nonce, plaintext *)
  aead_open : bytes -> bytes -> bytes -> option bytes;
  hmac_sha256_hex : bytes -> bytes -> pystr;
  sha256_hex : bytes -> pystr;
  bcrypt_hash : bytes -> bytes -> res pystr;            (* salt, password *)
  bcrypt_check : bytes -> bytes -> res bool }.

Section cipher.
Context `{Crypto}.

Definition ENCRYPTION_PREFIX : pystr := #"enc:v1:".
Definition InvalidTag : exn_class := LibraryError #"InvalidTag".

(** ** The keys ([lru_cache] only saves their computation: the settings do not change) *)

Definition _hkdf_derive (secret salt : pystr) : res bytes :=
  salt ← encode salt;
  secret ← encode secret;
  Ok (hkdf_sha256 secret salt).
Definition _derive_key (s : settings) : res bytes := _hkdf_derive (SECRET_KEY s) (ENCRYPTION_SALT s).
(** A setting that is given and not empty. *)
Definition given (s : option pystr) : option pystr := match s with Some [] => None | _ => s end.
Definition _derive_prev_key (s : settings) : res (option bytes) :=
  match given (SECRET_KEY_PREV s), given (ENCRYPTION_SALT_PREV s) with
  | Some secret, Some salt => (key ← _hkdf_derive secret salt; Ok (Some key))
  | Some secret, None => (key ← _hkdf_derive secret (ENCRYPTION_SALT s); Ok (Some key))
  | None, Some salt => (key ← _hkdf_derive (SECRET_KEY s) salt; Ok (Some key))
  | None, None => Ok None
  end.

(** ** Encryption, with the nonce that was drawn *)

Definition encrypt (s : settings) (nonce : bytes) (plaintext : pystr) : res pystr :=
  key ← _derive_key s;
  text ← encode plaintext;
  Ok (ENCRYPTION_PREFIX ++ b64encode (nonce ++ aead_seal key nonce text)).

Definition open_with (key nonce ciphertext : bytes) : res pystr :=
  match aead_open key nonce ciphertext with
  | None => raise InvalidTag []
  | Some text => decode_utf8 text
  end.
Definition decrypt (s : settings) (token : pystr) : res pystr :=
  if negb (startswith token ENCRYPTION_PREFIX) then raise ValueError #"Missing encryption prefix"
  else
    raw ← b64decode_validate (drop (length ENCRYPTION_PREFIX) token);
    if (length raw <? 28)%nat then raise ValueError #"Encrypted payload is too short"
    else
      let nonce := take 12 raw in
      let ciphertext := drop 12 raw in
      match (key ← _derive_key s; open_with key nonce ciphertext) with
      | Ok text => Ok text
      | Raise primary_exc =>
          prev ← _derive_prev_key s;
          match prev with
          | Some prev =>
              match open_with prev nonce ciphertext with
              | Ok text => Ok text
              | Raise _ => Raise primary_exc
              end
          | None => Raise primary_exc
          end
      end.
Definition undecryptable {A} : res A := raise CredentialDecryptionError #"Credential decryption failed".
Definition decrypt_value (s : settings) (value : option pystr) : res (option pystr) :=
  match value with
  | None | Some [] => Ok value
  | Some value =>
      if negb (startswith value ENCRYPTION_PREFIX) then undecryptable
      else match decrypt s value with
           | Ok text => Ok (Some text)
           | Raise e => if isinstance (exn_type e) Exception_ then undecryptable else Raise e
           end
  end.

(** ** Hashes *)

Definition hash_api_key (s : settings) (plain_key : pystr) : res pystr :=
  secret ← encode (SECRET_KEY s);
  key ← encode plain_key;
  Ok (hmac_sha256_hex secret key).
Definition hash_token (token : pystr) : res pystr := token ← encode token; Ok (sha256_hex token).
Definition hash_password (salt : bytes) (password : pystr) : res pystr :=
  password ← encode password; bcrypt_hash salt password.
Definition verify_password (plain_password hashed_password : pystr) : res bool :=
  plain ← encode plain_password; hashed ← encode hashed_password; bcrypt_check plain hashed.
End cipher.

(** ** Tokens ([jwt_handler.py])

    A token is its claims, signed: [jwt_encode] and [jwt_decode] are PyJWT's, which checks
    signature, issuer and times.  Times are integers: microseconds on the clock, seconds in
    claims. *)
Class Jwt := {
  jwt_encode : pystr -> jobject -> res pystr;           (* secret, claims *)
  jwt_decode : pystr -> Z -> pystr -> res jobject }.    (* secret, now, token *)

Section tokens.
Context `{Jwt}.

Definition jwt_InvalidTokenError : exn_class := LibraryError #"InvalidTokenError".
Definition seconds (t : Z) : Z := t / 1000000.
Definition issuer : pystr := #"node-nexus-api".

Definition access_claims (s : settings) (now : Z) (jti : uuid) (user_id email : pystr) (is_superuser : bool) : jobject :=
  [(#"sub", JStr user_id); (#"email", JStr email); (#"is_superuser", JBool is_superuser); (#"type", JStr #"access");
   (#"exp", JInt (seconds (now + ACCESS_TOKEN_EXPIRE_MINUTES s * 60000000))); (#"iat", JInt (seconds now));
   (#"jti", JStr (uuid_str jti)); (#"iss", JStr issuer)].
Definition refresh_claims (s : settings) (now : Z) (jti : uuid) (user_id : pystr) : jobject :=
  [(#"sub", JStr user_id); (#"type", JStr #"refresh");
   (#"exp", JInt (seconds (now + REFRESH_TOKEN_EXPIRE_DAYS s * 86400000000))); (#"iat", JInt (seconds now));
   (#"jti", JStr (uuid_str jti)); (#"iss", JStr issuer)].
Definition encode_access_token (s : settings) (now : Z) (jti : uuid) (user_id email : pystr) (is_superuser : bool) : res pystr :=
  jwt_encode (SECRET_KEY s) (access_claims s now jti user_id email is_superuser).
Definition encode_refresh_token (s : settings) (now : Z) (jti : uuid) (user_id : pystr) : res pystr :=
  jwt_encode (SECRET_KEY s) (refresh_claims s now jti user_id).

Definition scalar_claim (v : json) : bool := match v with JArr _ | JObj _ => false | _ => true end.
Fixpoint copy_claims (payload raw : jobject) : res jobject :=
  match raw with
  | [] => Ok payload
  | (key, value) :: raw =>
      if scalar_claim value then copy_claims (dict_set payload key value) raw
      else raise jwt_InvalidTokenError #"JWT contains an unsupported claim value"
  end.
Definition decode_token (s : settings) (now : Z) (token expected_type : pystr) : res jobject :=
  raw_payload ← jwt_decode (SECRET_KEY s) now token;
  payload ← copy_claims [] raw_payload;
  match dict_get payload #"type" with
  | Some (JStr type) => if str_eqb type expected_type then Ok payload else raise jwt_InvalidTokenError #"Expected token type"
  | _ => raise jwt_InvalidTokenError #"Expected token type"
  end.
End tokens.

(** ** Laws *)

Section laws.
Open Scope N_scope.

Lemma scalar_range c : scalar c = true -> c < 55296 \/ 57343 < c < 1114112.
Proof.
  unfold scalar, is_surrogate. intros [Hmax%N.ltb_lt Hs%negb_true_iff]%andb_true_iff.
  destruct (N.leb_spec 55296 c), (N.leb_spec c 57343); try lia. by rewrite in_range_true in Hs by lia.
Qed.
Lemma cont_true b : 128 <= b <= 191 -> cont_byte b = true.
Proof. intros [H1 H2]. by apply in_range_true. Qed.
Lemma utf8_two b b1 r : 194 <= b <= 223 -> 128 <= b1 <= 191 ->
  utf8_decode (b :: b1 :: r) = (s ← utf8_decode r; Ok ((b - 192) * 64 + (b1 - 128) :: s)).
Proof.
  intros Hb Hb1. cbn [utf8_decode]. rewrite (proj2 (N.ltb_ge b 128)) by lia.
  by rewrite (in_range_true 194 223 b), (cont_true b1) by lia.
Qed.
Lemma utf8_three b b1 b2 r : 224 <= b <= 239 -> 128 <= b1 <= 191 -> 128 <= b2 <= 191 -> 224 < b \/ 160 <= b1 ->
  utf8_decode (b :: b1 :: b2 :: r) = (s ← utf8_decode r; Ok ((b - 224) * 4096 + (b1 - 128) * 64 + (b2 - 128) :: s)).
Proof.
  intros Hb Hb1 Hb2 Hm. cbn [utf8_decode]. rewrite (proj2 (N.ltb_ge b 128)), (in_range_false 194 223 b) by lia.
  rewrite (in_range_true 224 239 b), (cont_true b1), (cont_true b2) by lia.
  cbn [andb]. replace ((224 <? b) || (160 <=? b1)) with true; [done|]. symmetry. apply orb_true_iff. rewrite N.ltb_lt, N.leb_le. lia.
Qed.
Lemma utf8_four b b1 b2 b3 r : 240 <= b <= 244 -> 128 <= b1 <= 191 -> 128 <= b2 <= 191 -> 128 <= b3 <= 191 ->
  240 < b \/ 144 <= b1 -> b < 244 \/ b1 < 144 ->
  utf8_decode (b :: b1 :: b2 :: b3 :: r)
  = (s ← utf8_decode r; Ok ((b - 240) * 262144 + (b1 - 128) * 4096 + (b2 - 128) * 64 + (b3 - 128) :: s)).
Proof.
  intros Hb Hb1 Hb2 Hb3 Hm Hx. cbn [utf8_decode].
  rewrite (proj2 (N.ltb_ge b 128)), (in_range_false 194 223 b), (in_range_false 224 239 b) by lia.
  rewrite (in_range_true 240 244 b), (cont_true b1), (cont_true b2),
    (cont_true b3) by lia. cbn [andb].
  replace ((240 <? b) || (144 <=? b1)) with true by (symmetry; apply orb_true_iff; rewrite N.ltb_lt, N.leb_le; lia).
  by replace ((b <? 244) || (b1 <? 144)) with true by (symmetry; apply orb_true_iff; rewrite !N.ltb_lt; lia).
Qed.
Lemma utf8_decode_char c r : scalar c = true -> utf8_decode (utf8_char c ++ r) = (s ← utf8_decode r; Ok (c :: s)).
Proof.
  intros Hc%scalar_range. unfold utf8_char.
  destruct (N.ltb_spec c 128) as [Ha|Ha]; [cbn [app utf8_decode]; by rewrite (proj2 (N.ltb_lt _ _))|].
  destruct (N.ltb_spec c 2048) as [Hb|Hb]; [|destruct (N.ltb_spec c 65536) as [Hd|Hd]]; cbn [app].
  - rewrite utf8_two by dlia. replace ((_ - 192) * 64 + _) with c by dlia. done.
  - rewrite utf8_three by dlia. replace ((_ - 224) * 4096 + _ + _) with c by dlia. done.
  - rewrite utf8_four by dlia. replace ((_ - 240) * 262144 + _ + _ + _) with c by dlia. done.
Qed.
Lemma decode_utf8_text s bs : is_str s = true -> encode s = Ok bs -> decode_utf8 bs = Ok s.
Proof.
  unfold encode. intros Hs. destruct (existsb is_surrogate s) eqn:Es; [done|]. intros [= <-]. unfold decode_utf8.
  assert (utf8_decode (flat_map utf8_char s) = Ok s) as ->; [|cbn; by rewrite Es].
  pose proof (scalar_str s Hs Es) as Hsc. clear Hs Es. induction s as [|c s IH]; [done|].
  cbn [forallb flat_map] in *. apply andb_true_iff in Hsc as [Hc Hs]. rewrite utf8_decode_char by done. by rewrite IH.
Qed.
End laws.

(** ** What the cipher promises *)

Section credentials.
Context `{Crypto}.

(** [s'] are the settings after a rotation of the secret, of the salt, or of both, from [s]. *)
Definition rotated (s s' : settings) : Prop :=
  (given (SECRET_KEY_PREV s') = Some (SECRET_KEY s)
   /\ (given (ENCRYPTION_SALT_PREV s') = Some (ENCRYPTION_SALT s)
       \/ given (ENCRYPTION_SALT_PREV s') = None /\ ENCRYPTION_SALT s' = ENCRYPTION_SALT s))
  \/ (given (SECRET_KEY_PREV s') = None /\ SECRET_KEY s' = SECRET_KEY s
      /\ given (ENCRYPTION_SALT_PREV s') = Some (ENCRYPTION_SALT s)).

Lemma rotated_key s s' key : rotated s s' -> _derive_key s = Ok key -> _derive_prev_key s' = Ok (Some key).
Proof.
  unfold _derive_key, _derive_prev_key. intros [[-> [->|[-> ->]]]|(-> & -> & ->)] Hk; by rewrite Hk.
Qed.

(** What a token holds. *)
Lemma encrypt_ok s nonce plaintext token :
  encrypt s nonce plaintext = Ok token ->
  exists key text, _derive_key s = Ok key /\ encode plaintext = Ok text
    /\ token = ENCRYPTION_PREFIX ++ b64encode (nonce ++ aead_seal key nonce text).
Proof. unfold encrypt. intros (key & Hk & (text & Ht & [= <-])%bind_ok)%bind_ok. by exists key, text. Qed.

Lemma startswith_app p s : startswith (p ++ s) p = true.
Proof. induction p as [|c p IH]; [by destruct s|]. cbn. rewrite N.eqb_refl. exact IH. Qed.

Lemma decrypt_token s nonce sealed text :
  length nonce = 12%nat -> forallb is_byte (nonce ++ sealed) = true -> (16 <= length sealed)%nat ->
  (_derive_key s ≫= fun key => open_with key nonce sealed) = Ok text
  \/ (exists e key, (_derive_key s ≫= fun key => open_with key nonce sealed) = Raise e
      /\ _derive_prev_key s = Ok (Some key) /\ open_with key nonce sealed = Ok text) ->
  decrypt_value s (Some (ENCRYPTION_PREFIX ++ b64encode (nonce ++ sealed))) = Ok (Some text).
Proof.
  intros Hn Hb Hl Ho. unfold decrypt_value. change (ENCRYPTION_PREFIX ++ ?x) with (101%N :: (#"nc:v1:" ++ x)).
  change (101%N :: (#"nc:v1:" ++ ?x)) with (ENCRYPTION_PREFIX ++ x). rewrite startswith_app. cbn [negb].
  unfold decrypt. rewrite startswith_app, drop_app_length. cbn [negb].
  rewrite validate_round_trip by done. cbn [mbind res_bind]. rewrite length_app.
  destruct (Nat.ltb_spec (length nonce + length sealed) 28); [lia|].
  rewrite (take_app_length' nonce sealed), (drop_app_length' nonce sealed) by done.
  destruct Ho as [->|(e & key & -> & Hp & Hopen)]; [done|]. rewrite Hp. cbn [mbind res_bind]. by rewrite Hopen.
Qed.

Lemma decrypt_lost s nonce sealed key e :
  length nonce = 12%nat -> forallb is_byte (nonce ++ sealed) = true -> (16 <= length sealed)%nat ->
  given (SECRET_KEY_PREV s) = None -> given (ENCRYPTION_SALT_PREV s) = None ->
  _derive_key s = Ok key -> open_with key nonce sealed = Raise e -> isinstance (exn_type e) Exception_ = true ->
  decrypt_value s (Some (ENCRYPTION_PREFIX ++ b64encode (nonce ++ sealed))) = undecryptable.
Proof.
  intros Hn Hb Hl Hs Ht Hk Ho He. unfold decrypt_value. change (ENCRYPTION_PREFIX ++ ?x) with (101%N :: (#"nc:v1:" ++ x)).
  change (101%N :: (#"nc:v1:" ++ ?x)) with (ENCRYPTION_PREFIX ++ x). rewrite startswith_app. cbn [negb].
  unfold decrypt. rewrite startswith_app, drop_app_length. cbn [negb].
  rewrite validate_round_trip by done. cbn [mbind res_bind]. rewrite length_app.
  destruct (Nat.ltb_spec (length nonce + length sealed) 28); [lia|].
  rewrite (take_app_length' nonce sealed), (drop_app_length' nonce sealed) by done.
  rewrite Hk. cbn [mbind res_bind]. rewrite Ho. unfold _derive_prev_key. rewrite Hs, Ht. cbn [mbind res_bind]. by rewrite He.
Qed.

(** C31: a stored credential is read back: what was encrypted under some settings is decrypted
    to the same text under the same settings, and also after a rotation of the secret, of the
    salt or of both that keeps the old values, not empty, as the previous ones, if no other key
    opens what the old key sealed. With no previous value, or an empty one - such as the default
    salt kept as the previous salt - a credential that the current key does not open is lost:
    decryption raises CredentialDecryptionError. *)
Theorem credential_round_trip (s : settings) (nonce : bytes) (plaintext token : pystr) :
  is_str plaintext = true -> length nonce = 12%nat -> forallb is_byte nonce = true ->
  (forall key text, _derive_key s = Ok key -> encode plaintext = Ok text ->
     aead_open key nonce (aead_seal key nonce text) = Some text
     /\ (16 <= length (aead_seal key nonce text))%nat /\ forallb is_byte (aead_seal key nonce text) = true) ->
  encrypt s nonce plaintext = Ok token ->
  decrypt_value s (Some token) = Ok (Some plaintext)
  /\ (forall s', rotated s s' ->
       (forall key key' text, _derive_key s = Ok key -> _derive_key s' = Ok key' -> key' <> key ->
          aead_open key' nonce (aead_seal key nonce text) = None) ->
       decrypt_value s' (Some token) = Ok (Some plaintext))
  /\ (forall s' key key', given (SECRET_KEY_PREV s') = None -> given (ENCRYPTION_SALT_PREV s') = None ->
       _derive_key s = Ok key -> _derive_key s' = Ok key' ->
       (forall text, aead_open key' nonce (aead_seal key nonce text) = None) ->
       exists e, decrypt_value s' (Some token) = Raise e /\ exn_type e = CredentialDecryptionError).
Proof.
  intros Hs Hn Hb Hlaw (key & text & Hk & Ht & ->)%encrypt_ok.
  destruct (Hlaw key text Hk Ht) as (Ho & Hl & Hbs).
  assert (forallb is_byte (nonce ++ aead_seal key nonce text) = true) as Hall by by rewrite forallb_app, Hb.
  assert (open_with key nonce (aead_seal key nonce text) = Ok plaintext) as Hopen.
  { unfold open_with. rewrite Ho. by apply decode_utf8_text. }
  split_and!.
  - apply decrypt_token; try done; left; by rewrite Hk.
  - intros s' Hr Hforeign. apply decrypt_token; try done. pose proof (rotated_key s s' key Hr Hk) as Hp.
    destruct (_derive_key s') as [key'|e] eqn:Ek; cbn [mbind res_bind].
    + destruct (decide (key' = key)) as [->|Hne]; [by left|]. right. exists (Exn InvalidTag []), key. split_and!; [|done..].
      unfold open_with. by rewrite (Hforeign key key' text Hk eq_refl Hne).
    + right. by exists e, key.
  - intros s' key0 key' Hs' Ht' [= <-]%(eq_trans (eq_sym Hk)) Hk' Hforeign.
    exists (Exn CredentialDecryptionError #"Credential decryption failed"). split; [|done].
    apply decrypt_lost with key' (Exn InvalidTag []); try done. unfold open_with. by rewrite Hforeign.
Qed.

Lemma encode_ordinary s : ordinary (encode s).
Proof. unfold encode. by destruct (existsb _ s). Qed.
Lemma hkdf_ordinary secret salt : ordinary (_hkdf_derive secret salt).
Proof. apply ordinary_bind; [apply encode_ordinary|]. intros ? _. by apply ordinary_bind; [apply encode_ordinary|]. Qed.
Lemma strict_ordinary padded quad left pads s : ordinary (a2b_strict padded quad left pads s).
Proof.
  revert padded quad left pads. induction s as [|c s IH]; intros padded quad left pads; cbn [a2b_strict].
  - by destruct (quad =? 0)%N.
  - repeat (cbv iota; lazymatch goal with
      | |- ordinary (_ ≫= _) => apply ordinary_bind; [|done]
      | |- ordinary (a2b_strict _ _ _ _ _) => apply IH
      | |- ordinary (match ?x with _ => _ end) => destruct x
      | |- ordinary (if ?b then _ else _) => destruct b
      end); done.
Qed.
Lemma validate_ordinary s : ordinary (b64decode_validate s).
Proof.
  unfold b64decode_validate. destruct (negb _); [done|]. destruct s as [|c s]; [apply strict_ordinary|].
  repeat (lazymatch goal with |- ordinary (match ?x with _ => _ end) => destruct x end);
    first [done|apply strict_ordinary].
Qed.
Lemma open_ordinary key nonce ciphertext : ordinary (open_with key nonce ciphertext).
Proof.
  unfold open_with. destruct (aead_open _ _ _); [|done]. apply ordinary_bind; [apply utf8_ordinary|].
  intros s _. by destruct (existsb _ s).
Qed.
Lemma prev_key_ordinary s : ordinary (_derive_prev_key s).
Proof.
  unfold _derive_prev_key. destruct (given (SECRET_KEY_PREV s)), (given (ENCRYPTION_SALT_PREV s)); try done;
    by apply ordinary_bind; [apply hkdf_ordinary|].
Qed.
Lemma decrypt_ordinary s token : ordinary (decrypt s token).
Proof.
  unfold decrypt. destruct (negb _); [done|]. apply ordinary_bind; [apply validate_ordinary|]. intros raw _.
  destruct (_ <? _)%nat; [done|]. cbv zeta. set (ct := drop 12 raw). set (nonce := take 12 raw).
  assert (ordinary (_derive_key s ≫= fun key => open_with key nonce ct)) as Hp.
  { apply ordinary_bind; [apply hkdf_ordinary|]. intros. apply open_ordinary. }
  destruct (_derive_key s ≫= _) as [text|e]; [done|]. apply ordinary_bind; [apply prev_key_ordinary|].
  intros [prev|] _; [|exact Hp]. by destruct (open_with prev nonce ct).
Qed.

(** Whatever is stored in a credential column, and whatever the settings: a missing or empty
    value is passed through; anything else is either decrypted, which takes the prefix, valid
    base64 of at least the nonce and the tag, and a key, the current or the previous one, that
    opens it; or refused with CredentialDecryptionError, and with no other exception. *)
Theorem credential_errors (s : settings) (value : option pystr) :
  match decrypt_value s value with
  | Ok result =>
      (value = None \/ value = Some []) /\ result = value
      \/ exists token raw key text, value = Some token /\ startswith token ENCRYPTION_PREFIX = true
           /\ b64decode_validate (drop (length ENCRYPTION_PREFIX) token) = Ok raw /\ (28 <= length raw)%nat
           /\ (_derive_key s = Ok key \/ _derive_prev_key s = Ok (Some key))
           /\ open_with key (take 12 raw) (drop 12 raw) = Ok text /\ result = Some text
  | Raise e => exn_type e = CredentialDecryptionError /\ exists c token, value = Some (c :: token)
  end.
Proof.
  unfold decrypt_value. destruct value as [[|c token]|]; [left; auto| |left; auto].
  destruct (negb (startswith (c :: token) ENCRYPTION_PREFIX)) eqn:Ep; [split; [done|by exists c, token]|].
  pose proof (decrypt_ordinary s (c :: token)) as Hord. destruct (decrypt s (c :: token)) as [text|e] eqn:Ed.
  2: { cbn in Hord. rewrite Hord. split; [done|by exists c, token]. }
  right. unfold decrypt in Ed. rewrite Ep in Ed. apply bind_ok in Ed as (raw & Hraw & Ed).
  destruct (Nat.ltb_spec (length raw) 28); [done|]. exists (c :: token), raw. cbv zeta in Ed.
  destruct (_derive_key s ≫= _) as [text'|e] eqn:Ek.
  - injection Ed as ->. apply bind_ok in Ek as (key & Hk & Ho). exists key, text. apply negb_false_iff in Ep. by split_and!; auto.
  - apply bind_ok in Ed as ([key|] & Hk & Ed); [|done]. destruct (open_with key _ _) as [text'|e'] eqn:Ho; [|done].
    injection Ed as ->. exists key, text. apply negb_false_iff in Ep. by split_and!; auto.
Qed.
End credentials.

Section claims.
Context `{Jwt}.

Lemma copy_claims_all payload raw :
  forallb (fun kv => scalar_claim kv.2) raw = true -> NoDup (payload.*1 ++ raw.*1) -> copy_claims payload raw = Ok (payload ++ raw).
Proof.
  revert payload. induction raw as [|[key value] raw IH]; intros payload; [by intros _ _; rewrite app_nil_r|].
  cbn [forallb copy_claims snd fmap list_fmap fst]. intros [-> Hs]%andb_true_iff Hnd. rewrite dict_set_app.
  - rewrite IH; [by rewrite <- app_assoc|done|]. rewrite fmap_app, <- app_assoc. exact Hnd.
  - apply NoDup_app in Hnd as (_ & Hd & _). intros Hin. apply (Hd key Hin). by left.
Qed.

Definition ExpiredSignatureError : exn := Exn (LibraryError #"ExpiredSignatureError") #"Signature has expired".
Definition expired (claims : jobject) (now : Z) : bool :=
  match dict_get claims #"exp" with Some (JInt t) => (t <=? seconds now)%Z | _ => false end.

(** Access and refresh tokens are not interchangeable: an access token is read back, as an
    access token, with the claims it was made with, until its minutes are over, from when on it
    is refused as expired; a refresh token likewise, until its days are over; and neither is
    ever accepted in the place of the other. *)
Theorem token_types_separate (s : settings) (now now' : Z) (jti : uuid) (user_id email token : pystr) (is_superuser : bool)
    (expected_type : pystr) :
  (forall claims, claims = access_claims s now jti user_id email is_superuser \/ claims = refresh_claims s now jti user_id ->
     jwt_encode (SECRET_KEY s) claims = Ok token -> jwt_decode (SECRET_KEY s) now' token = if expired claims now' then Raise ExpiredSignatureError else Ok claims) ->
  (encode_access_token s now jti user_id email is_superuser = Ok token ->
     match decode_token s now' token expected_type with
     | Ok claims => expected_type = #"access" /\ claims = access_claims s now jti user_id email is_superuser
                    /\ (seconds now' < seconds (now + ACCESS_TOKEN_EXPIRE_MINUTES s * 60000000))%Z
     | Raise e => (seconds (now + ACCESS_TOKEN_EXPIRE_MINUTES s * 60000000) <= seconds now')%Z /\ e = ExpiredSignatureError
                  \/ expected_type <> #"access" /\ exn_type e = jwt_InvalidTokenError
     end)
  /\ (encode_refresh_token s now jti user_id = Ok token ->
     match decode_token s now' token expected_type with
     | Ok claims => expected_type = #"refresh" /\ claims = refresh_claims s now jti user_id
                    /\ (seconds now' < seconds (now + REFRESH_TOKEN_EXPIRE_DAYS s * 86400000000))%Z
     | Raise e => (seconds (now + REFRESH_TOKEN_EXPIRE_DAYS s * 86400000000) <= seconds now')%Z /\ e = ExpiredSignatureError
                  \/ expected_type <> #"refresh" /\ exn_type e = jwt_InvalidTokenError
     end).
Proof.
  intros Hlaw. split; intros He.
  - unfold decode_token. rewrite (Hlaw _ (or_introl eq_refl) He). unfold expired.
    change (dict_get (access_claims _ _ _ _ _ _) #"exp") with (Some (JInt (seconds (now + ACCESS_TOKEN_EXPIRE_MINUTES s * 60000000)))).
    cbv iota. destruct (Z.leb_spec (seconds (now + ACCESS_TOKEN_EXPIRE_MINUTES s * 60000000)) (seconds now')) as [Hx|Hx]; [by left|].
    cbn [mbind res_bind]. rewrite (copy_claims_all []); [|done|by apply (bool_decide_unpack _)]. cbn [mbind res_bind app].
    change (dict_get (access_claims _ _ _ _ _ _) #"type") with (Some (JStr #"access")). cbv iota.
    destruct (str_eqb #"access" expected_type) eqn:Et; [by apply str_eqb_eq in Et|]. right. split; [|done].
    intros ->. by vm_compute in Et.
  - unfold decode_token. rewrite (Hlaw _ (or_intror eq_refl) He). unfold expired.
    change (dict_get (refresh_claims _ _ _ _) #"exp") with (Some (JInt (seconds (now + REFRESH_TOKEN_EXPIRE_DAYS s * 86400000000)))).
    cbv iota. destruct (Z.leb_spec (seconds (now + REFRESH_TOKEN_EXPIRE_DAYS s * 86400000000)) (seconds now')) as [Hx|Hx]; [by left|].
    cbn [mbind res_bind]. rewrite (copy_claims_all []); [|done|by apply (bool_decide_unpack _)]. cbn [mbind res_bind app].
    change (dict_get (refresh_claims _ _ _ _) #"type") with (Some (JStr #"refresh")). cbv iota.
    destruct (str_eqb #"refresh" expected_type) eqn:Et; [by apply str_eqb_eq in Et|]. right. split; [|done].
    intros ->. by vm_compute in Et.
Qed.
End claims.

(** ** At concrete values *)

(** A cipher whose tag is the beginning of the key. *)
Definition demo_tag (key : bytes) : bytes := take 16 (key ++ repeat 0%N 16).
Definition demo_crypto : Crypto := {|
  hkdf_sha256 := fun secret salt => secret ++ salt;
  aead_seal := fun key _ text => demo_tag key ++ text;
  aead_open := fun key _ ct => if bool_decide (take 16 ct = demo_tag key) then Some (drop 16 ct) else None;
  hmac_sha256_hex := fun _ m => m; sha256_hex := fun m => m;
  bcrypt_hash := fun _ p => Ok p; bcrypt_check := fun p h => Ok (bool_decide (p = h)) |}.
Definition demo_settings : settings := {|
  SECRET_KEY := #"old"; ENCRYPTION_SALT := #"salt"; ENCRYPTION_SALT_PREV := None; SECRET_KEY_PREV := None;
  ACCESS_TOKEN_EXPIRE_MINUTES := 15; REFRESH_TOKEN_EXPIRE_DAYS := 7 |}.
Definition demo_rotated : settings := {|
  SECRET_KEY := #"new"; ENCRYPTION_SALT := #"salt"; ENCRYPTION_SALT_PREV := Some []; SECRET_KEY_PREV := Some #"old";
  ACCESS_TOKEN_EXPIRE_MINUTES := 15; REFRESH_TOKEN_EXPIRE_DAYS := 7 |}.
(** The default salt is the empty text: kept as the previous salt, it is none. *)
Definition demo_unsalted : settings := {|
  SECRET_KEY := #"old"; ENCRYPTION_SALT := []; ENCRYPTION_SALT_PREV := None; SECRET_KEY_PREV := None;
  ACCESS_TOKEN_EXPIRE_MINUTES := 15; REFRESH_TOKEN_EXPIRE_DAYS := 7 |}.
Definition demo_salted : settings := {|
  SECRET_KEY := #"old"; ENCRYPTION_SALT := #"salt"; ENCRYPTION_SALT_PREV := Some []; SECRET_KEY_PREV := None;
  ACCESS_TOKEN_EXPIRE_MINUTES := 15; REFRESH_TOKEN_EXPIRE_DAYS := 7 |}.
Definition demo_sealed (s : settings) : pystr := match @encrypt demo_crypto s (repeat 7%N 12) #"s3cret" with Ok t => t | Raise _ => [] end.
Definition demo_token : pystr := demo_sealed demo_settings.

Lemma credential_round_trip_witness :
  @decrypt_value demo_crypto demo_settings (Some demo_token) = Ok (Some #"s3cret")
  /\ @decrypt_value demo_crypto demo_rotated (Some demo_token) = Ok (Some #"s3cret")
  /\ exists e, @decrypt_value demo_crypto demo_salted (Some (demo_sealed demo_unsalted)) = Raise e
               /\ exn_type e = CredentialDecryptionError.
Proof.
  destruct (@credential_round_trip demo_crypto demo_settings (repeat 7%N 12) #"s3cret" demo_token) as (H1 & H2 & _);
    [reflexivity..| |vm_compute; reflexivity|].
  { intros key text [= <-] [= <-]. vm_compute. split; [reflexivity|]. split; [|reflexivity]. lia. }
  destruct (@credential_round_trip demo_crypto demo_unsalted (repeat 7%N 12) #"s3cret" (demo_sealed demo_unsalted)) as (_ & _ & H3);
    [reflexivity..| |vm_compute; reflexivity|].
  { intros key text [= <-] [= <-]. vm_compute. split; [reflexivity|]. split; [|reflexivity]. lia. }
  split; [exact H1|]. split.
  - apply H2; [left; split; [reflexivity|]; right; split; reflexivity|].
    intros key key' text [= <-] [= <-] _. reflexivity.
  - refine (H3 demo_salted _ _ eq_refl eq_refl eq_refl eq_refl _). intros text. reflexivity.
Defined.

(** A signature that knows two tokens. *)
Definition demo_jwt : Jwt := {|
  jwt_encode := fun _ claims =>
    match dict_get claims #"type" with Some (JStr type) => if str_eqb type #"access" then Ok #"a" else Ok #"r" | _ => raise TypeError [] end;
  jwt_decode := fun _ now token =>
    let claims := if str_eqb token #"a" then access_claims demo_settings 0 1 #"u" #"u@x" false else refresh_claims demo_settings 0 1 #"u" in
    if expired claims now then Raise ExpiredSignatureError else Ok claims |}.
Lemma token_types_separate_witness :
  @decode_token demo_jwt demo_settings 5 #"a" #"access" = Ok (access_claims demo_settings 0 1 #"u" #"u@x" false)
  /\ match @decode_token demo_jwt demo_settings 5 #"a" #"refresh" with
     | Ok _ => False
     | Raise e => (seconds 900000000 <= seconds 5)%Z /\ e = ExpiredSignatureError \/ #"refresh" <> #"access" /\ exn_type e = jwt_InvalidTokenError
     end.
Proof.
  split; [vm_compute; reflexivity|].
  assert (forall expected, match @decode_token demo_jwt demo_settings 5 #"a" expected with
     | Ok claims => expected = #"access" /\ claims = access_claims demo_settings 0 1 #"u" #"u@x" false /\ (seconds 5 < seconds 900000000)%Z
     | Raise e => (seconds 900000000 <= seconds 5)%Z /\ e = ExpiredSignatureError \/ expected <> #"access" /\ exn_type e = jwt_InvalidTokenError
     end) as Hall.
  { intros expected.
    destruct (@token_types_separate demo_jwt demo_settings 0 5 1 #"u" #"u@x" #"a" false expected) as [Ha _].
    - intros claims [->| ->] He; [vm_compute; reflexivity|vm_compute in He; discriminate He].
    - exact (Ha ltac:(vm_compute; reflexivity)). }
  specialize (Hall #"refresh"). destruct (@decode_token demo_jwt demo_settings 5 #"a" #"refresh") as [claims|e]; [|exact Hall].
  destruct Hall as [Hall _]. discriminate Hall.
Defined.
