(* ===== verification/GitHub.v ===== *)
(** * The GitHub template source

    [app/adapters/github/template_source.py]: the packs of a repository, read through the
    contents API.  A request is a call with an arbitrary answer; the depth of the recursion
    into directories of assets is that of the interpreter's stack, a parameter. *)
From S2P Require Import Prelude PyStr Errors Json Bytes Effects Codec Assets Packs.

Definition HTTPError : exn_class := LibraryError #"HTTPError".
Definition TEMPLATES_ROOT : pystr := #"templates".
Definition MAX_PACKS_PER_SYNC : nat := 200.
Definition MAX_ASSET_FILES : nat := 100.
Definition MAX_ASSET_BYTES : Z := 1048576.
Definition MAX_PACK_ASSETS_BYTES : Z := 10485760.

(** [app/application/ports/template_source.py]. *)
Record FetchedAsset := { fa_path : pystr; fa_content : bytes }.
Record FetchedPack := {
  fp_dirname : pystr; fp_manifest : jobject; fp_commands : list json; fp_scripts : list json;
  fp_readme : option pystr; fp_assets : list FetchedAsset; fp_manifest_sha : option pystr }.

(** A request, with the branch it asks for, and a response: its status and its body. *)
Inductive github_call := Get (url : pystr) (ref : option pystr).
Record github_response := { gr_status : Z; gr_json : res json }.
#[export] Instance github_signature : Signature := {| call := github_call; answer := fun _ => github_response |}.

Definition domain_error {A} (msg : pystr) : prog A := lift (raise DomainError msg).
(** [base64.b64decode(content)]: characters outside the alphabet are dropped. *)
Definition b64decode_text (s : pystr) : res bytes :=
  if forallb is_ascii s then b64decode s else raise ValueError #"string argument should contain only ASCII characters".

Section source.
Context `{Unicode} `{PyFloat}.
Context (owner repo branch : pystr) (recursion_limit : nat).

Definition repository : pystr := owner ++ #"/" ++ repo.

Definition get_response (url : pystr) (ref : option pystr) (what : pystr) : prog github_response :=
  try_except (perform (Get url ref))
    (fun exc => if isinstance (exn_type exc) HTTPError
                then Some (domain_error (#"GitHub request failed for " ++ what ++ #": " ++ exn_msg exc)) else None).

Definition _repo_exists : prog bool :=
  response ← get_response (#"/repos/" ++ repository) None repository;
  if (gr_status response =? 404)%Z then mret false
  else if (400 <=? gr_status response)%Z
  then domain_error (#"GitHub request failed for " ++ repository ++ #": HTTP " ++ str_Z (gr_status response))
  else mret true.

Definition contents_url (path : pystr) : pystr := #"/repos/" ++ repository ++ #"/contents/" ++ path.
Definition _contents (path : pystr) : prog (option json) :=
  response ← get_response (contents_url path) (Some branch) path;
  if (gr_status response =? 404)%Z then mret None
  else if (gr_status response =? 401)%Z then domain_error #"GitHub authentication failed (check token)"
  else if (gr_status response =? 403)%Z then domain_error #"GitHub access forbidden or rate limit exceeded"
  else if (400 <=? gr_status response)%Z
  then domain_error (#"GitHub request failed for " ++ path ++ #": HTTP " ++ str_Z (gr_status response))
  else match gr_json response with
       | Ok JNull => mret None
       | Ok body => mret (Some body)
       | Raise e => if isinstance (exn_type e) ValueError then domain_error (#"Invalid GitHub response for " ++ path)
                    else lift (Raise e)
       end.

(** Whether an entry says that it is of this type; its name. *)
Definition has_type (entry : jobject) (type : pystr) : bool :=
  match dict_get entry #"type" with Some (JStr t) => str_eqb t type | _ => false end.
Definition entry_name (entry : jobject) : pystr := json_str (default (JStr []) (dict_get entry #"name")).

(** The file in a response, if it is one: its content, and the name of its version. *)
Definition file_of (path : pystr) (payload : option json) : prog (option (bytes * option pystr)) :=
  match payload with
  | Some (JObj payload) =>
      if has_type payload #"file" then
        match default (JStr []) (dict_get payload #"content") with
        | JStr content =>
            match b64decode_text content with
            | Ok raw => mret (Some (raw, match dict_get payload #"sha" with Some (JStr sha) => Some sha | _ => None end))
            | Raise _ => domain_error (#"Invalid GitHub file encoding for " ++ path)
            end
        | _ => mret None
        end
      else mret None
  | _ => mret None
  end.
Definition _fetch_file (path : pystr) : prog (option (bytes * option pystr)) :=
  payload ← _contents path;
  file_of path payload.

(** [json.loads(raw.decode("utf-8"))]. *)
Definition loads_utf8 (raw : bytes) : res json := text ← decode_utf8 raw; loads text.
Definition _parse_json_list (raw : bytes) (label : pystr) : prog (list json) :=
  match loads_utf8 raw with
  | Raise e => domain_error (#"Invalid " ++ label ++ #": " ++ exn_msg e)
  | Ok (JArr parsed) => mret parsed
  | Ok _ => domain_error (#"Invalid " ++ label ++ #": expected a list")
  end.

(** ** Assets *)

(** The files found so far and their bytes. *)
Definition found : Type := list FetchedAsset * Z.

Definition add_file (path : pystr) (entry_path : pystr) (acc : found) : prog found :=
  let '(assets, total) := acc in
  if (MAX_ASSET_FILES <=? length assets)%nat
  then domain_error (#"Too many asset files in " ++ path ++ #" (max " ++ str_Z (Z.of_nat MAX_ASSET_FILES) ++ #")")
  else
    fetched ← _fetch_file (path ++ #"/" ++ entry_path);
    match fetched with
    | None => mret acc
    | Some (raw, _) =>
        let size := Z.of_nat (length raw) in
        if (MAX_ASSET_BYTES <? size)%Z
        then domain_error (#"Asset " ++ entry_path ++ #" too large (" ++ str_Z size ++ #" bytes)")
        else if (MAX_PACK_ASSETS_BYTES <? total + size)%Z
        then domain_error (#"Pack assets too large in " ++ path)
        else mret (assets ++ [{| fa_path := #"assets/" ++ entry_path; fa_content := raw |}], (total + size)%Z)
    end.

(** [_walk]; [path] is that of the directory of assets. *)
Fixpoint walk (depth : nat) (path : pystr) (items : list json) (prefix : pystr) (acc : found) : prog found :=
  match depth with
  | O => lift (raise RuntimeError #"maximum recursion depth exceeded")
  | S depth =>
      (fix entries (items : list json) (acc : found) : prog found :=
         match items with
         | [] => mret acc
         | JObj entry :: items =>
             acc ← (if has_type entry #"dir" then
                      sub ← _contents (path ++ #"/" ++ prefix ++ entry_name entry);
                      match sub with
                      | Some (JArr sub) => walk depth path sub (prefix ++ entry_name entry ++ #"/") acc
                      | _ => mret acc
                      end
                    else if has_type entry #"file" then add_file path (prefix ++ entry_name entry) acc
                    else mret acc);
             entries items acc
         | _ :: items => entries items acc
         end) items acc
  end.
Definition _fetch_assets (path : pystr) : prog (list FetchedAsset) :=
  entries ← _contents path;
  match entries with
  | Some (JArr entries) => '(assets, total) ← walk recursion_limit path entries [] ([], 0%Z); mret (assets : list FetchedAsset)
  | _ => mret []
  end.

(** ** Packs *)

(** An optional file that holds a list. *)
Definition optional_list (root dirname name : pystr) : prog (list json) :=
  fetched ← _fetch_file (root ++ #"/" ++ name);
  match fetched with
  | Some (raw, _) => _parse_json_list raw (dirname ++ #"/" ++ name)
  | None => mret []
  end.
Definition _fetch_pack (dirname : pystr) : prog (option FetchedPack) :=
  let root := TEMPLATES_ROOT ++ #"/" ++ dirname in
  fetched ← _fetch_file (root ++ #"/manifest.json");
  match fetched with
  | None => mret None
  | Some (manifest_raw, manifest_sha) =>
      match loads_utf8 manifest_raw with
      | Raise e => domain_error (#"Invalid manifest.json in pack " ++ dirname ++ #": " ++ exn_msg e)
      | Ok (JObj manifest) =>
          commands ← optional_list root dirname #"commands.json";
          scripts ← optional_list root dirname #"scripts.json";
          fetched ← _fetch_file (root ++ #"/README.md");
          let readme := match fetched with
                        | Some (raw, _) => match decode_utf8 raw with Ok text => Some text | Raise _ => None end
                        | None => None
                        end in
          assets ← _fetch_assets (root ++ #"/assets");
          mret (Some {| fp_dirname := dirname; fp_manifest := manifest; fp_commands := commands; fp_scripts := scripts;
                        fp_readme := readme; fp_assets := assets; fp_manifest_sha := manifest_sha |})
      | Ok _ => domain_error (#"Invalid manifest.json in pack " ++ dirname ++ #": not an object")
      end
  end.

Fixpoint fetch_entries (entries : list json) (packs : list FetchedPack) : prog (list FetchedPack) :=
  match entries with
  | [] => mret packs
  | JObj entry :: entries =>
      if has_type entry #"dir" then
        if (MAX_PACKS_PER_SYNC <=? length packs)%nat then mret packs
        else
          pack ← _fetch_pack (entry_name entry);
          fetch_entries entries (match pack with Some pack => packs ++ [pack] | None => packs end)
      else fetch_entries entries packs
  | _ :: entries => fetch_entries entries packs
  end.
Definition fetch_packs : prog (list FetchedPack) :=
  entries ← _contents TEMPLATES_ROOT;
  match entries with
  | None =>
      exists_ ← _repo_exists;
      if (exists_ : bool) then mret []
      else domain_error (#"GitHub repository " ++ repository ++ #" not found")
  | Some entries => entries ← lift (py_list entries); fetch_entries entries []
  end.
End source.
