(* ===== verification/Registries.v ===== *)
(** * Template registries

    [app/adapters/persistence/template_registry.py] over the tables of [Packs],
    [app/application/services/template_registry_service.py] and the handlers of
    [app/api/v2/templates_handlers/registries.py].  The tokens of registries are sealed by
    the cipher, a parameter. *)
From S2P Require Import Prelude PyStr Regex Errors Json Bytes Effects Dto Codec Assets Packs Pagination GitHub.

(** ** Data ([dto/template_registry.py], [models/template_registry.py]) *)

Record RegistryCreateDTO := { rc_owner : pystr; rc_name : pystr; rc_github_token : option pystr; rc_default_branch : pystr }.
Record RegistryUpdateDTO := {
  ru_owner : option pystr; ru_name : option pystr; ru_github_token : option pystr; ru_default_branch : option pystr }.
Record RegistryViewDTO := {
  rv_id : uuid; rv_owner : pystr; rv_name : pystr; rv_default_branch : pystr; rv_last_synced_at : option Z;
  rv_created_at : Z; rv_updated_at : Z }.
Record RegistryPageDTO := { rp_items : list RegistryViewDTO; rp_total : Z }.
Record RegistrySyncItemDTO := { ri_pack_id : pystr; ri_status : pystr; ri_error : pystr; ri_message : pystr }.
Record RegistrySyncResultDTO := {
  rs_registry_id : uuid; rs_total : Z; rs_succeeded : Z; rs_failed : Z; rs_results : list RegistrySyncItemDTO }.
Record TemplateRegistryModel := {
  rm_owner : pystr; rm_name : pystr; rm_github_token_encrypted : option pystr; rm_default_branch : pystr;
  rm_last_synced_at : option Z; rm_created_at : Z; rm_updated_at : Z }.

(** ** The gateway *)

Record registries := { rg_rows : list (uuid * TemplateRegistryModel); rg_next : uuid; rg_store : store }.
Definition set_rows (s : registries) (rows : list (uuid * TemplateRegistryModel)) : registries :=
  {| rg_rows := rows; rg_next := rg_next s; rg_store := rg_store s |}.
Definition set_store (s : registries) (st : store) : registries :=
  {| rg_rows := rg_rows s; rg_next := rg_next s; rg_store := st |}.

(** The cipher of credentials; sealing draws a nonce, here one for each moment. *)
Class Cipher := { cipher_encrypt : Z -> pystr -> res pystr; cipher_decrypt : option pystr -> res (option pystr) }.

Definition tx (A : Type) : Type := registries -> res (A * registries).
Definition begin {A} (m : tx A) (s : registries) : res A * registries :=
  match m s with Ok (a, s') => (Ok a, s') | Raise e => (Raise e, s) end.

Section gateway.
Context `{Cipher}.

Definition _view_of (kv : uuid * TemplateRegistryModel) : RegistryViewDTO :=
  {| rv_id := kv.1; rv_owner := rm_owner kv.2; rv_name := rm_name kv.2; rv_default_branch := rm_default_branch kv.2;
     rv_last_synced_at := rm_last_synced_at kv.2; rv_created_at := rm_created_at kv.2; rv_updated_at := rm_updated_at kv.2 |}.

Definition same_repository (owner name : pystr) (r : TemplateRegistryModel) : bool :=
  str_eqb (rm_owner r) owner && str_eqb (rm_name r) name.
Definition conflict {A} (owner name : pystr) : res A :=
  raise RegistryConflictError (#"Registry " ++ owner ++ #"/" ++ name ++ #" already exists").
Definition not_found {A} (id : uuid) : res A :=
  raise RegistryNotFoundError (#"Registry " ++ uuid_str id ++ #" not found").
(** [encrypt(token) if token else None]. *)
Definition seal_token (now : Z) (token : option pystr) : res (option pystr) :=
  match token with
  | Some ((_ :: _) as token) => sealed ← cipher_encrypt now token; Ok (Some sealed)
  | _ => Ok None
  end.

Definition create_registry (data : RegistryCreateDTO) (now : Z) : tx RegistryViewDTO := fun s =>
  if existsb (fun kv => same_repository (rc_owner data) (rc_name data) kv.2) (rg_rows s)
  then conflict (rc_owner data) (rc_name data)
  else
    token ← seal_token now (rc_github_token data);
    let id := rg_next s in
    let row := {| rm_owner := rc_owner data; rm_name := rc_name data; rm_github_token_encrypted := token;
                  rm_default_branch := match rc_default_branch data with [] => #"main" | branch => branch end;
                  rm_last_synced_at := None; rm_created_at := now; rm_updated_at := now |} in
    Ok (_view_of (id, row), {| rg_rows := rg_rows s ++ [(id, row)]; rg_next := (id + 1)%N; rg_store := rg_store s |}).

(** The newest first; rows of the same time come in the order of the sort. *)
Definition newer (a b : uuid * TemplateRegistryModel) : bool := (rm_created_at b.2 <=? rm_created_at a.2)%Z.
Fixpoint insert_row (kv : uuid * TemplateRegistryModel) (rows : list (uuid * TemplateRegistryModel)) : list (uuid * TemplateRegistryModel) :=
  match rows with
  | [] => [kv]
  | kv' :: rows => if newer kv kv' then kv :: kv' :: rows else kv' :: insert_row kv rows
  end.
Definition by_creation (rows : list (uuid * TemplateRegistryModel)) : list (uuid * TemplateRegistryModel) :=
  foldr insert_row [] rows.
Definition list_registries (offset limit : Z) (s : registries) : RegistryPageDTO :=
  let offset := Z.max offset 0 in
  let limit := Z.min (Z.max limit 1) 100 in
  {| rp_items := _view_of <$> take (Z.to_nat limit) (drop (Z.to_nat offset) (by_creation (rg_rows s)));
     rp_total := Z.of_nat (length (rg_rows s)) |}.

Definition get_registry (id : uuid) (s : registries) : option RegistryViewDTO :=
  (fun row => _view_of (id, row)) <$> dict_get (rg_rows s) id.
Definition get_registry_token (id : uuid) (s : registries) : res (option pystr) :=
  match dict_get (rg_rows s) id with
  | None => not_found id
  | Some row => cipher_decrypt (rm_github_token_encrypted row)
  end.

(** The packs of a deleted registry become local. *)
Definition delete_registry (id : uuid) : tx unit := fun s =>
  match dict_get (rg_rows s) id with
  | None => not_found id
  | Some _ =>
      '(_, st) ← (detach_registry id (rg_store s) : res (unit * store));
      Ok (tt, set_store (set_rows s (dict_pop (rg_rows s) id)) st)
  end.

Definition patch_registry (id : uuid) (data : RegistryUpdateDTO) (now : Z) : tx RegistryViewDTO := fun s =>
  match dict_get (rg_rows s) id with
  | None => not_found id
  | Some row =>
      let new_owner := default (rm_owner row) (ru_owner data) in
      let new_name := default (rm_name row) (ru_name data) in
      if negb (same_repository new_owner new_name row)
         && existsb (fun kv => same_repository new_owner new_name kv.2 && negb (kv.1 =? id)%N) (rg_rows s)
      then conflict new_owner new_name
      else
        token ← match ru_github_token data with
                | None => Ok (rm_github_token_encrypted row)
                | token => seal_token now token
                end;
        let row := {| rm_owner := new_owner; rm_name := new_name; rm_github_token_encrypted := token;
                      rm_default_branch := default (rm_default_branch row) (ru_default_branch data);
                      rm_last_synced_at := rm_last_synced_at row; rm_created_at := rm_created_at row; rm_updated_at := now |} in
        Ok (_view_of (id, row), set_rows s (dict_set (rg_rows s) id row))
  end.
Definition touch_synced (id : uuid) (now : Z) : tx RegistryViewDTO := fun s =>
  match dict_get (rg_rows s) id with
  | None => not_found id
  | Some row =>
      let row := {| rm_owner := rm_owner row; rm_name := rm_name row; rm_github_token_encrypted := rm_github_token_encrypted row;
                    rm_default_branch := rm_default_branch row; rm_last_synced_at := Some now;
                    rm_created_at := rm_created_at row; rm_updated_at := now |} in
      Ok (_view_of (id, row), set_rows s (dict_set (rg_rows s) id row))
  end.
End gateway.

(** ** The service *)

Inductive registry_call :=
| CreateRegistry (data : RegistryCreateDTO)
| ListRegistries (offset limit : Z)
| GetRegistry (id : uuid)
| GetToken (id : uuid)
| DeleteRegistry (id : uuid)
| PatchRegistry (id : uuid) (data : RegistryUpdateDTO)
| TouchSynced (id : uuid)
| FetchPacks (owner name branch : pystr) (token : option pystr)
| UpsertPack (data : SyncedPackDTO).
Definition registry_answer (c : registry_call) : Type :=
  match c with
  | CreateRegistry _ | PatchRegistry _ _ | TouchSynced _ => RegistryViewDTO
  | ListRegistries _ _ => RegistryPageDTO
  | GetRegistry _ => option RegistryViewDTO
  | GetToken _ => option pystr
  | DeleteRegistry _ => unit
  | FetchPacks _ _ _ _ => list FetchedPack
  | UpsertPack _ => uuid * sync_outcome
  end.
#[export] Instance registry_signature : Signature := {| call := registry_call; answer := registry_answer |}.

Section service.
Context `{Unicode} `{PyFloat}.
(** [self._source] is given. *)
Context (with_source : bool).

Definition create (data : RegistryCreateDTO) : prog RegistryViewDTO := perform (CreateRegistry data).
Definition list_all (offset limit : Z) : prog RegistryPageDTO := perform (ListRegistries offset limit).
Definition get (id : uuid) : prog RegistryViewDTO :=
  view ← perform (GetRegistry id);
  match view with Some view => mret view | None => lift (not_found id) end.
Definition delete (id : uuid) : prog unit := perform (DeleteRegistry id).
Definition patch (id : uuid) (data : RegistryUpdateDTO) : prog RegistryViewDTO := perform (PatchRegistry id data).

(** What a fetched pack is stored as. *)
Definition string_or_none (v : option json) : option pystr := match v with Some (JStr s) => Some s | _ => None end.
Definition non_empty_string (v : option json) : option pystr := match v with Some (JStr (c :: s)) => Some (c :: s) | _ => None end.
Fixpoint all_strings (xs : list json) : option (list pystr) :=
  match xs with
  | [] => Some []
  | JStr s :: xs => (cons s) <$> all_strings xs
  | _ :: _ => None
  end.
Definition objects (xs : list json) : list jobject := omap (fun v => match v with JObj d => Some d | _ => None end) xs.
Definition manifest_error {A} (pack : FetchedPack) (what : pystr) : res A :=
  raise DomainError (#"Pack " ++ fp_dirname pack ++ #": manifest " ++ what).
Definition fetched_pack_id (pack : FetchedPack) : pystr :=
  match dict_get (fp_manifest pack) #"pack_id" with
  | Some v => if json_truthy v then json_str v else fp_dirname pack
  | None => fp_dirname pack
  end.
Definition synced_pack (registry_id : uuid) (pack : FetchedPack) : res SyncedPackDTO :=
  let manifest := fp_manifest pack in
  match non_empty_string (dict_get manifest #"name"), non_empty_string (dict_get manifest #"version") with
  | None, _ => manifest_error pack #"missing name"
  | _, None => manifest_error pack #"missing version"
  | Some name, Some version =>
      match or_else (default JNull (dict_get manifest #"tags")) (JArr []) with
      | JArr tags =>
          match all_strings tags with
          | None => manifest_error pack #"tags must be strings"
          | Some tags =>
              Ok {| sy_registry_id := registry_id;
                    sy_manifest := {| mf_pack_id := fetched_pack_id pack; mf_name := name; mf_version := version;
                                      mf_description := string_or_none (dict_get manifest #"description");
                                      mf_author := string_or_none (dict_get manifest #"author"); mf_tags := tags;
                                      mf_manifest_sha := match fp_manifest_sha pack with
                                                         | Some sha => Some sha
                                                         | None => string_or_none (dict_get manifest #"manifest_sha")
                                                         end |};
                    sy_readme := fp_readme pack; sy_commands := objects (fp_commands pack); sy_scripts := objects (fp_scripts pack);
                    sy_assets := (fun a => {| pa_path := fa_path a; pa_content_base64 := b64encode (fa_content a) |}) <$> fp_assets pack |}
          end
      | _ => manifest_error pack #"tags must be strings"
      end
  end.
Definition _upsert_fetched_pack (registry_id : uuid) (pack : FetchedPack) : prog (uuid * sync_outcome) :=
  data ← lift (synced_pack registry_id pack);
  perform (UpsertPack data).

Definition outcome_text (o : sync_outcome) : pystr :=
  match o with Created => #"created" | Updated => #"updated" | Unchanged => #"unchanged" end.
Definition sync_pack (registry_id : uuid) (pack : FetchedPack) : prog RegistrySyncItemDTO :=
  try_except
    ('(_, outcome) ← (_upsert_fetched_pack registry_id pack : prog (uuid * sync_outcome));
     mret {| ri_pack_id := fp_dirname pack; ri_status := #"success"; ri_error := []; ri_message := outcome_text outcome |})
    (on_exception (fun exc =>
       mret {| ri_pack_id := fp_dirname pack; ri_status := #"error"; ri_error := sanitize_bulk_error exc; ri_message := [] |})).
Fixpoint sync_packs (registry_id : uuid) (packs : list FetchedPack) : prog (list RegistrySyncItemDTO) :=
  match packs with
  | [] => mret []
  | pack :: packs =>
      item ← sync_pack registry_id pack;
      items ← sync_packs registry_id packs;
      mret (item :: items)
  end.
Definition succeeded_items (items : list RegistrySyncItemDTO) : Z := count (fun i => str_eqb (ri_status i) #"success") items.

(** [RegistrySyncResultDTO(...)] of what was fetched and the items. *)
Definition sync_result (id : uuid) (fetched : list FetchedPack) (results : list RegistrySyncItemDTO) : RegistrySyncResultDTO :=
  {| rs_registry_id := id; rs_total := Z.of_nat (length fetched); rs_succeeded := succeeded_items results;
     rs_failed := Z.of_nat (length fetched) - succeeded_items results; rs_results := results |}.
Definition fetch_failed {A} (exc : exn) : @prog registry_signature A :=
  lift (raise DomainError (#"Registry sync failed: " ++ exn_msg exc)).
Definition sync_from (id : uuid) (view : RegistryViewDTO) (token : option pystr) : @prog registry_signature RegistrySyncResultDTO :=
  fetched ← try_except (perform (FetchPacks (rv_owner view) (rv_name view) (rv_default_branch view) token))
    (fun exc => if isinstance (exn_type exc) DomainError then None else on_exception fetch_failed exc);
  results ← sync_packs id fetched;
  _ ← perform (TouchSynced id);
  mret (sync_result id fetched results).
Definition sync_registry (id : uuid) : @prog registry_signature RegistrySyncResultDTO :=
  view ← get id;
  token ← perform (GetToken id);
  if with_source then sync_from id view token
  else (lift (raise DomainError #"Registry sync source is not configured") : @prog registry_signature RegistrySyncResultDTO).
End service.

(** ** The calls over the tables

    Each method is its own transaction; the repository answers what it answers. *)

Section serving.
Context `{Unicode} `{PyFloat} `{PackColumns} `{Cipher}.
Context (now : Z) (source : pystr -> pystr -> pystr -> option pystr -> res (list FetchedPack)).

Definition read_only {A} (r : res A) (s : registries) : res A * registries := (r, s).
Definition serve_upsert (data : SyncedPackDTO) (s : registries) : res (uuid * sync_outcome) * registries :=
  let '(r, st) := upsert_synced_pack data now (rg_store s) in (r, set_store s st).
Definition serve (c : registry_call) : registries -> res (registry_answer c) * registries :=
  match c with
  | CreateRegistry data => begin (create_registry data now)
  | ListRegistries offset limit => fun s => read_only (Ok (list_registries offset limit s)) s
  | GetRegistry id => fun s => read_only (Ok (get_registry id s)) s
  | GetToken id => fun s => read_only (get_registry_token id s) s
  | DeleteRegistry id => begin (delete_registry id)
  | PatchRegistry id data => begin (patch_registry id data now)
  | TouchSynced id => begin (touch_synced id now)
  | FetchPacks owner name branch token => read_only (source owner name branch token)
  | UpsertPack data => serve_upsert data
  end.
End serving.

(** ** The handlers ([schemas/template_registry.py]) *)

Section handlers.
Context `{Unicode}.

(** [_GITHUB_NAME_RE], matched in full. *)
Definition github_tail (c : N) : bool := ascii_alnum c || one_of #"_.-" c.
Definition _check_github_name (value : pystr) : bool :=
  match value with c :: s => ascii_alnum c && forallb github_tail s | [] => false end.

(** The items of the answer are validated: a name of 1 to 100 characters. *)
Definition ValidationError : exn_class := LibraryError #"ValidationError".
Fixpoint sync_items (items : list RegistrySyncItemDTO) : res (list RegistrySyncItemDTO) :=
  match items with
  | [] => Ok []
  | item :: items =>
      if (1 <=? length (ri_pack_id item))%nat && (length (ri_pack_id item) <=? 100)%nat
      then items ← sync_items items; Ok (item :: items)
      else raise ValidationError #"validation error"
  end.
Definition http_error (status : Z) (exc : exn) : exn := HTTPException status (exn_msg exc).
Definition not_found_handler {A} (p : prog A) : prog A :=
  try_except p (fun exc => if isinstance (exn_type exc) RegistryNotFoundError then Some (lift (Raise (http_error 404 exc))) else None).
Definition create_handler (data : RegistryCreateDTO) : prog RegistryViewDTO :=
  try_except (create {| rc_owner := rc_owner data; rc_name := rc_name data; rc_github_token := rc_github_token data;
                        rc_default_branch := match rc_default_branch data with [] => #"main" | branch => branch end |})
    (fun exc => if isinstance (exn_type exc) RegistryConflictError then Some (lift (Raise (http_error 409 exc))) else None).
Definition get_handler (id : uuid) : prog RegistryViewDTO := not_found_handler (get id).
Definition patch_handler (id : uuid) (data : RegistryUpdateDTO) : prog RegistryViewDTO :=
  try_except (not_found_handler (patch id data))
    (fun exc => if isinstance (exn_type exc) RegistryConflictError then Some (lift (Raise (http_error 409 exc))) else None).
Definition delete_handler (id : uuid) : prog unit := not_found_handler (delete id).
Definition sync_handler `{PyFloat} (with_source : bool) (id : uuid) : prog (Z * RegistrySyncResultDTO) :=
  result ← not_found_handler (sync_registry with_source id);
  let status := if (0 <? rs_failed result)%Z && (0 <? rs_succeeded result)%Z then 207%Z else 200%Z in
  items ← lift (sync_items (rs_results result));
  mret (status, {| rs_registry_id := rs_registry_id result; rs_total := rs_total result; rs_succeeded := rs_succeeded result;
                   rs_failed := rs_failed result; rs_results := items |}).
End handlers.
