(* ===== verification/RegistrySpec.v ===== *)
(** * Template registries: properties

    What a read of a repository can return, the outcome of a synchronization over the
    tables of packs, and the secrecy and the round trip of the tokens of registries. *)
From S2P Require Import Prelude PyStr Errors Json Bytes Effects Stable Stateful Dto Codec Assets Packs PackSpec PackInv GitHub Registries.

(** ** Reading a repository *)

Section reading.
Context `{Unicode} `{PyFloat} (owner repo branch : pystr) (recursion_limit : nat).

Local Abbreviation history := (@history github_signature).

(** A list of entries that was answered has one of this name. *)
Definition listed (h : history) (name : pystr) : Prop :=
  exists c r entries entry, existT c (Ok r) ∈ h /\ gr_json r = Ok (JArr entries) /\ JObj entry ∈ entries /\ entry_name entry = name.
(** The segments of a path: fixed names, and listed ones. *)
Definition fixed_names : list pystr := [ #"manifest.json"; #"commands.json"; #"scripts.json"; #"README.md"; #"assets"].
Definition segment (h : history) (name : pystr) : Prop := name ∈ fixed_names \/ listed h name.
Definition slashed (names : list pystr) : pystr := flat_map (fun name => #"/" ++ name) names.
(** The path of such segments below [templates]. *)
Definition under (h : history) (path : pystr) : Prop :=
  exists names, path = TEMPLATES_ROOT ++ slashed names /\ Forall (segment h) names.
(** The requests: of the repository itself, or of such a path. *)
Definition reads_templates (h : history) (c : github_call) : Prop :=
  c = Get (#"/repos/" ++ owner ++ #"/" ++ repo) None \/
  exists path, under h path /\ c = Get (#"/repos/" ++ owner ++ #"/" ++ repo ++ #"/contents/" ++ path) (Some branch).

Definition asset_bytes (a : FetchedAsset) : Z := Z.of_nat (length (fa_content a)).
Definition asset_bounded (h : history) (a : FetchedAsset) : Prop :=
  (asset_bytes a <= MAX_ASSET_BYTES)%Z /\
  exists names, names <> [] /\ fa_path a = #"assets" ++ slashed names /\ Forall (listed h) names.
Definition assets_bytes (l : list FetchedAsset) : Z := foldr Z.add 0%Z (asset_bytes <$> l).
Definition assets_bounded (h : history) (l : list FetchedAsset) : Prop :=
  length l <= MAX_ASSET_FILES /\ Forall (asset_bounded h) l /\ (assets_bytes l <= MAX_PACK_ASSETS_BYTES)%Z.

Lemma listed_later h k name : listed h name -> listed (h ++ k) name.
Proof. intros (c & r & l & e & Hin & Hl). exists c, r, l, e. split; [|done]. apply elem_of_app. by left. Qed.
Lemma segment_later h k name : segment h name -> segment (h ++ k) name.
Proof. intros [?|?]; [by left|right]. by apply listed_later. Qed.
Lemma under_later h k path : under h path -> under (h ++ k) path.
Proof.
  intros (names & -> & Hall). exists names. split; [done|]. eapply Forall_impl; [exact Hall|]. intros name. apply segment_later.
Qed.
Lemma reads_later h k c : reads_templates h c -> reads_templates (h ++ k) c.
Proof. intros [?|(path & Hp & ->)]; [by left|right]. exists path. split; [by apply under_later|done]. Qed.
Lemma assets_later h k l : assets_bounded h l -> assets_bounded (h ++ k) l.
Proof.
  intros (Hl & Ha & Hb). split_and!; [done| |done]. eapply Forall_impl; [exact Ha|].
  intros a (Hs & names & Hne & Hp & Hn). split; [done|]. exists names. split_and!; [done|done|].
  eapply Forall_impl; [exact Hn|]. intros name. apply listed_later.
Qed.

Lemma under_root h : under h TEMPLATES_ROOT.
Proof. exists []. by rewrite app_nil_r. Qed.
Lemma slashed_app l k : slashed (l ++ k) = slashed l ++ slashed k.
Proof. apply flat_map_app. Qed.
Lemma under_snoc h path name : under h path -> segment h name -> under h (path ++ #"/" ++ name).
Proof.
  intros (names & -> & Hall) Hn. exists (names ++ [name]). rewrite slashed_app, <- app_assoc. split; [cbn; by rewrite app_nil_r|].
  apply Forall_app. by split; [|apply Forall_singleton].
Qed.
(** The prefix of a walk: directories, each with a slash. *)
Definition directories (names : list pystr) : pystr := flat_map (fun name => name ++ #"/") names.
Lemma directories_path base names name :
  base ++ #"/" ++ directories names ++ name = base ++ slashed (names ++ [name]).
Proof.
  revert base. induction names as [|n names IH]; intros base; [cbn; by rewrite app_nil_r|].
  specialize (IH (base ++ #"/" ++ n)). cbn [directories slashed flat_map app] in *. unfold directories, slashed in IH.
  rewrite <- !app_assoc in *. exact IH.
Qed.
Lemma under_walk h path names name : under h path -> Forall (segment h) names -> segment h name ->
  under h (path ++ #"/" ++ directories names ++ name).
Proof.
  intros (ns & -> & Hns) Hall Hn. rewrite directories_path. exists (ns ++ names ++ [name]). rewrite !slashed_app, <- app_assoc.
  split; [done|]. rewrite !Forall_app. split_and!; [done|done|by apply Forall_singleton].
Qed.

(** Whatever is answered, [p] only reads templates, and what it returns satisfies [Q]. *)
Definition sound {A} (h : history) (Q : history -> A -> Prop) (p : @prog github_signature A) : Prop :=
  @gwp github_signature A p h reads_templates (fun h' r => match r with Ok a => Q h' a | Raise _ => True end).

Lemma sound_bind {A B} h (Q : history -> A -> Prop) (R : history -> B -> Prop) p (f : A -> @prog github_signature B) :
  sound h Q p -> (forall k a, Q (h ++ k) a -> sound (h ++ k) R (f a)) -> sound h R (p ≫= f).
Proof.
  intros Hp Hf. apply gwp_bind. eapply gwp_mono; [apply gwp_extends, Hp|]. intros h' [a|e] [HQ [k ->]]; [by apply Hf|done].
Qed.
Lemma sound_ret {A} h (Q : history -> A -> Prop) a : (forall k, Q (h ++ k) a) -> sound h Q (mret a).
Proof. by intros Ha k. Qed.
Lemma sound_lift {A} h (Q : history -> A -> Prop) r : (forall k a, r = Ok a -> Q (h ++ k) a) -> sound h Q (lift r).
Proof. intros Ha k. destruct r; auto. Qed.
Lemma sound_error {A} h (Q : history -> A -> Prop) msg : sound h Q (domain_error msg).
Proof. by intros k. Qed.

(** The response of a request was answered. *)
Definition answered (h : history) (r : github_response) : Prop := exists c, existT c (Ok r) ∈ h.
Lemma sound_response h url ref what : reads_templates h (Get url ref) -> sound h answered (get_response url ref what).
Proof.
  intros Hr. apply gwp_try, gwp_perform; [intros k; by apply reads_later|]. intros k k' [r|e].
  - exists (Get url ref). rewrite !elem_of_app. left. right. by left.
  - by destruct (isinstance _ _).
Qed.
Local Abbreviation contents := (_contents owner repo branch).
Local Abbreviation fetch_file := (_fetch_file owner repo branch).

(** The objects of a list have listed names. *)
Definition entry_listed (h : history) (v : json) : Prop := match v with JObj entry => listed h (entry_name entry) | _ => True end.
Definition entries_listed (h : history) (v : json) : Prop := match v with JArr l => Forall (entry_listed h) l | _ => True end.
Lemma entries_later h k l : Forall (entry_listed h) l -> Forall (entry_listed (h ++ k)) l.
Proof. intros Hl. eapply Forall_impl; [exact Hl|]. intros []; try done. apply listed_later. Qed.
Lemma answered_entries h r v : answered h r -> gr_json r = Ok v -> entries_listed h v.
Proof.
  intros [c Hc] Hv. destruct v as [| | | | |l|]; try done. apply Forall_forall. intros [] Hin; try done.
  by exists c, r, l, kvs.
Qed.

Lemma sound_contents h path : under h path ->
  sound h (fun h' payload => match payload with Some v => entries_listed h' v | None => True end) (contents path).
Proof.
  intros Hp. eapply sound_bind.
  - apply sound_response. right. exists path. split; [done|]. unfold contents_url, repository. by rewrite <- !app_assoc.
  - intros k r Hr. destruct (gr_status r =? 404)%Z; [by apply sound_ret|]. destruct (gr_status r =? 401)%Z; [apply sound_error|].
    destruct (gr_status r =? 403)%Z; [apply sound_error|]. destruct (400 <=? gr_status r)%Z; [apply sound_error|].
    destruct (gr_json r) as [v|e] eqn:Ej; [|destruct (isinstance _ _); [apply sound_error|by apply sound_lift]].
    pose proof (answered_entries _ _ _ Hr Ej) as Hv.
    destruct v; try (by apply sound_ret). apply sound_ret. intros k'. by apply entries_later.
Qed.
Lemma sound_file h path : under h path -> sound h (fun _ _ => True) (fetch_file path).
Proof.
  intros Hp. eapply sound_bind; [by apply sound_contents|]. intros k payload _. unfold file_of.
  repeat case_match; try apply sound_error; by apply sound_ret.
Qed.

(** *** Assets *)

Definition found_ok (h : history) (acc : found) : Prop := assets_bounded h acc.1 /\ acc.2 = assets_bytes acc.1.
Lemma found_later h k acc : found_ok h acc -> found_ok (h ++ k) acc.
Proof. intros [Ha Ht]. split; [by apply assets_later|done]. Qed.
Lemma assets_bytes_snoc l a : assets_bytes (l ++ [a]) = (assets_bytes l + asset_bytes a)%Z.
Proof. unfold assets_bytes. rewrite fmap_app. induction (asset_bytes <$> l) as [|x xs IH]; cbn in *; lia. Qed.
Lemma listed_segments h names : Forall (listed h) names -> Forall (segment h) names.
Proof. intros Hl. eapply Forall_impl; [exact Hl|]. intros name. by right. Qed.

Lemma sound_add_file h path names name acc : under h path -> Forall (listed h) names -> listed h name -> found_ok h acc ->
  sound h found_ok (add_file owner repo branch path (directories names ++ name) acc).
Proof.
  intros Hp Hns Hn Hacc. destruct acc as [l total]. unfold add_file.
  destruct (Nat.leb_spec MAX_ASSET_FILES (length l)); [apply sound_error|].
  eapply sound_bind; [apply sound_file, under_walk; [done|by apply listed_segments|by right]|].
  intros k [[raw sha]|] _; [|apply sound_ret; intros k'; rewrite <- app_assoc; by apply found_later].
  cbn zeta. destruct (Z.ltb_spec MAX_ASSET_BYTES (Z.of_nat (length raw))); [apply sound_error|].
  destruct (Z.ltb_spec MAX_PACK_ASSETS_BYTES (total + Z.of_nat (length raw))); [apply sound_error|].
  apply sound_ret. intros k'. rewrite <- app_assoc. apply found_later. destruct Hacc as [(Hl & Ha & Hb) Ht]. cbn [fst snd] in *.
  unfold found_ok, assets_bounded. cbn [fst snd]. rewrite assets_bytes_snoc, length_app, Forall_app. subst total.
  split_and!; try done; [cbn; lia|]. apply Forall_singleton. split; [done|]. exists (names ++ [name]). split_and!.
  - by destruct names.
  - cbn [fa_path]. rewrite <- directories_path. done.
  - apply Forall_app. by split; [|apply Forall_singleton].
Qed.

Lemma sound_walk h depth path items names acc : under h path -> Forall (entry_listed h) items -> Forall (listed h) names -> found_ok h acc ->
  sound h found_ok (GitHub.walk owner repo branch depth path items (directories names) acc).
Proof.
  revert h items names acc. induction depth as [|depth IH]; intros h items names acc Hp Hi Hns Hacc; [by intros k|].
  cbn [GitHub.walk]. revert h Hp Hi Hns acc Hacc. induction items as [|v items IHitems]; intros h Hp Hi Hns acc Hacc.
  { apply sound_ret. intros k. by apply found_later. }
  apply Forall_cons in Hi as [Hv Hi]. destruct v; try (by apply IHitems).
  eapply (sound_bind _ found_ok).
  2: { intros k acc' Hacc'. apply IHitems; [by apply under_later|by apply entries_later|eapply Forall_impl; [exact Hns|]; intros; by apply listed_later|done]. }
  destruct (has_type _ #"dir").
  - eapply sound_bind; [apply sound_contents, under_walk; [done|by apply listed_segments|by right]|].
    intros k payload Hpay. assert (found_ok (h ++ k) acc) as Hacc' by by apply found_later.
    destruct payload as [[]|]; try (apply sound_ret; intros k'; by apply found_later).
    replace (directories names ++ entry_name kvs ++ #"/") with (directories (names ++ [entry_name kvs]))
      by (unfold directories; rewrite flat_map_app; cbn; by rewrite app_nil_r).
    apply IH; [by apply under_later|done| |done]. apply Forall_app. split; [|apply Forall_singleton; by apply listed_later].
    eapply Forall_impl; [exact Hns|]. intros; by apply listed_later.
  - destruct (has_type _ _); [by apply sound_add_file|]. apply sound_ret. intros k. by apply found_later.
Qed.
Lemma no_assets_bounded h : assets_bounded h [].
Proof. split_and!; [cbn; lia|constructor|]. unfold assets_bytes, MAX_PACK_ASSETS_BYTES. cbn. lia. Qed.
Lemma sound_assets h path : under h path ->
  sound h assets_bounded (_fetch_assets owner repo branch recursion_limit path).
Proof.
  intros Hp. eapply sound_bind; [by apply sound_contents|].
  intros k payload Hpay. destruct payload as [[]|]; try (apply sound_ret; intros; apply no_assets_bounded). eapply sound_bind.
  - apply (sound_walk (h ++ k) recursion_limit path _ []); [by apply under_later|done|constructor|]. split; [apply no_assets_bounded|done].
  - intros k' [l total] [Hl _]. apply sound_ret. intros k2. by apply assets_later.
Qed.

(** *** Packs *)

Definition pack_bounded (h : history) (p : FetchedPack) : Prop := listed h (fp_dirname p) /\ assets_bounded h (fp_assets p).
Lemma pack_later h k p : pack_bounded h p -> pack_bounded (h ++ k) p.
Proof. intros [Hn Ha]. split; [by apply listed_later|by apply assets_later]. Qed.
Lemma sound_list h root dirname name : under h root -> segment h name ->
  sound h (fun _ _ => True) (optional_list owner repo branch root dirname name).
Proof.
  intros Hp Hn. eapply sound_bind; [by apply sound_file, under_snoc|]. intros k [[raw sha]|] _; [|by apply sound_ret].
  unfold _parse_json_list. repeat case_match; try apply sound_error. by apply sound_ret.
Qed.
Lemma fixed_segment h name : bool_decide (name ∈ fixed_names) = true -> segment h name.
Proof. intros Hn%bool_decide_eq_true. by left. Qed.
Lemma sound_pack h dirname : listed h dirname ->
  sound h (fun h' p => match p with Some p => pack_bounded h' p | None => True end) (_fetch_pack owner repo branch recursion_limit dirname).
Proof.
  intros Hd. assert (under h (TEMPLATES_ROOT ++ #"/" ++ dirname)) as Hp by (apply under_snoc; [apply under_root|by right]).
  unfold _fetch_pack. cbn zeta. eapply sound_bind; [apply sound_file, (under_snoc h _ #"manifest.json"); [done|by apply fixed_segment]|].
  intros k1 [[raw sha]|] _; [|by apply sound_ret]. destruct (loads_utf8 raw) as [[]|]; try apply sound_error.
  apply (under_later h k1) in Hp.
  eapply sound_bind; [by apply sound_list; [|apply fixed_segment]|]. intros k2 commands _. apply (under_later _ k2) in Hp.
  eapply sound_bind; [by apply sound_list; [|apply fixed_segment]|]. intros k3 scripts _. apply (under_later _ k3) in Hp.
  eapply sound_bind; [apply sound_file, (under_snoc _ _ #"README.md"); [done|by apply fixed_segment]|]. intros k4 readme _.
  apply (under_later _ k4) in Hp.
  eapply sound_bind; [apply sound_assets, (under_snoc _ _ #"assets"); [done|by apply fixed_segment]|]. intros k5 assets Ha.
  apply sound_ret. intros k6. split; [by repeat apply listed_later|]. by apply assets_later.
Qed.
Definition packs_bounded (h : history) (l : list FetchedPack) : Prop := length l <= MAX_PACKS_PER_SYNC /\ Forall (pack_bounded h) l.
Lemma packs_later h k l : packs_bounded h l -> packs_bounded (h ++ k) l.
Proof. intros [Hl Ha]. split; [done|]. eapply Forall_impl; [exact Ha|]. intros p. apply pack_later. Qed.
Lemma no_packs h : packs_bounded h [].
Proof. split; [cbn; lia|constructor]. Qed.
Lemma sound_entries h entries packs : Forall (entry_listed h) entries -> packs_bounded h packs ->
  sound h packs_bounded (fetch_entries owner repo branch recursion_limit entries packs).
Proof.
  revert h packs. induction entries as [|v entries IH]; intros h packs Hv Hp; cbn [fetch_entries].
  { apply sound_ret. intros k. by apply packs_later. }
  apply Forall_cons in Hv as [Hv Hvs]. destruct v; try (by apply IH). destruct (has_type _ _); [|by apply IH].
  destruct (Nat.leb_spec MAX_PACKS_PER_SYNC (length packs)); [apply sound_ret; intros k; by apply packs_later|].
  eapply sound_bind; [by apply sound_pack|]. intros k [p|] Hb; [|apply IH; [by apply entries_later|by apply packs_later]].
  apply IH; [by apply entries_later|]. destruct (packs_later h k _ Hp) as [Hl Hall].
  split; [rewrite length_app; cbn; lia|]. apply Forall_app. by split; [|apply Forall_singleton].
Qed.

Lemma grows_reads h h' : grows reads_templates h h' -> exists k, h' = h ++ k /\ Forall (reads_templates h') (@calls github_signature k).
Proof.
  induction 1 as [|h' ev _ (k & -> & Hk) Hc]; [exists []; by rewrite app_nil_r|].
  exists (k ++ [ev]). rewrite app_assoc. split; [done|]. unfold calls. rewrite fmap_app. apply Forall_app. split.
  - eapply Forall_impl; [exact Hk|]. intros c'. apply reads_later.
  - apply Forall_singleton. by apply reads_later.
Qed.

(** C33: whatever the server of a repository answers, reading its packs only asks for the
    repository and, on the branch of the registry, for paths of segments below its templates,
    where each segment is one of the fixed names or a name that the server listed - names that
    the code does not check, so that one such as .. leads elsewhere; and when it returns, there
    are at most 200 packs, each in a directory that was listed, with at most 100 files of at
    most a mebibyte and ten mebibytes together, whose paths are listed names below assets. *)
Theorem fetched_packs_bounded (o : @oracle github_signature) :
  let '(r, h) := @run github_signature _ o (fetch_packs owner repo branch recursion_limit) [] in
  Forall (reads_templates h) (@calls github_signature h) /\ match r with Ok packs => packs_bounded h packs | Raise _ => True end.
Proof.
  assert (sound [] packs_bounded (fetch_packs owner repo branch recursion_limit)) as Hs.
  { eapply sound_bind; [apply sound_contents, under_root|]. intros k [entries|] He.
    - eapply (sound_bind _ (fun h l => Forall (entry_listed h) l)).
      + apply sound_lift. intros k' l. unfold py_list. destruct entries; try done; intros [= <-]; [| by apply entries_later|];
          apply Forall_fmap, Forall_true; done.
      + intros k' l Hl. apply sound_entries; [done|apply no_packs].
    - eapply (sound_bind _ (fun _ _ => True)); [|intros k' [|] _; [apply sound_ret; intros; apply no_packs|apply sound_error]].
      eapply sound_bind; [apply sound_response; by left|]. intros k' r _.
      repeat case_match; try apply sound_error; by apply sound_ret. }
  pose proof (gwp_run _ o [] _ _ Hs) as Hr. destruct (@run github_signature _ _ _ _) as [r h]. destruct Hr as [Hr Hg].
  apply grows_reads in Hg as (k & -> & Hk). by split.
Qed.
End reading.

(** ** The assets of packs *)

Section owned.
Context `{Unicode} `{PyFloat} `{PackColumns}.

(** Every asset belongs to a pack that was created. *)
Definition assets_owned (s : store) : Prop := forall a, a ∈ (st_assets s).*2 -> (as_pack_id a < st_next s)%N.

Lemma owned_same s s' : st_assets s' = st_assets s -> (st_next s <= st_next s')%N -> assets_owned s -> assets_owned s'.
Proof. intros Ha Hn Ho a. rewrite Ha. intros Hin. specialize (Ho a Hin). lia. Qed.
Lemma owned_filter s s' f : st_assets s' = List.filter f (st_assets s) -> st_next s' = st_next s -> assets_owned s -> assets_owned s'.
Proof.
  intros Ha Hn Ho a. rewrite Ha, Hn, elem_snd. intros (k & [Hin _]%elem_filter). apply Ho, elem_snd. by exists k.
Qed.

(** The files of a pack, in the order they were written. *)
Definition file : Type := pystr * pystr * Z.
Definition file_of (a : asset_row) : file := (as_path a, as_content a, as_size a).
Definition files_of (id : uuid) (s : store) : list file :=
  file_of <$> List.filter (fun a => bool_decide (as_pack_id a = id)) (st_assets s).*2.
Definition stored_file (d : PackAssetCreateDTO * bytes) : file := (pa_path d.1, stored_content d.2, Z.of_nat (length d.2)).
(** The first refusal of a column. *)
Definition files_refused (decoded : list (PackAssetCreateDTO * bytes)) : option exn :=
  head (omap (fun d : PackAssetCreateDTO * bytes => asset_refused (pa_path d.1) (stored_content d.2)) decoded).

(** Writing files that were accepted, for a pack without files. *)
Lemma write_assets_spec id decoded s :
  NoDup (pa_path <$> decoded.*1) -> Forall (fun d => b64decode_validate (pa_content_base64 d.1) = Ok d.2) decoded ->
  (forall a, a ∈ (st_assets s).*2 -> as_pack_id a = id -> as_path a ∉ (pa_path <$> decoded.*1)) ->
  match files_refused decoded with
  | Some e => write_assets_in_session id (decoded.*1) s = Raise e
  | None => exists rows n, write_assets_in_session id (decoded.*1) s = Ok (set_assets (set_next s n) (st_assets s ++ rows)) /\
      (st_next s <= n)%N /\ file_of <$> rows.*2 = stored_file <$> decoded /\ Forall (fun a => as_pack_id a = id) rows.*2
  end.
Proof.
  revert s. induction decoded as [|[asset raw] decoded IH]; intros s Hnd Hb Hfree; rewrite ?fmap_cons; cbn [write_assets_in_session fst].
  { exists [], (st_next s). rewrite app_nil_r. split_and!; [by destruct s|lia|done|constructor]. }
  apply Forall_cons in Hb as [Hb Hbs]. rewrite !fmap_cons in Hnd, Hfree. apply NoDup_cons in Hnd as [Hnew Hnd].
  cbn [fst snd] in *. rewrite Hb.
  destruct (existsb _ _) eqn:Ex.
  { apply existsb_exists in Ex as ([k a] & Hin%list_elem_of_In & Hp). cbn in Hp. apply andb_true_iff in Hp as [Hp Hq].
    apply bool_decide_eq_true in Hp, Hq. exfalso. apply (Hfree a); [apply elem_snd; by exists k|done|]. rewrite Hq. by left. }
  unfold files_refused in *. cbn [omap list_omap fst snd]. destruct (asset_refused (pa_path asset) (stored_content raw)); [done|].
  cbn zeta. match goal with |- context [write_assets_in_session _ _ ?x] => set (s1 := x) end.
  specialize (IH s1 Hnd Hbs). destruct (head _); [apply IH|destruct IH as (rows & n & Hw & Hn & Hr & Hall)].
  1, 2: intros a; unfold s1; cbn; rewrite fmap_app; intros [Hin| ->%list_elem_of_singleton]%elem_of_app; [|done];
    intros Ha Hpath; apply (Hfree a Hin Ha); by right.
  eexists (_ :: rows), n. rewrite Hw. unfold s1 in Hn |- *. cbn in Hn |- *. rewrite <- app_assoc. split; [done|]. split; [lia|].
  split; [by f_equal|]. by constructor.
Qed.
(** Whether it succeeds or not, later packs are not given files. *)
Lemma write_assets_owned id assets s s' : assets_owned s -> (id < st_next s)%N ->
  write_assets_in_session id assets s = Ok s' -> assets_owned s'.
Proof.
  revert s. induction assets as [|asset assets IH]; intros s Ho Hid; cbn [write_assets_in_session]; [by intros [= <-]|].
  destruct (b64decode_validate _) as [raw|e]; [|done]. destruct (existsb _ _); [done|]. destruct (asset_refused _ _); [done|]. apply IH; [|cbn; lia].
  intros a. cbn. rewrite fmap_app. intros [Hin| ->%list_elem_of_singleton]%elem_of_app; [|cbn; lia].
  specialize (Ho a Hin). lia.
Qed.

Lemma owned_create data now s : assets_owned s -> assets_owned (create_pack data now s).2.
Proof.
  intros Ho. unfold create_pack, transaction. cbn zeta.
  destruct (validate_pack_id _;; _) as [[[commands scripts] decoded]|e]; [|done].
  destruct (_duplicate_exists _ _ _); [done|]. destruct (row_refused _); [done|].
  destruct (write_assets_in_session _ _ _) as [s'|e] eqn:Ew; [|done]. cbn [mbind res_bind snd].
  apply write_assets_owned in Ew; [done| |cbn; lia]. apply (owned_same s); [done|cbn; lia|done].
Qed.
Lemma find_below registry_id pack_id s id p : store_inv s ->
  List.find (fun kv => same_identity registry_id pack_id kv.2) (st_packs s) = Some (id, p) -> (id < st_next s)%N.
Proof.
  intros Hs Hf. apply find_some in Hf as [Hin%list_elem_of_In _]. destruct (si_packs s Hs) as [_ Hb].
  apply Hb, list_elem_of_fmap. by exists (id, p).
Qed.
Lemma owned_sync data now s : store_inv s -> assets_owned s -> assets_owned (upsert_synced_pack data now s).2.
Proof.
  intros Hs Ho. unfold upsert_synced_pack, transaction. cbn zeta.
  destruct (validate_pack_id _;; _) as [decoded|e]; [|done].
  destruct (List.find _ _) as [[id p]|] eqn:Ef.
  - case_bool_decide; [done|]. destruct (row_refused _); [done|]. destruct (write_assets_in_session _ _ _) as [s'|e] eqn:Ew; [|done]. cbn [mbind res_bind snd].
    apply write_assets_owned in Ew; [done| |by apply find_below in Ef].
    by eapply owned_filter.
  - destruct (row_refused _); [done|]. destruct (write_assets_in_session _ _ _) as [s'|e] eqn:Ew; [|done]. cbn [mbind res_bind snd].
    apply write_assets_owned in Ew; [done| |cbn; lia]. apply (owned_same s); [done|cbn; lia|done].
Qed.
Lemma owned_uninstall s id p now : assets_owned s -> assets_owned (_uninstall_in_session id p now s).
Proof. intros Ho. unfold _uninstall_in_session. rewrite drop_links_eq. by eapply owned_same. Qed.

Context (command_refused : command_row -> option exn) (script_refused : script_row -> option exn).
Lemma owned_install id p mode now s result s' :
  _install_in_session command_refused script_refused id p mode now s = Ok (result, s') -> assets_owned s -> assets_owned s'.
Proof.
  intros (_ & cs & ss & -> & _)%install_in_rows. apply owned_same; [done|]. unfold installed_store. cbn [st_next].
  etransitivity; [apply (le_after _ cs)|]. etransitivity; [apply (le_after _ ss)|]. apply le_after.
Qed.
Lemma owned_run_op op now s : store_inv s -> assets_owned s -> assets_owned (run_op command_refused script_refused op now s).
Proof.
  intros Hs Ho. destruct op; cbn [run_op].
  - by apply owned_create.
  - by apply owned_sync.
  - unfold patch_pack, transaction, with_pack. destruct (dict_get _ _); [|done]. destruct (row_refused _); [done|]. by eapply owned_same.
  - unfold install_pack, transaction, with_pack. destruct (dict_get _ _); [|done].
    destruct (_install_in_session _ _ _ _ _ _ _) as [[result s']|e] eqn:E; [|done]. by eapply owned_install.
  - unfold uninstall_pack, transaction, with_pack. destruct (dict_get _ _); [|done]. by apply owned_uninstall.
  - unfold update_pack, transaction, with_pack. destruct (dict_get _ _); [|done].
    destruct (_install_in_session _ _ _ _ _ _ _) as [[result s']|e] eqn:E; [|done].
    eapply owned_install; [exact E|]. by apply owned_uninstall.
  - unfold delete_pack, transaction, with_pack. destruct (dict_get _ _) as [p|]; [|done].
    eapply (owned_filter (_uninstall_in_session pack_id p now s)); [done..|]. by apply owned_uninstall.
  - unfold detach_registry, transaction. case_bool_decide; [|done]. by eapply owned_same.
  - unfold transaction. destruct (insert_command _ _ _ _) as [s'|e] eqn:E; [|done]. cbn [mbind res_bind snd].
    apply insert_command_ok in E as (-> & _). apply (owned_same s); [done|cbn; lia|done].
  - by eapply owned_same.
  - unfold transaction. destruct (insert_script _ _ _ _) as [s'|e] eqn:E; [|done]. cbn [mbind res_bind snd].
    apply insert_script_ok in E as (-> & _). apply (owned_same s); [done|cbn; lia|done].
  - by eapply owned_same.
Qed.
Lemma owned_history ops : assets_owned (run_history command_refused script_refused ops).
Proof.
  unfold run_history. induction ops as [|op ops IH] using rev_ind; [by intros a ?%elem_of_nil|].
  rewrite fold_left_app. apply owned_run_op; [|done]. apply (inv_history command_refused script_refused).
Qed.
End owned.

(** ** Synchronizing *)

Section syncing.
Context `{Unicode} `{PyFloat} `{PackColumns}.
Local Abbreviation find_pack rid pid s := (List.find (fun kv => same_identity rid pid kv.2) (st_packs s)).

(** A pack of a registry, with its identifier and its files, if it is stored. *)
Definition shown (rid : option uuid) (pid : pystr) (s : store) : option (uuid * pack * list file) :=
  (fun kv : uuid * pack => (kv.1, kv.2, files_of kv.1 s)) <$> find_pack rid pid s.
(** What is to be stored of a fetched pack, with the bytes of its files, if it is accepted. *)
Definition acceptable (data : SyncedPackDTO) : res (list (PackAssetCreateDTO * bytes)) :=
  validate_pack_id (mf_pack_id (sy_manifest data));; _decode_assets (sy_assets data).
Definition accepted (registry_id : uuid) (pack : FetchedPack) : res (SyncedPackDTO * list (PackAssetCreateDTO * bytes)) :=
  data ← synced_pack registry_id pack; decoded ← acceptable data; Ok (data, decoded).
(** What the columns say to it. *)
Definition refusal (data : SyncedPackDTO) (decoded : list (PackAssetCreateDTO * bytes)) : option exn :=
  match pack_refused (sy_manifest data) (sy_readme data) (sy_commands data) (sy_scripts data) with
  | Some e => Some e
  | None => files_refused decoded
  end.

(** The row [p] has the content of a fetched pack. *)
Definition has_content (data : SyncedPackDTO) (p : pack) : Prop :=
  let m := sy_manifest data in
  pk_registry_id p = Some (sy_registry_id data) /\ pk_pack_id p = mf_pack_id m /\ pk_name p = mf_name m /\ pk_version p = mf_version m
  /\ pk_description p = mf_description m /\ pk_author p = mf_author m /\ pk_tags p = mf_tags m
  /\ pk_manifest_sha p = mf_manifest_sha m /\ pk_readme p = sy_readme data
  /\ pk_commands p = sy_commands data /\ pk_scripts p = sy_scripts data.
(** It is as much installed as before. *)
Definition as_installed (p p' : pack) : Prop :=
  pk_installed_version p' = pk_installed_version p /\ pk_installed_at p' = pk_installed_at p /\ pk_created_at p' = pk_created_at p.

(** The outcome for one pack: nothing if it is stored in this version, or if a column refuses
    it; and otherwise its row, with its content, and its files. *)
Definition upserted (data : SyncedPackDTO) (decoded : list (PackAssetCreateDTO * bytes))
    (before : option (uuid * pack * list file)) (r : res sync_outcome) (now_shown : option (uuid * pack * list file)) : Prop :=
  match before with
  | Some (id, p, _) =>
      if bool_decide (pk_manifest_sha p = mf_manifest_sha (sy_manifest data)) then r = Ok Unchanged /\ now_shown = before
      else match refusal data decoded with
           | Some e => r = Raise e /\ now_shown = before
           | None => r = Ok Updated /\ exists p', now_shown = Some (id, p', stored_file <$> decoded) /\ has_content data p' /\ as_installed p p'
           end
  | None =>
      match refusal data decoded with
      | Some e => r = Raise e /\ now_shown = None
      | None => r = Ok Created /\ exists id p', now_shown = Some (id, p', stored_file <$> decoded) /\ has_content data p'
          /\ pk_installed_version p' = None
      end
  end.
(** The tables that hold what is installed. *)
Definition same_rows (s s' : store) : Prop :=
  st_commands s' = st_commands s /\ st_scripts s' = st_scripts s /\ st_links s' = st_links s.

Lemma same_identity_spec rid pid p : same_identity rid pid p = true <-> pk_registry_id p = rid /\ pk_pack_id p = pid.
Proof. unfold same_identity, str_eqb. by rewrite andb_true_iff, !bool_decide_eq_true. Qed.

Lemma find_set_same (f : uuid * pack -> bool) d id p p' : List.find f d = Some (id, p) -> f (id, p') = true ->
  dict_get d id = Some p -> List.find f (dict_set d id p') = Some (id, p').
Proof.
  intros Hf Hp'. induction d as [|[k q] d IH]; [done|]. cbn in *. case_decide as E.
  - subst k. intros [= ->]. cbn. by rewrite Hp'.
  - intros Hg. cbn. destruct (f (k, q)); [congruence|]. by apply IH.
Qed.
Lemma find_set_other (f : uuid * pack -> bool) d id p p' : dict_get d id = Some p -> f (id, p) = false -> f (id, p') = false ->
  List.find f (dict_set d id p') = List.find f d.
Proof.
  intros Hg Hp Hp'. induction d as [|[k q] d IH]; [done|]. cbn in *. case_decide as E.
  - subst k. injection Hg as ->. cbn. by rewrite Hp, Hp'.
  - cbn. destruct (f (k, q)); [done|]. by apply IH.
Qed.
Lemma find_app {A} (f : A -> bool) l k : List.find f (l ++ k) = match List.find f l with Some x => Some x | None => List.find f k end.
Proof. induction l as [|x l IH]; [done|]. cbn. by destruct (f x). Qed.

Lemma acceptable_ok data decoded : acceptable data = Ok decoded ->
  decoded.*1 = sy_assets data /\ NoDup (pa_path <$> decoded.*1) /\
  Forall (fun d => b64decode_validate (pa_content_base64 d.1) = Ok d.2) decoded.
Proof.
  unfold acceptable. intros (x & _ & Hd)%bind_ok. unfold _decode_assets in Hd.
  destruct (_ <? _); [done|]. destruct (decode_loop_spec [] 0 (sy_assets data)) as [Hok _].
  apply Hok in Hd as (Hfst & Hnd & _ & Hall & _). rewrite Hfst. split_and!; [done|by rewrite <- Hfst|].
  eapply Forall_impl; [exact Hall|]. by intros [a raw] (_ & Hb & _).
Qed.

(** What holds of the tables while packs are synchronized. *)
Definition sync_inv (s : store) : Prop := store_inv s /\ assets_owned s.

Lemma files_of_same id s s' : st_assets s' = st_assets s -> files_of id s' = files_of id s.
Proof. unfold files_of. by intros ->. Qed.
Lemma files_of_app id s s' rows : (st_assets s').*2 = (st_assets s).*2 ++ rows ->
  files_of id s' = files_of id s ++ (file_of <$> List.filter (fun a => bool_decide (as_pack_id a = id)) rows).
Proof. unfold files_of. intros ->. by rewrite List.filter_app, fmap_app. Qed.
Lemma filter_owner id (rows : list asset_row) : Forall (fun a => as_pack_id a = id) rows ->
  List.filter (fun a => bool_decide (as_pack_id a = id)) rows = rows /\
  forall j, j <> id -> List.filter (fun a => bool_decide (as_pack_id a = j)) rows = [].
Proof.
  intros Hall. rewrite Forall_forall in Hall. split; [|intros j Hj]; [apply filter_all|apply filter_none]; intros a Ha.
  - apply bool_decide_eq_true. by apply Hall.
  - apply bool_decide_eq_false. rewrite (Hall a Ha). congruence.
Qed.
Lemma filter_snd (f : asset_row -> bool) (rows : list (uuid * asset_row)) :
  (List.filter (fun kv => f kv.2) rows).*2 = List.filter f rows.*2.
Proof. induction rows as [|[k a] rows IH]; [done|]. cbn. destruct (f a); cbn; by rewrite IH. Qed.
Lemma filter_twice {A} (f g : A -> bool) l : List.filter f (List.filter g l) = List.filter (fun x => g x && f x) l.
Proof. induction l as [|x l IH]; [done|]. cbn. destruct (g x); cbn; [by destruct (f x); rewrite IH|done]. Qed.
(** Without the files of a pack. *)
Lemma files_dropped id s s' : st_assets s' = List.filter (fun kv => negb (bool_decide (as_pack_id kv.2 = id))) (st_assets s) ->
  files_of id s' = [] /\ forall j, j <> id -> files_of j s' = files_of j s.
Proof.
  intros Hs. unfold files_of. pose proof (filter_snd (fun a => negb (bool_decide (as_pack_id a = id))) (st_assets s)) as Hf.
  cbv beta in Hf. rewrite Hs, Hf.
  split; [|intros j Hj]; rewrite filter_twice.
  - rewrite filter_none; [done|]. intros a _. by destruct (bool_decide _).
  - f_equal. apply filter_ext. intros a. destruct (bool_decide_reflect (as_pack_id a = id)) as [->|]; [|done].
    cbn. symmetry. apply bool_decide_eq_false. congruence.
Qed.
Lemma no_files s id : assets_owned s -> (st_next s <= id)%N -> files_of id s = [].
Proof.
  intros Ho Hid. unfold files_of. rewrite filter_none; [done|]. intros a Ha. apply bool_decide_eq_false. specialize (Ho a Ha). lia.
Qed.

Lemma files_none id s a : files_of id s = [] -> a ∈ (st_assets s).*2 -> as_pack_id a <> id.
Proof.
  unfold files_of. intros Hn Hin Heq. apply fmap_nil_inv in Hn. apply (not_elem_of_nil a). rewrite <- Hn.
  apply list_elem_of_In, filter_In. split; [by apply list_elem_of_In|by apply bool_decide_eq_true].
Qed.

(** A row that is found under one identity has another identifier than those under others. *)
Lemma shown_frame s s' rid pid id : sync_inv s ->
  find_pack rid pid s' = find_pack rid pid s -> (forall id' p, find_pack rid pid s = Some (id', p) -> id' <> id) ->
  (forall j, j <> id -> files_of j s' = files_of j s) -> shown rid pid s' = shown rid pid s.
Proof.
  intros Hs Hf Hid Hfiles. unfold shown. rewrite Hf. destruct (find_pack rid pid s) as [[id' p]|]; [|done]. cbn.
  by rewrite Hfiles by by eapply Hid.
Qed.

Lemma pack_upsert_spec data decoded now s : sync_inv s -> acceptable data = Ok decoded ->
  let rid := Some (sy_registry_id data) in let pid := mf_pack_id (sy_manifest data) in
  exists r s', upsert_synced_pack data now s = (r, s') /\ sync_inv s' /\ same_rows s s' /\
    upserted data decoded (shown rid pid s) (out ← r; Ok out.2) (shown rid pid s') /\
    (forall rid' pid', (rid', pid') <> (rid, pid) -> shown rid' pid' s' = shown rid' pid' s) /\
    (match r with Ok (_, Unchanged) | Raise _ => s' = s | _ => True end).
Proof.
  intros [Hs Ho] Ha rid pid. pose proof (inv_sync data now s Hs) as Hinv. pose proof (owned_sync data now s Hs Ho) as Hown.
  destruct (acceptable_ok _ _ Ha) as (Ed & Hnd & Hb).
  destruct (upsert_synced_pack data now s) as [r s'] eqn:Eu. cbn [snd] in Hinv, Hown. exists r, s'.
  split; [done|]. split; [done|]. unfold upsert_synced_pack in Eu. cbn zeta in Eu. fold pid rid in Eu.
  unfold acceptable in Ha. fold pid in Ha. rewrite Ha in Eu. unfold transaction in Eu. unfold upserted, refusal, same_rows.
  destruct (find_pack rid pid s) as [[id p]|] eqn:Ef.
  - assert (shown rid pid s = Some (id, p, files_of id s)) as Hsh by (unfold shown; by rewrite Ef).
    pose proof (find_below _ _ _ _ _ Hs Ef) as Hid. pose proof Ef as Ef'.
    apply find_some in Ef as [Hin%list_elem_of_In [Hr Hp]%same_identity_spec]. cbn in Hr, Hp.
    assert (dict_get (st_packs s) id = Some p) as Hg by (apply dict_get_NoDup; [apply Hs|done]).
    rewrite Hsh. case_bool_decide as Esha; [injection Eu as <- <-; by split_and!|].
    assert (row_refused (synced data now p) = pack_refused (sy_manifest data) (sy_readme data) (sy_commands data) (sy_scripts data)) as Hrow
      by (unfold row_refused, synced; cbn; rewrite Hp; unfold pid; by destruct (sy_manifest data)).
    rewrite Hrow in Eu. destruct (pack_refused _ _ _ _) as [e|]; [injection Eu as <- <-; by split_and!|].
    match type of Eu with context [write_assets_in_session _ _ ?x] => set (s1 := x) in * end.
    destruct (files_dropped id s s1 eq_refl) as [Hnone Hothers].
    pose proof (write_assets_spec id decoded s1 Hnd Hb) as Hw. destruct (files_refused decoded) as [e|].
    { rewrite Hw in Eu; [injection Eu as <- <-; by split_and!|]. intros a Hina Heq. by destruct (files_none id s1 a Hnone Hina). }
    destruct Hw as (rows & n & Hw & Hn & Hfiles & Hall); [intros a Hina Heq; by destruct (files_none id s1 a Hnone Hina)|].
    rewrite Hw in Eu. cbn [mbind res_bind] in Eu.
    remember (set_assets (set_next s1 n) (st_assets s1 ++ rows)) as s2 eqn:E2. injection Eu as <- <-. cbn [mbind res_bind snd].
    destruct (filter_owner id _ Hall) as [Hown1 Hown2].
    assert (files_of id s2 = stored_file <$> decoded) as Hnew.
    { rewrite (files_of_app id s1 _ rows.*2) by (rewrite E2; cbn; by rewrite fmap_app). by rewrite Hnone, Hown1. }
    split_and!; [by rewrite E2..|done| | |done].
    + assert (find_pack rid pid s2 = Some (id, synced data now p)) as Hf.
      { rewrite E2. unfold s1. cbn. eapply find_set_same; [exact Ef'| |done]. cbn. by apply same_identity_spec. }
      unfold shown. rewrite Hf. cbn. rewrite Hnew. eexists. split; [done|]. unfold has_content, as_installed, synced. cbn. by split_and!.
    + intros rid' pid' Hne. apply (shown_frame s _ rid' pid' id); [done|..].
      * rewrite E2. unfold s1. cbn. eapply find_set_other; [exact Hg|..]; cbn.
        all: apply not_true_is_false; intros [Hr' Hp']%same_identity_spec; cbn in Hr', Hp'; congruence.
      * intros id' p' [Hin'%list_elem_of_In [Hr' Hp']%same_identity_spec]%find_some ->. cbn in Hr', Hp'.
        assert (dict_get (st_packs s) id = Some p') by (apply dict_get_NoDup; [apply Hs|done]). congruence.
      * intros j Hj. rewrite (files_of_app j s1 _ rows.*2) by (rewrite E2; cbn; by rewrite fmap_app).
        by rewrite Hown2, app_nil_r, Hothers.
  - assert (shown rid pid s = None) as Hsh by (unfold shown; by rewrite Ef). rewrite Hsh.
    assert (row_refused (new_pack rid (sy_manifest data) (sy_readme data) (sy_commands data) (sy_scripts data) now)
      = pack_refused (sy_manifest data) (sy_readme data) (sy_commands data) (sy_scripts data)) as Hrow
      by (unfold row_refused, new_pack; cbn; by destruct (sy_manifest data)).
    rewrite Hrow in Eu. destruct (pack_refused _ _ _ _) as [e|]; [injection Eu as <- <-; by split_and!|].
    match type of Eu with context [write_assets_in_session _ _ ?x] => set (s1 := x) in * end.
    assert (forall a, a ∈ (st_assets s1).*2 -> as_pack_id a = st_next s -> as_path a ∉ (pa_path <$> decoded.*1)) as Hfree
      by (intros a Hin Heq; specialize (Ho a Hin); lia).
    pose proof (write_assets_spec (st_next s) decoded s1 Hnd Hb Hfree) as Hw. destruct (files_refused decoded) as [e|].
    { rewrite Hw in Eu. injection Eu as <- <-. by split_and!. }
    destruct Hw as (rows & n & Hw & Hn & Hfiles & Hall). rewrite Hw in Eu. cbn [mbind res_bind] in Eu.
    remember (set_assets (set_next s1 n) (st_assets s1 ++ rows)) as s2 eqn:E2. injection Eu as <- <-.
    cbn [mbind res_bind snd]. destruct (filter_owner (st_next s) _ Hall) as [Hown1 Hown2].
    split_and!; [by rewrite E2..|done| | |done].
    + assert (find_pack rid pid s2 = Some (st_next s, new_pack rid (sy_manifest data)
        (sy_readme data) (sy_commands data) (sy_scripts data) now)) as Hf.
      { rewrite E2. unfold s1. cbn. rewrite find_app, Ef. cbn. by rewrite (proj2 (same_identity_spec _ _ _)). }
      assert (files_of (st_next s) s2 = stored_file <$> decoded) as Hnew.
      { rewrite (files_of_app (st_next s) s1 _ rows.*2) by (rewrite E2; cbn; by rewrite fmap_app).
        by rewrite (files_of_same _ s s1), no_files, Hown1 by done. }
      exists (st_next s). unfold shown. rewrite Hf. cbn. rewrite Hnew. eexists. split; [done|]. unfold has_content, new_pack. cbn. by split_and!.
    + intros rid' pid' Hne. apply (shown_frame s _ rid' pid' (st_next s)); [done|..].
      * rewrite E2. unfold s1. cbn. rewrite find_app. destruct (find_pack rid' pid' s); [done|]. cbn. destruct (same_identity _ _ _) eqn:E; [|done].
        apply same_identity_spec in E as [<- <-]. done.
      * intros id' p' Hf' ->. apply find_below in Hf'; [lia|done].
      * intros j Hj. rewrite (files_of_app j s1 _ rows.*2) by (rewrite E2; cbn; by rewrite fmap_app). by rewrite Hown2, app_nil_r.
Qed.
Lemma upsert_refused data now s e : acceptable data = Raise e -> upsert_synced_pack data now s = (Raise e, s).
Proof. unfold acceptable, upsert_synced_pack. cbn zeta. by intros ->. Qed.

Lemma synced_pack_ok registry_id pack data : synced_pack registry_id pack = Ok data ->
  sy_registry_id data = registry_id /\ mf_pack_id (sy_manifest data) = fetched_pack_id pack.
Proof.
  unfold synced_pack. cbn zeta. destruct (non_empty_string _); [|done]. destruct (non_empty_string _); [|done].
  destruct (or_else _ _); try done. destruct (all_strings _); [|done]. by intros [= <-].
Qed.
Lemma accepted_ok registry_id pack data decoded : accepted registry_id pack = Ok (data, decoded) ->
  synced_pack registry_id pack = Ok data /\ acceptable data = Ok decoded /\
  sy_registry_id data = registry_id /\ mf_pack_id (sy_manifest data) = fetched_pack_id pack.
Proof.
  unfold accepted. destruct (synced_pack _ _) as [d|] eqn:E; [|done]. cbn [mbind res_bind].
  destruct (acceptable d) as [dec|] eqn:Ea; [|done]. intros [= <- <-]. split_and!; [done|done|by eapply synced_pack_ok..].
Qed.
Lemma acceptable_error data e : acceptable data = Raise e -> exn_type e = DomainError.
Proof.
  unfold acceptable, validate_pack_id. destruct (_ || _); cbn [mbind res_bind]; [by unfold raise; intros [= <-]|].
  unfold _decode_assets. destruct (_ <? _); [by unfold raise; intros [= <-]|]. apply decode_loop_spec.
Qed.
Lemma accepted_error registry_id pack e : accepted registry_id pack = Raise e -> isinstance (exn_type e) Exception_ = true.
Proof.
  intros Ha. assert (exn_type e = DomainError) as ->; [|done]. revert Ha. unfold accepted.
  destruct (synced_pack _ _) as [d|e'] eqn:E; cbn [mbind res_bind].
  - destruct (acceptable d) as [dec|e''] eqn:Ea; cbn [mbind res_bind]; [done|]. intros [= ->]. by eapply acceptable_error.
  - intros [= ->]. revert E. unfold synced_pack, manifest_error, raise. cbn zeta.
    destruct (non_empty_string _); [|by intros [= <-]]. destruct (non_empty_string _); [|by intros [= <-]].
    destruct (or_else _ _); try (by intros [= <-]). destruct (all_strings _); [done|by intros [= <-]].
Qed.
Lemma refusal_error data decoded e : refusal data decoded = Some e -> isinstance (exn_type e) Exception_ = true.
Proof.
  unfold refusal, files_refused. destruct (pack_refused _ _ _ _) as [e'|] eqn:Ep; [intros [= <-]; by eapply pack_refused_exception|].
  induction decoded as [|d decoded IH]; [done|]. cbn [omap list_omap].
  destruct (asset_refused _ _) as [e'|] eqn:Ea; [intros [= <-]; by eapply asset_refused_exception|exact IH].
Qed.
Lemma upserted_error data decoded before r after : upserted data decoded before r after ->
  match r with Ok _ => True | Raise e => isinstance (exn_type e) Exception_ = true end.
Proof.
  unfold upserted. destruct before as [[[id p] fs]|]; [case_bool_decide; [by intros [-> _]|]|];
    (destruct (refusal data decoded) as [e|] eqn:Er; intros [-> _]; [by eapply refusal_error|done]).
Qed.

Context `{Cipher} (now : Z) (source : pystr -> pystr -> pystr -> option pystr -> res (list FetchedPack)).
Local Abbreviation run_sync := (@run_state registry_signature registries (serve now source) _).

Definition success_item (pack : FetchedPack) (out : sync_outcome) : RegistrySyncItemDTO :=
  {| ri_pack_id := fp_dirname pack; ri_status := #"success"; ri_error := []; ri_message := outcome_text out |}.
Definition failure_item (pack : FetchedPack) (e : exn) : RegistrySyncItemDTO :=
  {| ri_pack_id := fp_dirname pack; ri_status := #"error"; ri_error := sanitize_bulk_error e; ri_message := [] |}.

Lemma set_store_same s : set_store s (rg_store s) = s.
Proof. by destruct s. Qed.
Definition upsert_item (pack : FetchedPack) (r : res sync_outcome) : RegistrySyncItemDTO :=
  match r with Ok out => success_item pack out | Raise e => failure_item pack e end.

(** The item of one pack, and what is stored of it before and after. *)
Definition item_matches (registry_id : uuid) (st st' : store) (pack : FetchedPack) (item : RegistrySyncItemDTO) : Prop :=
  let before := shown (Some registry_id) (fetched_pack_id pack) st in
  let after := shown (Some registry_id) (fetched_pack_id pack) st' in
  match accepted registry_id pack with
  | Ok (data, decoded) => exists r, item = upsert_item pack r /\ upserted data decoded before r after
  | Raise e => item = failure_item pack e /\ after = before
  end.
Lemma run_sync_pack registry_id pack s : sync_inv (rg_store s) ->
  exists item st, run_sync (sync_pack registry_id pack) s = (Ok item, set_store s st) /\ sync_inv st /\
    same_rows (rg_store s) st /\ item_matches registry_id (rg_store s) st pack item /\
    (forall rid pid, (rid, pid) <> (Some registry_id, fetched_pack_id pack) -> shown rid pid st = shown rid pid (rg_store s)) /\
    (ri_status item = #"error" \/ ri_message item = outcome_text Unchanged -> st = rg_store s).
Proof.
  intros Hs. unfold sync_pack, _upsert_fetched_pack, item_matches. pose proof (accepted_error registry_id pack) as He.
  destruct (accepted registry_id pack) as [[data decoded]|e] eqn:Ea.
  - apply accepted_ok in Ea as (-> & Hacc & Hrid & Hpid). cbn. unfold serve_upsert.
    destruct (pack_upsert_spec data decoded now (rg_store s) Hs Hacc) as (r & st & -> & Hst & Hrows & Hup & Hframe & Hkept).
    rewrite Hrid, Hpid in Hup, Hframe. exists (upsert_item pack (out ← r; Ok out.2)), st.
    pose proof (upserted_error _ _ _ _ _ Hup) as Hord.
    split; [|split_and!; [done|done|by eexists|done|]].
    + destruct r as [[id out]|e]; cbn in *; [done|]. unfold on_exception. by rewrite Hord.
    + destruct r as [[id []]|e]; cbn in *; by intros [?|?].
  - exists (failure_item pack e), (rg_store s). rewrite set_store_same. split_and!; try done.
    revert Ea. unfold accepted. destruct (synced_pack registry_id pack) as [data|e']; cbn [mbind res_bind].
    + destruct (acceptable data) as [decoded|e'] eqn:Ec; cbn [mbind res_bind]; [done|]. intros [= ->]. cbn. unfold serve_upsert.
      rewrite (upsert_refused data now _ e) by done. cbn. unfold on_exception. rewrite He by done. cbn. by rewrite set_store_same.
    + intros [= ->]. cbn. unfold on_exception. by rewrite He.
Qed.
(** The same pack in the same version, whatever else it holds, and alike to the columns. *)
Definition same_version (registry_id : uuid) (pack pack' : FetchedPack) : Prop :=
  fp_dirname pack = fp_dirname pack' /\ fetched_pack_id pack = fetched_pack_id pack' /\
  match accepted registry_id pack, accepted registry_id pack' with
  | Ok (data, decoded), Ok (data', decoded') =>
      mf_manifest_sha (sy_manifest data) = mf_manifest_sha (sy_manifest data') /\ refusal data decoded = refusal data' decoded'
  | Raise e, Raise e' => e = e'
  | _, _ => False
  end.
Definition unchanged_item (item : RegistrySyncItemDTO) : RegistrySyncItemDTO :=
  if str_eqb (ri_status item) #"success" then
    {| ri_pack_id := ri_pack_id item; ri_status := ri_status item; ri_error := ri_error item; ri_message := outcome_text Unchanged |}
  else item.

Lemma run_sync_packs registry_id pack packs s :
  run_sync (sync_packs registry_id (pack :: packs)) s =
    match run_sync (sync_pack registry_id pack) s with
    | (Ok item, s) => match run_sync (sync_packs registry_id packs) s with
                      | (Ok items, s) => (Ok (item :: items), s)
                      | (Raise e, s) => (Raise e, s)
                      end
    | (Raise e, s) => (Raise e, s)
    end.
Proof.
  cbn [sync_packs]. rewrite run_state_bind. destruct (run_sync _ s) as [[item|e] s1]; [|done]. rewrite run_state_bind.
  by destruct (run_sync _ s1) as [[items|e] s2].
Qed.

Lemma first_sync registry_id packs s : sync_inv (rg_store s) -> NoDup (fetched_pack_id <$> packs) ->
  exists items st, run_sync (sync_packs registry_id packs) s = (Ok items, set_store s st) /\ sync_inv st /\
    same_rows (rg_store s) st /\ Forall2 (item_matches registry_id (rg_store s) st) packs items /\
    (forall rid pid, rid <> Some registry_id \/ (pid ∉ (fetched_pack_id <$> packs)) -> shown rid pid st = shown rid pid (rg_store s)).
Proof.
  revert s. induction packs as [|pack packs IH]; intros s Hs Hnd.
  { exists [], (rg_store s). rewrite set_store_same. by split_and!. }
  rewrite fmap_cons in Hnd |- *. apply NoDup_cons in Hnd as [Hnew Hnd]. rewrite run_sync_packs.
  destruct (run_sync_pack registry_id pack s Hs) as (item & st1 & -> & Hs1 & (Hc & Hsc & Hl) & Hitem & Hother & _).
  destruct (IH (set_store s st1) Hs1 Hnd) as (items & st & -> & Hst & (Hc' & Hsc' & Hl') & Hitems & Hframe). cbn [rg_store set_store] in *.
  exists (item :: items), st. split; [done|]. split; [done|]. split; [by split_and!; etrans|]. split.
  - constructor.
    + unfold item_matches in *. by rewrite Hframe by by right.
    + assert (Forall (fun p => fetched_pack_id p <> fetched_pack_id pack) packs) as Hne.
      { apply Forall_forall. intros p Hp E. apply Hnew. rewrite <- E. by apply list_elem_of_fmap_2. }
      clear -Hitems Hne Hother. induction Hitems as [|p item' packs items Hm _ IH]; [constructor|].
      apply Forall_cons in Hne as [Hp Hne]. constructor; [|by apply IH]. unfold item_matches in *. rewrite <- Hother; [done|].
      intros [= E]. done.
  - intros rid pid Hne. rewrite Hframe.
    + apply Hother. intros [= -> ->]. destruct Hne as [Hne|Hne]; [done|]. apply Hne. by left.
    + destruct Hne as [Hne|Hne]; [by left|right]. intros Hin. apply Hne. by right.
Qed.
End syncing.

Section converging.
Context `{Unicode} `{PyFloat} `{PackColumns} `{Cipher}.

(** A pack whose version is stored, or that the columns refuse, is as before. *)
Lemma upserted_again data data' decoded decoded' before r after r' after' :
  mf_manifest_sha (sy_manifest data) = mf_manifest_sha (sy_manifest data') -> refusal data decoded = refusal data' decoded' ->
  upserted data decoded before r after -> upserted data' decoded' after r' after' ->
  r' = match r with Ok _ => Ok Unchanged | Raise e => Raise e end.
Proof.
  unfold upserted. intros Hsha Href. destruct before as [[[id p] fs]|].
  - case_bool_decide as E.
    + intros [-> ->]. rewrite bool_decide_true by congruence. by intros [-> _].
    + destruct (refusal data decoded) as [e|] eqn:Er.
      * intros [-> ->]. rewrite bool_decide_false by congruence. rewrite <- Href. by intros [-> _].
      * intros [-> (p' & -> & Hp & _)]. rewrite bool_decide_true by (rewrite <- Hsha; apply Hp). by intros [-> _].
  - destruct (refusal data decoded) as [e|] eqn:Er.
    + intros [-> ->]. rewrite <- Href. by intros [-> _].
    + intros [-> (id & p' & -> & Hp & _)]. rewrite bool_decide_true by (rewrite <- Hsha; apply Hp). by intros [-> _].
Qed.

Lemma second_sync later source' registry_id st0 packs packs' items s : sync_inv (rg_store s) ->
  Forall2 (item_matches registry_id st0 (rg_store s)) packs items -> Forall2 (same_version registry_id) packs packs' ->
  @run_state registry_signature registries (serve later source') _ (sync_packs registry_id packs') s = (Ok (unchanged_item <$> items), s).
Proof.
  intros Hs Hm. revert packs'. induction Hm as [|pack item packs items Hi Hm IH]; intros packs' Hv.
  { apply Forall2_nil_inv_l in Hv as ->. done. }
  apply Forall2_cons_inv_l in Hv as (pack' & rest & (Hdir & Hid & Hv) & Hrest & ->). rewrite run_sync_packs.
  destruct (run_sync_pack later source' registry_id pack' s Hs) as (item' & st & -> & _ & _ & Hi' & _ & Hkept).
  assert (item' = unchanged_item item) as Hitem.
  { unfold item_matches in Hi, Hi'. rewrite <- Hid in Hi'.
    destruct (accepted registry_id pack) as [[data decoded]|e], (accepted registry_id pack') as [[data' decoded']|e']; try done.
    - destruct Hi as (r & -> & Hr), Hi' as (r' & -> & Hr'), Hv as [Hsha Href].
      rewrite (upserted_again _ _ _ _ _ _ _ _ _ Hsha Href Hr Hr').
      destruct r; unfold unchanged_item; cbn; unfold success_item, failure_item; by rewrite Hdir.
    - destruct Hi as [-> _], Hi' as [-> _]. subst e'. unfold unchanged_item, failure_item. cbn. by rewrite Hdir. }
  assert (st = rg_store s) as ->.
  { apply Hkept. rewrite Hitem. unfold item_matches in Hi. destruct (accepted registry_id pack) as [[data decoded]|e].
    - destruct Hi as ([out|e] & -> & _); [by right|by left].
    - destruct Hi as [-> _]. by left. }
  rewrite set_store_same, (IH rest) by done. by rewrite Hitem.
Qed.

Context (command_refused : command_row -> option exn) (script_refused : script_row -> option exn).

(** C32: in any reachable state of the tables, and whatever columns refuse, synchronizing packs
    with distinct identifiers gives one item for each in order. A pack that is not accepted, or
    whose values a column refuses, is reported with the error and stays as it was; one whose
    stored version of the manifest is the fetched one is reported as unchanged and stays as it
    was; any other is reported as created or updated, and its row then has all of the fetched
    content, its files are the fetched ones in their order, and it is as much installed as
    before. No other pack, no file of another pack, no command, script, link or registry
    changes. When the packs are fetched again with the same versions of their manifests, and are
    accepted and refused alike, nothing changes, whatever else they hold by then: changes to the
    commands, scripts, files and readme of a pack are not synchronized unless the file of the
    manifest changed too. *)
Theorem sync_converges (ops : list (pack_op * Z)) (rows : list (uuid * TemplateRegistryModel)) (next registry_id : uuid)
    (now later : Z) (source source' : pystr -> pystr -> pystr -> option pystr -> res (list FetchedPack))
    (packs packs' : list FetchedPack) :
  NoDup (fetched_pack_id <$> packs) -> Forall2 (same_version registry_id) packs packs' ->
  let st := run_history command_refused script_refused ops in
  exists items s1,
    @run_state registry_signature registries (serve now source) _ (sync_packs registry_id packs) {| rg_rows := rows; rg_next := next; rg_store := st |} = (Ok items, s1) /\
    rg_rows s1 = rows /\ same_rows st (rg_store s1) /\
    Forall2 (item_matches registry_id st (rg_store s1)) packs items /\
    (forall rid pid, rid <> Some registry_id \/ (pid ∉ (fetched_pack_id <$> packs)) -> shown rid pid (rg_store s1) = shown rid pid st) /\
    @run_state registry_signature registries (serve later source') _ (sync_packs registry_id packs') s1 = (Ok (unchanged_item <$> items), s1).
Proof.
  intros Hnd Hv st. assert (sync_inv st) as Hs by (split; [apply inv_history|apply owned_history]).
  destruct (first_sync now source registry_id packs {| rg_rows := rows; rg_next := next; rg_store := st |} Hs Hnd)
    as (items & st1 & Hr & Hs1 & Hrows & Hi & Hf).
  exists items. eexists. split_and!; [exact Hr|done|exact Hrows|exact Hi|exact Hf|]. by eapply second_sync.
Qed.
End converging.

(** ** The table of registries *)

Section registry_table.
Context `{Cipher}.

(** The methods that change the table, at a time. *)
Inductive registry_op :=
| RegCreate (data : RegistryCreateDTO) | RegPatch (id : uuid) (data : RegistryUpdateDTO) | RegDelete (id : uuid) | RegTouch (id : uuid).
Definition run_registry_op (op : registry_op) (now : Z) (s : registries) : bool * registries :=
  let done {A} (r : res A * registries) := (is_ok r.1, r.2) in
  match op with
  | RegCreate data => done (begin (create_registry data now) s)
  | RegPatch id data => done (begin (patch_registry id data now) s)
  | RegDelete id => done (begin (delete_registry id) s)
  | RegTouch id => done (begin (touch_synced id now) s)
  end.
(** The tokens that were given: the empty one stands for none. *)
Definition given (token : option pystr) : option pystr := match token with Some (_ :: _) => token | _ => None end.
Definition tokens_after (op : registry_op) (next : uuid) (tokens : list (uuid * option pystr)) : list (uuid * option pystr) :=
  match op with
  | RegCreate data => tokens ++ [(next, given (rc_github_token data))]
  | RegPatch id data => match ru_github_token data with None => tokens | Some t => dict_set tokens id (given (Some t)) end
  | RegDelete id => dict_pop tokens id
  | RegTouch _ => tokens
  end.
Fixpoint run_registry_ops (ops : list (registry_op * Z)) (s : registries) (tokens : list (uuid * option pystr))
    : registries * list (uuid * option pystr) :=
  match ops with
  | [] => (s, tokens)
  | (op, now) :: ops =>
      let '(ok, s') := run_registry_op op now s in
      run_registry_ops ops s' (if ok then tokens_after op (rg_next s) tokens else tokens)
  end.
Definition no_registries (st : store) : registries := {| rg_rows := []; rg_next := 0; rg_store := st |}.

Definition repository_of (r : TemplateRegistryModel) : pystr * pystr := (rm_owner r, rm_name r).
Definition opens (sealed : option pystr) (token : option pystr) : Prop := cipher_decrypt sealed = Ok token.
Record table_inv (s : registries) (tokens : list (uuid * option pystr)) : Prop := {
  ti_keys : NoDup (rg_rows s).*1 /\ below (rg_next s) (rg_rows s);
  ti_repositories : NoDup (repository_of <$> (rg_rows s).*2);
  ti_tokens : tokens.*1 = (rg_rows s).*1;
  ti_opens : forall id row token, dict_get (rg_rows s) id = Some row -> dict_get tokens id = Some token ->
    opens (rm_github_token_encrypted row) token }.

(** What the cipher promises: a sealed text opens to itself, and no text to none. *)
Hypothesis cipher_opens : forall now token sealed, cipher_encrypt now token = Ok sealed -> opens (Some sealed) (Some token).
Hypothesis cipher_none : opens None None.

Lemma seal_opens now token sealed : seal_token now token = Ok sealed -> opens sealed (given token).
Proof.
  unfold seal_token, given. destruct token as [[|c t]|]; try (by intros [= <-]).
  destruct (cipher_encrypt now (c :: t)) as [s|e] eqn:E; [|done]. cbn. intros [= <-]. by eapply cipher_opens.
Qed.
Lemma same_repository_spec owner name r : same_repository owner name r = true <-> repository_of r = (owner, name).
Proof.
  unfold same_repository, repository_of, str_eqb. rewrite andb_true_iff, !bool_decide_eq_true. split; [by intros [-> ->]|by intros [= -> ->]].
Qed.
Lemma no_repository owner name (rows : list (uuid * TemplateRegistryModel)) :
  existsb (fun kv => same_repository owner name kv.2) rows = false -> (owner, name) ∉ (repository_of <$> rows.*2).
Proof.
  intros Hf (r & Hr & (k & Hk)%elem_snd)%list_elem_of_fmap. symmetry in Hr. apply same_repository_spec in Hr.
  assert (existsb (fun kv => same_repository owner name kv.2) rows = true); [|congruence].
  apply existsb_exists. exists (k, r). by split; [apply list_elem_of_In|].
Qed.

(** Replacing a row. *)
Lemma inv_replace s tokens tokens' id row row' : table_inv s tokens -> dict_get (rg_rows s) id = Some row ->
  NoDup (repository_of <$> (dict_set (rg_rows s) id row').*2) -> tokens'.*1 = tokens.*1 ->
  (forall j, j <> id -> dict_get tokens' j = dict_get tokens j) ->
  (forall token, dict_get tokens' id = Some token -> opens (rm_github_token_encrypted row') token) ->
  table_inv (set_rows s (dict_set (rg_rows s) id row')) tokens'.
Proof.
  intros [[Hk Hb] Hr Ht Ho] Hg Hr' Hkeys Hother Hid. pose proof (dict_set_fst _ _ _ row' Hg) as Hfst.
  split; unfold below; cbn [rg_rows rg_next set_rows]; rewrite ?Hfst; [done|done|congruence|].
  intros j row'' token. destruct (decide (j = id)) as [->|Hne].
  - rewrite dict_get_set_eq. intros [= <-]. apply Hid.
  - rewrite dict_get_set_ne, Hother by done. apply Ho.
Qed.
Lemma inv_registry_create data now s tokens : table_inv s tokens ->
  let '(ok, s') := run_registry_op (RegCreate data) now s in
  table_inv s' (if ok then tokens_after (RegCreate data) (rg_next s) tokens else tokens).
Proof.
  intros Hs. cbn [run_registry_op]. unfold begin, create_registry. destruct (existsb _ _) eqn:Ex; [done|].
  destruct (seal_token now (rc_github_token data)) as [sealed|e] eqn:Es; [|done]. cbn [mbind res_bind fst snd is_ok tokens_after].
  destruct Hs as [[Hk Hb] Hr Ht Ho]. apply no_repository in Ex.
  assert (rg_next s ∉ (rg_rows s).*1) as Hnew by (intros Hin; specialize (Hb _ Hin); lia).
  split; cbn [rg_rows rg_next]; [split|..].
  - apply (fresh_app (rg_next s)); [done|done|apply NoDup_singleton|by intros k ->%list_elem_of_singleton].
  - intros k. rewrite fmap_app. intros [Hin| ->%list_elem_of_singleton]%elem_of_app; [specialize (Hb k Hin); lia|cbn; lia].
  - rewrite !fmap_app. apply NoDup_app. split_and!; [done| |apply NoDup_singleton]. by intros x Hx ->%list_elem_of_singleton.
  - by rewrite !fmap_app, Ht.
  - intros j row token. rewrite !dict_get_app_new. pose proof (dict_get_key (rg_rows s) j) as Hrow.
    pose proof (dict_get_key tokens j) as Htok. rewrite Ht, Hrow in Htok.
    destruct (dict_get (rg_rows s) j) as [row'|] eqn:Eg, (dict_get tokens j) as [token'|] eqn:Eg'; [intros [= <-] [= <-]; by eapply Ho|..].
    + by destruct (proj1 Htok ltac:(by eexists)).
    + by destruct (proj2 Htok ltac:(by eexists)).
    + case_decide; [|done]. intros [= <-] [= <-]. by eapply seal_opens.
Qed.

Lemma replace_repository (rows : list (uuid * TemplateRegistryModel)) id row' :
  NoDup rows.*1 -> NoDup (repository_of <$> rows.*2) -> id ∈ rows.*1 ->
  (forall k r, (k, r) ∈ rows -> repository_of r = repository_of row' -> k = id) ->
  NoDup (repository_of <$> (dict_set rows id row').*2).
Proof.
  induction rows as [|[k r] rows IH]; intros Hk Hr Hin Hu; [by apply elem_of_nil in Hin|]. cbn in *.
  apply NoDup_cons in Hk as [Hk Hks], Hr as [Hr Hrs]. case_decide as E; cbn; apply NoDup_cons.
  - subst k. split; [|done]. intros (r' & Hrep & (j & Hj)%elem_snd)%list_elem_of_fmap.
    apply Hk. erewrite <- (Hu j r'); [by eapply elem_fst|by right|done].
  - apply elem_of_cons in Hin as [->|Hin]; [done|]. split; [|apply IH; [done|done|done|intros; eapply Hu; [by right|done]]].
    intros (r' & Hrep & (j & Hj)%elem_snd)%list_elem_of_fmap. apply list_elem_of_In in Hj.
    assert ((j, r') ∈ rows \/ r' = row') as [Hj'| ->].
    { clear - Hj. induction rows as [|[i u] rows IH]; cbn in *.
      - destruct Hj as [[= <- <-]|[]]. by right.
      - case_decide; cbn in Hj.
        + destruct Hj as [[= <- <-]|Hj]; [by right|]. left. right. by apply list_elem_of_In.
        + destruct Hj as [[= <- <-]|Hj]; [left; by left|]. destruct (IH Hj) as [?|?]; [left; by right|by right]. }
    + apply Hr. rewrite Hrep. apply list_elem_of_fmap. exists r'. split; [done|]. apply elem_snd. by exists j.
    + apply E. eapply Hu; [by left|done].
Qed.
Lemma inv_registry_patch id data now s tokens : table_inv s tokens ->
  let '(ok, s') := run_registry_op (RegPatch id data) now s in
  table_inv s' (if ok then tokens_after (RegPatch id data) (rg_next s) tokens else tokens).
Proof.
  intros Hs. cbn [run_registry_op]. unfold begin, patch_registry. destruct (dict_get (rg_rows s) id) as [row|] eqn:Eg; [|done].
  destruct (negb _ && _) eqn:Ec; [done|].
  destruct (match ru_github_token data with None => _ | _ => _ end) as [sealed|e] eqn:Es; [|done].
  cbn [mbind res_bind fst snd is_ok tokens_after]. pose proof (dict_get_key (rg_rows s) id) as Hid.
  assert (id ∈ tokens.*1) as Hin by (rewrite (ti_tokens s tokens Hs); apply Hid; by eexists).
  eapply (inv_replace s tokens); [done|exact Eg|..].
  - apply replace_repository; [apply Hs|apply Hs|apply Hid; by eexists|]. intros k r Hkr Hrep.
    unfold repository_of at 2 in Hrep. cbn [rm_owner rm_name] in Hrep. apply same_repository_spec in Hrep.
    apply andb_false_iff in Ec as [Ec|Ec].
    + apply negb_false_iff, same_repository_spec in Ec. apply same_repository_spec in Hrep. rewrite <- Ec in Hrep.
      pose proof (ti_repositories s tokens Hs) as Hnd. apply dict_get_elem in Eg.
      apply list_elem_of_lookup in Hkr as [i Hi], Eg as [j Hj].
      assert (i = j) as ->; [|congruence]. eapply (NoDup_lookup _ _ _ (repository_of r) Hnd); rewrite !list_lookup_fmap.
      * by rewrite Hi.
      * rewrite Hj. cbn. by rewrite Hrep.
    + destruct (decide (k = id)) as [->|Hne]; [done|exfalso].
      assert (existsb (fun kv => same_repository (default (rm_owner row) (ru_owner data)) (default (rm_name row) (ru_name data)) kv.2
        && negb (kv.1 =? id)%N) (rg_rows s) = true); [|congruence].
      apply existsb_exists. exists (k, r). split; [by apply list_elem_of_In|]. cbn. rewrite Hrep. cbn. by apply negb_true_iff, N.eqb_neq.
  - destruct (ru_github_token data); [|done]. rewrite dict_set_keys, decide_True by done. done.
  - intros j Hne. destruct (ru_github_token data); [by rewrite dict_get_set_ne|done].
  - intros token Htok. cbn [rm_github_token_encrypted]. destruct (ru_github_token data) as [t|].
    + rewrite dict_get_set_eq in Htok. injection Htok as <-. by apply (seal_opens now (Some t)).
    + injection Es as <-. by eapply (ti_opens s tokens Hs).
Qed.
Lemma inv_registry_touch id now s tokens : table_inv s tokens ->
  let '(ok, s') := run_registry_op (RegTouch id) now s in table_inv s' tokens.
Proof.
  intros Hs. cbn [run_registry_op]. unfold begin, touch_synced. destruct (dict_get (rg_rows s) id) as [row|] eqn:Eg; [|done].
  cbn [fst snd]. eapply (inv_replace s tokens); [done|exact Eg| |done|done|].
  - erewrite (dict_set_snd repository_of); [apply Hs|exact Eg|done].
  - intros token Htok. cbn [rm_github_token_encrypted]. by eapply (ti_opens s tokens Hs).
Qed.
Lemma inv_registry_delete id now s tokens : table_inv s tokens ->
  let '(ok, s') := run_registry_op (RegDelete id) now s in
  table_inv s' (if ok then tokens_after (RegDelete id) (rg_next s) tokens else tokens).
Proof.
  intros Hs. cbn [run_registry_op]. unfold begin, delete_registry. destruct (dict_get (rg_rows s) id) as [row|]; [|done].
  destruct (detach_registry id (rg_store s)) as [[[] st]|e]; [|done]. cbn [mbind res_bind fst snd is_ok tokens_after].
  destruct Hs as [[Hk Hb] Hr Ht Ho]. split; cbn [rg_rows rg_next set_rows set_store]; [split|..].
  - by apply filter_keys.
  - by apply below_filter.
  - by apply NoDup_filter_snd.
  - unfold dict_pop. clear - Ht. revert tokens Ht. induction (rg_rows s) as [|[k r] rows IH]; intros [|[k' t] tokens]; cbn; try done.
    intros [= -> Ht]. destruct (negb _); cbn; [f_equal|]; by apply IH.
  - intros j row' token. rewrite !dict_get_pop. case_decide; [done|]. apply Ho.
Qed.

(** C34: after any history of creating, patching, deleting and marking registries, with a cipher
    that opens what it sealed, no two registries have the same owner and name, and the token of
    a registry is the one last given for it: a patch without a token keeps it, an empty one
    removes it, an operation that is refused changes nothing, and a registry that does not
    exist, or was deleted, is refused. *)
Theorem registry_tokens_kept (ops : list (registry_op * Z)) (st : store) :
  let '(s, tokens) := run_registry_ops ops (no_registries st) [] in
  NoDup (repository_of <$> (rg_rows s).*2) /\ tokens.*1 = (rg_rows s).*1 /\
  forall id, get_registry_token id s = match dict_get tokens id with Some token => Ok token | None => not_found id end.
Proof.
  assert (forall s tokens, table_inv s tokens ->
    let '(s', tokens') := run_registry_ops ops s tokens in table_inv s' tokens') as Hrun.
  { induction ops as [|[op now] ops' IH]; intros s tokens Hs; [done|]. cbn [run_registry_ops].
    assert (let '(ok, s') := run_registry_op op now s in table_inv s' (if ok then tokens_after op (rg_next s) tokens else tokens)) as Hstep.
    { destruct op; [by apply inv_registry_create|by apply inv_registry_patch|by apply inv_registry_delete|].
      pose proof (inv_registry_touch id now s tokens Hs) as Ht. destruct (run_registry_op _ _ _) as [[] s']; done. }
    destruct (run_registry_op op now s) as [ok s']. by apply IH. }
  specialize (Hrun (no_registries st) []). destruct (run_registry_ops _ _ _) as [s tokens]. destruct Hrun as [_ Hr Ht Ho].
  { split; [split; [apply NoDup_nil_2|by intros k ?%elem_of_nil]|apply NoDup_nil_2|done|done]. }
  split_and!; [done|done|]. intros id. unfold get_registry_token. pose proof (dict_get_key (rg_rows s) id) as Hrow.
  pose proof (dict_get_key tokens id) as Htok. rewrite Ht, Hrow in Htok.
  destruct (dict_get (rg_rows s) id) as [row|] eqn:Eg, (dict_get tokens id) as [token|] eqn:Eg'; [by eapply Ho|..|done].
  - by destruct (proj1 Htok ltac:(by eexists)).
  - by destruct (proj2 Htok ltac:(by eexists)).
Qed.
End registry_table.

(** ** At concrete values *)

Section examples.
#[local] Existing Instance ascii_only.
#[local] Existing Instance literal_floats.

(** A cipher that writes a nonce before the text. *)
#[local] Instance dated_cipher : Cipher := {|
  cipher_encrypt := fun now text => Ok (Z.to_N (now mod 256) :: text);
  cipher_decrypt := fun sealed => match sealed with
                                  | None => Ok None
                                  | Some (_ :: text) => Ok (Some text)
                                  | Some [] => raise ValueError #"Failed to decrypt credential"
                                  end |}.

Definition new_registry (token : option pystr) : RegistryCreateDTO :=
  {| rc_owner := #"acme"; rc_name := #"packs"; rc_github_token := token; rc_default_branch := #"main" |}.
Definition new_token (token : option pystr) : RegistryUpdateDTO :=
  {| ru_owner := None; ru_name := None; ru_github_token := token; ru_default_branch := Some #"dev" |}.
Definition demo_registry_ops : list (registry_op * Z) :=
  [(RegCreate (new_registry (Some #"ghp_1")), 1%Z); (RegCreate (new_registry None), 2%Z);
   (RegPatch 0%N (new_token None), 3%Z); (RegPatch 0%N (new_token (Some #"ghp_2")), 4%Z); (RegTouch 0%N, 5%Z)].
Lemma registry_tokens_kept_witness :
  let s := (run_registry_ops demo_registry_ops (no_registries empty_store) []).1 in
  length (rg_rows s) = 1 /\ get_registry_token 0%N s = Ok (Some #"ghp_2") /\ get_registry_token 1%N s = not_found 1%N.
Proof.
  cbn zeta.
  assert (forall now token sealed, cipher_encrypt now token = Ok sealed -> opens (Some sealed) (Some token)) as Hopens
    by (by intros now token sealed [= <-]).
  pose proof (registry_tokens_kept Hopens ltac:(done) demo_registry_ops empty_store) as Ht.
  destruct (run_registry_ops demo_registry_ops (no_registries empty_store) []) as [s tokens] eqn:E.
  assert (s = (run_registry_ops demo_registry_ops (no_registries empty_store) []).1) as Es by (by rewrite E).
  assert (tokens = [(0%N, Some #"ghp_2")]) as ->.
  { transitivity (run_registry_ops demo_registry_ops (no_registries empty_store) []).2; [by rewrite E|vm_compute; reflexivity]. }
  destruct Ht as (_ & _ & Ht). split; [rewrite Es; vm_compute; reflexivity|]. split; [exact (Ht 0%N)|exact (Ht 1%N)].
Defined.

(** A pack whose command changes, under the same manifest. *)
Definition demo_fetched (dir command : pystr) (version : json) : FetchedPack :=
  {| fp_dirname := dir; fp_manifest := [(#"name", JStr #"Tools"); (#"version", version)];
     fp_commands := [JObj [(#"name", JStr #"ls"); (#"command", JStr command)]]; fp_scripts := []; fp_readme := None;
     fp_assets := [{| fa_path := #"assets/a.txt"; fa_content := [104%N; 105%N] |}]; fp_manifest_sha := Some #"sha1" |}.
Definition demo_fetch (command : pystr) : list FetchedPack :=
  [demo_fetched #"tools" command (JStr #"1"); demo_fetched #"broken" command (JInt 1);
   demo_fetched #"long" command (JStr (repeat 49%N 51))].
(** Columns that bound the version. *)
#[local] Instance short_versions : PackColumns.
Proof.
  refine {| pack_refused := fun m _ _ _ => if 50 <? length (mf_version m)
                                           then Some (Exn (LibraryError #"DBAPIError") #"value too long for type character varying(50)") else None;
            asset_refused := fun _ _ => None |}.
  - intros m readme cs ss e. destruct (50 <? length (mf_version m)); [by intros [= <-]|done].
  - done.
Defined.
Definition demo_source (_ _ _ : pystr) (_ : option pystr) : res (list FetchedPack) := Ok (demo_fetch #"ls").

Lemma sync_converges_witness :
  let s0 := {| rg_rows := []; rg_next := 0; rg_store := run_history no_refusal no_refusal [] |} in
  exists items s1,
    @run_state registry_signature registries (serve 5 demo_source) _ (sync_packs 0%N (demo_fetch #"ls")) s0 = (Ok items, s1) /\
    ri_status <$> items = [ #"success"; #"error"; #"error"] /\
    @run_state registry_signature registries (serve 6 demo_source) _ (sync_packs 0%N (demo_fetch #"rm -rf /")) s1
      = (Ok (unchanged_item <$> items), s1).
Proof.
  cbn zeta.
  destruct (sync_converges no_refusal no_refusal [] [] 0%N 0%N 5 6 demo_source demo_source (demo_fetch #"ls") (demo_fetch #"rm -rf /"))
    as (items & s1 & Hfirst & _ & _ & _ & _ & Hsecond).
  - assert (fetched_pack_id <$> demo_fetch #"ls" = [ #"tools"; #"broken"; #"long"]) as -> by (vm_compute; reflexivity).
    apply (bool_decide_unpack _). vm_compute. exact I.
  - do 3 (apply Forall2_cons; split; [vm_compute; repeat split; reflexivity|]). constructor.
  - exists items, s1. split; [exact Hfirst|]. split; [|exact Hsecond].
    apply (f_equal (fun r => match r.1 with Ok l => ri_status <$> l | Raise _ => [] end)) in Hfirst. cbn [fst] in Hfirst.
    rewrite <- Hfirst. vm_compute. reflexivity.
Defined.
(** The names of entries are not checked: one that is .. leads out of the templates. *)
Definition parent_oracle : @oracle github_signature := fun h c =>
  match h with
  | [] => Ok {| gr_status := 200; gr_json := Ok (JArr [JObj [(#"type", JStr #"dir"); (#"name", JStr #"..")]]) |}
  | _ => Ok {| gr_status := 404; gr_json := Ok JNull |}
  end.
Example parent_directory_is_read :
  let '(r, h) := @run github_signature _ parent_oracle (fetch_packs #"acme" #"packs" #"main" 10) [] in
  r = Ok [] /\ @calls github_signature h
    = [Get #"/repos/acme/packs/contents/templates" (Some #"main");
       Get #"/repos/acme/packs/contents/templates/../manifest.json" (Some #"main")].
Proof. vm_compute. split; reflexivity. Qed.
End examples.
