(* ===== verification/Float64.v ===== *)
(** * Floats

    Python's [float]: IEEE 754 doubles, by the executable specification of the standard
    library ([SpecFloat]).  What the metrics use of them: [float(text)], the true division of
    integers, products, comparisons in [min] and [max], and [round(x, 2)]; and the laws that
    bound their results. *)
From Stdlib Require Import SpecFloat.
From S2P Require Import Prelude PyStr Errors.

Definition float : Type := spec_float.
Definition OverflowError : exn_class := LibraryError #"OverflowError".
Definition ZeroDivisionError : exn_class := LibraryError #"ZeroDivisionError".

Definition zero : float := S754_zero false.
Definition hundred : float := S754_finite false 7036874417766400 (-46).

(** The double nearest to a quotient of natural numbers, ties to even. *)
Definition quotient (s : bool) (a b : positive) : float :=
  let '(m, e, l) := SFdiv_core_binary 53 1024 (Zpos a) 0 (Zpos b) 0 in
  binary_round_aux 53 1024 s m e l.
Definition mul (x y : float) : float := SFmul 53 1024 x y.
Definition lt (x y : float) : bool := SFltb x y.
Definition le (x y : float) : bool := SFleb x y.

(** [a / b] on integers. *)
Definition truediv (a b : Z) : res float :=
  match a, b with
  | _, Z0 => raise ZeroDivisionError #"division by zero"
  | Z0, _ => Ok (S754_zero (b <? 0)%Z)
  | _, _ =>
      match quotient (xorb (a <? 0)%Z (b <? 0)%Z) (Z.to_pos (Z.abs a)) (Z.to_pos (Z.abs b)) with
      | S754_infinity _ => raise OverflowError #"integer division result too large for a float"
      | x => Ok x
      end
  end.

(** [max(0.0, min(100.0, x))]: an argument replaces the first one only if it compares so. *)
Definition clamp (x : float) : float :=
  let m := if lt x hundred then x else hundred in
  if lt zero m then m else zero.

(** [round(x, 2)]: to the nearest hundredth, ties to even, and then to the nearest double. *)
Definition hundredths (m : positive) (e : Z) : Z :=
  if (0 <=? e)%Z then Z.shiftl (100 * Zpos m) e
  else
    let d := (2 ^ (- e))%Z in
    let q := (100 * Zpos m / d)%Z in
    let r := (100 * Zpos m mod d)%Z in
    if (2 * r <? d)%Z then q else if (d <? 2 * r)%Z then (q + 1)%Z else if Z.even q then q else (q + 1)%Z.
Definition round2 (x : float) : float :=
  match x with
  | S754_finite s m e =>
      match hundredths m e with
      | Zpos n => quotient s n 100
      | _ => S754_zero s
      end
  | _ => x
  end.

(** ** [float(text)] *)

Section text.
Context `{Unicode}.
Open Scope N_scope.

(** Digits of any script count as the ASCII ones; an underscore must stand between digits. *)
Definition ascii_of (c : N) : N := match decimal_value c with Some d => 48 + d | None => c end.
Fixpoint drop_underscores (after : bool) (s : pystr) : option pystr :=
  match s with
  | [] => Some []
  | c :: s =>
      if c =? 95 then
        match s with
        | d :: _ => if after && ascii_digit d then drop_underscores false s else None
        | [] => None
        end
      else (cons c) <$> drop_underscores (ascii_digit c) s
  end.
Fixpoint take_digits (s : pystr) : pystr * pystr :=
  match s with
  | c :: s' => if ascii_digit c then let '(ds, r) := take_digits s' in (c :: ds, r) else ([], s)
  | [] => ([], [])
  end.
Definition take_sign (s : pystr) : bool * pystr :=
  match s with
  | c :: t => if c =? 45 then (true, t) else if c =? 43 then (false, t) else (false, s)
  | [] => (false, [])
  end.
(** [d * 10 ^ e], for [d] of so many digits: from [10 ^ 400] on it is infinite, and below
    [10 ^ -400] it is zero. *)
Definition scaled (s : bool) (d : N) (digits e : Z) : float :=
  match d with
  | 0 => S754_zero s
  | Npos d =>
      if (400 <? digits + e)%Z then S754_infinity s
      else if (digits + e <? -400)%Z then S754_zero s
      else if (0 <=? e)%Z then quotient s (d * Z.to_pos (10 ^ e)) 1
      else quotient s d (Z.to_pos (10 ^ (- e)))
  end.
Definition parse_exponent (s : pystr) : option Z :=
  match s with
  | [] => Some 0%Z
  | c :: s =>
      if (c =? 101) || (c =? 69) then
        let '(neg, s) := take_sign s in
        match take_digits s with
        | ((_ :: _) as ds, []) => Some (if neg then - Z.of_N (digits_value ds) else Z.of_N (digits_value ds))%Z
        | _ => None
        end
      else None
  end.
Definition parse_decimal (neg : bool) (s : pystr) : option float :=
  let '(whole, r) := take_digits s in
  let '(frac, r) := match r with 46 :: r => take_digits r | _ => ([], r) end in
  match whole ++ frac, parse_exponent r with
  | (_ :: _) as ds, Some e =>
      Some (scaled neg (digits_value ds) (Z.of_nat (length (drop_while (N.eqb 48) ds))) (e - Z.of_nat (length frac)))
  | _, _ => None
  end.
Definition small_letter (c : N) : N := if ascii_upper c then c + 32 else c.
Definition py_float (s : pystr) : res float :=
  let invalid := raise ValueError (#"could not convert string to float: " ++ py_repr s) in
  match drop_underscores false (ascii_of <$> strip s) with
  | None => invalid
  | Some t =>
      let '(neg, t) := take_sign t in
      let word := small_letter <$> t in
      if bool_decide (word ∈ [ #"inf"; #"infinity"]) then Ok (S754_infinity neg)
      else if str_eqb word #"nan" then Ok S754_nan
      else match parse_decimal neg t with Some x => Ok x | None => invalid end
  end.
End text.

(** ** Laws *)

Section laws.
Open Scope Z_scope.

Lemma digits2_bound m : Zpos m < 2 ^ Zpos (digits2_pos m).
Proof.
  induction m as [m IH|m IH|]; cbn [digits2_pos]; [| |done].
  all: rewrite Pos2Z.inj_succ, Z.pow_succ_r by lia; lia.
Qed.
Lemma digits2_lower m : 2 ^ (Zpos (digits2_pos m) - 1) <= Zpos m.
Proof.
  induction m as [m IH|m IH|]; cbn [digits2_pos]; [| |done].
  all: rewrite Pos2Z.inj_succ; replace (Z.succ (Zpos (digits2_pos m)) - 1) with (Z.succ (Zpos (digits2_pos m) - 1)) by lia.
  all: rewrite Z.pow_succ_r by lia; lia.
Qed.
Lemma digits2_le m k : 0 <= k -> m < 2 ^ k -> 0 <= m -> Zdigits2 m <= k.
Proof.
  intros Hk Hm H0. destruct m as [|p|]; cbn [Zdigits2]; [done| |lia]. pose proof (digits2_lower p) as Hl.
  destruct (Z.le_gt_cases (Zpos (digits2_pos p)) k); [done|]. exfalso.
  assert (2 ^ k <= 2 ^ (Zpos (digits2_pos p) - 1)) by (apply Z.pow_le_mono_r; lia). lia.
Qed.

(** Shifting right halves the mantissa. *)
Lemma shr_1_half r : 0 <= shr_m r -> shr_m (shr_1 r) = shr_m r / 2.
Proof.
  destruct r as [[|[m|m|]|] b s]; cbn [shr_m]; intros Hm; try done.
  - apply (Z.div_unique _ _ _ 1); cbn; lia.
  - apply (Z.div_unique _ _ _ 0); cbn; lia.
Qed.
Lemma shr_iter p r : 0 <= shr_m r -> shr_m (SpecFloat.iter_pos shr_1 p r) = shr_m r / 2 ^ Zpos p.
Proof.
  revert r. induction p as [p IH|p IH|]; intros r Hr; cbn [SpecFloat.iter_pos]; [| |by rewrite shr_1_half].
  - assert (0 <= shr_m (shr_1 r)) as H1 by (rewrite shr_1_half by done; apply Z.div_pos; lia).
    assert (0 <= shr_m (SpecFloat.iter_pos shr_1 p (shr_1 r))) as H2 by (rewrite IH by done; apply Z.div_pos; lia).
    rewrite (IH _ H2), (IH _ H1), shr_1_half by done. rewrite !Z.div_div by lia. f_equal.
    rewrite (Pos2Z.inj_xI p), Z.pow_add_r, Z.pow_mul_r by lia. change (2 ^ 1) with 2. change (2 ^ 2) with (2 * 2).
    rewrite Z.pow_mul_l. lia.
  - assert (0 <= shr_m (SpecFloat.iter_pos shr_1 p r)) as H2 by (rewrite IH by done; apply Z.div_pos; lia).
    rewrite (IH _ H2), (IH _ Hr), Z.div_div by lia. f_equal.
    rewrite (Pos2Z.inj_xO p), Z.pow_mul_r by lia. change (2 ^ 2) with (2 * 2). by rewrite Z.pow_mul_l.
Qed.
Lemma record_m m l : shr_m (shr_record_of_loc m l) = m.
Proof. by destruct l as [|[]]. Qed.
(** After [shr_fexp] at most 53 digits are left. *)
Lemma shr_fexp_bound m e l : 0 <= m -> 0 <= shr_m (shr_fexp 53 1024 m e l).1 < 2 ^ 53.
Proof.
  intros Hm. unfold shr_fexp. assert (m < 2 ^ Zdigits2 m) as Hd by (destruct m; [done|apply digits2_bound|lia]).
  assert (0 <= Zdigits2 m) by (destruct m; cbn; lia).
  assert (Zdigits2 m - 53 <= fexp 53 1024 (Zdigits2 m + e) - e) as Hs by (unfold fexp; lia).
  destruct (fexp 53 1024 (Zdigits2 m + e) - e) as [|p|p] eqn:E; cbn [shr fst]; [| |].
  - rewrite record_m. split; [done|]. eapply Z.lt_le_trans; [exact Hd|]. apply Z.pow_le_mono_r; lia.
  - rewrite shr_iter by (by rewrite record_m). rewrite record_m. split; [apply Z.div_pos; lia|].
    apply Z.div_lt_upper_bound; [lia|]. rewrite <- Z.pow_add_r by lia. eapply Z.lt_le_trans; [exact Hd|].
    apply Z.pow_le_mono_r; lia.
  - rewrite record_m. split; [done|]. eapply Z.lt_le_trans; [exact Hd|]. apply Z.pow_le_mono_r; lia.
Qed.
(** Every result of an operation has a mantissa of at most 53 bits. *)
Definition small (x : float) : Prop := match x with S754_finite _ m _ => Zpos m < 2 ^ 53 | _ => True end.
Lemma round_small s m e l : 0 <= m -> small (binary_round_aux 53 1024 s m e l).
Proof.
  intros Hm. unfold binary_round_aux. pose proof (shr_fexp_bound m e l Hm) as H1. destruct (shr_fexp _ _ m e l) as [r1 e1].
  cbn [fst] in H1. assert (0 <= round_nearest_even (shr_m r1) (loc_of_shr_record r1)) as H2.
  { unfold round_nearest_even. destruct (loc_of_shr_record r1) as [|[]]; try destruct (Z.even _); lia. }
  pose proof (shr_fexp_bound _ e1 loc_Exact H2) as H3. destruct (shr_fexp _ _ _ e1 loc_Exact) as [r2 e2]. cbn [fst] in H3.
  destruct (shr_m r2) as [|p|p]; [done| |lia]. destruct (_ <=? _); [|done]. cbn. lia.
Qed.
Lemma quotient_small s a b : small (quotient s a b).
Proof.
  unfold quotient, SFdiv_core_binary. cbn zeta. set (m := match _ with Z0 => _ | Zpos _ => _ | Zneg _ => _ end).
  assert (0 <= m) as Hm.
  { unfold m. destruct (_ - _ - _)%Z; [lia|apply Z.shiftl_nonneg; lia|lia]. }
  unfold Z.div. pose proof (Z.div_pos m (Zpos b) Hm) as Hq. unfold Z.div in Hq. destruct (Z.div_eucl m (Zpos b)) as [q r].
  apply round_small. lia.
Qed.
Lemma mul_small x y : small x -> small y -> small (mul x y).
Proof. unfold mul. destruct x, y; try done. intros _ _. by apply round_small. Qed.
Lemma truediv_small a b x : truediv a b = Ok x -> small x.
Proof.
  unfold truediv, raise. destruct a as [|a|a], b as [|b|b]; try done; try (by intros [= <-]).
  all: pose proof (quotient_small) as Hq; destruct (quotient _ _ _) eqn:E; try done; intros [= <-]; rewrite <- E; apply Hq.
Qed.

(** ** Percentages *)

Definition percent (x : float) : Prop := le zero x = true /\ le x hundred = true.
Lemma lt_le x y : lt x y = true -> le x y = true.
Proof. unfold lt, le, SFltb, SFleb. by destruct (SFcompare x y) as [[]|]. Qed.
(** Whatever the argument: a NaN becomes 100. *)
Lemma clamp_percent x : percent (clamp x).
Proof.
  unfold clamp. cbn zeta. destruct (lt x hundred) eqn:Ex.
  - destruct (lt zero x) eqn:E0; [split; by apply lt_le|done].
  - done.
Qed.
Lemma clamp_small x : small x -> small (clamp x).
Proof. intros Hx. unfold clamp. cbn zeta. destruct (lt x hundred); [by destruct (lt zero x)|done]. Qed.
Example clamp_nan : clamp S754_nan = hundred. Proof. reflexivity. Qed.

Lemma hundredths_range n : (n < N.to_nat 10000)%nat -> percent (quotient false (Pos.of_succ_nat n) 100).
Proof.
  intros Hn. assert (forallb (fun n => le zero (quotient false (Pos.of_succ_nat n) 100) && le (quotient false (Pos.of_succ_nat n) 100) hundred)
    (seq 0 (N.to_nat 10000)) = true) as Hall by (vm_compute; reflexivity).
  rewrite forallb_forall in Hall. specialize (Hall n). rewrite in_seq in Hall. apply andb_true_iff, Hall. lia.
Qed.
Lemma le_mantissa m c : match Some (Pos.compare_cont Eq m c) with Some (Eq | Lt) => true | _ => false end = true -> Zpos m <= Zpos c.
Proof. pose proof (Pos.compare_spec m c) as Hc. unfold Pos.compare in Hc. destruct Hc; [subst|..]; intros; try done; lia. Qed.
Lemma percent_finite s m e : small (S754_finite s m e) -> percent (S754_finite s m e) ->
  s = false /\ (e < 0) /\ Zpos m <= 100 * 2 ^ (- e).
Proof.
  intros Hm [H0 H1]. destruct s; [done|]. split; [done|]. unfold le, SFleb, hundred, SFcompare in H1.
  destruct (Z.compare_spec e (-46)) as [->|He|He]; [|clear H1|done].
  - split; [lia|]. change (100 * 2 ^ (- -46)) with (Zpos 7036874417766400).
    exact (le_mantissa m _ H1).
  - split; [lia|]. cbn in Hm. assert (2 ^ 47 <= 2 ^ (- e)) by (apply Z.pow_le_mono_r; lia). lia.
Qed.
Lemma hundredths_bound m e : e < 0 -> Zpos m <= 100 * 2 ^ (- e) -> 0 <= hundredths m e <= 10000.
Proof.
  intros He Hm. unfold hundredths. rewrite (proj2 (Z.leb_gt 0 e)) by lia. cbn zeta. set (d := 2 ^ (- e)) in *.
  assert (0 < d) as Hd by (apply Z.pow_pos_nonneg; lia).
  pose proof (Z.div_mod (100 * Zpos m) d ltac:(lia)) as E. pose proof (Z.mod_pos_bound (100 * Zpos m) d Hd) as Hr.
  set (q := 100 * Zpos m / d) in *. set (r := (100 * Zpos m) mod d) in *.
  assert (0 <= q) by (apply Z.div_pos; lia). assert (q <= 10000) by nia.
  assert (q = 10000 -> r = 0) as Hq by (intros ->; nia).
  destruct (Z.ltb_spec (2 * r) d); [lia|]. destruct (Z.ltb_spec d (2 * r)).
  - destruct (Z.eq_dec q 10000) as [Eq|]; [specialize (Hq Eq)|]; lia.
  - destruct (Z.even q); [lia|]. destruct (Z.eq_dec q 10000) as [Eq|]; [specialize (Hq Eq)|]; lia.
Qed.
Lemma round2_percent x : small x -> percent x -> percent (round2 x).
Proof.
  intros Hs Hp. destruct x as [s|s| |s m e]; try done. destruct (percent_finite s m e Hs Hp) as (-> & He & Hm).
  cbn [round2]. pose proof (hundredths_bound m e He Hm) as Hb. destruct (hundredths m e) as [|n|n]; [done| |lia].
  replace n with (Pos.of_succ_nat (Pos.to_nat n - 1)) by lia. apply hundredths_range. lia.
Qed.
End laws.

Section examples.
#[local] Existing Instance ascii_only.
Example float_of_text : py_float #" 12.5 " = Ok (S754_finite false 7036874417766400 (-49)). Proof. vm_compute. reflexivity. Qed.
Example float_of_exponent : py_float #"1_0e-1" = Ok (S754_finite false 4503599627370496 (-52)). Proof. vm_compute. reflexivity. Qed.
Example third : truediv 1 3 = Ok (S754_finite false 6004799503160661 (-54)). Proof. vm_compute. reflexivity. Qed.
Example tie_to_even : round2 (S754_finite false 4503599627370496 (-55)) = quotient false 12 100. Proof. vm_compute. reflexivity. Qed.
End examples.
