(* ===== verification/NodeMetrics.v ===== *)
(** * Metrics of nodes

    [app/application/services/node_metrics_service.py] and the handler of
    [app/api/v2/nodes_handlers/bulk_handlers/observability.py]: processor, memory, disk, load
    and uptime, read through one session; and what the answers of a node can make of them. *)
From Stdlib Require Import SpecFloat.
From S2P Require Import Prelude PyStr Errors Json Bytes Effects Dto Script Commands Float64.

(** ** Data ([dto/node_metrics.py]) *)

Record CpuMetricsDTO := { cm_usage_percent : float; cm_cores : Z }.
Record UsageMetricsDTO := { um_total_bytes : Z; um_used_bytes : Z; um_percent : float }.
Record LoadAverageDTO := { la_one_min : float; la_five_min : float; la_fifteen_min : float }.
Record NodeMetricsDTO := {
  nm_cpu : CpuMetricsDTO; nm_memory : UsageMetricsDTO; nm_disk : UsageMetricsDTO; nm_load_average : LoadAverageDTO;
  nm_uptime_since : pystr }.

#[local] Existing Instance command_signature.

Definition vmstat_command : pystr := #"vmstat 1 2 | tail -1 | awk '{print $13+$14+$16+$17}'".
Definition stat_command : pystr := #"head -1 /proc/stat".
Definition free_command : pystr := #"free -b | awk '/Mem:/ {print $2, $3, $4}'".
Definition df_command : pystr := #"df -B1 / | awk 'NR==2 {print $2, $3, $4}'".
Definition load_command : pystr := #"cat /proc/loadavg | awk '{print $1, $2, $3}'".

(** ** The service *)

Section service.
Context `{Unicode} (c : connector).

(** [connector.execute_command]. *)
Definition remote (command : pystr) : prog (pystr * pystr * Z) := perform (RunCommand c command).

(** [[int(v) for v in text.strip().split()[1:]]]. *)
Fixpoint ints (words : list pystr) : res (list Z) :=
  match words with
  | [] => Ok []
  | w :: words =>
      match py_int w with
      | None => raise ValueError (#"invalid literal for int() with base 10: " ++ py_repr w)
      | Some z => zs ← ints words; Ok (z :: zs)
      end
  end.
Definition stat_values (text : pystr) : res (list Z) := ints (drop 1 (split_ws (strip text))).
Definition nth_value (i : nat) (vals : list Z) : res Z :=
  match vals !! i with Some z => Ok z | None => raise IndexError #"list index out of range" end.
Definition sum (vals : list Z) : Z := foldr Z.add 0%Z vals.
(** The share of the time between two readings that was not idle. *)
Definition busy_share (s1 s2 : pystr) : res float :=
  vals1 ← stat_values s1;
  vals2 ← stat_values s2;
  idle1 ← nth_value 3 vals1;
  idle2 ← nth_value 3 vals2;
  let d_idle := (idle2 - idle1)%Z in
  let d_total := (sum vals2 - sum vals1)%Z in
  if (d_total =? 0)%Z then Ok zero
  else share ← truediv (d_total - d_idle) d_total; Ok (mul share hundred).

Definition _cpu_from_proc_stat : prog float :=
  try_except
    ('(s1, _, ec1) ← remote stat_command;
     if negb (ec1 =? 0)%Z || str_eqb (strip s1) [] then mret zero
     else
       _ ← remote #"sleep 1";
       '(s2, _, ec2) ← remote stat_command;
       if negb (ec2 =? 0)%Z || str_eqb (strip s2) [] then mret zero
       else lift (busy_share s1 s2))
    (on_exception (fun _ => mret zero)).

(** The usage [vmstat] shows, if it does. *)
Definition cpu_from_vmstat : prog (option float) :=
  try_except
    ('(stdout, _, exit_code) ← remote vmstat_command;
     if (exit_code =? 0)%Z && negb (str_eqb (strip stdout) [])
     then usage ← lift (py_float (strip stdout)); mret (Some usage)
     else mret None)
    (on_exception (fun _ => mret None)).
Definition core_count (stdout : pystr) : Z :=
  match strip stdout with
  | [] => 1%Z
  | text => match py_int text with Some cores => if (cores <? 1)%Z then 1%Z else cores | None => 1%Z end
  end.
Definition _collect_cpu : prog (float * Z) :=
  usage ← cpu_from_vmstat;
  cpu_usage ← match (usage : option float) with Some usage => mret usage | None => _cpu_from_proc_stat end;
  '(cores_stdout, _, _) ← remote #"nproc";
  mret (clamp cpu_usage, core_count cores_stdout).

Definition no_load : LoadAverageDTO := {| la_one_min := zero; la_five_min := zero; la_fifteen_min := zero |}.
Definition _collect_load_average : prog LoadAverageDTO :=
  '(stdout, _, exit_code) ← remote load_command;
  if (exit_code =? 0)%Z then
    match split_ws (strip stdout) with
    | a :: b :: d :: _ =>
        one ← lift (py_float a);
        five ← lift (py_float b);
        fifteen ← lift (py_float d);
        mret {| la_one_min := one; la_five_min := five; la_fifteen_min := fifteen |}
    | _ => mret no_load
    end
  else mret no_load.

Definition used_share (total used : Z) : res float :=
  if (0 <? total)%Z then share ← truediv used total; Ok (mul share hundred) else Ok zero.
Definition to_int (s : pystr) : res Z :=
  match py_int s with Some z => Ok z | None => raise ValueError (#"invalid literal for int() with base 10: " ++ py_repr s) end.
Definition usage_of (stdout : pystr) : res (Z * Z * float) :=
  match split_ws (strip stdout) with
  | a :: b :: _ :: _ =>
      total ← to_int a;
      used ← to_int b;
      percent ← used_share total used;
      Ok (total, used, percent)
  | _ => Ok (0%Z, 0%Z, zero)
  end.
Definition _collect_usage (command : pystr) : prog (Z * Z * float) :=
  '(stdout, _, _) ← remote command;
  lift (usage_of stdout).

(** The body of the session, and the answer made of it. *)
Definition usage_metrics (u : Z * Z * float) : UsageMetricsDTO :=
  let '(total, used, percent) := u in
  {| um_total_bytes := total; um_used_bytes := used; um_percent := round2 (clamp percent) |}.
Definition readings : prog NodeMetricsDTO :=
  '(cpu_usage, cores) ← _collect_cpu;
  memory ← _collect_usage free_command;
  disk ← _collect_usage df_command;
  load_average ← _collect_load_average;
  '(uptime_stdout, _, _) ← remote #"uptime -s";
  mret {| nm_cpu := {| cm_usage_percent := cpu_usage; cm_cores := cores |};
          nm_memory := usage_metrics memory; nm_disk := usage_metrics disk; nm_load_average := load_average;
          nm_uptime_since := match strip uptime_stdout with [] => #"unknown" | text => text end |}.
End service.

Section collect.
Context `{Unicode}.

Definition collect_failed (node_id : uuid) (exc : exn) : exn :=
  Exn ConnectionFailedError (#"Failed to collect metrics from node " ++ uuid_str node_id ++ #": " ++ exn_msg exc).
Definition collect (node_id : uuid) : prog NodeMetricsDTO :=
  node ← node_or_raise node_id;
  c ← build_ssh_connector node None;
  try_except (in_session c (readings c))
    (fun exc =>
       if isinstance (exn_type exc) ConnectionFailedError then None
       else on_exception (fun exc => lift (Raise (collect_failed node_id exc))) exc).

(** ** The handler

    The answer's schema checks the values inside the worker's [try]. *)

Record BulkNodeMetricsResult := {
  nr_node_id : uuid; nr_status : pystr; nr_metrics : option NodeMetricsDTO; nr_error : pystr }.
Definition ge_zero (x : float) : bool := le zero x.
Definition valid_percent (x : float) : bool := le zero x && le x hundred.
Definition valid_usage (u : UsageMetricsDTO) : bool :=
  (0 <=? um_total_bytes u)%Z && (0 <=? um_used_bytes u)%Z && valid_percent (um_percent u).
Definition valid_metrics (m : NodeMetricsDTO) : bool :=
  valid_percent (cm_usage_percent (nm_cpu m)) && (1 <=? cm_cores (nm_cpu m))%Z && valid_usage (nm_memory m)
  && valid_usage (nm_disk m) && ge_zero (la_one_min (nm_load_average m)) && ge_zero (la_five_min (nm_load_average m))
  && ge_zero (la_fifteen_min (nm_load_average m)).
Definition ValidationError : exn_class := LibraryError #"ValidationError".
Definition _collect_one (node_id : uuid) : prog BulkNodeMetricsResult :=
  try_except
    (result ← collect node_id;
     if valid_metrics result
     then mret {| nr_node_id := node_id; nr_status := #"success"; nr_metrics := Some result; nr_error := [] |}
     else lift (raise ValidationError #"validation error"))
    (on_exception (fun exc =>
       mret {| nr_node_id := node_id; nr_status := #"error"; nr_metrics := None; nr_error := sanitize_bulk_error exc |})).
Definition succeeded_results (results : list BulkNodeMetricsResult) : Z :=
  count (fun r => str_eqb (nr_status r) #"success") results.
Definition bulk_get_node_metrics (sched : list nat) (ids : list uuid) : prog (Z * list BulkNodeMetricsResult) :=
  results ← gather sched (_collect_one <$> ids);
  let succeeded := succeeded_results results in
  let failed := (Z.of_nat (length results) - succeeded)%Z in
  mret (if (0 <? failed)%Z && (0 <? succeeded)%Z then 207%Z else 200%Z, results).
End collect.

(** ** What the metrics promise *)

Section promises.
Context `{Unicode}.

(** Every text a node is sent; nothing of a request or of a row is in it. *)
Definition metric_commands : list pystr :=
  [vmstat_command; stat_command; #"sleep 1"; #"nproc"; free_command; df_command; load_command; #"uptime -s"].
Definition reads_metrics (c : connector) (cl : command_call) : Prop :=
  exists command, cl = RunCommand c command /\ command ∈ metric_commands.

(** What an answer satisfies, whatever the node printed. *)
Definition within_bounds (m : NodeMetricsDTO) : Prop :=
  percent (cm_usage_percent (nm_cpu m)) /\ (1 <= cm_cores (nm_cpu m))%Z /\
  percent (um_percent (nm_memory m)) /\ percent (um_percent (nm_disk m)) /\ nm_uptime_since m <> [].

Section session.
Context (c : connector).
Local Abbreviation spec Q := (local_spec (reads_metrics c) (fun r => match r with Ok a => Q a | Raise _ => True end)).

Lemma spec_bind {A B} (Q : A -> Prop) (R : B -> Prop) (p : prog A) (f : A -> prog B) :
  spec Q p -> (forall a, Q a -> spec R (f a)) -> spec R (p ≫= f).
Proof. intros Hp Hf. eapply local_bind; [exact Hp|exact Hf|done]. Qed.
Lemma spec_ret {A} (Q : A -> Prop) a : Q a -> spec Q (mret a : prog A).
Proof. by intros Ha h. Qed.
Lemma spec_lift {A} (Q : A -> Prop) (r : res A) : (forall a, r = Ok a -> Q a) -> spec Q (lift r).
Proof. intros Ha h. destruct r; cbn; auto. Qed.
Lemma spec_remote command : command ∈ metric_commands -> spec (fun _ => True) (remote c command).
Proof. intros Hc. apply (@local_perform command_signature (reads_metrics c) (RunCommand c command)); [by exists command|by intros []]. Qed.
Lemma spec_default {A} (Q : A -> Prop) (p : prog A) a : spec (fun _ => True) p -> Q a ->
  (forall x, Q x) -> spec Q (try_except p (on_exception (fun _ => mret a))).
Proof.
  intros Hp Ha HQ. eapply local_try; [exact Hp|intros x _; apply HQ|]. intros e _. unfold on_exception.
  destruct (isinstance _ _); [by apply spec_ret|done].
Qed.

Lemma cpu_spec : spec (fun r => percent r.1 /\ (1 <= r.2)%Z) (_collect_cpu c).
Proof.
  eapply (spec_bind (fun _ => True)).
  { apply spec_default; [|done..]. eapply spec_bind; [apply spec_remote; by set_solver|]. intros [[out err] code] _.
    destruct (_ && _); [|by apply spec_ret]. eapply (spec_bind (fun _ => True)); [by apply spec_lift|]. intros. by apply spec_ret. }
  intros usage _. eapply (spec_bind (fun _ => True)).
  { destruct usage; [by apply spec_ret|]. apply spec_default; [|done..].
    eapply spec_bind; [apply spec_remote; by set_solver|]. intros [[s1 err] ec1] _. destruct (_ || _); [by apply spec_ret|].
    eapply spec_bind; [apply spec_remote; by set_solver|]. intros _ _.
    eapply spec_bind; [apply spec_remote; by set_solver|]. intros [[s2 err2] ec2] _. destruct (_ || _); [by apply spec_ret|].
    by apply spec_lift. }
  intros cpu _. eapply spec_bind; [apply spec_remote; by set_solver|]. intros [[out err] code] _. apply spec_ret.
  split; [apply clamp_percent|]. cbn [snd]. unfold core_count. destruct (strip out); [lia|]. destruct (py_int _); [|lia].
  destruct (Z.ltb_spec z 1); lia.
Qed.
Lemma usage_spec command : command ∈ metric_commands ->
  spec (fun u => percent (um_percent (usage_metrics u))) (_collect_usage c command).
Proof.
  intros Hc. eapply spec_bind; [by apply spec_remote|]. intros [[out err] code] _. apply spec_lift. intros [[total used] p] Hu.
  cbn [usage_metrics um_percent]. apply round2_percent; [|apply clamp_percent]. apply clamp_small. revert Hu. unfold usage_of.
  destruct (split_ws _) as [|a [|b [|x words]]]; try (by intros [= <- <- <-]).
  intros (t & _ & (u & _ & (q & Hq & [= <- <- <-])%bind_ok)%bind_ok)%bind_ok. unfold used_share in Hq.
  destruct (0 <? t)%Z; [|by injection Hq as <-]. apply bind_ok in Hq as (share & Hs & [= <-]). apply mul_small; [|done].
  by eapply truediv_small.
Qed.
Lemma readings_spec : spec within_bounds (readings c).
Proof.
  eapply spec_bind; [apply cpu_spec|]. intros [usage cores] [Hu Hc]. cbn [fst snd] in *.
  eapply spec_bind; [apply usage_spec; by set_solver|]. intros memory Hm.
  eapply spec_bind; [apply usage_spec; by set_solver|]. intros disk Hd.
  eapply (spec_bind (fun _ => True)).
  { eapply spec_bind; [apply spec_remote; by set_solver|]. intros [[out err] code] _. destruct (_ =? _)%Z; [|by apply spec_ret].
    destruct (split_ws _) as [|x [|y [|z words]]]; try (by apply spec_ret).
    do 3 (eapply (spec_bind (fun _ => True)); [by apply spec_lift|]; intros ? _). by apply spec_ret. }
  intros load _. eapply spec_bind; [apply spec_remote; by set_solver|]. intros [[out err] code] _. apply spec_ret.
  split_and!; try done. cbn [nm_uptime_since]. by destruct (strip out).
Qed.
End session.

(** Before the session: the node is looked up and its credentials are decrypted. *)
Definition prepares (cl : command_call) : Prop :=
  match cl with OpenSession _ | RunCommand _ _ | CloseSession _ => False | _ => True end.
Lemma decrypt_prepares value : local_spec prepares (fun _ => True) (Commands.decrypt value).
Proof. by intros h. Qed.
Lemma node_prepares node_id : local_spec prepares (fun _ => True) (node_or_raise node_id).
Proof. apply (local_bind _ (fun _ => True)); [by intros h|by intros [node|] _ h|done]. Qed.
Lemma connector_prepares node timeout : local_spec prepares (fun _ => True) (build_ssh_connector node timeout).
Proof.
  unfold build_ssh_connector. cbn zeta.
  do 3 (apply (local_bind _ (fun _ => True)); [apply decrypt_prepares| |done]; intros ? _).
  apply (local_bind _ (fun _ => True)); [by intros h|by intros ? _ h|done].
Qed.

Definition asked_to_open (h : history) : Prop := exists c, OpenSession c ∈ calls h.
Definition session_open (h : history) : Prop := exists c, existT (OpenSession c) (Ok tt : res (command_answer (OpenSession c))) ∈ h.
Definition closed_last (h : history) : Prop := exists h' c a, h = h' ++ [existT (CloseSession c) a].
Definition only_metrics (cl : command_call) : Prop :=
  match cl with RunCommand _ command => command ∈ metric_commands | _ => True end.
Definition metrics_outcome (h : history) (r : res NodeMetricsDTO) : Prop :=
  (session_open h -> closed_last h) /\
  match r with
  | Ok m => within_bounds m
  | Raise e => asked_to_open h -> isinstance (exn_type e) ConnectionFailedError = true \/ isinstance (exn_type e) Exception_ = false
  end.

Lemma prepares_not_open k : Forall prepares (calls k) -> ~ asked_to_open k.
Proof. intros Hk [c Hc]. rewrite Forall_forall in Hk. by specialize (Hk _ Hc). Qed.
Lemma open_asked h : session_open h -> asked_to_open h.
Proof. intros [c Hc]. exists c. by apply (list_elem_of_fmap_2 called) in Hc. Qed.
Lemma prepares_wp {A} (p : prog A) (f : A -> prog NodeMetricsDTO) h : local_spec prepares (fun _ => True) p ->
  Forall prepares (calls h) ->
  (forall a h', Forall prepares (calls h') -> wp (f a) h' (fun _ => only_metrics) metrics_outcome) ->
  wp (p ≫= f) h (fun _ => only_metrics) metrics_outcome.
Proof.
  intros Hp Hh Hf. apply wp_bind. eapply wp_mono; [by apply wp_local_calls|by intros ? []|].
  intros h' r [_ (k & -> & Hk)]. assert (Forall prepares (calls (h ++ k))) as Hall by (unfold calls; rewrite fmap_app; by apply Forall_app).
  destruct r as [a|e]; [by apply Hf|]. apply prepares_not_open in Hall. split; [by intros ?%open_asked|done].
Qed.

(** In the session: it is closed last, and what escapes is no other ordinary exception. *)
Lemma session_wp node_id c h : Forall prepares (calls h) ->
  wp (try_except (in_session c (readings c))
       (fun exc => if isinstance (exn_type exc) ConnectionFailedError then None
                   else on_exception (fun exc => lift (Raise (collect_failed node_id exc))) exc))
     h (fun _ => only_metrics) metrics_outcome.
Proof.
  intros Hh. assert (forall h' r, (session_open h' -> closed_last h') ->
    match r with Ok m => within_bounds m | Raise _ => True end ->
    match r with
    | Ok m => metrics_outcome h' (Ok m)
    | Raise e => match (if isinstance (exn_type e) ConnectionFailedError then None
                        else on_exception (fun exc => lift (Raise (collect_failed node_id exc))) e) with
                 | Some q => wp q h' (fun _ => only_metrics) metrics_outcome
                 | None => metrics_outcome h' (Raise e)
                 end
    end) as Hend.
  { intros h' [m|e] Hc Hm; [done|]. destruct (isinstance (exn_type e) ConnectionFailedError) eqn:E1; [split; [done|by left]|].
    unfold on_exception. destruct (isinstance (exn_type e) Exception_) eqn:E2; [apply wp_lift; split; [done|by left]|].
    split; [done|by right]. }
  apply wp_try. unfold in_session. apply wp_bind. split; [done|]. intros [u|e]; cbn [wp].
  - apply wp_finally. eapply wp_mono; [apply wp_local_calls, readings_spec| |].
    + intros ? cl. unfold reads_metrics. by intros (command & -> & ?).
    + intros h1 r [Hr (k & -> & Hk)]. split; [done|]. intros a. cbn [wp].
      assert (forall h', closed_last (h' ++ [existT (CloseSession c) a])) as Hcl by (intros; by eexists _, _, _).
      destruct a as [[]|e]; [exact (Hend _ r (fun _ => Hcl _) Hr)|exact (Hend _ (Raise e) (fun _ => Hcl _) I)].
  - apply (Hend _ (Raise e)); [|done]. intros [c' Hc']. exfalso. apply elem_of_app in Hc' as [Hc'|Hc'].
    + apply (prepares_not_open _ Hh), open_asked. by exists c'.
    + apply list_elem_of_singleton in Hc'. discriminate Hc'.
Qed.

(** C36: whatever a node prints, no reading falls outside its bounds: when metrics are answered,
    the three percentages are doubles between 0 and 100, also after rounding to hundredths, and
    there is at least one core; the node is sent the eight fixed commands only; a session that
    was opened is closed by the last call; and from the attempt to open it on nothing but
    ConnectionFailedError reports an ordinary failure. *)
Theorem metrics_within_bounds (o : oracle) (node_id : uuid) :
  let '(r, h) := run o (collect node_id) [] in
  Forall only_metrics (calls h) /\ metrics_outcome h r.
Proof.
  assert (wp (collect node_id) [] (fun _ => only_metrics) metrics_outcome) as Hw.
  { unfold collect. apply prepares_wp; [apply node_prepares|constructor|]. intros node h1 H1.
    apply prepares_wp; [apply connector_prepares|done|]. intros c h2 H2. by apply session_wp. }
  apply (wp_run _ o) in Hw. destruct (run o (collect node_id) []) as [r h]. destruct Hw as [Hr Hg].
  apply grows_calls in Hg as (k & -> & Hk). by split.
Qed.

(** One result per node in the order of the request, under any interleaving; the metrics of a
    success satisfy the schema of the answer. *)
Theorem bulk_metrics_in_order (o : oracle) (sched : list nat) (ids : list uuid) :
  let '(r, h) := run o (bulk_get_node_metrics sched ids) [] in
  match r with
  | Ok (status, results) =>
      Forall2 (fun id r => nr_node_id r = id /\
        ((nr_status r = #"success" /\ exists m, nr_metrics r = Some m /\ valid_metrics m = true) \/
         (nr_status r = #"error" /\ nr_metrics r = None))) ids results /\
      (status = 207%Z <-> (0 < succeeded_results results < Z.of_nat (length results))%Z)
  | Raise e => isinstance (exn_type e) Exception_ = false
  end.
Proof.
  set (ok := fun id r => nr_node_id r = id /\
    ((nr_status r = #"success" /\ exists m, nr_metrics r = Some m /\ valid_metrics m = true) \/ (nr_status r = #"error" /\ nr_metrics r = None))).
  set (Q := fun id (r : res BulkNodeMetricsResult) => match r with Ok r => ok id r | Raise e => isinstance (exn_type e) Exception_ = false end).
  assert (forall id, local_spec (fun _ => True) (Q id) (_collect_one id)) as Hone.
  { intros id. eapply (local_try _ (fun r => match r with Ok r => ok id r | Raise _ => True end)).
    - eapply (local_bind _ (fun _ => True)); [apply local_true| |done]. intros m _.
      destruct (valid_metrics m) eqn:Em; [|by intros h]. intros h. split; [done|]. left. split; [done|]. by exists m.
    - done.
    - intros e _. unfold on_exception. destruct (isinstance _ _) eqn:E; [|exact E]. intros h. split; [done|]. by right. }
  pose proof (local_gather sched _ Q _collect_one ids (fun id _ => Hone id)) as Hg.
  assert (wp (bulk_get_node_metrics sched ids) [] (fun _ _ => True)
    (fun _ r => match r with
     | Ok (status, results) => Forall2 ok ids results /\ (status = 207%Z <-> (0 < succeeded_results results < Z.of_nat (length results))%Z)
     | Raise e => isinstance (exn_type e) Exception_ = false
     end)) as Hw.
  { apply wp_bind. eapply wp_mono; [apply Hg|done|]. intros h' [results|e]; [|by intros (id & _ & He)]. intros Hr. apply wp_lift.
    split; [exact Hr|]. destruct (Z.ltb_spec 0 (Z.of_nat (length results) - succeeded_results results)),
      (Z.ltb_spec 0 (succeeded_results results)); cbn; split; intros; try done; lia. }
  apply (wp_run _ o) in Hw. destruct (run _ _ _) as [r h]. by destruct Hw.
Qed.
End promises.

(** ** A node that answers *)

Section examples.
#[local] Existing Instance ascii_only.
Definition demo_node : NodeConnectionDTO := {|
  n_id := 1%N; n_name := #"n"; n_endpoint := {| ep_host := #"h"; ep_port := 22; ep_connection_type := #"ssh"; ep_docker_host := None; ep_has_docker := false |};
  n_credentials := {| cr_username := None; cr_password := None; cr_ssh_key := None; cr_passphrase := None |} |}.
Definition printed (command : pystr) : pystr :=
  if str_eqb command vmstat_command then [] (* no vmstat *)
  else if str_eqb command free_command then #"8589934592 2147483648 6442450944"
  else if str_eqb command df_command then #"3 1 2"
  else if str_eqb command load_command then #"0.5 0.25 1"
  else if str_eqb command #"nproc" then #"4" else if str_eqb command stat_command then #"cpu 1 2 3 4" else [].
Definition demo_oracle : oracle := fun _ cl =>
  match cl return res (command_answer cl) with
  | Fleet (Script.Decrypt v) => Ok v
  | GetConnection _ => Ok (Some demo_node)
  | CreateSsh _ | OpenSession _ | CloseSession _ => Ok tt
  | RunCommand _ command => Ok (printed command, [], 0%Z)
  | _ => raise RuntimeError #"not called"
  end.
(** A third of a disk is 33.33 percent: the double nearest to it. *)
Example demo_metrics : (run demo_oracle (collect 1%N) []).1 = Ok {|
  nm_cpu := {| cm_usage_percent := zero; cm_cores := 4 |};
  nm_memory := {| um_total_bytes := 8589934592; um_used_bytes := 2147483648; um_percent := quotient false 25 1 |};
  nm_disk := {| um_total_bytes := 3; um_used_bytes := 1; um_percent := quotient false 3333 100 |};
  nm_load_average := {| la_one_min := quotient false 1 2; la_five_min := quotient false 1 4; la_fifteen_min := quotient false 1 1 |};
  nm_uptime_since := #"unknown" |}.
Proof. vm_compute. reflexivity. Qed.
End examples.
