(* ===== verification/PackQueries.v ===== *)
(** * Queries of template packs

    The reads of [app/adapters/persistence/template_pack.py] over the tables of [Packs] -
    listing with filters, one pack with its files, the archive of its files - and
    [app/application/services/template_pack_service.py].  The bytes of a tar archive are those
    of a library: an archive is its entries. *)
From stdpp Require Import sorting.
From S2P Require Import Prelude PyStr Errors Json Dto Bytes Codec Assets Packs PackSpec PackInv Query Effects GitHub Registries RegistrySpec.

(** ** Data ([dto/template_pack.py]) *)

Record PackListQueryDTO := {
  lq_offset : Z; lq_limit : Z; lq_registry_id : option uuid; lq_tag : option pystr; lq_installed : option bool;
  lq_search : option pystr }.
Record PackPageDTO := { pg_items : list (uuid * pack); pg_total : Z }.
Record PackDetailDTO := { pd_pack : uuid * pack; pd_assets : list (uuid * asset_row); pd_commands : list jobject; pd_scripts : list jobject }.

(** ** Listing *)

Section queries.
Context `{Scans} `{Collation} `{Unicode}.

Definition newest_pack (a b : uuid * pack) : Prop := (pk_created_at b.2 <= pk_created_at a.2)%Z.
#[local] Instance newest_pack_dec a b : Decision (newest_pack a b) := decide (_ <= _)%Z.

(** [ilike(f"%{search}%")]: the text is a pattern, as it is. *)
Definition raw_search (search : pystr) (columns : list (option pystr)) : bool :=
  existsb (fun column => if column is Some text then ilike (#"%" ++ search ++ #"%") text else false) columns.
Definition pack_matches (query : PackListQueryDTO) (p : pack) : bool :=
  match lq_registry_id query with None => true | Some r => bool_decide (pk_registry_id p = Some r) end
  && match lq_installed query with None => true | Some installed => Bool.eqb (is_installed p) installed end
  && match lq_search query with Some ((_ :: _) as search) => raw_search search [Some (pk_name p); pk_description p] | _ => true end
  && match lq_tag query with None => true | Some tag => bool_decide (tag ∈ pk_tags p) end.
Definition matching (query : PackListQueryDTO) (s : store) : list (uuid * pack) :=
  List.filter (fun kv => pack_matches query kv.2) (st_packs s).
Definition list_packs (query : PackListQueryDTO) (s : store) : res PackPageDTO :=
  items ← sql_page (lq_offset query) (lq_limit query) (merge_sort newest_pack (scan 0 (matching query s)));
  Ok {| pg_items := items; pg_total := Z.of_nat (length (matching query s)) |}.

(** ** One pack *)

Definition assets_of (pack_id : uuid) (s : store) : list (uuid * asset_row) :=
  List.filter (fun kv => bool_decide (as_pack_id kv.2 = pack_id)) (st_assets s).
Definition get_pack (pack_id : uuid) (s : store) : option PackDetailDTO :=
  (fun p => {| pd_pack := (pack_id, p); pd_assets := scan 0 (assets_of pack_id s); pd_commands := pk_commands p; pd_scripts := pk_scripts p |})
  <$> dict_get (st_packs s) pack_id.

(** The entries of the archive: a name that is not safe is skipped. *)
Definition archive_entry (a : asset_row) : option (pystr * bytes) :=
  safe ← sanitize_tar_name (as_path a); Some (safe, _decode_stored_content (as_content a) (as_size a)).
Definition get_assets_tar (pack_id : uuid) (s : store) : res (list (pystr * bytes)) :=
  match dict_get (st_packs s) pack_id with
  | None => raise PackNotFoundError (#"Pack " ++ uuid_str pack_id ++ #" not found")
  | Some _ => Ok (omap (fun kv => archive_entry kv.2) (scan 0 (assets_of pack_id s)))
  end.

(** ** The service *)

Definition get_pack_detail (pack_id : uuid) (s : store) : res PackDetailDTO :=
  match get_pack pack_id s with
  | Some detail => Ok detail
  | None => raise PackNotFoundError (#"Pack " ++ uuid_str pack_id ++ #" not found")
  end.
Definition get_pack_view (pack_id : uuid) (s : store) : res (uuid * pack) :=
  detail ← get_pack_detail pack_id s; Ok (pd_pack detail).
Definition _TAR_CHUNK_SIZE : nat := N.to_nat 65536.
(** [range(0, len(data), chunk_size)], with a turn for each chunk. *)
Fixpoint chunks_go (fuel : nat) (chunk_size : nat) (data : bytes) : list bytes :=
  match fuel, data with
  | S fuel, _ :: _ => take chunk_size data :: chunks_go fuel chunk_size (drop chunk_size data)
  | _, _ => []
  end.
Definition iterate_assets_tar (chunk_size : nat) (data : bytes) : list bytes := chunks_go (length data) chunk_size data.

(** ** What the queries promise *)

Lemma chunks_go_spec fuel n data : (0 < n)%nat -> (length data <= fuel)%nat ->
  mjoin (chunks_go fuel n data) = data /\ Forall (fun c => (1 <= length c <= n)%nat) (chunks_go fuel n data).
Proof.
  intros Hn. revert data. induction fuel as [|fuel IH]; intros [|b data] Hl; cbn in Hl; try done; [lia|]. cbn [chunks_go].
  destruct (IH (drop n (b :: data))) as [IHj IHf]; [rewrite length_drop; cbn [length]; lia|]. split.
  - change (mjoin (?x :: ?xs)) with (x ++ mjoin xs). rewrite IHj. apply take_drop.
  - constructor; [|done]. rewrite length_take. cbn [length]. lia.
Qed.
(** The chunks are the data, none empty and none above the size. *)
Theorem tar_chunks (chunk_size : nat) (data : bytes) : (0 < chunk_size)%nat ->
  mjoin (iterate_assets_tar chunk_size data) = data /\
  Forall (fun c => (1 <= length c <= chunk_size)%nat) (iterate_assets_tar chunk_size data).
Proof. intros Hn. by apply chunks_go_spec. Qed.

(** A text without wildcards is searched for literally; with them it is a pattern. *)
Lemma no_escape search : forallb (fun c => negb (like_special c)) search = true -> escape_ilike search = search.
Proof.
  rewrite escape_ilike_spec. induction search as [|c search IH]; [done|]. cbn.
  intros [Hc%negb_true_iff Hs]%andb_true_iff. rewrite Hc. cbn. by rewrite IH.
Qed.
Definition asks (query : PackListQueryDTO) (search : pystr) : PackListQueryDTO :=
  {| lq_offset := lq_offset query; lq_limit := lq_limit query; lq_registry_id := lq_registry_id query; lq_tag := lq_tag query;
     lq_installed := lq_installed query; lq_search := Some search |}.
Definition literally (search : pystr) (p : pack) : bool :=
  contains (fold <$> pk_name p) (fold <$> search) ||
  match pk_description p with Some text => contains (fold <$> text) (fold <$> search) | None => false end.
Theorem pack_search_outcome (query : PackListQueryDTO) (search : pystr) (p : pack) :
  lq_search query = None -> search <> [] ->
  (forallb (fun c => negb (like_special c)) search = true ->
     pack_matches (asks query search) p = pack_matches query p && literally search p) /\
  pack_matches (asks query #"%") p = pack_matches query p.
Proof.
  intros Hq Hs. unfold pack_matches, asks. cbn [lq_registry_id lq_installed lq_tag lq_search]. rewrite Hq.
  assert (forall text, ilike (#"%" ++ #"%" ++ #"%") text = true) as Hall.
  { intros text. unfold ilike. rewrite !fmap_app. change (fold <$> #"%") with [fold 37]. rewrite (fold_same 37) by done.
    change (like_items ([37%N] ++ [37%N] ++ [37%N])) with [AnyRun; AnyRun; AnyRun]. generalize (fold <$> text). intros t.
    apply like_any. exists [], t. split; [done|]. apply like_any. exists [], t. split; [done|]. apply like_any. exists t, [].
    by rewrite app_nil_r. }
  split.
  - intros Hp. assert (match search with [] => true | _ :: _ => raw_search search [Some (pk_name p); pk_description p] end = literally search p) as ->.
    { destruct search as [|c search]; [done|]. unfold raw_search, literally. cbn [existsb]. rewrite orb_false_r.
      assert (forall text, ilike (#"%" ++ (c :: search) ++ #"%") text = contains (fold <$> text) (fold <$> c :: search)) as Hlit
        by (intros text; rewrite <- search_literal; by rewrite (no_escape (c :: search))).
      rewrite Hlit. f_equal. by destruct (pk_description p). }
    rewrite andb_true_r. set (a := match lq_registry_id query with None => _ | Some _ => _ end).
    set (b := match lq_installed query with None => _ | Some _ => _ end). set (d := match lq_tag query with None => _ | Some _ => _ end).
    by destruct a, b, d, (literally search p).
  - unfold raw_search. cbn [existsb]. change (#"%") with [37%N] at 1. cbv iota. by rewrite Hall.
Qed.
End queries.

(** ** The archive of a created pack *)

Section archives.
Context `{Scans} `{Unicode} `{PyFloat} `{PackColumns}.

Definition written (pack_id : uuid) (asset : PackAssetCreateDTO) (row : asset_row) : Prop :=
  as_pack_id row = pack_id /\ as_path row = pa_path asset /\
  exists raw, b64decode_validate (pa_content_base64 asset) = Ok raw /\ as_content row = stored_content raw /\
    as_size row = Z.of_nat (length raw).
Lemma written_rows pack_id assets s s' : write_assets_in_session pack_id assets s = Ok s' ->
  exists rows, st_assets s' = st_assets s ++ rows /\ Forall2 (fun a kv => written pack_id a kv.2) assets rows /\ st_packs s' = st_packs s.
Proof.
  revert s. induction assets as [|asset assets IH]; intros s; cbn [write_assets_in_session].
  { intros [= <-]. exists []. split_and!; [by rewrite app_nil_r|constructor|done]. }
  destruct (b64decode_validate _) as [raw|e] eqn:Ed; [|done]. destruct (existsb _ _); [done|]. destruct (asset_refused _ _); [done|].
  intros (rows & Hr & Hw & Hp)%IH. cbn in Hr, Hp. eexists (_ :: rows). rewrite Hr, <- app_assoc. split_and!; [done| |done].
  constructor; [|done]. cbn. split_and!; [done|done|]. by exists raw.
Qed.

(** A file as it is uploaded, and the pack that holds it. *)
Definition upload (f : pystr * bytes) : PackAssetCreateDTO := {| pa_path := f.1; pa_content_base64 := b64encode f.2 |}.
Definition with_files (data : PackCreateDTO) (files : list (pystr * bytes)) : PackCreateDTO :=
  {| pc_manifest := pc_manifest data; pc_commands := pc_commands data; pc_scripts := pc_scripts data; pc_readme := pc_readme data;
     pc_assets := upload <$> files; pc_registry_id := pc_registry_id data |}.

Lemma written_entry pack_id f row : forallb is_byte f.2 = true -> is_ok (validate_asset_path f.1) = true ->
  written pack_id (upload f) row -> archive_entry row = Some f.
Proof.
  intros Hb Hv (_ & Hp & raw & Hr & Hc & Hs). cbn in Hp, Hr. rewrite validate_round_trip in Hr by done. injection Hr as <-.
  unfold archive_entry, sanitize_tar_name. rewrite Hp, Hc, Hs. destruct (validate_asset_path f.1); [|done]. cbn.
  rewrite (stored_content_read f.2) by done. by destruct f.
Qed.
Lemma written_entries pack_id files rows : Forall (fun f => forallb is_byte f.2 = true /\ is_ok (validate_asset_path f.1) = true) files ->
  Forall2 (fun a kv => written pack_id a kv.2) (upload <$> files) rows -> omap (fun kv : uuid * asset_row => archive_entry kv.2) rows = files.
Proof.
  intros Hf Hw. apply Forall2_fmap_l in Hw. induction Hw as [|f kv files rows Hw _ IH]; [done|].
  apply Forall_cons in Hf as [[Hb Hv] Hf]. cbn. rewrite (written_entry pack_id f) by done. by rewrite IH.
Qed.

Context (command_refused : command_row -> option exn) (script_refused : script_row -> option exn).
(** C37: in any reachable state, the archive of a pack that was created with some files holds
    exactly these, under their names and with their bytes, and the archives of all other packs
    stay as they were. *)
Theorem created_pack_archive (ops : list (pack_op * Z)) (data : PackCreateDTO) (files : list (pystr * bytes)) (now : Z) (id : uuid) (s' : store) :
  let s := run_history command_refused script_refused ops in
  Forall (fun f => forallb is_byte f.2 = true) files -> create_pack (with_files data files) now s = (Ok id, s') ->
  (exists entries, get_assets_tar id s' = Ok entries /\ entries ≡ₚ files) /\
  (forall other, is_Some (dict_get (st_packs s) other) -> get_assets_tar other s' = get_assets_tar other s).
Proof.
  intros s Hbytes. pose proof (inv_history command_refused script_refused ops : store_inv s) as Hs.
  pose proof (owned_history command_refused script_refused ops : assets_owned s) as Ho.
  unfold create_pack, transaction. cbn zeta.
  destruct (_ ;; _) as [[[commands scripts] decoded]|e] eqn:Ed; [|done]. cbn [pc_manifest pc_registry_id with_files pc_assets pc_commands pc_scripts] in *.
  apply bind_ok in Ed as (x & _ & Ed). apply bind_ok in Ed as (cs & _ & Ed). apply bind_ok in Ed as (ss & _ & Ed).
  apply bind_ok in Ed as (dec & Hdec & [= <- <- <-]). unfold _decode_assets in Hdec. destruct (_ <? _); [done|].
  apply decode_loop_spec in Hdec as (Hfst & _ & _ & Hall & _). destruct (_duplicate_exists _ _ _); [done|]. destruct (row_refused _); [done|].
  destruct (write_assets_in_session _ _ _) as [s1|e] eqn:Ew; [|done]. cbn [mbind res_bind]. intros [= <- <-].
  apply written_rows in Ew as (rows & Ha & Hw & Hp). cbn [st_assets st_packs set_packs set_next] in Ha, Hp. rewrite Hfst in Hw.
  assert (forall kv, kv ∈ rows -> as_pack_id kv.2 = st_next s) as Hrows.
  { intros kv Hin. apply list_elem_of_lookup in Hin as [i Hi]. destruct (Forall2_lookup_r _ _ _ _ _ Hw Hi) as (a & _ & Hwr). apply Hwr. }
  assert (forall kv, kv ∈ st_assets s -> (as_pack_id kv.2 < st_next s)%N) as Hold by (intros [k a] Hin; apply Ho, elem_snd; by exists k).
  split.
  - assert (assets_of (st_next s) s1 = rows) as Hof.
    { unfold assets_of. rewrite Ha, List.filter_app, filter_none, filter_all; [done|..].
      - intros kv Hin. by rewrite (Hrows kv Hin), bool_decide_true.
      - intros kv Hin. specialize (Hold kv Hin). apply bool_decide_eq_false. lia. }
    unfold get_assets_tar. rewrite Hof, Hp, dict_get_app_new. destruct (dict_get (st_packs s) (st_next s)) as [p|] eqn:Eg.
    { destruct (si_packs s Hs) as [_ Hb]. assert (st_next s < st_next s)%N; [|lia]. apply Hb, dict_get_key. by exists p. }
    rewrite decide_True by done. eexists. split; [done|]. rewrite (scan_permutation 0 rows).
    rewrite (written_entries (st_next s) files rows); [done| |done].
    apply Forall_forall. intros f Hf. rewrite Forall_forall in Hbytes. split; [by apply Hbytes|].
    apply (list_elem_of_fmap_2 upload) in Hf. rewrite <- Hfst in Hf. apply list_elem_of_fmap in Hf as (d & Hd & Hin).
    rewrite Forall_forall in Hall. destruct (Hall d Hin) as [Hv _]. by rewrite <- Hd in Hv.
  - intros other [p Hother]. unfold get_assets_tar. rewrite Hp, dict_get_app_new, Hother.
    assert (assets_of other s1 = assets_of other s) as ->; [|done]. unfold assets_of. rewrite Ha, List.filter_app.
    rewrite (filter_none _ rows); [by rewrite app_nil_r|]. intros kv Hin. rewrite (Hrows kv Hin). apply bool_decide_eq_false.
    intros <-. destruct (si_packs s Hs) as [_ Hb]. assert (st_next s < st_next s)%N; [|lia]. apply Hb, dict_get_key. by exists p.
Qed.
End archives.

Section examples.
#[local] Existing Instance ascii_only.
#[local] Existing Instance literal_floats.
#[local] Existing Instance any_value.
#[local] Existing Instance heap_order.
#[local] Existing Instance ascii_collation.

Definition demo_files : list (pystr * bytes) := [(#"a.txt", [104; 105]%N); (#"bin/x", [255; 0]%N)].
Lemma created_pack_archive_witness :
  let s1 := (create_pack (with_files (test_pack 60) demo_files) 1 (run_history no_refusal no_refusal [])).2 in
  exists entries, get_assets_tar 0 s1 = Ok entries /\ entries ≡ₚ demo_files.
Proof.
  cbn zeta. destruct (create_pack (with_files (test_pack 60) demo_files) 1 (run_history no_refusal no_refusal [])) as [r s1] eqn:E.
  assert (r = Ok 0%N) as ->.
  { transitivity (create_pack (with_files (test_pack 60) demo_files) 1 (run_history no_refusal no_refusal [])).1; [by rewrite E|vm_compute; reflexivity]. }
  destruct (created_pack_archive no_refusal no_refusal [] (test_pack 60) demo_files 1 0 s1) as [Ha _]; [|exact E|exact Ha].
  repeat constructor.
Defined.

(** The search text is a pattern: an underscore finds any character. *)
Example underscore_is_a_wildcard :
  raw_search #"a_c" [Some #"abc"] = true /\ search_matches #"a_c" [Some #"abc"] = false.
Proof. vm_compute. split; reflexivity. Qed.
End examples.
