(* ===== verification/Favorites.v ===== *)
(** * Favorites

    [app/application/services/favorite_service.py] and the handlers of [app/api/v2/favorites.py]
    over the table of [app/adapters/persistence/favorite.py]; a request is one transaction.
    What a column type refuses and the reading of identifiers are parameters; the pages of the
    listing are those of [Pagination]. *)
From stdpp Require Import sorting.
From S2P Require Import Prelude PyStr Errors Json Effects Dto Query Pagination.

(** ** Data ([dto/favorite.py], [models/favorite.py]) *)

Record FavoriteModel := {
  fv_target_type : pystr; fv_target_id : uuid; fv_name : option pystr; fv_note : option pystr; fv_created_at : Z }.
Record FavoriteCreateDTO := { fc_target_type : pystr; fc_target_id : uuid; fc_name : option pystr; fc_note : option pystr }.
Record FavoriteUpdateDTO := { fu_name : option pystr; fu_note : option pystr }.
Record FavoriteDTO := {
  fd_id : uuid; fd_target_type : pystr; fd_target_id : uuid; fd_name : option pystr; fd_note : option pystr; fd_created_at : Z }.
Record favorites := { fs_rows : list (uuid * FavoriteModel); fs_next : uuid }.

Definition MultipleResultsFound : exn_class := LibraryError #"MultipleResultsFound".
Definition IntegrityError : exn_class := LibraryError #"IntegrityError".
Definition method (A : Type) : Type := favorites -> res (A * favorites).
Definition request {A} (m : method A) (s : favorites) : res A * favorites :=
  match m s with Ok (a, s') => (Ok a, s') | Raise e => (Raise e, s) end.

(** ** The gateway *)

Section gateway.
Context (refused : FavoriteModel -> option exn).

Definition _dto (kv : uuid * FavoriteModel) : FavoriteDTO :=
  {| fd_id := kv.1; fd_target_type := fv_target_type kv.2; fd_target_id := fv_target_id kv.2; fd_name := fv_name kv.2;
     fd_note := fv_note kv.2; fd_created_at := fv_created_at kv.2 |}.
Definition is_target (target_type : pystr) (target_id : uuid) (kv : uuid * FavoriteModel) : bool :=
  str_eqb (fv_target_type kv.2) target_type && (fv_target_id kv.2 =? target_id)%N.
Definition rows_of (target_type : pystr) (target_id : uuid) (s : favorites) : list (uuid * FavoriteModel) :=
  List.filter (is_target target_type target_id) (fs_rows s).
(** [scalar_one_or_none]. *)
Definition one_or_none {A} (rows : list A) : res (option A) :=
  match rows with
  | [] => Ok None
  | [row] => Ok (Some row)
  | _ => raise MultipleResultsFound #"Multiple rows were found when one or none was required"
  end.

Definition newest_favorite (a b : uuid * FavoriteModel) : Prop := (fv_created_at b.2 <= fv_created_at a.2)%Z.
#[local] Instance newest_favorite_dec a b : Decision (newest_favorite a b) := decide (_ <= _)%Z.
Definition of_type (target_type : option pystr) (s : favorites) : list (uuid * FavoriteModel) :=
  match target_type with
  | Some ((_ :: _) as target_type) => List.filter (fun kv => str_eqb (fv_target_type kv.2) target_type) (fs_rows s)
  | _ => fs_rows s
  end.
Definition list_favorites `{Scans} (target_type : option pystr) (offset limit : Z) (s : favorites) : res (list FavoriteDTO * Z) :=
  rows ← sql_page offset limit (merge_sort newest_favorite (scan 0 (of_type target_type s)));
  Ok (fmap (M:=list) _dto rows, Z.of_nat (length (of_type target_type s))).
Definition get_favorite (target_type : pystr) (target_id : uuid) (s : favorites) : res (option FavoriteDTO) :=
  row ← one_or_none (rows_of target_type target_id s);
  Ok (match row with Some kv => Some (_dto kv) | None => None end).

(** The constraints of the table. *)
Definition target_types : list pystr := [ #"command"; #"script"; #"node"].
Definition check_favorite (row : FavoriteModel) : res unit :=
  match refused row with
  | Some e => Raise e
  | None => if bool_decide (fv_target_type row ∈ target_types) then Ok tt
            else raise IntegrityError #"CHECK constraint failed: chk_favorites_target_type"
  end.
Definition add_favorite (data : FavoriteCreateDTO) (now : Z) : method FavoriteDTO := fun s =>
  let id := fs_next s in
  let row := {| fv_target_type := fc_target_type data; fv_target_id := fc_target_id data; fv_name := fc_name data;
                fv_note := fc_note data; fv_created_at := now |} in
  check_favorite row;;
  Ok (_dto (id, row), {| fs_rows := fs_rows s ++ [(id, row)]; fs_next := (id + 1)%N |}).
Definition noted (data : FavoriteUpdateDTO) (row : FavoriteModel) : FavoriteModel :=
  {| fv_target_type := fv_target_type row; fv_target_id := fv_target_id row;
     fv_name := match fu_name data with Some name => Some name | None => fv_name row end;
     fv_note := match fu_note data with Some note => Some note | None => fv_note row end; fv_created_at := fv_created_at row |}.
Definition update_favorite (target_type : pystr) (target_id : uuid) (data : FavoriteUpdateDTO) : method (option FavoriteDTO) := fun s =>
  row ← one_or_none (rows_of target_type target_id s);
  match row with
  | None => Ok (None, s)
  | Some (id, row) =>
      check_favorite (noted data row);;
      Ok (Some (_dto (id, noted data row)), {| fs_rows := dict_set (fs_rows s) id (noted data row); fs_next := fs_next s |})
  end.
Definition remove_favorite (target_type : pystr) (target_id : uuid) : method bool := fun s =>
  row ← one_or_none (rows_of target_type target_id s);
  match row with
  | None => Ok (false, s)
  | Some (id, _) => Ok (true, {| fs_rows := dict_pop (fs_rows s) id; fs_next := fs_next s |})
  end.

(** ** The service *)

Context (parse_uuid : pystr -> option uuid).
Definition to_uuid (text : pystr) : res uuid :=
  match parse_uuid text with Some id => Ok id | None => raise ValueError #"badly formed hexadecimal UUID string" end.
Definition favorite_not_found {A} (target_type target_id : pystr) : res A :=
  raise FavoriteNotFoundError (#"Favorite " ++ target_type ++ #":" ++ target_id ++ #" not found").
Definition service_list_favorites `{Scans} (target_type : option pystr) (page size : Z) (s : favorites) : res (list FavoriteDTO * Z) :=
  list_favorites target_type ((page - 1) * size) size s.
Definition service_get_favorite (target_type target_id : pystr) (s : favorites) : res FavoriteDTO :=
  id ← to_uuid target_id;
  dto ← get_favorite target_type id s;
  match dto with Some dto => Ok dto | None => favorite_not_found target_type target_id end.
Definition service_update_favorite (target_type target_id : pystr) (data : FavoriteUpdateDTO) : method FavoriteDTO := fun s =>
  id ← to_uuid target_id;
  '(updated, s) ← (update_favorite target_type id data s : res (option FavoriteDTO * favorites));
  match updated with Some dto => Ok (dto, s) | None => favorite_not_found target_type target_id end.
Definition service_remove_favorite (target_type target_id : pystr) : method bool := fun s =>
  id ← to_uuid target_id;
  '(removed, s) ← (remove_favorite target_type id s : res (bool * favorites));
  if (removed : bool) then Ok (true, s) else favorite_not_found target_type target_id.

(** ** The handlers *)

Definition invalid_target {A} : res A := Raise (HTTPException 422 #"Invalid target_id, must be UUID").
Definition checked_target (target_id : pystr) : res uuid :=
  match parse_uuid target_id with Some id => Ok id | None => invalid_target end.
(** The body of a creation. *)
Record FavoriteCreate := { fq_target_type : pystr; fq_target_id : pystr; fq_name : option pystr; fq_note : option pystr }.
Definition add_handler (data : FavoriteCreate) (now : Z) : method FavoriteDTO := fun s =>
  id ← checked_target (fq_target_id data);
  add_favorite {| fc_target_type := fq_target_type data; fc_target_id := id; fc_name := fq_name data; fc_note := fq_note data |} now s.
Definition get_handler (target_type target_id : pystr) (s : favorites) : res FavoriteDTO :=
  checked_target target_id;; service_get_favorite target_type target_id s.
Definition patch_handler (target_type target_id : pystr) (data : FavoriteUpdateDTO) : method FavoriteDTO := fun s =>
  checked_target target_id;; service_update_favorite target_type target_id data s.
(** The identifier is not checked here. *)
Definition remove_handler (target_type target_id : pystr) : method bool := service_remove_favorite target_type target_id.

(** ** Histories of requests *)

Inductive favorite_op :=
| FavAdd (data : FavoriteCreate)
| FavPatch (target_type target_id : pystr) (data : FavoriteUpdateDTO)
| FavRemove (target_type target_id : pystr).
Definition run_favorite_op (op : favorite_op) (now : Z) (s : favorites) : favorites :=
  match op with
  | FavAdd data => (request (add_handler data now) s).2
  | FavPatch target_type target_id data => (request (patch_handler target_type target_id data) s).2
  | FavRemove target_type target_id => (request (remove_handler target_type target_id) s).2
  end.
Definition no_favorites : favorites := {| fs_rows := []; fs_next := 0 |}.
Definition run_favorites (ops : list (favorite_op * Z)) (s : favorites) : favorites :=
  fold_left (fun s op => run_favorite_op op.1 op.2 s) ops s.
End gateway.

(** ** What becomes of a favorite *)

Section promises.
Context (refused : FavoriteModel -> option exn) (parse_uuid : pystr -> option uuid).
Local Abbreviation run_op := (run_favorite_op refused parse_uuid).
Local Abbreviation run := (run_favorites refused parse_uuid).

Definition table_ok (s : favorites) : Prop := NoDup (fs_rows s).*1 /\ forall k, k ∈ (fs_rows s).*1 -> (k < fs_next s)%N.
Lemma rows_of_elem ty id s kv : kv ∈ rows_of ty id s <-> kv ∈ fs_rows s /\ is_target ty id kv = true.
Proof. unfold rows_of. rewrite !list_elem_of_In, filter_In. done. Qed.
Lemma one_or_none_ok {A} (rows : list A) r : one_or_none rows = Ok r -> match r with None => rows = [] | Some x => rows = [x] end.
Proof. unfold one_or_none, raise. destruct rows as [|x [|y rows]]; by intros [= <-]. Qed.

Lemma filter_dict_set (f : uuid * FavoriteModel -> bool) d k v v' : dict_get d k = Some v -> f (k, v') = f (k, v) ->
  length (List.filter f (dict_set d k v')) = length (List.filter f d).
Proof.
  intros Hg Hf. induction d as [|[j u] d IH]; [done|]. cbn in *. case_decide as E.
  - subst j. injection Hg as ->. cbn. rewrite Hf. by destruct (f (k, v)).
  - cbn. destruct (f (j, u)); cbn; [f_equal|]; by apply IH.
Qed.
Lemma filter_dict_pop (f : uuid * FavoriteModel -> bool) d k : (forall v, (k, v) ∈ d -> f (k, v) = false) ->
  List.filter f (dict_pop d k) = List.filter f d.
Proof.
  unfold dict_pop. induction d as [|[j u] d IH]; intros Hf; [done|]. cbn. case_bool_decide as E; cbn.
  - subst j. rewrite (Hf u) by (by left). apply IH. intros v Hv. apply Hf. by right.
  - destruct (f (j, u)); [f_equal|]; (apply IH; intros v Hv; apply Hf; by right).
Qed.

(** The three writes: what they change, if anything. *)
Lemma add_ok data now s : let s' := run_op (FavAdd data) now s in
  s' = s \/ exists row, s' = {| fs_rows := fs_rows s ++ [(fs_next s, row)]; fs_next := (fs_next s + 1)%N |}.
Proof.
  cbn. unfold request, add_handler. destruct (checked_target _ _); [|by left]. cbn [mbind res_bind]. unfold add_favorite. cbn zeta.
  destruct (check_favorite _ _); [|by left]. right. by eexists.
Qed.
Lemma patch_ok ty text data now s : let s' := run_op (FavPatch ty text data) now s in
  s' = s \/ exists id k row, rows_of ty id s = [(k, row)] /\ s' = {| fs_rows := dict_set (fs_rows s) k (noted data row); fs_next := fs_next s |}.
Proof.
  cbn. unfold request, patch_handler. destruct (checked_target _ _); [|by left]. cbn [mbind res_bind]. unfold service_update_favorite.
  destruct (to_uuid _ _) as [id|]; [|by left]. cbn [mbind res_bind]. unfold update_favorite.
  destruct (one_or_none _) as [[[k row]|]|] eqn:E; [|by left..]. cbn [mbind res_bind]. destruct (check_favorite _ _); [|by left].
  right. exists id, k, row. split; [by apply one_or_none_ok in E|done].
Qed.
Lemma remove_ok ty text now s : let s' := run_op (FavRemove ty text) now s in
  s' = s \/ exists id k row, rows_of ty id s = [(k, row)] /\ s' = {| fs_rows := dict_pop (fs_rows s) k; fs_next := fs_next s |}.
Proof.
  cbn. unfold request, remove_handler, service_remove_favorite. destruct (to_uuid _ _) as [id|]; [|by left]. cbn [mbind res_bind].
  unfold remove_favorite. destruct (one_or_none _) as [[[k row]|]|] eqn:E; [|by left..]. right. exists id, k, row.
  split; [by apply one_or_none_ok in E|done].
Qed.

Lemma table_step op now s : table_ok s -> table_ok (run_op op now s).
Proof.
  intros [Hnd Hb]. destruct op as [data|ty text data|ty text].
  - destruct (add_ok data now s) as [->|[row ->]]; [done|]. split; cbn [fs_rows fs_next].
    + rewrite fmap_app. apply NoDup_app. split_and!; [done| |apply NoDup_singleton]. intros k Hk ->%list_elem_of_singleton.
      specialize (Hb _ Hk). cbn in Hb. lia.
    + intros k. rewrite fmap_app. intros [Hk| ->%list_elem_of_singleton]%elem_of_app; [specialize (Hb k Hk); lia|cbn; lia].
  - destruct (patch_ok ty text data now s) as [->|(id & k & row & Hr & ->)]; [done|]. split; cbn [fs_rows fs_next]; [by apply dict_set_NoDup|].
    assert ((k, row) ∈ rows_of ty id s) as [Hin _]%rows_of_elem by (rewrite Hr; by left).
    intros j. rewrite dict_set_keys. rewrite decide_True by by eapply elem_fst. apply Hb.
  - destruct (remove_ok ty text now s) as [->|(id & k & row & Hr & ->)]; [done|]. split; cbn [fs_rows fs_next]; [by apply filter_keys|].
    intros j (kv & -> & [Hin _]%elem_filter)%list_elem_of_fmap. apply Hb. apply list_elem_of_fmap. by exists kv.
Qed.
Lemma table_run ops s : table_ok s -> table_ok (run ops s).
Proof. revert s. induction ops as [|op ops IH]; intros s Hs; [done|]. by apply IH, table_step. Qed.

(** Nothing removes one of two equal favorites. *)
Lemma twice_step op now ty id s : table_ok s -> 2 <= length (rows_of ty id s) -> 2 <= length (rows_of ty id (run_op op now s)).
Proof.
  intros [Hnd Hb] Hl. destruct op as [data|ty' text data|ty' text].
  - destruct (add_ok data now s) as [->|[row ->]]; [done|]. unfold rows_of in *. cbn [fs_rows]. rewrite List.filter_app, length_app. lia.
  - destruct (patch_ok ty' text data now s) as [->|(id' & k & row & Hr & ->)]; [done|]. unfold rows_of in *. cbn [fs_rows].
    assert ((k, row) ∈ rows_of ty' id' s) as [Hin _]%rows_of_elem by (unfold rows_of; rewrite Hr; by left).
    erewrite filter_dict_set; [done|by apply dict_get_NoDup|done].
  - destruct (remove_ok ty' text now s) as [->|(id' & k & row & Hr & ->)]; [done|].
    assert ((k, row) ∈ rows_of ty' id' s) as [Hin Ht]%rows_of_elem by (rewrite Hr; by left).
    unfold rows_of at 1. cbn [fs_rows]. rewrite filter_dict_pop; [done|]. intros v Hv. apply (dict_get_NoDup _ _ _ Hnd) in Hv, Hin.
    assert (v = row) as -> by congruence. apply not_true_is_false. intros Ht'.
    apply andb_true_iff in Ht as [Ht1%bool_decide_eq_true Ht2%N.eqb_eq], Ht' as [Ht1'%bool_decide_eq_true Ht2'%N.eqb_eq].
    cbn in *. assert (rows_of ty id s = [(k, row)]) as Hone by congruence. rewrite Hone in Hl. cbn in Hl. lia.
Qed.
Lemma twice_run ops ty id s : table_ok s -> 2 <= length (rows_of ty id s) -> 2 <= length (rows_of ty id (run ops s)).
Proof.
  revert s. induction ops as [|op ops IH]; intros s Hs Hl; [done|]. apply IH; [by apply table_step|by apply twice_step].
Qed.

(** In any reachable state, a target that is stored once is read as it is stored, and
    removing it leaves none of it; one that is not stored is not found, by either. A target that
    was added twice - nothing prevents it - can be neither read nor removed, now or after any
    further requests: both raise MultipleResultsFound, an internal error, and change nothing. *)
Theorem favorite_outcome (ops later : list (favorite_op * Z)) (target_type target_id : pystr) (id : uuid) :
  parse_uuid target_id = Some id ->
  let s := run ops no_favorites in
  match rows_of target_type id s with
  | [] => get_handler parse_uuid target_type target_id s = favorite_not_found target_type target_id /\
      request (remove_handler parse_uuid target_type target_id) s = (favorite_not_found target_type target_id, s)
  | [row] => get_handler parse_uuid target_type target_id s = Ok (_dto row) /\
      exists s', request (remove_handler parse_uuid target_type target_id) s = (Ok true, s') /\
        forall kv, kv ∈ fs_rows s' <-> kv ∈ fs_rows s /\ kv <> row
  | _ => let s' := run later s in
      let failure := one_or_none (rows_of target_type id s') in
      is_ok failure = false /\ (forall e, failure = Raise e -> exn_type e = MultipleResultsFound /\
        get_handler parse_uuid target_type target_id s' = Raise e /\
        request (remove_handler parse_uuid target_type target_id) s' = (Raise e, s'))
  end.
Proof.
  intros Hid s. assert (table_ok s) as Hs by (apply table_run; split; [by apply NoDup_nil_2|by intros k ?%elem_of_nil]).
  assert (forall s, get_handler parse_uuid target_type target_id s =
    (row ← one_or_none (rows_of target_type id s); match row with Some kv => Ok (_dto kv) | None => favorite_not_found target_type target_id end)) as Hget.
  { intros s0. unfold get_handler, checked_target, service_get_favorite, to_uuid, get_favorite. rewrite Hid. cbn [mbind res_bind].
    by destruct (one_or_none _) as [[kv|]|e]. }
  assert (forall s, request (remove_handler parse_uuid target_type target_id) s =
    match one_or_none (rows_of target_type id s) with
    | Ok (Some kv) => (Ok true, {| fs_rows := dict_pop (fs_rows s) kv.1; fs_next := fs_next s |})
    | Ok None => (favorite_not_found target_type target_id, s)
    | Raise e => (Raise e, s)
    end) as Hrem.
  { intros s0. unfold request, remove_handler, service_remove_favorite, to_uuid, remove_favorite. rewrite Hid. cbn [mbind res_bind].
    by destruct (one_or_none _) as [[[k row]|]|e]. }
  destruct (rows_of target_type id s) as [|[k row] [|row' rows]] eqn:E.
  - by rewrite Hget, Hrem, E.
  - rewrite Hget, Hrem, E. cbn [one_or_none mbind res_bind]. split; [done|]. eexists. split; [done|]. cbn [fs_rows fst].
    assert ((k, row) ∈ rows_of target_type id s) as [Hin _]%rows_of_elem by (rewrite E; by left).
    intros [j v]. unfold dict_pop. rewrite elem_filter. cbn [fst]. rewrite negb_true_iff, bool_decide_eq_false. split; intros [Hj Hne].
    + split; [done|]. intros [= -> ->]. done.
    + split; [done|]. intros ->. apply Hne. f_equal. destruct Hs as [Hnd _].
      apply (dict_get_NoDup _ _ _ Hnd) in Hj, Hin. congruence.
  - cbn zeta. assert (2 <= length (rows_of target_type id (run later s))) as Hl by (apply twice_run; [done|rewrite E; cbn; lia]).
    rewrite Hget, Hrem. destruct (rows_of target_type id (run later s)) as [|x [|y l]]; cbn in Hl; [lia..|].
    split; [done|]. by intros e [= <-].
Qed.
End promises.

Section examples.
Definition demo_parse (text : pystr) : option uuid := if str_eqb text #"7" then Some 7%N else None.
Definition demo_favorite : FavoriteCreate := {| fq_target_type := #"node"; fq_target_id := #"7"; fq_name := None; fq_note := None |}.
Definition demo_ops : list (favorite_op * Z) := [(FavAdd demo_favorite, 1%Z); (FavAdd demo_favorite, 2%Z)].
Lemma favorite_outcome_witness :
  let s := run_favorites (fun _ => None) demo_parse (demo_ops ++ [(FavRemove #"node" #"7", 3%Z)]) no_favorites in
  length (fs_rows s) = 2 /\ exists e, get_handler demo_parse #"node" #"7" s = Raise e /\ exn_type e = MultipleResultsFound.
Proof.
  cbn zeta. split; [vm_compute; reflexivity|].
  pose proof (favorite_outcome (fun _ => None) demo_parse demo_ops [(FavRemove #"node" #"7", 3%Z)] #"node" #"7" 7%N ltac:(reflexivity)) as Ht.
  cbn zeta in Ht. destruct (rows_of #"node" 7%N (run_favorites (fun _ => None) demo_parse demo_ops no_favorites)) as [|r [|r' rows]] eqn:E;
    [vm_compute in E; discriminate E..|].
  unfold run_favorites in *. rewrite fold_left_app. destruct Ht as [Hf Ht].
  match type of Hf with is_ok ?x = false => destruct x as [a|e] end; [discriminate Hf|].
  destruct (Ht e eq_refl) as (He & Hg & _). exists e. split; [exact Hg|exact He].
Defined.
End examples.
