(* ===== verification/Executions.v ===== *)
(** * Executions: many commands or scripts on many nodes

    The handlers of [app/api/v2/commands_handlers/executions_handlers/] and
    [scripts_handlers/executions_handlers/]: each stored command is rendered and given to the
    bulk service of [Commands], each script to the use case of [ScriptBatch], all at once; and
    the retries and cancels over the service of [Registry].  [ExecutionsSpec] holds what they
    promise. *)
From S2P Require Import Prelude PyStr Errors Json Bytes Effects Dto Template Script Commands Library Registry Pagination ScriptBatch.

(** ** Data ([schemas/command.py], [schemas/script.py], [schemas/script_execution.py]) *)

Record CommandExecutionsRequest := {
  cx_command_ids : list uuid; cx_node_ids : list uuid; cx_node_tags : list pystr; cx_params : list (pystr * jobject);
  cx_timeout : option Z }.
Record RawExecutionsRequest := {
  rx_commands : list pystr; rx_node_ids : list uuid; rx_node_tags : list pystr; rx_timeout : option Z }.
Record BulkExecutionItem := {
  bi_command_id : option uuid; bi_command : option pystr; bi_node_id : option uuid; bi_node_name : option pystr;
  bi_stdout : pystr; bi_stderr : pystr; bi_exit_code : option Z; bi_status : pystr; bi_error : pystr }.
Record ScriptExecutionsRequest := {
  px_script_ids : list uuid; px_node_ids : list uuid; px_node_tags : list pystr; px_params : list (pystr * jobject);
  px_timeout : option Z }.
Record BulkScriptExecutionItem := {
  si_script_id : uuid; si_execution_id : option uuid; si_node_id : option uuid; si_node_name : option pystr;
  si_status : pystr; si_steps : list ScriptStepResultDTO; si_error : pystr }.
(** The answer of a batch, and of a bulk operation. *)
Record BatchResponse (Item : Type) := {
  ba_batch_id : uuid; ba_total : Z; ba_succeeded : Z; ba_failed : Z; ba_results : list Item }.
Arguments ba_batch_id {Item} _.
Arguments ba_total {Item} _.
Arguments ba_succeeded {Item} _.
Arguments ba_failed {Item} _.
Arguments ba_results {Item} _.
Record LifecycleItem := { li_execution_id : pystr; li_status : pystr; li_message : pystr }.

(** ** What the two halves share *)

(** The estimate of the nodes, and the bound on it. *)
Definition estimated_nodes (node_ids : list uuid) (node_tags : list pystr) : Z :=
  match node_ids, node_tags with
  | _ :: _, _ => Z.of_nat (length node_ids)
  | [], _ :: _ => Z.of_nat (length node_tags)
  | [], [] => 1
  end.
Definition too_large {A} (items : list A) (node_ids : list uuid) (node_tags : list pystr) : bool :=
  (100 <? Z.of_nat (length items) * estimated_nodes node_ids node_tags)%Z.
Definition too_many : exn := HTTPException 422 ([77; 215; 78]%N ++ #" must be " ++ [8804]%N ++ #"100").
(** [status = 207] when some items succeeded and some failed. *)
Definition partly (succeeded failed : Z) : Z := if (0 <? failed)%Z && (0 <? succeeded)%Z then 207%Z else 200%Z.
Definition batch_response {Item} (status : Item -> pystr) (batch_id : uuid) (nested : list (list Item)) : Z * BatchResponse Item :=
  let flat := mjoin nested in
  let succeeded := count (fun item => str_eqb (status item) #"success") flat in
  let failed := (Z.of_nat (length flat) - succeeded)%Z in
  (partly succeeded failed,
   {| ba_batch_id := batch_id; ba_total := Z.of_nat (length flat); ba_succeeded := succeeded; ba_failed := failed; ba_results := flat |}).

(** ** Commands *)

Inductive execution_call :=
| Bulk (c : command_call)                    (* the bulk service *)
| Stored (c : manage_call CommandCreateDTO). (* the service of stored commands *)
Definition execution_answer (c : execution_call) : Type :=
  match c with Bulk c => command_answer c | Stored c => manage_answer CommandViewDTO c end.
Definition execution_signature : Signature := {| call := execution_call; answer := execution_answer |}.
Definition stored_signature : Signature := @manage_signature CommandViewDTO CommandCreateDTO.
#[local] Existing Instance execution_signature.

Fixpoint bulk {A} (p : @prog command_signature A) : prog A :=
  match p with
  | Done r => Done r
  | Do c k => @Do execution_signature A (Bulk c) (fun a => bulk (k a))
  end.
Fixpoint stored {A} (p : @prog stored_signature A) : prog A :=
  match p with
  | Done r => Done r
  | Do c k => @Do execution_signature A (Stored c) (fun a => stored (k a))
  end.

Section commands.
Context `{Unicode} `{PyFloat} (sha256_hex : bytes -> pystr) (has_audit has_history : bool).

Definition as_parameter (p : CommandParameterDTO) : TemplateParameter :=
  {| tp_name := pd_name p; tp_required := pd_required p; tp_default := pd_default p |}.
Definition node_item (command_id : option uuid) (command : pystr) (node_res : CommandExecutionDTO) : BulkExecutionItem :=
  let succeeded := (ce_exit_code node_res =? 0)%Z in
  {| bi_command_id := command_id; bi_command := Some command; bi_node_id := Some (ce_node_id node_res);
     bi_node_name := Some (ce_node_name node_res); bi_stdout := ce_stdout node_res; bi_stderr := ce_stderr node_res;
     bi_exit_code := Some (ce_exit_code node_res); bi_status := if succeeded then #"success" else #"error";
     bi_error := if succeeded then [] else ce_stderr node_res |}.
Definition failed_item (command_id : option uuid) (command : option pystr) (exc : exn) : BulkExecutionItem :=
  {| bi_command_id := command_id; bi_command := command; bi_node_id := None; bi_node_name := None; bi_stdout := [];
     bi_stderr := exn_msg exc; bi_exit_code := None; bi_status := #"error"; bi_error := sanitize_bulk_error exc |}.

(** The text a command is rendered to for a request. *)
Definition rendered_for (data : CommandExecutionsRequest) (command_id : uuid) (cmd : CommandViewDTO) : res pystr :=
  render_command (cv_command cmd) (as_parameter <$> cv_parameters cmd) (default [] (dict_get (cx_params data) (uuid_str command_id))).
(** The schedules are those of the bulk service. *)
Definition _execute_one (data : CommandExecutionsRequest) (scheds : list nat * list nat) (command_id : uuid) : prog (list BulkExecutionItem) :=
  try_except
    (cmd ← stored (CommandService.get_command command_id);
     rendered ← lift (rendered_for data command_id cmd);
     result ← bulk (Commands.execute sha256_hex has_audit has_history scheds.1 scheds.2
       {| bq_command := rendered; bq_node_ids := cx_node_ids data; bq_tags := cx_node_tags data; bq_command_id := Some command_id;
          bq_timeout := Some (default (cv_timeout cmd) (cx_timeout data)) |});
     mret (fmap (M:=list) (node_item (Some command_id) rendered) (br_results result)))
    (on_exception (fun exc => mret [failed_item (Some command_id) None exc])).
Definition bulk_executions (sched : list nat) (scheds : uuid -> list nat * list nat) (data : CommandExecutionsRequest)
    : prog (Z * BatchResponse BulkExecutionItem) :=
  batch_id ← bulk (@perform command_signature Uuid4);
  if too_large (cx_command_ids data) (cx_node_ids data) (cx_node_tags data) then lift (Raise too_many)
  else
    nested ← gather sched ((fun id => _execute_one data (scheds id) id) <$> cx_command_ids data);
    mret (batch_response bi_status batch_id nested).

Definition DEFAULT_TIMEOUT : Z := 30.
Definition _execute_raw (data : RawExecutionsRequest) (scheds : list nat * list nat) (command : pystr) : prog (list BulkExecutionItem) :=
  try_except
    (result ← bulk (Commands.execute sha256_hex has_audit has_history scheds.1 scheds.2
       {| bq_command := command; bq_node_ids := rx_node_ids data; bq_tags := rx_node_tags data; bq_command_id := None;
          bq_timeout := Some (default DEFAULT_TIMEOUT (rx_timeout data)) |});
     mret (fmap (M:=list) (node_item None command) (br_results result)))
    (on_exception (fun exc => mret [failed_item None (Some command) exc])).
Definition bulk_raw_executions (sched : list nat) (scheds : pystr -> list nat * list nat) (data : RawExecutionsRequest)
    : prog (Z * BatchResponse BulkExecutionItem) :=
  batch_id ← bulk (@perform command_signature Uuid4);
  if too_large (rx_commands data) (rx_node_ids data) (rx_node_tags data) then lift (Raise too_many)
  else
    nested ← gather sched ((fun command => _execute_raw data (scheds command) command) <$> rx_commands data);
    mret (batch_response bi_status batch_id nested).
End commands.

(** ** Scripts *)

Section scripts.
Context `{Unicode} `{PyFloat} (parse_uuid : pystr -> option uuid) (sha256_hex : bytes -> pystr) (has_audit : bool).
#[local] Existing Instance batch_signature.

Definition ValidationError : exn_class := LibraryError #"ValidationError".
(** The schema of a step wants a text as its label. *)
Definition step_valid (step : ScriptStepResultDTO) : bool := if ss_label step is JStr _ then true else false.
Definition script_item (script_id : uuid) (node_res : ScriptNodeResultDTO) : res BulkScriptExecutionItem :=
  if forallb step_valid (sn_steps node_res) then
    Ok {| si_script_id := script_id; si_execution_id := Some (sn_execution_id node_res); si_node_id := Some (sn_node_id node_res);
          si_node_name := Some (sn_node_name node_res); si_status := terminal_status (sn_success node_res);
          si_steps := sn_steps node_res; si_error := [] |}
  else raise ValidationError #"Input should be a valid string".
Definition script_error (script_id : uuid) (error : pystr) : BulkScriptExecutionItem :=
  {| si_script_id := script_id; si_execution_id := None; si_node_id := None; si_node_name := None; si_status := #"error";
     si_steps := []; si_error := error |}.
Definition script_request (data : ScriptExecutionsRequest) (script_id : uuid) : ScriptExecutionRequestDTO :=
  {| sq_node_ids := px_node_ids data; sq_tags := px_node_tags data;
     sq_params := default [] (dict_get (px_params data) (uuid_str script_id)); sq_trigger := #"manual";
     sq_schedule_id := None; sq_timeout := px_timeout data |}.
(** [sched] and [timed_out] are those of the use case. *)
Definition _execute_script (data : ScriptExecutionsRequest) (sched : list nat) (timed_out : bool) (script_id : uuid)
    : prog (list BulkScriptExecutionItem) :=
  try_except
    (result ← execute_script parse_uuid sha256_hex has_audit sched timed_out script_id (script_request data script_id);
     items ← lift (map_res (script_item script_id) (sb_results result));
     match (items : list BulkScriptExecutionItem) with
     | [] => mret [script_error script_id #"No target nodes resolved"]
     | _ => mret items
     end)
    (on_exception (fun exc => mret [script_error script_id (sanitize_bulk_error exc)])).
Definition bulk_script_executions (batch_id : uuid) (sched : list nat) (scheds : uuid -> list nat) (timed_out : uuid -> bool)
    (data : ScriptExecutionsRequest) : prog (Z * BatchResponse BulkScriptExecutionItem) :=
  if too_large (px_script_ids data) (px_node_ids data) (px_node_tags data) then lift (Raise too_many)
  else
    nested ← gather sched ((fun id => _execute_script data (scheds id) (timed_out id) id) <$> px_script_ids data);
    mret (batch_response si_status batch_id nested).
End scripts.

(** ** Retries and cancels *)

Section lifecycle.
#[local] Existing Instance lifecycle_signature.
Context (has_reader : bool).

Definition lifecycle_item (execution_id : uuid) (status message : pystr) (p : prog unit) : prog LifecycleItem :=
  try_except (p;; mret {| li_execution_id := uuid_str execution_id; li_status := status; li_message := message |})
    (on_exception (fun exc =>
       mret {| li_execution_id := uuid_str execution_id; li_status := #"error"; li_message := sanitize_bulk_error exc |})).
(** [BulkResponder(response, success_status=status).result(results)]. *)
Definition lifecycle_result (status : pystr) (results : list LifecycleItem) : Z * (Z * Z * Z * list LifecycleItem) :=
  let succeeded := count (fun r => str_eqb (li_status r) status) results in
  let failed := (Z.of_nat (length results) - succeeded)%Z in
  (partly succeeded failed, (Z.of_nat (length results), succeeded, failed, results)).

Definition _retry_command (execution_id : uuid) : prog LifecycleItem :=
  lifecycle_item execution_id #"retry_scheduled" [] (ignore (retry_command has_reader execution_id)).
Definition _cancel_command (execution_id : uuid) : prog LifecycleItem :=
  lifecycle_item execution_id #"cancelled" [] (ignore (cancel_execution execution_id)).
Definition _retry_script (execution_id : uuid) : prog LifecycleItem :=
  lifecycle_item execution_id #"retry_scheduled" #"Script retry scheduled" (let _ := retry_script execution_id in mret tt).
Definition _cancel_script (execution_id : uuid) : prog LifecycleItem :=
  lifecycle_item execution_id #"cancelled" #"Execution cancelled" (ignore (cancel_execution execution_id)).

Definition bulk_retry_commands (sched : list nat) (ids : list uuid) : prog (Z * (Z * Z * Z * list LifecycleItem)) :=
  results ← gather sched (_retry_command <$> ids); mret (lifecycle_result #"retry_scheduled" results).
Definition bulk_cancel_commands (sched : list nat) (ids : list uuid) : prog (Z * (Z * Z * Z * list LifecycleItem)) :=
  results ← gather sched (_cancel_command <$> ids); mret (lifecycle_result #"cancelled" results).
Definition bulk_retry_scripts (sched : list nat) (ids : list uuid) : prog (Z * (Z * Z * Z * list LifecycleItem)) :=
  results ← gather sched (_retry_script <$> ids); mret (lifecycle_result #"retry_scheduled" results).
Definition bulk_cancel_scripts (sched : list nat) (ids : list uuid) : prog (Z * (Z * Z * Z * list LifecycleItem)) :=
  results ← gather sched (_cancel_script <$> ids); mret (lifecycle_result #"cancelled" results).
End lifecycle.
