(* ===== verification/ExecutionsSpec.v ===== *)
(** * What executions promise

    A batch of commands composes the library, the renderer and the bulk service: which texts
    reach a node, what each item reports, and what the history of the batch is filed under; a
    batch of scripts composes the use case of [ScriptBatch]. *)
From S2P Require Import Prelude PyStr Errors Json Bytes Effects Stable Dto Output Template Script Commands Library Registry Pagination ScriptBatch Executions.

(** ** The bulk service, seen from outside *)

Section service.
#[local] Existing Instance command_signature.
Context `{Unicode} `{PyFloat} (sha256_hex : bytes -> pystr) (has_audit has_history : bool).

Definition happened (h : history) (c : command_call) (a : res (command_answer c)) : Prop := existT c a ∈ h.
Lemma happened_later h h' c a : happened h c a -> h `prefix_of` h' -> happened h' c a.
Proof. intros Ha [k ->]. apply elem_of_app. by left. Qed.
Definition drawn (b : uuid) (h : history) : Prop := happened h Uuid4 (Ok b).

Section request.
Context (data : BulkCommandRequestDTO).

(** The calls a request may make: no other text runs, and records are of its command. *)
Definition made_for (c : command_call) : Prop :=
  match c with
  | Fleet (GetConnectionsByIds ids) => ids = bq_node_ids data
  | Fleet (GetConnectionsByTags tags) => tags = bq_tags data
  | Fleet (Decrypt _) | Uuid4 | Now => True
  | CreateSsh c | OpenSession c | CloseSession c => cn_timeout c = bq_timeout data
  | RunCommand c text => text = bq_command data /\ cn_timeout c = bq_timeout data
  | SaveHistory entry => hc_command_id entry = bq_command_id data
  | Audit _ _ _ details =>
      exists fingerprint, command_fingerprint sha256_hex (bq_command data) = Ok fingerprint /\
        dict_get details #"command_fingerprint" = Some (JStr fingerprint)
  | _ => False
  end.
(** A record is filed under an identifier that was drawn. *)
Definition guarded (h : history) (c : command_call) : Prop :=
  made_for c /\
  match c with SaveHistory entry => exists b, hc_batch_id entry = Some b /\ drawn b h | _ => True end.

(** The nodes the request is for, by the answers of the look-ups. *)
Definition resolved (h : history) (nodes : list NodeConnectionDTO) : Prop :=
  exists by_ids by_tags,
    match bq_node_ids data with
    | [] => by_ids = None
    | ids => exists l, by_ids = Some l /\ happened h (Fleet (GetConnectionsByIds ids)) (Ok l)
    end /\
    match bq_tags data with
    | [] => by_tags = None
    | tags => exists l, by_tags = Some l /\ happened h (Fleet (GetConnectionsByTags tags)) (Ok l)
    end /\
    nodes = match by_ids, by_tags with
            | Some by_ids, Some by_tags => List.filter (fun node => bool_decide (n_id node ∈ n_id <$> by_tags)) by_ids
            | Some by_ids, None => by_ids
            | None, by_tags => default [] by_tags
            end.
Definition nothing_matched : exn := Exn NodeNotFoundError #"No nodes matched the given criteria".
(** Why the whole request fails: no node matches, one of its own calls failed with that exception, or
    the text or an output cannot be encoded. *)
Definition refused (h : history) (e : exn) : Prop :=
  (resolved h [] /\ e = nothing_matched) \/
  (exists c, made_for c /\ happened h c (Raise e)) \/
  command_fingerprint sha256_hex (bq_command data) = Raise e \/
  (exists text, bound_output text DEFAULT_MAX_PERSISTED_OUTPUT_BYTES = Raise e).

(** A connection to a node, with its credentials in clear. *)
Definition connector_for (h : history) (node : NodeConnectionDTO) (c : connector) : Prop :=
  let credentials := n_credentials node in
  let deciphered value plain := happened h (Fleet (Decrypt value)) (Ok plain) in
  cn_host c = ep_host (n_endpoint node) /\ cn_port c = ep_port (n_endpoint node) /\
  cn_username c = cr_username credentials /\ cn_timeout c = bq_timeout data /\
  deciphered (cr_password credentials) (cn_password c) /\ deciphered (cr_ssh_key credentials) (cn_ssh_key c) /\
  deciphered (cr_passphrase credentials) (cn_passphrase c).
(** What is reported for a node: the answer to the text that ran on it, or the exception its
    session failed with. *)
Definition session_failed (h : history) (node : NodeConnectionDTO) (e : exn) : Prop :=
  (exists c, connector_for h node c /\
    (happened h Now (Raise e) \/ happened h (OpenSession c) (Raise e) \/
     happened h (RunCommand c (bq_command data)) (Raise e) \/ happened h (CloseSession c) (Raise e)))
  \/ command_fingerprint sha256_hex (bq_command data) = Raise e.
Definition reported (h : history) (node : NodeConnectionDTO) (result : CommandExecutionDTO) : Prop :=
  (exists c out err code, connector_for h node c /\ happened h (RunCommand c (bq_command data)) (Ok (out, err, code)) /\
     result = {| ce_node_id := n_id node; ce_node_name := n_name node; ce_stdout := out; ce_stderr := err; ce_exit_code := code |})
  \/ exists e, isinstance (exn_type e) Exception_ = true /\ session_failed h node e /\ result = _error_result node e.

Lemma resolved_later h h' nodes : resolved h nodes -> h `prefix_of` h' -> resolved h' nodes.
Proof.
  intros (x & y & Hx & Hy & E) Hp. exists x, y. split_and!; [| |done].
  - destruct (bq_node_ids data); [done|]. destruct Hx as (nodes' & ? & ?). exists nodes'. split; [done|]. by eapply happened_later.
  - destruct (bq_tags data); [done|]. destruct Hy as (nodes' & ? & ?). exists nodes'. split; [done|]. by eapply happened_later.
Qed.
Lemma refused_later h h' e : refused h e -> h `prefix_of` h' -> refused h' e.
Proof.
  intros [[Hr He]|[(c & Hc & Ha)|Hr]] Hp; [left; split; [by eapply resolved_later|done]| |by right; right].
  right; left. exists c. split; [done|]. by eapply happened_later.
Qed.
Lemma connector_later h h' node c : connector_for h node c -> h `prefix_of` h' -> connector_for h' node c.
Proof. intros (? & ? & ? & ? & ? & ? & ?) Hp. unfold connector_for. split_and!; try done; by eapply happened_later. Qed.
Lemma session_failed_later h h' node e : session_failed h node e -> h `prefix_of` h' -> session_failed h' node e.
Proof.
  intros [(c & Hc & He)|?] Hp; [left|by right]. exists c. split; [by eapply connector_later|].
  destruct He as [?|[?|[?|?]]]; [left|right; left|right; right; left|right; right; right]; by eapply happened_later.
Qed.
Lemma reported_later h h' node result : reported h node result -> h `prefix_of` h' -> reported h' node result.
Proof.
  intros [(c & out & err & code & Hc & Ha & ->)|(e & He & Hf & ->)] Hp.
  - left. exists c, out, err, code. split_and!; [by eapply connector_later|by eapply happened_later|done].
  - right. exists e. split_and!; [done|by eapply session_failed_later|done].
Qed.

(** *** The calls of the service *)

#[local] Arguments gwp : simpl never.
Local Abbreviation failing := (fun h r => match r with Ok _ => True | Raise e => refused h e end).

Lemma gwp_does {A} c (f : res (command_answer c) -> prog A) h Q :
  made_for c -> (forall h', h `prefix_of` h' -> guarded h' c) ->
  (forall h' a, h `prefix_of` h' -> happened h' c a -> gwp (f a) h' guarded Q) -> gwp (Do c f) h guarded Q.
Proof.
  intros Hc Hg Hf k. split; [apply Hg; by exists k|]. intros a. apply Hf; [exists (k ++ [existT c a]); by rewrite app_assoc|].
  apply elem_of_app. right. by left.
Qed.
Lemma gwp_ends {A} (r : res A) h (Q : history -> res A -> Prop) :
  (forall h', h `prefix_of` h' -> Q h' r) -> gwp (Done r) h guarded Q.
Proof. intros HQ k. apply HQ. by exists k. Qed.
Lemma gwp_fails {A} h e (Q : history -> res A -> Prop) : refused h e -> (forall h', refused h' e -> Q h' (Raise e)) ->
  gwp (Done (Raise e)) h guarded Q.
Proof. intros He HQ. apply gwp_ends. intros h' Hp. apply HQ. by eapply refused_later. Qed.
Lemma refused_call h c e : happened h c (Raise e) -> made_for c -> refused h e.
Proof. intros He Hc. right; left. by exists c. Qed.
Lemma gwp_then {A B} (p : prog A) (f : A -> prog B) h (Q : history -> res B -> Prop) :
  gwp p h guarded (fun h' r => match r with Ok a => h `prefix_of` h' -> gwp (f a) h' guarded Q | Raise e => Q h' (Raise e) end) ->
  gwp (p ≫= f) h guarded Q.
Proof.
  intros Hp. apply gwp_bind. eapply gwp_mono; [by apply gwp_extends|]. cbn. intros h' [a|e] [Hr [k ->]]; [|done].
  apply Hr. by exists k.
Qed.

(** Trees of which only the failures matter. *)
Definition plain {A} (p : prog A) : Prop := forall h, gwp p h guarded failing.
Lemma plain_then {A B} (p : prog A) (f : A -> prog B) : plain p -> (forall a, plain (f a)) -> plain (p ≫= f).
Proof. intros Hp Hf h. apply gwp_bind. eapply gwp_mono; [apply Hp|]. intros h' [a|e] Hr; [apply Hf|done]. Qed.
Lemma plain_call c : made_for c -> (forall h, guarded h c) -> plain (perform c).
Proof.
  intros Hc Hg h. apply gwp_does; [done|auto|]. intros h' [a|e] _ Ha; [by apply gwp_ends|].
  eapply gwp_fails; [by eapply refused_call|done].
Qed.
Lemma plain_ret {A} (a : A) : plain (mret a).
Proof. by intros h k. Qed.
Lemma plain_fingerprint : plain (lift (command_fingerprint sha256_hex (bq_command data))).
Proof. intros h k. destruct (command_fingerprint _ _) eqn:E; [done|]. cbn. by right; right; left. Qed.
Lemma plain_caught {A} (p : prog A) handler : plain p ->
  (forall e, match handler e with Some q => plain q | None => True end) -> plain (try_except p handler).
Proof.
  intros Hp Hh h. apply gwp_try. eapply gwp_mono; [apply Hp|]. intros h' [a|e] He; [done|]. specialize (Hh e).
  destruct (handler e); [apply Hh|done].
Qed.

Lemma gwp_decrypt value h : gwp (decrypt value) h guarded
  (fun h' r => match r with Ok plain => happened h' (Fleet (Decrypt value)) (Ok plain) | Raise e => refused h' e end).
Proof.
  unfold decrypt. cbn. apply gwp_does; [done|done|]. intros h' [v|e] Hp Ha.
  - apply gwp_ends. intros h2 Hp2. by eapply happened_later.
  - eapply gwp_fails; [by eapply refused_call|done].
Qed.
Lemma gwp_connector node h : gwp (build_ssh_connector node (bq_timeout data)) h guarded
  (fun h' r => match r with Ok c => connector_for h' node c | Raise e => refused h' e end).
Proof.
  unfold build_ssh_connector. cbn zeta.
  apply gwp_then. eapply gwp_mono; [apply gwp_decrypt|]. intros h1 [password|e] H1; [intros _|done].
  apply gwp_then. eapply gwp_mono; [apply gwp_decrypt|]. intros h2 [key|e] H2; [intros P2|done].
  apply gwp_then. eapply gwp_mono; [apply gwp_decrypt|]. intros h3 [passphrase|e] H3; [intros P3|done].
  apply gwp_does; [done|done|]. intros h4 [[]|e] P4 H4.
  - apply gwp_ends. intros h5 P5. eapply connector_later; [|done]. unfold connector_for. cbn. split_and!; try done.
    + eapply happened_later; [done|]. by do 2 (etrans; [done|]).
    + eapply happened_later; [done|]. by etrans.
    + by eapply happened_later.
  - eapply gwp_fails; [by eapply refused_call|done].
Qed.

Lemma gwp_ssh node c h : connector_for h node c ->
  gwp (execute_ssh c (bq_command data)) h guarded
    (fun h' r => match r with
                 | Ok x => happened h' (RunCommand c (bq_command data)) (Ok (sx_stdout x, sx_stderr x, sx_exit_code x))
                 | Raise e => session_failed h' node e
                 end).
Proof.
  intros Hc. assert (cn_timeout c = bq_timeout data) as Ht by apply Hc.
  assert (forall h' e, h `prefix_of` h' ->
    happened h' Now (Raise e) \/ happened h' (OpenSession c) (Raise e) \/
    happened h' (RunCommand c (bq_command data)) (Raise e) \/ happened h' (CloseSession c) (Raise e) ->
    forall Q : history -> res SshExecutionResult -> Prop, (forall h' e, session_failed h' node e -> Q h' (Raise e)) ->
    gwp (Done (Raise e)) h' guarded Q) as Hfail.
  { intros h' e Hp He Q HQ. apply gwp_ends. intros h2 Hp2. apply HQ. eapply session_failed_later; [|done]. left. exists c.
    split; [by eapply connector_later|done]. }
  unfold execute_ssh, in_session. cbn.
  apply gwp_does; [done|done|]. intros h1 [started|e] P1 H1; [|apply Hfail; [done|by left|done]].
  apply gwp_does; [done|done|]. intros h2 [[]|e] P2 H2; [|apply Hfail; [by etrans|by right; left|done]].
  assert (h `prefix_of` h2) as P02 by by etrans.
  apply gwp_does; [done|done|]. intros h3 a P3 H3.
  assert (h `prefix_of` h3) as P03 by by etrans.
  destruct a as [[[out err] code]|e]; cbn.
  - apply gwp_does; [done|done|]. intros h4 [[]|e] P4 H4; [|apply Hfail; [by etrans|by right; right; right|done]].
    apply gwp_does; [done|done|]. intros h5 [ended|e] P5 H5; [|apply Hfail; [by do 2 (etrans; [done|])|by left|done]].
    apply gwp_ends. intros h6 P6. eapply happened_later; [exact H3|]. by do 2 (etrans; [done|]).
  - apply gwp_does; [done|done|]. intros h4 [[]|e'] P4 H4; (apply Hfail; [by etrans| |done]); [|by right; right; right].
    right; right; left. by eapply happened_later.
Qed.
Lemma session_refused h node e : session_failed h node e -> refused h e.
Proof.
  intros [(c & Hc & He)|He]; [|by right; right; left]. assert (cn_timeout c = bq_timeout data) as Ht by apply Hc.
  destruct He as [?|[?|[?|?]]]; by eapply refused_call.
Qed.
Lemma gwp_single node h :
  gwp (_execute_on_single_node sha256_hex node (bq_command data) (bq_timeout data)) h guarded
    (fun h' r => match r with Ok result => reported h' node result | Raise e => refused h' e end).
Proof.
  unfold _execute_on_single_node. apply gwp_then. eapply gwp_mono; [apply gwp_connector|].
  intros h1 [c|e] Hc; [intros _|done]. apply gwp_try.
  assert (forall h' e, session_failed h' node e -> match on_exception (fun exc : exn => lift (command_fingerprint sha256_hex (bq_command data)) ≫=
      (fun _ => mret (_error_result node exc))) e with
    | Some q => gwp q h' guarded (fun h' r => match r with Ok result => reported h' node result | Raise e => refused h' e end)
    | None => refused h' e end) as Hcatch.
  { intros h' e He. unfold on_exception. destruct (isinstance _ _) eqn:Ee; [|by eapply session_refused].
    apply gwp_then. apply gwp_ends. intros h2 Hp. destruct (command_fingerprint _ _) eqn:Ef; [|by right; right; left].
    intros _. apply gwp_ends. intros h3 Hp3. right. exists e. split_and!; [done| |done].
    eapply session_failed_later; [done|by etrans]. }
  apply gwp_then. eapply gwp_mono; [by apply (gwp_ssh node)|]. intros h2 [x|e] Hx; [intros P2|by apply Hcatch].
  apply gwp_then. apply gwp_ends. intros h3 P3.
  destruct (command_fingerprint _ _) eqn:Ef; [|apply Hcatch; by right]. intros _. apply gwp_ends. intros h4 P4.
  left. exists c, (sx_stdout x), (sx_stderr x), (sx_exit_code x). split_and!; [| |done].
  - eapply connector_later; [done|]. by do 2 (etrans; [done|]).
  - eapply happened_later; [done|]. by etrans.
Qed.

Lemma plain_fingerprinted {A} (f : pystr -> prog A) :
  (forall fingerprint, command_fingerprint sha256_hex (bq_command data) = Ok fingerprint -> plain (f fingerprint)) ->
  plain (lift (command_fingerprint sha256_hex (bq_command data)) ≫= f).
Proof.
  intros Hf h. apply gwp_then, gwp_ends. intros h' _. destruct (command_fingerprint _ _) as [fingerprint|e] eqn:Ef.
  - intros _. by apply Hf.
  - right; right. by left.
Qed.
Lemma plain_requests fingerprint nodes : command_fingerprint sha256_hex (bq_command data) = Ok fingerprint ->
  plain (request_all fingerprint nodes).
Proof.
  intros Hf. assert (forall node, made_for (Audit true #"bulk_execute.requested" (n_id node) [(#"command_fingerprint", JStr fingerprint)])) as Hm.
  { intros node. by exists fingerprint. }
  induction nodes as [|node nodes IH]; [apply plain_ret|]. apply plain_then; [|by intros _]. by apply plain_call.
Qed.
Lemma plain_audits results : plain (audit_results sha256_hex has_audit (bq_command data) results).
Proof.
  induction results as [|r results IH]; [apply plain_ret|]. cbn [audit_results]. apply plain_fingerprinted. intros fingerprint Hf.
  apply plain_then; [|done]. destruct has_audit; [|apply plain_ret].
  apply plain_caught; [|intros e; unfold on_class; destruct (isinstance _ _); [apply plain_ret|done]].
  match goal with |- plain (perform ?c) => assert (made_for c) as Hm by by exists fingerprint end. by apply plain_call.
Qed.
Lemma gwp_records sched b t1 t2 results h : drawn b h ->
  gwp (_save_history sha256_hex sched data b t1 t2 results) h guarded failing.
Proof.
  intros Hb. unfold _save_history, ignore. apply gwp_then, gwp_ends. intros h1 P1.
  destruct (command_fingerprint _ _) as [fp|e] eqn:Ef; [|by right; right; left]. intros _. apply gwp_then.
  eapply gwp_mono; [apply (gwp_gather_first guarded sched (fun _ => failing))|].
  - intros result _. unfold save_single. apply gwp_then, gwp_ends. intros h2 P2. unfold history_entry.
    destruct (bound_output (ce_stdout result) _) as [x|e] eqn:Ex, (bound_output (ce_stderr result) _) as [y|e'] eqn:Ey;
      try (by right; right; right; eexists). intros _.
    apply gwp_does; [done| |].
    + intros h3 P3. split; [done|]. exists b. split; [done|]. eapply happened_later; [exact Hb|]. by do 2 (etrans; [done|]).
    + intros h3 [[]|e] P3 H3; [by apply gwp_ends|]. eapply gwp_fails; [by eapply refused_call|done].
  - cbn. intros h2 [l|e] Hr; [intros _; by apply gwp_ends|]. by destruct Hr as (x & _ & Hr).
Qed.

Lemma gwp_targets h : gwp (fleet (resolve_targets (bq_node_ids data) (bq_tags data))) h guarded
  (fun h' r => match r with Ok nodes => resolved h' nodes | Raise e => refused h' e end).
Proof.
  assert (forall c h' e, happened h' c (Raise e) -> made_for c -> gwp (Done (Raise e)) h' guarded
    (fun h' r => match r with Ok nodes => resolved h' nodes | Raise e => refused h' e end)) as Hfail.
  { intros c h' e He Hc. eapply gwp_fails; [by eapply refused_call|done]. }
  assert (forall ids, bq_node_ids data = ids -> made_for (Fleet (GetConnectionsByIds ids))) as Mi by by intros ? <-.
  assert (forall tags, bq_tags data = tags -> made_for (Fleet (GetConnectionsByTags tags))) as Mt by by intros ? <-.
  unfold resolve_targets. destruct (bq_node_ids data) as [|i ids] eqn:Ei, (bq_tags data) as [|t tags] eqn:Et; cbn.
  - apply gwp_ends. intros h' _. exists None, None. by rewrite Ei, Et.
  - specialize (Mt _ eq_refl). apply gwp_does; [done|done|]. intros h1 [by_tags|e] P1 H1; [|by eapply Hfail].
    apply gwp_ends. intros h' P'. exists None, (Some by_tags). rewrite Ei, Et. split_and!; [done| |done].
    exists by_tags. split; [done|]. by eapply happened_later.
  - specialize (Mi _ eq_refl). apply gwp_does; [done|done|]. intros h1 [by_ids|e] P1 H1; [|by eapply Hfail].
    apply gwp_ends. intros h' P'. exists (Some by_ids), None. rewrite Ei, Et. split_and!; [|done|done].
    exists by_ids. split; [done|]. by eapply happened_later.
  - specialize (Mi _ eq_refl). specialize (Mt _ eq_refl).
    apply gwp_does; [done|done|]. intros h1 [by_ids|e] P1 H1; [|by eapply Hfail].
    apply gwp_does; [done|done|]. intros h2 [by_tags|e] P2 H2; [|by eapply Hfail].
    apply gwp_ends. intros h' P'. exists (Some by_ids), (Some by_tags). rewrite Ei, Et. split_and!; [| |done].
    + exists by_ids. split; [done|]. eapply happened_later; [done|]. by etrans.
    + exists by_tags. split; [done|]. by eapply happened_later.
Qed.
(** The service: a result for each node the request is for, in their order. *)
Definition served (h : history) (r : res BulkCommandResultDTO) : Prop :=
  match r with
  | Ok result => exists nodes, resolved h nodes /\ nodes <> [] /\ Forall2 (reported h) nodes (br_results result)
  | Raise e => refused h e
  end.
Lemma gwp_execute sched sched' h : gwp (Commands.execute sha256_hex has_audit has_history sched sched' data) h guarded served.
Proof.
  assert (forall {B} (p : prog B) (f : B -> prog BulkCommandResultDTO) h0, plain p ->
    (forall a h', h0 `prefix_of` h' -> gwp (f a) h' guarded served) -> gwp (p ≫= f) h0 guarded served) as Hthen.
  { intros B p f h0 Hp Hf. apply gwp_then. eapply gwp_mono; [apply Hp|]. intros h' [a|e] Hr; [by apply Hf|done]. }
  unfold execute. apply gwp_then. eapply gwp_mono; [apply gwp_targets|]. intros h1 [nodes|e] Hn; [intros _|done].
  destruct nodes as [|node nodes].
  { apply gwp_ends. intros h' Hp. left. split; [by eapply resolved_later|done]. }
  set (all := node :: nodes) in *. apply gwp_does; [done|done|]. intros h2 [b|e] P2 Hb.
  2: { eapply gwp_fails; [by eapply refused_call|done]. }
  apply Hthen; [by apply plain_call|]. intros started h3 P3. apply Hthen.
  { destruct has_audit; [|apply plain_ret]. apply plain_fingerprinted. intros fp Hf. by apply plain_requests. }
  intros _ h4 P4. apply gwp_then.
  eapply gwp_mono; [apply (gwp_gather_first guarded sched (fun node h' r =>
    match r with Ok result => reported h' node result | Raise e => refused h' e end))|].
  { intros n _. apply gwp_single. }
  cbn beta. intros h5 [results|e] Hr; [intros P5|by destruct Hr as (x & _ & Hr)].
  apply Hthen; [by apply plain_call|]. intros ended h6 P6. apply gwp_then.
  assert (h2 `prefix_of` h6) as P26 by (by do 3 (etrans; [done|])).
  eapply (gwp_mono _ _ _ failing).
  { destruct has_history; [|by apply gwp_ends]. apply gwp_records. by eapply happened_later. }
  intros h7 [[]|e] He; [intros P7|done]. apply Hthen; [apply plain_audits|]. intros _ h8 P8. apply gwp_ends. intros h9 P9.
  assert (h5 `prefix_of` h9) as P59 by (by do 3 (etrans; [done|])).
  exists all. split_and!; [|done|].
  - eapply resolved_later; [exact Hn|]. by do 4 (etrans; [done|]).
  - cbn. eapply Forall2_impl; [exact Hr|]. intros n result Hres. by eapply reported_later.
Qed.
End request.
End service.

(** ** A batch of commands *)

Section commands.
#[local] Existing Instance execution_signature.
Context `{Unicode} `{PyFloat} (sha256_hex : bytes -> pystr) (has_audit has_history : bool).

(** The calls of the bulk service among those that follow the first. *)
Definition bulk_part (h : history) : @history command_signature :=
  omap (fun ev : event =>
    let '(existT c a) := ev in
    match c return res (execution_answer c) -> option (@event command_signature) with
    | Bulk c => fun a => Some (@existT command_call (fun c => res (command_answer c)) c a)
    | Stored _ => fun _ => None
    end a) h.
Definition inner (h : history) : @history command_signature := bulk_part (drop 1 h).
(** What the bulk service is asked for one command. *)
Definition request_for (data : CommandExecutionsRequest) (id : uuid) (view : CommandViewDTO) (text : pystr) : BulkCommandRequestDTO :=
  {| bq_command := text; bq_node_ids := cx_node_ids data; bq_tags := cx_node_tags data; bq_command_id := Some id;
     bq_timeout := Some (default (cv_timeout view) (cx_timeout data)) |}.

(** What a request promises of each call: it reads commands of the request; and the bulk service makes,
    apart from drawing identifiers, only calls for the rendering of a command that was read before. *)
Definition was_read (h : history) (id : uuid) (view : CommandViewDTO) : Prop :=
  existT (Stored (Get id)) (Ok (Some view) : res (execution_answer (Stored (Get id)))) ∈ h.
Definition allowed (data : CommandExecutionsRequest) (h : history) (c : execution_call) : Prop :=
  match c with
  | Bulk Uuid4 => True
  | Bulk c =>
      exists id view text, id ∈ cx_command_ids data /\ was_read h id view /\ rendered_for data id view = Ok text /\
        guarded sha256_hex (request_for data id view text) (inner h) c
  | Stored (Get id) => id ∈ cx_command_ids data
  | Stored _ => False
  end.

Lemma bulk_part_app h k : bulk_part (h ++ k) = bulk_part h ++ bulk_part k.
Proof. apply omap_app. Qed.
Lemma inner_app h k : h <> [] -> inner (h ++ k) = inner h ++ bulk_part k.
Proof. unfold inner. destruct h as [|ev h]; [done|]. intros _. cbn. rewrite !drop_0. apply bulk_part_app. Qed.
Lemma inner_later h k : h <> [] -> inner h `prefix_of` inner (h ++ k).
Proof. intros Hh. exists (bulk_part k). by apply inner_app. Qed.
Lemma read_later h k id view : was_read h id view -> was_read (h ++ k) id view.
Proof. intros Hr. apply elem_of_app. by left. Qed.

(** What holds of the service by its own calls holds when they are made here. *)
Lemma gwp_bulk {A} (p : @prog command_signature A) h (G : @history command_signature -> command_call -> Prop) G'
    (Q : @history command_signature -> res A -> Prop) :
  h <> [] -> @gwp command_signature A p (inner h) G Q ->
  (forall k c, G (inner (h ++ k)) c -> G' (h ++ k) (Bulk c)) -> gwp (bulk p) h G' (fun h r => Q (inner h) r).
Proof.
  intros Hh Hp HG. revert h Hh Hp HG. induction p as [r|c f IH]; cbn; intros h Hh Hp HG k.
  - rewrite inner_app by done. apply Hp.
  - destruct (Hp (bulk_part k)) as [Hc Hf]. rewrite <- inner_app in Hc by done. split; [by apply HG|].
    intros a. rewrite <- app_assoc. apply IH.
    + by destruct h.
    + rewrite inner_app, bulk_part_app, app_assoc by done. apply Hf.
    + intros j d. rewrite <- app_assoc. apply HG.
Qed.

(** The service, on behalf of one command. *)
Lemma gwp_service data scheds id view text h : h <> [] -> id ∈ cx_command_ids data -> was_read h id view ->
  rendered_for data id view = Ok text ->
  let req := request_for data id view text in
  gwp (bulk (Commands.execute sha256_hex has_audit has_history scheds.1 scheds.2 req)) h (allowed data)
    (fun h r => served sha256_hex req (inner h) r).
Proof.
  intros Hh Hid Hread Hreq req. eapply gwp_bulk; [done|apply gwp_execute|]. intros k c Hg.
  assert (exists id view text, id ∈ cx_command_ids data /\ was_read (h ++ k) id view /\ rendered_for data id view = Ok text /\
    guarded sha256_hex (request_for data id view text) (inner (h ++ k)) c) as Hall.
  { exists id, view, text. split_and!; [done|by apply read_later|done|exact Hg]. }
  by destruct c.
Qed.

(** What a command contributes: one error item, for a command that could not be read or rendered or whose
    bulk request failed, or an item for each node the request is for, with the text it ran and what
    is reported for the node. *)
Definition unread (h : history) (id : uuid) (e : exn) : Prop :=
  (existT (Stored (Get id)) (Ok None : res (execution_answer (Stored (Get id)))) ∈ h /\
   e = Exn CommandNotFoundError (#"Command " ++ uuid_str id ++ #" not found")) \/
  existT (Stored (Get id)) (Raise e : res (execution_answer (Stored (Get id)))) ∈ h.
Definition failed_for (data : CommandExecutionsRequest) (id : uuid) (h : history) (e : exn) : Prop :=
  unread h id e \/
  exists view, was_read h id view /\
    (rendered_for data id view = Raise e \/
     exists text, rendered_for data id view = Ok text /\ refused sha256_hex (request_for data id view text) (inner h) e).
Definition group_of (data : CommandExecutionsRequest) (id : uuid) (h : history) (group : list BulkExecutionItem) : Prop :=
  (exists e, isinstance (exn_type e) Exception_ = true /\ failed_for data id h e /\ group = [failed_item (Some id) None e]) \/
  (exists view text nodes results, was_read h id view /\ rendered_for data id view = Ok text /\
     let req := request_for data id view text in
     resolved req (inner h) nodes /\ nodes <> [] /\ Forall2 (reported sha256_hex req (inner h)) nodes results /\
     group = node_item (Some id) text <$> results).

Lemma failed_later data id h k e : h <> [] -> failed_for data id h e -> failed_for data id (h ++ k) e.
Proof.
  intros Hh [[[Hn He]|Hn]|(view & Hv & Hr)].
  - left. left. split; [|done]. apply elem_of_app. by left.
  - left. right. apply elem_of_app. by left.
  - right. exists view. split; [by apply read_later|]. destruct Hr as [Hr|(text & Ht & Hr)]; [by left|right].
    exists text. split; [done|]. eapply refused_later; [done|by apply inner_later].
Qed.
Lemma group_later data id h k group : h <> [] -> group_of data id h group -> group_of data id (h ++ k) group.
Proof.
  intros Hh [(e & He & Hf & ->)|(view & text & nodes & results & Hr & Ht & Hn & Hne & Hres & ->)].
  - left. exists e. split_and!; [done|by apply failed_later|done].
  - right. exists view, text, nodes, results. split; [by apply read_later|]. split; [done|]. cbn zeta. split_and!; [|done| |done].
    + eapply resolved_later; [done|by apply inner_later].
    + eapply Forall2_impl; [exact Hres|]. intros node result Hrep. eapply reported_later; [done|by apply inner_later].
Qed.

Lemma gwp_read data id h : h <> [] -> id ∈ cx_command_ids data ->
  gwp (stored (CommandService.get_command id)) h (allowed data)
    (fun h' r => h' <> [] /\ match r with Ok view => was_read h' id view | Raise e => unread h' id e end).
Proof.
  intros Hh Hid. unfold CommandService.get_command, get_one. cbn. intros k. split; [done|].
  intros [[view|]|e]; cbn; intros j; (split; [by destruct h|]).
  - apply read_later. apply elem_of_app. right. by left.
  - left. split; [|done]. apply elem_of_app. left. apply elem_of_app. right. by left.
  - right. apply elem_of_app. left. apply elem_of_app. right. by left.
Qed.
Lemma gwp_one data scheds id h : h <> [] -> id ∈ cx_command_ids data ->
  gwp (_execute_one sha256_hex has_audit has_history data scheds id) h (allowed data)
    (fun h' r => match r with Ok group => group_of data id h' group | Raise e => isinstance (exn_type e) Exception_ = false end).
Proof.
  intros Hh Hid. unfold _execute_one. apply gwp_try.
  assert (forall h e, h <> [] -> failed_for data id h e -> match on_exception (fun exc : exn => mret [failed_item (Some id) None exc]) e with
    | Some q => gwp q h (allowed data) (fun h' r => match r with Ok group => group_of data id h' group | Raise e => isinstance (exn_type e) Exception_ = false end)
    | None => isinstance (exn_type e) Exception_ = false end) as Hend.
  { intros h0 e Hne Hf. unfold on_exception. destruct (isinstance _ _) eqn:Ee; [|done]. intros k. left. exists e.
    split_and!; [done|by apply failed_later|done]. }
  apply gwp_bind. eapply gwp_mono; [by apply gwp_read|]. cbn beta. intros h1 [view|e] [Hh1 Hread]; [|apply Hend; [done|by left]].
  apply gwp_bind. apply gwp_lift. intros k. assert (h1 ++ k <> []) as Hh2 by by destruct h1.
  destruct (rendered_for data id view) as [text|e] eqn:Et.
  2: { apply Hend; [done|]. right. exists view. split; [by apply read_later|by left]. }
  apply gwp_bind. eapply gwp_mono.
  { apply gwp_extends. apply (gwp_service data scheds id view text); [done|done|by apply read_later|done]. }
  cbn beta. intros h2 [result|e] [Hs [j ->]].
  - intros j'. apply group_later; [by destruct h1|]. destruct Hs as (nodes & Hn & Hne & Hres). right.
    exists view, text, nodes, (br_results result). split; [by do 2 apply read_later|done].
  - apply Hend; [by destruct h1|]. right. exists view. split; [by do 2 apply read_later|right]. by exists text.
Qed.

(** The batch identifiers that were drawn. *)
Definition batch_ids (h : history) : list uuid :=
  omap (fun ev : event =>
    let '(existT c a) := ev in
    match c return res (execution_answer c) -> option uuid with
    | Bulk Uuid4 => fun a => match a with Ok b => Some b | Raise _ => None end
    | _ => fun _ => None
    end a) h.
Lemma drawn_elem b h : drawn b (bulk_part h) -> b ∈ batch_ids h.
Proof.
  intros (ev & Hev & E)%list_elem_of_omap. apply list_elem_of_omap. exists ev. split; [done|].
  apply (f_equal (fun o : option (@event command_signature) => match o with
    | Some (existT c a) =>
        match c return res (command_answer c) -> option uuid with
        | Uuid4 => fun a => match a with Ok b => Some b | Raise _ => None end
        | _ => fun _ => None
        end a
    | None => None
    end)) in E. cbn in E. rewrite <- E. by destruct ev as [[[]|] a].
Qed.
Lemma grows_split G h pre ev post : grows G [] h -> h = pre ++ ev :: post -> G pre (called ev).
Proof.
  intros Hg. revert post. induction Hg as [|h' ev' _ IH Hev]; intros post E; [by destruct pre|].
  destruct (decide (post = [])) as [->|Hne].
  - apply app_inj_tail in E as [-> ->]. done.
  - destruct (exists_last Hne) as (post' & last & ->). rewrite app_comm_cons, app_assoc in E. apply app_inj_tail in E as [-> _].
    by apply (IH post').
Qed.
(** No record is filed under the first identifier. *)
Lemma filed_elsewhere data b k entry : let h := existT (Bulk Uuid4) (Ok b) :: k : history in
  grows (allowed data) [] h -> NoDup (batch_ids h) -> Bulk (SaveHistory entry) ∈ calls h -> hc_batch_id entry <> Some b.
Proof.
  intros h Hg Hnd (ev & Hev & (pre & post & E)%list_elem_of_split)%list_elem_of_fmap Hb.
  pose proof (grows_split _ _ _ _ _ Hg E) as Ha. rewrite <- Hev in Ha. destruct Ha as (id & view & text & _ & _ & _ & _ & b' & Hb' & Hd%drawn_elem).
  assert (b' = b) as -> by congruence. destruct pre as [|ev0 pre]; [by apply elem_of_nil in Hd|].
  injection E as <- ->. cbn in Hd. rewrite drop_0 in Hd. unfold h in Hnd. cbn in Hnd. apply NoDup_cons in Hnd as [Hn _].
  apply Hn. unfold batch_ids. rewrite omap_app. apply elem_of_app. by left.
Qed.

Definition batch_ok (data : CommandExecutionsRequest) (b : uuid) (h : history) (r : res (Z * BatchResponse BulkExecutionItem)) : Prop :=
  match r with
  | Ok (status, response) =>
      let items := ba_results response in
      let succeeded := count (fun item => str_eqb (bi_status item) #"success") items in
      (exists groups, items = mjoin groups /\ Forall2 (fun id group => group_of data id h group) (cx_command_ids data) groups) /\
      ba_total response = Z.of_nat (length items) /\ ba_succeeded response = succeeded /\
      (ba_succeeded response + ba_failed response = ba_total response)%Z /\
      (status = 207%Z <-> 0 < succeeded < ba_total response)%Z /\ ba_batch_id response = b
  | Raise e => isinstance (exn_type e) Exception_ = false
  end.
Lemma partly_iff succeeded total : partly succeeded (total - succeeded) = 207%Z <-> (0 < succeeded < total)%Z.
Proof. unfold partly. destruct (Z.ltb_spec 0 (total - succeeded)), (Z.ltb_spec 0 succeeded); cbn; split; intros; try done; lia. Qed.
Lemma gwp_batch data sched scheds b h : h <> [] ->
  gwp (nested ← gather sched ((fun id => _execute_one sha256_hex has_audit has_history data (scheds id) id) <$> cx_command_ids data);
       mret (batch_response bi_status b nested)) h (allowed data) (batch_ok data b).
Proof.
  intros Hh. apply gwp_bind. eapply gwp_mono.
  { apply (gwp_gather _ sched (fun id h' r =>
      match r with Ok group => group_of data id h' group /\ h' <> [] | Raise e => isinstance (exn_type e) Exception_ = false end)).
    intros id Hid. eapply gwp_mono; [by apply gwp_extends, gwp_one|]. cbn beta. intros h' [group|e] [Hr [k ->]]; [|done].
    split; [done|]. by destruct h. }
  cbn beta. intros h1 [nested|e]; [|by intros (id & _ & He)]. intros Hg k. cbn. split_and!; [|done|done|lia|apply partly_iff|done].
  exists nested. split; [done|]. eapply Forall2_impl; [exact Hg|]. intros id group [Hgr Hne]. by apply group_later.
Qed.

End commands.

(** ** A batch of scripts *)

Section scripts.
#[local] Existing Instance batch_signature.
Context `{Unicode} `{PyFloat} (parse_uuid : pystr -> option uuid) (sha256_hex : bytes -> pystr) (has_audit : bool).

(** What a script contributes: at least one item; of an execution, without an error text. *)
Definition script_group (id : uuid) (group : list BulkScriptExecutionItem) : Prop :=
  group <> [] /\
  ((exists error, group = [script_error id error]) \/
   Forall (fun item => si_script_id item = id /\ is_Some (si_execution_id item) /\ si_error item = [] /\
     forallb step_valid (si_steps item) = true) group).
Lemma map_res_forall {A B} (f : A -> res B) (P : B -> Prop) l l' : (forall a b, f a = Ok b -> P b) -> map_res f l = Ok l' -> Forall P l'.
Proof.
  intros Hf. revert l'. induction l as [|a l IH]; cbn; intros l'; [by intros [= <-]|].
  intros (b & Hb & (bs & Hbs & [= <-])%bind_ok)%bind_ok. constructor; [by eapply Hf|by apply IH].
Qed.
Lemma local_script data sched timed_out id :
  local_spec (fun _ => True) (fun r => match r with Ok group => script_group id group | Raise e => isinstance (exn_type e) Exception_ = false end)
    (_execute_script parse_uuid sha256_hex has_audit data sched timed_out id).
Proof.
  set (Q := fun r : res (list BulkScriptExecutionItem) => match r with Ok group => script_group id group | Raise e => isinstance (exn_type e) Exception_ = false end).
  apply (local_try _ (fun r => match r with Ok group => script_group id group | Raise _ => True end)); [|done|].
  - apply (local_bind _ (fun _ => True)); [apply local_true|intros result _|done]. intros h. unfold lift.
    destruct (map_res (script_item id) (sb_results result)) as [[|item items]|e] eqn:Ei; cbn; [|split; [done|right]|done].
    { split; [done|]. left. by eexists. }
    eapply map_res_forall; [|exact Ei]. intros res item'. unfold script_item. destruct (forallb _ _) eqn:Ev; [|done].
    intros [= <-]. split_and!; [done|by eexists|done|exact Ev].
  - intros e _. unfold on_exception. destruct (isinstance _ _) eqn:Ee; [|exact Ee]. intros h. split; [done|]. left. by eexists.
Qed.

(** A batch of scripts, whatever the ports answer, in every interleaving and with any timeouts:
    each script contributes at least one item, in the order of the request; the item of an
    execution, also of one that failed, has no error text; the counts add up. *)
Theorem script_executions_outcome (o : oracle) (batch_id : uuid) (sched : list nat) (scheds : uuid -> list nat) (timed_out : uuid -> bool)
    (data : ScriptExecutionsRequest) :
  let '(r, h) := run o (bulk_script_executions parse_uuid sha256_hex has_audit batch_id sched scheds timed_out data) [] in
  let large := too_large (px_script_ids data) (px_node_ids data) (px_node_tags data) in
  match r with
  | Ok (status, response) =>
      let items := ba_results response in
      let succeeded := count (fun item => str_eqb (si_status item) #"success") items in
      large = false /\ (exists groups, items = mjoin groups /\ Forall2 script_group (px_script_ids data) groups) /\
      ba_batch_id response = batch_id /\ ba_total response = Z.of_nat (length items) /\ ba_succeeded response = succeeded /\
      (ba_succeeded response + ba_failed response = ba_total response)%Z /\
      (status = 207%Z <-> 0 < succeeded < ba_total response)%Z
  | Raise e => (large = true /\ e = too_many /\ h = []) \/ isinstance (exn_type e) Exception_ = false
  end.
Proof.
  unfold bulk_script_executions. destruct (too_large _ _ _) eqn:El; [by left|].
  pose proof (local_gather sched _ (fun id r => match r with Ok group => script_group id group | Raise e => isinstance (exn_type e) Exception_ = false end)
    (fun id => _execute_script parse_uuid sha256_hex has_audit data (scheds id) (timed_out id) id) (px_script_ids data)
    (fun id _ => local_script data (scheds id) (timed_out id) id) []) as Hg.
  apply (wp_run _ o) in Hg. rewrite run_bind. destruct (run o (gather _ _) []) as [[nested|e] h].
  2: { destruct Hg as [(id & _ & He) _]. by right. }
  destruct Hg as [Hg _]. cbn. split_and!; [done| |done|done|done|lia|apply partly_iff]. by exists nested.
Qed.
End scripts.

(** ** Retries and cancels *)

Section lifecycle.
#[local] Existing Instance lifecycle_signature.

Definition lifecycle_ok (status message : pystr) (id : uuid) (item : LifecycleItem) : Prop :=
  li_execution_id item = uuid_str id /\
  ((li_status item = status /\ li_message item = message) \/
   exists e, isinstance (exn_type e) Exception_ = true /\ li_status item = #"error" /\ li_message item = sanitize_bulk_error e).
(** One item per execution, in the order of the request, and counts that add up. *)
Theorem lifecycle_outcome (o : oracle) (sched : list nat) (status message : pystr) (p : uuid -> prog unit) (ids : list uuid) :
  let '(r, _) := run o (results ← gather sched ((fun id => lifecycle_item id status message (p id)) <$> ids); mret (lifecycle_result status results)) [] in
  match r with
  | Ok (code, (total, succeeded, failed, items)) =>
      Forall2 (lifecycle_ok status message) ids items /\ total = Z.of_nat (length ids) /\
      (succeeded + failed = total)%Z /\ (code = 207%Z <-> 0 < succeeded < total)%Z
  | Raise e => isinstance (exn_type e) Exception_ = false
  end.
Proof.
  pose proof (local_gather sched (fun _ => True)
    (fun id r => match r with Ok item => lifecycle_ok status message id item | Raise e => isinstance (exn_type e) Exception_ = false end)
    (fun id => lifecycle_item id status message (p id)) ids) as Hg.
  assert (forall id, id ∈ ids -> local_spec (fun _ => True)
    (fun r => match r with Ok item => lifecycle_ok status message id item | Raise e => isinstance (exn_type e) Exception_ = false end)
    (lifecycle_item id status message (p id))) as Hone.
  { intros id _. apply (local_try _ (fun r => match r with Ok item => lifecycle_ok status message id item | Raise _ => True end)); [|done|].
    - apply (local_bind _ (fun _ => True)); [apply local_true|intros _ _ h|done]. split; [done|by left].
    - intros e _. unfold on_exception. destruct (isinstance _ _) eqn:Ee; [|done]. intros h. split; [done|]. right. by exists e. }
  specialize (Hg Hone []). apply (wp_run _ o) in Hg. rewrite run_bind. destruct (run o (gather _ _) []) as [[items|e] h].
  2: { by destruct Hg as [(id & _ & He) _]. }
  destruct Hg as [Hg _]. cbn. pose proof (Forall2_length _ _ _ Hg) as Hl. rewrite Hl. split_and!; [done|done|lia|apply partly_iff].
Qed.
End lifecycle.

Section examples.
#[local] Existing Instance ascii_only.
#[local] Existing Instance literal_floats.
Definition broken_world (c : execution_call) : res (execution_answer c) :=
  match c return res (execution_answer c) with
  | Stored _ => raise (LibraryError #"OperationalError") #"no route to db.internal:5432"
  | Bulk Uuid4 => Ok 7%N
  | Bulk _ => raise RuntimeError #"not called"
  end.
(** The text of an internal error is kept out of one field of an item, and shown in another. *)
Example internal_error_shown : exists response,
  (@run execution_signature _ (fun _ => broken_world) (bulk_executions (fun _ => []) false false [] (fun _ => ([], []))
    {| cx_command_ids := [1%N]; cx_node_ids := [2%N]; cx_node_tags := []; cx_params := []; cx_timeout := None |}) []).1 = Ok (200%Z, response) /\
  bi_error <$> ba_results response = [ #"Internal error"] /\ bi_stderr <$> ba_results response = [ #"no route to db.internal:5432"].
Proof. eexists. vm_compute. split_and!; reflexivity. Qed.
End examples.
