(* ===== verification/Startup.v ===== *)
(** * Starting and serving

    [app/core/config.py], [app/adapters/lifecycle/application_startup.py],
    [migration_runner.py], the provider of the scheduler in [app/di/providers_modules/scheduler.py],
    and [lifespan] of [app/main.py]: what has happened when the first request is served, and
    what the first superuser becomes over the tables of [Users]. *)
From S2P Require Import Prelude PyStr Errors Json Effects Stateful Auth Users Float64.

(** ** Settings *)

Record Settings := {
  DATABASE_URL : pystr; SECRET_KEY : pystr; ENVIRONMENT : pystr; DEBUG : bool; LOG_LEVEL : pystr; PORT : Z;
  CORS_ORIGINS : list pystr; MASTER_API_KEY : pystr; ENCRYPTION_SALT : pystr; SSH_STRICT_HOST_KEY_CHECKING : bool;
  SSH_KNOWN_HOSTS_PATH : pystr; SCHEDULER_ENABLED : bool; SCHEDULER_RECONCILIATION_INTERVAL_SECONDS : float;
  RATE_LIMIT_MAX_CLIENTS : Z; AUDIT_LOG_RETENTION_DAYS : Z; AUTO_MIGRATE : bool; E2E_ENABLED : bool;
  INITIAL_SUPERUSER_EMAIL : pystr; INITIAL_SUPERUSER_PASSWORD : pystr }.

Definition py_len (s : pystr) : Z := Z.of_nat (length s).
Definition non_empty (s : pystr) : bool := match s with [] => false | _ => true end.
(** [raise ValueError(message)] if so. *)
Definition reject_if (b : bool) (message : pystr) : res unit := if b then raise ValueError message else Ok tt.
Definition production_rules (s : Settings) : res unit :=
  reject_if (py_len (SECRET_KEY s) <? 32)%Z #"SECRET_KEY must contain at least 32 characters";;
  reject_if (py_len (ENCRYPTION_SALT s) <? 16)%Z #"ENCRYPTION_SALT must contain at least 16 characters";;
  reject_if (non_empty (MASTER_API_KEY s) && (py_len (MASTER_API_KEY s) <? 32)%Z)
    #"MASTER_API_KEY must contain at least 32 characters when configured";;
  reject_if (DEBUG s) #"DEBUG must be disabled in production";;
  reject_if (E2E_ENABLED s) #"E2E_ENABLED must be disabled in production";;
  reject_if (negb (SSH_STRICT_HOST_KEY_CHECKING s)) #"SSH_STRICT_HOST_KEY_CHECKING must be enabled in production";;
  reject_if (bool_decide (#"*" ∈ CORS_ORIGINS s)) #"CORS_ORIGINS wildcard is not allowed in production".
Definition validate_security_configuration (s : Settings) : res Settings :=
  (if str_eqb (ENVIRONMENT s) #"production" then production_rules s else Ok tt);;
  reject_if (non_empty (INITIAL_SUPERUSER_PASSWORD s) && (py_len (INITIAL_SUPERUSER_PASSWORD s) <? 12)%Z)
    #"INITIAL_SUPERUSER_PASSWORD must contain at least 12 characters";;
  Ok s.
(** The types and bounds of the fields. *)
Definition fields_valid (s : Settings) : bool :=
  bool_decide (ENVIRONMENT s ∈ [ #"development"; #"test"; #"production"])
  && bool_decide (LOG_LEVEL s ∈ [ #"DEBUG"; #"INFO"; #"WARNING"; #"ERROR"; #"CRITICAL"])
  && ((1 <=? PORT s) && (PORT s <=? 65535) && (1 <=? RATE_LIMIT_MAX_CLIENTS s))%Z.

(** ** Ports *)

Inductive startup_call :=
| ConfigureLogging (level : pystr) (debug : bool)
| MakeParent (path : pystr) | PathExists (path : pystr) | Touch (path : pystr) | Chmod (path : pystr)
| Upgrade (url : pystr)                           (* [alembic upgrade head], in a thread *)
| GetByEmail (email : pystr) | CreateUser (data : UserCreateDTO)
| StartWorker                                     (* the delivery of the audit outbox *)
| AcquireOwnership | StartMonitor | StartScheduler
| ConfigureExecutor | ConfigureReconciler | Reconcile | MarkRestored (failed : Z) | StartReconciliation (interval : float)
| UtcNow | DeleteBefore (cutoff : Z)
| Serve                                           (* [yield]: until the server is stopped *)
| CloseContainer.
Definition startup_answer (c : startup_call) : Type :=
  match c with
  | PathExists _ => bool
  | GetByEmail _ => option UserViewDTO
  | CreateUser _ => UserViewDTO
  | Reconcile => Z * Z
  | UtcNow | DeleteBefore _ => Z
  | _ => unit
  end.
Definition startup_signature : Signature := {| call := startup_call; answer := startup_answer |}.
#[local] Existing Instance startup_signature.

Section startup.
Context (s : Settings).

(** ** The steps of [ApplicationStartup.run] *)

Definition on_oserror (p : prog unit) : prog unit := try_except p (on_class OSError (fun _ => mret tt)).
Definition _ensure_known_hosts : prog unit :=
  let path := SSH_KNOWN_HOSTS_PATH s in
  on_oserror
    (perform (MakeParent path);;
     exists_ ← perform (PathExists path);
     if negb (exists_ : bool) then perform (Touch path);; perform (Chmod path)
     else on_oserror (perform (Chmod path))).

Definition migrations_failed : exn :=
  Exn RuntimeError #"Database migrations failed. Ensure the database is reachable and the schema is compatible.".
Definition run_sync : prog unit :=
  try_except (perform (Upgrade (DATABASE_URL s))) (on_exception (fun _ => lift (Raise migrations_failed))).
Definition _run_migrations : prog unit := if negb (AUTO_MIGRATE s) then mret tt else run_sync.

(** The exception that [_ensure_initial_superuser] logs is raised again. *)
Definition _ensure_initial_superuser : prog unit :=
  if negb (non_empty (INITIAL_SUPERUSER_EMAIL s)) || negb (non_empty (INITIAL_SUPERUSER_PASSWORD s)) then mret tt
  else
    existing ← perform (GetByEmail (INITIAL_SUPERUSER_EMAIL s));
    match (existing : option UserViewDTO) with
    | Some _ => mret tt
    | None =>
        ignore (perform (CreateUser {| uc_email := INITIAL_SUPERUSER_EMAIL s; uc_password := INITIAL_SUPERUSER_PASSWORD s;
                                       uc_is_superuser := true |}))
    end.

(** [ScheduleRestorer.run]. *)
Definition restore : prog (Z * Z) :=
  '(restored, failed) ← (perform Reconcile : prog (Z * Z));
  perform (MarkRestored failed);;
  mret (restored, failed).
Definition _restore_schedules : prog unit :=
  if negb (SCHEDULER_ENABLED s) then perform (MarkRestored 0)
  else
    perform ConfigureReconciler;;
    restore;;
    perform (StartReconciliation (SCHEDULER_RECONCILIATION_INTERVAL_SECONDS s)).

(** [AuditCleanupJob.run]; times are microseconds. *)
Definition cleanup_run : prog Z :=
  if (AUDIT_LOG_RETENTION_DAYS s <=? 0)%Z then mret 0%Z
  else
    now ← perform UtcNow;
    perform (DeleteBefore (now - AUDIT_LOG_RETENTION_DAYS s * 86400000000)%Z).
Definition _cleanup_audit : prog unit := try_except (ignore cleanup_run) (on_exception (fun _ => mret tt)).

Definition startup_run : prog unit :=
  perform (ConfigureLogging (LOG_LEVEL s) (DEBUG s));;
  _ensure_known_hosts;;
  _run_migrations;;
  _ensure_initial_superuser;;
  perform StartWorker;;
  perform ConfigureExecutor;;
  _restore_schedules;;
  _cleanup_audit.

(** ** The life of the application *)

(** The container builds the scheduler, and starts it, before it hands out the startup. *)
Definition get_script_scheduler : prog unit :=
  if SCHEDULER_ENABLED s then perform AcquireOwnership;; perform StartMonitor;; perform StartScheduler else mret tt.
Definition lifespan : prog unit :=
  get_script_scheduler;;
  startup_run;;
  finally (perform Serve) (perform CloseContainer).
End startup.

(** ** What has happened when requests are served *)

Section serving.
Context (s : Settings).

Definition did {c : startup_call} (a : startup_answer c) (h : history) : Prop := existT c (Ok a : res (startup_answer c)) ∈ h.
Definition wants_superuser : bool := non_empty (INITIAL_SUPERUSER_EMAIL s) && non_empty (INITIAL_SUPERUSER_PASSWORD s).
Definition first_superuser : UserCreateDTO :=
  {| uc_email := INITIAL_SUPERUSER_EMAIL s; uc_password := INITIAL_SUPERUSER_PASSWORD s; uc_is_superuser := true |}.

Definition migrated (h : history) : Prop := AUTO_MIGRATE s = true -> did (c:=Upgrade (DATABASE_URL s)) tt h.
Definition has_superuser (h : history) : Prop := wants_superuser = true ->
  (exists u, did (c:=GetByEmail (INITIAL_SUPERUSER_EMAIL s)) (Some u) h) \/ (exists u, did (c:=CreateUser first_superuser) u h).
Definition scheduled (h : history) : Prop :=
  if SCHEDULER_ENABLED s
  then did (c:=StartScheduler) tt h /\ (exists r, did (c:=Reconcile) r h) /\
       did (c:=StartReconciliation (SCHEDULER_RECONCILIATION_INTERVAL_SECONDS s)) tt h
  else did (c:=MarkRestored 0) tt h.
Definition in_order (h : history) (c : startup_call) : Prop :=
  match c with
  | GetByEmail _ | CreateUser _ => migrated h
  | StartWorker => migrated h /\ has_superuser h
  | ConfigureExecutor => migrated h /\ has_superuser h /\ did (c:=StartWorker) tt h
  | Reconcile => migrated h /\ has_superuser h /\ did (c:=StartWorker) tt h /\ did (c:=ConfigureExecutor) tt h
  | StartReconciliation _ => did (c:=ConfigureExecutor) tt h /\ exists r, did (c:=Reconcile) r h
  | Serve => migrated h /\ has_superuser h /\ did (c:=StartWorker) tt h /\ did (c:=ConfigureExecutor) tt h /\ scheduled h
  | CloseContainer => exists h' a, h = h' ++ [existT Serve a]
  | _ => True
  end.

Lemma did_later {c} (a : startup_answer c) h k : did a h -> did a (h ++ k).
Proof. intros Ha. apply elem_of_app. by left. Qed.
Lemma did_now {c} (a : startup_answer c) h : did a (h ++ [existT c (Ok a)]).
Proof. apply elem_of_app. right. by left. Qed.
Lemma migrated_later h k : migrated h -> migrated (h ++ k).
Proof. intros Hm Ha. by apply did_later, Hm. Qed.
Lemma superuser_later h k : has_superuser h -> has_superuser (h ++ k).
Proof. intros Hm Ha. destruct (Hm Ha) as [[u Hu]|[u Hu]]; [left|right]; exists u; by apply did_later. Qed.
#[local] Hint Resolve did_later did_now migrated_later superuser_later : core.

(** A step that makes only harmless calls, before a rest that may rely on the past. *)
Definition harmless (c : startup_call) : Prop :=
  match c with
  | ConfigureLogging _ _ | MakeParent _ | PathExists _ | Touch _ | Chmod _ | AcquireOwnership | StartMonitor
  | ConfigureReconciler | MarkRestored _ | UtcNow | DeleteBefore _ => True
  | _ => False
  end.
Definition not_served (h : history) : Prop := (Serve ∉ calls h) /\ (CloseContainer ∉ calls h).
Definition life_end (h : history) (r : res unit) : Prop :=
  (not_served h /\ is_ok r = false) \/ exists pre a b, not_served pre /\ h = pre ++ [existT Serve a; existT CloseContainer b].
Lemma not_served_snoc h c a : not_served h -> c <> Serve -> c <> CloseContainer -> not_served (h ++ [existT c a]).
Proof. intros [H1 H2] Hs Hc. unfold not_served, calls. rewrite fmap_app. cbn. split; rewrite not_elem_of_app, list_elem_of_singleton; split; try done; congruence. Qed.
Lemma not_served_app h k : not_served h -> Forall harmless (calls k) -> not_served (h ++ k).
Proof.
  intros [H1 H2] Hk. unfold not_served, calls in *. rewrite fmap_app. rewrite Forall_forall in Hk.
  split; rewrite not_elem_of_app; (split; [done|]); intros Hin; by apply Hk in Hin.
Qed.

Lemma wp_harmless {A B} (p : prog A) (f : A -> prog B) h Q : local_spec harmless (fun _ => True) p ->
  not_served h -> (forall k a, not_served (h ++ k) -> wp (f a) (h ++ k) in_order Q) -> (forall k e, not_served (h ++ k) -> Q (h ++ k) (Raise e)) ->
  wp (p ≫= f) h in_order Q.
Proof.
  intros Hp Hh Hf He. apply wp_bind. eapply wp_mono; [by apply wp_local_calls|by intros ? []|].
  cbn beta. intros h' [a|e] [_ (k & -> & Hk)]; [apply Hf|apply He]; by apply not_served_app.
Qed.
Lemma wp_call {B} (c : startup_call) (f : startup_answer c -> prog B) h Q : in_order h c -> c <> Serve -> c <> CloseContainer -> not_served h ->
  (forall a, not_served (h ++ [existT c (Ok a)]) -> wp (f a) (h ++ [existT c (Ok a)]) in_order Q) ->
  (forall e h', not_served h' -> Q h' (Raise e)) -> wp (perform c ≫= f) h in_order Q.
Proof.
  intros Hc H1 H2 Hh Hf He. apply wp_bind. split; [done|]. intros [a|e]; cbn [wp]; [apply Hf|apply He]; by apply not_served_snoc.
Qed.
Lemma local_hosts : local_spec harmless (fun _ => True) (_ensure_known_hosts s).
Proof.
  intros h. unfold _ensure_known_hosts, on_oserror. cbn zeta.
  repeat first [apply wp_try | apply wp_bind | (split; [done|]; intros [[]|?]; cbn [wp]) | progress cbn beta iota | apply wp_perform
    | done | (unfold on_class; destruct (isinstance _ _)) ].
Qed.

Definition ready (h : history) : Prop :=
  migrated h /\ has_superuser h /\ did (c:=StartWorker) tt h /\ did (c:=ConfigureExecutor) tt h /\ scheduled h.
Definition started (h : history) : Prop := SCHEDULER_ENABLED s = true -> did (c:=StartScheduler) tt h.
(** The outcome of a step that must not serve. *)
Definition step_end (Q : history -> Prop) (h : history) (r : res unit) : Prop :=
  not_served h /\ match r with Ok _ => Q h | Raise _ => True end.
Lemma wp_seq (p q : prog unit) h (P Q : history -> Prop) : wp p h in_order (step_end P) ->
  (forall k, not_served (h ++ k) -> P (h ++ k) -> wp q (h ++ k) in_order (step_end Q)) -> wp (p;; q) h in_order (step_end Q).
Proof.
  intros Hp Hq. apply wp_bind. eapply wp_mono; [apply wp_conj; [exact Hp|apply wp_extends]|by intros ? ? []|].
  intros h' [[]|e] [[Hn HP] [k ->]]; [by apply Hq|done].
Qed.
Lemma wp_one (c : startup_call) (p : prog (startup_answer c)) h (Q : history -> Prop) : p = perform c -> in_order h c ->
  c <> Serve -> c <> CloseContainer -> not_served h -> (forall a, Q (h ++ [existT c (Ok a)])) -> wp (ignore p) h in_order (step_end Q).
Proof.
  intros -> Hc H1 H2 Hh HQ. apply wp_call; [done..| |].
  - intros a Hn. split; [done|apply HQ].
  - intros e h' Hn. by split.
Qed.

Lemma wp_migrations h : not_served h -> wp (_run_migrations s) h in_order (step_end migrated).
Proof.
  intros Hh. unfold _run_migrations, run_sync. destruct (AUTO_MIGRATE s) eqn:E; cbn [negb].
  - apply wp_try. split; [done|]. assert (forall a, not_served (h ++ [existT (Upgrade (DATABASE_URL s)) a])) as Hn by (intros a; by apply not_served_snoc).
    intros [[]|e]; cbn [wp]; [|unfold on_exception; destruct (isinstance _ _); done].
    split; [done|]. intros _. apply did_now.
  - split; [done|]. unfold migrated. by rewrite E.
Qed.
Lemma wp_superuser h : not_served h -> migrated h ->
  wp (_ensure_initial_superuser s) h in_order (step_end (fun h => migrated h /\ has_superuser h)).
Proof.
  intros Hh Hm. unfold _ensure_initial_superuser. destruct (non_empty (INITIAL_SUPERUSER_EMAIL s)) eqn:E1, (non_empty (INITIAL_SUPERUSER_PASSWORD s)) eqn:E2; cbn [negb orb].
  2,3,4: split; [done|]; split; [done|]; unfold has_superuser, wants_superuser; by rewrite E1, E2.
  apply wp_call; [done..| |by intros]. intros [u|] Hn.
  - split; [done|]. split; [by apply migrated_later|]. intros _. left. exists u. apply did_now.
  - apply (wp_one (CreateUser first_superuser)); [done| |done..|]; [by apply migrated_later|]. intros u.
    split; [by do 2 apply migrated_later|]. intros _. right. exists u. apply did_now.
Qed.
Lemma wp_schedules h : not_served h -> started h -> migrated h /\ has_superuser h /\ did (c:=StartWorker) tt h ->
  did (c:=ConfigureExecutor) tt h -> wp (_restore_schedules s) h in_order (step_end ready).
Proof.
  intros Hh Hst (Hm & Hs & Hw) He. unfold _restore_schedules. destruct (SCHEDULER_ENABLED s) eqn:E; cbn [negb].
  - apply wp_call; [done..| |by intros]. intros [] H1. cbn beta. apply wp_bind. unfold restore.
    apply wp_call; [|done..| |by intros]; [split_and!; [by apply migrated_later|by apply superuser_later|by apply did_later|by apply did_later]|]. intros [n m] H2. cbn beta iota. apply wp_call; [done..| |by intros]. intros [] H3. cbn beta.
    apply wp_lift. cbn beta iota. apply wp_perform.
    { split; [by repeat apply did_later|]. exists (n, m). apply did_later, did_now. }
    intros [[]|e]; (split; [by apply not_served_snoc|]); [|done].
    split_and!; [by repeat apply migrated_later|by repeat apply superuser_later|by repeat apply did_later|by repeat apply did_later|].
    unfold scheduled. rewrite E. split_and!; [by repeat apply did_later; apply Hst| |apply did_now].
    exists (n, m). do 2 apply did_later. apply did_now.
  - apply wp_perform; [done|]. intros [[]|e]; (split; [by apply not_served_snoc|]); [|done].
    split_and!; [by apply migrated_later|by apply superuser_later|by apply did_later|by apply did_later|].
    unfold scheduled. rewrite E. apply did_now.
Qed.
Lemma started_later h k : started h -> started (h ++ k).
Proof. intros Hs E. by apply did_later, Hs. Qed.
Lemma ready_later h k : ready h -> ready (h ++ k).
Proof.
  intros (Hm & Hs & Hw & He & Hc). split_and!; [by apply migrated_later|by apply superuser_later|by apply did_later|by apply did_later|].
  unfold scheduled in *. destruct (SCHEDULER_ENABLED s); [|by apply did_later]. destruct Hc as (H1 & [r H2] & H3).
  split_and!; [by apply did_later|exists r|]; by apply did_later.
Qed.
Lemma local_cleanup : local_spec harmless (fun _ => True) (_cleanup_audit s).
Proof.
  intros h. unfold _cleanup_audit, cleanup_run, ignore. apply wp_try, wp_bind. destruct (_ <=? _)%Z; [done|]. apply wp_bind.
  assert (forall h e, match on_exception (fun _ : exn => mret ()) e with Some q => wp q h (fun _ => harmless) (fun _ _ => True) | None => True end) as Hend
    by (intros h' e; unfold on_exception; by destruct (isinstance _ _)).
  split; [done|]. intros [now|e]; cbn [wp]; [|apply Hend]. split; [done|]. intros [n|e]; cbn [wp]; [done|apply Hend].
Qed.
Lemma wp_cleanup h : not_served h -> ready h -> wp (_cleanup_audit s) h in_order (step_end ready).
Proof.
  intros Hh Hr. eapply wp_mono; [apply wp_local_calls, local_cleanup|by intros ? []|].
  intros h' r [_ (k & -> & Hk)]. split; [by apply not_served_app|]. destruct r; [by apply ready_later|done].
Qed.
Lemma wp_startup h : not_served h -> started h -> wp (startup_run s) h in_order (step_end ready).
Proof.
  intros Hh Hst. unfold startup_run. apply wp_harmless; [|done| |by intros].
  { intros h'. apply wp_perform; done. }
  intros k1 _ H1. apply wp_harmless; [apply local_hosts|done| |by intros]. intros k2 _ H2.
  eapply wp_seq; [by apply wp_migrations|]. intros k3 H3 Hm3.
  eapply wp_seq; [by apply wp_superuser|]. intros k4 H4 [Hm4 Hs4].
  apply wp_call; [by split|done..| |by intros]. intros [] H5. cbn beta.
  assert (did (c:=StartWorker) tt (((((h ++ k1) ++ k2) ++ k3) ++ k4) ++ [existT StartWorker (Ok tt)])) as Hw by apply (did_now (c:=StartWorker)).
  apply wp_call; [|done..| |by intros]; [split_and!; [by apply migrated_later|by apply superuser_later|done]|]. intros [] H6. cbn beta.
  eapply wp_seq.
  { apply wp_schedules; [done| | |apply did_now].
    - by repeat apply started_later.
    - split_and!; [by do 2 apply migrated_later|by do 2 apply superuser_later|by apply did_later]. }
  intros k7 H7 Hr. by apply wp_cleanup.
Qed.
Lemma wp_scheduler h : not_served h -> wp (get_script_scheduler s) h in_order (step_end started).
Proof.
  intros Hh. unfold get_script_scheduler, started. destruct (SCHEDULER_ENABLED s); [|by split].
  do 2 (apply wp_call; [done..| |by intros]; intros [] ?; cbn beta). apply wp_perform; [done|].
  intros [[]|e]; (split; [by apply not_served_snoc|]); [|done]. intros _. apply did_now.
Qed.

(** C39: requests are served only when the start has succeeded, in its order: the database is
    migrated (if it is to be) before a user is looked up or created, an account with the address
    of the first superuser was found or created (if there is to be one) before the workers
    start, and the executor of scheduled scripts is configured before schedules are reconciled
    and the periodic reconciliation starts. A start that fails serves nothing - and closes
    nothing of what it started, as the container is closed after serving only; then it is closed
    last, however serving ended. *)
Theorem serving_requires_startup (o : oracle) :
  let '(r, h) := run o (lifespan s) [] in
  grows in_order [] h /\ life_end h r.
Proof.
  assert (not_served []) as H0 by (split; apply not_elem_of_nil).
  assert (wp (lifespan s) [] in_order life_end) as Hw.
  { unfold lifespan. apply wp_bind. eapply wp_mono; [by apply wp_scheduler|done|]. intros h1 [[]|e] [H1 Hst]; [|by left].
    apply wp_bind. eapply wp_mono; [by apply wp_startup|done|]. intros h2 [[]|e] [H2 Hr]; [|by left].
    apply wp_finally. split; [exact Hr|]. intros a. split; [by exists h2, a|]. intros b. cbn [wp]. assert (exists pre a0 b0, not_served pre /\ (h2 ++ [existT Serve a]) ++ [existT CloseContainer b] = pre ++ [existT Serve a0; existT CloseContainer b0]) as Hend
      by (exists h2, a, b; by rewrite <- app_assoc).
    destruct b; by right. }
  apply (wp_run _ o) in Hw. destruct (run o (lifespan s) []) as [r h]. by destruct Hw.
Qed.
End serving.

(** ** The first superuser, over the tables *)

Section superuser.
Context (s : Settings) (user_refused : UserModel -> option exn) (hash_password : pystr -> res pystr) (now : Z).

(** The gateway of users; the other ports do not touch the tables. *)
Definition serve_users (c : startup_call) (t : account_tables) : res (startup_answer c) * account_tables :=
  match c with
  | GetByEmail email => (Ok (view_by_email email t), t)
  | CreateUser data => begin (create_user user_refused hash_password data now) t
  | PathExists _ => (Ok true, t)
  | Reconcile => (Ok (0, 0)%Z, t)
  | UtcNow | DeleteBefore _ => (Ok 0%Z, t)
  | ConfigureLogging _ _ | MakeParent _ | Touch _ | Chmod _ | Upgrade _ | StartWorker | AcquireOwnership | StartMonitor
  | StartScheduler | ConfigureExecutor | ConfigureReconciler | MarkRestored _ | StartReconciliation _ | Serve
  | CloseContainer => (Ok tt, t)
  end.
Local Abbreviation ensure := (@run_state startup_signature account_tables serve_users unit (_ensure_initial_superuser s)).

Lemma find_app_new {A} (f : A -> bool) l x : List.find f l = None -> f x = true -> List.find f (l ++ [x]) = Some x.
Proof. intros Hl Hx. induction l as [|y l IH]; cbn in *; [by rewrite Hx|]. destruct (f y); [done|by apply IH]. Qed.

(** The first start adds one active superuser with the configured address and password, and
    later starts, of whatever number, change nothing. An account that has the address already
    stays as it is, also when it is inactive or no superuser; a start that fails adds nobody. *)
Theorem superuser_ensured (t : account_tables) : wants_superuser s = true ->
  let '(r, t') := ensure t in
  match get_by_email (INITIAL_SUPERUSER_EMAIL s) t, r with
  | Some _, _ => r = Ok tt /\ t' = t
  | None, Raise _ => t' = t
  | None, Ok _ => exists hashed,
      hash_password (INITIAL_SUPERUSER_PASSWORD s) = Ok hashed /\
      at_users t' = at_users t ++ [(at_next t, {| um_email := INITIAL_SUPERUSER_EMAIL s; um_hashed_password := hashed;
        um_is_active := true; um_is_superuser := true; um_created_at := now; um_updated_at := now |})] /\
      at_tokens t' = at_tokens t /\ at_keys t' = at_keys t /\ ensure t' = (Ok tt, t')
  end.
Proof.
  unfold wants_superuser. intros [E1 E2]%andb_true_iff.
  assert (forall u kv, get_by_email (INITIAL_SUPERUSER_EMAIL s) u = Some kv -> ensure u = (Ok tt, u)) as Hfound.
  { intros u kv Hu. unfold _ensure_initial_superuser. rewrite E1, E2. cbn. unfold view_by_email. by rewrite Hu. }
  destruct (get_by_email _ t) as [kv|] eqn:Et; [by rewrite (Hfound t kv)|].
  destruct (ensure t) as [r t'] eqn:E. unfold _ensure_initial_superuser in E. rewrite E1, E2 in E. cbn in E.
  unfold view_by_email in E. rewrite Et in E. cbn in E. unfold begin, create_user in E. cbn [uc_password uc_email uc_is_superuser] in E.
  destruct (hash_password _) as [hashed|e] eqn:Eh; cbn in E; [|by injection E as <- <-].
  unfold create in E. cbn zeta in E. destruct (check_user _ _ _ _) as [[]|e]; cbn in E; [|by injection E as <- <-].
  injection E as <- <-. exists hashed. split_and!; [done..|]. eapply Hfound. unfold get_by_email. cbn [at_users].
  apply find_app_new; [exact Et|]. by apply bool_decide_eq_true.
Qed.
End superuser.
