(* ===== verification/Responses.v ===== *)
(** * Responses at the edge

    [app/api/error_mapping.py], the exception handlers and the middleware of [app/main.py],
    [app/api/middleware.py] and [app/adapters/lifecycle/commit_middleware.py]: the error documents
    (RFC 9457), and the stack a request passes through with what each layer makes of the
    response, of an exception, of the time limit and of a commit that fails.

    The last middleware that is added is the outermost, and [ServerErrorMiddleware] is outside
    them all.  CORS and the router are library code: what they answer is arbitrary.  Log calls
    are left out, and so are the layers of the container and of the metrics, which pass the
    response on. *)
From S2P Require Import Prelude PyStr Errors Json Effects Dto RateLimit.

(** ** Problem documents *)

Definition ERROR_TYPE_BASE : pystr := #"https://nodenexusdev.github.io/node_nexus_api/en/errors".

(** [http.HTTPStatus], as of Python 3.13. *)
Definition HTTPStatus : list (Z * pystr) :=
  [ (100, #"Continue"); (101, #"Switching Protocols"); (102, #"Processing"); (103, #"Early Hints"); (200, #"OK");
    (201, #"Created"); (202, #"Accepted"); (203, #"Non-Authoritative Information"); (204, #"No Content");
    (205, #"Reset Content"); (206, #"Partial Content"); (207, #"Multi-Status"); (208, #"Already Reported");
    (226, #"IM Used"); (300, #"Multiple Choices"); (301, #"Moved Permanently"); (302, #"Found"); (303, #"See Other");
    (304, #"Not Modified"); (305, #"Use Proxy"); (307, #"Temporary Redirect"); (308, #"Permanent Redirect");
    (400, #"Bad Request"); (401, #"Unauthorized"); (402, #"Payment Required"); (403, #"Forbidden");
    (404, #"Not Found"); (405, #"Method Not Allowed"); (406, #"Not Acceptable");
    (407, #"Proxy Authentication Required"); (408, #"Request Timeout"); (409, #"Conflict"); (410, #"Gone");
    (411, #"Length Required"); (412, #"Precondition Failed"); (413, #"Content Too Large"); (414, #"URI Too Long");
    (415, #"Unsupported Media Type"); (416, #"Range Not Satisfiable"); (417, #"Expectation Failed");
    (418, #"I'm a Teapot"); (421, #"Misdirected Request"); (422, #"Unprocessable Content"); (423, #"Locked");
    (424, #"Failed Dependency"); (425, #"Too Early"); (426, #"Upgrade Required"); (428, #"Precondition Required");
    (429, #"Too Many Requests"); (431, #"Request Header Fields Too Large"); (451, #"Unavailable For Legal Reasons");
    (500, #"Internal Server Error"); (501, #"Not Implemented"); (502, #"Bad Gateway"); (503, #"Service Unavailable");
    (504, #"Gateway Timeout"); (505, #"HTTP Version Not Supported"); (506, #"Variant Also Negotiates");
    (507, #"Insufficient Storage"); (508, #"Loop Detected"); (510, #"Not Extended");
    (511, #"Network Authentication Required") ]%Z.

Section problem.
Context `{Unicode}.

(** Where the pattern [(?<=[a-z0-9])(?=[A-Z])|(?<=[A-Z])(?=[A-Z][a-z])] matches: between
    [before] and [c], which [after] follows. *)
Definition word_starts (before : option N) (c : N) (after : pystr) : bool :=
  match before with
  | None => false
  | Some b => ((ascii_lower b || ascii_digit b) && ascii_upper c)
      || (ascii_upper b && ascii_upper c && match after with a :: _ => ascii_lower a | [] => false end)
  end.
Fixpoint hyphenate (before : option N) (s : pystr) : pystr :=
  match s with
  | [] => []
  | c :: s => (if word_starts before c s then #"-" else []) ++ c :: hyphenate (Some c) s
  end.
Definition _error_slug (code : pystr) : pystr :=
  lower (hyphenate None ((fun c => if (c =? 95)%N then 45%N else c) <$> code)).

Definition problem_content (status_code : Z) (code detail : pystr) (request_id : option pystr) (path : pystr) : jobject :=
  let title := default (#"HTTP " ++ str_Z status_code) (dict_get HTTPStatus status_code) in
  [ (#"type", JStr (ERROR_TYPE_BASE ++ #"/" ++ _error_slug code));
    (#"title", JStr title);
    (#"status", JInt status_code);
    (#"detail", JStr detail);
    (#"code", JStr code);
    (#"message", JStr detail);
    (#"request_id", from_option JStr JNull request_id);
    (#"instance", JStr path) ].
End problem.

(** ** Requests and responses *)

Record HttpRequest := { hr_path : pystr; hr_client : option pystr; hr_request_id : option pystr (* X-Request-ID *) }.
Inductive content := Document (fields : jobject) (* application/problem+json *) | Body (text : list N).
(** The names of headers are in lower case, as they are compared. *)
Record Response := { rp_status : Z; rp_headers : list (pystr * pystr); rp_content : content }.

(** [headers[name] = value] of Starlette: the first occurrence is replaced, the others go. *)
Fixpoint set_header (name value : pystr) (hs : list (pystr * pystr)) : list (pystr * pystr) :=
  match hs with
  | [] => [(name, value)]
  | (n, v) :: hs => if str_eqb n name then (name, value) :: filter (fun nv => nv.1 <> name) hs
                    else (n, v) :: set_header name value hs
  end.
Definition with_headers (hs : list (pystr * pystr)) (r : Response) : Response :=
  {| rp_status := rp_status r; rp_headers := foldl (fun acc nv => set_header nv.1 nv.2 acc) (rp_headers r) hs;
     rp_content := rp_content r |}.
(** [JSONResponse(status_code, content, headers, media_type="application/problem+json")]. *)
Definition problem (status_code : Z) (headers : list (pystr * pystr)) (fields : jobject) : Response :=
  {| rp_status := status_code; rp_headers := headers; rp_content := Document fields |}.

Record validation_error := { ve_loc : list (pystr + Z); ve_msg : pystr; ve_encoded : json }.
(** What comes out of the router. *)
Inductive route_result :=
| Answered (r : Response)
| HttpError (status_code : Z) (detail : option pystr) (headers : list (pystr * pystr))  (* [None]: no string *)
| StarletteError (status_code : Z) (detail : option pystr) (headers : list (pystr * pystr))
| Invalid (errors : list validation_error).

(** ** Ports *)

Inductive edge_call :=
| RouteBegin (request_id : option pystr) | RouteEnd   (* the router and what it calls: until it answers *)
| GetSession | HasChanges              (* [session.new or session.dirty or session.deleted] *)
| Commit | Rollback
| Send (response : Response).          (* to the client *)
Definition edge_answer (c : edge_call) : Type :=
  match c with RouteEnd => route_result | HasChanges => bool | _ => unit end.
Definition edge_signature : Signature := {| call := edge_call; answer := edge_answer |}.
#[local] Existing Instance edge_signature.

(** An application of the stack: from [request.state.request_id] as it is before the call, what
    the layers set it to before they call anything, and the response, or the exception, that
    comes out. *)
Definition asgi : Type := option pystr -> option pystr * prog Response.
Definition map_response (f : Response -> Response) (p : prog Response) : prog Response := r ← p; mret (f r).

Section edge.
Context `{Unicode} `{ExnNames} (request : HttpRequest).
Definition path : pystr := hr_path request.

(** ** Exception handlers *)

Definition _http_exception_handler (request_id : option pystr) (status_code : Z) (detail : option pystr)
    (headers : list (pystr * pystr)) : Response :=
  let message := default #"HTTP request failed" detail in
  problem status_code headers (problem_content status_code (#"HTTP_" ++ str_Z status_code) message request_id path).
Definition _starlette_http_exception_handler := _http_exception_handler.

Definition error_line (e : validation_error) : pystr :=
  join #"." ((fun part => match part with inl s => s | inr z => str_Z z end) <$> ve_loc e) ++ #": " ++ ve_msg e.
Definition _validation_exception_handler (request_id : option pystr) (errors : list validation_error) : Response :=
  let detail := #"Request validation failed: " ++ join #"; " (error_line <$> errors) in
  problem 422 [] (problem_content 422 #"RequestValidationError" detail request_id path
    ++ [(#"errors", JArr (ve_encoded <$> errors))]).

Definition domain_error_handler (request_id : option pystr) (exc : exn) : Response :=
  let '(status_code, message) := domain_error_response exc in
  problem status_code [] (problem_content status_code (exn_name (exn_type exc)) message request_id path).

Definition _unhandled_exception_handler (request_id : option pystr) : Response :=
  problem 500 [] (problem_content 500 #"InternalError" #"Internal server error" request_id path).

(** ** The stack, from the inside *)

(** [ExceptionMiddleware] with the handlers above. *)
Definition exception_middleware : asgi := fun request_id =>
  (request_id,
   outcome ← outcome_of (perform (RouteBegin request_id);; perform RouteEnd);
   lift match outcome with
        | Ok (Answered r) => Ok r
        | Ok (HttpError status_code detail headers) => Ok (_http_exception_handler request_id status_code detail headers)
        | Ok (StarletteError status_code detail headers) => Ok (_starlette_http_exception_handler request_id status_code detail headers)
        | Ok (Invalid errors) => Ok (_validation_exception_handler request_id errors)
        | Raise e => if isinstance (exn_type e) DomainError then Ok (domain_error_handler request_id e) else Raise e
        end).

(** [CORSMiddleware]: a preflight request is answered at once, other responses are amended. *)
Definition cors_middleware (preflight : option Response) (cors : Response -> Response) (call_next : asgi) : asgi := fun request_id =>
  match preflight with
  | Some r => (request_id, mret r)
  | None => let '(request_id, p) := call_next request_id in (request_id, map_response cors p)
  end.

(** [RequestIdMiddleware.dispatch]; [fresh] is [uuid.uuid4()]. *)
Definition chosen_id (fresh : uuid) : pystr :=
  match hr_request_id request with Some (c :: s) => c :: s | _ => uuid_str fresh end.
Definition request_id_middleware (fresh : uuid) (call_next : asgi) : asgi := fun _ =>
  let request_id := chosen_id fresh in
  let '(state, p) := call_next (Some request_id) in
  (state, map_response (with_headers [(#"x-request-id", request_id)]) p).

(** [TimeoutMiddleware.dispatch]. *)
Definition or_none (s : option pystr) : option pystr := match s with Some [] => None | _ => s end.
Definition timed_out (request_id : option pystr) : Response :=
  problem 504 (match request_id with Some id => [(#"x-request-id", id)] | None => [] end)
    (problem_content 504 #"HTTP_504" #"Request timed out" request_id path).
(** When the time of [asyncio.wait_for] is over: before the inner layers have started (at the
    latest when the limit is not positive); while the route runs, which then runs on for as long
    as the outer layers make [calls] more calls; or only after the inner layers have answered. *)
Inductive expiry := Unstarted | Meanwhile (calls : nat) | InTime.
(** The wait for the route is given up; the route is not cancelled. *)
Fixpoint abandoned {A} (p : prog A) : prog unit :=
  match p with
  | Done _ | Do RouteEnd _ => mret tt
  | Do c k => Do c (fun a => abandoned (k a))
  end.
Definition wait_for (when : expiry) (p : prog Response) : prog Response :=
  match when with
  | InTime => p
  | Meanwhile _ => abandoned p;; lift (raise TimeoutError [])
  | Unstarted => lift (raise TimeoutError [])
  end.
Definition timeout_middleware (when : expiry) (call_next : asgi) : asgi := fun request_id =>
  if bool_decide (path ∈ EXCLUDED_PATHS) then call_next request_id
  else
    let '(inner_id, p) := call_next request_id in
    let request_id := if when is Unstarted then request_id else inner_id in
    (request_id, try_except (wait_for when p) (on_class TimeoutError (fun _ => mret (timed_out (or_none request_id))))).

(** [RateLimitMiddleware.dispatch], with the decision of [RateLimit.dispatch]. *)
Definition rate_limited (requests : Z) (request_id : option pystr) (retry_after : Z) : Response :=
  problem 429
    ([ (#"x-ratelimit-limit", str_Z requests); (#"x-ratelimit-remaining", #"0"); (#"retry-after", str_Z retry_after)]
       ++ match request_id with Some id => [(#"x-request-id", id)] | None => [] end)
    (problem_content 429 #"HTTP_429" #"Rate limit exceeded" request_id path).
Definition client_ip : pystr := default #"unknown" (hr_client request).
Definition rate_limit_middleware (cfg : limiter) (now : Z) (counts : ip_counts) (call_next : asgi) : asgi := fun request_id =>
  match (dispatch cfg path client_ip now counts).2 with
  | Raise e => (request_id, lift (Raise e))
  | Ok Pass => call_next request_id
  | Ok (Limited retry_after) => (request_id, mret (rate_limited (rl_requests cfg) (or_none request_id) retry_after))
  | Ok (Allowed remaining) =>
      let '(request_id, p) := call_next request_id in
      (request_id, map_response (with_headers [ (#"x-ratelimit-limit", str_Z (rl_requests cfg)); (#"x-ratelimit-remaining", str_Z remaining)]) p)
  end.

(** [CommitOnResponseMiddleware.__call__]: the start of the response waits for the commit. *)
Definition commit_failed : exn := Exn CommitFailedError #"Commit failed".
Definition send_with_commit : prog unit :=
  perform GetSession;;
  changes ← perform HasChanges;
  if (changes : bool)
  then try_except (perform Commit) (on_exception (fun _ => perform Rollback;; lift (Raise commit_failed)))
  else mret tt.
Definition commit_middleware (call_next : asgi) : asgi := fun request_id =>
  let '(request_id, p) := call_next request_id in
  (request_id, if bool_decide (path ∈ EXCLUDED_PATHS) then p else response ← p; send_with_commit;; mret response).

(** [_security_headers]. *)
Definition security_headers : list (pystr * pystr) :=
  [ (#"x-content-type-options", #"nosniff"); (#"x-frame-options", #"DENY"); (#"x-xss-protection", #"1; mode=block");
    (#"strict-transport-security", #"max-age=31536000; includeSubDomains")].
Definition _security_headers (call_next : asgi) : asgi := fun request_id =>
  let '(request_id, p) := call_next request_id in (request_id, map_response (with_headers security_headers) p).

(** [ServerErrorMiddleware] with the handler of [Exception]: the exception is raised again after
    the response. *)
Definition server_error_middleware (call_next : asgi) : prog unit :=
  let '(request_id, p) := call_next None in
  r ← outcome_of p;
  match r with
  | Ok response => perform (Send response)
  | Raise e =>
      if isinstance (exn_type e) Exception_
      then perform (Send (_unhandled_exception_handler request_id));; lift (Raise e)
      else lift (Raise e)
  end.

(** The stack of [create_app].  [RequestLoggingMiddleware], between the layers of CORS and of
    the request id, only logs. *)
Definition stack (cfg : limiter) (now : Z) (counts : ip_counts) (when : expiry) (fresh : uuid)
    (preflight : option Response) (cors : Response -> Response) : prog unit :=
  server_error_middleware (_security_headers (commit_middleware (rate_limit_middleware cfg now counts
    (timeout_middleware when (request_id_middleware fresh (cors_middleware preflight cors exception_middleware)))))).
(** The task group of the timeout layer waits for a route that runs on: it ends after [n] more
    calls of the other layers, or after all of them; what it answers is dropped. *)
Fixpoint ends_after {A} (n : nat) (p : prog A) {struct p} : prog A :=
  match p, n with
  | Done r, _ => Do RouteEnd (fun _ => Done r)
  | Do _ _, O => Do RouteEnd (fun _ => p)
  | Do c k, S n => Do c (fun a => ends_after n (k a))
  end.
Fixpoint runs_on {A} (n : nat) (p : prog A) : prog A :=
  match p with
  | Done r => Done r
  | Do (RouteBegin id) k => Do (RouteBegin id) (fun a => ends_after n (k a))
  | Do c k => Do c (fun a => runs_on n (k a))
  end.
Definition create_app (cfg : limiter) (now : Z) (counts : ip_counts) (when : expiry) (fresh : uuid)
    (preflight : option Response) (cors : Response -> Response) : prog unit :=
  let p := stack cfg now counts when fresh preflight cors in
  match when with Meanwhile n => runs_on n p | _ => p end.
End edge.

(** ** Headers *)

Definition header (name : pystr) (r : Response) : option pystr := dict_get (rp_headers r) name.

Lemma header_set_eq name value hs : dict_get (set_header name value hs) name = Some value.
Proof.
  induction hs as [|[n v] hs IH]; cbn; [by rewrite decide_True|]. destruct (str_eqb n name) eqn:En; cbn; [by rewrite decide_True|].
  rewrite decide_False; [done|]. intros ->. by rewrite (proj2 (str_eqb_eq _ _)) in En.
Qed.
Lemma dict_get_others (hs : list (pystr * pystr)) name other : other <> name ->
  dict_get (filter (fun nv => nv.1 <> name) hs) other = dict_get hs other.
Proof.
  intros Hne. induction hs as [|[n v] hs IH]; [done|]. rewrite filter_cons. cbn. case_decide as E1; cbn; case_decide; subst; done.
Qed.
Lemma header_set_ne name value other hs : other <> name -> dict_get (set_header name value hs) other = dict_get hs other.
Proof.
  intros Hne. induction hs as [|[n v] hs IH]; cbn; [by rewrite decide_False|]. destruct (str_eqb n name) eqn:En; cbn.
  - apply str_eqb_eq in En as ->. rewrite !(decide_False (P:=name = other)) by done. by apply dict_get_others.
  - by case_decide.
Qed.
Lemma header_with other hs r : other ∉ hs.*1 -> header other (with_headers hs r) = header other r.
Proof.
  unfold header, with_headers. cbn. generalize (rp_headers r). induction hs as [|[n v] hs IH]; intros acc; cbn; [done|].
  intros [H1 H2]%not_elem_of_cons. rewrite IH by done. by apply header_set_ne.
Qed.
Lemma header_given name value hs r : NoDup hs.*1 -> (name, value) ∈ hs -> header name (with_headers hs r) = Some value.
Proof.
  unfold header, with_headers. cbn. generalize (rp_headers r). induction hs as [|[n v] hs IH]; intros acc; cbn; [by intros _ ?%elem_of_nil|].
  intros [Hn Hd]%NoDup_cons [[= -> ->]|Hin]%elem_of_cons; [|by apply IH].
  pose proof (header_with n hs {| rp_status := 0; rp_headers := set_header n v acc; rp_content := Body [] |} Hn) as Hw.
  unfold header, with_headers in Hw. cbn in Hw. by rewrite Hw, header_set_eq.
Qed.

(** ** What every response has *)

Section contract.
#[local] Existing Instance edge_signature.
Context `{Unicode} `{ExnNames} (request : HttpRequest) (cfg : limiter) (now : Z) (counts : ip_counts) (when : expiry) (fresh : uuid).
Context (preflight : option Response) (cors : Response -> Response).
Local Abbreviation path := (path request).
Local Abbreviation decision := (dispatch cfg path (client_ip request) now counts).2.
Open Scope Z_scope.

(** The responses that were sent, and the routes that were begun. *)
Definition sent (h : history) : list Response := omap (fun c => match c with Send r => Some r | _ => None end) (calls h).
Definition routed (h : history) : list (option pystr) := omap (fun c => match c with RouteBegin id => Some id | _ => None end) (calls h).
(** No change was pending, or it was committed. *)
Definition saved (h : history) : Prop :=
  path ∈ EXCLUDED_PATHS \/ existT HasChanges (Ok false : res (edge_answer HasChanges)) ∈ h \/ existT Commit (Ok tt : res (edge_answer Commit)) ∈ h.
(** The requests of the client that count, and whether they are too many. *)
Definition recent : list Z := counted cfg (client_ip request) now counts.
Definition refused : Prop := (path ∉ EXCLUDED_PATHS) /\ rl_requests cfg <= Z.of_nat (length recent).
(** The request id that is shown: neither the rate limiter nor a limit that is over at once have one. *)
Definition shown_id : option pystr :=
  if bool_decide (path ∈ EXCLUDED_PATHS) then Some (chosen_id request fresh)
  else if rl_requests cfg <=? Z.of_nat (length recent) then None
  else match when with Unstarted => None | _ => Some (chosen_id request fresh) end.
(** The headers of the rate limit. *)
Definition counted_in (r : Response) : Prop :=
  header #"x-ratelimit-limit" r = Some (str_Z (rl_requests cfg)) /\
  if rl_requests cfg <=? Z.of_nat (length recent)
  then header #"x-ratelimit-remaining" r = Some #"0" /\
       exists first, head recent = Some first /\ header #"retry-after" r = Some (str_Z (retry_after cfg now first))
  else header #"x-ratelimit-remaining" r = Some (str_Z (rl_requests cfg - Z.of_nat (length recent) - 1)).
Definition complete (r : Response) : Prop :=
  header #"x-request-id" r = shown_id /\ (path ∉ EXCLUDED_PATHS -> counted_in r).
Definition secured (r : Response) : Prop := Forall (fun nv => header nv.1 r = Some nv.2) security_headers.

Lemma chosen_nonempty : or_none (Some (chosen_id request fresh)) = Some (chosen_id request fresh).
Proof.
  unfold chosen_id, uuid_str. destruct (hr_request_id request) as [[|c s]|]; [|done|]; cbn zeta; by destruct (hex_fixed 8 _).
Qed.

(** The decision, by the requests that count. *)
Lemma make_room_entries base : make_room cfg (client_ip request) counts = Ok base -> counted cfg (client_ip request) now base = recent.
Proof.
  unfold make_room, recent, counted, entries_of. destruct (dict_mem _ _) eqn:Em; cbn [negb andb]; [by intros [= ->]|].
  destruct (_ <=? _); [|by intros [= ->]]. destruct counts as [|[k es] st]; [done|]. intros [= <-]. unfold dict_mem in Em. cbn in *.
  by destruct (decide (k = client_ip request)).
Qed.
Lemma decision_pass : path ∈ EXCLUDED_PATHS -> decision = Ok Pass.
Proof. intros Hp. unfold dispatch. by rewrite bool_decide_eq_true_2. Qed.
Lemma decision_counted : path ∉ EXCLUDED_PATHS ->
  (exists e, decision = Raise e) \/
  (rl_requests cfg <= Z.of_nat (length recent) /\ exists first, head recent = Some first /\ decision = Ok (Limited (retry_after cfg now first))) \/
  (Z.of_nat (length recent) < rl_requests cfg /\ decision = Ok (Allowed (rl_requests cfg - Z.of_nat (length recent) - 1))).
Proof.
  intros Hp. unfold dispatch. rewrite bool_decide_eq_false_2 by done. destruct (make_room _ _ _) as [base|e] eqn:Em; [|by left; exists e].
  unfold _cleanup_old_entries. fold (entries_of base (client_ip request)). fold (counted cfg (client_ip request) now base).
  rewrite (make_room_entries base Em), dict_get_move_to_end, dict_get_set_eq. change (default [] (Some recent)) with recent. cbn zeta.
  destruct (Z.leb_spec (rl_requests cfg) (Z.of_nat (length recent))) as [Hle|Hlt]; cbn [snd].
  - destruct recent as [|first rest]; [left; by eexists|]. right; left. split; [done|]. by exists first.
  - right; right. split; [done|]. do 2 f_equal. lia.
Qed.

(** ** The layers *)

Definition inner : asgi := request_id_middleware request fresh (cors_middleware preflight cors (exception_middleware request)).
Definition on_route (c : edge_call) : Prop := match c with RouteBegin _ | RouteEnd => True | _ => False end.
Definition gives (P : Response -> Prop) (r : res Response) : Prop := forall resp, r = Ok resp -> P resp.

Lemma local_map (G : call -> Prop) f P Q p : local_spec G (gives P) p -> (forall resp, P resp -> Q (f resp)) ->
  local_spec G (gives Q) (map_response f p).
Proof. intros Hp Hf. eapply local_bind; [exact Hp| |by intros e]. intros r Hr. apply local_done. intros ? [= <-]. by apply Hf, Hr. Qed.
Lemma local_any {A} (G : call -> Prop) (p : prog A) Q : local_spec G Q p -> local_spec G (fun _ => True) p.
Proof. by apply local_mono. Qed.
Lemma local_inner id : local_spec on_route (gives (fun r => header #"x-request-id" r = Some (chosen_id request fresh))) (inner id).2.
Proof.
  assert (forall p, local_spec on_route (gives (fun _ => True)) p ->
    local_spec on_route (gives (fun r => header #"x-request-id" r = Some (chosen_id request fresh))) (map_response (with_headers [(#"x-request-id", chosen_id request fresh)]) p)) as Hmap.
  { intros p Hp. eapply local_map; [exact Hp|]. intros resp _. apply header_given; [apply NoDup_singleton|by left]. }
  unfold inner, request_id_middleware, cors_middleware. destruct preflight as [r|]; cbn [fst snd]; apply Hmap; [by apply local_done|].
  eapply (local_map _ _ (fun _ => True)); [|done]. intros h. split; [done|]. intros [[]|e]; cbn; [split; [done|]; intros [[]|e]; cbn|].
  all: try done; by destruct (isinstance _ _).
Qed.
Lemma inner_state id : (inner id).1 = Some (chosen_id request fresh).
Proof. unfold inner, request_id_middleware, cors_middleware. by destruct preflight. Qed.
Lemma local_abandoned {A} (G : call -> Prop) Q (p : prog A) : local_spec G Q p -> local_spec G (fun _ => True) (abandoned p).
Proof.
  induction p as [r|c k IH]; intros Hp; [done|]. destruct (local_inv _ _ _ _ Hp) as [Hc Hk].
  destruct c; try (by apply local_done); apply local_do; (split; [done|]); intros a; by eapply IH.
Qed.

(** The request id the timeout layer leaves, and its answer. *)
Definition left_id : option pystr := match when with Unstarted => None | _ => Some (chosen_id request fresh) end.
Lemma timeout_state : path ∉ EXCLUDED_PATHS -> (timeout_middleware request when inner None).1 = left_id.
Proof.
  intros Hp. unfold timeout_middleware, left_id. rewrite bool_decide_eq_false_2 by done. pose proof (inner_state None) as Hi.
  destruct (inner None) as [id p]. cbn in *. subst id. by destruct when.
Qed.
Lemma local_timeout : path ∉ EXCLUDED_PATHS ->
  local_spec on_route (gives (fun r => header #"x-request-id" r = left_id)) (timeout_middleware request when inner None).2.
Proof.
  intros Hp. pose proof (timeout_state Hp) as Hid. unfold timeout_middleware in *. rewrite bool_decide_eq_false_2 in * by done.
  pose proof (local_inner None) as Hi. destruct (inner None) as [inner_id p]. cbn [fst snd] in *. rewrite Hid.
  assert (header #"x-request-id" (timed_out request (or_none left_id)) = left_id) as Hout.
  { assert (or_none left_id = left_id) as -> by (unfold left_id; destruct when; [done|apply chosen_nonempty..]). by destruct left_id. }
  eapply (local_try _ (gives (fun r => header #"x-request-id" r = left_id))); [|done|].
  - unfold wait_for, left_id. destruct when as [|n|]; [by apply local_done| |done].
    eapply local_bind; [by eapply local_abandoned| |by intros e]. intros [] _. by apply local_done.
  - intros e _. unfold on_class. destruct (isinstance _ _); [|done]. apply local_done. by intros ? [= <-].
Qed.

(** Nothing is routed that the limiter refuses; what it passes on has its headers. *)
Definition limited : asgi := rate_limit_middleware request cfg now counts (timeout_middleware request when inner).
Lemma local_limited : local_spec (fun c => on_route c /\ ~ refused) (gives complete) (limited None).2.
Proof.
  assert (forall P Q p, local_spec on_route (gives P) p -> (forall resp, P resp -> Q resp) -> ~ refused ->
    local_spec (fun c => on_route c /\ ~ refused) (gives Q) p) as Hweaken.
  { intros P Q p Hp HQ Hn h. eapply wp_mono; [apply Hp|done|]. intros h' r Hr resp E. by apply HQ, Hr. }
  unfold limited, rate_limit_middleware. destruct (decide (path ∈ EXCLUDED_PATHS)) as [Hp|Hp].
  - rewrite decision_pass by done. assert (~ refused) as Hn by by intros [].
    unfold timeout_middleware. rewrite bool_decide_eq_true_2 by done. eapply Hweaken; [apply local_inner| |done].
    intros resp Hr. unfold complete, shown_id. by rewrite bool_decide_eq_true_2.
  - destruct (decision_counted Hp) as [[e ->]|[(Hle & first & Hf & ->)|[Hlt ->]]]; [by apply local_done|..].
    + apply local_done. intros ? [= <-]. unfold complete, shown_id, counted_in. rewrite bool_decide_eq_false_2 by done.
      rewrite (proj2 (Z.leb_le _ _)) by done. split; [done|]. intros _. split; [done|]. split; [done|]. by exists first.
    + pose proof (local_timeout Hp) as Ht. destruct (timeout_middleware request when inner None) as [id p]. cbn [snd] in *.
      assert (~ refused) as Hn by (intros [_ ?]; lia).
      eapply Hweaken; [|done|done]. eapply local_map; [exact Ht|]. intros resp Hr. unfold complete, shown_id, counted_in.
      rewrite bool_decide_eq_false_2 by done. rewrite (proj2 (Z.leb_gt _ _)) by done. split.
      { rewrite header_with; [exact Hr|set_solver]. }
      intros _. assert (forall n v, (n, v) ∈ [ (#"x-ratelimit-limit", str_Z (rl_requests cfg));
          (#"x-ratelimit-remaining", str_Z (rl_requests cfg - Z.of_nat (length recent) - 1))] ->
        header n (with_headers [ (#"x-ratelimit-limit", str_Z (rl_requests cfg));
          (#"x-ratelimit-remaining", str_Z (rl_requests cfg - Z.of_nat (length recent) - 1))] resp) = Some v) as Hg.
      { intros n v. apply header_given. cbn. apply NoDup_cons. split; [set_solver|apply NoDup_singleton]. }
      split; apply Hg; set_solver.
Qed.

(** ** The commit *)

(** The answers of the commits, and of the rollbacks. *)
Definition commits (h : history) : list (res unit) :=
  omap (fun ev : event => let '(existT c a) := ev in match c return res (edge_answer c) -> _ with Commit => fun a => Some a | _ => fun _ => None end a) h.
Definition rollbacks (h : history) : list (res unit) :=
  omap (fun ev : event => let '(existT c a) := ev in match c return res (edge_answer c) -> _ with Rollback => fun a => Some a | _ => fun _ => None end a) h.
Definition commit_refused (h : history) : Prop :=
  exists e, Raise e ∈ commits h /\ isinstance (exn_type e) Exception_ = true /\ Ok tt ∈ rollbacks h.

(** Before the response is sent. *)
Definition ready (h : history) (out : res Response) : Prop :=
  sent h = [] /\ (refused -> routed h = []) /\
  match out with
  | Ok resp => complete resp /\ saved h /\ ~ commit_refused h
  | Raise e => commit_refused h -> isinstance (exn_type e) Exception_ = true
  end.
Lemma routes_only h : Forall (fun c => on_route c /\ ~ refused) (calls h) ->
  sent h = [] /\ (refused -> h = []) /\ commits h = [] /\ rollbacks h = [].
Proof.
  induction h as [|[c a] h IH]; [done|]. intros [[Hc Hr] (Hs & Hn & Hk & Hb)%IH]%Forall_cons. by destruct c.
Qed.
(** The calls of the commit after those of the inner layers. *)
Lemma ready_after k l out : Forall (fun c => on_route c /\ ~ refused) (calls k) ->
  Forall (fun c => match c with RouteBegin _ | Send _ => False | _ => True end) (calls l) ->
  match out with
  | Ok resp => complete resp /\ (path ∈ EXCLUDED_PATHS \/ saved l) /\ ~ commit_refused l
  | Raise e => commit_refused l -> isinstance (exn_type e) Exception_ = true
  end -> ready (k ++ l) out.
Proof.
  intros (Hs & Hn & Hk & Hb)%routes_only Hl Ho. unfold ready. assert (commit_refused (k ++ l) <-> commit_refused l) as Hc.
  { unfold commit_refused, commits, rollbacks. rewrite !omap_app. fold (commits k) (rollbacks k). by rewrite Hk, Hb. }
  assert (sent l = [] /\ routed l = []) as [Hsl Hrl].
  { clear -Hl. unfold sent, routed. induction Hl as [|c cs Hc _ [IH1 IH2]]; [done|]. by destruct c. }
  split_and!.
  - unfold sent, calls in *. by rewrite fmap_app, omap_app, Hs, Hsl.
  - intros ->%Hn. exact Hrl.
  - destruct out as [resp|e]; [|by rewrite Hc]. destruct Ho as (Hr & Hv & Hf). split; [done|]. split; [|by rewrite Hc].
    unfold saved in *. rewrite !elem_of_app. tauto.
Qed.
(** [done_after Hk]: the end of a branch of the commit. *)
#[local] Ltac done_after Hk := cbn [mret wp app]; rewrite <- ?app_assoc; apply ready_after; [exact Hk|repeat constructor|].
Lemma wp_commit : wp (commit_middleware request limited None).2 [] (fun _ _ => True) ready.
Proof.
  assert (forall e, ~ Raise e ∈ commits []) as Hnone by (intros e He; by apply elem_of_nil in He).
  unfold commit_middleware. pose proof local_limited as Hl. destruct (limited None) as [id p]. cbn [snd] in *. case_bool_decide as Hp.
  - eapply wp_mono; [by apply wp_local_calls|done|]. intros h out [Hg (k & -> & Hk)].
    cbn. rewrite <- (app_nil_r k). apply ready_after; [done|constructor|].
    destruct out as [resp|e]; [split_and!; [by apply Hg|by left|]|]; by intros (? & ?%Hnone & _).
  - apply wp_bind. eapply wp_mono; [by apply wp_local_calls|done|].
    intros h [resp|e] [Hg (k & -> & Hk)].
    2: { cbn. rewrite <- (app_nil_r k). apply ready_after; [done|constructor|]. by intros (? & ?%Hnone & _). }
    specialize (Hg _ eq_refl). apply wp_bind. unfold send_with_commit.
    split; [done|]. intros [[]|e]. 2: { done_after Hk. by intros (? & ?%Hnone & _). }
    split; [done|]. intros [[]|e].  3: { done_after Hk. by intros (? & ?%Hnone & _). }
    2: { done_after Hk. split_and!; [done| |by intros (? & ?%Hnone & _)]. right. right. left. set_solver. }
    split; [done|]. intros [[]|e].
    { done_after Hk. split_and!; [done| |]. { do 3 right. set_solver. } intros (e & He & _). cbn in He. set_solver. }
    unfold on_exception. cbn [perform try_except]. destruct (isinstance (exn_type e) Exception_) eqn:Ee.
    2: { done_after Hk. intros (e' & He & Hi & _). cbn in He. apply list_elem_of_singleton in He as [= ->]. congruence. }
    split; [done|]. intros [[]|e']. { done_after Hk. intros _. by vm_compute. }
    done_after Hk. intros (? & _ & _ & Hr). cbn in Hr. by apply list_elem_of_singleton in Hr.
Qed.

(** ** The end *)

(** How a request ends: with one response, the last call, which has passed every layer or is the
    bare internal error; or, when a task is cancelled, with none. *)
Definition answered (h : history) (r : res unit) : Prop :=
  (sent h = [] /\ exists e, r = Raise e /\ isinstance (exn_type e) Exception_ = false)
  \/ exists resp before a, h = before ++ [existT (Send resp) a] /\ sent before = [] /\
       ((secured resp /\ complete resp /\ saved before)
        \/ (is_ok r = false /\ exists id, resp = _unhandled_exception_handler request id)).
Definition contract (h : history) (r : res unit) : Prop :=
  answered h r /\ (refused -> routed h = []) /\
  (commit_refused h -> exists id resp, sent h = [resp] /\ resp = _unhandled_exception_handler request id /\
     rp_status resp <> status_for_domain_error commit_failed).

Lemma secured_with r : secured (with_headers security_headers r).
Proof. apply Forall_forall. intros [n v] Hin. apply header_given; [|done]. apply (bool_decide_unpack _). by vm_compute. Qed.
Lemma complete_secured r : complete r -> complete (with_headers security_headers r).
Proof.
  assert (forall n, n ∈ [ #"x-request-id"; #"x-ratelimit-limit"; #"x-ratelimit-remaining"; #"retry-after"] ->
    header n (with_headers security_headers r) = header n r) as Hn.
  { intros n Hn. apply header_with. assert (Forall (fun n => n ∉ security_headers.*1)
      [ #"x-request-id"; #"x-ratelimit-limit"; #"x-ratelimit-remaining"; #"retry-after"]) as Hf by (apply (bool_decide_unpack _); by vm_compute).
    rewrite Forall_forall in Hf. by apply Hf. }
  unfold complete, counted_in. rewrite !Hn by set_solver. done.
Qed.
Lemma sent_last h resp a out : ready h out -> let h' := h ++ [existT (Send resp) a] in
  sent h' = [resp] /\ (refused -> routed h' = []) /\ (commit_refused h' -> commit_refused h).
Proof.
  intros (Hs & Hn & _). cbn zeta. unfold sent, routed, commit_refused, commits, rollbacks, calls in *. split_and!.
  - by rewrite fmap_app, omap_app, Hs.
  - intros Hr. by rewrite fmap_app, omap_app, Hn.
  - rewrite !omap_app. cbn. by rewrite !app_nil_r.
Qed.
Lemma contract_bare h id a r out : ready h out -> is_ok r = false ->
  contract (h ++ [existT (Send (_unhandled_exception_handler request id)) a]) r.
Proof.
  intros Hh Hr. destruct (sent_last h (_unhandled_exception_handler request id) a out Hh) as (Hs & Hn & _). split_and!; [right|done|].
  - do 3 eexists. split; [done|]. split; [apply Hh|]. right. eauto.
  - intros _. exists id, (_unhandled_exception_handler request id). split_and!; [done..|]. by vm_compute.
Qed.
Lemma wp_stack : wp (stack request cfg now counts when fresh preflight cors) [] (fun _ _ => True) contract.
Proof.
  unfold stack, server_error_middleware, _security_headers. fold inner. fold limited. pose proof wp_commit as Hc.
  destruct (commit_middleware request limited None) as [id p]. cbn [snd] in Hc. apply wp_bind, wp_outcome. unfold map_response. apply wp_bind.
  eapply wp_mono; [exact Hc|done|]. intros h [resp|e] Hh; cbn.
  - split; [done|]. intros a. destruct (sent_last h (with_headers security_headers resp) a _ Hh) as (Hs & Hn & Hf).
    destruct Hh as (Hh & _ & Hr & Hv & Hno). assert (contract (h ++ [existT (Send (with_headers security_headers resp)) a]) a) as Ha; [|by destruct a as [[]|]].
    split_and!; [right|done|by intros ?%Hf]. do 3 eexists. split; [done|]. split; [done|]. left.
    split_and!; [apply secured_with|by apply complete_secured|done].
  - destruct (isinstance _ _) eqn:Ee; cbn.
    + split; [done|]. by intros [[]|e']; eapply contract_bare.
    + destruct Hh as (Hs & Hn & Hf). split_and!; [left; eauto|done|]. intros Hi%Hf. congruence.
Qed.

(** ** A route that runs on *)

(** Without the ends of routes, which may come at any moment after a timeout. *)
Definition at_end (c : edge_call) : bool := if c is RouteEnd then true else false.
Definition visible (h : history) : history := filter (fun ev => at_end (called ev) = false) h.

Lemma visible_app h k : visible (h ++ k) = visible h ++ visible k.
Proof. apply filter_app. Qed.
Lemma wp_visible {A} (p : prog A) h h' (Q : history -> res A -> Prop) :
  wp p h (fun _ _ => True) (fun h r => Q (visible h) r) -> visible h' = visible h -> wp p h' (fun _ _ => True) (fun h r => Q (visible h) r).
Proof.
  revert h h'. induction p as [r|c k IH]; intros h h' Hp E; cbn in *; [by rewrite E|]. split; [done|]. intros a.
  eapply IH; [apply Hp|]. by rewrite !visible_app, E.
Qed.
Lemma wp_ends_after {A} n (p : prog A) h (Q : history -> res A -> Prop) :
  wp p h (fun _ _ => True) (fun h r => Q (visible h) r) -> wp (ends_after n p) h (fun _ _ => True) (fun h r => Q (visible h) r).
Proof.
  assert (forall h (a : res (answer RouteEnd)), visible (h ++ [existT RouteEnd a]) = visible h) as E by (intros; by rewrite visible_app, app_nil_r).
  revert n h. induction p as [r|c k IH]; intros n h Hp; [split; [done|]; intros a; cbn; by rewrite E|].
  destruct n as [|n]; (split; [done|]); intros a; [by apply (wp_visible _ h)|]. apply IH, Hp.
Qed.
Lemma wp_runs_on {A} n (p : prog A) h (Q : history -> res A -> Prop) :
  wp p h (fun _ _ => True) (fun h r => Q (visible h) r) -> wp (runs_on n p) h (fun _ _ => True) (fun h r => Q (visible h) r).
Proof.
  revert h. induction p as [r|c k IH]; intros h Hp; [done|]. destruct Hp as [_ Hp].
  destruct c; (split; [done|]); intros a; first [apply wp_ends_after, Hp|apply IH, Hp].
Qed.
Lemma visible_sent h : sent (visible h) = sent h /\ routed (visible h) = routed h.
Proof.
  unfold sent, routed. induction h as [|[c a] h [IH1 IH2]]; [done|]. change (existT c a :: h) with ([existT c a] ++ h).
  rewrite visible_app. unfold calls in *. rewrite !fmap_app, !omap_app, IH1, IH2. by destruct c.
Qed.
Lemma visible_refused h : commit_refused (visible h) <-> commit_refused h.
Proof.
  assert (commits (visible h) = commits h /\ rollbacks (visible h) = rollbacks h) as [H1 H2]; [|unfold commit_refused; by rewrite H1, H2].
  unfold commits, rollbacks. induction h as [|[c a] h [IH1 IH2]]; [done|]. change (existT c a :: h) with ([existT c a] ++ h).
  rewrite visible_app, !omap_app, IH1, IH2. by destruct c.
Qed.
Lemma contract_visible h r : contract h r -> contract (visible h) r.
Proof.
  destruct (visible_sent h) as [Hs Hr]. unfold contract. rewrite Hs, Hr, visible_refused. intros (Ha & Hn & Hf). split_and!; [|done..].
  destruct Ha as [Ha|(resp & before & a & -> & Hb & Ha)]; [left; by rewrite Hs|]. right. exists resp, (visible before), a.
  split; [by rewrite visible_app|]. split; [by rewrite (proj1 (visible_sent before))|]. destruct Ha as [(H1 & H2 & H3)|Ha]; [left|by right].
  split_and!; [done..|]. unfold saved, visible in *. rewrite !list_elem_of_filter. destruct H3 as [H3|[H3|H3]]; auto.
Qed.

(** C40: whatever the routes, the database and the client do, a request ends with exactly one
    response, unless a task is cancelled. A response that passes every layer has the four
    security headers and follows the commit, if changes were pending when the session was asked;
    it shows the request id the client gave, or else a fresh one, unless the time limit is over
    before it is set. Unless its path is exempt it also has the limit and what remains of it by
    the requests of the client that count; when these are as many as the limit, no route is
    begun and the answer has no request id but the time to wait. Any other response is the bare
    internal error with status 500, made outside of these layers: also when a commit fails and
    is rolled back, so the documented status 503 is not answered then. A route whose time is
    over may run on during and after the commit and the response. *)
Theorem response_contract (o : oracle) :
  let '(r, h) := run o (create_app request cfg now counts when fresh preflight cors) [] in
  answered (visible h) r /\ (refused -> routed h = []) /\
  (commit_refused h -> exists id resp, sent h = [resp] /\ resp = _unhandled_exception_handler request id /\
     rp_status resp <> status_for_domain_error commit_failed).
Proof.
  assert (wp (create_app request cfg now counts when fresh preflight cors) [] (fun _ _ => True) (fun h r => contract (visible h) r)) as Hw.
  { assert (wp (stack request cfg now counts when fresh preflight cors) [] (fun _ _ => True) (fun h r => contract (visible h) r)) as Hs.
    { eapply wp_mono; [apply wp_stack|done|]. intros h r. apply contract_visible. }
    unfold create_app. cbn zeta. destruct when; [done|by apply wp_runs_on|done]. }
  apply (wp_run _ o) in Hw. destruct (run o _ []) as [r h]. destruct Hw as [(Ha & Hn & Hf) _].
  destruct (visible_sent h) as [Hs Hr]. rewrite visible_refused, Hs in Hf. rewrite Hr in Hn. by split.
Qed.
End contract.

(** ** Concrete runs *)

Section examples.
#[local] Existing Instance edge_signature.
#[local] Existing Instance ascii_only.
#[local] Instance edge_names : ExnNames := {| exn_name _ := #"CommitFailedError" |}.

Example error_slugs :
  _error_slug <$> [ #"APIKeyNotFoundError"; #"HTTP_429"; #"InternalError"; #"DockerDaemonError"]
  = [ #"api-key-not-found-error"; #"http-429"; #"internal-error"; #"docker-daemon-error"].
Proof. reflexivity. Qed.

(** A database that refuses the commit of a pending change, and one that makes it. *)
Definition edge_world (commit : res unit) (h : history) (c : edge_call) : res (edge_answer c) :=
  match c with
  | RouteEnd => Ok (Answered {| rp_status := 201; rp_headers := []; rp_content := Body [] |})
  | HasChanges => Ok true
  | Commit => commit
  | RouteBegin _ | GetSession | Rollback | Send _ => Ok tt
  end.
Definition some_request : HttpRequest := {| hr_path := #"/api/v2/nodes"; hr_client := None; hr_request_id := Some #"req-1" |}.
Definition some_limiter : limiter := {| rl_requests := 100; rl_window := 60; rl_max_clients := 10 |}.
Example failed_commit :
  let '(r, h) := run (edge_world (raise (LibraryError #"IntegrityError") []))
    (create_app some_request some_limiter 0 [] InTime 0%N None (fun response => response)) [] in
  r = Raise commit_failed /\ rp_status <$> sent h = [500%Z] /\ map (header #"x-frame-options") (sent h) = [None] /\
  status_for_domain_error commit_failed = 503%Z.
Proof. by vm_compute. Qed.

(** What a route has changed so far is committed under it by the response that reports its timeout. *)
Example timeout_commits_running_route :
  let '(r, h) := run (edge_world (Ok tt))
    (create_app some_request some_limiter 0 [] (Meanwhile 9) 0%N None (fun response => response)) [] in
  rp_status <$> sent h = [504%Z] /\
  exists response, calls h = [RouteBegin (Some #"req-1"); GetSession; HasChanges; Commit; Send response; RouteEnd].
Proof. vm_compute. split; [done|]. by eexists. Qed.
End examples.
